(* ===== verification/_CoqProject ===== *)
-Q . S2P
Prelude.v
Identity.v
Bytes.v
Cfc.v
Scope.v
Budget.v
Capability.v
Context.v
Scheduler.v
Recovery.v
Blob.v
ExpFs.v
Abi.v
Registry.v
Relationship.v
Pimp.v
Diese.v
NativeImage.v
NativeCompiler.v
Bootstrap.v
Http.v
Geometry.v
Display.v
DisplayEvents.v
DisplayInvariant.v
DisplayDamage.v
DisplayFrames.v
Crypto.v
StoreCodec.v
StoreRoundtrip.v
StoreTyped.v
Records.v
GenesisPlan.v
GenesisCodec.v
FatGeometry.v
StoreDisk.v
Store.v
StoreReads.v
StoreCrash.v
StoreArchive.v
State.v
Frames.v
Paging.v
ServiceImage.v
FormSpace.v
FormLoad.v
FormMachine.v
FormPrepare.v
FormIsolation.v
FormView.v
NetPortal.v
FormTrap.v
FormConfined.v
FormAuthority.v
