(* ===== verification/Prelude.v ===== *)
(** * ExpOS: a verification library

    ExpOS is an operating system whose objects are Forms (programs, data,
    policies) placed in Dimensions, all owned by a CFC (Central Inflation
    Fabric, one installed environment).  The crate [crates/expos-core] holds
    its decision logic: identities, ownership, reachability, capabilities,
    budgets, execution contexts and their scheduler, the record store with its
    blobs and recovery history, policy resolution, the Form ABI, the EXF1
    container, the on-device compiler, display composition and HTTP parsing.  The
    kernel calls this crate for every decision it takes on behalf of a Form, and
    keeps the state of the system on disk: the ExpFS store writes snapshots of
    Forms, Dimensions, Handles and settings, and the installer writes the records
    that identify an installation.  The kernel also leases physical frames, builds
    the page tables under which Forms and service workers run in Ring 3, and
    answers their traps.  This library models these parts as pure functions and
    proves what each promises.

    ** Files and the code they model: the core crate (src/crates/expos-core/src)

    - Prelude.v: results, panics, fixed-width integers, slot tables, ring
      buffers, record updates, tactics; the generic lemmas.
    - Identity.v: [Fin] (fin.rs), [CfcFin] (cfc.rs), [Text] (text.rs), and the
      string operations of the standard library.
    - Cfc.v: [Cfc] and [CfcCatalog] (cfc.rs); the class [CfcOwnership].
    - Scope.v: [ExpScope] (scope.rs), generic in [CfcOwnership].
    - Budget.v: [ExpBudget] (budget.rs).
    - Capability.v: [CapabilityBroker], Form Handles, ExpSeal (capability.rs).
    - Context.v, Scheduler.v: [ExecutionContext] and [Scheduler]
      (execution.rs); a context holds a budget and Handles.
    - Recovery.v: [CfcRecovery] and [RecoveryCatalog] (recovery.rs).
    - Blob.v: [ChunkedBlob] and [CfcBlobStore] (blob.rs).
    - ExpFs.v: [ExpFs] and its transactions (expfs.rs), over Cfc.v and Blob.v;
      the class [Versioned] covers its two tables.
    - Abi.v: wire numbers, request validation and [NativeCallGate] (abi.rs),
      over Capability.v.
    - Registry.v: Forms, Dimensions and bindings (form.rs).
    - Relationship.v: the typed edge graph (relationship.rs).
    - Pimp.v, Diese.v: policy sources (pimp.rs) and their resolution (diese.rs).
    - NativeImage.v, NativeCompiler.v: the EXF1 container (native_image.rs) and
      the compiler that emits it (native_compiler.rs).
    - Bootstrap.v: [bootstrap_with_identity] (lib.rs), which runs all of the
      above in sequence.
    - Http.v: the response parser, the chunked decoder and the reply format
      (http.rs).
    - Geometry.v, Display.v, DisplayEvents.v: rectangles, surfaces and events of
      [DisplayServer] (display.rs); DisplayInvariant.v, DisplayDamage.v and
      DisplayFrames.v prove its properties.

    ** Files and the code they model: the kernel (src/kernel/src)

    - Bytes.v: byte fields and buffers, used by all formats.
    - Crypto.v: SHA-256, HMAC, PBKDF2 (crypto.rs); the cipher of the third-party
      crate is the class [Aead] with its laws [AeadLaws].
    - StoreCodec.v: validation, encoding and decoding of a slot
      (expfs_store.rs); StoreRoundtrip.v and StoreTyped.v prove what decoding
      returns.
    - StoreDisk.v: writing, verifying, reading and choosing slots; the disk is the
      class [BlockDevice] with its laws [BlockDeviceLaws].
    - Store.v: the state of the store and all its operations (expfs_store.rs).
      StoreReads.v, StoreCrash.v and StoreArchive.v prove its properties.
    - Records.v, State.v: the records of accounts and settings and the state that
      loads and saves them (state.rs), with the loading part of [kernel_main]
      (lib.rs).
    - GenesisPlan.v, GenesisCodec.v: the plan and manifest sectors of an
      installation (genesis.rs, locale.rs).
    - FatGeometry.v: the geometry of the boot partition (genesis.rs).
    - Frames.v: the bitmap of physical frames (memory.rs).
    - Paging.v: the kernel's page tables and the sealing of frames (paging.rs); the
      translation of the processor, [walk], is the specification.
    - ServiceImage.v: the ELF profile, the arena of a worker and the ranges the
      kernel may use in it (service.rs).
    - FormSpace.v: the address spaces of Forms and workers: [prepare],
      [prepare_service], [finish] (form_runtime.rs), over Frames.v, Paging.v and
      ServiceImage.v.  FormLoad.v, FormMachine.v, FormPrepare.v, FormIsolation.v
      and FormView.v prove their properties.
    - NetPortal.v: the register and DMA portal of a network worker (network.rs).
    - FormTrap.v: the timer, ABI and fault interrupts and [run_slice_local]
      (form_runtime.rs), over Abi.v, Store.v, ServiceImage.v and NetPortal.v; the
      Form itself is a step relation that stores wherever its page tables allow.
      FormConfined.v and FormAuthority.v prove its properties.

    ** How the code is rendered

    A definition has the name of the method it models with its type in front
    ([CapabilityBroker::issue_for] is [CapabilityBroker_issue_for]); error
    constructors carry a prefix of their own because several enums share names.
    A method on [&mut self] returns the receiver on every path next to its
    [Result], so that "a refused call changes nothing" is proved rather than
    assumed.  An assertion, [expect] or index out of bounds is [None] where it
    is the only alternative, and the outcome [Panics] otherwise.  [[Option<T>; N]]
    is a list of options of length [N], and the search, claim and edit idioms of
    the source are the functions on slot tables below.  Integers are [Z] with
    the wrap-around, saturation or check of each operator written out.  States
    are what the operations can build from [new]: an inductive reachability
    predicate or a run over a list of operations per component.

    ** What the theorems show

    - Authority (Capability.v, Abi.v, Scope.v): a Handle never grants more than
      its ancestors; revocation is exact, terminates and is permanent; a seal
      freezes what a requester can reach, up to Handles restored from disk; the ABI gate runs a service only for
      the holder of a covering Handle; a scope reaches nothing that was not
      allowed explicitly.
    - Execution (Scheduler.v, Context.v, Budget.v): at most one context runs; a
      ready context is dispatched within eight dispatches; slices are charged
      before they count; event and message queues implement bounded queues with
      exact payment; budgets account every charge and release exactly.
    - Storage (ExpFs.v, Blob.v, Recovery.v): commits are atomic, revisions
      increase, snapshots are stable; chunked content reads back; the history
      keeps the newest eight checkpoints in order.
    - Ownership and naming (Cfc.v, Registry.v, Relationship.v, Identity.v): CFCs
      never share an identity; validation decides well-formedness; names resolve
      to visibly bound Forms; the relationship table is a finite set.
    - Policy (Pimp.v, Diese.v): the parser implements the line grammar;
      resolution follows scope precedence.
    - Images and boot (NativeImage.v, NativeCompiler.v, Bootstrap.v): the
      container parser accepts exactly the encodings; the compiler emits an image
      that loads; bootstrap is decided by its four inputs.

    - The store on disk (StoreRoundtrip.v, StoreCrash.v, StoreArchive.v): what
      encoding and decoding do to every snapshot of the Rust types; a commit of an
      intact snapshot survives a failure of power at any sector write, and an
      acknowledged one is what the next boot selects; the recovery points are the
      newest eight checkpoints and the first baseline, also after failed
      recordings, which leave the oldest one uncertain.  An intact snapshot
      ([snapshot_intact]) has all the chunks of its contents and limits no
      Relationship to the zero Dimension; what happens without either is part of
      [store_slot_roundtrip].
    - Settings and installation (State.v, GenesisCodec.v, FatGeometry.v): saved
      settings are loaded by the next boot exactly when every account is readable,
      also after a power failure as all of the old or all of the new ones; a plan
      reads back exactly when its Dimensions are distinct; the choice of the
      partition geometry is decided for every disk.
    - Display and network (DisplayInvariant.v, DisplayDamage.v, DisplayFrames.v,
      Http.v): a Form's calls leave the surfaces of other Forms alone, and of their
      events take at most the oldest pointer motion of a full queue; damage covers
      what changed; callbacks are delivered; the HTTP parser is total, and the
      chunked decoder exact.  The runs of the display are those in which neither
      the 32-bit surface identifiers nor the 64-bit event serials wrap around
      ([run_ok]).
    - Digests (Crypto.v): the incremental forms equal the one-shot ones.
    - Memory (Frames.v, Paging.v, ServiceImage.v): frames are leased at most once and
      cleared; the page tables translate as an abstract map in which no page is
      writable and executable; worker images are decided, loaded with the rights
      their flags ask for, and lent only where they are writable.
    - Ring 3 (FormIsolation.v, FormView.v, FormConfined.v, FormAuthority.v,
      FormTrap.v, NetPortal.v): from boot on, a Form reaches only what is its own;
      it finds its image as it was built; a slice changes nothing outside its
      space, takes rights for everything it changes in the kernel, and ends at the
      timer; bus addresses given to the network card lie in the memory lent.

    The exception in the crash theorems is explicit: [torn] is a slot, still below
    the header it had, whose bytes were not there before, pass their CRC or tag, and
    make the decoder panic.

    Where a specification reads numbers, markers or rights it does so independently
    of the code it judges: sizes of chunks and exit values are positional numerals ([positional]), markers are first occurrences
    ([after_first], [only_at_end]), rights of pages are bits of the segment flags
    ([worker_rights]) or places in the kernel image ([initial_flags]).

    Some theorems state behaviour that contradicts the code's purpose or its
    documentation: [blob_write_truncates], [stream_read_panics],
    [portal_keeps_old_address], [admit_reuses_live_identifier],
    [restart_duplicates_identity], [reclaimed_form_returns],
    [diese_conflict_depends_on_order], [display_damage_wraps] and the diverging
    case of [fat_geometry_decides].

    ** Loops and fuel

    [revoke] repeats until a pass changes nothing; each such pass revokes one of
    at most 32 Handles, so the 33 passes given suffice ([revoke_loop_total]).
    The chunk loops of [read] and [write] advance by at least one byte, so the
    byte count is enough fuel; the theorems of Blob.v state results of [Returns]
    and exclude [OutOfFuel].  Identifier allocation tries 33 candidates as the
    source does.  The loop of [FatGeometry::new] settles within seven rounds or
    never ([geometry_loop_decides]), so the theorem asks for seven.  The chunked
    decoder and the header loop consume at least one byte per round, so the length
    of the input is enough ([chunk_loop_spec], [header_loop_spec]).  A running Form
    needs no fuel: its slices are reflexive-transitive closures of its steps.  All
    other loops are structural.

    ** What is not modelled

    Key protection (protection.rs) and the browser engine (browser.rs) of the core
    crate.  Of the kernel: the dialogs of the installer, the writing of its
    partitions, drivers, interrupt controllers, the other processors, the desktop,
    the shell, the packet code and the loop that admits and runs a worker; they are
    register access, terminal output or code not reached yet.
    The boot loader, the ports, the SDKs, the package tool and the vendored trees.
    Running out of memory in the store, log output, memory layout,
    timing and concurrency with interrupt handlers are outside the model. *)

From stdpp Require Import prelude list.
From Stdlib Require Import ZArith Lia.

Set Default Goal Selector "!".
Open Scope Z_scope.

#[global] Arguments Nat.modulo : simpl never.

(** ** Results and effects

    A Rust [Result<A, E>] is [result A E].  A method that takes [&mut self]
    and returns a [Result] is a function into [S * result A E]: the state
    component is the receiver when the call returns, on every path, so that
    "a failed call changes nothing" is a theorem and not a convention. *)

Inductive result (A E : Type) : Type :=
  | Ok (a : A)
  | Err (e : E).
Arguments Ok {A E} a.
Arguments Err {A E} e.

Definition is_ok {A E} (r : result A E) : bool :=
  match r with Ok _ => true | Err _ => false end.

Definition map_err {A E F} (f : E → F) (r : result A E) : result A F :=
  match r with Ok a => Ok a | Err e => Err (f e) end.

(** A call that may also panic (an index out of bounds, a failed [expect]).
    Loops that are not structural take fuel; [OutOfFuel] is never the result
    at the fuel the definitions use, which is proved where they are. *)
Inductive outcome (A : Type) : Type :=
  | Returns (a : A)
  | Panics
  | OutOfFuel.
Arguments Returns {A} a.
Arguments Panics {A}.
Arguments OutOfFuel {A}.

Declare Scope expos_scope.
Delimit Scope expos_scope with expos.

(** [let? x := r in k] is [let x = r?; k] in a function that returns a
    [Result]. *)
Notation "'let?' x := r 'in' k" :=
  (match r with Ok x => k | Err e => Err e end)
    (at level 10, x pattern, r at level 100, k at level 200) : expos_scope.

(** Equality and boolean tests of the source, as stdpp decisions. *)
Notation "a ==? b" := (bool_decide (a = b)) (at level 70) : expos_scope.
Notation "a !=? b" := (negb (bool_decide (a = b))) (at level 70) : expos_scope.
Open Scope expos_scope.

(** ** Fixed-width unsigned integers

    A [u8] .. [u64] is a [Z]; [usize] is 64 bits wide on x86_64, the only
    target of the kernel.  Each operator writes out its overflow rule. *)

Definition u8_max : Z := 2 ^ 8 - 1.
Definition u16_max : Z := 2 ^ 16 - 1.
Definition u32_max : Z := 2 ^ 32 - 1.
Definition u64_max : Z := 2 ^ 64 - 1.
Definition usize_max : Z := u64_max.

Definition wrapping_add (max a b : Z) : Z := (a + b) mod (max + 1).
Definition saturating_add (max a b : Z) : Z := Z.min (a + b) max.
Definition saturating_sub (a b : Z) : Z := Z.max (a - b) 0.
Definition checked_add (max a b : Z) : option Z :=
  if a + b <=? max then Some (a + b) else None.
Definition checked_mul (max a b : Z) : option Z :=
  if a * b <=? max then Some (a * b) else None.
Definition checked_sub (a b : Z) : option Z :=
  if b <=? a then Some (a - b) else None.

(** [value.to_be_bytes()] for an [n]-byte integer, and its inverse. *)
Fixpoint be_bytes (n : nat) (v : Z) : list Z :=
  match n with
  | O => []
  | S n' => (v / 256 ^ Z.of_nat n') mod 256 :: be_bytes n' v
  end.

Definition be_value (bs : list Z) : Z := fold_left (λ acc b, acc * 256 + b) bs 0.

(** [value.to_le_bytes()], and [from_le_bytes]. *)
Fixpoint le_bytes (n : nat) (v : Z) : list Z :=
  match n with
  | O => []
  | S n' => v mod 256 :: le_bytes n' (v / 256)
  end.

Definition le_value (bs : list Z) : Z := fold_right (λ b acc, b + 256 * acc) 0 bs.

(** ** Slot tables

    [[Option<T>; N]] is a list of options of length [N].  The source walks
    it with [iter().flatten()], claims the first empty slot with
    [iter_mut().find(|slot| slot.is_none())], and edits the first match with
    [iter_mut().flatten().find(..)]. *)

Abbreviation slots A := (list (option A)).

Definition empty_slots (A : Type) (n : nat) : slots A := replicate n None.

Fixpoint flatten {A} (l : slots A) : list A :=
  match l with
  | [] => []
  | Some x :: l' => x :: flatten l'
  | None :: l' => flatten l'
  end.

(** The first [None] becomes [Some x]; [None] when the table is full. *)
Fixpoint fill_slot {A} (x : A) (l : slots A) : option (slots A) :=
  match l with
  | [] => None
  | None :: l' => Some (Some x :: l')
  | Some y :: l' => option_map (cons (Some y)) (fill_slot x l')
  end.

(** Apply [f] to the first element that satisfies [p]. *)
Fixpoint alter_first {A} (p : A → bool) (f : A → A) (l : list A) : list A :=
  match l with
  | [] => []
  | x :: l' => if p x then f x :: l' else x :: alter_first p f l'
  end.

Fixpoint update_first {A} (p : A → bool) (f : A → A) (l : slots A) : slots A :=
  match l with
  | [] => []
  | None :: l' => None :: update_first p f l'
  | Some x :: l' => if p x then Some (f x) :: l' else Some x :: update_first p f l'
  end.

(** [iter().position(p)]. *)
Fixpoint position {A} (p : A → bool) (l : list A) : option nat :=
  match l with
  | [] => None
  | x :: l' => if p x then Some O else option_map S (position p l')
  end.

(** [Iterator::max_by_key]: the last of the maximal elements. *)
Fixpoint max_by_key_from {A} (k : A → Z) (best : A) (l : list A) : A :=
  match l with
  | [] => best
  | x :: l' => max_by_key_from k (if k best <=? k x then x else best) l'
  end.

Definition max_by_key {A} (k : A → Z) (l : list A) : option A :=
  match l with [] => None | x :: l' => Some (max_by_key_from k x l') end.

(** [Iterator::min_by_key]: the first of the minimal elements. *)
Fixpoint min_by_key_from {A} (k : A → Z) (best : A) (l : list A) : A :=
  match l with
  | [] => best
  | x :: l' => min_by_key_from k (if k x <? k best then x else best) l'
  end.

Definition min_by_key {A} (k : A → Z) (l : list A) : option A :=
  match l with [] => None | x :: l' => Some (min_by_key_from k x l') end.

(** [l[at..at + data.len()].copy_from_slice(data)], within bounds. *)
Definition splice {A} (l : list A) (at_ : nat) (data : list A) : list A :=
  take at_ l ++ data ++ drop (at_ + length data) l.

(** [l[from..from + n]] *)
Definition slice {A} (l : list A) (from n : nat) : list A := take n (drop from l).

Definition is_empty {A} (l : list A) : bool := match l with [] => true | _ => false end.

Definition Zlength {A} (l : list A) : Z := Z.of_nat (length l).

Definition Zsum (l : list Z) : Z := fold_right Z.add 0 l.

(** ** Ring buffers

    The event queue, the message queue and the checkpoint history keep a
    fixed array with a head index and a length.  [ring_rep sl head q] says
    that the array holds the queue [q], oldest first from [head], and
    nothing else. *)

Definition ring_rep {A} (sl : slots A) (head : nat) (q : list A) : Prop :=
  (head < length sl)%nat ∧ (length q ≤ length sl)%nat ∧
  ∀ i, (i < length sl)%nat → sl !! ((head + i) mod length sl)%nat = Some (q !! i).

(** ** Record updates

    [r <| f := v |>] is [r] with field [f] replaced, the assignment
    [r.f = v] of the source.  An instance is built from the eta-expansion of
    the record. *)

Class Setter {R T : Type} (proj : R → T) := set_field : (T → T) → R → R.
Arguments set_field {R T} proj {_} _ _.
Notation "r <| f := v |>" := (set_field f (λ _, v) r)
  (at level 1, left associativity, f constr, v at level 200) : expos_scope.

Ltac build_setter eta :=
  match goal with
  | |- Setter ?proj =>
      let e := eval cbv beta delta [eta] in eta in
      let F := eval pattern proj in e in
      match F with
      | ?G _ =>
          let b := eval cbv beta in (fun f r => G (fun x => f (proj x)) r) in
          exact b
      end
  end.

(** ** Proof automation *)

(** Case analysis on the guards of a definition, in the order of the code. *)
Ltac guards :=
  repeat
    match goal with
    | H : context [match ?x with _ => _ end] |- _ =>
        lazymatch x with
        | context [match _ with _ => _ end] => fail
        | _ => destruct x eqn:?; simplify_eq/=
        end
    | |- context [match ?x with _ => _ end] =>
        lazymatch x with
        | context [match _ with _ => _ end] => fail
        | _ => destruct x eqn:?; simplify_eq/=
        end
    end.

(** Boolean guards become propositions. *)
Ltac bools :=
  repeat
    match goal with
    | H : (_ && _)%bool = true |- _ => apply andb_prop in H as [? ?]
    | H : (_ || _)%bool = false |- _ => apply orb_false_elim in H as [? ?]
    | H : negb _ = true |- _ => apply negb_true_iff in H
    | H : negb _ = false |- _ => apply negb_false_iff in H
    | H : bool_decide _ = true |- _ => apply bool_decide_eq_true_1 in H
    | H : bool_decide _ = false |- _ => apply bool_decide_eq_false_1 in H
    | H : (_ <=? _) = true |- _ => apply Z.leb_le in H
    | H : (_ <=? _) = false |- _ => apply Z.leb_gt in H
    | H : (_ <? _) = true |- _ => apply Z.ltb_lt in H
    | H : (_ <? _) = false |- _ => apply Z.ltb_ge in H
    | H : (_ >? _) = true |- _ => rewrite Z.gtb_ltb in H
    | H : (_ >? _) = false |- _ => rewrite Z.gtb_ltb in H
    | H : (_ =? _) = true |- _ => apply Z.eqb_eq in H
    | H : (_ =? _) = false |- _ => apply Z.eqb_neq in H
    end.

Create HintDb expos.
Create Rewrite HintDb ownership.

Lemma Ok_inj {A E} (a b : A) : @Ok A E a = Ok b → a = b.
Proof. congruence. Qed.

Lemma Some_pair_inj {A B} (a c : A) (b d : B) : Some (a, b) = Some (c, d) → a = c ∧ b = d.
Proof. by intros [= -> ->]. Qed.

Lemma let_ok {A B E} (r : result A E) (k : A → result B E) b :
  (let? x := r in k x) = Ok b ↔ ∃ a, r = Ok a ∧ k a = Ok b.
Proof. destruct r; naive_solver. Qed.

(** ** Lemmas on slot tables *)

Section slot_lemmas.
Context {A : Type}.
Implicit Types (l : slots A) (x y : A).

Lemma elem_of_flatten l x : x ∈ flatten l ↔ Some x ∈ l.
Proof.
  induction l as [|[y|] l IH]; simpl; rewrite ?elem_of_cons, ?IH; [|naive_solver..].
  by rewrite !elem_of_nil.
Qed.

Lemma flatten_app l k : flatten (l ++ k) = flatten l ++ flatten k.
Proof. induction l as [|[y|] l IH]; simpl; [done|by rewrite IH|done]. Qed.

Lemma flatten_empty n : flatten (empty_slots A n) = [].
Proof. by induction n. Qed.

Lemma length_flatten l : (length (flatten l) ≤ length l)%nat.
Proof. induction l as [|[y|] l IH]; simpl; lia. Qed.

Lemma length_empty_slots n : length (empty_slots A n) = n.
Proof. apply length_replicate. Qed.

(** [fill_slot] splits the table at its first hole. *)
Lemma fill_slot_split l l' x :
  fill_slot x l = Some l' →
  ∃ l1 l2, l = l1 ++ None :: l2 ∧ l' = l1 ++ Some x :: l2.
Proof.
  revert l'. induction l as [|[y|] l IH]; intros l'; simpl; [done| |].
  - destruct (fill_slot x l) as [k|]; [|done]. intros [= <-].
    destruct (IH k) as (l1 & l2 & -> & ->); [done|].
    by exists (Some y :: l1), l2.
  - intros [= <-]. by exists [], l.
Qed.

(** Filling a hole changes that slot only. *)
Lemma fill_slot_lookup l l' x :
  fill_slot x l = Some l' →
  ∃ j, l !! j = Some None ∧ l' !! j = Some (Some x) ∧ ∀ i, i ≠ j → l' !! i = l !! i.
Proof.
  intros (l1 & l2 & -> & ->)%fill_slot_split. exists (length l1).
  rewrite !list_lookup_middle by done. split_and!; try done. intros i Hi.
  destruct (decide (i < length l1)%nat); [by rewrite !lookup_app_l by lia|].
  rewrite !lookup_app_r by lia. by destruct (i - length l1)%nat eqn:Ei; [lia|].
Qed.

Lemma fill_slot_length l l' x : fill_slot x l = Some l' → length l' = length l.
Proof.
  intros (l1 & l2 & -> & ->)%fill_slot_split. by rewrite !length_app.
Qed.

Lemma fill_slot_perm l l' x :
  fill_slot x l = Some l' → flatten l' ≡ₚ x :: flatten l.
Proof.
  intros (l1 & l2 & -> & ->)%fill_slot_split. rewrite !flatten_app. simpl.
  by rewrite Permutation_middle.
Qed.

Lemma elem_of_fill_slot l l' x y :
  fill_slot x l = Some l' → y ∈ flatten l' ↔ y = x ∨ y ∈ flatten l.
Proof. intros H%fill_slot_perm. by rewrite H, elem_of_cons. Qed.

Lemma fill_slot_count l l' x :
  fill_slot x l = Some l' → length (flatten l') = S (length (flatten l)).
Proof. by intros ->%fill_slot_perm. Qed.

(** The table is full exactly when there is no hole. *)
Lemma fill_slot_None l x :
  fill_slot x l = None ↔ length (flatten l) = length l.
Proof.
  induction l as [|[y|] l IH]; simpl; [done| |].
  - destruct (fill_slot x l); simpl; split; intros; try done.
    + destruct IH as [_ IH]. discriminate IH. lia.
    + f_equal. by apply IH.
  - split; [done|]. pose proof (length_flatten l). lia.
Qed.

Lemma fill_slot_Some l x :
  (length (flatten l) < length l)%nat → is_Some (fill_slot x l).
Proof.
  intros H. destruct (fill_slot x l) eqn:E; [done|].
  apply fill_slot_None in E. lia.
Qed.

Lemma flatten_update_first p f l :
  flatten (update_first p f l) = alter_first p f (flatten l).
Proof.
  induction l as [|[y|] l IH]; simpl; [done| |done].
  destruct (p y); simpl; by rewrite ?IH.
Qed.

Lemma length_update_first p f l : length (update_first p f l) = length l.
Proof. induction l as [|[y|] l IH]; simpl; [done| |by f_equal]. destruct (p y); simpl; auto. Qed.
End slot_lemmas.

(** ** Searching *)

Section search_lemmas.
Context {A : Type}.
Implicit Types (l : list A) (x y : A) (p : A → bool).

Lemma existsb_elem p l : existsb p l = true ↔ ∃ x, x ∈ l ∧ p x = true.
Proof.
  rewrite existsb_exists. by setoid_rewrite list_elem_of_In.
Qed.

Lemma existsb_elem_false p l : existsb p l = false ↔ ∀ x, x ∈ l → p x = false.
Proof.
  rewrite <- not_true_iff_false, existsb_elem. split.
  - intros H x Hx. destruct (p x) eqn:E; [|done]. destruct H. eauto.
  - intros H (x & Hx & Hp). by rewrite H in Hp.
Qed.

Lemma existsb_ext p q l : (∀ x, p x = q x) → existsb p l = existsb q l.
Proof. intros H. induction l as [|x l IH]; simpl; [done|]. by rewrite H, IH. Qed.

Lemma elem_of_rev l x : x ∈ rev l ↔ x ∈ l.
Proof. by rewrite !list_elem_of_In, <- in_rev. Qed.

Lemma find_elem p l x : List.find p l = Some x → x ∈ l ∧ p x = true.
Proof. intros [? ?]%List.find_some. by rewrite list_elem_of_In. Qed.

Lemma find_elem_None p l : List.find p l = None ↔ ∀ x, x ∈ l → p x = false.
Proof.
  split.
  - intros H x Hx%list_elem_of_In. by apply (List.find_none p l).
  - intros H. destruct (List.find p l) eqn:E; [|done].
    apply find_elem in E as [Hx Hp]. by rewrite H in Hp.
Qed.

Lemma find_is_Some p l x : x ∈ l → p x = true → is_Some (List.find p l).
Proof.
  intros Hx Hp. destruct (List.find p l) eqn:E; [done|].
  by rewrite (proj1 (find_elem_None p l) E x Hx) in Hp.
Qed.

Lemma find_existsb p l : existsb p l = true ↔ is_Some (List.find p l).
Proof.
  rewrite existsb_elem. split.
  - intros (x & Hx & Hp). eauto using find_is_Some.
  - intros [x [? ?]%find_elem]. eauto.
Qed.

(** With distinct keys, a search by key finds the one element that has it. *)
Lemma find_unique {K} `{EqDecision K} (key : A → K) l x k :
  NoDup (key <$> l) → x ∈ l → key x = k →
  List.find (λ y, key y ==? k) l = Some x.
Proof.
  induction l as [|y l IH]; csimpl; [by rewrite elem_of_nil|].
  rewrite NoDup_cons. intros [Hn Hd] Hx Hk. case_bool_decide as Hy.
  - apply elem_of_cons in Hx as [->|Hx]; [done|].
    destruct Hn. rewrite Hy, <- Hk. by apply list_elem_of_fmap_2.
  - apply elem_of_cons in Hx as [->|Hx]; [congruence|auto].
Qed.

Lemma NoDup_key_inj {K} (key : A → K) l x y :
  NoDup (key <$> l) → x ∈ l → y ∈ l → key x = key y → x = y.
Proof.
  induction l as [|z l IH]; csimpl; [by rewrite elem_of_nil|].
  rewrite NoDup_cons, !elem_of_cons. intros [Hn Hd] [->|Hx] [->|Hy] E; auto.
  - destruct Hn. rewrite E. by apply list_elem_of_fmap_2.
  - destruct Hn. rewrite <- E. by apply list_elem_of_fmap_2.
Qed.

(** In a concatenation without duplicates each element has one origin. *)
Lemma NoDup_bind_inj {B} (g : A → list B) l x y b :
  NoDup (l ≫= g) → x ∈ l → y ∈ l → b ∈ g x → b ∈ g y → x = y.
Proof.
  induction l as [|z l IH]; [by intros _ ?%elem_of_nil|].
  rewrite bind_cons, NoDup_app, !elem_of_cons.
  assert (∀ w, w ∈ l → b ∈ g w → b ∈ l ≫= g) by (intros; apply list_elem_of_bind; eauto).
  naive_solver.
Qed.

Lemma elem_of_alter_first p f l y :
  y ∈ alter_first p f l → y ∈ l ∨ ∃ x, x ∈ l ∧ p x = true ∧ y = f x.
Proof.
  induction l as [|x l IH]; simpl; [by rewrite elem_of_nil|].
  destruct (p x) eqn:E; rewrite !elem_of_cons.
  - intros [->|Hy]; [|auto]. right. exists x. rewrite elem_of_cons; auto.
  - intros [->|Hy]; [auto|]. destruct (IH Hy) as [?|(z & ? & ? & ?)]; [auto|].
    right. exists z. rewrite elem_of_cons; auto.
Qed.

Lemma alter_first_fmap {B} (g : A → B) p f l :
  (∀ x, p x = true → g (f x) = g x) → g <$> alter_first p f l = g <$> l.
Proof.
  intros H. induction l as [|x l IH]; csimpl; [done|].
  destruct (p x) eqn:E; csimpl; [by rewrite H|by rewrite IH].
Qed.

Lemma alter_first_ext p q f l : (∀ x, p x = q x) → alter_first p f l = alter_first q f l.
Proof. intros H. induction l as [|x l IH]; simpl; [done|]. by rewrite H, IH. Qed.

Lemma alter_first_none p f l : (∀ x, x ∈ l → p x = false) → alter_first p f l = l.
Proof.
  induction l as [|x l IH]; simpl; [done|]. intros H.
  rewrite H by (apply elem_of_cons; auto).
  f_equal. apply IH. intros y Hy. apply H. by apply elem_of_cons; auto.
Qed.

(** With distinct keys, editing the first match is editing every match. *)
Lemma alter_first_unique {K} `{EqDecision K} (key : A → K) f l k :
  NoDup (key <$> l) →
  alter_first (λ x, key x ==? k) f l = (λ x, if key x ==? k then f x else x) <$> l.
Proof.
  induction l as [|x l IH]; csimpl; [done|]. rewrite NoDup_cons. intros [Hn Hd].
  case_bool_decide as Hx; csimpl; f_equal; auto.
  rewrite <- (list_fmap_id l) at 1. apply list_fmap_ext.
  intros i y Hy. simpl. case_bool_decide as Hk; [|done].
  destruct Hn. rewrite Hx, <- Hk. apply list_elem_of_fmap_2, list_elem_of_lookup. eauto.
Qed.

Lemma position_Some p l i :
  position p l = Some i → ∃ x, l !! i = Some x ∧ p x = true.
Proof.
  revert i. induction l as [|x l IH]; intros i; simpl; [done|].
  destruct (p x) eqn:E; [intros [= <-]; eauto|].
  destruct (position p l) as [j|]; [|done]. intros [= <-]. eauto.
Qed.

Lemma position_None p l : position p l = None ↔ ∀ x, x ∈ l → p x = false.
Proof.
  induction l as [|x l IH]; simpl.
  - split; [intros _ x; by rewrite elem_of_nil|done].
  - destruct (p x) eqn:E.
    + split; [done|]. intros H. rewrite (H x) in E; [done|]. by apply elem_of_cons; auto.
    + destruct (position p l) as [j|]; simpl; split.
      * done.
      * intros H. exfalso. assert (Some j = None); [|done]. apply IH.
        intros y Hy. apply H. by apply elem_of_cons; auto.
      * intros _ y [->|Hy]%elem_of_cons; [done|]. by apply IH.
      * done.
Qed.
End search_lemmas.

(** A search through a table ends in a slot, and editing the first match
    writes that slot. *)
Lemma find_slot {A} (p : A → bool) (l : slots A) x :
  List.find p (flatten l) = Some x →
  ∃ i, l !! i = Some (Some x) ∧ p x = true ∧
       ∀ f, update_first p f l = <[i := Some (f x)]> l.
Proof.
  induction l as [|[y|] l IH]; simpl; [done| |].
  - destruct (p y) eqn:E.
    + intros [= <-]. exists 0%nat. auto.
    + intros (i & ? & ? & Hf)%IH. exists (S i). split_and!; auto. intros f. simpl. by rewrite Hf.
  - intros (i & ? & ? & Hf)%IH. exists (S i). split_and!; auto. intros f. simpl. by rewrite Hf.
Qed.

Lemma find_insert_ne {A} (p : A → bool) (l : slots A) i x y :
  l !! i = Some (Some x) → p x = false → p y = false →
  List.find p (flatten (<[i := Some y]> l)) = List.find p (flatten l).
Proof.
  revert i. induction l as [|[z|] l IH]; intros [|i]; simpl; try done.
  - intros [= ->] -> ->. done.
  - intros Hi Hx Hy. destruct (p z); [done|]. by apply IH.
  - apply IH.
Qed.

Lemma flatten_lookup {A} (l : slots A) i x : l !! i = Some (Some x) → x ∈ flatten l.
Proof. intros H. apply elem_of_flatten. by apply list_elem_of_lookup_2 in H. Qed.

Lemma elem_of_flatten_lookup {A} (l : slots A) x :
  x ∈ flatten l → ∃ i, l !! i = Some (Some x).
Proof. intros H%elem_of_flatten. by apply list_elem_of_lookup in H. Qed.

(** Writing an occupied slot, as a multiset. *)
Lemma flatten_write {A} (l : slots A) i x :
  l !! i = Some (Some x) →
  ∃ rest, flatten l ≡ₚ x :: rest ∧ flatten (<[i := None]> l) ≡ₚ rest ∧
          ∀ y, flatten (<[i := Some y]> l) ≡ₚ y :: rest.
Proof.
  intros Hi. exists (flatten (take i l) ++ flatten (drop (S i) l)).
  pose proof (take_drop_middle _ _ _ Hi) as E. apply lookup_lt_Some in Hi. split_and!.
  - rewrite <- E at 1. rewrite flatten_app. simpl. by rewrite Permutation_middle.
  - rewrite insert_take_drop by done. by rewrite flatten_app.
  - intros y. rewrite insert_take_drop, flatten_app by done. simpl. by rewrite Permutation_middle.
Qed.

(** Indexing the first hole is filling it. *)
Definition slot_is_none {A} (o : option A) : bool :=
  match o with None => true | Some _ => false end.

(** Slots with distinct keys are told apart by them. *)
Lemma flatten_inj {A K} (key : A → K) (l : slots A) i j x y :
  NoDup (key <$> flatten l) → l !! i = Some (Some x) → l !! j = Some (Some y) → key x = key y → i = j.
Proof.
  intros Hn Hi Hj E. destruct (decide (i = j)) as [|Hne]; [done|]. exfalso.
  destruct (flatten_write l i x Hi) as (rest & Hp & Hr & _). rewrite Hp, fmap_cons in Hn. apply NoDup_cons in Hn as [Hn _].
  apply Hn. rewrite E. apply list_elem_of_fmap. exists y. split; [done|]. rewrite <- Hr.
  apply (flatten_lookup _ j). by rewrite list_lookup_insert_ne.
Qed.

Lemma position_fill_slot {A} (x : A) (l : slots A) :
  fill_slot x l = (λ i, <[i := Some x]> l) <$> position slot_is_none l.
Proof.
  induction l as [|[y|] l IH]; simpl; [done| |done].
  rewrite IH. by destruct (position slot_is_none l).
Qed.

(** ** Ring buffers *)

Section ring_lemmas.
Context {A : Type}.
Implicit Types (sl : slots A) (q : list A).

Lemma wrap_index (n head i : nat) :
  (head < n)%nat → (i ≤ n)%nat →
  ((head + i) mod n)%nat = (if decide (head + i < n) then head + i else head + i - n)%nat.
Proof.
  intros Hh Hi. destruct (decide _).
  - by apply Nat.mod_small.
  - symmetry. apply (Nat.mod_unique _ _ 1); lia.
Qed.

Lemma wrap_inj (n head i j : nat) :
  (head < n)%nat → (i < n)%nat → (j < n)%nat →
  ((head + i) mod n = (head + j) mod n)%nat → i = j.
Proof. intros. rewrite !wrap_index in * by lia. repeat destruct (decide _); lia. Qed.

Lemma wrap_next (n head i : nat) :
  (head < n)%nat → (((head + 1) mod n + i) mod n = (head + S i) mod n)%nat.
Proof. intros. rewrite Nat.Div0.add_mod_idemp_l. f_equal. lia. Qed.

Lemma ring_rep_empty n : (0 < n)%nat → ring_rep (empty_slots A n) 0 [].
Proof.
  intros Hn. unfold ring_rep. rewrite length_empty_slots. split_and!; simpl; [lia..|].
  intros i Hi. rewrite Nat.mod_small by lia. by apply lookup_replicate_2.
Qed.

(** Writing one slot of the window. *)
Lemma ring_rep_insert sl head q q' i o :
  ring_rep sl head q → (i < length sl)%nat → (length q' ≤ length sl)%nat →
  q' !! i = o → (∀ j, (j < length sl)%nat → j ≠ i → q' !! j = q !! j) →
  ring_rep (<[((head + i) mod length sl)%nat := o]> sl) head q'.
Proof.
  intros (Hh & _ & Hr) Hi Hl Ho Hq. unfold ring_rep. rewrite length_insert.
  split_and!; [done..|]. intros j Hj. destruct (decide (j = i)) as [->|Hne].
  - rewrite list_lookup_insert_eq by (apply Nat.mod_upper_bound; lia). by rewrite Ho.
  - rewrite list_lookup_insert_ne; [by rewrite Hr, Hq|].
    intros E. by apply wrap_inj in E.
Qed.

Lemma ring_rep_push sl head q x :
  ring_rep sl head q → (length q < length sl)%nat →
  ring_rep (<[((head + length q) mod length sl)%nat := Some x]> sl) head (q ++ [x]).
Proof.
  intros Hr Hl. apply (ring_rep_insert _ _ q); auto.
  - rewrite length_app. simpl. lia.
  - by rewrite lookup_app_r, Nat.sub_diag.
  - intros j _ Hj. destruct (decide (j < length q)%nat).
    + by rewrite lookup_app_l.
    + rewrite !lookup_ge_None_2; [done|lia|]. rewrite length_app. simpl. lia.
Qed.

(** Moving the head: the first slot becomes the last of the window. *)
Lemma ring_rep_shift sl head x q o :
  ring_rep sl head (x :: q) → (length (q ++ option_list o) ≤ length sl)%nat →
  (is_Some o → length (x :: q) = length sl) →
  ring_rep (<[head := o]> sl) ((head + 1) mod length sl) (q ++ option_list o).
Proof.
  intros (Hh & Hl & Hr) Hl' Ho. unfold ring_rep. rewrite length_insert. simpl in Hl, Ho.
  split_and!; [apply Nat.mod_upper_bound; lia|done|].
  intros i Hi. rewrite wrap_next by done. destruct (decide (S i = length sl)) as [E|E].
  - rewrite E, (wrap_index _ _ (length sl)) by lia. rewrite decide_False by lia.
    replace (head + length sl - length sl)%nat with head by lia.
    rewrite list_lookup_insert_eq by done. f_equal. destruct o as [y|]; simpl.
    + rewrite lookup_app_r by (destruct Ho; [eauto|lia]).
      replace (i - length q)%nat with 0%nat; [done|]. destruct Ho; [eauto|lia].
    + rewrite app_nil_r. symmetry. apply lookup_ge_None. lia.
  - rewrite list_lookup_insert_ne.
    + rewrite Hr by lia. simpl. f_equal. destruct (decide (i < length q)%nat).
      * by rewrite lookup_app_l.
      * destruct o; [destruct Ho; [eauto|lia]|]. by rewrite app_nil_r.
    + rewrite wrap_index by lia. destruct (decide _); lia.
Qed.

Lemma ring_rep_head sl head q : ring_rep sl head q → sl !! head = Some (q !! 0%nat).
Proof.
  intros (Hh & _ & Hr). specialize (Hr 0%nat). rewrite Nat.add_0_r, Nat.mod_small in Hr by done.
  apply Hr. lia.
Qed.

Lemma ring_rep_pop sl head x q :
  ring_rep sl head (x :: q) →
  ring_rep (<[head := None]> sl) ((head + 1) mod length sl) q.
Proof.
  intros Hr. pose proof Hr as (_ & Hl & _). simpl in Hl.
  rewrite <- (app_nil_r q). apply (ring_rep_shift _ _ x q None Hr); simpl; [|by intros [??]].
  rewrite app_nil_r. lia.
Qed.

(** The array holds the members of the queue and nothing else. *)
Lemma ring_rep_elem sl head q x : ring_rep sl head q → x ∈ flatten sl ↔ x ∈ q.
Proof.
  intros (Hh & Hl & Hr). rewrite elem_of_flatten, !list_elem_of_lookup. split.
  - intros [j Hj]. assert (j < length sl)%nat by (by eapply lookup_lt_Some).
    set (i := if decide (head ≤ j)%nat then (j - head)%nat else (length sl + j - head)%nat).
    assert ((head + i) mod length sl = j)%nat as E.
    { subst i. rewrite wrap_index by (destruct (decide (head ≤ j)%nat); lia).
      repeat destruct (decide _); lia. }
    exists i. assert (i < length sl)%nat as Hi by (subst i; destruct (decide (head ≤ j)%nat); lia).
    specialize (Hr i Hi). rewrite E, Hj in Hr. congruence.
  - intros [i Hi]. exists ((head + i) mod length sl)%nat.
    rewrite Hr; [by rewrite Hi|]. apply lookup_lt_Some in Hi. lia.
Qed.
End ring_lemmas.

(** ** [max_by_key] *)

Section max_lemmas.
Context {A : Type} (k : A → Z).

Lemma max_by_key_from_elem x l : max_by_key_from k x l ∈ x :: l.
Proof.
  revert x. induction l as [|y l IH]; intros x; simpl; [by apply elem_of_cons; left|].
  specialize (IH (if k x <=? k y then y else x)).
  rewrite !elem_of_cons in *. destruct (k x <=? k y); naive_solver.
Qed.

Lemma max_by_key_from_ge x l y : y ∈ x :: l → k y ≤ k (max_by_key_from k x l).
Proof.
  revert x y. induction l as [|z l IH]; intros x y; simpl.
  - intros [->|Hy%elem_of_nil]%elem_of_cons; [lia|done].
  - intros Hy. destruct (Z.leb_spec (k x) (k z)) as [Hz|Hz].
    + apply elem_of_cons in Hy as [->|Hy]; [|by apply IH].
      etrans; [exact Hz|]. apply IH. by apply elem_of_cons; left.
    + apply elem_of_cons in Hy as [->|Hy]; [apply IH; by apply elem_of_cons; left|].
      apply elem_of_cons in Hy as [->|Hy]; [|apply IH; by apply elem_of_cons; right].
      etrans; [apply Z.lt_le_incl, Hz|]. apply IH. by apply elem_of_cons; left.
Qed.

Lemma max_by_key_Some l x :
  max_by_key k l = Some x → x ∈ l ∧ ∀ y, y ∈ l → k y ≤ k x.
Proof.
  destruct l as [|z l]; simpl; [done|]. intros [= <-].
  split; [apply max_by_key_from_elem|apply max_by_key_from_ge].
Qed.

Lemma max_by_key_None l : max_by_key k l = None ↔ l = [].
Proof. by destruct l. Qed.

(** A strict maximum is the one that is found. *)
Lemma max_by_key_strict l x :
  x ∈ l → (∀ y, y ∈ l → y = x ∨ k y < k x) → max_by_key k l = Some x.
Proof.
  intros Hx Hs. destruct (max_by_key k l) as [m|] eqn:E.
  - apply max_by_key_Some in E as [Hm Hge]. destruct (Hs m Hm) as [->|?]; [done|].
    specialize (Hge x Hx). lia.
  - apply max_by_key_None in E as ->. by apply elem_of_nil in Hx.
Qed.
End max_lemmas.

Lemma elem_of_filter_bool {A} (p : A → bool) l x : x ∈ List.filter p l ↔ x ∈ l ∧ p x = true.
Proof. rewrite !list_elem_of_In. apply filter_In. Qed.

(** ** Sums *)

Lemma Zsum_perm l l' : l ≡ₚ l' → Zsum l = Zsum l'.
Proof. unfold Zsum. induction 1; simpl; lia. Qed.

Lemma Zsum_app l l' : Zsum (l ++ l') = Zsum l + Zsum l'.
Proof. unfold Zsum. induction l; simpl; lia. Qed.

(** ** [min_by_key] *)

Section min_lemmas.
Context {A : Type} (k : A → Z).

Lemma min_by_key_from_spec x l :
  min_by_key_from k x l ∈ x :: l ∧ ∀ y, y ∈ x :: l → k (min_by_key_from k x l) ≤ k y.
Proof.
  revert x. induction l as [|z l IH]; intros x; simpl.
  { split; [by apply elem_of_cons; left|]. intros y [->|[]%elem_of_nil]%elem_of_cons. lia. }
  destruct (IH (if k z <? k x then z else x)) as [Hin Hle].
  assert (k (if k z <? k x then z else x) ≤ k x ∧ k (if k z <? k x then z else x) ≤ k z)
    by (destruct (Z.ltb_spec (k z) (k x)); lia).
  specialize (Hle (if k z <? k x then z else x) ltac:(by apply elem_of_cons; left)) as Hhd.
  split.
  - rewrite !elem_of_cons in *. destruct (k z <? k x); naive_solver.
  - intros y Hy. rewrite !elem_of_cons in Hy. destruct Hy as [->|[->|Hy]]; [lia|lia|].
    apply Hle. by apply elem_of_cons; right.
Qed.

Lemma min_by_key_Some l x : min_by_key k l = Some x → x ∈ l ∧ ∀ y, y ∈ l → k x ≤ k y.
Proof. destruct l as [|z l]; simpl; [done|]. intros [= <-]. apply min_by_key_from_spec. Qed.

Lemma min_by_key_None l : min_by_key k l = None ↔ l = [].
Proof. by destruct l. Qed.
End min_lemmas.
