(* ===== verification/Identity.v ===== *)
(** * Identities and names

    [Fin] (crates/expos-core/src/fin.rs), [CfcFin] (cfc.rs) and [Text]
    (text.rs), with the string operations of the Rust standard library that
    the core uses on names and policy sources.  A [&str] is the list of its
    Unicode scalar values, so that [trim] and [len] follow the language's
    definitions also outside ASCII. *)

From stdpp Require Import prelude list strings.
From Stdlib Require Import ZArith Lia.
From S2P Require Import Prelude.

Set Default Goal Selector "!".
Open Scope Z_scope.
Open Scope expos_scope.

(** ** FINs *)

(** A 128-bit identity kept as sixteen big-endian bytes. *)
Record Fin := MkFin { Fin_bytes : list Z }.

#[export] Instance Fin_eq_dec : EqDecision Fin.
Proof. solve_decision. Defined.

Definition Fin_ZERO : Fin := MkFin (replicate 16 0).
Definition Fin_from_u128 (value : Z) : Fin := MkFin (be_bytes 16 value).

(** The [while] loop over the bytes: [false] at the first non-zero byte. *)
Fixpoint bytes_zero (bs : list Z) : bool :=
  match bs with
  | [] => true
  | b :: bs' => if b !=? 0 then false else bytes_zero bs'
  end.

Definition Fin_is_zero (self : Fin) : bool := bytes_zero (Fin_bytes self).

(** [{byte:02X}], and the dashes after bytes 3, 5, 7 and 9. *)
Definition hex_digit (d : Z) : Z := if d <? 10 then 48 + d else 55 + d.
Definition hex_byte (b : Z) : list Z := [hex_digit (b / 16); hex_digit (b mod 16)].
Definition dash_after (index : nat) : bool :=
  match index with 3%nat | 5%nat | 7%nat | 9%nat => true | _ => false end.

Fixpoint display_from (index : nat) (bs : list Z) : list Z :=
  match bs with
  | [] => []
  | b :: bs' =>
      hex_byte b ++ (if dash_after index then [45] else []) ++ display_from (S index) bs'
  end.

Definition Fin_display (self : Fin) : list Z := display_from 0 (Fin_bytes self).

(** The identity of a CFC is a distinct type with the same operations. *)
Record CfcFin := MkCfcFin { CfcFin_bytes : list Z }.

#[export] Instance CfcFin_eq_dec : EqDecision CfcFin.
Proof. solve_decision. Defined.

Definition CfcFin_ZERO : CfcFin := MkCfcFin (replicate 16 0).
Definition CfcFin_from_u128 (value : Z) : CfcFin := MkCfcFin (be_bytes 16 value).
Definition CfcFin_is_zero (self : CfcFin) : bool := bytes_zero (CfcFin_bytes self).
Definition CfcFin_display (self : CfcFin) : list Z := display_from 0 (CfcFin_bytes self).

(** ** Strings *)

Definition str := list Z.

(** A string literal of the source. *)
Definition lit (s : string) : str :=
  (λ a, Z.of_N (Ascii.N_of_ascii a)) <$> String.list_ascii_of_string s.

Definition utf8_width (c : Z) : Z :=
  if c <? 0x80 then 1 else if c <? 0x800 then 2 else if c <? 0x10000 then 3 else 4.

(** [str::len] counts UTF-8 bytes. *)
Definition str_len (s : str) : Z := Zsum (utf8_width <$> s).
Definition str_is_ascii (s : str) : bool := forallb (λ c, c <? 0x80) s.
Definition str_is_empty (s : str) : bool := match s with [] => true | _ => false end.

(** [char::is_whitespace]: the Unicode White_Space property. *)
Definition char_is_whitespace (c : Z) : bool :=
  ((9 <=? c) && (c <=? 13)) || (c =? 0x20) || (c =? 0x85) || (c =? 0xA0) ||
  (c =? 0x1680) || ((0x2000 <=? c) && (c <=? 0x200A)) || (c =? 0x2028) ||
  (c =? 0x2029) || (c =? 0x202F) || (c =? 0x205F) || (c =? 0x3000).

Fixpoint str_trim_start (s : str) : str :=
  match s with
  | [] => []
  | c :: s' => if char_is_whitespace c then str_trim_start s' else s
  end.

Definition str_trim_end (s : str) : str := rev (str_trim_start (rev s)).
Definition str_trim (s : str) : str := str_trim_end (str_trim_start s).

(** ** Bounded names *)

Definition TEXT_CAPACITY : nat := 32.

Inductive TextError := TextEmpty | TextInvalid.

(** [bytes: [u8; 32]] and [len: u8]. *)
Record Text := MkText { Text_bytes : list Z; Text_len : Z }.

#[export] Instance TextError_eq_dec : EqDecision TextError.
Proof. solve_decision. Defined.
#[export] Instance Text_eq_dec : EqDecision Text.
Proof. solve_decision. Defined.

Definition Text_empty : Text := MkText (replicate TEXT_CAPACITY 0) 0.

Definition Text_new (value : str) : result Text TextError :=
  if str_is_empty value then Err TextEmpty
  else if (str_len value >? Z.of_nat TEXT_CAPACITY) || negb (str_is_ascii value)
  then Err TextInvalid
  else
    let n := Z.to_nat (str_len value) in
    Ok (MkText (value ++ drop n (Text_bytes Text_empty)) (str_len value)).

(** The occupied prefix; [Text::new] admits ASCII only, where a byte is its
    scalar value. *)
Definition Text_as_str (self : Text) : str := take (Z.to_nat (Text_len self)) (Text_bytes self).

(** ** Lemmas *)

Definition byte_range (b : Z) : Prop := 0 ≤ b < 256.

Lemma be_bytes_length n v : length (be_bytes n v) = n.
Proof. induction n; simpl; auto. Qed.

Lemma be_bytes_range n v : Forall byte_range (be_bytes n v).
Proof.
  induction n; simpl; constructor; [|done]. apply Z.mod_pos_bound. lia.
Qed.

Lemma be_value_app bs acc :
  fold_left (λ a b, a * 256 + b) bs acc = acc * 256 ^ Zlength bs + be_value bs.
Proof.
  unfold be_value, Zlength. revert acc.
  induction bs as [|b bs IH]; intros acc; simpl; [lia|].
  rewrite IH, (IH (0 * 256 + b)). rewrite Nat2Z.inj_succ, Z.pow_succ_r by lia. ring.
Qed.

(** The bytes of [v] stand for [v] modulo the width. *)
Lemma be_value_bytes n v : be_value (be_bytes n v) = v mod 256 ^ Z.of_nat n.
Proof.
  induction n as [|n IH]; [by rewrite Z.mod_1_r|]. cbn [be_bytes].
  unfold be_value. cbn [fold_left]. rewrite be_value_app, IH.
  unfold Zlength. rewrite be_bytes_length, Nat2Z.inj_succ, Z.pow_succ_r by lia.
  set (m := 256 ^ Z.of_nat n). assert (0 < m) by (apply Z.pow_pos_nonneg; lia).
  rewrite (Z.mul_comm 256), Z.rem_mul_r by lia. ring.
Qed.

Lemma bytes_zero_true bs : bytes_zero bs = true ↔ Forall (eq 0) bs.
Proof.
  induction bs as [|b bs IH]; simpl; [split; auto|].
  rewrite Forall_cons, <- IH. case_bool_decide; simpl; naive_solver.
Qed.

Lemma be_value_zero bs : Forall byte_range bs → be_value bs = 0 ↔ Forall (eq 0) bs.
Proof.
  unfold be_value. intros Hr.
  assert (∀ acc, 0 ≤ acc →
    0 ≤ fold_left (λ a b, a * 256 + b) bs acc ∧
    (fold_left (λ a b, a * 256 + b) bs acc = 0 ↔ acc = 0 ∧ Forall (eq 0) bs)) as H.
  { induction Hr as [|b bs Hb _ IH]; intros acc Hacc; simpl; [naive_solver|].
    unfold byte_range in Hb. destruct (IH (acc * 256 + b)) as [Hge Hiff]; [lia|].
    split; [done|]. rewrite Hiff, Forall_cons. intuition lia. }
  destruct (H 0) as [_ ->]; [lia|]. naive_solver.
Qed.

Lemma Fin_is_zero_from_u128 v :
  0 ≤ v < 2 ^ 128 → Fin_is_zero (Fin_from_u128 v) = true ↔ v = 0.
Proof.
  intros Hv. unfold Fin_is_zero, Fin_from_u128. cbn [Fin_bytes].
  rewrite bytes_zero_true, <- be_value_zero by apply be_bytes_range.
  rewrite be_value_bytes. change (256 ^ Z.of_nat 16) with (2 ^ 128).
  by rewrite Z.mod_small.
Qed.

Lemma hex_digit_inj a b : 0 ≤ a < 16 → 0 ≤ b < 16 → hex_digit a = hex_digit b → a = b.
Proof.
  unfold hex_digit. intros ? ?.
  destruct (Z.ltb_spec a 10), (Z.ltb_spec b 10); lia.
Qed.

Lemma hex_byte_inj a b k l :
  byte_range a → byte_range b →
  hex_byte a ++ k = hex_byte b ++ l → a = b ∧ k = l.
Proof.
  unfold byte_range, hex_byte. intros Ha Hb [= H1 H2 ->]. split; [|done].
  apply hex_digit_inj in H1; [|Z.to_euclidean_division_equations; lia..].
  apply hex_digit_inj in H2; [|Z.to_euclidean_division_equations; lia..].
  rewrite (Z.div_mod a 16), (Z.div_mod b 16) by lia. congruence.
Qed.

Lemma display_from_inj i bs cs :
  Forall byte_range bs → Forall byte_range cs → length bs = length cs →
  display_from i bs = display_from i cs → bs = cs.
Proof.
  intros Hb. revert i cs. induction Hb as [|b bs Hb _ IH]; intros i [|c cs] Hc Hl; try done.
  simpl. apply Forall_cons in Hc as [Hc Hcs]. intros H.
  apply hex_byte_inj in H as [-> H]; [|done..].
  apply app_inv_head in H. f_equal. apply (IH (S i)); auto.
Qed.

Lemma str_len_ascii s : str_is_ascii s = true → str_len s = Zlength s.
Proof.
  unfold str_len, str_is_ascii, Zlength. induction s as [|c s IH]; csimpl; [done|].
  intros [Hc Hs]%andb_prop. rewrite IH by done. unfold utf8_width. rewrite Hc. lia.
Qed.

Lemma Text_new_Ok s t :
  Text_new s = Ok t →
  s ≠ [] ∧ (length s ≤ TEXT_CAPACITY)%nat ∧ str_is_ascii s = true ∧
  t = MkText (s ++ replicate (TEXT_CAPACITY - length s) 0) (Zlength s).
Proof.
  unfold Text_new. intros H. destruct s as [|c s']; [done|]. cbn [str_is_empty] in H.
  set (s := c :: s') in *. destruct (_ || _) eqn:E; [done|]. apply Ok_inj in H as <-.
  apply orb_false_elim in E as [El Ea%negb_false_iff].
  rewrite Z.gtb_ltb, Z.ltb_ge in El. rewrite (str_len_ascii _ Ea) in *.
  unfold Zlength in *. rewrite Nat2Z.id. unfold Text_empty, Text_bytes.
  rewrite drop_replicate. split_and!; [done|lia|done|done].
Qed.

Lemma Text_as_str_new s t : Text_new s = Ok t → Text_as_str t = s.
Proof.
  intros (_ & _ & _ & ->)%Text_new_Ok. unfold Text_as_str, Zlength. simpl.
  by rewrite Nat2Z.id, take_app_length.
Qed.

Lemma Text_new_accepts s :
  s ≠ [] → (length s ≤ TEXT_CAPACITY)%nat → str_is_ascii s = true →
  ∃ t, Text_new s = Ok t.
Proof.
  intros Hs Hl Ha. unfold Text_new. destruct s as [|c s']; [done|]. cbn [str_is_empty].
  rewrite (str_len_ascii _ Ha), Ha. unfold Zlength. rewrite Z.gtb_ltb.
  destruct (Z.ltb_spec (Z.of_nat TEXT_CAPACITY) (Z.of_nat (length (c :: s')))); [lia|].
  simpl. eauto.
Qed.

(** ** Properties *)

(** A FIN stands for exactly one 128-bit number: [from_u128] keeps
    sixteen bytes, loses nothing, makes distinct numbers distinct FINs, and
    [is_zero] recognises exactly the reserved number 0. *)
Lemma Fin_from_u128_faithful (v w : Z) :
  0 ≤ v < 2 ^ 128 → 0 ≤ w < 2 ^ 128 →
  length (Fin_bytes (Fin_from_u128 v)) = 16%nat ∧
  be_value (Fin_bytes (Fin_from_u128 v)) = v ∧
  (Fin_from_u128 v = Fin_from_u128 w ↔ v = w) ∧
  (Fin_is_zero (Fin_from_u128 v) = true ↔ v = 0).
Proof.
  intros Hv Hw.
  assert (∀ u, 0 ≤ u < 2 ^ 128 → be_value (Fin_bytes (Fin_from_u128 u)) = u) as Hb.
  { intros u Hu. unfold Fin_from_u128. cbn [Fin_bytes]. rewrite be_value_bytes.
    by apply Z.mod_small. }
  split_and!; [apply be_bytes_length|by apply Hb| |by apply Fin_is_zero_from_u128].
  split; [|congruence]. intros E. rewrite <- (Hb v Hv), <- (Hb w Hw). by rewrite E.
Qed.

(** The printed form of a FIN identifies it: two FINs whose sixteen bytes
    differ never print alike. *)
Lemma Fin_display_injective (a b : list Z) :
  Forall byte_range a → Forall byte_range b → length a = 16%nat → length b = 16%nat →
  Fin_display (MkFin a) = Fin_display (MkFin b) → MkFin a = MkFin b.
Proof.
  intros Ha Hb La Lb H. f_equal.
  apply (display_from_inj 0); [done|done|congruence|exact H].
Qed.

(** [Text::new] accepts exactly the non-empty ASCII strings of at most
    32 characters; an accepted name reads back unchanged, and two names are
    equal as values exactly when they read back equal. *)
Theorem Text_new_roundtrip (s s' : str) (t t' : Text) :
  ((∃ u, Text_new s = Ok u) ↔
     s ≠ [] ∧ (length s ≤ TEXT_CAPACITY)%nat ∧ str_is_ascii s = true) ∧
  (Text_new s = Ok t → Text_as_str t = s ∧ length (Text_bytes t) = TEXT_CAPACITY) ∧
  (Text_new s = Ok t → Text_new s' = Ok t' → t = t' ↔ Text_as_str t = Text_as_str t').
Proof.
  split_and!.
  - split.
    + intros [u (? & ? & ? & _)%Text_new_Ok]. auto.
    + intros (? & ? & ?). by apply Text_new_accepts.
  - intros H. split; [by apply Text_as_str_new|].
    apply Text_new_Ok in H as (_ & Hl & _ & ->). simpl.
    rewrite length_app, length_replicate. lia.
  - intros H H'. split; [congruence|]. rewrite (Text_as_str_new _ _ H), (Text_as_str_new _ _ H').
    intros ->. congruence.
Qed.

Lemma Text_new_roundtrip_witness :
  let name := [83; 116; 97; 98; 108; 101] in
  let t := MkText (name ++ replicate 26 0) 6 in
  Text_as_str t = name ∧ length (Text_bytes t) = TEXT_CAPACITY.
Proof.
  apply (Text_new_roundtrip [83; 116; 97; 98; 108; 101] [83; 116; 97; 98; 108; 101] _
    (MkText ([83; 116; 97; 98; 108; 101] ++ replicate 26 0) 6)).
  vm_compute; reflexivity.
Defined.
