(* ===== verification/Bytes.v ===== *)
(** * Bytes and buffers

    What the parsers and encoders share: fixed buffers filled from the start,
    slices and their copies, little-endian words, substring search and the
    ASCII classes of the standard library.  A byte is a [Z]; [byte_range]
    (Identity.v) is its type invariant. *)

From stdpp Require Import prelude list.
From Stdlib Require Import ZArith Lia.
From S2P Require Import Prelude Identity.

Set Default Goal Selector "!".
Open Scope Z_scope.
Open Scope expos_scope.

(** ** Reading *)

(** [bytes[at]], at an index the caller has checked. *)
Definition byte_at (bytes : list Z) (at_ : nat) : Z := default 0 (bytes !! at_).

(** [u16::from_le_bytes([bytes[at], bytes[at + 1]])] *)
Definition word_at (bytes : list Z) (at_ : nat) : Z :=
  le_value [byte_at bytes at_; byte_at bytes (at_ + 1)].

(** ** Searching *)

Fixpoint str_starts_with (marker s : str) : bool :=
  match marker, s with
  | [], _ => true
  | m :: marker', c :: s' => (m =? c) && str_starts_with marker' s'
  | _ :: _, [] => false
  end.

(** [str::find]: the first index where the marker occurs. *)
Fixpoint str_find (marker s : str) : option nat :=
  if str_starts_with marker s then Some O
  else match s with
       | [] => None
       | _ :: s' => option_map S (str_find marker s')
       end.

Definition is_ascii_digit (c : Z) : bool := (48 <=? c) && (c <=? 57).
Definition is_ascii_control (c : Z) : bool := (c <? 32) || (c =? 127).

(** ** Lemmas: searching *)

Lemma starts_with_spec m s : str_starts_with m s = true ↔ ∃ rest, s = m ++ rest.
Proof.
  revert s. induction m as [|a m IH]; intros s; simpl; [naive_solver|].
  destruct s as [|c s]; [naive_solver|].
  rewrite andb_true_iff, Z.eqb_eq, IH. naive_solver.
Qed.

Lemma starts_with_app m s rest :
  (length m ≤ length s)%nat → str_starts_with m (s ++ rest) = str_starts_with m s.
Proof.
  revert s. induction m as [|a m IH]; intros [|c s] Hl; simpl in *; try done; [lia|].
  by rewrite IH by lia.
Qed.

(** The first occurrence does not depend on what follows it. *)
Lemma str_find_app m pre rest :
  str_find m (pre ++ m ++ rest) = Some (length pre) ↔ str_find m (pre ++ m) = Some (length pre).
Proof.
  assert (∀ s, str_find m s = Some O ↔ str_starts_with m s = true) as Hz.
  { intros [|c s]; simpl; destruct (str_starts_with m _); [done|done|done|].
    by destruct (str_find m s). }
  induction pre as [|c pre IH].
  { simpl. rewrite !Hz, !starts_with_spec. split; intros _; eauto. exists []. by rewrite app_nil_r. }
  cbn [app length str_find].
  change (c :: pre ++ m ++ rest) with ((c :: pre) ++ m ++ rest).
  change (c :: pre ++ m) with ((c :: pre) ++ m).
  rewrite app_assoc, starts_with_app by (rewrite length_app; lia).
  destruct (str_starts_with m _); [done|]. revert IH.
  destruct (str_find m (pre ++ m ++ rest)), (str_find m (pre ++ m)); simpl; naive_solver.
Qed.

Lemma str_find_Some m s n :
  str_find m s = Some n ↔
  ∃ pre rest, s = pre ++ m ++ rest ∧ length pre = n ∧ str_find m (pre ++ m) = Some (length pre).
Proof.
  split.
  - intros Hs. cut (∃ pre rest, s = pre ++ m ++ rest ∧ length pre = n).
    { intros (pre & rest & -> & <-). exists pre, rest. by rewrite str_find_app in Hs. }
    revert n Hs. induction s as [|c s IH]; intros n; cbn [str_find].
    + destruct (str_starts_with m []) eqn:E; [|done]. intros [= <-].
      apply starts_with_spec in E as [rest E]. by exists [], rest.
    + destruct (str_starts_with m (c :: s)) eqn:E.
      * intros [= <-]. apply starts_with_spec in E as [rest E]. by exists [], rest.
      * destruct (str_find m s) as [k|]; [|done]. intros [= <-].
        destruct (IH k) as (pre & rest & -> & <-); [done|]. by exists (c :: pre), rest.
  - intros (pre & rest & -> & <- & H). by apply str_find_app.
Qed.

(** A marker is found no later than at any of its occurrences. *)
Lemma str_find_le m pre rest :
  ∃ n, str_find m (pre ++ m ++ rest) = Some n ∧ (n ≤ length pre)%nat.
Proof.
  induction pre as [|c pre (n & E & Hn)].
  - exists O. split; [|lia]. simpl.
    assert (str_starts_with m (m ++ rest) = true) as H by (apply starts_with_spec; eauto).
    by destruct (m ++ rest); cbn [str_find]; rewrite H.
  - cbn [app str_find]. destruct (str_starts_with _ _); [exists O; split; [done|lia]|].
    rewrite E. exists (S n). split; [done|]. simpl. lia.
Qed.

(** [pre] and the marker behind it hold the marker only at their end. *)
Definition only_at_end (m pre : str) : Prop :=
  ∀ pre' rest, pre ++ m = pre' ++ m ++ rest → rest = [].

Lemma str_find_first m pre : str_find m (pre ++ m) = Some (length pre) ↔ only_at_end m pre.
Proof.
  split.
  - intros H pre' rest E. destruct (str_find_le m pre' rest) as (n & En & Hn).
    rewrite <- E, H in En. injection En as <-. apply (f_equal length) in E.
    rewrite !length_app in E. apply nil_length_inv. lia.
  - intros H. destruct (str_find_le m pre []) as (n & En & _). rewrite app_nil_r in En.
    rewrite En. f_equal. apply str_find_Some in En as (p & rest & E & <- & _).
    apply H in E as Er. subst rest. apply (f_equal length) in E. rewrite !length_app in E.
    cbn [length] in E. lia.
Qed.

(** ** Lemmas: numerals *)

(** The number that [ds] writes in base [base], most significant digit first. *)
Fixpoint positional (base : Z) (ds : list nat) : Z :=
  match ds with
  | [] => 0
  | d :: ds' => Z.of_nat d * base ^ Zlength ds' + positional base ds'
  end.

Lemma positional_nonneg base ds : 0 ≤ base → 0 ≤ positional base ds.
Proof. intros H. induction ds as [|d ds IH]; simpl; [lia|]. assert (0 ≤ base ^ Zlength ds) by lia. nia. Qed.

Lemma pow_length_pos base {A} (l : list A) : 1 ≤ base → 1 ≤ base ^ Zlength l.
Proof. intros H. pose proof (Z.pow_pos_nonneg base (Zlength l)). unfold Zlength in *. lia. Qed.

(** One more digit, for an accumulator that already holds the digits before. *)
Lemma positional_cons base value d ds :
  value * base ^ Zlength (d :: ds) + positional base (d :: ds) =
  (value * base + Z.of_nat d) * base ^ Zlength ds + positional base ds.
Proof.
  cbn [positional]. unfold Zlength. cbn [length]. rewrite Nat2Z.inj_succ, Z.pow_succ_r by lia. ring.
Qed.

Lemma positional_start base value : value * base ^ Zlength (@nil nat) + positional base [] = value.
Proof. unfold Zlength. cbn [length positional]. rewrite Z.pow_0_r. lia. Qed.

(** ** Lemmas: words *)

Lemma le_bytes_length n v : length (le_bytes n v) = n.
Proof. revert v. induction n; intros v; simpl; auto. Qed.

Lemma le_bytes_range n v : Forall byte_range (le_bytes n v).
Proof.
  revert v. induction n; intros v; simpl; constructor; [|done]. apply Z.mod_pos_bound. lia.
Qed.

Lemma le_bytes2_word a b : byte_range a → byte_range b → le_bytes 2 (le_value [a; b]) = [a; b].
Proof.
  unfold byte_range, le_value. simpl. intros Ha Hb. rewrite Z.mul_0_r, Z.add_0_r.
  rewrite Z.mul_comm, Z_mod_plus_full, Z_div_plus_full, Z.mod_small, Z.div_small by lia.
  by rewrite Z.add_0_l, Z.mod_small.
Qed.

Lemma word_le_bytes2 v : 0 ≤ v < 65536 → le_value (le_bytes 2 v) = v.
Proof.
  intros Hv. unfold le_value. cbn [le_bytes fold_right].
  rewrite Z.mul_0_r, Z.add_0_r, (Z.mod_small (v / 256)).
  - pose proof (Z.div_mod v 256). lia.
  - Z.to_euclidean_division_equations. lia.
Qed.

Lemma le_value2_range a b : byte_range a → byte_range b → 0 ≤ le_value [a; b] < 65536.
Proof. unfold byte_range, le_value. simpl. lia. Qed.

Lemma word_bytes a b v : byte_range a → byte_range b → le_value [a; b] = v → [a; b] = le_bytes 2 v.
Proof. intros Ha Hb <-. by rewrite le_bytes2_word. Qed.

Lemma le_value_bytes n v : le_value (le_bytes n v) = v mod 256 ^ Z.of_nat n.
Proof.
  revert v. induction n as [|n IH]; intros v; [by rewrite Z.mod_1_r|].
  cbn [le_bytes le_value fold_right]. fold (le_value (le_bytes n (v / 256))). rewrite IH.
  rewrite Nat2Z.inj_succ, Z.pow_succ_r by lia. rewrite Z.rem_mul_r; [done|lia|].
  apply Z.pow_pos_nonneg; lia.
Qed.

Lemma be_bytes_mod n v : be_bytes n (v mod 256 ^ Z.of_nat n) = be_bytes n v.
Proof.
  assert (∀ m, (n ≤ m)%nat → be_bytes n (v mod 256 ^ Z.of_nat m) = be_bytes n v) as H; [|by apply H].
  induction n as [|n IH]; intros m Hm; [done|]. cbn [be_bytes]. rewrite IH by lia. f_equal.
  assert (0 < 256 ^ Z.of_nat n) by (apply Z.pow_pos_nonneg; lia).
  replace (Z.of_nat m) with (Z.of_nat n + (1 + Z.of_nat (m - n - 1))) by lia.
  rewrite !Z.pow_add_r by lia. change (256 ^ 1) with 256.
  assert (0 < 256 ^ Z.of_nat (m - n - 1)) by (apply Z.pow_pos_nonneg; lia).
  rewrite Z.rem_mul_r by lia. rewrite (Z.mul_comm (256 ^ Z.of_nat n)), Z.div_add by lia.
  rewrite Z.div_small by (apply Z.mod_pos_bound; lia). rewrite Z.add_0_l, Z.rem_mul_r by lia.
  rewrite (Z.mul_comm 256), Z.mod_add by lia. by rewrite Z.mod_mod by lia.
Qed.

(** Sixteen bytes and the number they stand for determine each other. *)
Lemma be_bytes_value bs : Forall byte_range bs → be_bytes (length bs) (be_value bs) = bs.
Proof.
  induction 1 as [|b bs Hb Hbs IH]; [done|]. cbn [length be_bytes]. unfold byte_range in Hb.
  unfold be_value. cbn [fold_left]. rewrite be_value_app. unfold Zlength.
  set (m := 256 ^ Z.of_nat (length bs)). assert (0 < m) by (apply Z.pow_pos_nonneg; lia).
  assert (be_value bs = be_value bs mod m) as Hv.
  { rewrite <- IH at 2. rewrite be_value_bytes. fold m. rewrite Z.mod_mod by lia.
    rewrite <- IH at 1. by rewrite be_value_bytes. }
  assert (0 ≤ be_value bs < m) as Hr by (rewrite Hv; apply Z.mod_pos_bound; lia).
  f_equal.
  - rewrite Z.add_0_l, Z.div_add_l, (Z.div_small (be_value bs)) by lia. rewrite Z.add_0_r.
    apply Z.mod_small. lia.
  - rewrite <- be_bytes_mod. fold m. rewrite Z.add_comm, Z.mod_add by lia. rewrite <- Hv. exact IH.
Qed.

(** ** Lemmas: slices *)

Section splice_lemmas.
Context {A : Type}.
Implicit Types (l d : list A).

Lemma length_slice l i n : (i + n ≤ length l)%nat → length (slice l i n) = n.
Proof. intros. unfold slice. rewrite length_take, length_drop. lia. Qed.

Lemma length_splice l i d : (i + length d ≤ length l)%nat → length (splice l i d) = length l.
Proof. intros. unfold splice. rewrite !length_app, length_take, length_drop. lia. Qed.

Lemma splice_nil l i : splice l i [] = l.
Proof. unfold splice. simpl. by rewrite Nat.add_0_r, take_drop. Qed.

Lemma splice_splice l i d1 d2 :
  (i + length d1 + length d2 ≤ length l)%nat →
  splice (splice l i d1) (i + length d1) d2 = splice l i (d1 ++ d2).
Proof.
  intros Hl. unfold splice.
  assert (length (take i l) = i) as Hi by (rewrite length_take; lia).
  rewrite (app_assoc (take i l) d1 (drop (i + length d1) l)).
  assert (length (take i l ++ d1) = (i + length d1)%nat) as Hd by (rewrite length_app; lia).
  rewrite <- Hd at 1. rewrite take_app_length.
  rewrite drop_app_ge by lia. rewrite Hd, drop_drop, <- !app_assoc, length_app.
  do 4 f_equal. lia.
Qed.

Lemma splice_app_mid l1 l l2 i d :
  (i + length d ≤ length l)%nat →
  l1 ++ splice l i d ++ l2 = splice (l1 ++ l ++ l2) (length l1 + i) d.
Proof.
  intros Hl. unfold splice. rewrite take_app_add, take_app_le by lia.
  rewrite <- Nat.add_assoc, drop_app_add, drop_app_le by lia.
  by rewrite <- !app_assoc.
Qed.

Lemma slice_app_mid l1 l l2 i n :
  (i + n ≤ length l)%nat → slice l i n = slice (l1 ++ l ++ l2) (length l1 + i) n.
Proof.
  intros Hl. unfold slice. rewrite drop_app_add, drop_app_le by lia.
  rewrite take_app_le; [done|]. rewrite length_drop. lia.
Qed.

Lemma slice_add l i n m : slice l i (n + m) = slice l i n ++ slice l (i + n) m.
Proof. unfold slice. by rewrite <- drop_drop, take_take_drop. Qed.
End splice_lemmas.

Lemma take_splice {A} (l d : list A) i n :
  (i + length d ≤ n ≤ length l)%nat → take n (splice l i d) = splice (take n l) i d.
Proof.
  intros Hn. unfold splice. rewrite take_take, skipn_firstn_comm.
  replace (i `min` n)%nat with i by lia.
  rewrite !take_app, !length_take. rewrite (take_ge (take i l)) by (rewrite length_take; lia).
  rewrite (take_ge d) by lia. do 3 f_equal. lia.
Qed.

Lemma drop_splice {A} (l d : list A) i n :
  (i + length d ≤ n ≤ length l)%nat → drop n (splice l i d) = drop n l.
Proof.
  intros Hn. unfold splice. rewrite !drop_app_ge, drop_drop;
    rewrite ?length_take; [f_equal; lia|lia|lia].
Qed.

Lemma splice_app_l {A} (h rest : list A) at_ bs :
  (at_ + length bs ≤ length h)%nat → splice (h ++ rest) at_ bs = splice h at_ bs ++ rest.
Proof.
  intros Hl. unfold splice. rewrite take_app_le, drop_app_le by lia. by rewrite <- !app_assoc.
Qed.

Lemma splice_at_end {A} (h rest bs : list A) n :
  length h = n → (length bs ≤ length rest)%nat →
  splice (h ++ rest) n bs = h ++ bs ++ drop (length bs) rest.
Proof.
  intros <- Hl. unfold splice. by rewrite take_app_length, drop_app_add.
Qed.

(** ** Lemmas: buffers *)

(** An array of [n] bytes that has been filled with [p] from the start. *)
Definition filled (n : nat) (p : list Z) : list Z := p ++ replicate (n - length p) 0.

Lemma length_filled n p : (length p ≤ n)%nat → length (filled n p) = n.
Proof. intros. unfold filled. rewrite length_app, length_replicate. lia. Qed.

Lemma filled_nil n : filled n [] = replicate n 0.
Proof. unfold filled. by rewrite Nat.sub_0_r. Qed.

Lemma take_filled n p : take (length p) (filled n p) = p.
Proof. unfold filled. by rewrite take_app_length. Qed.

Lemma splice_filled n p bs :
  (length p + length bs ≤ n)%nat → splice (filled n p) (length p) bs = filled n (p ++ bs).
Proof.
  intros Hl. unfold splice. rewrite take_filled. unfold filled.
  rewrite drop_app_add', drop_replicate by done. rewrite length_app, <- app_assoc.
  do 3 f_equal. lia.
Qed.

Lemma splice_zeros n p : (length p ≤ n)%nat → splice (replicate n 0) 0 p = filled n p.
Proof. intros Hl. rewrite <- filled_nil. apply (splice_filled n [] p). done. Qed.

(** ** Fields *)

Section fields.
Context {X : Type}.
Implicit Types l d : list X.

Lemma slice_splice_before l o d i n :
  (o ≤ length l)%nat → (i + n ≤ o)%nat → slice (splice l o d) i n = slice l i n.
Proof.
  intros Ho Hi. unfold slice, splice. rewrite drop_app_le by (rewrite length_take; lia).
  rewrite take_app_le by (rewrite length_drop, length_take; lia).
  rewrite skipn_firstn_comm, take_take. f_equal. lia.
Qed.

Lemma slice_splice_after l o d i n :
  (o + length d ≤ length l)%nat → (o + length d ≤ i)%nat → slice (splice l o d) i n = slice l i n.
Proof.
  intros Ho Hi. unfold slice, splice. f_equal.
  rewrite app_assoc, drop_app_ge by (rewrite length_app, length_take; lia).
  rewrite drop_drop. f_equal. rewrite length_app, length_take. lia.
Qed.

Lemma slice_splice_same l o d n : (o + length d ≤ length l)%nat → length d = n → slice (splice l o d) o n = d.
Proof.
  intros Hl <-. unfold slice, splice. rewrite drop_app_ge, length_take, Nat.min_l, Nat.sub_diag by (rewrite ?length_take; lia).
  rewrite drop_0, take_app_length. done.
Qed.
End fields.

Lemma splice_range l i d : Forall byte_range l → Forall byte_range d → Forall byte_range (splice l i d).
Proof. intros. unfold splice. apply Forall_app; split; [by apply Forall_take|]. apply Forall_app; split; [done|by apply Forall_drop]. Qed.
