(* ===== verification/Cfc.v ===== *)
(** * Central Inflation Fabrics

    [Cfc] and [CfcCatalog] of crates/expos-core/src/cfc.rs: one ExpOS
    environment with its Primary Dimension, secondary Dimensions, Forms and
    bindings, and the catalog that keeps identities exclusive to one CFC.
    [CfcOwnership] is the interface the other components use. *)

From stdpp Require Import prelude list.
From Stdlib Require Import ZArith Lia.
From S2P Require Import Prelude Identity.

Set Default Goal Selector "!".
Open Scope Z_scope.
Open Scope expos_scope.

(** ** Data *)

Definition MAX_CFC_SECONDARY_DIMENSIONS : nat := 7.
Definition MAX_CFC_FORMS : nat := 16.
Definition MAX_CFC_BINDINGS : nat := 32.
Definition MAX_CFCS : nat := 4.

Record CfcBinding := MkCfcBinding { cb_form : Fin; cb_dimension : Fin }.

#[export] Instance CfcBinding_eq_dec : EqDecision CfcBinding.
Proof. solve_decision. Defined.

Inductive CfcError :=
  | InvalidCfcFin | InvalidName | InvalidIdentity | DuplicateDimension | DuplicateForm
  | IdentityKindConflict | SecondaryDimensionCapacity | FormCapacity | BindingCapacity
  | MissingDimension | MissingForm | AlreadyBound.

#[export] Instance CfcError_eq_dec : EqDecision CfcError.
Proof. solve_decision. Defined.

Record Cfc := MkCfc {
  cfc_fin : CfcFin;
  cfc_name : Text;
  cfc_primary : Fin;
  cfc_secondary : slots Fin;
  cfc_forms : slots Fin;
  cfc_bindings : slots CfcBinding }.

#[export] Instance Cfc_eq_dec : EqDecision Cfc.
Proof. solve_decision. Defined.

Definition Cfc_eta (c : Cfc) : Cfc :=
  MkCfc (cfc_fin c) (cfc_name c) (cfc_primary c) (cfc_secondary c) (cfc_forms c)
    (cfc_bindings c).
#[export] Instance set_cfc_secondary : Setter cfc_secondary := ltac:(build_setter Cfc_eta).
#[export] Instance set_cfc_forms : Setter cfc_forms := ltac:(build_setter Cfc_eta).
#[export] Instance set_cfc_bindings : Setter cfc_bindings := ltac:(build_setter Cfc_eta).

(** ** Operations *)

Definition Cfc_new (fin : CfcFin) (name : str) (primary : Fin) : result Cfc CfcError :=
  if CfcFin_is_zero fin then Err InvalidCfcFin
  else if Fin_is_zero primary then Err InvalidIdentity
  else
    let? name := map_err (λ _, InvalidName) (Text_new (str_trim name)) in
    Ok (MkCfc fin name primary
          (empty_slots Fin MAX_CFC_SECONDARY_DIMENSIONS)
          (empty_slots Fin MAX_CFC_FORMS)
          (empty_slots CfcBinding MAX_CFC_BINDINGS)).

Definition Cfc_dimension_count (self : Cfc) : nat := 1 + length (flatten (cfc_secondary self)).
Definition Cfc_form_count (self : Cfc) : nat := length (flatten (cfc_forms self)).
Definition Cfc_binding_count (self : Cfc) : nat := length (flatten (cfc_bindings self)).

Definition Cfc_secondary_dimension (self : Cfc) (index : nat) : option Fin :=
  flatten (cfc_secondary self) !! index.
Definition Cfc_form (self : Cfc) (index : nat) : option Fin :=
  flatten (cfc_forms self) !! index.
Definition Cfc_binding (self : Cfc) (index : nat) : option CfcBinding :=
  flatten (cfc_bindings self) !! index.

Definition Cfc_owns_dimension (self : Cfc) (dimension : Fin) : bool :=
  (dimension ==? cfc_primary self) ||
  existsb (λ candidate, candidate ==? dimension) (flatten (cfc_secondary self)).

Definition Cfc_owns_form (self : Cfc) (form : Fin) : bool :=
  existsb (λ candidate, candidate ==? form) (flatten (cfc_forms self)).

Definition Cfc_is_bound (self : Cfc) (form dimension : Fin) : bool :=
  existsb (λ b, (cb_form b ==? form) && (cb_dimension b ==? dimension))
    (flatten (cfc_bindings self)).

Definition Cfc_add_secondary_dimension (self : Cfc) (dimension : Fin)
    : Cfc * result unit CfcError :=
  if Fin_is_zero dimension then (self, Err InvalidIdentity)
  else if Cfc_owns_dimension self dimension then (self, Err DuplicateDimension)
  else if Cfc_owns_form self dimension then (self, Err IdentityKindConflict)
  else match fill_slot dimension (cfc_secondary self) with
       | None => (self, Err SecondaryDimensionCapacity)
       | Some l => (self <| cfc_secondary := l |>, Ok tt)
       end.

Definition Cfc_own_form (self : Cfc) (form : Fin) : Cfc * result unit CfcError :=
  if Fin_is_zero form then (self, Err InvalidIdentity)
  else if Cfc_owns_form self form then (self, Err DuplicateForm)
  else if Cfc_owns_dimension self form then (self, Err IdentityKindConflict)
  else match fill_slot form (cfc_forms self) with
       | None => (self, Err FormCapacity)
       | Some l => (self <| cfc_forms := l |>, Ok tt)
       end.

Definition Cfc_bind (self : Cfc) (form dimension : Fin) : Cfc * result unit CfcError :=
  if negb (Cfc_owns_form self form) then (self, Err MissingForm)
  else if negb (Cfc_owns_dimension self dimension) then (self, Err MissingDimension)
  else if Cfc_is_bound self form dimension then (self, Err AlreadyBound)
  else match fill_slot (MkCfcBinding form dimension) (cfc_bindings self) with
       | None => (self, Err BindingCapacity)
       | Some l => (self <| cfc_bindings := l |>, Ok tt)
       end.

(** The three loops of [validate].  [rest] is [skip(index + 1)] of the
    flattened table. *)
Fixpoint validate_secondary (self : Cfc) (l : list Fin) : result unit CfcError :=
  match l with
  | [] => Ok tt
  | dimension :: rest =>
      if Fin_is_zero dimension || (dimension ==? cfc_primary self)
      then Err DuplicateDimension
      else if existsb (λ candidate, candidate ==? dimension) rest then Err DuplicateDimension
      else if Cfc_owns_form self dimension then Err IdentityKindConflict
      else validate_secondary self rest
  end.

Fixpoint validate_forms (self : Cfc) (l : list Fin) : result unit CfcError :=
  match l with
  | [] => Ok tt
  | form :: rest =>
      if Fin_is_zero form then Err InvalidIdentity
      else if existsb (λ candidate, candidate ==? form) rest then Err DuplicateForm
      else if Cfc_owns_dimension self form then Err IdentityKindConflict
      else validate_forms self rest
  end.

Fixpoint validate_bindings (self : Cfc) (l : list CfcBinding) : result unit CfcError :=
  match l with
  | [] => Ok tt
  | binding :: rest =>
      if negb (Cfc_owns_form self (cb_form binding)) then Err MissingForm
      else if negb (Cfc_owns_dimension self (cb_dimension binding)) then Err MissingDimension
      else if existsb (λ candidate, candidate ==? binding) rest then Err AlreadyBound
      else validate_bindings self rest
  end.

Definition Cfc_validate (self : Cfc) : result unit CfcError :=
  if CfcFin_is_zero (cfc_fin self) then Err InvalidCfcFin
  else if str_is_empty (str_trim (Text_as_str (cfc_name self))) then Err InvalidName
  else if Fin_is_zero (cfc_primary self) then Err InvalidIdentity
  else
    let? _ := validate_secondary self (flatten (cfc_secondary self)) in
    let? _ := validate_forms self (flatten (cfc_forms self)) in
    validate_bindings self (flatten (cfc_bindings self)).

Definition Cfc_owns_any_identity (self : Cfc) (identity : Fin) : bool :=
  Cfc_owns_dimension self identity || Cfc_owns_form self identity.

(** ** The catalog *)

Inductive CfcCatalogError :=
  | InvalidCfc (e : CfcError)
  | DuplicateCfcFin
  | CrossCfcSharing (identity : Fin) (existing_owner : CfcFin)
  | CatalogFull.

Record CfcCatalog := MkCfcCatalog { cat_cfcs : slots Cfc }.

Definition CfcCatalog_new : CfcCatalog := MkCfcCatalog (empty_slots Cfc MAX_CFCS).

(** The scan for one published CFC: Primary, secondaries, then Forms. *)
Definition sharing_with (existing cfc : Cfc) : result unit CfcCatalogError :=
  if Cfc_owns_any_identity existing (cfc_primary cfc)
  then Err (CrossCfcSharing (cfc_primary cfc) (cfc_fin existing))
  else match List.find (Cfc_owns_any_identity existing) (flatten (cfc_secondary cfc)) with
  | Some shared => Err (CrossCfcSharing shared (cfc_fin existing))
  | None =>
  match List.find (Cfc_owns_any_identity existing) (flatten (cfc_forms cfc)) with
  | Some shared => Err (CrossCfcSharing shared (cfc_fin existing))
  | None => Ok tt
  end end.

Fixpoint sharing_scan (l : list Cfc) (cfc : Cfc) : result unit CfcCatalogError :=
  match l with
  | [] => Ok tt
  | existing :: l' => let? _ := sharing_with existing cfc in sharing_scan l' cfc
  end.

Definition CfcCatalog_insert (self : CfcCatalog) (cfc : Cfc)
    : CfcCatalog * result unit CfcCatalogError :=
  match map_err InvalidCfc (Cfc_validate cfc) with
  | Err e => (self, Err e)
  | Ok _ =>
  if existsb (λ entry, cfc_fin entry ==? cfc_fin cfc) (flatten (cat_cfcs self))
  then (self, Err DuplicateCfcFin)
  else match sharing_scan (flatten (cat_cfcs self)) cfc with
  | Err e => (self, Err e)
  | Ok _ =>
  match fill_slot cfc (cat_cfcs self) with
  | None => (self, Err CatalogFull)
  | Some l => (MkCfcCatalog l, Ok tt)
  end end end.

Definition CfcCatalog_cfc (self : CfcCatalog) (fin : CfcFin) : option Cfc :=
  List.find (λ cfc, cfc_fin cfc ==? fin) (flatten (cat_cfcs self)).
Definition CfcCatalog_len (self : CfcCatalog) : nat := length (flatten (cat_cfcs self)).
Definition CfcCatalog_is_empty (self : CfcCatalog) : bool := (CfcCatalog_len self =? 0)%nat.

(** ** Specification *)

Definition cfc_dimensions (c : Cfc) : list Fin := cfc_primary c :: flatten (cfc_secondary c).
Definition cfc_identities (c : Cfc) : list Fin := cfc_dimensions c ++ flatten (cfc_forms c).

Arguments cfc_dimensions : simpl never.
Arguments cfc_identities : simpl never.

(** What a CFC promises about its own identities. *)
Record cfc_wf (c : Cfc) : Prop := {
  wf_fin : CfcFin_is_zero (cfc_fin c) = false;
  wf_name : str_trim (Text_as_str (cfc_name c)) ≠ [];
  wf_nonzero : ∀ i, i ∈ cfc_identities c → Fin_is_zero i = false;
  wf_identities : NoDup (cfc_identities c);
  wf_bound : ∀ b, b ∈ flatten (cfc_bindings c) →
    cb_form b ∈ flatten (cfc_forms c) ∧ cb_dimension b ∈ cfc_dimensions c;
  wf_bindings : NoDup (flatten (cfc_bindings c)) }.

(** The arrays have their declared sizes. *)
Record cfc_shape (c : Cfc) : Prop := {
  sh_secondary : length (cfc_secondary c) = MAX_CFC_SECONDARY_DIMENSIONS;
  sh_forms : length (cfc_forms c) = MAX_CFC_FORMS;
  sh_bindings : length (cfc_bindings c) = MAX_CFC_BINDINGS }.

(** A CFC as the program can build it: [new], then any calls. *)
Inductive cfc_reachable : Cfc → Prop :=
  | reach_new fin name primary c :
      Cfc_new fin name primary = Ok c → cfc_reachable c
  | reach_add c dimension :
      cfc_reachable c → cfc_reachable (Cfc_add_secondary_dimension c dimension).1
  | reach_own c form :
      cfc_reachable c → cfc_reachable (Cfc_own_form c form).1
  | reach_bind c form dimension :
      cfc_reachable c → cfc_reachable (Cfc_bind c form dimension).1.

Inductive catalog_reachable : CfcCatalog → Prop :=
  | catalog_new : catalog_reachable CfcCatalog_new
  | catalog_insert k c :
      catalog_reachable k → catalog_reachable (CfcCatalog_insert k c).1.

(** ** The ownership interface

    What a scope asks of a CFC: its identity, the two
    ownership tests and the enumeration of owned Forms, with the law that
    the enumeration and the test agree. *)

Class CfcOwnership (C : Type) := {
  own_fin : C → CfcFin;
  own_form_test : C → Fin → bool;
  own_dimension_test : C → Fin → bool;
  own_form_at : C → nat → option Fin;
  own_valid : C → Prop;
  own_form_enum : ∀ c f, own_valid c →
    own_form_test c f = true ↔ ∃ i, (i < MAX_CFC_FORMS)%nat ∧ own_form_at c i = Some f }.

(** ** Lemmas *)

Lemma owns_form_spec c f : Cfc_owns_form c f = true ↔ f ∈ flatten (cfc_forms c).
Proof.
  unfold Cfc_owns_form. rewrite existsb_elem.
  setoid_rewrite bool_decide_eq_true. naive_solver.
Qed.

Lemma owns_dimension_spec c d : Cfc_owns_dimension c d = true ↔ d ∈ cfc_dimensions c.
Proof.
  unfold Cfc_owns_dimension, cfc_dimensions.
  rewrite orb_true_iff, existsb_elem, elem_of_cons.
  setoid_rewrite bool_decide_eq_true. naive_solver.
Qed.

Lemma owns_any_spec c i : Cfc_owns_any_identity c i = true ↔ i ∈ cfc_identities c.
Proof.
  unfold Cfc_owns_any_identity, cfc_identities.
  by rewrite orb_true_iff, owns_dimension_spec, owns_form_spec, elem_of_app.
Qed.

Lemma is_bound_spec c f d :
  Cfc_is_bound c f d = true ↔ MkCfcBinding f d ∈ flatten (cfc_bindings c).
Proof.
  unfold Cfc_is_bound. rewrite existsb_elem.
  setoid_rewrite andb_true_iff. setoid_rewrite bool_decide_eq_true.
  split; [intros ([? ?] & ? & ? & ?); naive_solver|naive_solver].
Qed.

Lemma owns_form_false c f : Cfc_owns_form c f = false ↔ f ∉ flatten (cfc_forms c).
Proof. by rewrite <- not_true_iff_false, owns_form_spec. Qed.
Lemma owns_dimension_false c d : Cfc_owns_dimension c d = false ↔ d ∉ cfc_dimensions c.
Proof. by rewrite <- not_true_iff_false, owns_dimension_spec. Qed.
Lemma is_bound_false c f d :
  Cfc_is_bound c f d = false ↔ MkCfcBinding f d ∉ flatten (cfc_bindings c).
Proof. by rewrite <- not_true_iff_false, is_bound_spec. Qed.
#[export] Hint Rewrite owns_form_spec owns_dimension_spec owns_any_spec is_bound_spec
  owns_form_false owns_dimension_false is_bound_false : ownership.

Lemma existsb_eq_spec `{EqDecision A} (x : A) l :
  existsb (λ y, y ==? x) l = false ↔ x ∉ l.
Proof.
  rewrite existsb_elem_false. setoid_rewrite bool_decide_eq_false. naive_solver.
Qed.

(** [trim] leaves a string that still has a visible character. *)
Lemma trim_start_elem c s :
  c ∈ s → char_is_whitespace c = false → c ∈ str_trim_start s.
Proof.
  induction s as [|d s IH]; simpl; [done|]. intros Hc Hw.
  destruct (char_is_whitespace d) eqn:E; [|done].
  apply elem_of_cons in Hc as [->|Hc]; [congruence|auto].
Qed.

Lemma trim_elem c s : c ∈ s → char_is_whitespace c = false → c ∈ str_trim s.
Proof.
  intros Hc Hw. unfold str_trim, str_trim_end.
  rewrite elem_of_rev. apply trim_start_elem; [|done].
  rewrite elem_of_rev. by apply trim_start_elem.
Qed.

Lemma trim_start_head s c t :
  str_trim_start s = c :: t → char_is_whitespace c = false.
Proof.
  induction s as [|d s IH]; simpl; [done|].
  destruct (char_is_whitespace d) eqn:E; [auto|]. by intros [= -> ->].
Qed.

Lemma trim_trim_nonempty s : str_trim s ≠ [] → str_trim (str_trim s) ≠ [].
Proof.
  intros H. destruct (str_trim_start s) as [|c t] eqn:E.
  { destruct H. unfold str_trim. by rewrite E. }
  pose proof (trim_start_head _ _ _ E) as Hc.
  assert (c ∈ str_trim s) as Hin.
  { unfold str_trim, str_trim_end. rewrite E, elem_of_rev.
    apply trim_start_elem; [|done]. rewrite elem_of_rev. by left. }
  apply (trim_elem c) in Hin; [|done]. intros Hn. rewrite Hn in Hin.
  by apply elem_of_nil in Hin.
Qed.

(** Each loop of [validate] accepts exactly the lists without duplicates whose
    members pass its test. *)
Lemma validate_secondary_spec c l :
  validate_secondary c l = Ok tt ↔
  NoDup l ∧ Forall (λ d,
    Fin_is_zero d = false ∧ d ≠ cfc_primary c ∧ d ∉ flatten (cfc_forms c)) l.
Proof.
  induction l as [|d l IH]; simpl; [split; auto using NoDup_nil_2|].
  rewrite NoDup_cons, Forall_cons. split.
  - intros H. guards; bools. apply existsb_eq_spec in Heqb0.
    autorewrite with ownership in *. naive_solver.
  - intros [[Hn Hd] [(Hz & Hp & Hf) Hall]]. rewrite Hz, bool_decide_false by done. simpl.
    apply existsb_eq_spec in Hn as ->. apply owns_form_false in Hf as ->. by apply IH.
Qed.

Lemma validate_forms_spec c l :
  validate_forms c l = Ok tt ↔
  NoDup l ∧ Forall (λ f, Fin_is_zero f = false ∧ f ∉ cfc_dimensions c) l.
Proof.
  induction l as [|f l IH]; simpl; [split; auto using NoDup_nil_2|].
  rewrite NoDup_cons, Forall_cons. split.
  - intros H. guards. apply existsb_eq_spec in Heqb0.
    autorewrite with ownership in *. naive_solver.
  - intros [[Hn Hd] [(Hz & Hf) Hall]]. rewrite Hz.
    apply existsb_eq_spec in Hn as ->. apply owns_dimension_false in Hf as ->. by apply IH.
Qed.

Lemma validate_bindings_spec c l :
  validate_bindings c l = Ok tt ↔
  NoDup l ∧ Forall (λ b,
    cb_form b ∈ flatten (cfc_forms c) ∧ cb_dimension b ∈ cfc_dimensions c) l.
Proof.
  induction l as [|b l IH]; simpl; [split; auto using NoDup_nil_2|].
  rewrite NoDup_cons, Forall_cons. split.
  - intros H. guards. bools. apply existsb_eq_spec in Heqb2.
    autorewrite with ownership in *. naive_solver.
  - intros [[Hn Hd] [(Hf & Hm) Hall]].
    apply owns_form_spec in Hf as ->. apply owns_dimension_spec in Hm as ->. simpl.
    apply existsb_eq_spec in Hn as ->. by apply IH.
Qed.

Lemma cfc_identities_NoDup c :
  NoDup (cfc_identities c) ↔
  NoDup (flatten (cfc_secondary c)) ∧ NoDup (flatten (cfc_forms c)) ∧
  (∀ d, d ∈ flatten (cfc_secondary c) → d ≠ cfc_primary c ∧ d ∉ flatten (cfc_forms c)) ∧
  (∀ f, f ∈ flatten (cfc_forms c) → f ∉ cfc_dimensions c).
Proof.
  unfold cfc_identities, cfc_dimensions. rewrite NoDup_app, NoDup_cons.
  setoid_rewrite elem_of_cons. naive_solver.
Qed.

(** The executable check decides the specification. *)
Lemma validate_wf c : Cfc_validate c = Ok tt ↔ cfc_wf c.
Proof.
  unfold Cfc_validate. split.
  - intros H. destruct (CfcFin_is_zero _) eqn:Hf; [done|].
    destruct (str_is_empty _) eqn:Hn; [done|]. destruct (Fin_is_zero _) eqn:Hp; [done|].
    apply let_ok in H as ([] & [Hs Hs']%validate_secondary_spec & H).
    apply let_ok in H as ([] & [Ho Ho']%validate_forms_spec & [Hb Hb']%validate_bindings_spec).
    rewrite Forall_forall in Hs'. rewrite Forall_forall in Ho'. rewrite Forall_forall in Hb'.
    split; auto.
    + intros Ht. by rewrite Ht in Hn.
    + intros i. unfold cfc_identities, cfc_dimensions.
      rewrite elem_of_app, elem_of_cons. naive_solver.
    + apply cfc_identities_NoDup. naive_solver.
  - intros [Hf Hn Hz Hd Hb Hbd]. rewrite Hf.
    destruct (str_trim _) as [|ch t]; [done|]. cbn [str_is_empty].
    assert (Fin_is_zero (cfc_primary c) = false) as ->.
    { apply Hz. unfold cfc_identities, cfc_dimensions. by left. }
    apply cfc_identities_NoDup in Hd as (Hs & Ho & Hsd & Hod).
    assert (∀ i, i ∈ flatten (cfc_secondary c) ∨ i ∈ flatten (cfc_forms c) →
      Fin_is_zero i = false) as Hz'.
    { intros i Hi. apply Hz. unfold cfc_identities, cfc_dimensions.
      rewrite elem_of_app, elem_of_cons. naive_solver. }
    rewrite (proj2 (validate_secondary_spec c _)) by (rewrite Forall_forall; naive_solver).
    rewrite (proj2 (validate_forms_spec c _)) by (rewrite Forall_forall; naive_solver).
    apply validate_bindings_spec. by rewrite Forall_forall.
Qed.

(** Adding one fresh identity keeps a CFC well formed. *)
Lemma wf_extend c c' i :
  cfc_wf c → cfc_fin c' = cfc_fin c → cfc_name c' = cfc_name c →
  cfc_bindings c' = cfc_bindings c → cfc_identities c' ≡ₚ i :: cfc_identities c →
  i ∉ cfc_identities c → Fin_is_zero i = false →
  (∀ d, d ∈ cfc_dimensions c → d ∈ cfc_dimensions c') →
  (∀ f, f ∈ flatten (cfc_forms c) → f ∈ flatten (cfc_forms c')) → cfc_wf c'.
Proof.
  intros [Hf Hn Hz Hd Hb Hbd] Ef En Eb Hp Hi Hi0 Hdim Hform.
  split; rewrite ?Ef, ?En, ?Eb; auto.
  - intros j. rewrite Hp, elem_of_cons. intros [->|Hj]; auto.
  - rewrite Hp. by apply NoDup_cons.
  - intros b [??]%Hb. auto.
Qed.

Lemma add_secondary_wf c d : cfc_wf c → cfc_wf (Cfc_add_secondary_dimension c d).1.
Proof.
  intros Hwf. unfold Cfc_add_secondary_dimension. guards; try done.
  autorewrite with ownership in *. apply fill_slot_perm in Heqo as Hp.
  apply (wf_extend c _ d); unfold cfc_identities, cfc_dimensions in *; simpl; auto.
  - rewrite Hp. by rewrite Permutation_swap.
  - rewrite elem_of_cons, elem_of_app. rewrite elem_of_cons in Heqb0. naive_solver.
  - intros x. rewrite Hp, !elem_of_cons. naive_solver.
Qed.

Lemma own_form_wf c f : cfc_wf c → cfc_wf (Cfc_own_form c f).1.
Proof.
  intros Hwf. unfold Cfc_own_form. guards; try done.
  autorewrite with ownership in *. apply fill_slot_perm in Heqo as Hp.
  apply (wf_extend c _ f); unfold cfc_identities, cfc_dimensions in *; simpl; auto.
  - rewrite Hp. simpl. by rewrite <- Permutation_middle, Permutation_swap.
  - rewrite elem_of_cons, elem_of_app. rewrite elem_of_cons in Heqb1. naive_solver.
  - intros x. rewrite Hp, !elem_of_cons. naive_solver.
Qed.

Lemma bind_wf c f d : cfc_wf c → cfc_wf (Cfc_bind c f d).1.
Proof.
  intros Hwf. pose proof Hwf as [Hf Hn Hz Hd Hb Hbd]. unfold Cfc_bind. guards; try done.
  bools. autorewrite with ownership in *. apply fill_slot_perm in Heqo as Hp.
  split; simpl; auto.
  - intros b. rewrite Hp, elem_of_cons. intros [->|?]; [done|by apply Hb].
  - rewrite Hp. by apply NoDup_cons.
Qed.

Lemma new_wf fin name primary c :
  Cfc_new fin name primary = Ok c → cfc_wf c ∧ cfc_shape c.
Proof.
  unfold Cfc_new. intros H.
  destruct (CfcFin_is_zero fin) eqn:Hf; [done|]. destruct (Fin_is_zero primary) eqn:Hp; [done|].
  destruct (Text_new (str_trim name)) as [t|] eqn:Ht; simpl in H; [|done].
  apply Ok_inj in H as <-. split; [|by split].
  pose proof (Text_new_Ok _ _ Ht) as (Hne & _).
  split; unfold cfc_identities, cfc_dimensions; cbn [cfc_fin cfc_name cfc_primary
    cfc_secondary cfc_forms cfc_bindings]; rewrite ?flatten_empty; simpl; auto.
  - rewrite (Text_as_str_new _ _ Ht). by apply trim_trim_nonempty.
  - by intros i ->%list_elem_of_singleton.
  - apply NoDup_singleton.
  - by intros b Hb%elem_of_nil.
  - constructor.
Qed.

Lemma reachable_wf c : cfc_reachable c → cfc_wf c.
Proof.
  induction 1 as [? ? ? ? H| | |]; auto using add_secondary_wf, own_form_wf, bind_wf.
  by apply new_wf in H as [? _].
Qed.

Lemma reachable_shape c : cfc_reachable c → cfc_shape c.
Proof.
  induction 1 as [? ? ? ? H|c d _ [? ? ?]|c f _ [? ? ?]|c f d _ [? ? ?]].
  - by apply new_wf in H as [_ ?].
  - unfold Cfc_add_secondary_dimension. guards; try done.
    split; simpl; auto. by rewrite (fill_slot_length _ _ _ Heqo).
  - unfold Cfc_own_form. guards; try done.
    split; simpl; auto. by rewrite (fill_slot_length _ _ _ Heqo).
  - unfold Cfc_bind. guards; try done.
    split; simpl; auto. by rewrite (fill_slot_length _ _ _ Heqo).
Qed.

#[export] Instance Cfc_ownership : CfcOwnership Cfc.
Proof.
  refine {| own_fin := cfc_fin; own_form_test := Cfc_owns_form;
            own_dimension_test := Cfc_owns_dimension; own_form_at := Cfc_form;
            own_valid := cfc_shape |}.
  intros c f [_ Hl _]. rewrite owns_form_spec, list_elem_of_lookup. unfold Cfc_form.
  split; [|naive_solver]. intros [i Hi]. exists i. split; [|done].
  apply lookup_lt_Some in Hi. pose proof (length_flatten (cfc_forms c)). lia.
Defined.

(** ** The catalog's lemmas *)

Definition disjoint_cfc (a b : Cfc) : Prop := ∀ i, i ∈ cfc_identities a → i ∉ cfc_identities b.

Lemma sharing_with_spec e c :
  match sharing_with e c with
  | Ok _ => disjoint_cfc c e
  | Err err => ∃ i, err = CrossCfcSharing i (cfc_fin e) ∧
                    i ∈ cfc_identities c ∧ i ∈ cfc_identities e
  end.
Proof.
  unfold sharing_with, disjoint_cfc. destruct (Cfc_owns_any_identity _ _) eqn:Hp.
  { apply owns_any_spec in Hp. exists (cfc_primary c). split_and!; auto.
    unfold cfc_identities, cfc_dimensions. by left. }
  destruct (List.find _ (flatten (cfc_secondary c))) as [i|] eqn:Hs.
  { apply find_elem in Hs as [Hi He%owns_any_spec]. exists i. split_and!; auto.
    unfold cfc_identities, cfc_dimensions. rewrite elem_of_app, elem_of_cons. auto. }
  destruct (List.find _ (flatten (cfc_forms c))) as [i|] eqn:Hf.
  { apply find_elem in Hf as [Hi He%owns_any_spec]. exists i. split_and!; auto.
    unfold cfc_identities. rewrite elem_of_app. auto. }
  rewrite find_elem_None in Hs, Hf. intros i Hi. rewrite <- owns_any_spec.
  apply not_true_iff_false. unfold cfc_identities, cfc_dimensions in Hi.
  rewrite elem_of_app, elem_of_cons in Hi. naive_solver.
Qed.

Lemma sharing_scan_spec l c :
  match sharing_scan l c with
  | Ok _ => Forall (disjoint_cfc c) l
  | Err err => ∃ i e, err = CrossCfcSharing i (cfc_fin e) ∧ e ∈ l ∧
                      i ∈ cfc_identities c ∧ i ∈ cfc_identities e
  end.
Proof.
  induction l as [|e l IH]; simpl; [done|]. pose proof (sharing_with_spec e c) as H.
  destruct (sharing_with e c) as [?|err].
  - destruct (sharing_scan l c); [auto|].
    destruct IH as (i & e' & ? & ? & ?). exists i, e'. rewrite elem_of_cons. auto.
  - destruct H as (i & ? & ? & ?). exists i, e. rewrite elem_of_cons. auto.
Qed.

Record catalog_wf (k : CfcCatalog) : Prop := {
  cat_valid : Forall cfc_wf (flatten (cat_cfcs k));
  cat_fins : NoDup (cfc_fin <$> flatten (cat_cfcs k));
  cat_exclusive : NoDup (mbind cfc_identities (flatten (cat_cfcs k)));
  cat_length : length (cat_cfcs k) = MAX_CFCS }.

Lemma insert_wf k c : catalog_wf k → catalog_wf (CfcCatalog_insert k c).1.
Proof.
  intros Hk. pose proof Hk as [Hv Hf Hx Hl]. unfold CfcCatalog_insert.
  destruct (Cfc_validate c) as [[]|] eqn:Hc; simpl; [|done]. apply validate_wf in Hc.
  destruct (existsb _ _) eqn:He; [done|].
  pose proof (sharing_scan_spec (flatten (cat_cfcs k)) c) as Hs.
  destruct (sharing_scan _ c); [|done].
  destruct (fill_slot c (cat_cfcs k)) as [l|] eqn:Hfill; simpl; [|done].
  apply fill_slot_perm in Hfill as Hp. apply fill_slot_length in Hfill.
  rewrite existsb_elem_false in He. rewrite Forall_forall in Hs.
  split; simpl; [| | |by rewrite Hfill].
  - rewrite Hp. by constructor.
  - rewrite Hp. csimpl. apply NoDup_cons. split; [|done].
    intros (e & Ee & Hin)%list_elem_of_fmap. apply He in Hin. simpl in Hin.
    apply bool_decide_eq_false_1 in Hin. congruence.
  - rewrite Hp, bind_cons. apply NoDup_app. split_and!; [apply Hc| |done].
    intros i Hi (e & Hie & Hin)%list_elem_of_bind. by apply (Hs e Hin i).
Qed.

Lemma catalog_reachable_wf k : catalog_reachable k → catalog_wf k.
Proof.
  induction 1; [|by apply insert_wf].
  split; simpl; constructor.
Qed.

(** ** Properties *)

(** [Cfc::validate] decides ownership integrity: it answers [Ok] exactly
    for a CFC whose identity, name and Primary Dimension are set, whose
    Dimensions and Forms are non-zero and pairwise distinct (also across the
    two kinds), and whose bindings are distinct and join an owned Form to an
    owned Dimension. *)
Theorem Cfc_validate_decides (c : Cfc) : Cfc_validate c = Ok tt ↔ cfc_wf c.
Proof. apply validate_wf. Qed.

(** Every CFC the program can build, by [new] and then any sequence of
    [add_secondary_dimension], [own_form] and [bind] calls, failed ones
    included, passes [validate] and stays within its capacities; so the
    [expect] of [ExpFs::new] and the check of [CfcCatalog::insert] never
    reject it. *)
Theorem Cfc_reachable_valid (c : Cfc) :
  cfc_reachable c →
  Cfc_validate c = Ok tt ∧ (Cfc_dimension_count c ≤ 8)%nat ∧
  (Cfc_form_count c ≤ MAX_CFC_FORMS)%nat ∧ (Cfc_binding_count c ≤ MAX_CFC_BINDINGS)%nat.
Proof.
  intros Hc. pose proof (reachable_shape c Hc) as [Hs Hf Hb].
  split; [by apply validate_wf, reachable_wf|].
  unfold Cfc_dimension_count, Cfc_form_count, Cfc_binding_count.
  pose proof (length_flatten (cfc_secondary c)). pose proof (length_flatten (cfc_forms c)).
  pose proof (length_flatten (cfc_bindings c)).
  unfold MAX_CFC_SECONDARY_DIMENSIONS in *. lia.
Qed.

(** A workstation with one extra Dimension and one bound Form. *)
Definition demo_cfc : Cfc :=
  match Cfc_new (CfcFin_from_u128 1) [32; 77; 97; 99; 32] (Fin_from_u128 10) with
  | Ok c =>
      let c := (Cfc_add_secondary_dimension c (Fin_from_u128 11)).1 in
      let c := (Cfc_own_form c (Fin_from_u128 100)).1 in
      (Cfc_bind c (Fin_from_u128 100) (Fin_from_u128 11)).1
  | Err _ => MkCfc CfcFin_ZERO Text_empty Fin_ZERO [] [] []
  end.

Lemma Cfc_reachable_valid_witness :
  Cfc_validate demo_cfc = Ok tt ∧ (Cfc_dimension_count demo_cfc ≤ 8)%nat ∧
  (Cfc_form_count demo_cfc ≤ MAX_CFC_FORMS)%nat ∧
  (Cfc_binding_count demo_cfc ≤ MAX_CFC_BINDINGS)%nat.
Proof.
  apply (Cfc_reachable_valid demo_cfc).
  apply reach_bind, reach_own, reach_add.
  eapply (reach_new (CfcFin_from_u128 1) [32; 77; 97; 99; 32] (Fin_from_u128 10)).
  vm_compute; reflexivity.
Defined.

(** Exclusive ownership.  In every catalog built by [insert] calls no
    identity belongs to two CFCs, no two CFCs share their FIN, and [cfc]
    finds each published CFC by its FIN.  A rejected [insert] changes nothing
    and, when it reports sharing, names an identity both CFCs hold and the
    CFC that holds it. *)
Theorem CfcCatalog_exclusive (k : CfcCatalog) (a b c : Cfc) (i : Fin) :
  catalog_reachable k →
  a ∈ flatten (cat_cfcs k) → b ∈ flatten (cat_cfcs k) →
  (Cfc_owns_any_identity a i = true → Cfc_owns_any_identity b i = true → a = b) ∧
  CfcCatalog_cfc k (cfc_fin a) = Some a ∧
  match CfcCatalog_insert k c with
  | (k', Ok _) => ∀ e, e ∈ flatten (cat_cfcs k') ↔ e = c ∨ e ∈ flatten (cat_cfcs k)
  | (k', Err err) =>
      k' = k ∧
      (∀ s o, err = CrossCfcSharing s o →
        ∃ e, CfcCatalog_cfc k o = Some e ∧
             Cfc_owns_any_identity e s = true ∧ Cfc_owns_any_identity c s = true)
  end.
Proof.
  intros Hk Ha Hb. pose proof (catalog_reachable_wf k Hk) as [Hv Hf Hx _].
  assert (∀ e, e ∈ flatten (cat_cfcs k) → CfcCatalog_cfc k (cfc_fin e) = Some e) as Hfind.
  { intros e He. by apply find_unique. }
  split_and!; [|by apply Hfind|].
  - rewrite !owns_any_spec. intros Hia Hib. by apply (NoDup_bind_inj cfc_identities _ a b i Hx).
  - unfold CfcCatalog_insert. destruct (Cfc_validate c) as [[]|]; simpl; [|done].
    destruct (existsb _ _); [done|].
    pose proof (sharing_scan_spec (flatten (cat_cfcs k)) c) as Hs.
    destruct (sharing_scan _ c).
    + destruct (fill_slot c (cat_cfcs k)) as [l|] eqn:Hl; [|done].
      intros e. by apply elem_of_fill_slot.
    + split; [done|]. destruct Hs as (s & o & -> & Ho & Hsc & Hse).
      intros s' o' [= <- <-]. exists o. rewrite !owns_any_spec. auto.
Qed.

Definition demo_catalog : CfcCatalog := (CfcCatalog_insert CfcCatalog_new demo_cfc).1.

(** Another CFC whose Primary Dimension is a secondary one of [demo_cfc]. *)
Definition sharing_cfc : Cfc :=
  MkCfc (CfcFin_from_u128 2) (cfc_name demo_cfc) (Fin_from_u128 11)
    (empty_slots Fin 7) (empty_slots Fin 16) (empty_slots CfcBinding 32).

Lemma CfcCatalog_exclusive_witness :
  CfcCatalog_cfc demo_catalog (CfcFin_from_u128 1) = Some demo_cfc ∧
  match CfcCatalog_insert demo_catalog sharing_cfc with
  | (k', Err err) =>
      k' = demo_catalog ∧
      (∀ s o, err = CrossCfcSharing s o →
        ∃ e, CfcCatalog_cfc demo_catalog o = Some e ∧
             Cfc_owns_any_identity e s = true ∧
             Cfc_owns_any_identity sharing_cfc s = true)
  | (k', Ok _) =>
      ∀ e, e ∈ flatten (cat_cfcs k') ↔ e = sharing_cfc ∨ e ∈ flatten (cat_cfcs demo_catalog)
  end ∧
  (CfcCatalog_insert demo_catalog sharing_cfc).2 =
    Err (CrossCfcSharing (Fin_from_u128 11) (CfcFin_from_u128 1)).
Proof.
  assert (demo_cfc ∈ flatten (cat_cfcs demo_catalog)) as H by (vm_compute; left).
  destruct (CfcCatalog_exclusive demo_catalog demo_cfc demo_cfc sharing_cfc (Fin_from_u128 11)
    (catalog_insert _ demo_cfc catalog_new) H H) as (_ & H1 & H2).
  split; [exact H1|]. split; [exact H2|]. vm_compute; reflexivity.
Defined.
