(* ===== verification/Scope.v ===== *)
(** * ExpScope

    Explicit Form reachability (crates/expos-core/src/scope.rs): a
    deny-by-default allowlist over a snapshot of the Forms a CFC owns.  The
    component is generic in the ownership interface of [Cfc]. *)

From stdpp Require Import prelude list gmap.
From Stdlib Require Import ZArith Lia.
From S2P Require Import Prelude Identity Cfc.

Set Default Goal Selector "!".
Open Scope Z_scope.
Open Scope expos_scope.

(** ** Data *)

Definition MAX_SCOPE_TARGETS : nat := 8.

Inductive ScopeError := UnownedDimension | UnownedForm | ScopeDuplicate | ScopeFull | ScopeDenied.

#[export] Instance ScopeError_eq_dec : EqDecision ScopeError.
Proof. solve_decision. Defined.

Record ExpScope := MkExpScope {
  scope_cfc : CfcFin;
  scope_dimension : Fin;
  scope_subject : Fin;
  scope_owned_forms : slots Fin;
  scope_targets_table : slots Fin }.

Definition ExpScope_eta (s : ExpScope) : ExpScope :=
  MkExpScope (scope_cfc s) (scope_dimension s) (scope_subject s) (scope_owned_forms s)
    (scope_targets_table s).
#[export] Instance set_scope_targets : Setter scope_targets_table :=
  ltac:(build_setter ExpScope_eta).

(** ** Operations *)

Definition ExpScope_new {C} `{CfcOwnership C} (cfc : C) (dimension subject : Fin)
    : result ExpScope ScopeError :=
  if negb (own_dimension_test cfc dimension) then Err UnownedDimension
  else if negb (own_form_test cfc subject) then Err UnownedForm
  else
    let owned_forms := own_form_at cfc <$> seq 0 MAX_CFC_FORMS in
    Ok (MkExpScope (own_fin cfc) dimension subject owned_forms
          (empty_slots Fin MAX_SCOPE_TARGETS)).

Definition ExpScope_len (self : ExpScope) : nat := length (flatten (scope_targets_table self)).
Definition ExpScope_is_empty (self : ExpScope) : bool :=
  forallb (λ o, match o with None => true | Some _ => false end) (scope_targets_table self).
Definition ExpScope_targets (self : ExpScope) : list Fin := flatten (scope_targets_table self).
Definition ExpScope_contains (self : ExpScope) (target : Fin) : bool :=
  existsb (λ allowed, allowed ==? target) (ExpScope_targets self).

Definition ExpScope_validate_target (self : ExpScope) (target : Fin) : result unit ScopeError :=
  if negb (existsb (λ owned, owned ==? target) (flatten (scope_owned_forms self)))
  then Err UnownedForm else Ok tt.

Definition ExpScope_allow (self : ExpScope) (target : Fin)
    : ExpScope * result unit ScopeError :=
  match ExpScope_validate_target self target with
  | Err e => (self, Err e)
  | Ok _ =>
  if ExpScope_contains self target then (self, Err ScopeDuplicate)
  else match fill_slot target (scope_targets_table self) with
  | None => (self, Err ScopeFull)
  | Some l => (self <| scope_targets_table := l |>, Ok tt)
  end end.

Definition ExpScope_authorize (self : ExpScope) (target : Fin) : result unit ScopeError :=
  let? _ := ExpScope_validate_target self target in
  if ExpScope_contains self target then Ok tt else Err ScopeDenied.

(** ** Specification

    The abstract scope is a set of reachable Forms inside the set of Forms
    the CFC owned at creation; [allow] adds one. *)

Definition allow_all (s : ExpScope) (l : list Fin) : ExpScope :=
  fold_left (λ s f, (ExpScope_allow s f).1) l s.

(** The calls of a trace that were accepted. *)
Fixpoint accepted (s : ExpScope) (l : list Fin) : list Fin :=
  match l with
  | [] => []
  | f :: l' =>
      let (s', r) := ExpScope_allow s f in
      (if is_ok r then [f] else []) ++ accepted s' l'
  end.

Record scope_wf (s : ExpScope) : Prop := {
  sc_distinct : NoDup (ExpScope_targets s);
  sc_owned : ∀ f, f ∈ ExpScope_targets s → f ∈ flatten (scope_owned_forms s);
  sc_length : length (scope_targets_table s) = MAX_SCOPE_TARGETS }.

(** ** Lemmas *)

Lemma existsb_eq_true `{EqDecision A} (x : A) l : existsb (λ y, y ==? x) l = true ↔ x ∈ l.
Proof.
  rewrite existsb_elem. setoid_rewrite bool_decide_eq_true. naive_solver.
Qed.

Lemma targets_contains s f : ExpScope_contains s f = true ↔ f ∈ ExpScope_targets s.
Proof. apply existsb_eq_true. Qed.

Lemma validate_target_spec s f :
  ExpScope_validate_target s f = Ok tt ↔ f ∈ flatten (scope_owned_forms s).
Proof.
  unfold ExpScope_validate_target. rewrite <- existsb_eq_true.
  destruct (existsb _ _); simpl; naive_solver.
Qed.

(** The effect of one [allow] call, on every branch. *)
Lemma allow_spec s f :
  let (s', r) := ExpScope_allow s f in
  scope_owned_forms s' = scope_owned_forms s ∧
  scope_subject s' = scope_subject s ∧ scope_dimension s' = scope_dimension s ∧
  scope_cfc s' = scope_cfc s ∧
  length (scope_targets_table s') = length (scope_targets_table s) ∧
  match r with
  | Ok _ => (f ∈ flatten (scope_owned_forms s)) ∧ (f ∉ ExpScope_targets s) ∧
            ExpScope_targets s' ≡ₚ f :: ExpScope_targets s
  | Err e => s' = s
  end.
Proof.
  unfold ExpScope_allow. destruct (ExpScope_validate_target s f) as [[]|] eqn:Hv; [|by split_and!].
  apply validate_target_spec in Hv.
  destruct (ExpScope_contains s f) eqn:Hc; [by split_and!|].
  destruct (fill_slot f _) as [l|] eqn:Hl; [|by split_and!].
  split_and!; auto; [by apply fill_slot_length in Hl|..].
  - by rewrite <- targets_contains, Hc.
  - by apply fill_slot_perm.
Qed.

Lemma allow_wf s f : scope_wf s → scope_wf (ExpScope_allow s f).1.
Proof.
  intros Hs. pose proof (allow_spec s f) as H. destruct (ExpScope_allow s f) as [s' [u|e]]; simpl.
  - destruct H as (Eo & _ & _ & _ & El & Ho & Hf & Hp). destruct Hs as [Hd Hin Hl].
    split; [|intros g; rewrite Eo|congruence]; rewrite Hp; [by apply NoDup_cons|].
    rewrite elem_of_cons. intros [->|?]; auto.
  - by destruct H as (_ & _ & _ & _ & _ & ->).
Qed.

Section with_ownership.
Context {C : Type} `{CfcOwnership C}.
Implicit Types (c : C).

Lemma new_spec c d subject s :
  ExpScope_new c d subject = Ok s →
  own_dimension_test c d = true ∧ own_form_test c subject = true ∧
  ExpScope_targets s = [] ∧ scope_owned_forms s = own_form_at c <$> seq 0 MAX_CFC_FORMS ∧
  scope_cfc s = own_fin c ∧ scope_dimension s = d ∧ scope_subject s = subject ∧
  length (scope_targets_table s) = MAX_SCOPE_TARGETS.
Proof.
  unfold ExpScope_new. destruct (own_dimension_test c d); [|done]. simpl.
  destruct (own_form_test c subject); [|done]. simpl. by intros [= <-].
Qed.

(** The snapshot holds exactly the owned Forms. *)
Lemma snapshot_spec c d subject s f :
  own_valid c → ExpScope_new c d subject = Ok s →
  f ∈ flatten (scope_owned_forms s) ↔ own_form_test c f = true.
Proof.
  intros Hc (_ & _ & _ & -> & _)%new_spec. rewrite elem_of_flatten, own_form_enum by done.
  rewrite list_elem_of_fmap. setoid_rewrite elem_of_seq. split.
  - intros (i & ? & ?). exists i. split; [lia|done].
  - intros (i & ? & ?). exists i. split; [done|lia].
Qed.

Lemma new_scope_wf c d subject s : ExpScope_new c d subject = Ok s → scope_wf s.
Proof.
  intros (_ & _ & E & _ & _ & _ & _ & ?)%new_spec.
  split; rewrite ?E; [constructor|by intros f ?%elem_of_nil|done].
Qed.
End with_ownership.

Lemma allow_all_spec l s :
  scope_wf s →
  scope_wf (allow_all s l) ∧ scope_owned_forms (allow_all s l) = scope_owned_forms s ∧
  ∀ f, f ∈ ExpScope_targets (allow_all s l) ↔ f ∈ ExpScope_targets s ∨ f ∈ accepted s l.
Proof.
  revert s. induction l as [|g l IH]; intros s Hs; simpl.
  { split_and!; auto. intros f. rewrite elem_of_nil. naive_solver. }
  pose proof (allow_wf s g Hs) as Hw. pose proof (allow_spec s g) as Hg.
  destruct (ExpScope_allow s g) as [s' r]. simpl in *. destruct (IH s' Hw) as (W & O & M).
  destruct Hg as (Eo & _ & _ & _ & _ & Hr). split_and!; [done|congruence|].
  intros f. rewrite M, elem_of_app. destruct r as [u|e]; simpl.
  - destruct Hr as (_ & _ & Hp). rewrite Hp, elem_of_cons, list_elem_of_singleton. naive_solver.
  - subst s'. rewrite elem_of_nil. naive_solver.
Qed.

(** ** Properties *)

Section property.
Context {C : Type} `{CfcOwnership C}.

(** Deny by default.  After [ExpScope::new] on a CFC and any sequence of
    [allow] calls, [authorize] answers [Ok] exactly for the targets whose
    [allow] was accepted, [Denied] for the other Forms the CFC owned at
    creation, and [UnownedForm] for everything else; the set never exceeds
    eight Forms.  Binding, Dimension membership and later CFCs play no part. *)
Theorem ExpScope_deny_by_default (c : C) (d subject : Fin) (s : ExpScope) (l : list Fin) (f : Fin) :
  own_valid c → ExpScope_new c d subject = Ok s →
  let s' := allow_all s l in
  (ExpScope_authorize s' f = Ok tt ↔ f ∈ accepted s l) ∧
  (ExpScope_authorize s' f = Err ScopeDenied ↔ own_form_test c f = true ∧ f ∉ accepted s l) ∧
  (ExpScope_authorize s' f = Err UnownedForm ↔ own_form_test c f = false) ∧
  (ExpScope_len s' ≤ MAX_SCOPE_TARGETS)%nat.
Proof.
  intros Hc Hs. pose proof (new_scope_wf _ _ _ _ Hs) as Hw.
  destruct (allow_all_spec l s Hw) as (Hw' & Eo & Hm).
  pose proof (snapshot_spec _ _ _ _ f Hc Hs) as Hsnap. rewrite <- Eo in Hsnap.
  apply new_spec in Hs as (_ & _ & E0 & _). rewrite E0 in Hm.
  set (s' := allow_all s l) in *. cbv zeta.
  assert (f ∈ ExpScope_targets s' ↔ f ∈ accepted s l) as Hmf.
  { rewrite (Hm f), elem_of_nil. naive_solver. }
  destruct Hw' as [Hd Hin Hl]. specialize (Hin f).
  rewrite <- Hmf, <- Hsnap. rewrite <- not_true_iff_false, <- Hsnap.
  rewrite <- targets_contains in Hin |- *. rewrite <- validate_target_spec in Hin |- *.
  assert (ExpScope_len s' ≤ MAX_SCOPE_TARGETS)%nat as Hlen.
  { unfold ExpScope_len. rewrite <- Hl. apply length_flatten. }
  unfold ExpScope_authorize. unfold ExpScope_validate_target in *.
  destruct (negb _); simpl in *; destruct (ExpScope_contains s' f); simpl in *; naive_solver.
Qed.
End property.

Lemma ExpScope_deny_by_default_witness :
  let s := MkExpScope (cfc_fin demo_cfc) (Fin_from_u128 11) (Fin_from_u128 100)
             (Cfc_form demo_cfc <$> seq 0 16) (empty_slots Fin 8) in
  let s' := allow_all s [Fin_from_u128 100; Fin_from_u128 7] in
  (ExpScope_authorize s' (Fin_from_u128 100) = Ok tt ↔
     Fin_from_u128 100 ∈ accepted s [Fin_from_u128 100; Fin_from_u128 7]) ∧
  accepted s [Fin_from_u128 100; Fin_from_u128 7] = [Fin_from_u128 100].
Proof.
  split; [|vm_compute; reflexivity].
  refine (proj1 (ExpScope_deny_by_default demo_cfc (Fin_from_u128 11) (Fin_from_u128 100) _
    [Fin_from_u128 100; Fin_from_u128 7] (Fin_from_u128 100) _ _)).
  - split; vm_compute; reflexivity.
  - vm_compute; reflexivity.
Defined.
