(* ===== verification/Budget.v ===== *)
(** * ExpBudget

    Fixed-capacity resource budgets (crates/expos-core/src/budget.rs): eight
    accounts, each with a permanent ceiling, administrative hard and soft
    limits, current use and saturating denial counters. *)

From stdpp Require Import prelude list.
From Stdlib Require Import ZArith Lia.
From S2P Require Import Prelude.

Set Default Goal Selector "!".
Open Scope Z_scope.
Open Scope expos_scope.

(** ** Data *)

Inductive ResourceKind :=
  | CpuTicks | HeapPages | IpcMessages | IpcBytes | OutputBytes | NetworkBytes
  | FormOperations | FormBytes.

#[export] Instance ResourceKind_eq_dec : EqDecision ResourceKind.
Proof. solve_decision. Defined.

Definition RESOURCE_KIND_COUNT : nat := 8.

Definition ResourceKind_ALL : list ResourceKind :=
  [CpuTicks; HeapPages; IpcMessages; IpcBytes; OutputBytes; NetworkBytes;
   FormOperations; FormBytes].

Definition ResourceKind_index (self : ResourceKind) : nat :=
  match self with
  | CpuTicks => 0 | HeapPages => 1 | IpcMessages => 2 | IpcBytes => 3
  | OutputBytes => 4 | NetworkBytes => 5 | FormOperations => 6 | FormBytes => 7
  end.

Record ResourceAccount := MkAccount {
  acc_ceiling : Z; acc_soft : Z; acc_hard : Z; acc_used : Z;
  acc_denied_charges : Z; acc_overflow_charges : Z }.

#[export] Instance ResourceAccount_eq_dec : EqDecision ResourceAccount.
Proof. solve_decision. Defined.

Definition ResourceAccount_ZERO : ResourceAccount := MkAccount 0 0 0 0 0 0.
Definition ResourceAccount_with_ceiling (ceiling : Z) : ResourceAccount :=
  MkAccount ceiling ceiling ceiling 0 0 0.

(** [self.soft - self.used] on [u64]; [None] is the arithmetic overflow. *)
Definition remaining_before_soft (self : ResourceAccount) : option Z :=
  checked_sub (acc_soft self) (acc_used self).

Definition ResourceAccount_eta (a : ResourceAccount) : ResourceAccount :=
  MkAccount (acc_ceiling a) (acc_soft a) (acc_hard a) (acc_used a)
    (acc_denied_charges a) (acc_overflow_charges a).
#[export] Instance set_acc_soft : Setter acc_soft := ltac:(build_setter ResourceAccount_eta).
#[export] Instance set_acc_hard : Setter acc_hard := ltac:(build_setter ResourceAccount_eta).
#[export] Instance set_acc_used : Setter acc_used := ltac:(build_setter ResourceAccount_eta).
#[export] Instance set_acc_denied : Setter acc_denied_charges :=
  ltac:(build_setter ResourceAccount_eta).
#[export] Instance set_acc_overflow : Setter acc_overflow_charges :=
  ltac:(build_setter ResourceAccount_eta).

Inductive BudgetError :=
  | InvalidLimits (kind : ResourceKind) (used soft hard ceiling : Z)
  | SoftLimitExceeded (kind : ResourceKind) (used requested soft : Z)
  | ChargeOverflow (kind : ResourceKind) (used requested : Z)
  | ReleaseUnderflow (kind : ResourceKind) (used requested : Z).

#[export] Instance BudgetError_eq_dec : EqDecision BudgetError.
Proof. solve_decision. Defined.

(** [context] is stored verbatim and never consulted. *)
Record ExpBudget (C : Type) := MkBudget {
  budget_context : C;
  budget_accounts : list ResourceAccount }.
Arguments MkBudget {C} _ _.
Arguments budget_context {C} _.
Arguments budget_accounts {C} _.

#[export] Instance ExpBudget_eq_dec `{EqDecision C} : EqDecision (ExpBudget C).
Proof. solve_decision. Defined.

Section operations.
Context {C : Type}.
Implicit Types (self : ExpBudget C) (kind : ResourceKind).

(** ** Operations *)

(** The loop fills [accounts[index]] from [ceilings[index]]. *)
Definition ExpBudget_new (context : C) (ceilings : list Z) : ExpBudget C :=
  MkBudget context (ResourceAccount_with_ceiling <$> ceilings).

Definition ExpBudget_uniform (context : C) (ceiling : Z) : ExpBudget C :=
  ExpBudget_new context (replicate RESOURCE_KIND_COUNT ceiling).

Definition ExpBudget_account self kind : ResourceAccount :=
  default ResourceAccount_ZERO (budget_accounts self !! ResourceKind_index kind).

(** [&mut self.accounts[kind.index()]] assigned to [account]. *)
Definition put_account self kind (account : ResourceAccount) : ExpBudget C :=
  MkBudget (budget_context self)
    (<[ResourceKind_index kind := account]> (budget_accounts self)).

Definition ExpBudget_configure self kind (soft hard : Z)
    : ExpBudget C * result unit BudgetError :=
  let account := ExpBudget_account self kind in
  if (acc_used account >? soft) || (soft >? hard) || (hard >? acc_ceiling account)
  then (self, Err (InvalidLimits kind (acc_used account) soft hard (acc_ceiling account)))
  else (put_account self kind (account <| acc_soft := soft |> <| acc_hard := hard |>), Ok tt).

Definition ExpBudget_charge self kind (amount : Z) : ExpBudget C * result Z BudgetError :=
  let account := ExpBudget_account self kind in
  match checked_add u64_max (acc_used account) amount with
  | None =>
      (put_account self kind
         (account
            <| acc_denied_charges := saturating_add u64_max (acc_denied_charges account) 1 |>
            <| acc_overflow_charges := saturating_add u64_max (acc_overflow_charges account) 1 |>),
       Err (ChargeOverflow kind (acc_used account) amount))
  | Some charged =>
      if charged >? acc_soft account then
        (put_account self kind
           (account
              <| acc_denied_charges := saturating_add u64_max (acc_denied_charges account) 1 |>),
         Err (SoftLimitExceeded kind (acc_used account) amount (acc_soft account)))
      else (put_account self kind (account <| acc_used := charged |>), Ok charged)
  end.

Definition ExpBudget_release self kind (amount : Z) : ExpBudget C * result unit BudgetError :=
  let account := ExpBudget_account self kind in
  match checked_sub (acc_used account) amount with
  | None => (self, Err (ReleaseUnderflow kind (acc_used account) amount))
  | Some remaining => (put_account self kind (account <| acc_used := remaining |>), Ok tt)
  end.

(** ** Specification *)

Definition u64 (z : Z) : Prop := 0 ≤ z ≤ u64_max.

Record account_wf (a : ResourceAccount) : Prop := {
  aw_used : 0 ≤ acc_used a;
  aw_soft : acc_used a ≤ acc_soft a;
  aw_hard : acc_soft a ≤ acc_hard a;
  aw_ceiling : acc_hard a ≤ acc_ceiling a;
  aw_width : acc_ceiling a ≤ u64_max;
  aw_denied : u64 (acc_denied_charges a);
  aw_overflow : 0 ≤ acc_overflow_charges a ≤ acc_denied_charges a }.

Record budget_wf self : Prop := {
  bw_length : length (budget_accounts self) = RESOURCE_KIND_COUNT;
  bw_accounts : ∀ kind, account_wf (ExpBudget_account self kind) }.

(** A call of the public interface. *)
Inductive budget_op :=
  | OpCharge (kind : ResourceKind) (amount : Z)
  | OpRelease (kind : ResourceKind) (amount : Z)
  | OpConfigure (kind : ResourceKind) (soft hard : Z).

Definition op_u64 (op : budget_op) : Prop :=
  match op with
  | OpCharge _ amount | OpRelease _ amount => u64 amount
  | OpConfigure _ soft hard => u64 soft ∧ u64 hard
  end.

(** The budget after a call, and what an independent ledger books for [kind]:
    accepted charges count up, accepted releases count down. *)
Definition budget_step self (op : budget_op) : ExpBudget C :=
  match op with
  | OpCharge k amount => (ExpBudget_charge self k amount).1
  | OpRelease k amount => (ExpBudget_release self k amount).1
  | OpConfigure k soft hard => (ExpBudget_configure self k soft hard).1
  end.

Definition booked self (op : budget_op) (kind : ResourceKind) : Z :=
  match op with
  | OpCharge k amount =>
      if (k ==? kind) && is_ok (ExpBudget_charge self k amount).2 then amount else 0
  | OpRelease k amount =>
      if (k ==? kind) && is_ok (ExpBudget_release self k amount).2 then - amount else 0
  | OpConfigure _ _ _ => 0
  end.

Fixpoint ledger self (ops : list budget_op) (kind : ResourceKind) : Z :=
  match ops with
  | [] => 0
  | op :: ops' => booked self op kind + ledger (budget_step self op) ops' kind
  end.

Definition budget_run self (ops : list budget_op) : ExpBudget C := fold_left budget_step ops self.

(** ** Lemmas *)

Lemma index_lt kind : (ResourceKind_index kind < RESOURCE_KIND_COUNT)%nat.
Proof. destruct kind; unfold RESOURCE_KIND_COUNT; simpl; lia. Qed.

Lemma index_inj k1 k2 : ResourceKind_index k1 = ResourceKind_index k2 → k1 = k2.
Proof. by destruct k1, k2. Qed.

Lemma account_put self k1 k2 a :
  length (budget_accounts self) = RESOURCE_KIND_COUNT →
  ExpBudget_account (put_account self k1 a) k2 =
  if k1 ==? k2 then a else ExpBudget_account self k2.
Proof.
  intros Hl. unfold ExpBudget_account, put_account. simpl. case_bool_decide as E.
  - subst. rewrite list_lookup_insert_eq; [done|]. rewrite Hl. apply index_lt.
  - rewrite list_lookup_insert_ne; [done|]. contradict E. by apply index_inj.
Qed.

Lemma put_account_length self k a :
  length (budget_accounts (put_account self k a)) = length (budget_accounts self).
Proof. apply length_insert. Qed.

Lemma put_account_wf self k a : budget_wf self → account_wf a → budget_wf (put_account self k a).
Proof.
  intros [Hl Hw] Ha. split; [by rewrite put_account_length|].
  intros k'. rewrite account_put by done. by case_bool_decide.
Qed.

Lemma new_budget_wf context ceilings :
  length ceilings = RESOURCE_KIND_COUNT → Forall u64 ceilings →
  budget_wf (ExpBudget_new context ceilings).
Proof.
  intros Hl Hc. split; [by simpl; rewrite length_fmap|].
  intros k. unfold ExpBudget_account, ExpBudget_new. simpl. rewrite list_lookup_fmap.
  destruct (lookup_lt_is_Some_2 ceilings (ResourceKind_index k)) as [c Hk].
  { rewrite Hl. apply index_lt. }
  rewrite Hk. simpl. pose proof (Forall_lookup_1 _ _ _ _ Hc Hk) as [? ?].
  split; simpl; unfold u64, u64_max in *; lia.
Qed.

Lemma account_put_frame self kind b :
  budget_wf self →
  (∀ k, k ≠ kind → ExpBudget_account (put_account self kind b) k = ExpBudget_account self k) ∧
  ExpBudget_account (put_account self kind b) kind = b.
Proof.
  intros [Hl _]. split; [intros k Hk|]; rewrite account_put by done; by case_bool_decide.
Qed.

(** Close the branch of an operation that writes one account. *)
Ltac account_branch Hw :=
  split_and!;
  [ first [done | apply put_account_wf; [done|]; split; simpl; unfold u64; lia]
  | first [done | intros k Hk; by apply account_put_frame]
  | rewrite ?(proj2 (account_put_frame _ _ _ Hw)); simpl; first [done|lia] .. ].

(** What [charge] does, branch by branch. *)
Lemma charge_spec self kind amount :
  budget_wf self → u64 amount →
  let a := ExpBudget_account self kind in
  let (self', r) := ExpBudget_charge self kind amount in
  budget_wf self' ∧
  (∀ k, k ≠ kind → ExpBudget_account self' k = ExpBudget_account self k) ∧
  acc_ceiling (ExpBudget_account self' kind) = acc_ceiling a ∧
  match r with
  | Ok charged =>
      charged = acc_used a + amount ∧ charged ≤ acc_soft a ∧
      acc_used (ExpBudget_account self' kind) = charged
  | Err _ =>
      acc_soft a < acc_used a + amount ∧
      acc_used (ExpBudget_account self' kind) = acc_used a
  end.
Proof.
  intros Hw Ha a. destruct (bw_accounts _ Hw kind) as [W1 W2 W3 W4 W5 W6 W7].
  unfold u64, ExpBudget_charge, checked_add, saturating_add in *. fold a in W1, W2, W3, W4, W5, W6, W7 |- *.
  destruct (Z.leb_spec (acc_used a + amount) u64_max); [|account_branch Hw].
  destruct (_ >? _) eqn:E; bools; account_branch Hw.
Qed.

(** Neither charging nor releasing moves a limit. *)
Definition limits (a : ResourceAccount) : Z * Z * Z := (acc_soft a, acc_hard a, acc_ceiling a).

Lemma charge_limits self kind amount k :
  budget_wf self →
  limits (ExpBudget_account (ExpBudget_charge self kind amount).1 k) =
  limits (ExpBudget_account self k).
Proof.
  intros [Hl _]. unfold ExpBudget_charge.
  destruct (checked_add _ _ _); [destruct (_ >? _)|]; simpl; rewrite account_put by done;
    by case_bool_decide; subst.
Qed.

Lemma release_limits self kind amount k :
  budget_wf self →
  limits (ExpBudget_account (ExpBudget_release self kind amount).1 k) =
  limits (ExpBudget_account self k).
Proof.
  intros [Hl _]. unfold ExpBudget_release.
  destruct (checked_sub _ _); simpl; [|done]. rewrite account_put by done.
  by case_bool_decide; subst.
Qed.

Lemma release_spec self kind amount :
  budget_wf self → u64 amount →
  let a := ExpBudget_account self kind in
  let (self', r) := ExpBudget_release self kind amount in
  budget_wf self' ∧
  (∀ k, k ≠ kind → ExpBudget_account self' k = ExpBudget_account self k) ∧
  acc_ceiling (ExpBudget_account self' kind) = acc_ceiling a ∧
  match r with
  | Ok _ => amount ≤ acc_used a ∧
            acc_used (ExpBudget_account self' kind) = acc_used a - amount
  | Err e => e = ReleaseUnderflow kind (acc_used a) amount ∧ acc_used a < amount ∧ self' = self
  end.
Proof.
  intros Hw Ha a. destruct (bw_accounts _ Hw kind) as [W1 W2 W3 W4 W5 W6 W7].
  unfold u64, ExpBudget_release, checked_sub in *. fold a in W1, W2, W3, W4, W5, W6, W7 |- *.
  destruct (Z.leb_spec amount (acc_used a)); account_branch Hw.
Qed.

Lemma configure_spec self kind soft hard :
  budget_wf self → u64 soft → u64 hard →
  let a := ExpBudget_account self kind in
  let (self', r) := ExpBudget_configure self kind soft hard in
  budget_wf self' ∧
  (∀ k, k ≠ kind → ExpBudget_account self' k = ExpBudget_account self k) ∧
  acc_ceiling (ExpBudget_account self' kind) = acc_ceiling a ∧
  match r with
  | Ok _ => acc_used a ≤ soft ≤ hard ∧ hard ≤ acc_ceiling a ∧
            ExpBudget_account self' kind = a <| acc_soft := soft |> <| acc_hard := hard |>
  | Err _ => ¬ (acc_used a ≤ soft ≤ hard ∧ hard ≤ acc_ceiling a) ∧ self' = self
  end.
Proof.
  intros Hw Hs Hh a. destruct (bw_accounts _ Hw kind) as [W1 W2 W3 W4 W5 W6 W7].
  unfold u64, ExpBudget_configure in *. fold a in W1, W2, W3, W4, W5, W6, W7 |- *.
  destruct (_ || _) eqn:E; bools; [|account_branch Hw].
  rewrite !orb_true_iff, !Z.gtb_lt in E. split_and!; try done. lia.
Qed.

(** One call: the invariant, the ledger and the ceilings. *)
Lemma budget_step_spec self op :
  budget_wf self → op_u64 op →
  budget_wf (budget_step self op) ∧
  ∀ kind,
    acc_used (ExpBudget_account (budget_step self op) kind) =
      acc_used (ExpBudget_account self kind) + booked self op kind ∧
    acc_ceiling (ExpBudget_account (budget_step self op) kind) =
      acc_ceiling (ExpBudget_account self kind).
Proof.
  intros Hw Hop. destruct op as [k n|k n|k s h]; simpl in *.
  - pose proof (charge_spec self k n Hw Hop) as H.
    destruct (ExpBudget_charge self k n) as [self' r]. destruct H as (? & Hne & Hc & Hr).
    simpl. split; [done|]. intros kind. case_bool_decide; simpl.
    + subst kind. rewrite Hc. destruct r; simpl; lia.
    + rewrite Hne by done. lia.
  - pose proof (release_spec self k n Hw Hop) as H.
    destruct (ExpBudget_release self k n) as [self' r]. destruct H as (? & Hne & Hc & Hr).
    simpl. split; [done|]. intros kind. case_bool_decide; simpl.
    + subst kind. rewrite Hc. destruct r; simpl; [lia|]. destruct Hr as (_ & _ & ->). lia.
    + rewrite Hne by done. lia.
  - destruct Hop as [Hs Hh]. pose proof (configure_spec self k s h Hw Hs Hh) as H.
    destruct (ExpBudget_configure self k s h) as [self' r]. destruct H as (? & Hne & Hc & Hr).
    simpl. split; [done|]. intros kind. rewrite Z.add_0_r.
    destruct (decide (kind = k)) as [->|Hk]; [|by rewrite Hne].
    rewrite Hc. split; [|done]. destruct r; [|by destruct Hr as (_ & ->)].
    destruct Hr as (_ & _ & ->). done.
Qed.

(** When a charge or a release is granted. *)
Lemma charge_ok self kind amount :
  budget_wf self → u64 amount →
  is_ok (ExpBudget_charge self kind amount).2 =
  (acc_used (ExpBudget_account self kind) + amount <=? acc_soft (ExpBudget_account self kind)).
Proof.
  intros Hw Ha. pose proof (charge_spec self kind amount Hw Ha) as H.
  destruct (ExpBudget_charge self kind amount) as [self' [n|e]]; destruct H as (_ & _ & _ & H);
    simpl; symmetry; [apply Z.leb_le|apply Z.leb_gt]; lia.
Qed.

Lemma release_ok self kind amount :
  budget_wf self → u64 amount →
  is_ok (ExpBudget_release self kind amount).2 =
  (amount <=? acc_used (ExpBudget_account self kind)).
Proof.
  intros Hw Ha. unfold ExpBudget_release, checked_sub. by destruct (_ <=? _).
Qed.

Lemma budget_run_spec ops self :
  budget_wf self → Forall op_u64 ops →
  budget_wf (budget_run self ops) ∧
  ∀ kind,
    acc_used (ExpBudget_account (budget_run self ops) kind) =
      acc_used (ExpBudget_account self kind) + ledger self ops kind ∧
    acc_ceiling (ExpBudget_account (budget_run self ops) kind) =
      acc_ceiling (ExpBudget_account self kind).
Proof.
  intros Hw Hops. revert self Hw. induction Hops as [|op ops Hop _ IH]; intros self Hw; simpl.
  { split; [done|]. intros kind. lia. }
  destruct (budget_step_spec self op Hw Hop) as [Hw' Hs].
  destruct (IH _ Hw') as [Hw'' Hr]. split; [done|]. intros kind.
  destruct (Hs kind), (Hr kind). lia.
Qed.

(** ** Properties *)

(** Exact accounting.  From a fresh budget and through any sequence of
    [charge], [release] and [configure] calls on 64-bit amounts, accepted or
    refused: the use of a resource is exactly the accepted charges minus the
    accepted releases; it never exceeds the soft limit, which stays within
    the hard limit and the permanent ceiling; so [remaining_before_soft]
    never underflows. *)
Theorem ExpBudget_exact_accounting (context : C) (ceilings : list Z) (ops : list budget_op)
    (kind : ResourceKind) :
  length ceilings = RESOURCE_KIND_COUNT → Forall u64 ceilings → Forall op_u64 ops →
  let b := ExpBudget_new context ceilings in
  let a := ExpBudget_account (budget_run b ops) kind in
  acc_used a = ledger b ops kind ∧
  0 ≤ acc_used a ≤ acc_soft a ∧ acc_soft a ≤ acc_hard a ≤ acc_ceiling a ∧
  Some (acc_ceiling a) = ceilings !! ResourceKind_index kind ∧
  remaining_before_soft a = Some (acc_soft a - acc_used a).
Proof.
  intros Hl Hc Hops b a. pose proof (new_budget_wf context ceilings Hl Hc) as Hw.
  destruct (budget_run_spec ops b Hw Hops) as [Hw' Hr]. destruct (Hr kind) as [Hu Hce].
  destruct (bw_accounts _ Hw' kind) as [W1 W2 W3 W4 _ _ _]. fold a in Hu, Hce, W1, W2, W3, W4.
  destruct (lookup_lt_is_Some_2 ceilings (ResourceKind_index kind)) as [c Hk].
  { rewrite Hl. apply index_lt. }
  assert (ExpBudget_account b kind = ResourceAccount_with_ceiling c) as Eb.
  { unfold b, ExpBudget_account, ExpBudget_new. simpl. by rewrite list_lookup_fmap, Hk. }
  rewrite Eb in Hu, Hce. simpl in Hu, Hce. split_and!; try lia; [congruence|].
  unfold remaining_before_soft, checked_sub. by rewrite (proj2 (Z.leb_le _ _)).
Qed.

(** A charge is all or nothing: it is granted exactly when use plus the
    amount stays within the soft limit; a refused charge leaves every limit
    and every use unchanged, and no charge touches another resource. *)
Theorem ExpBudget_charge_atomic (self : ExpBudget C) (kind k : ResourceKind) (amount : Z) :
  budget_wf self → u64 amount →
  let a := ExpBudget_account self kind in
  let (self', r) := ExpBudget_charge self kind amount in
  (is_ok r = true ↔ acc_used a + amount ≤ acc_soft a) ∧
  (∀ charged, r = Ok charged → charged = acc_used a + amount) ∧
  acc_used (ExpBudget_account self' kind) =
    (if is_ok r then acc_used a + amount else acc_used a) ∧
  (k ≠ kind → ExpBudget_account self' k = ExpBudget_account self k) ∧
  acc_soft (ExpBudget_account self' kind) = acc_soft a ∧
  acc_hard (ExpBudget_account self' kind) = acc_hard a ∧
  acc_ceiling (ExpBudget_account self' kind) = acc_ceiling a.
Proof.
  intros Hw Ha a. pose proof (charge_spec self kind amount Hw Ha) as H. fold a in H.
  pose proof (charge_limits self kind amount kind Hw) as Hlim. unfold limits in Hlim.
  fold a in Hlim.
  destruct (ExpBudget_charge self kind amount) as [self' [n|e]]; simpl in *;
    destruct H as (_ & Hne & Hc & Hr); split_and!; auto; try lia; try naive_solver lia; congruence.
Qed.
End operations.

(** Three accepted calls and two refused ones on the heap pages of a budget. *)
Definition demo_budget : ExpBudget nat := ExpBudget_uniform 7%nat 100.
Definition demo_budget_ops : list budget_op :=
  [OpCharge HeapPages 60; OpCharge HeapPages 41; OpConfigure HeapPages 70 90;
   OpRelease HeapPages 61; OpCharge HeapPages 10].

Lemma ExpBudget_exact_accounting_witness :
  acc_used (ExpBudget_account (budget_run demo_budget demo_budget_ops) HeapPages) = 70 ∧
  remaining_before_soft (ExpBudget_account (budget_run demo_budget demo_budget_ops) HeapPages)
    = Some 0.
Proof.
  assert (length (replicate 8 100) = RESOURCE_KIND_COUNT) as Hl by reflexivity.
  assert (Forall u64 (replicate 8 100)) as Hc.
  { repeat (apply Forall_cons_2; [by split; vm_compute|]). apply Forall_nil_2. }
  assert (Forall op_u64 demo_budget_ops) as Ho.
  { repeat (apply Forall_cons_2; [repeat split; by vm_compute|]). apply Forall_nil_2. }
  destruct (ExpBudget_exact_accounting 7%nat (replicate 8 100) demo_budget_ops HeapPages Hl Hc Ho)
    as (H1 & _ & _ & _ & H2).
  split; [exact H1|exact H2].
Defined.

Lemma ExpBudget_charge_atomic_witness :
  is_ok (ExpBudget_charge demo_budget CpuTicks 101).2 = false ∧
  acc_used (ExpBudget_account (ExpBudget_charge demo_budget CpuTicks 101).1 CpuTicks) = 0.
Proof.
  assert (budget_wf demo_budget) as Hw.
  { apply new_budget_wf; [reflexivity|].
    repeat (apply Forall_cons_2; [by split; vm_compute|]). apply Forall_nil_2. }
  assert (u64 101) as Hu by (by split; vm_compute).
  pose proof (ExpBudget_charge_atomic demo_budget CpuTicks HeapPages 101 Hw Hu) as H.
  split; [vm_compute; reflexivity|]. exact (proj1 (proj2 (proj2 H))).
Defined.
