(* ===== verification/Capability.v ===== *)
(** * The capability broker

    Form Handles, delegation, revocation and ExpSeal
    (crates/expos-core/src/capability.rs).  A broker owns a table of 32
    Handles and a table of 16 seals; Handles are only ever added, and only
    their [revoked] flag changes afterwards. *)

From stdpp Require Import prelude list.
From Stdlib Require Import ZArith Lia.
From S2P Require Import Prelude Identity.

Set Default Goal Selector "!".
Open Scope Z_scope.
Open Scope expos_scope.

(** ** Data *)

Definition MAX_HANDLES : nat := 32.
Definition MAX_SEALS : nat := 16.

Inductive Authority := Operator | Power | Guest.

(** A set of operations: the [u16] bit mask. *)
Record Operations := MkOps { ops_bits : Z }.

#[export] Instance Operations_eq_dec : EqDecision Operations.
Proof. solve_decision. Defined.

Definition Ops_NONE : Operations := MkOps 0.
Definition Ops_READ : Operations := MkOps (Z.shiftl 1 0).
Definition Ops_EXECUTE : Operations := MkOps (Z.shiftl 1 1).
Definition Ops_CONFIGURE : Operations := MkOps (Z.shiftl 1 2).
Definition Ops_RELATE : Operations := MkOps (Z.shiftl 1 3).
Definition Ops_RETIRE : Operations := MkOps (Z.shiftl 1 4).
Definition Ops_PACKAGE : Operations := MkOps (Z.shiftl 1 5).
Definition Ops_DISPLAY : Operations := MkOps (Z.shiftl 1 6).
Definition Ops_INPUT : Operations := MkOps (Z.shiftl 1 7).
Definition Ops_NETWORK : Operations := MkOps (Z.shiftl 1 8).

Definition Operations_union (self other : Operations) : Operations :=
  MkOps (Z.lor (ops_bits self) (ops_bits other)).
Definition Operations_contains (self other : Operations) : bool :=
  Z.land (ops_bits self) (ops_bits other) ==? ops_bits other.
(** [bits & !0x01FF == 0], the complement taken on 16 bits. *)
Definition Operations_from_bits (bits : Z) : option Operations :=
  if Z.land bits (Z.lxor u16_max 0x01FF) ==? 0 then Some (MkOps bits) else None.

Record FormHandle := MkHandle {
  fh_id : Z; fh_parent_id : Z;
  fh_cfc : CfcFin; fh_requester : Fin; fh_target : Fin; fh_dimension : Fin;
  fh_operations : Operations; fh_valid_until_tick : Z; fh_revoked : bool }.

#[export] Instance FormHandle_eq_dec : EqDecision FormHandle.
Proof. solve_decision. Defined.

Definition FormHandle_eta (h : FormHandle) : FormHandle :=
  MkHandle (fh_id h) (fh_parent_id h) (fh_cfc h) (fh_requester h) (fh_target h)
    (fh_dimension h) (fh_operations h) (fh_valid_until_tick h) (fh_revoked h).
#[export] Instance set_fh_revoked : Setter fh_revoked := ltac:(build_setter FormHandle_eta).

Inductive CapabilityError :=
  | CapDenied | CapFull | CapNotFound | CapRevoked | CapExpired | CapWrongDimension
  | CapWrongCfc | CapOperationDenied | CapAmplification | CapSealed | CapAlreadySealed
  | CapSealTableFull | CapDuplicate.

#[export] Instance CapabilityError_eq_dec : EqDecision CapabilityError.
Proof. solve_decision. Defined.

Record ExpSeal := MkSeal {
  seal_cfc : CfcFin; seal_requester : Fin; seal_dimension : Fin; seal_root_limit : Z }.

Record CapabilityBroker := MkBroker {
  cap_cfc : CfcFin;
  cap_handles : slots FormHandle;
  cap_seals : slots ExpSeal;
  cap_next_id : Z }.

Definition Broker_eta (b : CapabilityBroker) : CapabilityBroker :=
  MkBroker (cap_cfc b) (cap_handles b) (cap_seals b) (cap_next_id b).
#[export] Instance set_cap_handles : Setter cap_handles := ltac:(build_setter Broker_eta).
#[export] Instance set_cap_seals : Setter cap_seals := ltac:(build_setter Broker_eta).
#[export] Instance set_cap_next_id : Setter cap_next_id := ltac:(build_setter Broker_eta).

(** ** Operations *)

(** [None] is the failed assertion. *)
Definition CapabilityBroker_new (cfc : CfcFin) : option CapabilityBroker :=
  if CfcFin_is_zero cfc then None
  else Some (MkBroker cfc (empty_slots FormHandle MAX_HANDLES) (empty_slots ExpSeal MAX_SEALS) 1).

(** [self.handles.iter().flatten().find(|handle| handle.id == id)] *)
Definition handle_by_id (self : CapabilityBroker) (id : Z) : option FormHandle :=
  List.find (λ handle, fh_id handle ==? id) (flatten (cap_handles self)).

Definition CapabilityBroker_authorize (self : CapabilityBroker) (id : Z) (target dimension : Fin)
    (operation : Operations) (tick : Z) : result unit CapabilityError :=
  match handle_by_id self id with
  | None => Err CapNotFound
  | Some handle =>
      if fh_revoked handle then Err CapRevoked
      else if tick >? fh_valid_until_tick handle then Err CapExpired
      else if (fh_target handle !=? target) || (fh_dimension handle !=? dimension)
      then Err CapWrongDimension
      else if negb (Operations_contains (fh_operations handle) operation)
      then Err CapOperationDenied
      else Ok tt
  end.

Definition CapabilityBroker_authorize_in (self : CapabilityBroker) (cfc : CfcFin) (id : Z)
    (target dimension : Fin) (operation : Operations) (tick : Z) : result unit CapabilityError :=
  if cfc !=? cap_cfc self then Err CapWrongCfc
  else match handle_by_id self id with
  | None => Err CapNotFound
  | Some handle =>
      if fh_cfc handle !=? cfc then Err CapWrongCfc
      else CapabilityBroker_authorize self id target dimension operation tick
  end.

Definition CapabilityBroker_authorize_requester (self : CapabilityBroker) (id : Z)
    (requester target dimension : Fin) (operation : Operations) (tick : Z)
    : result unit CapabilityError :=
  let? _ := CapabilityBroker_authorize self id target dimension operation tick in
  match handle_by_id self id with
  | None => Err CapNotFound
  | Some handle => if fh_requester handle !=? requester then Err CapDenied else Ok tt
  end.

Definition CapabilityBroker_find_authorized (self : CapabilityBroker)
    (requester target dimension : Fin) (operations : Operations) (tick : Z) : option FormHandle :=
  List.find
    (λ handle, (fh_requester handle ==? requester) &&
       is_ok (CapabilityBroker_authorize_requester self (fh_id handle) requester target dimension
                operations tick))
    (flatten (cap_handles self)).

(** The attenuation rule [restore] re-proves for a persisted child. *)
Definition restore_amplifies (parent handle : FormHandle) : bool :=
  (fh_cfc parent !=? fh_cfc handle) || (fh_target parent !=? fh_target handle) ||
  (fh_dimension parent !=? fh_dimension handle) || fh_revoked parent ||
  negb (Operations_contains (fh_operations parent) (fh_operations handle)) ||
  (fh_valid_until_tick handle >? fh_valid_until_tick parent) ||
  ((fh_operations handle ==? fh_operations parent) &&
   (fh_valid_until_tick handle ==? fh_valid_until_tick parent)).

Definition CapabilityBroker_restore (self : CapabilityBroker) (handle : FormHandle)
    : CapabilityBroker * result unit CapabilityError :=
  let publish :=
    match fill_slot handle (cap_handles self) with
    | None => (self, Err CapFull)
    | Some l =>
        (self <| cap_handles := l |>
              <| cap_next_id := if fh_id handle =? u32_max then Z.max (cap_next_id self) 1
                                else Z.max (cap_next_id self) (fh_id handle + 1) |>, Ok tt)
    end in
  if fh_cfc handle !=? cap_cfc self then (self, Err CapWrongCfc)
  else if (fh_id handle =? 0) || Fin_is_zero (fh_requester handle) ||
          Fin_is_zero (fh_target handle) || Fin_is_zero (fh_dimension handle) ||
          (fh_operations handle ==? Ops_NONE)
  then (self, Err CapDenied)
  else if existsb (λ entry, fh_id entry ==? fh_id handle) (flatten (cap_handles self))
  then (self, Err CapDuplicate)
  else if negb (fh_parent_id handle =? 0) then
    match handle_by_id self (fh_parent_id handle) with
    | None => (self, Err CapNotFound)
    | Some parent =>
        if restore_amplifies parent handle then (self, Err CapAmplification) else publish
    end
  else publish.

Definition CapabilityBroker_seal (self : CapabilityBroker) (requester dimension : Fin)
    : option ExpSeal :=
  List.find (λ seal, (seal_requester seal ==? requester) && (seal_dimension seal ==? dimension))
    (flatten (cap_seals self)).

Definition CapabilityBroker_is_sealed (self : CapabilityBroker) (requester dimension : Fin) : bool :=
  match CapabilityBroker_seal self requester dimension with Some _ => true | None => false end.

(** The loop of [allocate_id]: the new [next_id] and the identifier found. *)
Fixpoint allocate_loop (fuel : nat) (handles : list FormHandle) (next_id : Z)
    : Z * result Z CapabilityError :=
  match fuel with
  | O => (next_id, Err CapFull)
  | S fuel' =>
      let candidate := Z.max next_id 1 in
      let next_id := Z.max (wrapping_add u32_max candidate 1) 1 in
      if negb (existsb (λ handle, fh_id handle ==? candidate) handles)
      then (next_id, Ok candidate)
      else allocate_loop fuel' handles next_id
  end.

(** [for _ in 0..=MAX_HANDLES] runs 33 times. *)
Definition CapabilityBroker_allocate_id (self : CapabilityBroker)
    : CapabilityBroker * result Z CapabilityError :=
  let (next_id, r) := allocate_loop (S MAX_HANDLES) (flatten (cap_handles self)) (cap_next_id self) in
  (self <| cap_next_id := next_id |>, r).

Definition authority_permits (authority : Authority) (operations : Operations) : bool :=
  match authority with
  | Operator => true
  | Power => negb (Operations_contains operations Ops_RETIRE) &&
             negb (Operations_contains operations Ops_CONFIGURE)
  | Guest => (ops_bits operations !=? 0) && Operations_contains Ops_READ operations
  end.

(** [self.handles[slot_index] = Some(handle)] after [allocate_id]. *)
Definition CapabilityBroker_issue_for (self : CapabilityBroker) (requester : Fin)
    (authority : Authority) (target dimension : Fin) (operations : Operations)
    (valid_until_tick : Z) : CapabilityBroker * result FormHandle CapabilityError :=
  if CapabilityBroker_is_sealed self requester dimension then (self, Err CapSealed)
  else if negb (authority_permits authority operations) || Fin_is_zero requester ||
          (operations ==? Ops_NONE) || Fin_is_zero target || Fin_is_zero dimension
  then (self, Err CapDenied)
  else match position slot_is_none (cap_handles self) with
  | None => (self, Err CapFull)
  | Some slot_index =>
      match CapabilityBroker_allocate_id self with
      | (self, Err e) => (self, Err e)
      | (self, Ok id) =>
          let handle := MkHandle id 0 (cap_cfc self) requester target dimension operations
                          valid_until_tick false in
          (self <| cap_handles := <[slot_index := Some handle]> (cap_handles self) |>, Ok handle)
      end
  end.

Definition CapabilityBroker_seal_context (self : CapabilityBroker) (requester dimension : Fin)
    : CapabilityBroker * result ExpSeal CapabilityError :=
  if Fin_is_zero requester || Fin_is_zero dimension then (self, Err CapDenied)
  else if CapabilityBroker_is_sealed self requester dimension then (self, Err CapAlreadySealed)
  else
    let seal := MkSeal (cap_cfc self) requester dimension (saturating_sub (cap_next_id self) 1) in
    match fill_slot seal (cap_seals self) with
    | None => (self, Err CapSealTableFull)
    | Some l => (self <| cap_seals := l |>, Ok seal)
    end.

Definition CapabilityBroker_delegate (self : CapabilityBroker) (parent_id : Z) (requester : Fin)
    (operations : Operations) (valid_until_tick tick : Z)
    : CapabilityBroker * result FormHandle CapabilityError :=
  match handle_by_id self parent_id with
  | None => (self, Err CapNotFound)
  | Some parent =>
  if CapabilityBroker_is_sealed self requester (fh_dimension parent) &&
     (requester !=? fh_requester parent)
  then (self, Err CapSealed)
  else match CapabilityBroker_authorize self (fh_id parent) (fh_target parent)
               (fh_dimension parent) operations tick with
  | Err e => (self, Err e)
  | Ok _ =>
  if Fin_is_zero requester || (operations ==? Ops_NONE) ||
     negb (Operations_contains (fh_operations parent) operations) ||
     (valid_until_tick >? fh_valid_until_tick parent) ||
     ((operations ==? fh_operations parent) &&
      (valid_until_tick ==? fh_valid_until_tick parent))
  then (self, Err CapAmplification)
  else match position slot_is_none (cap_handles self) with
  | None => (self, Err CapFull)
  | Some slot_index =>
      match CapabilityBroker_allocate_id self with
      | (self, Err e) => (self, Err e)
      | (self, Ok id) =>
          let handle := MkHandle id (fh_id parent) (cap_cfc self) requester (fh_target parent)
                          (fh_dimension parent) operations valid_until_tick false in
          (self <| cap_handles := <[slot_index := Some handle]> (cap_handles self) |>, Ok handle)
      end
  end end end.

(** One pass of [revoke] over the snapshot: the table it leaves and the flag
    [changed].  Each entry is written in its own iteration only, so the
    entry under the cursor still has its snapshot value. *)
Definition parent_revoked (snapshot : slots FormHandle) (handle : FormHandle) : bool :=
  negb (fh_parent_id handle =? 0) &&
  existsb (λ parent, (fh_id parent ==? fh_parent_id handle) && fh_revoked parent)
    (flatten snapshot).

Fixpoint revoke_pass (id : Z) (snapshot rest : slots FormHandle) : slots FormHandle * bool :=
  match rest with
  | [] => ([], false)
  | entry :: rest' =>
      let (l, changed) := revoke_pass id snapshot rest' in
      match entry with
      | None => (None :: l, changed)
      | Some handle =>
          if ((fh_id handle =? id) || parent_revoked snapshot handle) && negb (fh_revoked handle)
          then (Some (handle <| fh_revoked := true |>) :: l, true)
          else (Some handle :: l, changed)
      end
  end.

(** [while changed]; [None] when the fuel does not suffice. *)
Fixpoint revoke_loop (fuel : nat) (id : Z) (handles : slots FormHandle)
    : option (slots FormHandle) :=
  match fuel with
  | O => None
  | S fuel' =>
      let (l, changed) := revoke_pass id handles handles in
      if changed then revoke_loop fuel' id l else Some l
  end.

(** Every pass that changes the table revokes one of at most 32 Handles, so
    33 passes are enough ([revoke_loop_total]). *)
Definition CapabilityBroker_revoke (self : CapabilityBroker) (id : Z)
    : option (CapabilityBroker * result unit CapabilityError) :=
  if negb (existsb (λ handle, fh_id handle ==? id) (flatten (cap_handles self)))
  then Some (self, Err CapNotFound)
  else match revoke_loop (S MAX_HANDLES) id (cap_handles self) with
       | None => None
       | Some l => Some (self <| cap_handles := l |>, Ok tt)
       end.

(** ** Specification *)

Abbreviation handles b := (flatten (cap_handles b)).

(** Parent links, by identifier: they survive revocation unchanged. *)
Definition lineage (b : CapabilityBroker) : list (Z * Z) :=
  (λ h, (fh_id h, fh_parent_id h)) <$> handles b.

Inductive descends (links : list (Z * Z)) : Z → Z → Prop :=
  | descends_refl i : descends links i i
  | descends_step i p a :
      (i, p) ∈ links → p ≠ 0 → descends links p a → descends links i a.

(** [h] grants nothing beyond [p]. *)
Record narrower (p h : FormHandle) : Prop := {
  nw_cfc : fh_cfc h = fh_cfc p;
  nw_target : fh_target h = fh_target p;
  nw_dimension : fh_dimension h = fh_dimension p;
  nw_operations : Operations_contains (fh_operations p) (fh_operations h) = true;
  nw_tick : fh_valid_until_tick h ≤ fh_valid_until_tick p;
  nw_revoked : fh_revoked p = true → fh_revoked h = true }.

Record handle_ok (cfc : CfcFin) (h : FormHandle) : Prop := {
  hk_id : 1 ≤ fh_id h ≤ u32_max;
  hk_cfc : fh_cfc h = cfc;
  hk_requester : Fin_is_zero (fh_requester h) = false;
  hk_target : Fin_is_zero (fh_target h) = false;
  hk_dimension : Fin_is_zero (fh_dimension h) = false;
  hk_operations : fh_operations h ≠ Ops_NONE }.

Record broker_wf (b : CapabilityBroker) : Prop := {
  cw_cfc : CfcFin_is_zero (cap_cfc b) = false;
  cw_handles : length (cap_handles b) = MAX_HANDLES;
  cw_seals : length (cap_seals b) = MAX_SEALS;
  cw_next : 1 ≤ cap_next_id b ≤ u32_max;
  cw_ids : NoDup (fh_id <$> handles b);
  cw_ok : ∀ h, h ∈ handles b → handle_ok (cap_cfc b) h;
  cw_parent : ∀ h, h ∈ handles b → fh_parent_id h ≠ 0 →
    ∃ p, p ∈ handles b ∧ fh_id p = fh_parent_id h ∧ narrower p h ∧
         ¬ (fh_operations h = fh_operations p ∧
            fh_valid_until_tick h = fh_valid_until_tick p);
  cw_rooted : ∀ h, h ∈ handles b →
    ∃ r, r ∈ handles b ∧ fh_parent_id r = 0 ∧ descends (lineage b) (fh_id h) (fh_id r) }.

(** The calls of the running system, and the one of the boot loader. *)
Inductive runtime_step : CapabilityBroker → CapabilityBroker → Prop :=
  | rs_issue b requester authority target dimension operations valid :
      runtime_step b (CapabilityBroker_issue_for b requester authority target dimension
                        operations valid).1
  | rs_delegate b parent_id requester operations valid tick :
      runtime_step b (CapabilityBroker_delegate b parent_id requester operations valid tick).1
  | rs_seal b requester dimension :
      runtime_step b (CapabilityBroker_seal_context b requester dimension).1
  | rs_revoke b id b' r :
      CapabilityBroker_revoke b id = Some (b', r) → runtime_step b b'.

Inductive broker_step : CapabilityBroker → CapabilityBroker → Prop :=
  | bs_runtime b b' : runtime_step b b' → broker_step b b'
  | bs_restore b handle :
      0 ≤ fh_id handle ≤ u32_max → broker_step b (CapabilityBroker_restore b handle).1.

(** A run of calls, with the Handles it restored. *)
Inductive broker_run : CapabilityBroker → list FormHandle → CapabilityBroker → Prop :=
  | run_done b : broker_run b [] b
  | run_call b b1 restored b' : runtime_step b b1 → broker_run b1 restored b' → broker_run b restored b'
  | run_restore b handle restored b' :
      0 ≤ fh_id handle ≤ u32_max → broker_run (CapabilityBroker_restore b handle).1 restored b' →
      broker_run b (handle :: restored) b'.

Inductive broker_reachable : CapabilityBroker → Prop :=
  | br_new cfc b : CapabilityBroker_new cfc = Some b → broker_reachable b
  | br_step b b' : broker_reachable b → broker_step b b' → broker_reachable b'.

(** ** Lemmas: operation sets *)

Lemma contains_spec a b :
  Operations_contains a b = true ↔ Z.land (ops_bits a) (ops_bits b) = ops_bits b.
Proof. apply bool_decide_eq_true. Qed.

Lemma contains_refl a : Operations_contains a a = true.
Proof. apply contains_spec, Z.land_diag. Qed.

Lemma contains_trans a b c :
  Operations_contains a b = true → Operations_contains b c = true →
  Operations_contains a c = true.
Proof.
  rewrite !contains_spec. intros Hab Hbc.
  rewrite <- Hbc at 1. by rewrite Z.land_assoc, Hab.
Qed.

Lemma narrower_refl h : narrower h h.
Proof. split; auto using contains_refl; lia. Qed.

Lemma narrower_trans a b c : narrower a b → narrower b c → narrower a c.
Proof.
  intros [] []. split; try congruence; eauto using contains_trans; lia.
Qed.
#[export] Hint Resolve narrower_refl contains_refl : expos.

(** ** Lemmas: the table *)

Lemma existsb_id_false b i :
  existsb (λ h, fh_id h ==? i) b = false ↔ i ∉ fh_id <$> b.
Proof.
  rewrite existsb_elem_false, list_elem_of_fmap. setoid_rewrite bool_decide_eq_false. naive_solver.
Qed.

Lemma existsb_id b i : existsb (λ h, fh_id h ==? i) b = true ↔ i ∈ fh_id <$> b.
Proof.
  rewrite existsb_elem, list_elem_of_fmap. setoid_rewrite bool_decide_eq_true. naive_solver.
Qed.

Lemma handle_by_id_Some b i h : handle_by_id b i = Some h → h ∈ handles b ∧ fh_id h = i.
Proof. intros [? ?%bool_decide_eq_true_1]%find_elem. done. Qed.

Lemma handle_by_id_elem b h :
  broker_wf b → h ∈ handles b → handle_by_id b (fh_id h) = Some h.
Proof. intros Hw Hh. by apply find_unique; [apply Hw| |]. Qed.

(** A Handle authorizes exactly what it says. *)
Definition grants (h : FormHandle) (target dimension : Fin) (operation : Operations) (tick : Z)
    : Prop :=
  fh_revoked h = false ∧ tick ≤ fh_valid_until_tick h ∧ fh_target h = target ∧
  fh_dimension h = dimension ∧ Operations_contains (fh_operations h) operation = true.

Lemma authorize_spec b i t d o k :
  CapabilityBroker_authorize b i t d o k = Ok tt ↔
  ∃ h, handle_by_id b i = Some h ∧ grants h t d o k.
Proof.
  unfold CapabilityBroker_authorize, grants. split.
  - intros H. guards. bools. naive_solver.
  - intros (h & -> & -> & Hk & <- & <- & ->). rewrite !bool_decide_true by done. simpl.
    destruct (Z.gtb_spec k (fh_valid_until_tick h)); [lia|done].
Qed.

Lemma authorize_elem b h t d o k :
  broker_wf b → h ∈ handles b →
  CapabilityBroker_authorize b (fh_id h) t d o k = Ok tt ↔ grants h t d o k.
Proof.
  intros Hw Hh. rewrite authorize_spec, (handle_by_id_elem b h) by done. naive_solver.
Qed.

Lemma grants_narrower p h t d o k : narrower p h → grants h t d o k → grants p t d o k.
Proof.
  intros [] (Hr & Hk & <- & <- & Hc). unfold grants. split_and!; eauto using contains_trans; [|lia].
  destruct (fh_revoked p); [|done]. rewrite nw_revoked0 in Hr; done.
Qed.

Lemma is_ok_unit {E} (r : result unit E) : is_ok r = true ↔ r = Ok tt.
Proof. destruct r as [[]|]; naive_solver. Qed.

Lemma find_authorized_spec b r t d o k :
  broker_wf b →
  is_Some (CapabilityBroker_find_authorized b r t d o k) ↔
  ∃ h, h ∈ handles b ∧ fh_requester h = r ∧ grants h t d o k.
Proof.
  intros Hw. unfold CapabilityBroker_find_authorized. rewrite <- find_existsb, existsb_elem.
  apply exist_proper. intros h. rewrite andb_true_iff, bool_decide_eq_true, is_ok_unit.
  unfold CapabilityBroker_authorize_requester. split.
  - intros (Hh & Hr & Ha). apply let_ok in Ha as (? & Ha & _). destruct x.
    apply authorize_elem in Ha; auto.
  - intros (Hh & <- & Hg). split_and!; [done..|].
    rewrite (proj2 (authorize_elem b h t d o k Hw Hh) Hg), (handle_by_id_elem b h) by done.
    by rewrite bool_decide_true.
Qed.

(** ** Lemmas: identifier allocation

    [candidate n k] is the [k]-th identifier the loop tries from [n]: it counts
    up and wraps from [u32::MAX] to 1. *)

Definition candidate (n k : Z) : Z := (n - 1 + k) mod u32_max + 1.

Lemma candidate_range n k : 1 ≤ candidate n k ≤ u32_max.
Proof.
  unfold candidate. pose proof (Z.mod_pos_bound (n - 1 + k) u32_max). unfold u32_max in *. lia.
Qed.

Lemma candidate_0 n : 1 ≤ n ≤ u32_max → candidate n 0 = n.
Proof. intros. unfold candidate. rewrite Z.mod_small; lia. Qed.

Lemma wrapping_next c :
  1 ≤ c ≤ u32_max →
  Z.max (wrapping_add u32_max c 1) 1 = if decide (c = u32_max) then 1 else c + 1.
Proof.
  intros Hc. unfold wrapping_add. destruct (decide (c = u32_max)) as [->|].
  - by rewrite Z_mod_same_full.
  - rewrite Z.mod_small; lia.
Qed.

Lemma candidate_next n k :
  Z.max (wrapping_add u32_max (candidate n k) 1) 1 = candidate n (k + 1).
Proof.
  pose proof (candidate_range n k). rewrite wrapping_next by done. unfold candidate in *.
  replace (n - 1 + (k + 1)) with (n - 1 + k + 1) by lia.
  pose proof (Z.mod_pos_bound (n - 1 + k) u32_max eq_refl).
  rewrite (Zplus_mod _ 1), (Z.mod_small 1) by (unfold u32_max; lia).
  destruct (decide _) as [E|E].
  - replace ((n - 1 + k) mod u32_max + 1) with u32_max by lia. by rewrite Z_mod_same_full.
  - rewrite (Z.mod_small ((n - 1 + k) mod u32_max + 1)); lia.
Qed.

Lemma candidate_inj n j k :
  0 ≤ j < u32_max → 0 ≤ k < u32_max → candidate n j = candidate n k → j = k.
Proof.
  unfold candidate. intros Hj Hk E.
  assert ((n - 1 + j - (n - 1 + k)) mod u32_max = 0) as H.
  { rewrite Zminus_mod. replace ((n - 1 + j) mod u32_max) with ((n - 1 + k) mod u32_max) by lia.
    by rewrite Z.sub_diag. }
  apply Z.mod_divide in H as [q Hq]; [|done].
  assert (q = 0 ∨ 1 ≤ q ∨ q ≤ -1) as [->|[?|?]] by lia; [lia|nia|nia].
Qed.

Lemma allocate_loop_spec fuel hs n k :
  let (n', r) := allocate_loop fuel hs (candidate n k) in
  1 ≤ n' ≤ u32_max ∧
  match r with
  | Ok c => 1 ≤ c ≤ u32_max ∧ c ∉ fh_id <$> hs
  | Err e => e = CapFull ∧
             ∀ j, k ≤ j < k + Z.of_nat fuel → candidate n j ∈ fh_id <$> hs
  end.
Proof.
  revert k. induction fuel as [|fuel IH]; intros k; simpl.
  { split_and!; [apply candidate_range..|done|lia]. }
  pose proof (candidate_range n k). rewrite Z.max_l, candidate_next by lia.
  destruct (existsb _ _) eqn:E; simpl.
  - specialize (IH (k + 1)). destruct (allocate_loop _ _ _) as [n' [c|e]]; [done|].
    destruct IH as (? & ? & IH). split_and!; [lia..|done|]. intros j Hj.
    destruct (decide (j = k)) as [->|]; [by apply existsb_id|]. apply IH. lia.
  - apply existsb_id_false in E. pose proof (candidate_range n (k + 1)). auto.
Qed.

(** More tries than Handles always find a free identifier. *)
Lemma allocate_loop_Ok fuel hs n :
  1 ≤ n ≤ u32_max → (length hs < fuel)%nat → Z.of_nat fuel ≤ u32_max →
  is_ok (allocate_loop fuel hs n).2 = true.
Proof.
  intros Hn Hl Hf. pose proof (allocate_loop_spec fuel hs n 0) as H.
  rewrite candidate_0 in H by done. destruct (allocate_loop _ _ _) as [n' [c|e]]; [done|].
  destruct H as (_ & _ & H).
  assert (length (candidate n <$> seqZ 0 (Z.of_nat fuel)) ≤ length (fh_id <$> hs))%nat as Hle.
  { apply submseteq_length, NoDup_submseteq.
    - apply NoDup_fmap_2_strong; [|apply NoDup_seqZ].
      intros a b ?%elem_of_seqZ ?%elem_of_seqZ. apply candidate_inj; lia.
    - intros c (j & -> & ?%elem_of_seqZ)%list_elem_of_fmap. apply H. lia. }
  rewrite !length_fmap, length_seqZ in Hle. lia.
Qed.

Lemma allocate_id_spec b :
  broker_wf b →
  let (b', r) := CapabilityBroker_allocate_id b in
  b' = b <| cap_next_id := cap_next_id b' |> ∧ 1 ≤ cap_next_id b' ≤ u32_max ∧
  match r with
  | Ok c => 1 ≤ c ≤ u32_max ∧ c ∉ fh_id <$> handles b
  | Err _ => False
  end.
Proof.
  intros Hw. unfold CapabilityBroker_allocate_id. pose proof (cw_next _ Hw) as Hn.
  pose proof (allocate_loop_spec (S MAX_HANDLES) (handles b) (cap_next_id b) 0) as H.
  pose proof (allocate_loop_Ok (S MAX_HANDLES) (handles b) (cap_next_id b) Hn) as Hok.
  rewrite candidate_0 in H by done. destruct (allocate_loop _ _ _) as [n' [c|e]]; simpl in *.
  - destruct H as (? & ? & ?). auto.
  - pose proof (length_flatten (cap_handles b)) as Hl. rewrite (cw_handles _ Hw) in Hl.
    discriminate Hok; [lia|by vm_compute].
Qed.

(** ** Lemmas: adding a Handle *)

Lemma descends_mono l l' i a : l ⊆ l' → descends l i a → descends l' i a.
Proof. intros Hl. induction 1; [constructor|]. econstructor; eauto. Qed.

Lemma descends_trans l i p a : descends l i p → descends l p a → descends l i a.
Proof. intros H Ha. induction H; [done|]. econstructor; eauto. Qed.

Definition strictly_narrower (p h : FormHandle) : Prop :=
  narrower p h ∧ ¬ (fh_operations h = fh_operations p ∧
                    fh_valid_until_tick h = fh_valid_until_tick p).

Lemma broker_insert_wf b l h n :
  broker_wf b → fill_slot h (cap_handles b) = Some l → handle_ok (cap_cfc b) h →
  fh_id h ∉ fh_id <$> handles b → 1 ≤ n ≤ u32_max →
  (fh_parent_id h ≠ 0 →
     ∃ p, p ∈ handles b ∧ fh_id p = fh_parent_id h ∧ strictly_narrower p h) →
  broker_wf (b <| cap_handles := l |> <| cap_next_id := n |>).
Proof.
  intros Hw Hl Hh Hid Hn Hp. pose proof (fill_slot_perm _ _ _ Hl) as Hperm.
  destruct Hw as [W1 W2 W3 W4 W5 W6 W7 W8].
  assert (∀ x, x ∈ flatten l ↔ x = h ∨ x ∈ handles b) as Hel by (intros; by apply elem_of_fill_slot).
  assert (∀ i a, descends (lineage b) i a →
    descends (lineage (b <| cap_handles := l |> <| cap_next_id := n |>)) i a) as Hmono.
  { intros i a. apply descends_mono. unfold lineage. simpl. rewrite Hperm. csimpl. set_solver. }
  split; simpl; auto.
  - by rewrite (fill_slot_length _ _ _ Hl).
  - rewrite Hperm. csimpl. by apply NoDup_cons.
  - intros x [->|Hx]%Hel; auto.
  - intros x [->|Hx]%Hel H0; [destruct (Hp H0) as (p & ? & ? & ? & ?)
                             |destruct (W7 x Hx H0) as (p & ? & ? & ? & ?)];
      exists p; rewrite Hel; auto.
  - intros x [->|Hx]%Hel; [destruct (decide (fh_parent_id h = 0)) as [H0|H0]|].
    + exists h. rewrite Hel. split_and!; auto. constructor.
    + destruct (Hp H0) as (p & Hpb & Hpi & _). destruct (W8 p Hpb) as (r & ? & ? & ?).
      exists r. rewrite Hel. split_and!; auto. eapply descends_step; [|exact H0|].
      * apply list_elem_of_fmap. exists h. rewrite Hel. auto.
      * rewrite <- Hpi. by apply Hmono.
    + destruct (W8 x Hx) as (r & ? & ? & ?). exists r. rewrite Hel. auto.
Qed.

Lemma position_insert {A} (x : A) (l : slots A) i :
  position slot_is_none l = Some i → fill_slot x l = Some (<[i := Some x]> l).
Proof. intros H. by rewrite position_fill_slot, H. Qed.

(** Issuing and delegating: either nothing happens or one Handle is added. *)
Definition added (b b' : CapabilityBroker) (h : FormHandle) : Prop :=
  cap_seals b' = cap_seals b ∧ cap_cfc b' = cap_cfc b ∧
  fill_slot h (cap_handles b) = Some (cap_handles b') ∧ fh_id h ∉ fh_id <$> handles b.

Lemma issue_for_spec b rq a t d o v :
  broker_wf b →
  match CapabilityBroker_issue_for b rq a t d o v with
  | (b', Ok h) =>
      broker_wf b' ∧ added b b' h ∧ CapabilityBroker_is_sealed b rq d = false ∧
      authority_permits a o = true ∧
      h = MkHandle (fh_id h) 0 (cap_cfc b) rq t d o v false
  | (b', Err e) => b' = b
  end.
Proof.
  intros Hw. unfold CapabilityBroker_issue_for.
  destruct (CapabilityBroker_is_sealed b rq d) eqn:Hs; [done|].
  destruct (_ || _) eqn:Hg; [done|]. bools.
  destruct (position slot_is_none (cap_handles b)) as [i|] eqn:Hi; [|done].
  pose proof (allocate_id_spec b Hw) as Ha.
  destruct (CapabilityBroker_allocate_id b) as [b1 [c|e]]; [|tauto].
  destruct Ha as (-> & Hn & Hc & Hfresh). simpl in *.
  set (h := MkHandle c 0 (cap_cfc b) rq t d o v false).
  apply (position_insert h) in Hi as Hfill.
  split_and!; try done.
  change (broker_wf (b <| cap_handles := <[i:=Some h]> (cap_handles b) |>
                       <| cap_next_id := cap_next_id b1 |>)).
  by apply (broker_insert_wf _ _ h).
Qed.

Lemma delegate_spec b pid rq o v k :
  broker_wf b →
  match CapabilityBroker_delegate b pid rq o v k with
  | (b', Ok h) =>
      broker_wf b' ∧ added b b' h ∧
      ∃ p, handle_by_id b pid = Some p ∧ strictly_narrower p h ∧
           grants p (fh_target p) (fh_dimension p) o k ∧
           (CapabilityBroker_is_sealed b rq (fh_dimension p) = true → rq = fh_requester p) ∧
           h = MkHandle (fh_id h) pid (cap_cfc b) rq (fh_target p) (fh_dimension p) o v false
  | (b', Err e) => b' = b
  end.
Proof.
  intros Hw. unfold CapabilityBroker_delegate.
  destruct (handle_by_id b pid) as [p|] eqn:Hp; [|done].
  destruct (_ && _) eqn:Hs; [done|].
  destruct (CapabilityBroker_authorize _ _ _ _ _ _) as [[]|] eqn:Ha; [|done].
  destruct (_ || _) eqn:Hg; [done|]. bools.
  destruct (position slot_is_none (cap_handles b)) as [i|] eqn:Hi; [|done].
  pose proof (allocate_id_spec b Hw) as Hal.
  destruct (CapabilityBroker_allocate_id b) as [b1 [c|e]]; [|tauto].
  destruct Hal as (-> & Hn & Hc & Hfresh). simpl in *.
  apply handle_by_id_Some in Hp as Hp'. destruct Hp' as [Hpb Hpi].
  apply authorize_elem in Ha; [|done..].
  set (h := MkHandle c (fh_id p) (cap_cfc b) rq (fh_target p) (fh_dimension p) o v false).
  apply (position_insert h) in Hi as Hfill. pose proof (cw_ok _ Hw p Hpb) as Hpo.
  assert (strictly_narrower p h) as Hnar.
  { destruct Hpo, Ha as (Hr & _). split; [split; simpl; auto; first [lia|congruence]|].
    simpl. intros [-> ->]. rewrite !bool_decide_true in H0 by done. done. }
  split_and!; try done.
  - change (broker_wf (b <| cap_handles := <[i:=Some h]> (cap_handles b) |>
                         <| cap_next_id := cap_next_id b1 |>)).
    apply (broker_insert_wf _ _ h); try done; [|eauto]. destruct Hpo. by split.
  - exists p. split_and!; try done; [|by subst h; simpl; rewrite Hpi].
    intros Hsealed. rewrite Hsealed in Hs. simpl in Hs. by bools.
Qed.

Lemma restore_spec b h :
  broker_wf b → 0 ≤ fh_id h ≤ u32_max →
  match CapabilityBroker_restore b h with
  | (b', Ok _) => broker_wf b' ∧ added b b' h
  | (b', Err e) => b' = b
  end.
Proof.
  intros Hw Hr. unfold CapabilityBroker_restore.
  destruct (bool_decide (fh_cfc h = cap_cfc b)) eqn:Hc; [|done]. simpl.
  destruct (_ || _) eqn:Hz; [done|]. bools.
  destruct (existsb _ _) eqn:He; [done|]. apply existsb_id_false in He.
  assert (handle_ok (cap_cfc b) h) as Hok by (split; auto; lia).
  set (n := if fh_id h =? u32_max then _ else _).
  assert (1 ≤ n ≤ u32_max) as Hn.
  { pose proof (cw_next _ Hw). subst n. destruct (fh_id h =? u32_max) eqn:E; bools; lia. }
  destruct (fh_parent_id h =? 0) eqn:Hp; bools; simpl.
  - destruct (fill_slot h (cap_handles b)) as [l|] eqn:Hl; [|done].
    split; [|done]. by apply (broker_insert_wf b l h).
  - destruct (handle_by_id b (fh_parent_id h)) as [p|] eqn:Hpb; [|done].
    destruct (restore_amplifies p h) eqn:Ham; [done|].
    destruct (fill_slot h (cap_handles b)) as [l|] eqn:Hl; [|done].
    split; [|done]. apply (broker_insert_wf b l h); auto. intros _. exists p.
    apply handle_by_id_Some in Hpb as [??]. split_and!; auto.
    unfold restore_amplifies in Ham. bools. split; [split; auto; first [lia|congruence]|].
    intros [E1 E2]. rewrite E1, E2, !bool_decide_true in * by done. done.
Qed.

Lemma is_sealed_spec b r d :
  CapabilityBroker_is_sealed b r d = true ↔
  ∃ s, s ∈ flatten (cap_seals b) ∧ seal_requester s = r ∧ seal_dimension s = d.
Proof.
  unfold CapabilityBroker_is_sealed, CapabilityBroker_seal. split.
  - destruct (List.find _ _) as [s|] eqn:E; [|done]. apply find_elem in E as [? ?]. bools. eauto.
  - intros (s & Hs & Hr & Hd).
    destruct (find_is_Some (λ seal, (seal_requester seal ==? r) && (seal_dimension seal ==? d))
      _ s Hs) as [x ->]; [|done]. by rewrite !bool_decide_true.
Qed.

Lemma seal_context_spec b r d :
  broker_wf b →
  match CapabilityBroker_seal_context b r d with
  | (b', Ok s) =>
      broker_wf b' ∧ cap_handles b' = cap_handles b ∧ cap_next_id b' = cap_next_id b ∧
      fill_slot s (cap_seals b) = Some (cap_seals b') ∧
      seal_requester s = r ∧ seal_dimension s = d
  | (b', Err e) => b' = b
  end.
Proof.
  intros Hw. unfold CapabilityBroker_seal_context.
  destruct (_ || _); [done|]. destruct (CapabilityBroker_is_sealed b r d); [done|].
  destruct (fill_slot _ _) as [l|] eqn:Hl; [|done]. split_and!; try done.
  destruct Hw. split; simpl; auto. by rewrite (fill_slot_length _ _ _ Hl).
Qed.

(** ** Lemmas: revocation

    [revoked_from links id h h'] relates a Handle before and during the
    revocation of [id]: only the flag moves, and only up, and only below
    [id]. *)

Definition revoked_from (links : list (Z * Z)) (id : Z) (h h' : FormHandle) : Prop :=
  h' = h <| fh_revoked := fh_revoked h' |> ∧
  (fh_revoked h = true → fh_revoked h' = true) ∧
  (fh_revoked h' = true → fh_revoked h = true ∨ descends links (fh_id h) id).

Abbreviation table_rel links id := (Forall2 (option_Forall2 (revoked_from links id))).

Lemma revoked_from_refl links id h : revoked_from links id h h.
Proof. split; [by destruct h|auto]. Qed.

Lemma table_rel_refl links id l : table_rel links id l l.
Proof.
  induction l as [|[h|] l IH]; constructor; auto; constructor. apply revoked_from_refl.
Qed.

Lemma table_rel_elem links id l l' h' :
  table_rel links id l l' → h' ∈ flatten l' →
  ∃ h, h ∈ flatten l ∧ revoked_from links id h h'.
Proof.
  induction 1 as [|o o' l l' Ho _ IH]; simpl; [by rewrite elem_of_nil|].
  destruct Ho as [h h1 Hh|]; [|done]. rewrite elem_of_cons. intros [->|Hi].
  - exists h. rewrite elem_of_cons. auto.
  - destruct (IH Hi) as (x & ? & ?). exists x. rewrite elem_of_cons. auto.
Qed.

Lemma table_rel_elem_l links id l l' h :
  table_rel links id l l' → h ∈ flatten l →
  ∃ h', h' ∈ flatten l' ∧ revoked_from links id h h'.
Proof.
  induction 1 as [|o o' l l' Ho _ IH]; simpl; [by rewrite elem_of_nil|].
  destruct Ho as [h0 h1 Hh|]; [|done]. rewrite elem_of_cons. intros [->|Hi].
  - exists h1. rewrite elem_of_cons. auto.
  - destruct (IH Hi) as (x & ? & ?). exists x. rewrite elem_of_cons. auto.
Qed.

Lemma table_rel_fmap {A} (f : FormHandle → A) links id l l' :
  (∀ h r, f (h <| fh_revoked := r |>) = f h) →
  table_rel links id l l' → f <$> flatten l' = f <$> flatten l.
Proof.
  intros Hf. induction 1 as [|o o' l l' Ho _ IH]; simpl; [done|].
  destruct Ho as [h h1 [E _]|]; [|done]. csimpl. by rewrite IH, E, Hf.
Qed.

(** Handles not yet revoked: the measure of the loop. *)
Definition unrevoked (l : slots FormHandle) : nat :=
  length (List.filter (λ h, negb (fh_revoked h)) (flatten l)).

Definition revoke_hit (id : Z) (snapshot : slots FormHandle) (h : FormHandle) : bool :=
  ((fh_id h =? id) || parent_revoked snapshot h) && negb (fh_revoked h).

Lemma revoke_pass_changed id snap l :
  let (l', changed) := revoke_pass id snap l in
  if changed then (unrevoked l' < unrevoked l)%nat
  else l' = l ∧ ∀ h, h ∈ flatten l → revoke_hit id snap h = false.
Proof.
  unfold unrevoked. induction l as [|[h|] l IH]; simpl.
  { split; [done|]. by intros h Hh%elem_of_nil. }
  - destruct (revoke_pass id snap l) as [l' [|]]; fold (revoke_hit id snap h).
    + destruct (revoke_hit id snap h) eqn:E; simpl.
      * unfold revoke_hit in E. bools. rewrite H0. simpl. lia.
      * destruct (fh_revoked h); simpl; lia.
    + destruct IH as [-> IH]. destruct (revoke_hit id snap h) eqn:E; simpl.
      * unfold revoke_hit in E. bools. rewrite H0. simpl. lia.
      * split; [done|]. intros x [->|Hx]%elem_of_cons; auto.
  - destruct (revoke_pass id snap l) as [l' [|]]; simpl; [done|].
    destruct IH as [-> IH]. auto.
Qed.

Lemma revoke_pass_rel links id init snap i l :
  table_rel links id init snap →
  (∀ h p, h ∈ flatten init → p ∈ flatten init → fh_parent_id h ≠ 0 →
     fh_id p = fh_parent_id h →
     (fh_revoked p = true → fh_revoked h = true) ∧ (fh_id h, fh_parent_id h) ∈ links) →
  i ⊆ init → table_rel links id i l → table_rel links id i (revoke_pass id snap l).1.
Proof.
  intros Hsnap Hclosed Hsub Hrel. revert Hsub.
  induction Hrel as [|o o' i l Ho _ IH]; intros Hsub; simpl; [constructor|].
  destruct (revoke_pass id snap l) as [l' c]. simpl in IH.
  assert (i ⊆ init) as Hi by (set_solver). specialize (IH Hi).
  destruct Ho as [h h1 Hh|]; simpl; [|constructor; [constructor|done]].
  fold (revoke_hit id snap h1). destruct (revoke_hit id snap h1) eqn:E; simpl;
    constructor; auto; constructor; auto.
  assert (h ∈ flatten init) as Hin by (apply elem_of_flatten; set_solver).
  destruct Hh as (E1 & _ & _). split; [by rewrite E1|]. split; [done|]. intros _.
  unfold revoke_hit in E. bools. rewrite E1 in H; simpl in H.
  apply orb_true_iff in H as [H|H]; bools; [rewrite <- H; right; constructor|].
  unfold parent_revoked in H. bools. simpl in *.
  apply existsb_elem in H1 as (p' & Hp' & H1). bools.
  destruct (table_rel_elem _ _ _ _ _ Hsnap Hp') as (p & Hp & Ep & _ & Hpr).
  assert (fh_id p = fh_parent_id h) as Hpi by (rewrite <- H1, Ep; done).
  destruct (Hclosed h p Hin Hp H Hpi) as [Hcl Hlink].
  destruct (Hpr H2) as [Hr|Hd]; [auto|]. right. rewrite Hpi in Hd. by eapply descends_step.
Qed.

Lemma revoke_loop_total fuel links id init cur :
  table_rel links id init cur →
  (∀ h p, h ∈ flatten init → p ∈ flatten init → fh_parent_id h ≠ 0 →
     fh_id p = fh_parent_id h →
     (fh_revoked p = true → fh_revoked h = true) ∧ (fh_id h, fh_parent_id h) ∈ links) →
  (unrevoked cur < fuel)%nat →
  ∃ l, revoke_loop fuel id cur = Some l ∧ table_rel links id init l ∧
       ∀ h, h ∈ flatten l → revoke_hit id l h = false.
Proof.
  intros Hrel Hclosed. revert cur Hrel. induction fuel as [|fuel IH]; intros cur Hrel Hf; [lia|].
  simpl. pose proof (revoke_pass_changed id cur cur) as Hc.
  pose proof (revoke_pass_rel links id init cur init cur Hrel Hclosed (reflexivity init) Hrel) as Hr.
  destruct (revoke_pass id cur cur) as [l [|]]; simpl in Hr.
  - apply IH; [done|lia].
  - destruct Hc as [-> Hc]. eauto.
Qed.

(** A Handle has the one parent its link names. *)
Lemma parent_narrower b h p :
  broker_wf b → h ∈ handles b → p ∈ handles b → fh_parent_id h ≠ 0 →
  fh_id p = fh_parent_id h → narrower p h.
Proof.
  intros Hw Hh Hp H0 E. destruct (cw_parent _ Hw h Hh H0) as (q & Hq & Eq & Hn & _).
  rewrite (NoDup_key_inj fh_id (handles b) p q); [done|apply Hw|done..|congruence].
Qed.

Lemma lineage_elem b h : h ∈ handles b → (fh_id h, fh_parent_id h) ∈ lineage b.
Proof. intros Hh. apply list_elem_of_fmap. eauto. Qed.

(** When a pass finds nothing to do, everything below [id] is revoked. *)
Lemma no_hit_revoked b id l h' :
  broker_wf b → table_rel (lineage b) id (cap_handles b) l →
  (∀ h, h ∈ flatten l → revoke_hit id l h = false) →
  h' ∈ flatten l → descends (lineage b) (fh_id h') id → fh_revoked h' = true.
Proof.
  intros Hw Hrel Hno. remember (fh_id h') as i eqn:Ei. intros Hin Hd.
  revert h' Ei Hin. induction Hd as [i|i p a Hlink Hp Hd IH]; intros h' -> Hin.
  - specialize (Hno h' Hin). unfold revoke_hit in Hno. rewrite Z.eqb_refl in Hno. simpl in Hno.
    by bools.
  - apply list_elem_of_fmap in Hlink as (h & [= E1 E2] & Hh).
    destruct (table_rel_elem _ _ _ _ _ Hrel Hin) as (h0 & Hh0 & Er & _).
    assert (h0 = h) as ->.
    { apply (NoDup_key_inj fh_id (handles b)); [apply Hw|done|done|]. rewrite <- E1, Er. done. }
    destruct (cw_parent _ Hw h Hh) as (q & Hq & Eq & _); [congruence|].
    destruct (table_rel_elem_l _ _ _ _ _ Hrel Hq) as (q' & Hq' & Erq & _).
    assert (fh_id q' = p) as Eq' by (rewrite Erq; simpl; congruence).
    specialize (IH Hrel Hno q' (eq_sym Eq') Hq').
    specialize (Hno h' Hin). unfold revoke_hit, parent_revoked in Hno.
    replace (fh_parent_id h') with p in Hno by (rewrite Er; done).
    rewrite (proj2 (Z.eqb_neq p 0) Hp) in Hno. simpl in Hno.
    rewrite (proj2 (existsb_elem _ _)) in Hno; [|exists q'; split; [done|]].
    + rewrite orb_true_r in Hno. simpl in Hno. by bools.
    + by rewrite IH, bool_decide_true.
Qed.

Lemma unrevoked_le l : (unrevoked l ≤ length l)%nat.
Proof.
  unfold unrevoked. etrans; [apply List.filter_length_le|apply length_flatten].
Qed.

Lemma revoke_table_total b id :
  broker_wf b →
  ∃ l, revoke_loop (S MAX_HANDLES) id (cap_handles b) = Some l ∧
       table_rel (lineage b) id (cap_handles b) l ∧
       ∀ h, h ∈ flatten l → descends (lineage b) (fh_id h) id → fh_revoked h = true.
Proof.
  intros Hw.
  destruct (revoke_loop_total (S MAX_HANDLES) (lineage b) id (cap_handles b) (cap_handles b))
    as (l & Hl & Hrel & Hno).
  - apply table_rel_refl.
  - intros h p Hh Hp H0 E. split; [|by apply lineage_elem].
    by apply (parent_narrower b h p Hw Hh Hp H0 E).
  - pose proof (unrevoked_le (cap_handles b)). rewrite (cw_handles _ Hw) in *. lia.
  - exists l. split_and!; auto. intros h. by apply (no_hit_revoked b id l h).
Qed.

Lemma table_rel_wf b id l :
  broker_wf b → table_rel (lineage b) id (cap_handles b) l →
  (∀ h, h ∈ flatten l → descends (lineage b) (fh_id h) id → fh_revoked h = true) →
  broker_wf (b <| cap_handles := l |>).
Proof.
  intros Hw Hrel Hall. pose proof Hw as [W1 W2 W3 W4 W5 W6 W7 W8].
  assert (lineage (b <| cap_handles := l |>) = lineage b) as Hlin.
  { unfold lineage. simpl. by apply (table_rel_fmap _ (lineage b) id). }
  split; simpl; auto.
  - by rewrite <- (Forall2_length _ _ _ Hrel).
  - rewrite (table_rel_fmap fh_id _ _ _ _ (λ _ _, eq_refl) Hrel). done.
  - intros h' Hh'. destruct (table_rel_elem _ _ _ _ _ Hrel Hh') as (h & Hh & -> & _).
    destruct (W6 h Hh). by split.
  - intros h' Hh' H0. destruct (table_rel_elem _ _ _ _ _ Hrel Hh') as (h & Hh & E & Hup & _).
    assert (fh_parent_id h ≠ 0) as H0' by (rewrite E in H0; done).
    destruct (W7 h Hh H0') as (p & Hp & Epi & Hn & Hs).
    destruct (table_rel_elem_l _ _ _ _ _ Hrel Hp) as (p' & Hp' & Ep & Hpup & Hpd).
    exists p'. split; [done|]. split; [rewrite E, Ep; done|]. split; [|rewrite E, Ep; done].
    assert (fh_revoked p' = true → fh_revoked h' = true) as Hrev.
    { intros Hr. destruct (Hpd Hr) as [Hr0|Hd]; [by apply Hup, Hn|].
      apply Hall; [done|]. rewrite E. simpl. eapply descends_step; [by apply lineage_elem|done|].
      by rewrite <- Epi. }
    destruct Hn. split; auto; rewrite E, Ep; done.
  - intros h' Hh'. destruct (table_rel_elem _ _ _ _ _ Hrel Hh') as (h & Hh & E & _).
    destruct (W8 h Hh) as (r & Hr & Hr0 & Hd).
    destruct (table_rel_elem_l _ _ _ _ _ Hrel Hr) as (r' & Hr' & Er & _).
    exists r'. rewrite Hlin. split; [done|]. rewrite E, Er. done.
Qed.

Lemma revoke_spec b id :
  broker_wf b →
  ∃ b' r, CapabilityBroker_revoke b id = Some (b', r) ∧ broker_wf b' ∧
    b' = b <| cap_handles := cap_handles b' |> ∧
    match r with
    | Ok _ => id ∈ fh_id <$> handles b ∧
              table_rel (lineage b) id (cap_handles b) (cap_handles b') ∧
              ∀ h, h ∈ handles b' → descends (lineage b) (fh_id h) id → fh_revoked h = true
    | Err e => e = CapNotFound ∧ (id ∉ fh_id <$> handles b) ∧ b' = b
    end.
Proof.
  intros Hw. unfold CapabilityBroker_revoke. destruct (existsb _ _) eqn:E; cbn [negb].
  - apply existsb_id in E. destruct (revoke_table_total b id Hw) as (l & -> & Hrel & Hall).
    eexists _, _. split_and!; [done| |done..]. by apply (table_rel_wf b id l).
  - apply existsb_id_false in E. exists b, (Err CapNotFound). split_and!; try done.
    by destruct b.
Qed.

(** ** Lemmas: the step relation *)

(** Later states keep every Handle; at most its flag has gone up. *)
Definition evolves (b b' : CapabilityBroker) : Prop :=
  ∀ h, h ∈ handles b → ∃ h', h' ∈ handles b' ∧ h' = h <| fh_revoked := fh_revoked h' |> ∧
                             (fh_revoked h = true → fh_revoked h' = true).

#[export] Instance evolves_preorder : PreOrder evolves.
Proof.
  split.
  - intros b h Hh. exists h. split_and!; auto. by destruct h.
  - intros a b c Hab Hbc h Hh. destruct (Hab h Hh) as (h1 & Hh1 & E1 & R1).
    destruct (Hbc h1 Hh1) as (h2 & Hh2 & E2 & R2). exists h2. split_and!; auto.
    rewrite E2, E1. done.
Qed.

Lemma added_evolves b b' h : added b b' h → evolves b b'.
Proof.
  intros (_ & _ & Hf & _) x Hx. exists x. split_and!; auto; [|by destruct x].
  apply (elem_of_fill_slot _ _ _ _ Hf). auto.
Qed.

Lemma runtime_step_wf b b' : broker_wf b → runtime_step b b' → broker_wf b' ∧ evolves b b'.
Proof.
  intros Hw. destruct 1 as [b rq a t d o v|b p rq o v k|b r d|b id b' r Hr].
  - pose proof (issue_for_spec b rq a t d o v Hw) as H.
    destruct (CapabilityBroker_issue_for _ _ _ _ _ _ _) as [b' [h|e]]; [|by subst].
    destruct H as (? & ? & _). eauto using added_evolves.
  - pose proof (delegate_spec b p rq o v k Hw) as H.
    destruct (CapabilityBroker_delegate _ _ _ _ _ _) as [b' [h|e]]; [|by subst].
    destruct H as (? & ? & _). eauto using added_evolves.
  - pose proof (seal_context_spec b r d Hw) as H.
    destruct (CapabilityBroker_seal_context _ _ _) as [b' [s|e]]; [|by subst].
    destruct H as (? & E & _). split; [done|]. unfold evolves. simpl. rewrite E. apply (@reflexivity _ evolves _ b).
  - destruct (revoke_spec b id Hw) as (b1 & r1 & E & ? & _ & H). rewrite Hr in E.
    simplify_eq. split; [done|]. destruct r1; [|by destruct H as (_ & _ & ->)].
    destruct H as (_ & Hrel & _). intros h Hh.
    destruct (table_rel_elem_l _ _ _ _ _ Hrel Hh) as (h' & ? & ? & ? & _). eauto.
Qed.

Lemma broker_step_wf b b' : broker_wf b → broker_step b b' → broker_wf b' ∧ evolves b b'.
Proof.
  intros Hw. destruct 1 as [b b' H|b h Hh]; [by apply runtime_step_wf|].
  pose proof (restore_spec b h Hw Hh) as H.
  destruct (CapabilityBroker_restore b h) as [b' [?|e]]; [|by subst].
  destruct H as (? & ?). eauto using added_evolves.
Qed.

Lemma broker_reachable_wf b : broker_reachable b → broker_wf b.
Proof.
  induction 1 as [cfc b H|b b' _ IH Hs]; [|by apply broker_step_wf in Hs as [? _]].
  unfold CapabilityBroker_new in H. guards.
  split; cbn [cap_handles cap_seals cap_cfc cap_next_id]; rewrite ?flatten_empty;
    auto using length_empty_slots; try (by intros h Hh%elem_of_nil).
  - by vm_compute.
  - constructor.
Qed.

Lemma broker_steps_wf b b' : broker_wf b → rtc broker_step b b' → broker_wf b' ∧ evolves b b'.
Proof.
  intros Hw H. induction H as [b|b b1 b2 Hs _ IH]; [done|].
  destruct (broker_step_wf b b1 Hw Hs) as [Hw1 He]. destruct (IH Hw1) as [Hw2 He2].
  split; [done|]. by etrans.
Qed.

(** Every ancestor is at least as permissive. *)
Lemma descends_narrower b h a i :
  broker_wf b → h ∈ handles b → fh_id h = i → descends (lineage b) i a →
  ∃ p, p ∈ handles b ∧ fh_id p = a ∧ narrower p h.
Proof.
  intros Hw Hh Hi Hd. revert h Hh Hi.
  induction Hd as [i|i p a Hlink Hp Hd IH]; intros h Hh Hi; [eauto with expos|].
  apply list_elem_of_fmap in Hlink as (x & [= E1 E2] & Hx).
  assert (x = h) as -> by (apply (NoDup_key_inj fh_id (handles b)); [apply Hw|..]; congruence).
  destruct (cw_parent _ Hw h Hh) as (q & Hq & Eq & Hn & _); [congruence|].
  destruct (IH q Hq) as (r & ? & ? & ?); [congruence|]. eauto using narrower_trans.
Qed.

(** ** Lemmas: the seal *)

(** What requester [r] holds in Dimension [d], which is sealed, is among the Handles
    [held], or a narrower copy of one of them. *)
Definition covered (held : list FormHandle) (r d : Fin) (b : CapabilityBroker) : Prop :=
  CapabilityBroker_is_sealed b r d = true ∧
  ∀ h, h ∈ handles b → fh_requester h = r → fh_dimension h = d →
    ∃ h0, h0 ∈ held ∧ fh_requester h0 = r ∧ narrower h0 h.

Lemma is_sealed_seals b b' r d :
  cap_seals b' = cap_seals b → CapabilityBroker_is_sealed b' r d = CapabilityBroker_is_sealed b r d.
Proof. unfold CapabilityBroker_is_sealed, CapabilityBroker_seal. by intros ->. Qed.

Lemma covered_added held r d b b' h :
  covered held r d b → added b b' h →
  (fh_requester h = r → fh_dimension h = d →
     ∃ h0, h0 ∈ held ∧ fh_requester h0 = r ∧ narrower h0 h) →
  covered held r d b'.
Proof.
  intros [Hs Hc] (Es & _ & Hf & _) Hh. split; [by rewrite (is_sealed_seals b)|].
  intros x [->|Hx]%(elem_of_fill_slot _ _ _ _ Hf); auto.
Qed.

Lemma covered_step held r d b b' :
  broker_wf b → covered held r d b → runtime_step b b' → covered held r d b'.
Proof.
  intros Hw Hcov Hstep. pose proof Hcov as [Hs Hc].
  destruct Hstep as [b rq a t dm o v|b p rq o v k|b rq dm|b id b' res Hr].
  - pose proof (issue_for_spec b rq a t dm o v Hw) as H.
    destruct (CapabilityBroker_issue_for _ _ _ _ _ _ _) as [b' [h|e]]; [|by subst].
    destruct H as (_ & Hadd & Hns & _ & E). apply (covered_added _ _ _ _ _ _ Hcov Hadd).
    rewrite E. simpl. intros -> ->. congruence.
  - pose proof (delegate_spec b p rq o v k Hw) as H.
    destruct (CapabilityBroker_delegate _ _ _ _ _ _) as [b' [h|e]]; [|by subst].
    destruct H as (_ & Hadd & q & Hq & [Hn _] & _ & Hsame & E).
    apply (covered_added _ _ _ _ _ _ Hcov Hadd). rewrite E in Hn |- *. simpl. intros -> Hd.
    apply handle_by_id_Some in Hq as [Hq _]. rewrite Hd in Hsame.
    destruct (Hc q Hq (eq_sym (Hsame Hs)) Hd) as (h0 & ? & ? & ?). eauto using narrower_trans.
  - pose proof (seal_context_spec b rq dm Hw) as H.
    destruct (CapabilityBroker_seal_context _ _ _) as [b' [s|e]]; [|by subst].
    destruct H as (_ & Eh & _ & Hf & _). split; [|simpl; by rewrite Eh].
    apply is_sealed_spec in Hs as (s0 & ? & ?). apply is_sealed_spec. exists s0.
    rewrite (elem_of_fill_slot _ _ _ _ Hf). auto.
  - destruct (revoke_spec b id Hw) as (b1 & r1 & E & _ & Eb & H). rewrite Hr in E.
    simplify_eq. destruct r1; [|by destruct H as (_ & _ & ->)].
    destruct H as (_ & Hrel & _). split; [rewrite Eb; by rewrite (is_sealed_seals b)|].
    intros h Hh Hhr Hhd. destruct (table_rel_elem _ _ _ _ _ Hrel Hh) as (x & Hx & Ex & Hup & _).
    destruct (Hc x Hx) as (h0 & ? & ? & []); [by rewrite Ex in Hhr|by rewrite Ex in Hhd|].
    exists h0. split_and!; auto. split; try (rewrite Ex; done). auto.
Qed.

Lemma covered_restore held r d b h :
  broker_wf b → 0 ≤ fh_id h ≤ u32_max → covered held r d b → h ∈ held → covered held r d (CapabilityBroker_restore b h).1.
Proof.
  intros Hw Hh Hc Hin. pose proof (restore_spec b h Hw Hh) as H.
  destruct (CapabilityBroker_restore b h) as [b' [?|e]]; [|by subst]. destruct H as [_ Hadd].
  apply (covered_added _ _ _ _ _ _ Hc Hadd). intros Hr _. exists h. eauto with expos.
Qed.

Lemma covered_run held r d b restored b' :
  broker_run b restored b' → broker_wf b → covered held r d b → restored ⊆ held → broker_wf b' ∧ covered held r d b'.
Proof.
  induction 1 as [b|b b1 restored b' Hs _ IH|b h restored b' Hh _ IH]; intros Hw Hc Hsub; [done|..].
  - apply IH; [by eapply runtime_step_wf|by eapply covered_step|done].
  - apply IH.
    + by eapply broker_step_wf; [|by apply bs_restore].
    + apply covered_restore; [done|done|done|]. apply Hsub. by left.
    + intros x Hx. apply Hsub. by right.
Qed.

Lemma covered_self b r d held : CapabilityBroker_is_sealed b r d = true → handles b ⊆ held → covered held r d b.
Proof. intros Hs Hsub. split; [done|]. intros h Hh Hr Hd. exists h. eauto with expos. Qed.

Lemma handle_by_id_spec b i h :
  broker_wf b → handle_by_id b i = Some h ↔ h ∈ handles b ∧ fh_id h = i.
Proof.
  intros Hw. split; [apply handle_by_id_Some|]. intros [Hh <-]. by apply handle_by_id_elem.
Qed.

(** Adding a Handle leaves every other lookup alone. *)
Lemma added_lookup b b' h i :
  broker_wf b → broker_wf b' → added b b' h →
  handle_by_id b' i = if decide (i = fh_id h) then Some h else handle_by_id b i.
Proof.
  intros Hw Hw' (_ & _ & Hf & Hid). apply option_eq. intros x.
  rewrite handle_by_id_spec, (elem_of_fill_slot _ _ _ _ Hf) by done.
  destruct (decide _) as [->|Hne].
  - split; [|naive_solver]. intros [[->|Hx] E]; [done|].
    destruct Hid. rewrite <- E. by apply list_elem_of_fmap_2.
  - rewrite handle_by_id_spec by done. naive_solver.
Qed.

(** ** Properties *)

(** C1.  Delegation never amplifies.  In every state the broker can reach, a
    Handle traces back to a root Handle, and whatever it authorizes (target,
    Dimension, operation, tick) is authorized by each of its ancestors too:
    so revoking or expiring any ancestor disables it, and all of them belong
    to the broker's CFC. *)
Theorem handle_within_ancestors (b : CapabilityBroker) (id : Z) (target dimension : Fin)
    (operation : Operations) (tick : Z) :
  broker_reachable b →
  CapabilityBroker_authorize b id target dimension operation tick = Ok tt →
  (∃ root, root ∈ handles b ∧ fh_parent_id root = 0 ∧ descends (lineage b) id (fh_id root)) ∧
  ∀ ancestor, descends (lineage b) id ancestor →
    CapabilityBroker_authorize_in b (cap_cfc b) ancestor target dimension operation tick = Ok tt.
Proof.
  intros Hw%broker_reachable_wf (h & Hh & Hg)%authorize_spec.
  apply handle_by_id_Some in Hh as [Hh <-]. split; [by apply Hw|]. intros a Hd.
  destruct (descends_narrower b h a _ Hw Hh eq_refl Hd) as (p & Hp & <- & Hn).
  unfold CapabilityBroker_authorize_in. rewrite (handle_by_id_elem b p) by done.
  rewrite bool_decide_true, (hk_cfc _ _ (cw_ok _ Hw p Hp)), bool_decide_true by done. simpl.
  apply authorize_elem; eauto using grants_narrower.
Qed.

(** C5.  Revocation is exact and always terminates.  [revoke] on a known
    Handle returns, and afterwards a Handle is revoked exactly when it was
    before or descends from [id]; nothing else of the broker changes.  An
    unknown identifier is reported and changes nothing. *)
Theorem revoke_exact (b : CapabilityBroker) (id : Z) :
  broker_reachable b →
  ∃ b' r, CapabilityBroker_revoke b id = Some (b', r) ∧
    cap_seals b' = cap_seals b ∧ cap_next_id b' = cap_next_id b ∧ cap_cfc b' = cap_cfc b ∧
    match r with
    | Err e => e = CapNotFound ∧ handle_by_id b id = None ∧ b' = b
    | Ok _ => is_Some (handle_by_id b id) ∧
        Forall2 (option_Forall2 (λ h h',
          h' = h <| fh_revoked := fh_revoked h' |> ∧
          (fh_revoked h' = true ↔ fh_revoked h = true ∨ descends (lineage b) (fh_id h) id)))
          (cap_handles b) (cap_handles b')
    end.
Proof.
  intros Hw%broker_reachable_wf. destruct (revoke_spec b id Hw) as (b' & r & -> & _ & E & H).
  exists b', r. split; [done|]. rewrite E at 1 2 3. split_and!; [done..|].
  destruct r as [?|e].
  - destruct H as (Hid & Hrel & Hall). split; [by apply find_existsb, existsb_id|].
    assert (∀ h h', h' ∈ handles b' → revoked_from (lineage b) id h h' →
      h' = h <| fh_revoked := fh_revoked h' |> ∧
      (fh_revoked h' = true ↔ fh_revoked h = true ∨ descends (lineage b) (fh_id h) id)) as Hup.
    { intros h h' Hh' (Eh & H1 & H2). split; [done|]. split; [done|]. intros [?|Hd]; [auto|].
      apply Hall; [done|]. by rewrite Eh. }
    clear Hall E Hid. induction Hrel as [|o o' l l' Ho _ IH]; constructor; simpl in Hup.
    + destruct Ho; constructor. apply Hup; [by left|done].
    + apply IH. intros h h' Hh'. apply Hup. destruct o'; [by right|done].
  - destruct H as (-> & Hid & ->). split_and!; auto.
    apply find_elem_None. by apply existsb_elem_false, existsb_id_false.
Qed.

(** C13.  Revocation is permanent: once a Handle is revoked, it is refused as
    revoked in every later state, whatever is issued, delegated, sealed,
    revoked or restored afterwards. *)
Theorem revocation_permanent (b b' : CapabilityBroker) (h : FormHandle) (target dimension : Fin)
    (operation : Operations) (tick : Z) :
  broker_reachable b → rtc broker_step b b' →
  handle_by_id b (fh_id h) = Some h → fh_revoked h = true →
  CapabilityBroker_authorize b' (fh_id h) target dimension operation tick = Err CapRevoked.
Proof.
  intros Hw%broker_reachable_wf Hs [Hh _]%handle_by_id_Some Hr.
  destruct (broker_steps_wf b b' Hw Hs) as [Hw' He]. destruct (He h Hh) as (h' & Hh' & E & Hup).
  unfold CapabilityBroker_authorize. replace (fh_id h) with (fh_id h') by (by rewrite E).
  by rewrite (handle_by_id_elem b' h'), Hup by done.
Qed.

(** C6.  ExpSeal.  Once a requester is sealed in a Dimension, whatever issue, delegate,
    seal, revoke and restore calls follow, the access it has there is access it had at
    the moment of sealing, or access of a stored Handle of its own that one of the calls
    restored: nothing but a restored record adds to a sealed context. *)
Theorem seal_freezes_authority (b b' : CapabilityBroker) (requester target dimension : Fin)
    (operation : Operations) (tick : Z) (restored : list FormHandle) :
  broker_reachable b → CapabilityBroker_is_sealed b requester dimension = true →
  broker_run b restored b' →
  is_Some (CapabilityBroker_find_authorized b' requester target dimension operation tick) →
  is_Some (CapabilityBroker_find_authorized b requester target dimension operation tick) ∨
  ∃ h, h ∈ restored ∧ fh_requester h = requester ∧ grants h target dimension operation tick.
Proof.
  intros Hw%broker_reachable_wf Hseal Hs.
  assert (covered (handles b ++ restored) requester dimension b) as Hself
    by (apply covered_self; [done|]; intros h Hh; apply elem_of_app; by left).
  destruct (covered_run _ _ _ _ _ _ Hs Hw Hself) as [Hw' [_ Hc]]; [intros h Hh; apply elem_of_app; by right|].
  rewrite !find_authorized_spec by done. intros (h & Hh & Hr & Hg).
  destruct (Hc h Hh Hr) as (h0 & [Hb|Hin]%elem_of_app & ? & ?); [apply Hg|left|right];
    exists h0; eauto using grants_narrower.
Qed.

(** C12.  [issue_for] decides: it refuses a sealed context, then a request
    beyond the authority or with a zero identity, then a full table, and
    refusals change nothing; otherwise it always succeeds (identifier
    allocation cannot fail while a slot is free), with a fresh root Handle
    that authorizes its requester for exactly the granted operations until
    the granted tick, and leaves every other Handle as it was. *)
Theorem issue_for_decides (b : CapabilityBroker) (requester : Fin) (authority : Authority)
    (target dimension : Fin) (operations : Operations) (valid_until_tick : Z) :
  broker_reachable b →
  match CapabilityBroker_issue_for b requester authority target dimension operations
          valid_until_tick with
  | (b', Err e) =>
      b' = b ∧
      (e = CapSealed ∧ CapabilityBroker_is_sealed b requester dimension = true ∨
       e = CapDenied ∧
         (authority_permits authority operations = false ∨ operations = Ops_NONE ∨
          Fin_is_zero requester = true ∨ Fin_is_zero target = true ∨
          Fin_is_zero dimension = true) ∨
       e = CapFull ∧ length (handles b) = MAX_HANDLES)
  | (b', Ok h) =>
      CapabilityBroker_is_sealed b requester dimension = false ∧
      authority_permits authority operations = true ∧
      handle_by_id b (fh_id h) = None ∧ fh_parent_id h = 0 ∧
      (∀ i, handle_by_id b' i = if decide (i = fh_id h) then Some h else handle_by_id b i) ∧
      (∀ operation tick,
         CapabilityBroker_authorize_requester b' (fh_id h) requester target dimension
           operation tick = Ok tt ↔
         tick ≤ valid_until_tick ∧ Operations_contains operations operation = true)
  end.
Proof.
  intros Hw%broker_reachable_wf.
  pose proof (issue_for_spec b requester authority target dimension operations
    valid_until_tick Hw) as H.
  destruct (CapabilityBroker_issue_for _ _ _ _ _ _ _) as [b' [h|e]] eqn:E.
  - destruct H as (Hw' & Hadd & Hs & Hp & Eh).
    pose proof (added_lookup b b' h) as Hlook. pose proof Hadd as (_ & _ & _ & Hid).
    split_and!; auto; [|by rewrite Eh|].
    { apply find_elem_None. by apply existsb_elem_false, existsb_id_false. }
    intros o k. unfold CapabilityBroker_authorize_requester.
    rewrite let_ok. setoid_rewrite (Hlook (fh_id h) Hw Hw' Hadd).
    rewrite decide_True by done. rewrite Eh. simpl. rewrite bool_decide_true by done. simpl.
    split.
    + intros ([] & (x & Hx & Hg)%authorize_spec & _). rewrite Hlook in Hx by done.
      rewrite decide_True in Hx by done. injection Hx as <-. rewrite Eh in Hg.
      destruct Hg as (_ & ? & _ & _ & ?). done.
    + intros [Hk Hc]. exists tt. split; [|done]. apply authorize_spec. exists h.
      rewrite Hlook, decide_True by done. split; [done|]. rewrite Eh. done.
  - split; [done|]. unfold CapabilityBroker_issue_for in E.
    destruct (CapabilityBroker_is_sealed b requester dimension); [naive_solver|].
    destruct (_ || _) eqn:Hg; simplify_eq.
    { right; left. split; [done|]. rewrite !orb_true_iff, negb_true_iff, bool_decide_eq_true in Hg.
      tauto. }
    right; right. destruct (position slot_is_none (cap_handles b)) eqn:Hpos; simplify_eq.
    + pose proof (allocate_id_spec b Hw) as Ha.
      destruct (CapabilityBroker_allocate_id b) as [? [?|?]]; [simplify_eq|tauto].
    + split; [done|]. rewrite <- (cw_handles _ Hw).
      apply (fill_slot_None (cap_handles b) (MkHandle 0 0 (cap_cfc b) requester target dimension
        operations 0 false)). by rewrite position_fill_slot, Hpos.
Qed.

(** ** Witnesses

    A broker with a root Handle for requester 7 and a narrower one, delegated
    to requester 8, which is then sealed. *)

Definition demo_broker0 : CapabilityBroker :=
  MkBroker (CfcFin_from_u128 1) (empty_slots FormHandle MAX_HANDLES)
    (empty_slots ExpSeal MAX_SEALS) 1.
Definition demo_broker1 : CapabilityBroker :=
  (CapabilityBroker_issue_for demo_broker0 (Fin_from_u128 7) Operator (Fin_from_u128 5)
     (Fin_from_u128 6) (Operations_union Ops_READ Ops_EXECUTE) 100).1.
Definition demo_broker2 : CapabilityBroker :=
  (CapabilityBroker_delegate demo_broker1 1 (Fin_from_u128 8) Ops_READ 50 0).1.
Definition demo_broker3 : CapabilityBroker :=
  (CapabilityBroker_seal_context demo_broker2 (Fin_from_u128 8) (Fin_from_u128 6)).1.
(** The sealed requester narrows its own Handle further. *)
Definition demo_broker4 : CapabilityBroker :=
  (CapabilityBroker_delegate demo_broker3 2 (Fin_from_u128 8) Ops_READ 20 0).1.
Definition demo_broker5 : CapabilityBroker :=
  match CapabilityBroker_revoke demo_broker4 1 with Some (b, _) => b | None => demo_broker4 end.
Definition demo_handle2 : FormHandle :=
  MkHandle 2 1 (CfcFin_from_u128 1) (Fin_from_u128 8) (Fin_from_u128 5) (Fin_from_u128 6)
    Ops_READ 50 true.

Lemma demo_broker1_reachable : broker_reachable demo_broker1.
Proof.
  apply (br_step demo_broker0); [|apply bs_runtime, rs_issue].
  apply (br_new (CfcFin_from_u128 1)). vm_compute. reflexivity.
Qed.

Lemma demo_broker4_reachable : broker_reachable demo_broker4.
Proof.
  apply (br_step demo_broker3); [|apply bs_runtime, rs_delegate].
  apply (br_step demo_broker2); [|apply bs_runtime, rs_seal].
  apply (br_step demo_broker1); [apply demo_broker1_reachable|apply bs_runtime, rs_delegate].
Qed.

Lemma demo_broker5_reachable : broker_reachable demo_broker5.
Proof.
  apply (br_step demo_broker4); [apply demo_broker4_reachable|apply bs_runtime].
  apply (rs_revoke demo_broker4 1 demo_broker5 (Ok tt)). vm_compute. reflexivity.
Qed.

Lemma handle_within_ancestors_witness :
  CapabilityBroker_authorize_in demo_broker4 (CfcFin_from_u128 1) 1 (Fin_from_u128 5)
    (Fin_from_u128 6) Ops_READ 15 = Ok tt.
Proof.
  refine (proj2 (handle_within_ancestors demo_broker4 3 (Fin_from_u128 5) (Fin_from_u128 6)
    Ops_READ 15 demo_broker4_reachable _) 1 _).
  - vm_compute. reflexivity.
  - apply (descends_step _ 3 2); [vm_compute; right; right; left|done|].
    apply (descends_step _ 2 1); [vm_compute; right; left|done|]. apply descends_refl.
Defined.

Lemma revoke_exact_witness :
  ∃ b', CapabilityBroker_revoke demo_broker4 1 = Some (b', Ok tt) ∧
    cap_seals b' = cap_seals demo_broker4 ∧
    (fh_revoked <$> handles b') = [true; true; true].
Proof.
  destruct (revoke_exact demo_broker4 1 demo_broker4_reachable) as (b' & r & H & Hs & _).
  assert (CapabilityBroker_revoke demo_broker4 1 = Some (demo_broker5, Ok tt)) as E
    by (vm_compute; reflexivity).
  rewrite E in H. apply Some_pair_inj in H as [<- <-].
  exists demo_broker5. split; [exact E|]. split; [exact Hs|]. vm_compute. reflexivity.
Defined.

(** Issuing again after the revocation does not bring Handle 2 back. *)
Lemma revocation_permanent_witness :
  CapabilityBroker_authorize
    (CapabilityBroker_issue_for demo_broker5 (Fin_from_u128 7) Operator (Fin_from_u128 5)
       (Fin_from_u128 6) Ops_READ 100).1
    2 (Fin_from_u128 5) (Fin_from_u128 6) Ops_READ 0 = Err CapRevoked.
Proof.
  apply (revocation_permanent demo_broker5 _ demo_handle2).
  - apply demo_broker5_reachable.
  - apply rtc_once, bs_runtime, rs_issue.
  - vm_compute. reflexivity.
  - reflexivity.
Defined.

Lemma seal_freezes_authority_witness :
  is_Some (CapabilityBroker_find_authorized demo_broker4 (Fin_from_u128 8) (Fin_from_u128 5)
             (Fin_from_u128 6) Ops_READ 10) ∧
  is_Some (CapabilityBroker_find_authorized demo_broker3 (Fin_from_u128 8) (Fin_from_u128 5)
             (Fin_from_u128 6) Ops_READ 10).
Proof.
  assert (is_Some (CapabilityBroker_find_authorized demo_broker4 (Fin_from_u128 8)
    (Fin_from_u128 5) (Fin_from_u128 6) Ops_READ 10)) as H by (vm_compute; eexists; reflexivity).
  split; [exact H|]. destruct (seal_freezes_authority demo_broker3 demo_broker4 (Fin_from_u128 8) (Fin_from_u128 5)
    (Fin_from_u128 6) Ops_READ 10 []) as [Hb|(h & Hh & _)].
  - apply (br_step demo_broker2); [|apply bs_runtime, rs_seal].
    apply (br_step demo_broker1); [apply demo_broker1_reachable|apply bs_runtime, rs_delegate].
  - vm_compute. reflexivity.
  - eapply run_call; [apply rs_delegate|apply run_done].
  - exact H.
  - exact Hb.
  - by apply elem_of_nil in Hh.
Defined.

Lemma issue_for_decides_witness :
  ∃ b' h,
    CapabilityBroker_issue_for demo_broker4 (Fin_from_u128 9) Guest (Fin_from_u128 5)
      (Fin_from_u128 6) Ops_READ 30 = (b', Ok h) ∧
    CapabilityBroker_authorize_requester b' (fh_id h) (Fin_from_u128 9) (Fin_from_u128 5)
      (Fin_from_u128 6) Ops_READ 30 = Ok tt.
Proof.
  pose proof (issue_for_decides demo_broker4 (Fin_from_u128 9) Guest (Fin_from_u128 5)
    (Fin_from_u128 6) Ops_READ 30 demo_broker4_reachable) as H.
  destruct (CapabilityBroker_issue_for demo_broker4 (Fin_from_u128 9) Guest (Fin_from_u128 5)
    (Fin_from_u128 6) Ops_READ 30) as [b' [h|e]] eqn:E.
  - exists b', h. split; [reflexivity|]. apply H. split; [lia|]. vm_compute. reflexivity.
  - exfalso. vm_compute in E. discriminate E.
Defined.
