(* ===== verification/Context.v ===== *)
(** * Execution contexts

    The per-Form execution state of crates/expos-core/src/execution.rs
    (lines 9-392): identity, address space, attached Handles, the bounded
    event and message rings, the heap window and the budget that pays for
    messages.  The scheduler that owns the contexts is in Scheduler.v. *)

From stdpp Require Import prelude list.
From Stdlib Require Import ZArith Lia.
From S2P Require Import Prelude Identity Budget Capability.

Set Default Goal Selector "!".
Open Scope Z_scope.
Open Scope expos_scope.

(** ** Data *)

Definition MAX_CONTEXT_HANDLES : nat := 16.
Definition MAX_CONTEXT_EVENTS : nat := 16.
Definition MAX_CONTEXT_MESSAGES : nat := 8.
Definition IPC_INLINE_BYTES : nat := 64.
Arguments MAX_CONTEXT_EVENTS : simpl never.
Arguments MAX_CONTEXT_MESSAGES : simpl never.

Record ExecutionIdentity := MkIdentity { ei_cfc : CfcFin; ei_dimension : Fin; ei_form : Fin }.

#[export] Instance ExecutionIdentity_eq_dec : EqDecision ExecutionIdentity.
Proof. solve_decision. Defined.

Definition ExecutionIdentity_is_valid (self : ExecutionIdentity) : bool :=
  negb (CfcFin_is_zero (ei_cfc self)) && negb (Fin_is_zero (ei_dimension self)) &&
  negb (Fin_is_zero (ei_form self)).

Record AddressSpace := MkAddressSpace { as_root : Z; as_lower : Z; as_upper : Z }.

#[export] Instance AddressSpace_eq_dec : EqDecision AddressSpace.
Proof. solve_decision. Defined.

Definition AddressSpace_kernel_bootstrap : AddressSpace := MkAddressSpace 0 0 u64_max.
Definition AddressSpace_confined (root lower_bound upper_bound : Z) : option AddressSpace :=
  if (root =? 0) || (upper_bound <=? lower_bound) then None
  else Some (MkAddressSpace root lower_bound upper_bound).

Record CpuState := MkCpu { cpu_ip : Z; cpu_sp : Z; cpu_flags : Z; cpu_accumulator : Z }.

#[export] Instance CpuState_eq_dec : EqDecision CpuState.
Proof. solve_decision. Defined.

Definition CpuState_default : CpuState := MkCpu 0 0 0 0.

Definition CpuState_eta (c : CpuState) : CpuState :=
  MkCpu (cpu_ip c) (cpu_sp c) (cpu_flags c) (cpu_accumulator c).
#[export] Instance set_cpu_accumulator : Setter cpu_accumulator := ltac:(build_setter CpuState_eta).

Record ExecutionEvent := MkEvent { ev_source : Fin; ev_code : Z; ev_value : Z }.

#[export] Instance ExecutionEvent_eq_dec : EqDecision ExecutionEvent.
Proof. solve_decision. Defined.

(** [bytes] is the array of 64; [len] its used prefix, a [u8]. *)
Record IpcMessage := MkMessage {
  im_source : Fin; im_correlation : Z; im_stream_id : Z; im_len : Z; im_bytes : list Z }.

#[export] Instance IpcMessage_eq_dec : EqDecision IpcMessage.
Proof. solve_decision. Defined.

Inductive ExecutionError :=
  | ExInvalidIdentity | ExInvalidAddressSpace | ExDuplicateContext | ExContextTableFull
  | ExUnknownContext | ExHandleSetFull | ExDuplicateHandle | ExForeignHandle
  | ExEventQueueFull | ExMessageQueueFull | ExInvalidMessage | ExHeapLimit
  | ExBudgetDenied | ExNotRunnable.

#[export] Instance ExecutionError_eq_dec : EqDecision ExecutionError.
Proof. solve_decision. Defined.

Definition IpcMessage_new (source : Fin) (correlation stream_id : Z) (bytes : list Z)
    : result IpcMessage ExecutionError :=
  if Fin_is_zero source || (IPC_INLINE_BYTES <? length bytes)%nat then Err ExInvalidMessage
  else Ok (MkMessage source correlation stream_id (Zlength bytes)
             (bytes ++ replicate (IPC_INLINE_BYTES - length bytes) 0)).

Definition IpcMessage_payload (self : IpcMessage) : list Z :=
  take (Z.to_nat (im_len self)) (im_bytes self).

Record ContextHeap := MkHeap {
  heap_base : Z; heap_reserved : Z; heap_committed : Z; heap_guard : Z }.

#[export] Instance ContextHeap_eq_dec : EqDecision ContextHeap.
Proof. solve_decision. Defined.

Definition ContextHeap_new (base reserved_pages : Z) : option ContextHeap :=
  if (base =? 0) || negb (base mod 4096 =? 0) || (reserved_pages =? 0) then None
  else Some (MkHeap base reserved_pages 0 1).

Definition ContextHeap_eta (h : ContextHeap) : ContextHeap :=
  MkHeap (heap_base h) (heap_reserved h) (heap_committed h) (heap_guard h).
#[export] Instance set_heap_committed : Setter heap_committed :=
  ltac:(build_setter ContextHeap_eta).

Definition ContextHeap_grow (self : ContextHeap) (pages : Z)
    : ContextHeap * result Z ExecutionError :=
  match checked_add u32_max (heap_committed self) pages with
  | Some next =>
      if next <=? heap_reserved self then (self <| heap_committed := next |>, Ok next)
      else (self, Err ExHeapLimit)
  | None => (self, Err ExHeapLimit)
  end.

Inductive ExecutionState :=
  | Ready | Running | Paused | Waiting | BudgetBlocked | Exited | Terminated.

#[export] Instance ExecutionState_eq_dec : EqDecision ExecutionState.
Proof. solve_decision. Defined.

Inductive ExecutionRuntime := KernelNative | ExpPython | NativeForm.

#[export] Instance ExecutionRuntime_eq_dec : EqDecision ExecutionRuntime.
Proof. solve_decision. Defined.

Record ExecutionContext := MkContext {
  ctx_id : Z;
  ctx_identity : ExecutionIdentity;
  ctx_address_space : AddressSpace;
  ctx_handles : slots FormHandle;
  ctx_events : slots ExecutionEvent;
  ctx_event_head : nat;
  ctx_event_len : nat;
  ctx_messages : slots IpcMessage;
  ctx_message_head : nat;
  ctx_message_len : nat;
  ctx_heap : option ContextHeap;
  ctx_budget : ExpBudget ExecutionIdentity;
  ctx_cpu : CpuState;
  ctx_runtime : ExecutionRuntime;
  ctx_state : ExecutionState;
  ctx_dispatches : Z;
  ctx_preemptions : Z;
  ctx_cpu_ticks : Z }.

#[export] Instance ExecutionContext_eq_dec : EqDecision ExecutionContext.
Proof. solve_decision. Defined.

Definition Context_eta (c : ExecutionContext) : ExecutionContext :=
  MkContext (ctx_id c) (ctx_identity c) (ctx_address_space c) (ctx_handles c) (ctx_events c)
    (ctx_event_head c) (ctx_event_len c) (ctx_messages c) (ctx_message_head c)
    (ctx_message_len c) (ctx_heap c) (ctx_budget c) (ctx_cpu c) (ctx_runtime c) (ctx_state c)
    (ctx_dispatches c) (ctx_preemptions c) (ctx_cpu_ticks c).
#[export] Instance set_ctx_id : Setter ctx_id := ltac:(build_setter Context_eta).
#[export] Instance set_ctx_handles : Setter ctx_handles := ltac:(build_setter Context_eta).
#[export] Instance set_ctx_events : Setter ctx_events := ltac:(build_setter Context_eta).
#[export] Instance set_ctx_event_head : Setter ctx_event_head := ltac:(build_setter Context_eta).
#[export] Instance set_ctx_event_len : Setter ctx_event_len := ltac:(build_setter Context_eta).
#[export] Instance set_ctx_messages : Setter ctx_messages := ltac:(build_setter Context_eta).
#[export] Instance set_ctx_message_head : Setter ctx_message_head :=
  ltac:(build_setter Context_eta).
#[export] Instance set_ctx_message_len : Setter ctx_message_len := ltac:(build_setter Context_eta).
#[export] Instance set_ctx_heap : Setter ctx_heap := ltac:(build_setter Context_eta).
#[export] Instance set_ctx_budget : Setter ctx_budget := ltac:(build_setter Context_eta).
#[export] Instance set_ctx_cpu : Setter ctx_cpu := ltac:(build_setter Context_eta).
#[export] Instance set_ctx_runtime : Setter ctx_runtime := ltac:(build_setter Context_eta).
#[export] Instance set_ctx_state : Setter ctx_state := ltac:(build_setter Context_eta).
#[export] Instance set_ctx_dispatches : Setter ctx_dispatches := ltac:(build_setter Context_eta).
#[export] Instance set_ctx_preemptions : Setter ctx_preemptions := ltac:(build_setter Context_eta).
#[export] Instance set_ctx_cpu_ticks : Setter ctx_cpu_ticks := ltac:(build_setter Context_eta).

(** ** Operations *)

Definition ExecutionContext_new (identity : ExecutionIdentity) (address_space : AddressSpace)
    (budget_ceiling : Z) : result ExecutionContext ExecutionError :=
  if negb (ExecutionIdentity_is_valid identity) then Err ExInvalidIdentity
  else if negb (as_root address_space =? 0) &&
          (as_upper address_space <=? as_lower address_space)
  then Err ExInvalidAddressSpace
  else Ok (MkContext 0 identity address_space
             (empty_slots FormHandle MAX_CONTEXT_HANDLES)
             (empty_slots ExecutionEvent MAX_CONTEXT_EVENTS) 0 0
             (empty_slots IpcMessage MAX_CONTEXT_MESSAGES) 0 0
             None (ExpBudget_uniform identity budget_ceiling) CpuState_default KernelNative
             Ready 0 0 0).

Definition ExecutionContext_attach_handle (self : ExecutionContext) (handle : FormHandle)
    : ExecutionContext * result unit ExecutionError :=
  if (fh_cfc handle !=? ei_cfc (ctx_identity self)) ||
     (fh_dimension handle !=? ei_dimension (ctx_identity self)) ||
     ((fh_requester handle !=? ei_form (ctx_identity self)) &&
      (fh_target handle !=? ei_form (ctx_identity self)))
  then (self, Err ExForeignHandle)
  else if existsb (λ item, fh_id item ==? fh_id handle) (flatten (ctx_handles self))
  then (self, Err ExDuplicateHandle)
  else match fill_slot handle (ctx_handles self) with
       | None => (self, Err ExHandleSetFull)
       | Some l => (self <| ctx_handles := l |>, Ok tt)
       end.

Definition ExecutionContext_push_event (self : ExecutionContext) (event : ExecutionEvent)
    : ExecutionContext * result unit ExecutionError :=
  if (ctx_event_len self =? MAX_CONTEXT_EVENTS)%nat then (self, Err ExEventQueueFull)
  else
    let slot := ((ctx_event_head self + ctx_event_len self) mod MAX_CONTEXT_EVENTS)%nat in
    (self <| ctx_events := <[slot := Some event]> (ctx_events self) |>
          <| ctx_event_len := (ctx_event_len self + 1)%nat |>, Ok tt).

(** [self.events[slot].take()] *)
Definition ExecutionContext_pop_event (self : ExecutionContext)
    : ExecutionContext * option ExecutionEvent :=
  if (ctx_event_len self =? 0)%nat then (self, None)
  else
    let slot := ctx_event_head self in
    let event := mjoin (ctx_events self !! slot) in
    (self <| ctx_events := <[slot := None]> (ctx_events self) |>
          <| ctx_event_head := ((slot + 1) mod MAX_CONTEXT_EVENTS)%nat |>
          <| ctx_event_len := (ctx_event_len self - 1)%nat |>, event).

Definition ExecutionContext_push_message (self : ExecutionContext) (message : IpcMessage)
    : ExecutionContext * result unit ExecutionError :=
  if (ctx_message_len self =? MAX_CONTEXT_MESSAGES)%nat then (self, Err ExMessageQueueFull)
  else
    let (budget, charged) := ExpBudget_charge (ctx_budget self) IpcMessages 1 in
    if negb (is_ok charged) then (self <| ctx_budget := budget |>, Err ExBudgetDenied)
    else
    let (budget, charged) := ExpBudget_charge budget IpcBytes (im_len message) in
    if negb (is_ok charged) then
      (self <| ctx_budget := (ExpBudget_release budget IpcMessages 1).1 |>, Err ExBudgetDenied)
    else
    let slot := ((ctx_message_head self + ctx_message_len self) mod MAX_CONTEXT_MESSAGES)%nat in
    (self <| ctx_budget := budget |>
          <| ctx_messages := <[slot := Some message]> (ctx_messages self) |>
          <| ctx_message_len := (ctx_message_len self + 1)%nat |>, Ok tt).

(** [take()?] returns early when the slot is empty. *)
Definition ExecutionContext_pop_message (self : ExecutionContext)
    : ExecutionContext * option IpcMessage :=
  if (ctx_message_len self =? 0)%nat then (self, None)
  else
    let slot := ctx_message_head self in
    let taken := self <| ctx_messages := <[slot := None]> (ctx_messages self) |> in
    match mjoin (ctx_messages self !! slot) with
    | None => (taken, None)
    | Some message =>
        let budget := (ExpBudget_release (ctx_budget self) IpcMessages 1).1 in
        let budget := (ExpBudget_release budget IpcBytes (im_len message)).1 in
        (taken <| ctx_message_head := ((slot + 1) mod MAX_CONTEXT_MESSAGES)%nat |>
               <| ctx_message_len := (ctx_message_len self - 1)%nat |>
               <| ctx_budget := budget |>, Some message)
    end.

Definition ExecutionContext_set_cpu_state (self : ExecutionContext) (cpu : CpuState) :=
  self <| ctx_cpu := cpu |>.
Definition ExecutionContext_set_runtime (self : ExecutionContext) (runtime : ExecutionRuntime) :=
  self <| ctx_runtime := runtime |>.
Definition ExecutionContext_configure_heap (self : ExecutionContext) (heap : ContextHeap) :=
  self <| ctx_heap := Some heap |>.

(** ** Specification

    A context promises two bounded FIFO queues.  [QueueSpec] is that promise:
    plain lists, the two capacities and the soft limits that meter the
    message queue. *)

Record QueueSpec := MkQueueSpec {
  qs_events : list ExecutionEvent;
  qs_messages : list IpcMessage;
  qs_message_limit : Z;
  qs_byte_limit : Z }.

Definition message_bytes (q : list IpcMessage) : Z := Zsum (im_len <$> q).

Inductive ctx_op :=
  | CtxPushEvent (event : ExecutionEvent)
  | CtxPopEvent
  | CtxPushMessage (message : IpcMessage)
  | CtxPopMessage
  | CtxAttachHandle (handle : FormHandle)
  | CtxSetCpu (cpu : CpuState)
  | CtxSetRuntime (runtime : ExecutionRuntime)
  | CtxConfigureHeap (heap : ContextHeap)
  | CtxBudget (op : budget_op).

(** What a caller sees of the queues. *)
Inductive ctx_outcome :=
  | OutPush (r : result unit ExecutionError)
  | OutEvent (event : option ExecutionEvent)
  | OutMessage (message : option IpcMessage)
  | OutOther.

Definition ctx_step (c : ExecutionContext) (op : ctx_op) : ExecutionContext * ctx_outcome :=
  match op with
  | CtxPushEvent e => let (c, r) := ExecutionContext_push_event c e in (c, OutPush r)
  | CtxPopEvent => let (c, e) := ExecutionContext_pop_event c in (c, OutEvent e)
  | CtxPushMessage m => let (c, r) := ExecutionContext_push_message c m in (c, OutPush r)
  | CtxPopMessage => let (c, m) := ExecutionContext_pop_message c in (c, OutMessage m)
  | CtxAttachHandle h => ((ExecutionContext_attach_handle c h).1, OutOther)
  | CtxSetCpu cpu => (ExecutionContext_set_cpu_state c cpu, OutOther)
  | CtxSetRuntime r => (ExecutionContext_set_runtime c r, OutOther)
  | CtxConfigureHeap h => (ExecutionContext_configure_heap c h, OutOther)
  | CtxBudget op => (c <| ctx_budget := budget_step (ctx_budget c) op |>, OutOther)
  end.

Definition spec_step (s : QueueSpec) (op : ctx_op) : QueueSpec * ctx_outcome :=
  match op with
  | CtxPushEvent e =>
      if (length (qs_events s) <? MAX_CONTEXT_EVENTS)%nat
      then (MkQueueSpec (qs_events s ++ [e]) (qs_messages s) (qs_message_limit s)
              (qs_byte_limit s), OutPush (Ok tt))
      else (s, OutPush (Err ExEventQueueFull))
  | CtxPopEvent =>
      match qs_events s with
      | [] => (s, OutEvent None)
      | e :: q => (MkQueueSpec q (qs_messages s) (qs_message_limit s) (qs_byte_limit s),
                   OutEvent (Some e))
      end
  | CtxPushMessage m =>
      if (MAX_CONTEXT_MESSAGES <=? length (qs_messages s))%nat
      then (s, OutPush (Err ExMessageQueueFull))
      else if (Zlength (qs_messages s) + 1 <=? qs_message_limit s) &&
              (message_bytes (qs_messages s) + im_len m <=? qs_byte_limit s)
      then (MkQueueSpec (qs_events s) (qs_messages s ++ [m]) (qs_message_limit s)
              (qs_byte_limit s), OutPush (Ok tt))
      else (s, OutPush (Err ExBudgetDenied))
  | CtxPopMessage =>
      match qs_messages s with
      | [] => (s, OutMessage None)
      | m :: q => (MkQueueSpec (qs_events s) q (qs_message_limit s) (qs_byte_limit s),
                   OutMessage (Some m))
      end
  | _ => (s, OutOther)
  end.

Fixpoint ctx_run (c : ExecutionContext) (ops : list ctx_op)
    : ExecutionContext * list ctx_outcome :=
  match ops with
  | [] => (c, [])
  | op :: ops' => let (c, o) := ctx_step c op in
                  let (c, os) := ctx_run c ops' in (c, o :: os)
  end.

Fixpoint spec_run (s : QueueSpec) (ops : list ctx_op) : QueueSpec * list ctx_outcome :=
  match ops with
  | [] => (s, [])
  | op :: ops' => let (s, o) := spec_step s op in
                  let (s, os) := spec_run s ops' in (s, o :: os)
  end.

Definition budget_op_kind (op : budget_op) : ResourceKind :=
  match op with OpCharge k _ | OpRelease k _ | OpConfigure k _ _ => k end.

(** Operands at their width; the owner of the context leaves the two IPC
    accounts to the context. *)
Definition ctx_op_ok (op : ctx_op) : Prop :=
  match op with
  | CtxPushMessage m => 0 ≤ im_len m ≤ u8_max
  | CtxBudget op => op_u64 op ∧ budget_op_kind op ≠ IpcMessages ∧ budget_op_kind op ≠ IpcBytes
  | _ => True
  end.

Record ctx_rel (c : ExecutionContext) (s : QueueSpec) : Prop := {
  cr_events : ring_rep (ctx_events c) (ctx_event_head c) (qs_events s);
  cr_event_size : length (ctx_events c) = MAX_CONTEXT_EVENTS;
  cr_event_len : ctx_event_len c = length (qs_events s);
  cr_messages : ring_rep (ctx_messages c) (ctx_message_head c) (qs_messages s);
  cr_message_size : length (ctx_messages c) = MAX_CONTEXT_MESSAGES;
  cr_message_len : ctx_message_len c = length (qs_messages s);
  cr_widths : Forall (λ m, 0 ≤ im_len m ≤ u8_max) (qs_messages s);
  cr_budget : budget_wf (ctx_budget c);
  cr_used_messages :
    acc_used (ExpBudget_account (ctx_budget c) IpcMessages) = Zlength (qs_messages s);
  cr_used_bytes :
    acc_used (ExpBudget_account (ctx_budget c) IpcBytes) = message_bytes (qs_messages s);
  cr_message_limit :
    acc_soft (ExpBudget_account (ctx_budget c) IpcMessages) = qs_message_limit s;
  cr_byte_limit : acc_soft (ExpBudget_account (ctx_budget c) IpcBytes) = qs_byte_limit s }.

(** ** Lemmas *)

Lemma message_bytes_app q m : message_bytes (q ++ [m]) = message_bytes q + im_len m.
Proof.
  unfold message_bytes. rewrite fmap_app. induction (im_len <$> q) as [|x l IH]; simpl in *; lia.
Qed.

Lemma message_bytes_nonneg q : Forall (λ m, 0 ≤ im_len m ≤ u8_max) q → 0 ≤ message_bytes q.
Proof. unfold message_bytes. induction 1; csimpl; lia. Qed.

Lemma push_event_sim c s e :
  ctx_rel c s →
  let (c', o) := ctx_step c (CtxPushEvent e) in
  let (s', o') := spec_step s (CtxPushEvent e) in ctx_rel c' s' ∧ o = o'.
Proof.
  intros Hr. pose proof Hr as []. simpl. unfold ExecutionContext_push_event.
  pose proof cr_events0 as (_ & Hle & _). rewrite cr_event_size0 in Hle.
  rewrite cr_event_len0.
  destruct (Nat.eqb_spec (length (qs_events s)) MAX_CONTEXT_EVENTS) as [E|E].
  - rewrite (proj2 (Nat.ltb_ge _ _)) by lia. done.
  - rewrite (proj2 (Nat.ltb_lt _ _)) by lia. split; [|done].
    split; simpl; auto; try (rewrite length_app; simpl; lia); rewrite ?length_insert; auto.
    rewrite <- cr_event_size0. apply ring_rep_push; [done|lia].
Qed.

Lemma pop_event_sim c s :
  ctx_rel c s →
  let (c', o) := ctx_step c CtxPopEvent in
  let (s', o') := spec_step s CtxPopEvent in ctx_rel c' s' ∧ o = o'.
Proof.
  intros Hr. pose proof Hr as []. simpl. unfold ExecutionContext_pop_event.
  rewrite cr_event_len0. destruct (qs_events s) as [|e q] eqn:E; simpl; [done|].
  rewrite (ring_rep_head _ _ _ cr_events0). simpl. split; [|done].
  split; simpl; auto; rewrite ?length_insert; auto; [|lia].
  rewrite <- cr_event_size0. by apply (ring_rep_pop _ _ e).
Qed.

(** The two IPC accounts: their use and their soft limits. *)
Record ipc_accounts (b : ExpBudget ExecutionIdentity) (n y ml bl : Z) : Prop := {
  ia_wf : budget_wf b;
  ia_messages : acc_used (ExpBudget_account b IpcMessages) = n;
  ia_bytes : acc_used (ExpBudget_account b IpcBytes) = y;
  ia_message_limit : acc_soft (ExpBudget_account b IpcMessages) = ml;
  ia_byte_limit : acc_soft (ExpBudget_account b IpcBytes) = bl }.

(** Operations that leave limits alone move the accounts by what they book. *)
Lemma ipc_step b n y ml bl op :
  ipc_accounts b n y ml bl → op_u64 op →
  (∀ k, limits (ExpBudget_account (budget_step b op) k) = limits (ExpBudget_account b k)) →
  ipc_accounts (budget_step b op) (n + booked b op IpcMessages) (y + booked b op IpcBytes) ml bl.
Proof.
  intros [Hw <- <- <- <-] Hop Hl. destruct (budget_step_spec b op Hw Hop) as [Hw' Hs].
  pose proof (Hl IpcMessages) as H1. pose proof (Hl IpcBytes) as H2. unfold limits in H1, H2.
  split; [done|apply Hs|apply Hs|congruence|congruence].
Qed.

Lemma ipc_charge b n y ml bl kind amount :
  ipc_accounts b n y ml bl → u64 amount →
  ipc_accounts (ExpBudget_charge b kind amount).1
    (n + booked b (OpCharge kind amount) IpcMessages)
    (y + booked b (OpCharge kind amount) IpcBytes) ml bl.
Proof.
  intros Ha Hu. apply (ipc_step b n y ml bl (OpCharge kind amount) Ha Hu).
  intros k. apply charge_limits, Ha.
Qed.

Lemma ipc_release b n y ml bl kind amount :
  ipc_accounts b n y ml bl → u64 amount →
  ipc_accounts (ExpBudget_release b kind amount).1
    (n + booked b (OpRelease kind amount) IpcMessages)
    (y + booked b (OpRelease kind amount) IpcBytes) ml bl.
Proof.
  intros Ha Hu. apply (ipc_step b n y ml bl (OpRelease kind amount) Ha Hu).
  intros k. apply release_limits, Ha.
Qed.

Lemma u64_1 : u64 1.
Proof. by vm_compute. Qed.
Lemma u64_u8 z : 0 ≤ z ≤ u8_max → u64 z.
Proof. unfold u64, u8_max, u64_max. lia. Qed.
#[export] Hint Resolve u64_1 u64_u8 : expos.

(** Paying for one message, with the refund of the first charge when the
    second is refused. *)
Lemma ipc_pay b n y ml bl len :
  ipc_accounts b n y ml bl → 0 ≤ n → u64 len →
  let (b1, r1) := ExpBudget_charge b IpcMessages 1 in
  let (b2, r2) := ExpBudget_charge b1 IpcBytes len in
  is_ok r1 = (n + 1 <=? ml) ∧
  (is_ok r1 = false → ipc_accounts b1 n y ml bl) ∧
  (is_ok r1 = true → is_ok r2 = (y + len <=? bl) ∧
    if is_ok r2 then ipc_accounts b2 (n + 1) (y + len) ml bl
    else ipc_accounts (ExpBudget_release b2 IpcMessages 1).1 n y ml bl).
Proof.
  intros Ha Hn Hu. pose proof (charge_ok b IpcMessages 1 (ia_wf _ _ _ _ _ Ha) u64_1) as O1.
  pose proof (ipc_charge _ _ _ _ _ IpcMessages 1 Ha u64_1) as A1. simpl in A1.
  rewrite (ia_messages _ _ _ _ _ Ha), (ia_message_limit _ _ _ _ _ Ha) in O1.
  destruct (ExpBudget_charge b IpcMessages 1) as [b1 r1]. simpl in *.
  pose proof (charge_ok b1 IpcBytes len (ia_wf _ _ _ _ _ A1) Hu) as O2.
  pose proof (ipc_charge _ _ _ _ _ IpcBytes len A1 Hu) as A2. simpl in A2.
  rewrite (ia_bytes _ _ _ _ _ A1), (ia_byte_limit _ _ _ _ _ A1) in O2.
  destruct (ExpBudget_charge b1 IpcBytes len) as [b2 r2]. simpl in *.
  split; [done|]. rewrite !Z.add_0_r in *. split; intros Hr1; rewrite Hr1 in *.
  { by rewrite Z.add_0_r in A1. }
  split; [done|]. destruct (is_ok r2); [done|].
  pose proof (ipc_release _ _ _ _ _ IpcMessages 1 A2 u64_1) as A3. simpl in A3.
  rewrite release_ok in A3 by (eauto with expos; apply A2).
  rewrite (ia_messages _ _ _ _ _ A2), (proj2 (Z.leb_le _ _)), !Z.add_0_r in A3 by lia.
  by replace (n + 1 + Z.opp 1) with n in A3 by lia.
Qed.

Lemma ctx_rel_accounts c s :
  ctx_rel c s →
  ipc_accounts (ctx_budget c) (Zlength (qs_messages s)) (message_bytes (qs_messages s))
    (qs_message_limit s) (qs_byte_limit s).
Proof. intros []. by split. Qed.

(** A new budget for a context whose queues do not change. *)
Lemma ctx_rel_budget c s b :
  ctx_rel c s →
  ipc_accounts b (Zlength (qs_messages s)) (message_bytes (qs_messages s))
    (qs_message_limit s) (qs_byte_limit s) →
  ctx_rel (c <| ctx_budget := b |>) s.
Proof. intros [] []. by split. Qed.

Lemma push_message_sim c s m :
  ctx_rel c s → 0 ≤ im_len m ≤ u8_max →
  let (c', o) := ctx_step c (CtxPushMessage m) in
  let (s', o') := spec_step s (CtxPushMessage m) in ctx_rel c' s' ∧ o = o'.
Proof.
  intros Hr Hm. pose proof Hr as []. cbn [ctx_step spec_step].
  unfold ExecutionContext_push_message.
  pose proof cr_messages0 as (_ & Hle & _). rewrite cr_message_size0 in Hle.
  rewrite cr_message_len0.
  destruct (Nat.eqb_spec (length (qs_messages s)) MAX_CONTEXT_MESSAGES) as [E|E].
  { by rewrite (proj2 (Nat.leb_le _ _)) by lia. }
  rewrite (proj2 (Nat.leb_gt _ _)) by lia.
  pose proof (ipc_pay _ _ _ _ _ (im_len m) (ctx_rel_accounts c s Hr)) as Hp.
  destruct (ExpBudget_charge (ctx_budget c) IpcMessages 1) as [b1 r1].
  destruct (ExpBudget_charge b1 IpcBytes (im_len m)) as [b2 r2].
  destruct Hp as (<- & H1 & H2); [unfold Zlength; lia|by apply u64_u8|].
  destruct (is_ok r1); simpl; [|auto using ctx_rel_budget].
  destruct (H2 eq_refl) as [<- H3]. destruct (is_ok r2); simpl; [|auto using ctx_rel_budget].
  split; [|done]. destruct H3. split; simpl; auto; rewrite ?length_insert; auto.
  - rewrite <- cr_message_size0. apply ring_rep_push; [done|lia].
  - rewrite length_app. simpl. lia.
  - apply Forall_app. auto.
  - unfold Zlength in *. rewrite length_app. simpl. lia.
  - by rewrite message_bytes_app.
Qed.

Lemma pop_message_sim c s :
  ctx_rel c s →
  let (c', o) := ctx_step c CtxPopMessage in
  let (s', o') := spec_step s CtxPopMessage in ctx_rel c' s' ∧ o = o'.
Proof.
  intros Hr. pose proof (ctx_rel_accounts c s Hr) as Ha. pose proof Hr as []. simpl.
  unfold ExecutionContext_pop_message. rewrite cr_message_len0.
  destruct (qs_messages s) as [|m q] eqn:E; simpl; [done|].
  rewrite (ring_rep_head _ _ _ cr_messages0). simpl. split; [|done].
  apply Forall_cons in cr_widths0 as [Hm Hq]. apply message_bytes_nonneg in Hq as Hq0.
  assert (Zlength (m :: q) = 1 + Zlength q) as El by (unfold Zlength; simpl; lia).
  assert (message_bytes (m :: q) = im_len m + message_bytes q) as Eb by done.
  pose proof (ipc_release _ _ _ _ _ IpcMessages 1 Ha u64_1) as A1. simpl in A1.
  rewrite release_ok in A1 by (eauto with expos; apply Ha).
  rewrite cr_used_messages0, (proj2 (Z.leb_le _ _)) in A1 by (unfold Zlength in *; lia).
  pose proof (ipc_release _ _ _ _ _ IpcBytes (im_len m) A1 (u64_u8 _ Hm)) as A2. simpl in A2.
  rewrite release_ok in A2 by (eauto with expos; apply A1).
  rewrite (ia_bytes _ _ _ _ _ A1), (proj2 (Z.leb_le _ _)) in A2 by lia.
  destruct A2. split; simpl; auto; rewrite ?length_insert; auto; try lia.
  rewrite <- cr_message_size0. by apply (ring_rep_pop _ _ m).
Qed.

(** Operations on other accounts do not reach the IPC ones. *)
Lemma budget_step_other (b : ExpBudget ExecutionIdentity) op k :
  budget_wf b → op_u64 op → budget_op_kind op ≠ k →
  ExpBudget_account (budget_step b op) k = ExpBudget_account b k.
Proof.
  intros [Hl _] _ Hk. destruct op as [k' n|k' n|k' s h]; simpl in *.
  - unfold ExpBudget_charge.
    destruct (checked_add _ _ _); [destruct (_ >? _)|]; simpl; rewrite account_put by done;
      by rewrite bool_decide_false.
  - unfold ExpBudget_release. destruct (checked_sub _ _); simpl; [|done].
    rewrite account_put by done. by rewrite bool_decide_false.
  - unfold ExpBudget_configure. destruct (_ || _); simpl; [done|].
    rewrite account_put by done. by rewrite bool_decide_false.
Qed.

Lemma ctx_step_sim c s op :
  ctx_rel c s → ctx_op_ok op →
  let (c', o) := ctx_step c op in
  let (s', o') := spec_step s op in ctx_rel c' s' ∧ o = o'.
Proof.
  intros Hr Hop. destruct op; [by apply push_event_sim|by apply pop_event_sim|
    by apply push_message_sim|by apply pop_message_sim|..]; cbn [ctx_step spec_step].
  - split; [|done]. unfold ExecutionContext_attach_handle.
    destruct (_ || _); [done|]. destruct (existsb _ _); [done|].
    destruct (fill_slot _ _); [|done]. destruct Hr. by split.
  - split; [|done]. destruct Hr. by split.
  - split; [|done]. destruct Hr. by split.
  - split; [|done]. destruct Hr. by split.
  - split; [|done]. destruct Hop as (Hu & H1 & H2). apply ctx_rel_budget; [done|].
    pose proof (ctx_rel_accounts c s Hr) as [Hw A1 A2 A3 A4].
    split; rewrite ?budget_step_other by done; try done. by apply budget_step_spec.
Qed.

Lemma ctx_run_sim ops c s :
  ctx_rel c s → Forall ctx_op_ok ops →
  ctx_rel (ctx_run c ops).1 (spec_run s ops).1 ∧ (ctx_run c ops).2 = (spec_run s ops).2.
Proof.
  intros Hr Hops. revert c s Hr. induction Hops as [|op ops Hop _ IH]; intros c s Hr; simpl.
  { done. }
  pose proof (ctx_step_sim c s op Hr Hop) as H.
  destruct (ctx_step c op) as [c1 o]. destruct (spec_step s op) as [s1 o'].
  destruct H as [Hr1 ->]. destruct (IH c1 s1 Hr1) as [Hr2 Ho].
  destruct (ctx_run c1 ops). destruct (spec_run s1 ops). simpl in *. by subst.
Qed.

Lemma new_ctx_rel identity space ceiling c :
  ExecutionContext_new identity space ceiling = Ok c → u64 ceiling →
  ctx_rel c (MkQueueSpec [] [] ceiling ceiling).
Proof.
  unfold ExecutionContext_new. intros H Hc.
  destruct (negb _); [done|]. destruct (_ && _); [done|]. apply Ok_inj in H as <-.
  assert (budget_wf (ExpBudget_uniform identity ceiling)) as Hw.
  { apply new_budget_wf; [apply length_replicate|]. by apply Forall_replicate. }
  split; cbn [ctx_events ctx_event_head ctx_event_len ctx_messages ctx_message_head
    ctx_message_len ctx_budget qs_events qs_messages qs_message_limit qs_byte_limit];
    auto using length_empty_slots; try reflexivity.
  - apply ring_rep_empty. unfold MAX_CONTEXT_EVENTS. lia.
  - apply ring_rep_empty. unfold MAX_CONTEXT_MESSAGES. lia.
Qed.

(** No context operation changes the identity, the identifier or the state
    the scheduler keeps. *)
Lemma ctx_step_frame c op :
  let c' := (ctx_step c op).1 in
  ctx_id c' = ctx_id c ∧ ctx_identity c' = ctx_identity c ∧ ctx_state c' = ctx_state c.
Proof.
  destruct op; cbn [ctx_step].
  - unfold ExecutionContext_push_event. by destruct (_ =? _)%nat.
  - unfold ExecutionContext_pop_event. by destruct (_ =? _)%nat.
  - unfold ExecutionContext_push_message. destruct (_ =? _)%nat; [done|].
    destruct (ExpBudget_charge _ _ _) as [b r]. destruct (negb _); [done|].
    destruct (ExpBudget_charge b _ _) as [b' r']. by destruct (negb _).
  - unfold ExecutionContext_pop_message. destruct (_ =? _)%nat; [done|]. by destruct (mjoin _).
  - unfold ExecutionContext_attach_handle. destruct (_ || _); [done|].
    destruct (existsb _ _); [done|]. by destruct (fill_slot _ _).
  - done.
  - done.
  - done.
  - done.
Qed.

(** Attached Handles stay inside the context's own CFC and Dimension. *)
Definition handles_local (c : ExecutionContext) : Prop :=
  NoDup (fh_id <$> flatten (ctx_handles c)) ∧
  ∀ h, h ∈ flatten (ctx_handles c) →
    fh_cfc h = ei_cfc (ctx_identity c) ∧ fh_dimension h = ei_dimension (ctx_identity c) ∧
    (fh_requester h = ei_form (ctx_identity c) ∨ fh_target h = ei_form (ctx_identity c)).

Lemma attach_handle_local c h :
  handles_local c → handles_local (ExecutionContext_attach_handle c h).1.
Proof.
  intros [Hd Hl]. unfold ExecutionContext_attach_handle.
  destruct (_ || _) eqn:Hg; [done|]. destruct (existsb _ _) eqn:He; [done|].
  destruct (fill_slot _ _) as [l|] eqn:Hf; [|done]. bools. apply existsb_id_false in He.
  unfold handles_local. simpl. pose proof (fill_slot_perm _ _ _ Hf) as Hp. rewrite Hp. csimpl.
  split; [by apply NoDup_cons|]. intros x. rewrite Hp, elem_of_cons. intros [->|Hx]; [|auto].
  split_and!; auto. apply andb_false_iff in H0 as [?|?]; bools; auto.
Qed.

Lemma ctx_step_handles c op : handles_local c → handles_local (ctx_step c op).1.
Proof.
  intros Hl. destruct op; cbn [ctx_step].
  - unfold ExecutionContext_push_event. by destruct (_ =? _)%nat.
  - unfold ExecutionContext_pop_event. by destruct (_ =? _)%nat.
  - unfold ExecutionContext_push_message. destruct (_ =? _)%nat; [done|].
    destruct (ExpBudget_charge _ _ _) as [b r]. destruct (negb _); [done|].
    destruct (ExpBudget_charge b _ _) as [b' r']. by destruct (negb _).
  - unfold ExecutionContext_pop_message. destruct (_ =? _)%nat; [done|]. by destruct (mjoin _).
  - by apply attach_handle_local.
  - done.
  - done.
  - done.
  - done.
Qed.

Lemma ctx_run_handles ops c :
  handles_local c →
  handles_local (ctx_run c ops).1 ∧ ctx_identity (ctx_run c ops).1 = ctx_identity c.
Proof.
  revert c. induction ops as [|op ops IH]; intros c Hl; simpl; [done|].
  pose proof (ctx_step_handles c op Hl) as H. pose proof (ctx_step_frame c op) as (_ & Hi & _).
  destruct (ctx_step c op) as [c1 o]. simpl in *. destruct (IH c1 H) as [IH1 IH2].
  destruct (ctx_run c1 ops). simpl in *. split; [done|congruence].
Qed.

(** ** Properties *)

(** C38.  The rings implement bounded FIFO queues.  Through any interleaving
    of the operations of a context, the results of [push_event],
    [pop_event], [push_message] and [pop_message] are those of two plain
    lists: events bounded by 16, messages bounded by 8 and by the two IPC
    limits of the budget; a message is paid for on entry and refunded on
    exit, so the IPC use equals what is queued. *)
Theorem context_queues_refine (identity : ExecutionIdentity) (space : AddressSpace)
    (ceiling : Z) (c : ExecutionContext) (ops : list ctx_op) :
  ExecutionContext_new identity space ceiling = Ok c → u64 ceiling → Forall ctx_op_ok ops →
  (ctx_run c ops).2 = (spec_run (MkQueueSpec [] [] ceiling ceiling) ops).2 ∧
  let c' := (ctx_run c ops).1 in
  let s := (spec_run (MkQueueSpec [] [] ceiling ceiling) ops).1 in
  ctx_event_len c' = length (qs_events s) ∧ (length (qs_events s) ≤ MAX_CONTEXT_EVENTS)%nat ∧
  ctx_message_len c' = length (qs_messages s) ∧
  (length (qs_messages s) ≤ MAX_CONTEXT_MESSAGES)%nat ∧
  acc_used (ExpBudget_account (ctx_budget c') IpcMessages) = Zlength (qs_messages s) ∧
  acc_used (ExpBudget_account (ctx_budget c') IpcBytes) = message_bytes (qs_messages s).
Proof.
  intros Hc Hu Hops. pose proof (new_ctx_rel _ _ _ _ Hc Hu) as Hr.
  destruct (ctx_run_sim ops _ _ Hr Hops) as [[] Ho]. split; [done|]. cbv zeta.
  pose proof cr_events0 as (_ & H1 & _). pose proof cr_messages0 as (_ & H2 & _).
  split_and!; congruence || lia.
Qed.

(** A context never holds a foreign Handle: after any operations, each
    attached Handle belongs to the context's CFC and Dimension, names its
    Form as requester or target, and no identifier is attached twice. *)
Theorem context_handles_local (identity : ExecutionIdentity) (space : AddressSpace)
    (ceiling : Z) (c : ExecutionContext) (ops : list ctx_op) (h : FormHandle) :
  ExecutionContext_new identity space ceiling = Ok c →
  NoDup (fh_id <$> flatten (ctx_handles (ctx_run c ops).1)) ∧
  (h ∈ flatten (ctx_handles (ctx_run c ops).1) →
   fh_cfc h = ei_cfc identity ∧ fh_dimension h = ei_dimension identity ∧
   (fh_requester h = ei_form identity ∨ fh_target h = ei_form identity)).
Proof.
  intros Hc. assert (handles_local c ∧ ctx_identity c = identity) as [Hl <-].
  { unfold ExecutionContext_new in Hc. destruct (negb _); [done|]. destruct (_ && _); [done|].
    apply Ok_inj in Hc as <-. split; [|done]. unfold handles_local. cbn [ctx_handles].
    rewrite flatten_empty. split; [constructor|]. by intros x Hx%elem_of_nil. }
  destruct (ctx_run_handles ops c Hl) as [[Hd Hl'] Hi]. rewrite <- Hi. auto.
Qed.

(** ** Witnesses *)

Definition demo_identity : ExecutionIdentity :=
  MkIdentity (CfcFin_from_u128 1) (Fin_from_u128 6) (Fin_from_u128 7).

Definition demo_context : ExecutionContext :=
  match ExecutionContext_new demo_identity AddressSpace_kernel_bootstrap 3 with
  | Ok c => c
  | Err _ => MkContext 0 demo_identity AddressSpace_kernel_bootstrap [] [] 0 0 [] 0 0 None
               (ExpBudget_uniform demo_identity 3) CpuState_default KernelNative Ready 0 0 0
  end.

Definition demo_message (len : Z) : IpcMessage := MkMessage (Fin_from_u128 9) 1 2 len [].
Definition demo_event (code : Z) : ExecutionEvent := MkEvent (Fin_from_u128 9) code 0.

(** The second message exceeds the byte limit of 3 and is refused. *)
Definition demo_ctx_ops : list ctx_op :=
  [CtxPushEvent (demo_event 1); CtxPushMessage (demo_message 2); CtxPushMessage (demo_message 2);
   CtxBudget (OpCharge CpuTicks 1); CtxPushEvent (demo_event 2); CtxPopMessage; CtxPopEvent].

Lemma context_queues_refine_witness :
  (ctx_run demo_context demo_ctx_ops).2 =
    [OutPush (Ok tt); OutPush (Ok tt); OutPush (Err ExBudgetDenied); OutOther; OutPush (Ok tt);
     OutMessage (Some (demo_message 2)); OutEvent (Some (demo_event 1))].
Proof.
  assert (Forall ctx_op_ok demo_ctx_ops) as Ho.
  { repeat (apply Forall_cons_2; [vm_compute; intuition congruence|]). apply Forall_nil_2. }
  exact (proj1 (context_queues_refine demo_identity AddressSpace_kernel_bootstrap 3 demo_context
    demo_ctx_ops eq_refl ltac:(by split; vm_compute) Ho)).
Defined.

Definition demo_own_handle : FormHandle :=
  MkHandle 1 0 (CfcFin_from_u128 1) (Fin_from_u128 7) (Fin_from_u128 5) (Fin_from_u128 6)
    Ops_READ 100 false.

Lemma context_handles_local_witness :
  demo_own_handle ∈
    flatten (ctx_handles (ctx_run demo_context [CtxAttachHandle demo_own_handle]).1) ∧
  fh_cfc demo_own_handle = CfcFin_from_u128 1.
Proof.
  assert (demo_own_handle ∈
    flatten (ctx_handles (ctx_run demo_context [CtxAttachHandle demo_own_handle]).1)) as H
    by (vm_compute; left).
  split; [exact H|].
  exact (proj1 (proj2 (context_handles_local demo_identity AddressSpace_kernel_bootstrap 3
    demo_context [CtxAttachHandle demo_own_handle] demo_own_handle eq_refl) H)).
Defined.
