(* ===== verification/Scheduler.v ===== *)
(** * The scheduler

    [Scheduler] of crates/expos-core/src/execution.rs (lines 394-697): a
    table of eight execution contexts, the slot that is running, and the
    round-robin cursor. *)

From stdpp Require Import prelude list.
From Stdlib Require Import ZArith Lia.
From S2P Require Import Prelude Identity Budget Capability Context.

Set Default Goal Selector "!".
Open Scope Z_scope.
Open Scope expos_scope.

(** ** Data *)

Definition MAX_EXECUTION_CONTEXTS : nat := 8.
Arguments MAX_EXECUTION_CONTEXTS : simpl never.

Record Scheduler := MkScheduler {
  sc_contexts : slots ExecutionContext;
  sc_current_slot : option nat;
  sc_cursor : nat;
  sc_next_id : Z }.

Definition Scheduler_eta (s : Scheduler) : Scheduler :=
  MkScheduler (sc_contexts s) (sc_current_slot s) (sc_cursor s) (sc_next_id s).
#[export] Instance set_sc_contexts : Setter sc_contexts := ltac:(build_setter Scheduler_eta).
#[export] Instance set_sc_current_slot : Setter sc_current_slot :=
  ltac:(build_setter Scheduler_eta).
#[export] Instance set_sc_cursor : Setter sc_cursor := ltac:(build_setter Scheduler_eta).
#[export] Instance set_sc_next_id : Setter sc_next_id := ltac:(build_setter Scheduler_eta).

Definition Scheduler_new : Scheduler :=
  MkScheduler (empty_slots ExecutionContext MAX_EXECUTION_CONTEXTS) None 0 1.

(** ** Operations *)

(** [matches!(state, Exited | Terminated)] *)
Definition finished (state : ExecutionState) : bool :=
  match state with Exited | Terminated => true | _ => false end.

(** [slot.as_ref().is_none_or(|context| finished)] *)
Definition slot_free (slot : option ExecutionContext) : bool :=
  match slot with None => true | Some context => finished (ctx_state context) end.

Definition Scheduler_admit (self : Scheduler) (context : ExecutionContext)
    : Scheduler * result Z ExecutionError :=
  if existsb (λ item, (ctx_identity item ==? ctx_identity context) &&
                      negb (finished (ctx_state item))) (flatten (sc_contexts self))
  then (self, Err ExDuplicateContext)
  else match position slot_free (sc_contexts self) with
  | None => (self, Err ExContextTableFull)
  | Some slot =>
      let id := sc_next_id self in
      let context := context <| ctx_id := id |> <| ctx_state := Ready |> in
      (self <| sc_next_id := Z.max (wrapping_add u32_max (sc_next_id self) 1) 1 |>
            <| sc_contexts := <[slot := Some context]> (sc_contexts self) |>, Ok id)
  end.

Definition Scheduler_context (self : Scheduler) (id : Z) : option ExecutionContext :=
  List.find (λ context, ctx_id context ==? id) (flatten (sc_contexts self)).

(** [self.context_mut(id).ok_or(UnknownContext)?] and the edit [f] of the
    context it borrows. *)
Definition with_context {A} (self : Scheduler) (id : Z)
    (f : ExecutionContext → ExecutionContext * result A ExecutionError)
    : Scheduler * result A ExecutionError :=
  match Scheduler_context self id with
  | None => (self, Err ExUnknownContext)
  | Some context =>
      let (context', r) := f context in
      (self <| sc_contexts := update_first (λ c, ctx_id c ==? id) (λ _, context')
                                (sc_contexts self) |>, r)
  end.

Definition Scheduler_current (self : Scheduler) : option ExecutionContext :=
  match sc_current_slot self with
  | None => None
  | Some slot => mjoin (sc_contexts self !! slot)
  end.

(** [self.current().is_some_and(|current| current.id == id)] *)
Definition is_current (self : Scheduler) (id : Z) : bool :=
  match Scheduler_current self with
  | Some current => ctx_id current =? id
  | None => false
  end.

Definition clear_current (self : Scheduler) (flag : bool) : Scheduler :=
  if flag then self <| sc_current_slot := None |> else self.

(** [self.current_slot.take()], with a running context set back to ready. *)
Definition demote_current (self : Scheduler) : Scheduler :=
  match sc_current_slot self with
  | None => self
  | Some slot =>
      let self := self <| sc_current_slot := None |> in
      match sc_contexts self !! slot with
      | Some (Some current) =>
          if ctx_state current ==? Running
          then self <| sc_contexts := <[slot := Some (current <| ctx_state := Ready |>)]>
                                        (sc_contexts self) |>
          else self
      | _ => self
      end
  end.

(** [context.state = Running; context.dispatches += 1] on one slot. *)
Definition set_running (self : Scheduler) (slot : nat) (context : ExecutionContext) : Scheduler :=
  self <| sc_contexts :=
         <[slot := Some (context <| ctx_state := Running |>
                           <| ctx_dispatches := saturating_add u64_max (ctx_dispatches context) 1 |>)]>
           (sc_contexts self) |>
       <| sc_current_slot := Some slot |>.

(** The body of the loop of [dispatch_next], over the remaining offsets. *)
Fixpoint dispatch_scan (self : Scheduler) (offsets : list nat)
    : Scheduler * result Z ExecutionError :=
  match offsets with
  | [] => (self, Err ExNotRunnable)
  | offset :: offsets' =>
      let slot := ((sc_cursor self + offset) mod MAX_EXECUTION_CONTEXTS)%nat in
      match mjoin (sc_contexts self !! slot) with
      | None => dispatch_scan self offsets'
      | Some context =>
          if ctx_state context !=? Ready then dispatch_scan self offsets'
          else ((set_running self slot context)
                  <| sc_cursor := ((slot + 1) mod MAX_EXECUTION_CONTEXTS)%nat |>,
                Ok (ctx_id context))
      end
  end.

Definition Scheduler_dispatch_next (self : Scheduler) : Scheduler * result Z ExecutionError :=
  dispatch_scan (demote_current self) (seq 0 MAX_EXECUTION_CONTEXTS).

(** [None] in the last match is the [unwrap] of a slot known to be filled. *)
Definition Scheduler_resume (self : Scheduler) (id : Z) : Scheduler * result unit ExecutionError :=
  match position (λ entry, match entry with Some context => ctx_id context ==? id | None => false end)
          (sc_contexts self) with
  | None => (self, Err ExUnknownContext)
  | Some slot =>
  if match mjoin (sc_contexts self !! slot) with
     | None => true
     | Some context => ctx_state context !=? Ready
     end
  then (self, Err ExNotRunnable)
  else
    let self := demote_current self in
    match mjoin (sc_contexts self !! slot) with
    | None => (self, Err ExUnknownContext)
    | Some context => (set_running self slot context, Ok tt)
    end
  end.

(** The edit [preempt] makes to the context it found running. *)
Definition preempt_context (cpu : CpuState) (ticks : Z) (budget_exhausted : bool)
    (context : ExecutionContext) : ExecutionContext :=
  let (budget, charged) := ExpBudget_charge (ctx_budget context) CpuTicks ticks in
  let context := context <| ctx_budget := budget |> in
  if negb (is_ok charged) then context <| ctx_state := BudgetBlocked |>
  else context <| ctx_cpu_ticks := saturating_add u64_max (ctx_cpu_ticks context) ticks |>
               <| ctx_preemptions := saturating_add u64_max (ctx_preemptions context) 1 |>
               <| ctx_cpu := cpu |>
               <| ctx_state := if budget_exhausted then BudgetBlocked else Ready |>.

Definition Scheduler_preempt (self : Scheduler) (id : Z) (cpu : CpuState) (ticks : Z)
    (budget_exhausted : bool) : Scheduler * result unit ExecutionError :=
  let current := is_current self id in
  match with_context self id (λ context,
    if ctx_state context !=? Running then (context, Err ExNotRunnable)
    else (preempt_context cpu ticks budget_exhausted context, Ok tt)) with
  | (self, Err e) => (self, Err e)
  | (self, Ok _) => (clear_current self current, Ok tt)
  end.

Definition finish_slice_context (cpu : CpuState) (ticks result : Z) (context : ExecutionContext)
    : ExecutionContext :=
  let (context, blocked) :=
    if ticks =? 0 then (context, false)
    else let (budget, charged) := ExpBudget_charge (ctx_budget context) CpuTicks ticks in
         (context <| ctx_budget := budget |>, negb (is_ok charged)) in
  if blocked then context <| ctx_state := BudgetBlocked |>
  else context <| ctx_cpu_ticks := saturating_add u64_max (ctx_cpu_ticks context) ticks |>
               <| ctx_cpu := cpu <| cpu_accumulator := result |> |>
               <| ctx_state := Exited |>.

Definition Scheduler_finish_slice (self : Scheduler) (id : Z) (cpu : CpuState) (ticks result : Z)
    : Scheduler * Prelude.result unit ExecutionError :=
  let current := is_current self id in
  match with_context self id (λ context, (finish_slice_context cpu ticks result context, Ok tt)) with
  | (self, Err e) => (self, Err e)
  | (self, Ok _) => (clear_current self current, Ok tt)
  end.

Definition Scheduler_wait (self : Scheduler) (id : Z) : Scheduler * result unit ExecutionError :=
  match with_context self id (λ context, (context <| ctx_state := Waiting |>, Ok tt)) with
  | (self, Err e) => (self, Err e)
  | (self, Ok _) => (clear_current self (is_current self id), Ok tt)
  end.

Definition Scheduler_wake (self : Scheduler) (id : Z) : Scheduler * result unit ExecutionError :=
  with_context self id (λ context,
    if ctx_state context !=? Waiting then (context, Err ExNotRunnable)
    else (context <| ctx_state := Ready |>, Ok tt)).

Definition Scheduler_pause (self : Scheduler) (id : Z) : Scheduler * result unit ExecutionError :=
  let current := is_current self id in
  match with_context self id (λ context,
    match ctx_state context with
    | Ready | Running => (context <| ctx_state := Paused |>, Ok tt)
    | _ => (context, Err ExNotRunnable)
    end) with
  | (self, Err e) => (self, Err e)
  | (self, Ok _) => (clear_current self current, Ok tt)
  end.

Definition Scheduler_continue_context (self : Scheduler) (id : Z)
    : Scheduler * result unit ExecutionError :=
  with_context self id (λ context,
    if ctx_state context !=? Paused then (context, Err ExNotRunnable)
    else (context <| ctx_state := Ready |>, Ok tt)).

Definition Scheduler_terminate (self : Scheduler) (id : Z)
    : Scheduler * result unit ExecutionError :=
  let current := is_current self id in
  match with_context self id (λ context, (context <| ctx_state := Terminated |>, Ok tt)) with
  | (self, Err e) => (self, Err e)
  | (self, Ok _) => (clear_current self current, Ok tt)
  end.

Definition restart_context (context : ExecutionContext) : ExecutionContext :=
  let ceilings := (λ kind, acc_ceiling (ExpBudget_account (ctx_budget context) kind))
                    <$> ResourceKind_ALL in
  context <| ctx_budget := ExpBudget_new (ctx_identity context) ceilings |>
          <| ctx_cpu := CpuState_default |>
          <| ctx_events := empty_slots ExecutionEvent MAX_CONTEXT_EVENTS |>
          <| ctx_event_head := 0%nat |> <| ctx_event_len := 0%nat |>
          <| ctx_messages := empty_slots IpcMessage MAX_CONTEXT_MESSAGES |>
          <| ctx_message_head := 0%nat |> <| ctx_message_len := 0%nat |>
          <| ctx_state := Ready |>.

Definition Scheduler_restart (self : Scheduler) (id : Z) : Scheduler * result unit ExecutionError :=
  with_context self id (λ context,
    match ctx_state context with
    | Exited | Terminated | BudgetBlocked => (restart_context context, Ok tt)
    | _ => (context, Err ExNotRunnable)
    end).

Definition Scheduler_send_message (self : Scheduler) (target : Z) (message : IpcMessage)
    : Scheduler * result unit ExecutionError :=
  with_context self target (λ context,
    match ExecutionContext_push_message context message with
    | (context, Err e) => (context, Err e)
    | (context, Ok _) =>
        (if ctx_state context ==? Waiting then context <| ctx_state := Ready |> else context, Ok tt)
    end).

Definition Scheduler_finish (self : Scheduler) (id result : Z)
    : Scheduler * Prelude.result unit ExecutionError :=
  match with_context self id (λ context,
    (context <| ctx_cpu := (ctx_cpu context) <| cpu_accumulator := result |> |>
             <| ctx_state := Exited |>, Ok tt)) with
  | (self, Err e) => (self, Err e)
  | (self, Ok _) => (clear_current self (is_current self id), Ok tt)
  end.

Definition Scheduler_exit (self : Scheduler) (id : Z) : Scheduler * result unit ExecutionError :=
  Scheduler_finish self id 0.

(** ** Specification *)

(** One call of the public interface, [context_mut] edits included. *)
Inductive sched_op :=
  | SAdmit (context : ExecutionContext)
  | SDispatch
  | SResume (id : Z)
  | SPreempt (id : Z) (cpu : CpuState) (ticks : Z) (budget_exhausted : bool)
  | SFinishSlice (id : Z) (cpu : CpuState) (ticks result : Z)
  | SWait (id : Z)
  | SWake (id : Z)
  | SPause (id : Z)
  | SContinue (id : Z)
  | STerminate (id : Z)
  | SRestart (id : Z)
  | SSend (target : Z) (message : IpcMessage)
  | SFinish (id result : Z)
  | SContext (id : Z) (op : ctx_op).

Definition sched_step (s : Scheduler) (op : sched_op) : Scheduler :=
  match op with
  | SAdmit c => (Scheduler_admit s c).1
  | SDispatch => (Scheduler_dispatch_next s).1
  | SResume id => (Scheduler_resume s id).1
  | SPreempt id cpu ticks e => (Scheduler_preempt s id cpu ticks e).1
  | SFinishSlice id cpu ticks r => (Scheduler_finish_slice s id cpu ticks r).1
  | SWait id => (Scheduler_wait s id).1
  | SWake id => (Scheduler_wake s id).1
  | SPause id => (Scheduler_pause s id).1
  | SContinue id => (Scheduler_continue_context s id).1
  | STerminate id => (Scheduler_terminate s id).1
  | SRestart id => (Scheduler_restart s id).1
  | SSend target m => (Scheduler_send_message s target m).1
  | SFinish id r => (Scheduler_finish s id r).1
  | SContext id op => (with_context s id (λ c, ((ctx_step c op).1, Ok tt))).1
  end.

Definition sched_run (s : Scheduler) (ops : list sched_op) : Scheduler := fold_left sched_step ops s.

Definition is_admit (op : sched_op) : bool := match op with SAdmit _ => true | _ => false end.
Definition admissions (ops : list sched_op) : Z := Zlength (List.filter is_admit ops).

Definition is_dispatch (op : sched_op) : bool := match op with SDispatch => true | _ => false end.

Definition context_at (s : Scheduler) (slot : nat) : option ExecutionContext :=
  mjoin (sc_contexts s !! slot).

(** The running context is the one the scheduler points at, and identifiers
    name one context each. *)
Record sched_wf (s : Scheduler) : Prop := {
  sw_size : length (sc_contexts s) = MAX_EXECUTION_CONTEXTS;
  sw_cursor : (sc_cursor s < MAX_EXECUTION_CONTEXTS)%nat;
  sw_current : ∀ i, sc_current_slot s = Some i ↔
    ∃ c, sc_contexts s !! i = Some (Some c) ∧ ctx_state c = Running;
  sw_unique : ∀ i j c d, sc_contexts s !! i = Some (Some c) → sc_contexts s !! j = Some (Some d) →
    ctx_id c = ctx_id d → i = j;
  sw_next : 1 ≤ sc_next_id s;
  sw_ids : ∀ i c, sc_contexts s !! i = Some (Some c) → 1 ≤ ctx_id c < sc_next_id s }.

(** ** Lemmas *)

Lemma new_sched_wf : sched_wf Scheduler_new.
Proof.
  assert (∀ i (c : ExecutionContext),
    empty_slots ExecutionContext MAX_EXECUTION_CONTEXTS !! i = Some (Some c) → False) as He.
  { intros i c H. unfold empty_slots in H. by apply lookup_replicate in H as [? _]. }
  split; cbn [Scheduler_new sc_contexts sc_cursor sc_current_slot sc_next_id].
  - apply length_empty_slots.
  - unfold MAX_EXECUTION_CONTEXTS. lia.
  - intros i. split; [done|]. intros (c & Hc & _). by apply He in Hc.
  - intros i j c d Hc. by apply He in Hc.
  - done.
  - intros i c Hc. by apply He in Hc.
Qed.

(** Writing one slot. *)
Lemma put_wf s i c' cur' n :
  sched_wf s → (i < MAX_EXECUTION_CONTEXTS)%nat →
  (cur' = Some i ↔ ctx_state c' = Running) →
  (∀ j, j ≠ i → cur' = Some j ↔ sc_current_slot s = Some j) →
  (∀ j d, j ≠ i → sc_contexts s !! j = Some (Some d) → ctx_id d ≠ ctx_id c') →
  1 ≤ ctx_id c' < n → sc_next_id s ≤ n →
  sched_wf (MkScheduler (<[i := Some c']> (sc_contexts s)) cur' (sc_cursor s) n).
Proof.
  intros [W1 W2 W3 W4 W6 W5] Hi Hc Hcur Hid Hn Hle.
  assert (<[i := Some c']> (sc_contexts s) !! i = Some (Some c')) as Hget.
  { apply list_lookup_insert_eq. by rewrite W1. }
  assert (∀ j, j ≠ i → <[i := Some c']> (sc_contexts s) !! j = sc_contexts s !! j) as Hne.
  { intros j Hj. by apply list_lookup_insert_ne. }
  split; cbn [sc_contexts sc_cursor sc_current_slot sc_next_id].
  - by rewrite length_insert.
  - done.
  - intros j. destruct (decide (j = i)) as [->|Hj].
    + rewrite Hget, Hc. naive_solver.
    + by rewrite (Hne j Hj), Hcur, W3.
  - intros j k c d. destruct (decide (j = i)) as [->|Hj], (decide (k = i)) as [->|Hk];
      rewrite ?Hget, ?(Hne _ Hj), ?(Hne _ Hk); intros E1 E2 E; simplify_eq; eauto.
    + by destruct (Hid k d Hk E2).
    + by destruct (Hid j c Hj E1).
  - lia.
  - intros j c. destruct (decide (j = i)) as [->|Hj]; rewrite ?Hget, ?(Hne _ Hj);
      intros E; simplify_eq; [done|]. apply W5 in E. lia.
Qed.

(** The edited context keeps its identifier. *)
Lemma edit_wf s i c c' cur' :
  sched_wf s → sc_contexts s !! i = Some (Some c) → ctx_id c' = ctx_id c →
  (cur' = Some i ↔ ctx_state c' = Running) →
  (∀ j, j ≠ i → cur' = Some j ↔ sc_current_slot s = Some j) →
  sched_wf (MkScheduler (<[i := Some c']> (sc_contexts s)) cur' (sc_cursor s) (sc_next_id s)).
Proof.
  intros Hw Hi Hid Hc Hcur. pose proof (sw_ids _ Hw i c Hi). apply put_wf; auto; try lia.
  - rewrite <- (sw_size _ Hw). by eapply lookup_lt_Some.
  - intros j d Hj Hd E. apply Hj. apply (sw_unique _ Hw j i d c); congruence.
Qed.

Lemma context_slot s id c :
  Scheduler_context s id = Some c →
  ∃ i, sc_contexts s !! i = Some (Some c) ∧ ctx_id c = id ∧
       ∀ f, update_first (λ c, ctx_id c ==? id) f (sc_contexts s) =
            <[i := Some (f c)]> (sc_contexts s).
Proof. intros (i & ? & ?%bool_decide_eq_true_1 & ?)%find_slot. eauto. Qed.

Lemma is_current_slot s i c :
  sched_wf s → sc_contexts s !! i = Some (Some c) →
  is_current s (ctx_id c) = true ↔ sc_current_slot s = Some i.
Proof.
  intros Hw Hi. unfold is_current, Scheduler_current.
  destruct (sc_current_slot s) as [j|] eqn:E; [|done].
  apply (sw_current _ Hw) in E as (d & Hd & _). rewrite Hd. simpl. rewrite Z.eqb_eq. split.
  - intros Heq. f_equal. by apply (sw_unique _ Hw j i d c).
  - intros [= ->]. congruence.
Qed.

(** An edit that keeps or leaves [Running] consistently with [clear]. *)
Lemma with_context_wf {A} s id
    (f : ExecutionContext → ExecutionContext * result A ExecutionError) :
  sched_wf s →
  (∀ c, ctx_id (f c).1 = ctx_id c ∧ (ctx_state (f c).1 = Running ↔ ctx_state c = Running)) →
  sched_wf (with_context s id f).1.
Proof.
  intros Hw Hf. unfold with_context. destruct (Scheduler_context s id) as [c|] eqn:E; [|done].
  destruct (context_slot s id c E) as (i & Hi & Hid & Hup). specialize (Hf c).
  destruct (f c) as [c' r]. destruct Hf as [Hid' Hst]. simpl in *. rewrite Hup.
  apply (edit_wf s i c c' (sc_current_slot s) Hw Hi Hid'); [|done].
  rewrite Hst, (sw_current _ Hw i). naive_solver.
Qed.

(** Edits that stop the context, with the running slot cleared when it was
    the one; [now] and [later] are the flag before and after the edit. *)
Lemma stop_context_wf s id
    (f : ExecutionContext → ExecutionContext * result unit ExecutionError) :
  sched_wf s →
  (∀ c, ctx_id (f c).1 = ctx_id c) →
  (∀ c, match (f c).2 with Ok _ => ctx_state (f c).1 ≠ Running | Err _ => (f c).1 = c end) →
  match with_context s id f with
  | (s', Err _) => sched_wf s'
  | (s', Ok _) => is_current s' id = is_current s id ∧ sched_wf (clear_current s' (is_current s id))
  end.
Proof.
  intros Hw Hid Hst. unfold with_context. destruct (Scheduler_context s id) as [c|] eqn:E; [|done].
  destruct (context_slot s id c E) as (i & Hi & Hci & Hup).
  specialize (Hid c). specialize (Hst c). destruct (f c) as [c' [[]|e]]; simpl in *; rewrite Hup.
  - assert (∀ j d, <[i:=Some c']> (sc_contexts s) !! j = Some (Some d) →
      ∃ d', sc_contexts s !! j = Some (Some d') ∧ ctx_id d' = ctx_id d) as Hids.
    { intros j d Hd. destruct (decide (j = i)) as [->|Hj].
      - rewrite list_lookup_insert_eq in Hd by (by eapply lookup_lt_Some). naive_solver.
      - rewrite list_lookup_insert_ne in Hd by done. eauto. }
    split.
    + unfold is_current, Scheduler_current. simpl.
      destruct (sc_current_slot s) as [j|] eqn:Ej; [|done].
      apply (sw_current _ Hw) in Ej as (d & Hd & _). rewrite Hd. simpl.
      destruct (decide (j = i)) as [->|Hj].
      * rewrite list_lookup_insert_eq by (by eapply lookup_lt_Some). simpl. congruence.
      * by rewrite list_lookup_insert_ne, Hd by done.
    + rewrite <- Hci. pose proof (is_current_slot s i c Hw Hi) as Hcur. unfold clear_current.
      destruct (is_current s (ctx_id c)); apply (edit_wf s i c); auto.
      * naive_solver.
      * intros j Hj. split; [done|]. intros H. destruct Hcur as [Hc _].
        rewrite (Hc eq_refl) in H. congruence.
      * split; [|done]. intros H. by apply Hcur in H.
  - subst c'. apply (edit_wf s i c); auto.
    rewrite (sw_current _ Hw i). naive_solver.
Qed.

Lemma demote_wf s :
  sched_wf s →
  sched_wf (demote_current s) ∧ sc_current_slot (demote_current s) = None ∧
  sc_cursor (demote_current s) = sc_cursor s ∧ sc_next_id (demote_current s) = sc_next_id s ∧
  ∀ i c, sc_contexts s !! i = Some (Some c) → ctx_state c ≠ Running →
         sc_contexts (demote_current s) !! i = Some (Some c).
Proof.
  intros Hw. unfold demote_current. destruct (sc_current_slot s) as [j|] eqn:Ej; [|done].
  pose proof Ej as Ej'. apply (sw_current _ Hw) in Ej as (d & Hd & Hr). simpl.
  rewrite Hd, bool_decide_true by done. split_and!; try done.
  - apply (edit_wf s j d (d <| ctx_state := Ready |>) None Hw Hd); [done|done|].
    intros k Hk. rewrite Ej'. naive_solver.
  - intros i c Hc Hn. simpl. rewrite list_lookup_insert_ne; [done|]. naive_solver.
Qed.

Lemma set_running_wf s i c :
  sched_wf s → sc_current_slot s = None → sc_contexts s !! i = Some (Some c) →
  sched_wf (set_running s i c).
Proof.
  intros Hw Hn Hi. apply (edit_wf s i c); auto; [done|].
  intros j Hj. rewrite Hn. naive_solver.
Qed.

(** What the scan does: nothing ready, or the first ready slot from the
    cursor on is started and the cursor moves behind it. *)
Definition ready_at (s : Scheduler) (slot : nat) : Prop :=
  ∃ c, sc_contexts s !! slot = Some (Some c) ∧ ctx_state c = Ready.

Lemma dispatch_scan_spec s k n :
  (k + n = MAX_EXECUTION_CONTEXTS)%nat →
  let slot o := ((sc_cursor s + o) mod MAX_EXECUTION_CONTEXTS)%nat in
  (∀ o, (o < k)%nat → ¬ ready_at s (slot o)) →
  match dispatch_scan s (seq k n) with
  | (s', Err e) => s' = s ∧ e = ExNotRunnable ∧
                   ∀ o, (o < MAX_EXECUTION_CONTEXTS)%nat → ¬ ready_at s (slot o)
  | (s', Ok id) =>
      ∃ o c, (o < MAX_EXECUTION_CONTEXTS)%nat ∧ (∀ p, (p < o)%nat → ¬ ready_at s (slot p)) ∧
        sc_contexts s !! slot o = Some (Some c) ∧ ctx_state c = Ready ∧ ctx_id c = id ∧
        s' = (set_running s (slot o) c)
               <| sc_cursor := ((slot o + 1) mod MAX_EXECUTION_CONTEXTS)%nat |>
  end.
Proof.
  intros Hk slot. revert k Hk. induction n as [|n IH]; intros k Hk Hno; simpl.
  { split_and!; auto. intros o Ho. apply Hno. lia. }
  fold (slot k). destruct (sc_contexts s !! slot k) as [[c|]|] eqn:E; simpl.
  1: destruct (decide (ctx_state c = Ready)) as [Hr|Hr].
  - rewrite bool_decide_true by done. simpl. exists k, c. split_and!; auto. lia.
  - rewrite bool_decide_false by done. simpl. apply IH; [lia|]. intros o Ho.
    destruct (decide (o = k)) as [->|]; [|apply Hno; lia]. unfold ready_at. rewrite E. naive_solver.
  - apply IH; [lia|]. intros o Ho. destruct (decide (o = k)) as [->|]; [|apply Hno; lia].
    unfold ready_at. rewrite E. naive_solver.
  - apply IH; [lia|]. intros o Ho. destruct (decide (o = k)) as [->|]; [|apply Hno; lia].
    unfold ready_at. rewrite E. naive_solver.
Qed.

Lemma dispatch_spec s :
  let s0 := demote_current s in
  let slot o := ((sc_cursor s0 + o) mod MAX_EXECUTION_CONTEXTS)%nat in
  match Scheduler_dispatch_next s with
  | (s', Err e) => s' = s0 ∧ e = ExNotRunnable ∧
                   ∀ o, (o < MAX_EXECUTION_CONTEXTS)%nat → ¬ ready_at s0 (slot o)
  | (s', Ok id) =>
      ∃ o c, (o < MAX_EXECUTION_CONTEXTS)%nat ∧ (∀ p, (p < o)%nat → ¬ ready_at s0 (slot p)) ∧
        sc_contexts s0 !! slot o = Some (Some c) ∧ ctx_state c = Ready ∧ ctx_id c = id ∧
        s' = (set_running s0 (slot o) c)
               <| sc_cursor := ((slot o + 1) mod MAX_EXECUTION_CONTEXTS)%nat |>
  end.
Proof. apply (dispatch_scan_spec (demote_current s) 0 MAX_EXECUTION_CONTEXTS eq_refl). lia. Qed.

Lemma max_contexts_pos : (0 < MAX_EXECUTION_CONTEXTS)%nat.
Proof. unfold MAX_EXECUTION_CONTEXTS. lia. Qed.

Lemma dispatch_wf s : sched_wf s → sched_wf (Scheduler_dispatch_next s).1.
Proof.
  intros Hw. destruct (demote_wf s Hw) as (Hw' & Hn & _). pose proof (dispatch_spec s) as H.
  cbv zeta in H. destruct (Scheduler_dispatch_next s) as [s' [id|e]].
  - destruct H as (o & c & _ & _ & Hc & _ & _ & ->).
    destruct (set_running_wf _ _ _ Hw' Hn Hc). split; simpl; auto.
    apply Nat.mod_upper_bound. pose proof max_contexts_pos. lia.
  - by destruct H as (-> & _).
Qed.

Lemma resume_wf s id : sched_wf s → sched_wf (Scheduler_resume s id).1.
Proof.
  intros Hw. destruct (demote_wf s Hw) as (Hw' & Hn & _). unfold Scheduler_resume.
  destruct (position _ _) as [slot|]; [|done].
  destruct (match mjoin (sc_contexts s !! slot) with Some _ => _ | None => _ end); [done|].
  cbv zeta. destruct (sc_contexts (demote_current s) !! slot) as [[c|]|] eqn:E; simpl; auto.
  by apply set_running_wf.
Qed.

Lemma admit_wf s c :
  sched_wf s → sc_next_id s < u32_max →
  sched_wf (Scheduler_admit s c).1 ∧ sc_next_id (Scheduler_admit s c).1 ≤ sc_next_id s + 1.
Proof.
  intros Hw Hn. unfold Scheduler_admit. destruct (existsb _ _); [simpl; auto with lia|].
  destruct (position slot_free (sc_contexts s)) as [i|] eqn:Hp; [|simpl; auto with lia].
  apply position_Some in Hp as (o & Ho & Hf). cbv zeta. pose proof (sw_next _ Hw) as H1.
  assert (Z.max (wrapping_add u32_max (sc_next_id s) 1) 1 = sc_next_id s + 1) as ->.
  { unfold wrapping_add. rewrite Z.mod_small; lia. }
  split; [|simpl; lia].
  apply (put_wf s i (c <| ctx_id := sc_next_id s |> <| ctx_state := Ready |>)
           (sc_current_slot s) (sc_next_id s + 1) Hw); simpl; try lia; try done.
  - rewrite <- (sw_size _ Hw). by eapply lookup_lt_Some.
  - rewrite (sw_current _ Hw). split; [|done]. intros (d & Hd & Hr).
    assert (o = Some d) as -> by congruence. simpl in Hf. by rewrite Hr in Hf.
  - intros j d _ Hd. apply (sw_ids _ Hw) in Hd. lia.
Qed.

Lemma preempt_context_frame cpu ticks e c :
  ctx_id (preempt_context cpu ticks e c) = ctx_id c ∧
  ctx_state (preempt_context cpu ticks e c) ≠ Running.
Proof.
  unfold preempt_context. destruct (ExpBudget_charge _ _ _) as [b r].
  destruct (negb _); [done|]. by destruct e.
Qed.

Lemma finish_slice_context_frame cpu ticks r c :
  ctx_id (finish_slice_context cpu ticks r c) = ctx_id c ∧
  ctx_state (finish_slice_context cpu ticks r c) ≠ Running.
Proof.
  unfold finish_slice_context. destruct (ticks =? 0); [done|].
  destruct (ExpBudget_charge _ _ _) as [b o]. by destruct (negb _).
Qed.

(** The calls that stop a context; [early] and [late] differ in whether the
    flag is read before or after the edit. *)
Lemma stop_early_wf s id
    (f : ExecutionContext → ExecutionContext * result unit ExecutionError) :
  sched_wf s → (∀ c, ctx_id (f c).1 = ctx_id c) →
  (∀ c, match (f c).2 with Ok _ => ctx_state (f c).1 ≠ Running | Err _ => (f c).1 = c end) →
  sched_wf (match with_context s id f with
            | (self, Err e) => (self, @Err unit ExecutionError e)
            | (self, Ok _) => (clear_current self (is_current s id), Ok tt)
            end).1.
Proof.
  intros Hw Hid Hst. pose proof (stop_context_wf s id f Hw Hid Hst) as H.
  destruct (with_context s id f) as [s' [[]|e]]; simpl; [apply H|done].
Qed.

Lemma stop_late_wf s id
    (f : ExecutionContext → ExecutionContext * result unit ExecutionError) :
  sched_wf s → (∀ c, ctx_id (f c).1 = ctx_id c) →
  (∀ c, match (f c).2 with Ok _ => ctx_state (f c).1 ≠ Running | Err _ => (f c).1 = c end) →
  sched_wf (match with_context s id f with
            | (self, Err e) => (self, @Err unit ExecutionError e)
            | (self, Ok _) => (clear_current self (is_current self id), Ok tt)
            end).1.
Proof.
  intros Hw Hid Hst. pose proof (stop_context_wf s id f Hw Hid Hst) as H.
  destruct (with_context s id f) as [s' [[]|e]]; simpl; [|done]. destruct H as [-> H]. done.
Qed.

Lemma with_context_frame {A} s id
    (f : ExecutionContext → ExecutionContext * result A ExecutionError) :
  sc_cursor (with_context s id f).1 = sc_cursor s ∧
  sc_next_id (with_context s id f).1 = sc_next_id s.
Proof.
  unfold with_context. destruct (Scheduler_context s id) as [c|]; [|done]. by destruct (f c).
Qed.

Lemma clear_current_frame s b :
  sc_cursor (clear_current s b) = sc_cursor s ∧ sc_next_id (clear_current s b) = sc_next_id s.
Proof. by destruct b. Qed.

Lemma demote_frame s :
  sc_cursor (demote_current s) = sc_cursor s ∧ sc_next_id (demote_current s) = sc_next_id s.
Proof.
  unfold demote_current. destruct (sc_current_slot s) as [j|]; [|done]. simpl.
  destruct (sc_contexts s !! j) as [[c|]|]; [|done..]. by case_bool_decide.
Qed.

(** Only [dispatch_next] moves the cursor, only [admit] allocates. *)
Lemma sched_step_frame s op :
  (is_dispatch op = false → sc_cursor (sched_step s op) = sc_cursor s) ∧
  (is_admit op = false → sc_next_id (sched_step s op) = sc_next_id s).
Proof.
  pose proof (@with_context_frame unit s) as Hf. pose proof (demote_frame s) as Hd.
  assert (∀ id (f : ExecutionContext → ExecutionContext * result unit ExecutionError)
    (g : Scheduler → bool),
    let s' := (match with_context s id f with
               | (self, Err e) => (self, @Err unit ExecutionError e)
               | (self, Ok _) => (clear_current self (g self), Ok tt) end).1 in
    sc_cursor s' = sc_cursor s ∧ sc_next_id s' = sc_next_id s) as Hstop.
  { intros id f g. specialize (Hf id f). destruct (with_context s id f) as [s' [[]|e]];
      simpl in *; [|done]. by destruct (clear_current_frame s' (g s')) as [-> ->]. }
  destruct op; cbn [sched_step is_dispatch is_admit]; try (by split; intros; apply Hf);
    try (by split; intros; apply (Hstop _ _ (λ _, is_current s _)));
    try (by split; intros; apply (Hstop _ _ (λ self, is_current self _))).
  - split; [|done]. intros _. unfold Scheduler_admit. destruct (existsb _ _); [done|].
    by destruct (position _ _).
  - split; [done|]. intros _. pose proof (dispatch_spec s) as H. cbv zeta in H.
    destruct (Scheduler_dispatch_next s) as [s' [i|e]]; simpl.
    + destruct H as (o & c & _ & _ & _ & _ & _ & ->). apply Hd.
    + destruct H as (-> & _). apply Hd.
  - unfold Scheduler_resume. destruct (position _ _) as [slot|]; [|done].
    destruct (match mjoin (sc_contexts s !! slot) with Some _ => _ | None => _ end); [done|].
    cbv zeta. destruct Hd. by destruct (mjoin (sc_contexts (demote_current s) !! slot)).
Qed.

Lemma sched_step_wf s op :
  sched_wf s → (is_admit op = true → sc_next_id s < u32_max) → sched_wf (sched_step s op).
Proof.
  intros Hw Hn. destruct op; cbn [sched_step].
  - apply admit_wf; auto.
  - by apply dispatch_wf.
  - by apply resume_wf.
  - apply stop_early_wf; [done|..]; intros c; destruct (decide (ctx_state c = Running));
      [rewrite bool_decide_true by done|rewrite bool_decide_false by done|
       rewrite bool_decide_true by done|rewrite bool_decide_false by done]; simpl;
      try done; apply preempt_context_frame.
  - apply stop_early_wf; [done|..]; intros c; apply finish_slice_context_frame.
  - by apply stop_late_wf.
  - apply with_context_wf; [done|]. intros c. destruct (decide (ctx_state c = Waiting)) as [E|E].
    + rewrite bool_decide_true by done. simpl. by rewrite E.
    + by rewrite bool_decide_false by done.
  - apply stop_early_wf; [done|..]; intros c; by destruct (ctx_state c).
  - apply with_context_wf; [done|]. intros c. destruct (decide (ctx_state c = Paused)) as [E|E].
    + rewrite bool_decide_true by done. simpl. by rewrite E.
    + by rewrite bool_decide_false by done.
  - by apply stop_early_wf.
  - apply with_context_wf; [done|]. intros c. by destruct (ctx_state c) eqn:E; simpl; rewrite ?E.
  - apply with_context_wf; [done|]. intros c.
    pose proof (ctx_step_frame c (CtxPushMessage message)) as (H1 & _ & H3). simpl in H1, H3.
    destruct (ExecutionContext_push_message c message) as [c' [[]|e]]; simpl in *.
    + rewrite <- H1, <- H3. case_bool_decide as E; simpl; [|done]. by rewrite E.
    + by rewrite H1, H3.
  - by apply stop_late_wf.
  - apply with_context_wf; [done|]. intros c. simpl.
    by destruct (ctx_step_frame c op) as (-> & _ & ->).
Qed.

(** One step within the supply of identifiers. *)
Lemma sched_step_next s op ops :
  sched_wf s → sc_next_id s + admissions (op :: ops) ≤ u32_max →
  sched_wf (sched_step s op) ∧
  sc_next_id (sched_step s op) + admissions ops ≤ sc_next_id s + admissions (op :: ops).
Proof.
  intros Hw. unfold admissions, Zlength. simpl. intros Hn.
  destruct (is_admit op) eqn:Ea; simpl in Hn |- *.
  - destruct op; try discriminate. simpl.
    destruct (admit_wf s context Hw) as [Hw' Hle]; [lia|]. split; [done|lia].
  - rewrite (proj2 (sched_step_frame s op) Ea). split; [|lia].
    apply sched_step_wf; [done|]. by rewrite Ea.
Qed.

Lemma sched_run_wf ops s :
  sched_wf s → sc_next_id s + admissions ops ≤ u32_max → sched_wf (sched_run s ops).
Proof.
  revert s. induction ops as [|op ops IH]; intros s Hw Hn; [done|].
  destruct (sched_step_next s op ops Hw Hn). apply IH; [done|lia].
Qed.

Lemma sched_run_next ops s :
  sched_wf s → sc_next_id s + admissions ops ≤ u32_max →
  sc_next_id (sched_run s ops) ≤ sc_next_id s + admissions ops.
Proof.
  revert s. induction ops as [|op ops IH]; intros s Hw Hn.
  { unfold admissions, Zlength. simpl. lia. }
  destruct (sched_step_next s op ops Hw Hn). etrans; [apply IH; [done|lia]|lia].
Qed.

(** ** Fairness

    [distance] counts the slots the scan passes before it reaches [slot]. *)

Definition at_distance (s : Scheduler) (o slot : nat) : Prop :=
  (o < MAX_EXECUTION_CONTEXTS)%nat ∧
  ((sc_cursor s + o) mod MAX_EXECUTION_CONTEXTS)%nat = slot.

Lemma distance_exists s slot :
  sched_wf s → (slot < MAX_EXECUTION_CONTEXTS)%nat → ∃ o, at_distance s o slot.
Proof.
  intros Hw Hs. pose proof (sw_cursor _ Hw).
  exists (if decide (sc_cursor s ≤ slot)%nat then slot - sc_cursor s
          else MAX_EXECUTION_CONTEXTS + slot - sc_cursor s)%nat.
  unfold at_distance. destruct (decide (sc_cursor s ≤ slot)%nat).
  - split; [lia|]. rewrite Nat.mod_small; lia.
  - split; [lia|]. rewrite wrap_index by lia. rewrite decide_False by lia. lia.
Qed.

(** A dispatch runs the waiting context or brings the cursor closer. *)
Lemma dispatch_progress s o slot :
  sched_wf s → ready_at s slot → at_distance s o slot →
  let s' := (Scheduler_dispatch_next s).1 in
  sc_current_slot s' = Some slot ∧ ¬ ready_at s' slot ∨
  ready_at s' slot ∧ ∃ o', (o' < o)%nat ∧ at_distance s' o' slot.
Proof.
  intros Hw (c & Hc & Hr) [Ho Hslot]. destruct (demote_wf s Hw) as (Hw0 & _ & Hcur & _ & Hkeep).
  assert (sc_contexts (demote_current s) !! slot = Some (Some c)) as Hc0
    by (apply Hkeep; [done|by rewrite Hr]).
  pose proof (dispatch_spec s) as H. cbv zeta in H |- *. rewrite Hcur in H.
  destruct (Scheduler_dispatch_next s) as [s' [id|e]]; simpl.
  - destruct H as (p & d & Hp & Hno & Hd & Hdr & _ & ->).
    assert (p ≤ o)%nat as Hle.
    { destruct (decide (p ≤ o)%nat); [done|]. destruct (Hno o); [lia|].
      rewrite Hslot. by exists c. }
    destruct (decide (p = o)) as [->|Hne].
    + left. rewrite Hslot. split; [done|]. intros (x & Hx & Hxr). simpl in Hx.
      rewrite list_lookup_insert_eq in Hx by (by eapply lookup_lt_Some). by simplify_eq.
    + assert (((sc_cursor s + p) mod MAX_EXECUTION_CONTEXTS)%nat ≠ slot) as Hother.
      { rewrite <- Hslot. intros E. apply Hne. pose proof (sw_cursor _ Hw).
        by apply wrap_inj in E; [|lia..]. }
      right. split.
      * exists c. split; [|done]. simpl. by rewrite list_lookup_insert_ne.
      * exists (o - p - 1)%nat. split; [lia|]. split; [lia|]. simpl.
        rewrite <- Hslot, wrap_next by (apply Nat.mod_upper_bound; lia).
        rewrite Nat.Div0.add_mod_idemp_l. f_equal. lia.
  - destruct H as (_ & _ & Hno). destruct (Hno o Ho). rewrite Hslot. by exists c.
Qed.

#[export] Instance ready_at_dec s slot : Decision (ready_at s slot).
Proof.
  destruct (sc_contexts s !! slot) as [[c|]|] eqn:E.
  - destruct (decide (ctx_state c = Ready)); [left|right]; unfold ready_at; rewrite E; naive_solver.
  - right. unfold ready_at. rewrite E. naive_solver.
  - right. unfold ready_at. rewrite E. naive_solver.
Defined.

Definition dispatches (ops : list sched_op) : nat := length (List.filter is_dispatch ops).

(** The wait of [slot] ends inside [ops], and when a dispatch ends it, the
    context was started. *)
Definition wait_ends (s : Scheduler) (slot : nat) (ops : list sched_op) : Prop :=
  ∃ pre op post, ops = pre ++ op :: post ∧
    (∀ p, p `prefix_of` pre → ready_at (sched_run s p) slot) ∧
    ¬ ready_at (sched_run s (pre ++ [op])) slot ∧
    (op = SDispatch → sc_current_slot (sched_run s (pre ++ [op])) = Some slot).

Lemma wait_ends_cons s slot op ops :
  ready_at s slot → wait_ends (sched_step s op) slot ops → wait_ends s slot (op :: ops).
Proof.
  intros Hr (pre & op' & post & -> & Hp & Hn & Hc). exists (op :: pre), op', post.
  split_and!; try done. intros [|x p] Hpre; [done|].
  apply prefix_cons_inv_1 in Hpre as Hx. apply prefix_cons_inv_2 in Hpre. subst x. by apply Hp.
Qed.

Lemma wait_bounded ops s slot o :
  sched_wf s → sc_next_id s + admissions ops ≤ u32_max →
  ready_at s slot → at_distance s o slot → (o < dispatches ops)%nat → wait_ends s slot ops.
Proof.
  revert s o. induction ops as [|op ops IH]; intros s o Hw Hn Hr Hd Hk.
  { unfold dispatches in Hk. simpl in Hk. lia. }
  destruct (sched_step_next s op ops Hw Hn) as [Hw' Hle].
  assert (sc_next_id (sched_step s op) + admissions ops ≤ u32_max) as Hn' by lia.
  destruct (decide (ready_at (sched_step s op) slot)) as [Hr'|Hr'].
  - apply wait_ends_cons; [done|]. destruct (is_dispatch op) eqn:Ed.
    + destruct op; try discriminate. simpl in Hk. unfold dispatches in Hk. simpl in Hk.
      destruct (dispatch_progress s o slot Hw Hr Hd) as [[_ Hc]|(_ & o' & Ho' & Hd')]; [done|].
      apply (IH _ o'); auto. unfold dispatches. simpl in *. lia.
    + apply (IH _ o); auto.
      * destruct Hd as [? <-]. split; [done|]. by rewrite (proj1 (sched_step_frame s op) Ed).
      * unfold dispatches in *. simpl in Hk. by rewrite Ed in Hk.
  - exists [], op, ops. split_and!; [done| |done|].
    + intros p ->%prefix_nil_inv. done.
    + intros ->. simpl. by destruct (dispatch_progress s o slot Hw Hr Hd) as [[? _]|[? _]].
Qed.

(** In a well-formed table a context is found under its identifier. *)
Lemma context_lookup s i c :
  sched_wf s → sc_contexts s !! i = Some (Some c) → Scheduler_context s (ctx_id c) = Some c.
Proof.
  intros Hw Hi. destruct (Scheduler_context s (ctx_id c)) as [x|] eqn:E.
  - destruct (context_slot s _ x E) as (k & Hk & Hid & _).
    pose proof (sw_unique _ Hw k i x c Hk Hi Hid). congruence.
  - exfalso. unfold Scheduler_context in E. rewrite find_elem_None in E.
    specialize (E c (flatten_lookup _ _ _ Hi)). by rewrite bool_decide_true in E.
Qed.

Lemma run_new_wf ops : admissions ops < u32_max → sched_wf (sched_run Scheduler_new ops).
Proof.
  intros. apply sched_run_wf; [apply new_sched_wf|]. cbn [sc_next_id Scheduler_new]. lia.
Qed.

(** Preempting the running context, and what it does to the context. *)
Lemma preempt_context_spec (c : ExecutionContext) cpu ticks budget_exhausted :
  budget_wf (ctx_budget c) → u64 ticks →
  let used c := acc_used (ExpBudget_account (ctx_budget c) CpuTicks) in
  let c' := preempt_context cpu ticks budget_exhausted c in
  if used c + ticks <=? acc_soft (ExpBudget_account (ctx_budget c) CpuTicks)
  then used c' = used c + ticks ∧ ctx_cpu c' = cpu ∧
       ctx_state c' = (if budget_exhausted then BudgetBlocked else Ready)
  else used c' = used c ∧ ctx_cpu c' = ctx_cpu c ∧ ctx_state c' = BudgetBlocked.
Proof.
  intros Hb Hu. cbv zeta. unfold preempt_context. pose proof (charge_ok _ CpuTicks ticks Hb Hu) as Hok.
  destruct (budget_step_spec _ (OpCharge CpuTicks ticks) Hb Hu) as [_ Hs].
  destruct (Hs CpuTicks) as [Hs' _]. simpl in Hs'.
  destruct (ExpBudget_charge (ctx_budget c) CpuTicks ticks) as [b r]. simpl in *.
  rewrite <- Hok. destruct (is_ok r); simpl; rewrite Hs'; split_and!; try done; lia.
Qed.

Lemma preempt_spec s id (c : ExecutionContext) cpu ticks budget_exhausted :
  sched_wf s → Scheduler_context s id = Some c → ctx_state c = Running → budget_wf (ctx_budget c) → u64 ticks →
  let (s', r) := Scheduler_preempt s id cpu ticks budget_exhausted in
  r = Ok tt ∧ sc_current_slot s' = None ∧
  (∀ id', id' ≠ id → Scheduler_context s' id' = Scheduler_context s id') ∧
  Scheduler_context s' id = Some (preempt_context cpu ticks budget_exhausted c) ∧ sched_wf s'.
Proof.
  intros Hw Hc Hr Hb Hu.
  pose proof (sched_step_wf s (SPreempt id cpu ticks budget_exhausted) Hw) as Hw'.
  simpl in Hw'. specialize (Hw' ltac:(done)). unfold Scheduler_preempt, with_context in *.
  rewrite Hc in *. destruct (context_slot s id c Hc) as (i & Hi & Hid & Hup).
  rewrite bool_decide_true in * by done. simpl in *. rewrite Hup in *.
  assert (is_current s id = true) as Hcur.
  { rewrite <- Hid. apply (is_current_slot s i c Hw Hi). apply (sw_current _ Hw). eauto. }
  rewrite Hcur in *. unfold clear_current in *. simpl in *.
  destruct (preempt_context_frame cpu ticks budget_exhausted c) as [Hid' _].
  set (c' := preempt_context cpu ticks budget_exhausted c) in *.
  split_and!; [done..| | |done].
  - intros id' Hne. unfold Scheduler_context. simpl.
    apply (find_insert_ne _ _ i c); [done|apply bool_decide_false; congruence..].
  - replace id with (ctx_id c') by congruence. apply (context_lookup _ i); [done|]. simpl.
    apply list_lookup_insert_eq. by eapply lookup_lt_Some.
Qed.

(** ** Properties *)

(** C19.  One context runs.  After any calls from a fresh scheduler, with
    fewer than 2^32 - 1 admissions, a context is in state [Running] exactly
    when it is the current one, so at most one runs; and identifiers are
    unique, so [context] returns the context itself. *)
Theorem scheduler_one_running (ops : list sched_op) (i j : nat) (c d : ExecutionContext) :
  admissions ops < u32_max →
  let s := sched_run Scheduler_new ops in
  context_at s i = Some c → context_at s j = Some d →
  (ctx_state c = Running ↔ sc_current_slot s = Some i) ∧
  (ctx_state c = Running → Scheduler_current s = Some c) ∧
  (ctx_state c = Running → ctx_state d = Running → i = j) ∧
  Scheduler_context s (ctx_id c) = Some c.
Proof.
  intros Hn s Hi Hj.
  pose proof (run_new_wf ops Hn) as Hw. fold s in Hw.
  assert (sc_contexts s !! i = Some (Some c)) as Hi'
    by (unfold context_at in Hi; by destruct (sc_contexts s !! i) as [[?|]|]; simplify_eq/=).
  assert (sc_contexts s !! j = Some (Some d)) as Hj'
    by (unfold context_at in Hj; by destruct (sc_contexts s !! j) as [[?|]|]; simplify_eq/=).
  assert (ctx_state c = Running ↔ sc_current_slot s = Some i) as Hc
    by (rewrite (sw_current _ Hw i); naive_solver).
  assert (ctx_state d = Running ↔ sc_current_slot s = Some j) as Hd
    by (rewrite (sw_current _ Hw j); naive_solver).
  split_and!; [done| | |].
  - intros Hr. apply Hc in Hr. unfold Scheduler_current. by rewrite Hr, Hi'.
  - intros Hr1 Hr2. apply Hc in Hr1. apply Hd in Hr2. congruence.
  - by apply (context_lookup s i).
Qed.

(** C18.  No starvation.  In any run with at least eight [dispatch_next]
    calls, among arbitrary other calls, a context that is ready stops
    waiting; and if a dispatch ended its wait, the context was the one
    started. *)
Theorem scheduler_no_starvation (before ops : list sched_op) (slot : nat) :
  admissions (before ++ ops) < u32_max →
  ready_at (sched_run Scheduler_new before) slot →
  (MAX_EXECUTION_CONTEXTS ≤ dispatches ops)%nat →
  wait_ends (sched_run Scheduler_new before) slot ops.
Proof.
  intros Hn Hr Hk. unfold admissions, Zlength in Hn. rewrite List.filter_app, length_app in Hn.
  assert (sched_wf (sched_run Scheduler_new before)) as Hw.
  { apply sched_run_wf; [apply new_sched_wf|]. cbn [sc_next_id Scheduler_new].
    unfold admissions, Zlength. lia. }
  destruct (distance_exists _ slot Hw) as [o Ho].
  { destruct Hr as (c & Hc & _). rewrite <- (sw_size _ Hw). by eapply lookup_lt_Some. }
  apply (wait_bounded ops _ slot o Hw); [|done|done|destruct Ho; lia].
  pose proof (sched_run_next before Scheduler_new new_sched_wf) as Hnext.
  cbn [sc_next_id Scheduler_new] in Hnext. unfold admissions, Zlength in *. lia.
Qed.

(** C20.  A timer slice is charged exactly once.  Preempting the running
    context always succeeds and frees the CPU; within the soft CPU limit the
    ticks are booked, the registers saved, and the context is ready (or
    blocked when the caller says so); beyond it nothing is booked and the
    context is blocked.  No other context is touched. *)
Theorem preempt_accounts (ops : list sched_op) (id : Z) (c : ExecutionContext) (cpu : CpuState)
    (ticks : Z) (budget_exhausted : bool) :
  admissions ops < u32_max →
  let s := sched_run Scheduler_new ops in
  Scheduler_context s id = Some c → ctx_state c = Running → budget_wf (ctx_budget c) → u64 ticks →
  let (s', r) := Scheduler_preempt s id cpu ticks budget_exhausted in
  let used c := acc_used (ExpBudget_account (ctx_budget c) CpuTicks) in
  r = Ok tt ∧ sc_current_slot s' = None ∧
  (∀ id', id' ≠ id → Scheduler_context s' id' = Scheduler_context s id') ∧
  ∃ c', Scheduler_context s' id = Some c' ∧
    if used c + ticks <=? acc_soft (ExpBudget_account (ctx_budget c) CpuTicks)
    then used c' = used c + ticks ∧ ctx_cpu c' = cpu ∧
         ctx_state c' = (if budget_exhausted then BudgetBlocked else Ready)
    else used c' = used c ∧ ctx_cpu c' = ctx_cpu c ∧ ctx_state c' = BudgetBlocked.
Proof.
  intros Hn s Hc Hr Hb Hu. pose proof (preempt_spec s id c cpu ticks budget_exhausted (run_new_wf ops Hn) Hc Hr Hb Hu) as H.
  destruct (Scheduler_preempt s id cpu ticks budget_exhausted) as [s' r].
  destruct H as (-> & H1 & H2 & -> & _). split_and!; [done..|].
  exists (preempt_context cpu ticks budget_exhausted c). split; [done|]. by apply preempt_context_spec.
Qed.

(** ** Two live contexts of one identity *)

Definition other_identity : ExecutionIdentity :=
  MkIdentity (CfcFin_from_u128 1) (Fin_from_u128 6) (Fin_from_u128 70).
Definition other_context : ExecutionContext :=
  match ExecutionContext_new other_identity AddressSpace_kernel_bootstrap 3 with
  | Ok c => c
  | Err _ => demo_context
  end.

(** The older copy sits behind a slot that is freed first. *)
Definition duplicate_ops : list sched_op :=
  [SAdmit other_context; SAdmit demo_context; SFinish 1 0; SFinish 2 0; SAdmit demo_context;
   SRestart 2].

(** [restart] revives a finished context without the check [admit]
    makes: a run of successful calls ends with two live contexts of the same
    identity, a pair that [admit] itself refuses as [DuplicateContext]. *)
Theorem restart_duplicates_identity :
  let s := sched_run Scheduler_new duplicate_ops in
  ∃ c d, context_at s 0 = Some c ∧ context_at s 1 = Some d ∧
    ctx_identity c = ctx_identity d ∧ ctx_state c = Ready ∧ ctx_state d = Ready ∧
    (Scheduler_admit (sched_run Scheduler_new (take 5 duplicate_ops)) demo_context).2 =
      Err ExDuplicateContext ∧
    (Scheduler_restart (sched_run Scheduler_new (take 5 duplicate_ops)) 2).2 = Ok tt.
Proof. eexists _, _. vm_compute. split_and!; reflexivity. Qed.

(** ** Identifiers after 2^32 admissions *)

Section churn.
Context (a b : ExecutionContext).
Hypothesis different : ctx_identity a ≠ ctx_identity b.

Definition first_context : ExecutionContext := a <| ctx_id := 1 |> <| ctx_state := Ready |>.
Definition finished_context (k : Z) : ExecutionContext :=
  b <| ctx_id := k |> <| ctx_state := Ready |>
    <| ctx_cpu := (ctx_cpu b) <| cpu_accumulator := 0 |> |> <| ctx_state := Exited |>.

(** [a] lives in slot 0; [b] came and went in slot 1, last with identifier [k]. *)
Definition churned (k next : Z) : Scheduler :=
  MkScheduler [Some first_context; Some (finished_context k); None; None; None; None; None; None]
    None 0 next.

Lemma churn_start : sched_run Scheduler_new [SAdmit a; SAdmit b; SFinish 2 0] = churned 2 3.
Proof.
  unfold sched_run. simpl. unfold Scheduler_admit. simpl.
  rewrite bool_decide_false by done. reflexivity.
Qed.

Lemma churn_step k n :
  1 < n ≤ u32_max →
  sched_run (churned k n) [SAdmit b; SFinish n 0] =
  churned n (Z.max (wrapping_add u32_max n 1) 1).
Proof.
  intros Hn. unfold sched_run. simpl. unfold Scheduler_admit. simpl.
  rewrite bool_decide_false by done. simpl. rewrite andb_false_r. simpl.
  unfold Scheduler_finish, with_context, Scheduler_context. simpl.
  rewrite (bool_decide_false (1 = n)) by lia. simpl. rewrite bool_decide_true by done. simpl.
  unfold churned, clear_current, is_current. simpl. reflexivity.
Qed.

Lemma sched_run_app s p q : sched_run s (p ++ q) = sched_run (sched_run s p) q.
Proof. apply fold_left_app. Qed.

Lemma churn_many m :
  0 ≤ m → m + 3 ≤ u32_max → ∃ ops, sched_run Scheduler_new ops = churned (m + 2) (m + 3).
Proof.
  intros Hm. pattern m. apply natlike_ind; [|intros x Hx IH Hle|done].
  - eauto using churn_start.
  - destruct IH as [ops Hops]; [lia|]. exists (ops ++ [SAdmit b; SFinish (x + 3) 0]).
    rewrite sched_run_app, Hops, churn_step by lia. f_equal; [lia|].
    unfold wrapping_add. rewrite Z.mod_small; lia.
Qed.

Lemma churn_wrap : ∃ ops, sched_run Scheduler_new ops = churned u32_max 1.
Proof.
  destruct (churn_many (u32_max - 3)) as [ops Hops]; [done|lia|].
  exists (ops ++ [SAdmit b; SFinish (u32_max - 3 + 3) 0]).
  rewrite sched_run_app, Hops, churn_step by (unfold u32_max; lia). reflexivity.
Qed.
End churn.

(** Identifiers are reused while still in use: [admit] hands out
    [next_id] without looking for it in the table, so after 2^32 - 1
    admissions a new context gets the identifier of one that never left, and
    the two cannot be told apart by the calls that take an identifier. *)
Theorem admit_reuses_live_identifier (a b : ExecutionContext) :
  ctx_identity a ≠ ctx_identity b →
  ∃ ops c d,
    let s := sched_run Scheduler_new ops in
    context_at s 0 = Some c ∧ context_at s 1 = Some d ∧
    ctx_identity c = ctx_identity a ∧ ctx_identity d = ctx_identity b ∧
    ctx_state c = Ready ∧ ctx_state d = Ready ∧ ctx_id c = 1 ∧ ctx_id d = 1 ∧
    Scheduler_context s 1 = Some c.
Proof.
  intros Hne. destruct (churn_wrap a b Hne) as [ops Hops].
  exists (ops ++ [SAdmit b]), (first_context a), (b <| ctx_id := 1 |> <| ctx_state := Ready |>).
  cbv zeta. rewrite sched_run_app, Hops. unfold sched_run. simpl. unfold Scheduler_admit. simpl.
  rewrite bool_decide_false by done. simpl. rewrite andb_false_r. done.
Qed.

(** ** Witnesses *)

Definition demo_sched_ops : list sched_op :=
  [SAdmit demo_context; SAdmit other_context; SDispatch].

Lemma scheduler_one_running_witness :
  let s := sched_run Scheduler_new demo_sched_ops in
  ∃ c, context_at s 0 = Some c ∧ ctx_state c = Running ∧ Scheduler_current s = Some c.
Proof.
  cbv zeta. eexists. split; [vm_compute; reflexivity|]. split; [reflexivity|].
  assert (admissions demo_sched_ops < u32_max) as Hn by (by vm_compute).
  refine (proj1 (proj2 (scheduler_one_running demo_sched_ops 0 0 _ _ Hn _ _)) _);
    vm_compute; reflexivity.
Defined.

(** The second context waits for at most eight dispatches. *)
Lemma scheduler_no_starvation_witness :
  wait_ends (sched_run Scheduler_new demo_sched_ops) 1 (replicate 8 SDispatch).
Proof.
  apply (scheduler_no_starvation demo_sched_ops).
  - by vm_compute.
  - eexists. split; [vm_compute; reflexivity|]. reflexivity.
  - vm_compute. apply le_n.
Defined.

Lemma preempt_accounts_witness :
  let s := sched_run Scheduler_new demo_sched_ops in
  sc_current_slot (Scheduler_preempt s 1 CpuState_default 2 false).1 = None.
Proof.
  cbv zeta.
  assert (admissions demo_sched_ops < u32_max) as Hn by (by vm_compute).
  assert (u64 2) as Hu by (by split; vm_compute).
  assert (∃ c, Scheduler_context (sched_run Scheduler_new demo_sched_ops) 1 = Some c ∧
    ctx_state c = Running ∧ ctx_budget c = ExpBudget_uniform demo_identity 3)
    as (c & Hc & Hr & Hb) by (eexists; split; [vm_compute; reflexivity|split; reflexivity]).
  assert (budget_wf (ctx_budget c)) as Hw.
  { rewrite Hb. apply new_budget_wf; [reflexivity|].
    apply Forall_replicate. by split; vm_compute. }
  pose proof (preempt_accounts demo_sched_ops 1 c CpuState_default 2 false Hn Hc Hr Hw Hu) as H.
  cbv zeta in H.
  destruct (Scheduler_preempt (sched_run Scheduler_new demo_sched_ops) 1 CpuState_default 2 false)
    as [s' r]. exact (proj1 (proj2 H)).
Defined.

Lemma admit_reuses_live_identifier_witness :
  ctx_identity demo_context ≠ ctx_identity other_context ∧
  ∃ ops c d, let s := sched_run Scheduler_new ops in
    context_at s 0 = Some c ∧ context_at s 1 = Some d ∧
    ctx_identity c = demo_identity ∧ ctx_identity d = other_identity ∧
    ctx_state c = Ready ∧ ctx_state d = Ready ∧ ctx_id c = 1 ∧ ctx_id d = 1 ∧
    Scheduler_context s 1 = Some c.
Proof.
  assert (ctx_identity demo_context ≠ ctx_identity other_context) as H by (vm_compute; congruence).
  split; [exact H|]. exact (admit_reuses_live_identifier demo_context other_context H).
Defined.
