(* ===== verification/Recovery.v ===== *)
(** * Recovery metadata

    Checkpoint histories and the recovery catalog
    (crates/expos-core/src/recovery.rs): per CFC a protected installation
    baseline and a ring of the last eight checkpoints. *)

From stdpp Require Import prelude list sorting.
From Stdlib Require Import ZArith Lia.
From S2P Require Import Prelude Identity Cfc.

Set Default Goal Selector "!".
Open Scope Z_scope.
Open Scope expos_scope.

(** ** Data *)

Definition RECOVERY_CHECKPOINT_CAPACITY : nat := 8.
Definition MAX_RECOVERY_CFCS : nat := MAX_CFCS.
Arguments RECOVERY_CHECKPOINT_CAPACITY : simpl never.

Inductive RecoveryError :=
  | RecInvalidCfcFin | RecWrongCfc | RecInvalidMetadata | RecDuplicateCfc | RecUnknownCfc
  | RecCatalogFull | RecCheckpointNotNewer | RecStaleJournalSequence | RecStaleStateRevision
  | RecCheckpointNotFound.

#[export] Instance RecoveryError_eq_dec : EqDecision RecoveryError.
Proof. solve_decision. Defined.

Record RecoveryMetadata := MkRecMeta {
  rm_state_id : Z; rm_expfs_sequence : Z; rm_form_graph_revision : Z }.

#[export] Instance RecoveryMetadata_eq_dec : EqDecision RecoveryMetadata.
Proof. solve_decision. Defined.

Definition RecoveryMetadata_new (state_id expfs_sequence form_graph_revision : Z)
    : result RecoveryMetadata RecoveryError :=
  if (state_id =? 0) || (expfs_sequence =? 0) || (form_graph_revision =? 0)
  then Err RecInvalidMetadata
  else Ok (MkRecMeta state_id expfs_sequence form_graph_revision).

Record InstallationBaseline := MkBaseline { ib_cfc : CfcFin; ib_metadata : RecoveryMetadata }.
Record CheckpointMetadata := MkCheckpoint { cm_cfc : CfcFin; cm_metadata : RecoveryMetadata }.

#[export] Instance InstallationBaseline_eq_dec : EqDecision InstallationBaseline.
Proof. solve_decision. Defined.
#[export] Instance CheckpointMetadata_eq_dec : EqDecision CheckpointMetadata.
Proof. solve_decision. Defined.

Definition InstallationBaseline_new (cfc : CfcFin)
    (state_id expfs_sequence form_graph_revision : Z)
    : result InstallationBaseline RecoveryError :=
  if CfcFin_is_zero cfc then Err RecInvalidCfcFin
  else let? metadata := RecoveryMetadata_new state_id expfs_sequence form_graph_revision in
       Ok (MkBaseline cfc metadata).

Definition CheckpointMetadata_new (cfc : CfcFin)
    (state_id expfs_sequence form_graph_revision : Z)
    : result CheckpointMetadata RecoveryError :=
  if CfcFin_is_zero cfc then Err RecInvalidCfcFin
  else let? metadata := RecoveryMetadata_new state_id expfs_sequence form_graph_revision in
       Ok (MkCheckpoint cfc metadata).

Inductive RestoreTarget := TargetBaseline | TargetCheckpoint (state_id : Z).
Inductive RestoreSource := SourceBaseline | SourceCheckpoint.

Record RestoreSelection := MkSelection {
  rs_cfc : CfcFin; rs_source : RestoreSource; rs_metadata : RecoveryMetadata }.

Record CfcRecovery := MkRecovery {
  rc_cfc : CfcFin;
  rc_baseline : InstallationBaseline;
  rc_checkpoints : slots CheckpointMetadata;
  rc_oldest : nat;
  rc_len : nat }.

#[export] Instance CfcRecovery_eq_dec : EqDecision CfcRecovery.
Proof. solve_decision. Defined.

Definition CfcRecovery_eta (r : CfcRecovery) : CfcRecovery :=
  MkRecovery (rc_cfc r) (rc_baseline r) (rc_checkpoints r) (rc_oldest r) (rc_len r).
#[export] Instance set_rc_checkpoints : Setter rc_checkpoints := ltac:(build_setter CfcRecovery_eta).
#[export] Instance set_rc_oldest : Setter rc_oldest := ltac:(build_setter CfcRecovery_eta).
#[export] Instance set_rc_len : Setter rc_len := ltac:(build_setter CfcRecovery_eta).

(** ** Operations *)

Definition CfcRecovery_new (cfc : CfcFin) (baseline : InstallationBaseline)
    : result CfcRecovery RecoveryError :=
  if CfcFin_is_zero cfc then Err RecInvalidCfcFin
  else if ib_cfc baseline !=? cfc then Err RecWrongCfc
  else Ok (MkRecovery cfc baseline
             (empty_slots CheckpointMetadata RECOVERY_CHECKPOINT_CAPACITY) 0 0).

Definition CfcRecovery_checkpoint (self : CfcRecovery) (index : nat) : option CheckpointMetadata :=
  if (rc_len self <=? index)%nat then None
  else
    let slot := ((rc_oldest self + index) mod RECOVERY_CHECKPOINT_CAPACITY)%nat in
    mjoin (rc_checkpoints self !! slot).

(** [self.len.saturating_sub(1)] *)
Definition CfcRecovery_latest_checkpoint (self : CfcRecovery) : option CheckpointMetadata :=
  CfcRecovery_checkpoint self (rc_len self - 1).

Definition CfcRecovery_latest_metadata (self : CfcRecovery) : RecoveryMetadata :=
  match CfcRecovery_latest_checkpoint self with
  | Some checkpoint => cm_metadata checkpoint
  | None => ib_metadata (rc_baseline self)
  end.

Definition CfcRecovery_validate_successor (self : CfcRecovery) (checkpoint : CheckpointMetadata)
    : result unit RecoveryError :=
  let latest := CfcRecovery_latest_metadata self in
  let candidate := cm_metadata checkpoint in
  if rm_state_id candidate <=? rm_state_id latest then Err RecCheckpointNotNewer
  else if rm_expfs_sequence candidate <? rm_expfs_sequence latest then Err RecStaleJournalSequence
  else if rm_form_graph_revision candidate <? rm_form_graph_revision latest
  then Err RecStaleStateRevision
  else Ok tt.

(** [replace] returns what the slot held. *)
Definition CfcRecovery_record_checkpoint (self : CfcRecovery) (checkpoint : CheckpointMetadata)
    : CfcRecovery * result (option CheckpointMetadata) RecoveryError :=
  if cm_cfc checkpoint !=? rc_cfc self then (self, Err RecWrongCfc)
  else match CfcRecovery_validate_successor self checkpoint with
  | Err e => (self, Err e)
  | Ok _ =>
      if (rc_len self <? RECOVERY_CHECKPOINT_CAPACITY)%nat then
        let slot := ((rc_oldest self + rc_len self) mod RECOVERY_CHECKPOINT_CAPACITY)%nat in
        (self <| rc_checkpoints := <[slot := Some checkpoint]> (rc_checkpoints self) |>
              <| rc_len := (rc_len self + 1)%nat |>, Ok None)
      else
        let slot := rc_oldest self in
        let evicted := mjoin (rc_checkpoints self !! slot) in
        (self <| rc_checkpoints := <[slot := Some checkpoint]> (rc_checkpoints self) |>
              <| rc_oldest := ((slot + 1) mod RECOVERY_CHECKPOINT_CAPACITY)%nat |>, Ok evicted)
  end.

(** The loop over [candidate], the copy of [self]. *)
Fixpoint record_all (candidate : CfcRecovery) (checkpoints : list CheckpointMetadata)
    : result CfcRecovery RecoveryError :=
  match checkpoints with
  | [] => Ok candidate
  | checkpoint :: checkpoints' =>
      match CfcRecovery_record_checkpoint candidate checkpoint with
      | (candidate, Ok _) => record_all candidate checkpoints'
      | (_, Err e) => Err e
      end
  end.

Definition CfcRecovery_record_batch (self : CfcRecovery) (checkpoints : list CheckpointMetadata)
    : CfcRecovery * result unit RecoveryError :=
  match record_all self checkpoints with
  | Err e => (self, Err e)
  | Ok candidate => (candidate, Ok tt)
  end.

Definition CfcRecovery_select_restore (self : CfcRecovery) (target : RestoreTarget)
    : result RestoreSelection RecoveryError :=
  match target with
  | TargetBaseline =>
      Ok (MkSelection (rc_cfc self) SourceBaseline (ib_metadata (rc_baseline self)))
  | TargetCheckpoint state_id =>
      match List.find (λ checkpoint, rm_state_id (cm_metadata checkpoint) ==? state_id)
              (flatten (rc_checkpoints self)) with
      | Some checkpoint =>
          Ok (MkSelection (rc_cfc self) SourceCheckpoint (cm_metadata checkpoint))
      | None => Err RecCheckpointNotFound
      end
  end.

(** ** The catalog *)

Record RecoveryCatalog := MkRecoveryCatalog { rcat_histories : slots CfcRecovery }.

Definition RecoveryCatalog_new : RecoveryCatalog :=
  MkRecoveryCatalog (empty_slots CfcRecovery MAX_RECOVERY_CFCS).

Definition RecoveryCatalog_recovery (self : RecoveryCatalog) (cfc : CfcFin) : option CfcRecovery :=
  List.find (λ history, rc_cfc history ==? cfc) (flatten (rcat_histories self)).

Definition RecoveryCatalog_install (self : RecoveryCatalog) (cfc : CfcFin)
    (baseline : InstallationBaseline) : RecoveryCatalog * result unit RecoveryError :=
  match RecoveryCatalog_recovery self cfc with
  | Some _ => (self, Err RecDuplicateCfc)
  | None =>
  match CfcRecovery_new cfc baseline with
  | Err e => (self, Err e)
  | Ok history =>
      match fill_slot history (rcat_histories self) with
      | None => (self, Err RecCatalogFull)
      | Some l => (MkRecoveryCatalog l, Ok tt)
      end
  end end.

Definition RecoveryCatalog_record_checkpoint (self : RecoveryCatalog) (cfc : CfcFin)
    (checkpoint : CheckpointMetadata)
    : RecoveryCatalog * result (option CheckpointMetadata) RecoveryError :=
  match RecoveryCatalog_recovery self cfc with
  | None => (self, Err RecUnknownCfc)
  | Some history =>
      let (history', r) := CfcRecovery_record_checkpoint history checkpoint in
      (MkRecoveryCatalog (update_first (λ h, rc_cfc h ==? cfc) (λ _, history')
         (rcat_histories self)), r)
  end.

Definition RecoveryCatalog_select_restore (self : RecoveryCatalog) (cfc : CfcFin)
    (target : RestoreTarget) : result RestoreSelection RecoveryError :=
  match RecoveryCatalog_recovery self cfc with
  | None => Err RecUnknownCfc
  | Some history => CfcRecovery_select_restore history target
  end.

Definition RecoveryCatalog_len (self : RecoveryCatalog) : nat :=
  length (flatten (rcat_histories self)).

(** ** Specification *)

(** The newest [n] members of a history. *)
Definition last_n {A} (n : nat) (l : list A) : list A := drop (length l - n) l.

Definition succeeds (old new : RecoveryMetadata) : Prop :=
  rm_state_id old < rm_state_id new ∧ rm_expfs_sequence old ≤ rm_expfs_sequence new ∧
  rm_form_graph_revision old ≤ rm_form_graph_revision new.

(** [r] keeps the newest eight of [history], every member of which succeeds
    the baseline and each earlier member. *)
Record recovery_rel (r : CfcRecovery) (history : list CheckpointMetadata) : Prop := {
  rr_size : length (rc_checkpoints r) = RECOVERY_CHECKPOINT_CAPACITY;
  rr_ring : ring_rep (rc_checkpoints r) (rc_oldest r)
              (last_n RECOVERY_CHECKPOINT_CAPACITY history);
  rr_len : rc_len r = length (last_n RECOVERY_CHECKPOINT_CAPACITY history);
  rr_cfc : Forall (λ c, cm_cfc c = rc_cfc r) history;
  rr_chain : StronglySorted succeeds (ib_metadata (rc_baseline r) :: (cm_metadata <$> history)) }.

Inductive recovery_op :=
  | RecordCheckpoint (checkpoint : CheckpointMetadata)
  | RecordBatch (checkpoints : list CheckpointMetadata).

Definition recovery_step (r : CfcRecovery) (op : recovery_op) : CfcRecovery :=
  match op with
  | RecordCheckpoint c => (CfcRecovery_record_checkpoint r c).1
  | RecordBatch cs => (CfcRecovery_record_batch r cs).1
  end.

(** What an append-only log of accepted checkpoints gains. *)
Definition published (r : CfcRecovery) (op : recovery_op) : list CheckpointMetadata :=
  match op with
  | RecordCheckpoint c => if is_ok (CfcRecovery_record_checkpoint r c).2 then [c] else []
  | RecordBatch cs => if is_ok (CfcRecovery_record_batch r cs).2 then cs else []
  end.

Fixpoint recovery_run (r : CfcRecovery) (ops : list recovery_op)
    : CfcRecovery * list CheckpointMetadata :=
  match ops with
  | [] => (r, [])
  | op :: ops' =>
      let (r', log) := recovery_run (recovery_step r op) ops' in (r', published r op ++ log)
  end.

(** ** Lemmas *)

Section last_n_lemmas.
Context {A : Type}.
Implicit Types (l : list A).

Lemma last_n_all n l : (length l ≤ n)%nat → last_n n l = l.
Proof. intros. unfold last_n. by replace (length l - n)%nat with 0%nat by lia. Qed.

Lemma length_last_n n l : length (last_n n l) = (length l `min` n)%nat.
Proof. unfold last_n. rewrite length_drop. lia. Qed.

Lemma last_n_snoc n l x :
  (0 < n)%nat → (n ≤ length l)%nat →
  ∃ y q, last_n n l = y :: q ∧ last_n n (l ++ [x]) = q ++ [x].
Proof.
  intros H0 Hn. pose proof (length_last_n n l) as Hl.
  destruct (last_n n l) as [|y q] eqn:E; [simpl in Hl; lia|]. exists y, q. split; [done|].
  unfold last_n in *. rewrite length_app. simpl.
  rewrite drop_app_le by lia. f_equal.
  replace (length l + 1 - n)%nat with (length l - n + 1)%nat by lia.
  rewrite <- drop_drop, E. done.
Qed.

Lemma last_last_n n l : (0 < n)%nat → last (last_n n l) = last l.
Proof.
  intros Hn. unfold last_n. destruct (decide (length l = 0)%nat) as [E|E].
  - apply nil_length_inv in E as ->. done.
  - rewrite !last_lookup, lookup_drop, length_drop. f_equal. lia.
Qed.

Lemma last_n_submseteq n l x : x ∈ last_n n l → x ∈ l.
Proof. intros Hx. rewrite <- (take_drop (length l - n) l), elem_of_app. auto. Qed.
End last_n_lemmas.

Lemma succeeds_trans a b c : succeeds a b → succeeds b c → succeeds a c.
Proof. unfold succeeds. lia. Qed.

Lemma sorted_snoc l z x :
  StronglySorted succeeds l → last l = Some z → succeeds z x →
  StronglySorted succeeds (l ++ [x]).
Proof.
  intros Hs [l' ->]%last_Some Hz. apply StronglySorted_app. split_and!; [|done|].
  - intros y x' Hy ->%list_elem_of_singleton. apply StronglySorted_app in Hs as (Hs & _ & _).
    apply elem_of_app in Hy as [Hy| ->%list_elem_of_singleton]; [|done].
    eapply succeeds_trans; [|done]. apply Hs; [done|]. by apply list_elem_of_singleton.
  - repeat constructor.
Qed.

Lemma capacity_pos : (0 < RECOVERY_CHECKPOINT_CAPACITY)%nat.
Proof. unfold RECOVERY_CHECKPOINT_CAPACITY. lia. Qed.

Lemma checkpoint_lookup r h i :
  recovery_rel r h →
  CfcRecovery_checkpoint r i = last_n RECOVERY_CHECKPOINT_CAPACITY h !! i.
Proof.
  intros []. unfold CfcRecovery_checkpoint. rewrite rr_len0.
  destruct (Nat.leb_spec (length (last_n RECOVERY_CHECKPOINT_CAPACITY h)) i) as [Hi|Hi].
  - symmetry. by apply lookup_ge_None.
  - destruct rr_ring0 as (_ & Hle & Hr). rewrite rr_size0 in Hle, Hr. by rewrite Hr by lia.
Qed.

Lemma latest_metadata_last r h :
  recovery_rel r h →
  last (ib_metadata (rc_baseline r) :: (cm_metadata <$> h)) = Some (CfcRecovery_latest_metadata r).
Proof.
  intros Hr. unfold CfcRecovery_latest_metadata, CfcRecovery_latest_checkpoint.
  rewrite (checkpoint_lookup r h _ Hr), (rr_len _ _ Hr).
  replace (length (last_n RECOVERY_CHECKPOINT_CAPACITY h) - 1)%nat with
    (pred (length (last_n RECOVERY_CHECKPOINT_CAPACITY h))) by lia.
  rewrite <- last_lookup, last_last_n by apply capacity_pos.
  rewrite last_cons, fmap_last. by destruct (last h).
Qed.

(** One publication: refused without a trace, or appended with the oldest
    member falling out of a full ring. *)
Lemma record_checkpoint_spec r h c :
  recovery_rel r h →
  let (r', res) := CfcRecovery_record_checkpoint r c in
  rc_baseline r' = rc_baseline r ∧ rc_cfc r' = rc_cfc r ∧
  match res with
  | Ok evicted =>
      recovery_rel r' (h ++ [c]) ∧
      evicted = (if decide (length h < RECOVERY_CHECKPOINT_CAPACITY)%nat then None
                 else last_n RECOVERY_CHECKPOINT_CAPACITY h !! 0%nat)
  | Err _ => r' = r
  end.
Proof.
  intros Hr. unfold CfcRecovery_record_checkpoint.
  destruct (bool_decide (cm_cfc c = rc_cfc r)) eqn:Hc; [|done]. bools. simpl.
  pose proof (latest_metadata_last r h Hr) as Hlast. unfold CfcRecovery_validate_successor.
  destruct (rm_state_id (cm_metadata c) <=? _) eqn:H1; [done|].
  destruct (rm_expfs_sequence (cm_metadata c) <? _) eqn:H2; [done|].
  destruct (rm_form_graph_revision (cm_metadata c) <? _) eqn:H3; [done|]. bools.
  pose proof Hr as []. rewrite rr_len0, length_last_n. pose proof capacity_pos.
  assert (StronglySorted succeeds
    (ib_metadata (rc_baseline r) :: (cm_metadata <$> h ++ [c]))) as Hchain.
  { rewrite fmap_app, app_comm_cons. eapply sorted_snoc; [done..|]. split_and!; lia. }
  assert (Forall (λ x, cm_cfc x = rc_cfc r) (h ++ [c])) as Hcfc by (apply Forall_app; auto).
  destruct (Nat.ltb_spec (length h `min` RECOVERY_CHECKPOINT_CAPACITY)
    RECOVERY_CHECKPOINT_CAPACITY) as [Hlt|Hge].
  - split_and!; [done..| |by rewrite decide_True by lia].
    assert (last_n RECOVERY_CHECKPOINT_CAPACITY (h ++ [c]) =
      last_n RECOVERY_CHECKPOINT_CAPACITY h ++ [c]) as Eq.
    { rewrite !last_n_all; [done|lia|]. rewrite length_app. simpl. lia. }
    split; simpl; rewrite ?length_insert; auto; rewrite Eq.
    + replace (length h `min` RECOVERY_CHECKPOINT_CAPACITY)%nat with
        (length (last_n RECOVERY_CHECKPOINT_CAPACITY h)) by (rewrite length_last_n; lia).
      pose proof (ring_rep_push _ _ _ c rr_ring0) as Hp.
      rewrite rr_size0, length_last_n in Hp. rewrite length_last_n. apply Hp. lia.
    + rewrite length_app, length_last_n. simpl. lia.
  - destruct (last_n_snoc RECOVERY_CHECKPOINT_CAPACITY h c) as (y & q & Eo & En); [lia..|].
    rewrite Eo in *. pose proof (length_last_n RECOVERY_CHECKPOINT_CAPACITY h) as Hlen.
    rewrite Eo in Hlen. simpl in Hlen.
    rewrite (ring_rep_head _ _ _ rr_ring0). simpl.
    split_and!; [done..| |by rewrite decide_False by lia].
    split; simpl; rewrite ?length_insert; auto; rewrite En.
    + pose proof (ring_rep_shift _ _ y q (Some c) rr_ring0) as Hp. simpl in Hp.
      rewrite rr_size0, length_app in Hp. simpl in Hp. apply Hp; lia.
    + rewrite length_app. simpl. rewrite rr_len0. simpl. lia.
Qed.

Lemma record_all_spec cs r h :
  recovery_rel r h →
  match record_all r cs with
  | Ok r' => recovery_rel r' (h ++ cs) ∧ rc_baseline r' = rc_baseline r ∧ rc_cfc r' = rc_cfc r
  | Err _ => True
  end.
Proof.
  revert r h. induction cs as [|c cs IH]; intros r h Hr; simpl; [by rewrite app_nil_r|].
  pose proof (record_checkpoint_spec r h c Hr) as H.
  destruct (CfcRecovery_record_checkpoint r c) as [r1 [ev|e]]; [|done].
  destruct H as (<- & <- & Hr1 & _). specialize (IH r1 (h ++ [c]) Hr1).
  by rewrite <- app_assoc in IH.
Qed.

Lemma recovery_step_spec r h op :
  recovery_rel r h →
  recovery_rel (recovery_step r op) (h ++ published r op) ∧
  rc_baseline (recovery_step r op) = rc_baseline r ∧ rc_cfc (recovery_step r op) = rc_cfc r.
Proof.
  intros Hr. destruct op as [c|cs]; simpl.
  - pose proof (record_checkpoint_spec r h c Hr) as H.
    destruct (CfcRecovery_record_checkpoint r c) as [r' [ev|e]]; simpl.
    + by destruct H as (? & ? & ? & _).
    + destruct H as (_ & _ & ->). by rewrite app_nil_r.
  - pose proof (record_all_spec cs r h Hr) as H. unfold CfcRecovery_record_batch.
    destruct (record_all r cs) as [r'|e]; simpl; [done|]. by rewrite app_nil_r.
Qed.

Lemma recovery_run_spec ops r h :
  recovery_rel r h →
  recovery_rel (recovery_run r ops).1 (h ++ (recovery_run r ops).2) ∧
  rc_baseline (recovery_run r ops).1 = rc_baseline r ∧ rc_cfc (recovery_run r ops).1 = rc_cfc r.
Proof.
  revert r h. induction ops as [|op ops IH]; intros r h Hr; simpl; [by rewrite app_nil_r|].
  destruct (recovery_step_spec r h op Hr) as (Hr1 & <- & <-). specialize (IH _ _ Hr1).
  destruct (recovery_run (recovery_step r op) ops). simpl in *. by rewrite app_assoc.
Qed.

Lemma new_recovery_rel cfc baseline r :
  CfcRecovery_new cfc baseline = Ok r →
  recovery_rel r [] ∧ rc_baseline r = baseline ∧ rc_cfc r = cfc ∧ ib_cfc baseline = cfc.
Proof.
  unfold CfcRecovery_new. intros H. destruct (CfcFin_is_zero cfc); [done|].
  destruct (bool_decide _) eqn:E; [|done]. bools. apply Ok_inj in H as <-.
  split_and!; try done. split; simpl; auto using length_empty_slots.
  - apply ring_rep_empty, capacity_pos.
  - repeat constructor.
Qed.

(** Distinct state identifiers make the search exact. *)
Lemma select_restore_spec r h id :
  recovery_rel r h →
  match CfcRecovery_select_restore r (TargetCheckpoint id) with
  | Ok sel => ∃ c, c ∈ last_n RECOVERY_CHECKPOINT_CAPACITY h ∧
      rm_state_id (cm_metadata c) = id ∧
      sel = MkSelection (rc_cfc r) SourceCheckpoint (cm_metadata c)
  | Err e => e = RecCheckpointNotFound ∧
      ∀ c, c ∈ last_n RECOVERY_CHECKPOINT_CAPACITY h → rm_state_id (cm_metadata c) ≠ id
  end.
Proof.
  intros []. simpl. destruct (List.find _ _) as [c|] eqn:E.
  - apply find_elem in E as [Hc Hi]. bools. exists c. split; [|done].
    by apply (ring_rep_elem _ _ _ c rr_ring0).
  - split; [done|]. intros c Hc. rewrite find_elem_None in E.
    specialize (E c). simpl in E. rewrite bool_decide_eq_false in E. apply E.
    by apply (ring_rep_elem _ _ _ c rr_ring0).
Qed.

(** ** The catalog *)

(** One history per CFC, each under its own identity. *)
Definition rcat_wf (k : RecoveryCatalog) : Prop :=
  NoDup (rc_cfc <$> flatten (rcat_histories k)).

Lemma rcat_lookup k x :
  rcat_wf k → x ∈ flatten (rcat_histories k) → RecoveryCatalog_recovery k (rc_cfc x) = Some x.
Proof. intros Hw Hx. by apply find_unique. Qed.

Lemma record_checkpoint_cfc r c : rc_cfc (CfcRecovery_record_checkpoint r c).1 = rc_cfc r.
Proof.
  unfold CfcRecovery_record_checkpoint. destruct (negb _); [done|].
  destruct (CfcRecovery_validate_successor r c); [|done]. by destruct (_ <? _)%nat.
Qed.

Lemma rcat_record_wf k cfc c : rcat_wf k → rcat_wf (RecoveryCatalog_record_checkpoint k cfc c).1.
Proof.
  intros Hw. unfold RecoveryCatalog_record_checkpoint.
  destruct (RecoveryCatalog_recovery k cfc) as [x|] eqn:E; [|done].
  apply find_elem in E as [_ Hx]. bools. pose proof (record_checkpoint_cfc x c) as Hc.
  destruct (CfcRecovery_record_checkpoint x c) as [x' r]. simpl in *. unfold rcat_wf. simpl.
  rewrite flatten_update_first, alter_first_fmap; [done|].
  intros y Hy. bools. congruence.
Qed.

(** Publishing for one CFC is publishing in its history, and leaves the
    histories of all others as they were. *)
Lemma rcat_record_isolated k cfc other c :
  rcat_wf k →
  RecoveryCatalog_recovery (RecoveryCatalog_record_checkpoint k cfc c).1 other =
  if decide (other = cfc) then (λ x, (CfcRecovery_record_checkpoint x c).1) <$>
                                 RecoveryCatalog_recovery k cfc
  else RecoveryCatalog_recovery k other.
Proof.
  intros Hw. pose proof (rcat_record_wf k cfc c Hw) as Hw'. revert Hw'.
  unfold RecoveryCatalog_record_checkpoint.
  destruct (RecoveryCatalog_recovery k cfc) as [x|] eqn:E; simpl; [|by destruct (decide _); subst].
  pose proof (record_checkpoint_cfc x c) as Hc.
  destruct (CfcRecovery_record_checkpoint x c) as [x' r]. simpl in *.
  destruct (find_slot _ _ _ E) as (i & Hi & Hx & Hup). bools. rewrite Hup. intros Hw'.
  destruct (decide (other = cfc)) as [->|Hne].
  - rewrite <- Hx, <- Hc. apply rcat_lookup; [done|]. apply (flatten_lookup _ i). simpl.
    apply list_lookup_insert_eq. by eapply lookup_lt_Some.
  - unfold RecoveryCatalog_recovery. simpl.
    apply (find_insert_ne _ _ i x); [done|apply bool_decide_false; congruence..].
Qed.

(** ** Properties *)

(** A history keeps the newest eight checkpoints.  Through any sequence
    of single and batch publications, accepted or refused: the retained
    checkpoints are the last eight of the accepted ones, oldest first; their
    state identifiers rise strictly above the baseline's and the journal
    sequence and graph revision never fall; [select_restore] finds exactly
    the retained checkpoints and always the unchanged baseline. *)
Theorem recovery_keeps_newest (cfc : CfcFin) (baseline : InstallationBaseline) (r0 : CfcRecovery)
    (ops : list recovery_op) (id : Z) :
  CfcRecovery_new cfc baseline = Ok r0 →
  let (r, log) := recovery_run r0 ops in
  let kept := last_n RECOVERY_CHECKPOINT_CAPACITY log in
  (∀ i, CfcRecovery_checkpoint r i = kept !! i) ∧ rc_len r = length kept ∧
  CfcRecovery_latest_checkpoint r = last log ∧
  StronglySorted succeeds (ib_metadata baseline :: (cm_metadata <$> log)) ∧
  CfcRecovery_select_restore r TargetBaseline =
    Ok (MkSelection cfc SourceBaseline (ib_metadata baseline)) ∧
  match CfcRecovery_select_restore r (TargetCheckpoint id) with
  | Ok sel => ∃ c, c ∈ kept ∧ rm_state_id (cm_metadata c) = id ∧
                   sel = MkSelection cfc SourceCheckpoint (cm_metadata c)
  | Err _ => ∀ c, c ∈ kept → rm_state_id (cm_metadata c) ≠ id
  end.
Proof.
  intros (Hr0 & Hb & Hc & _)%new_recovery_rel.
  destruct (recovery_run_spec ops r0 [] Hr0) as (Hr & Hb' & Hc').
  destruct (recovery_run r0 ops) as [r log]. simpl in *.
  pose proof (select_restore_spec r log id Hr) as Hsel.
  rewrite <- Hb, <- Hb', <- Hc, <- Hc'. split_and!.
  - intros i. by apply checkpoint_lookup.
  - apply Hr.
  - unfold CfcRecovery_latest_checkpoint. rewrite (checkpoint_lookup r log), (rr_len _ _ Hr) by done.
    rewrite Nat.sub_1_r, <- last_lookup. apply last_last_n, capacity_pos.
  - apply Hr.
  - done.
  - revert Hsel. unfold CfcRecovery_select_restore.
    destruct (List.find _ _); [done|by intros [_ ?]].
Qed.

(** Publication is atomic.  A refused checkpoint or batch leaves the
    history untouched; an accepted batch is the sequence of its publications;
    an accepted checkpoint evicts the oldest one exactly when eight were
    retained, and the baseline never. *)
Theorem recovery_publication_atomic (cfc : CfcFin) (baseline : InstallationBaseline)
    (r0 : CfcRecovery) (ops : list recovery_op) (c : CheckpointMetadata)
    (batch : list CheckpointMetadata) :
  CfcRecovery_new cfc baseline = Ok r0 →
  let r := (recovery_run r0 ops).1 in
  rc_baseline r = baseline ∧
  match CfcRecovery_record_checkpoint r c with
  | (r', Err _) => r' = r
  | (r', Ok evicted) =>
      rc_baseline r' = baseline ∧ CfcRecovery_latest_checkpoint r' = Some c ∧
      evicted = (if decide (rc_len r < RECOVERY_CHECKPOINT_CAPACITY)%nat then None
                 else CfcRecovery_checkpoint r 0)
  end ∧
  match CfcRecovery_record_batch r batch with
  | (r', Err _) => r' = r
  | (r', Ok _) => (recovery_run r (RecordCheckpoint <$> batch)) = (r', batch)
  end.
Proof.
  intros (Hr0 & Hb & _)%new_recovery_rel r.
  destruct (recovery_run_spec ops r0 [] Hr0) as (Hr & Hb' & _). fold r in Hr, Hb'. simpl in Hr.
  set (log := (recovery_run r0 ops).2) in Hr. split; [congruence|]. split.
  - pose proof (record_checkpoint_spec r log c Hr) as H.
    destruct (CfcRecovery_record_checkpoint r c) as [r' [ev|e]]; [|apply H].
    destruct H as (Hb1 & _ & Hr' & ->). split; [congruence|]. split.
    + unfold CfcRecovery_latest_checkpoint.
      rewrite (checkpoint_lookup r' (log ++ [c])), (rr_len _ _ Hr') by done.
      rewrite Nat.sub_1_r, <- last_lookup, last_last_n by apply capacity_pos. apply last_snoc.
    + rewrite (checkpoint_lookup r log), (rr_len _ _ Hr), length_last_n by done.
      repeat destruct (decide _); try done; lia.
  - clear Hr0 Hb Hb' Hr. unfold CfcRecovery_record_batch. clearbody r. clear log.
    revert r. induction batch as [|x batch IH]; intros r; [done|].
    specialize (IH (CfcRecovery_record_checkpoint r x).1). rewrite fmap_cons.
    cbn [recovery_run recovery_step published record_all].
    destruct (CfcRecovery_record_checkpoint r x) as [r1 [ev|e]]; simpl in *; [|done].
    destruct (record_all r1 batch); [by rewrite IH|done].
Qed.

(** ** Witnesses *)

Definition demo_baseline : InstallationBaseline :=
  MkBaseline (CfcFin_from_u128 1) (MkRecMeta 1 1 1).
Definition demo_recovery : CfcRecovery :=
  MkRecovery (CfcFin_from_u128 1) demo_baseline
    (empty_slots CheckpointMetadata RECOVERY_CHECKPOINT_CAPACITY) 0 0.
Definition demo_checkpoint (id : Z) : CheckpointMetadata :=
  MkCheckpoint (CfcFin_from_u128 1) (MkRecMeta id 2 3).
(** Ten publications, one of them stale. *)
Definition demo_recovery_ops : list recovery_op :=
  [RecordBatch (demo_checkpoint <$> [2; 3; 4; 5; 6; 7]); RecordCheckpoint (demo_checkpoint 7);
   RecordBatch (demo_checkpoint <$> [8; 9; 10])].

Lemma recovery_keeps_newest_witness :
  let (r, log) := recovery_run demo_recovery demo_recovery_ops in
  log = demo_checkpoint <$> [2; 3; 4; 5; 6; 7; 8; 9; 10] ∧
  CfcRecovery_checkpoint r 0 = Some (demo_checkpoint 3) ∧
  CfcRecovery_latest_checkpoint r = Some (demo_checkpoint 10).
Proof.
  pose proof (recovery_keeps_newest (CfcFin_from_u128 1) demo_baseline demo_recovery
    demo_recovery_ops 2 eq_refl) as H.
  assert (∃ r, recovery_run demo_recovery demo_recovery_ops =
    (r, demo_checkpoint <$> [2; 3; 4; 5; 6; 7; 8; 9; 10])) as [r E]
    by (eexists; vm_compute; reflexivity).
  rewrite E in H |- *. destruct H as (H1 & _ & H2 & _).
  split; [reflexivity|]. split; [rewrite H1; reflexivity|rewrite H2; reflexivity].
Defined.

Lemma recovery_publication_atomic_witness :
  let r := (recovery_run demo_recovery demo_recovery_ops).1 in
  match CfcRecovery_record_checkpoint r (demo_checkpoint 11) with
  | (_, Ok evicted) => evicted = Some (demo_checkpoint 3)
  | (r', Err _) => r' = r
  end.
Proof.
  pose proof (recovery_publication_atomic (CfcFin_from_u128 1) demo_baseline demo_recovery
    demo_recovery_ops (demo_checkpoint 11) [] eq_refl) as (_ & H & _).
  cbv zeta.
  destruct (CfcRecovery_record_checkpoint (recovery_run demo_recovery demo_recovery_ops).1
    (demo_checkpoint 11)) as [r' [ev|e]].
  - destruct H as (_ & _ & H). rewrite H. vm_compute. reflexivity.
  - exact H.
Defined.
