(* ===== verification/Blob.v ===== *)
(** * Chunked blobs and the blob store

    Form content in 4 KiB chunks and the transactional per-CFC blob store
    (crates/expos-core/src/blob.rs). *)

From stdpp Require Import prelude list.
From Stdlib Require Import ZArith Lia.
From S2P Require Import Prelude Identity Bytes.

Set Default Goal Selector "!".
Open Scope Z_scope.
Open Scope expos_scope.

(** ** Data *)

Definition BLOB_CHUNK_BYTES : nat := Z.to_nat 4096.
Definition DEFAULT_FORM_BLOB_QUOTA : Z := 32 * 1024.
Definition DEFAULT_CFC_BLOB_QUOTA : Z := 48 * 1024.
Arguments BLOB_CHUNK_BYTES : simpl never.

Record BlobQuota := MkQuota { bq_per_form_bytes : Z; bq_cfc_bytes : Z }.

Definition BlobQuota_default : BlobQuota :=
  MkQuota DEFAULT_FORM_BLOB_QUOTA DEFAULT_CFC_BLOB_QUOTA.

Record ChunkedBlob := MkBlob { bl_chunks : list (list Z); bl_len : nat }.

#[export] Instance ChunkedBlob_eq_dec : EqDecision ChunkedBlob.
Proof. solve_decision. Defined.

Inductive BlobError :=
  | BlobWrongCfc | BlobInvalidForm | BlobDuplicateForm | BlobStaleRevision
  | BlobFormQuotaExceeded | BlobCfcQuotaExceeded | BlobEmptyTransaction | BlobLengthOverflow
  | BlobNotFound.

#[export] Instance BlobError_eq_dec : EqDecision BlobError.
Proof. solve_decision. Defined.

(** ** Operations on one blob *)

Definition ChunkedBlob_new : ChunkedBlob := MkBlob [] 0.

Definition zero_chunk : list Z := replicate BLOB_CHUNK_BYTES 0.

Definition div_ceil (a b : nat) : nat := ((a + (b - 1)) / b)%nat.

(** [resize_with(required, || Box::new([0; BLOB_CHUNK_BYTES]))] *)
Definition resize_chunks (chunks : list (list Z)) (required : nat) : list (list Z) :=
  take required chunks ++ replicate (required - length chunks) zero_chunk.

(** The loop body of [replace]: [chunk.fill(0)], then the copy. *)
Definition fill_chunk (bytes : list Z) (index : nat) (chunk : list Z) : list Z :=
  let start := (index * BLOB_CHUNK_BYTES)%nat in
  let end_ := ((start + BLOB_CHUNK_BYTES) `min` length bytes)%nat in
  let chunk := replicate (length chunk) 0 in
  if (start <? end_)%nat then splice chunk 0 (slice bytes start (end_ - start)) else chunk.

Definition ChunkedBlob_replace (self : ChunkedBlob) (bytes : list Z) : ChunkedBlob :=
  let required := div_ceil (length bytes) BLOB_CHUNK_BYTES in
  MkBlob (imap (fill_chunk bytes) (resize_chunks (bl_chunks self) required)) (length bytes).

Definition ChunkedBlob_from_bytes (bytes : list Z) : ChunkedBlob :=
  ChunkedBlob_replace ChunkedBlob_new bytes.

Definition ChunkedBlob_allocated_bytes (self : ChunkedBlob) : nat :=
  (length (bl_chunks self) * BLOB_CHUNK_BYTES)%nat.

(** [while copied < count] of [read]; indexing a missing chunk panics. *)
Fixpoint read_loop (fuel : nat) (self : ChunkedBlob) (offset count copied : nat)
    (output : list Z) : outcome (list Z * nat) :=
  match fuel with
  | O => OutOfFuel
  | S fuel' =>
      if (count <=? copied)%nat then Returns (output, copied)
      else
        let position := (offset + copied)%nat in
        let chunk := (position / BLOB_CHUNK_BYTES)%nat in
        let within := (position mod BLOB_CHUNK_BYTES)%nat in
        let take_ := ((BLOB_CHUNK_BYTES - within) `min` (count - copied))%nat in
        match bl_chunks self !! chunk with
        | None => Panics
        | Some data =>
            read_loop fuel' self offset count (copied + take_)
              (splice output copied (slice data within take_))
        end
  end.

(** Every iteration copies at least one byte, so [count + 1] rounds do. *)
Definition ChunkedBlob_read (self : ChunkedBlob) (offset : nat) (output : list Z)
    : outcome (list Z * nat) :=
  if (bl_len self <=? offset)%nat || (length output =? 0)%nat then Returns (output, 0%nat)
  else
    let count := (length output `min` (bl_len self - offset))%nat in
    read_loop (S count) self offset count 0 output.

Definition ChunkedBlob_to_vec (self : ChunkedBlob) : outcome (list Z) :=
  match ChunkedBlob_read self 0 (replicate (bl_len self) 0) with
  | Returns (bytes, _) => Returns bytes
  | Panics => Panics
  | OutOfFuel => OutOfFuel
  end.

Fixpoint write_loop (fuel : nat) (chunks : list (list Z)) (offset : nat) (bytes : list Z)
    (copied : nat) : outcome (list (list Z)) :=
  match fuel with
  | O => OutOfFuel
  | S fuel' =>
      if (length bytes <=? copied)%nat then Returns chunks
      else
        let position := (offset + copied)%nat in
        let chunk := (position / BLOB_CHUNK_BYTES)%nat in
        let within := (position mod BLOB_CHUNK_BYTES)%nat in
        let take_ := ((BLOB_CHUNK_BYTES - within) `min` (length bytes - copied))%nat in
        match chunks !! chunk with
        | None => Panics
        | Some data =>
            write_loop fuel'
              (<[chunk := splice data within (slice bytes copied take_)]> chunks)
              offset bytes (copied + take_)
        end
  end.

Definition ChunkedBlob_write (self : ChunkedBlob) (offset : nat) (bytes : list Z)
    : outcome (ChunkedBlob * result unit BlobError) :=
  match checked_add usize_max (Z.of_nat offset) (Zlength bytes) with
  | None => Returns (self, Err BlobLengthOverflow)
  | Some _ =>
      let end_ := (offset + length bytes)%nat in
      let required := div_ceil end_ BLOB_CHUNK_BYTES in
      match write_loop (S (length bytes)) (resize_chunks (bl_chunks self) required)
              offset bytes 0 with
      | Returns chunks => Returns (MkBlob chunks (bl_len self `max` end_)%nat, Ok tt)
      | Panics => Panics
      | OutOfFuel => OutOfFuel
      end
  end.

(** ** The store *)

Record BlobObject := MkBlobObject { bo_form : Fin; bo_revision : Z; bo_content : ChunkedBlob }.
Record BlobTransaction := MkBlobTransaction {
  bt_cfc : CfcFin; bt_replacements : list BlobObject }.
Record CfcBlobStore := MkBlobStore {
  bs_cfc : CfcFin; bs_quota : BlobQuota; bs_objects : list BlobObject; bs_generation : Z }.

Definition BlobTransaction_replace (self : BlobTransaction) (form : Fin) (revision : Z)
    (bytes : list Z) : BlobTransaction * result unit BlobError :=
  if Fin_is_zero form || (revision =? 0) then (self, Err BlobInvalidForm)
  else if existsb (λ object, bo_form object ==? form) (bt_replacements self)
  then (self, Err BlobDuplicateForm)
  else (MkBlobTransaction (bt_cfc self)
          (bt_replacements self ++ [MkBlobObject form revision (ChunkedBlob_from_bytes bytes)]),
        Ok tt).

Definition CfcBlobStore_new (cfc : CfcFin) (quota : BlobQuota) : result CfcBlobStore BlobError :=
  if CfcFin_is_zero cfc || (bq_per_form_bytes quota =? 0) ||
     (bq_cfc_bytes quota <? bq_per_form_bytes quota)
  then Err BlobWrongCfc
  else Ok (MkBlobStore cfc quota [] 0).

Definition CfcBlobStore_begin (self : CfcBlobStore) : BlobTransaction :=
  MkBlobTransaction (bs_cfc self) [].

Definition object_len (object : BlobObject) : Z := Z.of_nat (bl_len (bo_content object)).

Definition find_object (objects : list BlobObject) (form : Fin) : option BlobObject :=
  List.find (λ object, bo_form object ==? form) objects.

(** The preflight loop over the replacements. *)
Fixpoint commit_preflight (self : CfcBlobStore) (replacements : list BlobObject)
    : result unit BlobError :=
  match replacements with
  | [] => Ok tt
  | replacement :: rest =>
      if object_len replacement >? bq_per_form_bytes (bs_quota self)
      then Err BlobFormQuotaExceeded
      else if match find_object (bs_objects self) (bo_form replacement) with
              | Some object => bo_revision replacement <=? bo_revision object
              | None => false
              end
      then Err BlobStaleRevision
      else commit_preflight self rest
  end.

(** [*object = replacement] on the first match, otherwise [push]. *)
Definition publish_object (objects : list BlobObject) (replacement : BlobObject)
    : list BlobObject :=
  match find_object objects (bo_form replacement) with
  | Some _ => alter_first (λ object, bo_form object ==? bo_form replacement) (λ _, replacement)
                objects
  | None => objects ++ [replacement]
  end.

Definition CfcBlobStore_commit (self : CfcBlobStore) (transaction : BlobTransaction)
    : CfcBlobStore * result Z BlobError :=
  if bt_cfc transaction !=? bs_cfc self then (self, Err BlobWrongCfc)
  else
  let replacements := bt_replacements transaction in
  if is_empty replacements then (self, Err BlobEmptyTransaction)
  else match commit_preflight self replacements with
  | Err e => (self, Err e)
  | Ok _ =>
      let retained := Zsum (object_len <$> List.filter
        (λ object, negb (existsb (λ replacement, bo_form replacement ==? bo_form object)
                           replacements)) (bs_objects self)) in
      let staged := Zsum (object_len <$> replacements) in
      if saturating_add usize_max retained staged >? bq_cfc_bytes (bs_quota self)
      then (self, Err BlobCfcQuotaExceeded)
      else
        let generation := Z.max (wrapping_add u64_max (bs_generation self) 1) 1 in
        (MkBlobStore (bs_cfc self) (bs_quota self)
           (fold_left publish_object replacements (bs_objects self)) generation,
         Ok generation)
  end.

Definition CfcBlobStore_read (self : CfcBlobStore) (form : Fin) (offset : nat) (output : list Z)
    : result (outcome (list Z * nat)) BlobError :=
  match find_object (bs_objects self) form with
  | Some object => Ok (ChunkedBlob_read (bo_content object) offset output)
  | None => Err BlobNotFound
  end.

Definition CfcBlobStore_len (self : CfcBlobStore) (form : Fin) : option nat :=
  (λ object, bl_len (bo_content object)) <$> find_object (bs_objects self) form.

Definition CfcBlobStore_used_bytes (self : CfcBlobStore) : Z :=
  Zsum (object_len <$> bs_objects self).

(** ** Specification *)

(** The bytes of all chunks, and the content proper. *)
Definition blob_flat (b : ChunkedBlob) : list Z := concat (bl_chunks b).
Definition blob_contents (b : ChunkedBlob) : list Z := take (bl_len b) (blob_flat b).

Definition whole_chunks (chunks : list (list Z)) : Prop :=
  Forall (λ chunk, length chunk = BLOB_CHUNK_BYTES) chunks.

(** Exactly the chunks the length needs, zero behind the end. *)
Record blob_wf (b : ChunkedBlob) : Prop := {
  bw_chunks : whole_chunks (bl_chunks b);
  bw_count : length (bl_chunks b) = div_ceil (bl_len b) BLOB_CHUNK_BYTES;
  bw_tail : drop (bl_len b) (blob_flat b) =
            replicate (length (blob_flat b) - bl_len b) 0 }.

(** Overwrite [l] from [offset], extending it with zeros where needed. *)
Definition overwrite (l : list Z) (offset : nat) (bytes : list Z) : list Z :=
  splice (l ++ replicate (offset + length bytes - length l) 0) offset bytes.

(** ** Lemmas: slices and chunks *)

Lemma chunk_pos : (0 < BLOB_CHUNK_BYTES)%nat.
Proof. by apply Nat.ltb_lt. Qed.

Lemma length_concat_whole chunks :
  whole_chunks chunks → length (concat chunks) = (length chunks * BLOB_CHUNK_BYTES)%nat.
Proof.
  induction 1 as [|c l Hc _ IH]; simpl in *; [done|]. by rewrite length_app, IH, Hc.
Qed.

(** A chunk is a window of the flat bytes. *)
Lemma concat_split chunks k ch :
  whole_chunks chunks → chunks !! k = Some ch →
  ∃ l1 l2, concat chunks = l1 ++ ch ++ l2 ∧ length l1 = (k * BLOB_CHUNK_BYTES)%nat ∧
           ∀ ch', concat (<[k := ch']> chunks) = l1 ++ ch' ++ l2.
Proof.
  intros Hw Hk. exists (concat (take k chunks)), (concat (drop (S k) chunks)).
  assert (k < length chunks)%nat by (by eapply lookup_lt_Some). split_and!.
  - rewrite <- (take_drop_middle chunks k ch Hk) at 1. by rewrite concat_app.
  - rewrite length_concat_whole by (by apply Forall_take). rewrite length_take. lia.
  - intros ch'. rewrite insert_take_drop by done. by rewrite concat_app.
Qed.

Lemma slice_chunk chunks k ch w t :
  whole_chunks chunks → chunks !! k = Some ch → (w + t ≤ BLOB_CHUNK_BYTES)%nat →
  slice ch w t = slice (concat chunks) (k * BLOB_CHUNK_BYTES + w) t.
Proof.
  intros Hw Hk Ht. destruct (concat_split chunks k ch Hw Hk) as (l1 & l2 & -> & <- & _).
  apply slice_app_mid. by rewrite (Forall_lookup_1 _ _ _ _ Hw Hk).
Qed.

Lemma splice_chunk chunks k ch w d :
  whole_chunks chunks → chunks !! k = Some ch → (w + length d ≤ BLOB_CHUNK_BYTES)%nat →
  concat (<[k := splice ch w d]> chunks) =
    splice (concat chunks) (k * BLOB_CHUNK_BYTES + w) d ∧
  whole_chunks (<[k := splice ch w d]> chunks).
Proof.
  intros Hw Hk Ht. pose proof (Forall_lookup_1 _ _ _ _ Hw Hk) as Hl. simpl in Hl. split.
  - destruct (concat_split chunks k ch Hw Hk) as (l1 & l2 & -> & <- & ->).
    apply splice_app_mid. lia.
  - apply Forall_insert; [done|]. rewrite length_splice; lia.
Qed.

(** ** Lemmas: the loops *)

(** The window of one iteration. *)
Lemma window n (p : nat) (r : nat) :
  (p < n * BLOB_CHUNK_BYTES)%nat → (0 < r)%nat →
  let k := (p / BLOB_CHUNK_BYTES)%nat in
  let w := (p mod BLOB_CHUNK_BYTES)%nat in
  let t := ((BLOB_CHUNK_BYTES - w) `min` r)%nat in
  (k < n)%nat ∧ p = (k * BLOB_CHUNK_BYTES + w)%nat ∧ (w + t ≤ BLOB_CHUNK_BYTES)%nat ∧
  (0 < t ≤ r)%nat.
Proof.
  intros Hp Hr. cbv zeta. pose proof chunk_pos as Hc.
  pose proof (Nat.mod_upper_bound p BLOB_CHUNK_BYTES). split_and!; try lia.
  - apply Nat.Div0.div_lt_upper_bound. lia.
  - rewrite (Nat.div_mod_eq p BLOB_CHUNK_BYTES) at 1. lia.
Qed.

Lemma read_loop_spec fuel b offset count copied output :
  whole_chunks (bl_chunks b) → (offset + count ≤ length (blob_flat b))%nat →
  (copied ≤ count)%nat → (count ≤ length output)%nat → (count - copied < fuel)%nat →
  read_loop fuel b offset count copied output =
    Returns (splice output copied (slice (blob_flat b) (offset + copied) (count - copied)), count).
Proof.
  intros Hw Hflat. pose proof (length_concat_whole _ Hw) as Hlen. unfold blob_flat in *.
  revert copied output. induction fuel as [|fuel IH]; intros copied output Hc Ho Hf; [lia|].
  cbn [read_loop]. destruct (Nat.leb_spec count copied) as [Hle|Hlt].
  { replace copied with count by lia. unfold slice. by rewrite Nat.sub_diag, take_0, splice_nil. }
  destruct (window (length (bl_chunks b)) (offset + copied) (count - copied)) as (Hk & Hp & Hwt & Ht);
    [lia..|].
  set (k := ((offset + copied) / BLOB_CHUNK_BYTES)%nat) in *.
  set (w := ((offset + copied) mod BLOB_CHUNK_BYTES)%nat) in *.
  set (t := ((BLOB_CHUNK_BYTES - w) `min` (count - copied))%nat) in *.
  destruct (lookup_lt_is_Some_2 _ _ Hk) as [ch Hch]. rewrite Hch.
  rewrite (slice_chunk _ _ _ _ _ Hw Hch Hwt), <- Hp.
  assert (length (slice (concat (bl_chunks b)) (offset + copied) t) = t) as Hsl
    by (apply length_slice; lia).
  rewrite IH; [|lia|rewrite length_splice; lia|lia]. f_equal. f_equal.
  replace (count - copied)%nat with (t + (count - (copied + t)))%nat by lia.
  rewrite slice_add, <- splice_splice; rewrite Hsl.
  - by rewrite Nat.add_assoc.
  - rewrite length_slice; lia.
Qed.

(** On a well-formed blob [read] never panics and copies a slice. *)
Lemma blob_read_spec b offset output :
  whole_chunks (bl_chunks b) → (bl_len b ≤ length (blob_flat b))%nat →
  let count := (length output `min` (bl_len b - offset))%nat in
  ChunkedBlob_read b offset output =
    Returns (slice (blob_contents b) offset count ++ drop count output, count).
Proof.
  intros Hw Hl count. unfold ChunkedBlob_read.
  destruct (Nat.leb_spec (bl_len b) offset) as [Ho|Ho]; cbn [orb].
  { replace count with 0%nat by lia. done. }
  destruct (Nat.eqb_spec (length output) 0) as [E|E].
  { replace count with 0%nat by lia. done. }
  fold count. rewrite read_loop_spec by (done || lia). f_equal. f_equal. unfold splice.
  rewrite take_0. cbn [app]. rewrite Nat.sub_0_r, Nat.add_0_r, Nat.add_0_l.
  rewrite length_slice by lia. f_equal. unfold slice, blob_contents.
  rewrite skipn_firstn_comm, take_take. f_equal. lia.
Qed.

Lemma blob_to_vec_spec b :
  whole_chunks (bl_chunks b) → (bl_len b ≤ length (blob_flat b))%nat →
  ChunkedBlob_to_vec b = Returns (blob_contents b).
Proof.
  intros Hw Hl. unfold ChunkedBlob_to_vec. rewrite blob_read_spec by done.
  rewrite length_replicate, Nat.sub_0_r, Nat.min_id, drop_ge, app_nil_r
    by (rewrite length_replicate; lia).
  unfold slice. rewrite drop_0, take_ge; [done|]. unfold blob_contents. rewrite length_take. lia.
Qed.

Lemma write_loop_spec fuel chunks offset bytes copied :
  whole_chunks chunks → (offset + length bytes ≤ length (concat chunks))%nat →
  (copied ≤ length bytes)%nat → (length bytes - copied < fuel)%nat →
  ∃ chunks', write_loop fuel chunks offset bytes copied = Returns chunks' ∧
    whole_chunks chunks' ∧ length chunks' = length chunks ∧
    concat chunks' = splice (concat chunks) (offset + copied) (drop copied bytes).
Proof.
  revert chunks copied. induction fuel as [|fuel IH]; intros chunks copied Hw Hl Hc Hf; [lia|].
  pose proof (length_concat_whole _ Hw) as Hlen. cbn [write_loop].
  destruct (Nat.leb_spec (length bytes) copied) as [Hle|Hlt].
  { exists chunks. split_and!; try done. by rewrite drop_ge, splice_nil by lia. }
  destruct (window (length chunks) (offset + copied) (length bytes - copied))
    as (Hk & Hp & Hwt & Ht); [lia..|].
  set (k := ((offset + copied) / BLOB_CHUNK_BYTES)%nat) in *.
  set (w := ((offset + copied) mod BLOB_CHUNK_BYTES)%nat) in *.
  set (t := ((BLOB_CHUNK_BYTES - w) `min` (length bytes - copied))%nat) in *.
  destruct (lookup_lt_is_Some_2 _ _ Hk) as [ch Hch]. rewrite Hch.
  assert (length (slice bytes copied t) = t) as Hsl by (apply length_slice; lia).
  destruct (splice_chunk chunks k ch w (slice bytes copied t) Hw Hch) as [Hcat Hw']; [lia|].
  rewrite <- Hp in Hcat.
  destruct (IH (<[k := splice ch w (slice bytes copied t)]> chunks) (copied + t)%nat)
    as (chunks' & -> & Hw'' & Hlen' & Hcat'); [done|rewrite Hcat, length_splice; lia|lia|lia|].
  exists chunks'. split_and!; [done|done|by rewrite Hlen', length_insert|].
  rewrite Hcat', Hcat. replace (offset + (copied + t))%nat with
    (offset + copied + length (slice bytes copied t))%nat by lia.
  rewrite splice_splice; [|rewrite length_drop; lia]. f_equal. unfold slice.
  by rewrite <- (drop_drop bytes t copied), take_drop.
Qed.

(** ** Lemmas: building and overwriting *)

Lemma div_ceil_spec a :
  (a ≤ div_ceil a BLOB_CHUNK_BYTES * BLOB_CHUNK_BYTES < a + BLOB_CHUNK_BYTES)%nat.
Proof.
  unfold div_ceil. pose proof chunk_pos.
  pose proof (Nat.div_mod_eq (a + (BLOB_CHUNK_BYTES - 1)) BLOB_CHUNK_BYTES).
  pose proof (Nat.mod_upper_bound (a + (BLOB_CHUNK_BYTES - 1)) BLOB_CHUNK_BYTES). nia.
Qed.

Lemma div_ceil_mono a b :
  (a ≤ b)%nat → (div_ceil a BLOB_CHUNK_BYTES ≤ div_ceil b BLOB_CHUNK_BYTES)%nat.
Proof. intros. unfold div_ceil. apply Nat.Div0.div_le_mono. lia. Qed.

Lemma concat_zero_chunks n :
  concat (replicate n zero_chunk) = replicate (n * BLOB_CHUNK_BYTES) 0.
Proof.
  induction n as [|n IH]; [done|]. rewrite replicate_S. cbn [concat]. rewrite IH.
  unfold zero_chunk. by rewrite <- replicate_add.
Qed.

Lemma resize_whole chunks n :
  whole_chunks chunks → whole_chunks (resize_chunks chunks n) ∧
  length (resize_chunks chunks n) = n.
Proof.
  intros Hw. unfold resize_chunks. split.
  - apply Forall_app. split; [by apply Forall_take|]. apply Forall_replicate, length_replicate.
  - rewrite length_app, length_take, length_replicate. lia.
Qed.

Lemma concat_slices (l : list Z) n :
  length l = (n * BLOB_CHUNK_BYTES)%nat →
  concat ((λ i, slice l (i * BLOB_CHUNK_BYTES) BLOB_CHUNK_BYTES) <$> seq 0 n) = l.
Proof.
  revert l. induction n as [|n IH]; intros l Hl; csimpl.
  { by apply nil_length_inv in Hl as ->. }
  rewrite <- fmap_S_seq, <- list_fmap_compose.
  transitivity (take BLOB_CHUNK_BYTES l ++ drop BLOB_CHUNK_BYTES l); [|by rewrite take_drop].
  f_equal. rewrite <- (IH (drop BLOB_CHUNK_BYTES l)) by (rewrite length_drop; lia). f_equal.
  apply list_fmap_ext. intros _ i _. simpl. unfold slice. rewrite drop_drop. do 2 f_equal.
Qed.

(** The bytes padded to whole chunks. *)
Definition padded (bytes : list Z) : list Z :=
  bytes ++ replicate (div_ceil (length bytes) BLOB_CHUNK_BYTES * BLOB_CHUNK_BYTES - length bytes) 0.

Lemma fill_chunk_slice bytes i ch :
  (i < div_ceil (length bytes) BLOB_CHUNK_BYTES)%nat → length ch = BLOB_CHUNK_BYTES →
  fill_chunk bytes i ch = slice (padded bytes) (i * BLOB_CHUNK_BYTES) BLOB_CHUNK_BYTES.
Proof.
  intros Hi Hch. pose proof (div_ceil_spec (length bytes)) as Hd. pose proof chunk_pos as Hc.
  assert (i * BLOB_CHUNK_BYTES + BLOB_CHUNK_BYTES ≤
          div_ceil (length bytes) BLOB_CHUNK_BYTES * BLOB_CHUNK_BYTES)%nat as Hi' by nia.
  assert (i * BLOB_CHUNK_BYTES < length bytes)%nat as Hs by lia.
  unfold fill_chunk, padded, splice, slice. rewrite Hch.
  set (s := (i * BLOB_CHUNK_BYTES)%nat) in *.
  rewrite (proj2 (Nat.ltb_lt _ _)) by lia. rewrite take_0. cbn [app].
  rewrite drop_replicate, (drop_app_le bytes) by lia.
  rewrite take_app, take_replicate, !length_take, !length_drop. f_equal.
  - destruct (decide (s + BLOB_CHUNK_BYTES ≤ length bytes)%nat).
    + f_equal. lia.
    + rewrite !take_ge; [done|rewrite length_drop; lia..].
  - f_equal. lia.
Qed.

Lemma replace_flat b bytes :
  whole_chunks (bl_chunks b) →
  blob_flat (ChunkedBlob_replace b bytes) = padded bytes ∧
  blob_wf (ChunkedBlob_replace b bytes).
Proof.
  intros Hw. pose proof (div_ceil_spec (length bytes)) as Hd.
  set (n := div_ceil (length bytes) BLOB_CHUNK_BYTES) in *.
  destruct (resize_whole (bl_chunks b) n Hw) as [Hr Hn].
  assert (imap (fill_chunk bytes) (resize_chunks (bl_chunks b) n) =
    (λ i, slice (padded bytes) (i * BLOB_CHUNK_BYTES) BLOB_CHUNK_BYTES) <$> seq 0 n) as Hmap.
  { apply list_eq. intros i. rewrite list_lookup_imap, list_lookup_fmap.
    destruct (decide (i < n)%nat) as [Hi|Hi].
    - rewrite lookup_seq_lt by done. simpl.
      destruct (lookup_lt_is_Some_2 (resize_chunks (bl_chunks b) n) i) as [ch Hch]; [lia|].
      rewrite Hch. simpl. f_equal. apply fill_chunk_slice; [done|].
      by apply (Forall_lookup_1 _ _ _ _ Hr Hch).
    - rewrite !lookup_ge_None_2; [done|rewrite length_seq; lia|lia]. }
  assert (length (padded bytes) = (n * BLOB_CHUNK_BYTES)%nat) as Hp.
  { unfold padded. rewrite length_app, length_replicate. fold n. lia. }
  assert (blob_flat (ChunkedBlob_replace b bytes) = padded bytes) as Hflat.
  { unfold blob_flat, ChunkedBlob_replace. cbn [bl_chunks]. fold n. rewrite Hmap.
    by apply concat_slices. }
  split; [done|]. split.
  - unfold ChunkedBlob_replace. cbn [bl_chunks]. fold n. rewrite Hmap. unfold whole_chunks.
    apply Forall_fmap, Forall_seq. intros i Hi. simpl. rewrite length_slice; nia.
  - unfold ChunkedBlob_replace. cbn [bl_chunks bl_len]. fold n. by rewrite length_imap.
  - rewrite Hflat, Hp. cbn [bl_len ChunkedBlob_replace]. unfold padded. fold n.
    by rewrite drop_app_length.
Qed.

Lemma from_bytes_spec bytes :
  blob_wf (ChunkedBlob_from_bytes bytes) ∧
  blob_contents (ChunkedBlob_from_bytes bytes) = bytes ∧
  bl_len (ChunkedBlob_from_bytes bytes) = length bytes.
Proof.
  destruct (replace_flat ChunkedBlob_new bytes) as [Hf Hw]; [by constructor|].
  unfold ChunkedBlob_from_bytes. split_and!; [done| |done].
  unfold blob_contents. rewrite Hf. unfold padded. cbn [bl_len ChunkedBlob_replace].
  by rewrite take_app_length.
Qed.

Lemma wf_len b : blob_wf b → (bl_len b ≤ length (blob_flat b))%nat.
Proof.
  intros [Hw Hn _]. unfold blob_flat. rewrite length_concat_whole, Hn by done.
  apply div_ceil_spec.
Qed.

Lemma wf_flat b :
  blob_wf b →
  blob_flat b = blob_contents b ++ replicate (length (blob_flat b) - bl_len b) 0 ∧
  length (blob_contents b) = bl_len b.
Proof.
  intros Hw. pose proof (wf_len b Hw). destruct Hw as [_ _ Ht]. unfold blob_contents.
  rewrite <- Ht, take_drop. split; [done|]. rewrite length_take. lia.
Qed.

(** Reading past the last chunk ends in the index panic. *)
Lemma read_loop_panics fuel b offset count copied output :
  whole_chunks (bl_chunks b) → (offset + copied ≤ length (blob_flat b) < offset + count)%nat →
  (count - copied < fuel)%nat → read_loop fuel b offset count copied output = Panics.
Proof.
  intros Hw. pose proof (length_concat_whole _ Hw) as Hlen. unfold blob_flat.
  pose proof chunk_pos as Hc. revert copied output.
  induction fuel as [|fuel IH]; intros copied output Hp Hf; [lia|]. cbn [read_loop].
  destruct (Nat.leb_spec count copied) as [Hle|Hlt]; [lia|].
  destruct (decide (offset + copied < length (bl_chunks b) * BLOB_CHUNK_BYTES)%nat) as [Hin|Hout].
  - destruct (window (length (bl_chunks b)) (offset + copied) (count - copied))
      as (Hk & Hpos & Hwt & Ht); [lia..|].
    destruct (lookup_lt_is_Some_2 _ _ Hk) as [ch ->]. apply IH; [|lia]. split; [|lia].
    assert ((offset + copied) / BLOB_CHUNK_BYTES * BLOB_CHUNK_BYTES + BLOB_CHUNK_BYTES ≤
            length (bl_chunks b) * BLOB_CHUNK_BYTES)%nat by nia. lia.
  - replace (offset + copied)%nat with (length (bl_chunks b) * BLOB_CHUNK_BYTES)%nat by lia.
    rewrite Nat.div_mul by lia. by rewrite lookup_ge_None_2.
Qed.

(** A content with fewer chunks than its length needs cannot be read. *)
Lemma to_vec_panics b :
  whole_chunks (bl_chunks b) → (length (blob_flat b) < bl_len b)%nat → ChunkedBlob_to_vec b = Panics.
Proof.
  intros Hw Hl. unfold ChunkedBlob_to_vec, ChunkedBlob_read.
  rewrite (proj2 (Nat.leb_gt _ _)), length_replicate, (proj2 (Nat.eqb_neq _ _)) by lia.
  cbn [orb]. rewrite Nat.sub_0_r, Nat.min_id, read_loop_panics; [done|done|lia|lia].
Qed.

(** The chunks after [resize_with] and the copy loop of [write]. *)
Lemma write_spec b offset bytes :
  whole_chunks (bl_chunks b) → Z.of_nat offset + Zlength bytes ≤ usize_max →
  let end_ := (offset + length bytes)%nat in
  let required := div_ceil end_ BLOB_CHUNK_BYTES in
  ∃ chunks, ChunkedBlob_write b offset bytes =
      Returns (MkBlob chunks (bl_len b `max` end_), Ok tt) ∧
    whole_chunks chunks ∧ length chunks = required ∧
    concat chunks = splice (concat (resize_chunks (bl_chunks b) required)) offset bytes.
Proof.
  intros Hw Hu end_ required. destruct (resize_whole (bl_chunks b) required Hw) as [Hr Hn].
  pose proof (length_concat_whole _ Hr) as Hl. rewrite Hn in Hl.
  destruct (write_loop_spec (S (length bytes)) (resize_chunks (bl_chunks b) required)
    offset bytes 0) as (chunks & Hloop & ? & Hlen & Hcat);
    [done|rewrite Hl; apply (div_ceil_spec end_)|lia|lia|].
  exists chunks. split_and!; [|done|congruence|by rewrite Nat.add_0_r, drop_0 in Hcat].
  unfold ChunkedBlob_write, checked_add. rewrite (proj2 (Z.leb_le _ _)) by done.
  fold end_ required. by rewrite Hloop.
Qed.

Lemma write_extends b offset bytes :
  blob_wf b → Z.of_nat offset + Zlength bytes ≤ usize_max →
  (length (bl_chunks b) ≤ div_ceil (offset + length bytes) BLOB_CHUNK_BYTES)%nat →
  ∃ b', ChunkedBlob_write b offset bytes = Returns (b', Ok tt) ∧ blob_wf b' ∧
        blob_contents b' = overwrite (blob_contents b) offset bytes.
Proof.
  intros Hw Hu Hgrow. pose proof Hw as [Hwc Hcount _].
  destruct (write_spec b offset bytes Hwc Hu) as (chunks & -> & Hwc' & Hlen & Hcat).
  set (end_ := (offset + length bytes)%nat) in *.
  set (required := div_ceil end_ BLOB_CHUNK_BYTES) in *.
  eexists. split; [done|]. destruct (wf_flat b Hw) as [Hflat Hcl].
  pose proof (wf_len b Hw) as Hbl. pose proof (div_ceil_spec end_) as Hd. fold required in Hd.
  set (pad := (required * BLOB_CHUNK_BYTES - bl_len b)%nat).
  pose proof (length_concat_whole _ Hwc) as Hfl. fold (blob_flat b) in Hfl.
  assert (length (bl_chunks b) * BLOB_CHUNK_BYTES ≤ required * BLOB_CHUNK_BYTES)%nat by nia.
  assert (concat (resize_chunks (bl_chunks b) required) =
    blob_contents b ++ replicate pad 0) as Hres.
  { unfold resize_chunks. rewrite take_ge, concat_app, concat_zero_chunks by done.
    fold (blob_flat b). rewrite Hflat at 1. rewrite <- app_assoc, <- replicate_add. do 2 f_equal.
    subst pad. rewrite Hfl, Nat.mul_sub_distr_r. lia. }
  rewrite Hres in Hcat. set (F := blob_contents b ++ replicate pad 0) in *.
  assert (length F = (required * BLOB_CHUNK_BYTES)%nat) as HF.
  { subst F. rewrite length_app, length_replicate, Hcl. subst pad. lia. }
  assert (bl_len b `max` end_ ≤ required * BLOB_CHUNK_BYTES)%nat as Hmax by lia.
  split; [split|].
  - done.
  - cbn [bl_chunks bl_len]. rewrite Hlen.
    apply Nat.le_antisymm; [apply div_ceil_mono; lia|].
    destruct (Nat.max_spec (bl_len b) end_) as [[_ ->]|[? ->]]; [done|].
    by rewrite <- Hcount.
  - unfold blob_flat. cbn [bl_chunks bl_len].
    rewrite Hcat, drop_splice, length_splice by (unfold end_ in *; lia). subst F.
    rewrite drop_app_ge, drop_replicate, length_app, length_replicate, Hcl by lia.
    f_equal. lia.
  - unfold blob_contents at 1, blob_flat, overwrite. cbn [bl_chunks bl_len].
    rewrite Hcat, take_splice by (unfold end_ in *; lia). f_equal. subst F.
    rewrite take_app, take_replicate, take_ge, Hcl by lia. do 2 f_equal. fold end_. lia.
Qed.

(** ** Lemmas: the store *)

Record store_wf (s : CfcBlobStore) : Prop := {
  st_forms : NoDup (bo_form <$> bs_objects s);
  st_blobs : Forall (λ o, blob_wf (bo_content o)) (bs_objects s);
  st_form_quota : Forall (λ o, object_len o ≤ bq_per_form_bytes (bs_quota s)) (bs_objects s);
  st_cfc_quota : CfcBlobStore_used_bytes s ≤ bq_cfc_bytes (bs_quota s) }.

Record transaction_wf (t : BlobTransaction) : Prop := {
  tw_forms : NoDup (bo_form <$> bt_replacements t);
  tw_blobs : Forall (λ o, blob_wf (bo_content o)) (bt_replacements t);
  tw_revisions : Forall (λ o, Fin_is_zero (bo_form o) = false ∧ bo_revision o ≠ 0)
                   (bt_replacements t) }.

Lemma find_object_Some objects form o :
  find_object objects form = Some o → o ∈ objects ∧ bo_form o = form.
Proof. intros [? ?%bool_decide_eq_true_1]%find_elem. done. Qed.

Lemma find_object_None objects form : find_object objects form = None ↔ form ∉ bo_form <$> objects.
Proof.
  unfold find_object. rewrite find_elem_None, list_elem_of_fmap.
  setoid_rewrite bool_decide_eq_false. naive_solver.
Qed.

Lemma existsb_form replacements form :
  existsb (λ r, bo_form r ==? form) replacements = true ↔ form ∈ bo_form <$> replacements.
Proof.
  rewrite existsb_elem, list_elem_of_fmap. setoid_rewrite bool_decide_eq_true. naive_solver.
Qed.

Lemma transaction_replace_wf t form revision bytes :
  transaction_wf t → transaction_wf (BlobTransaction_replace t form revision bytes).1.
Proof.
  intros Hw. unfold BlobTransaction_replace. destruct (_ || _) eqn:Hz; [done|].
  destruct (existsb _ _) eqn:He; [done|]. bools. destruct Hw as [H1 H2 H3].
  pose proof (from_bytes_spec bytes) as (Hb & _). split; simpl.
  - rewrite fmap_app. apply NoDup_app. split_and!; [done| |apply NoDup_singleton].
    intros f Hf ->%list_elem_of_singleton. apply existsb_form in Hf. simpl in Hf. congruence.
  - apply Forall_app. auto.
  - apply Forall_app. split; [done|]. by constructor.
Qed.

Section filter_lemmas.
Context {A : Type}.
Implicit Types (p q : A → bool) (l : list A).

Lemma filter_perm p l l' : l ≡ₚ l' → List.filter p l ≡ₚ List.filter p l'.
Proof.
  induction 1 as [|x l l' _ IH|x y l|l l' l'' _ IH1 _ IH2]; simpl.
  - done.
  - destruct (p x); by rewrite IH.
  - destruct (p x), (p y); try done. apply Permutation_swap.
  - by rewrite IH1.
Qed.

Lemma filter_filter p q l : List.filter p (List.filter q l) = List.filter (λ x, q x && p x) l.
Proof.
  induction l as [|x l IH]; simpl; [done|]. destruct (q x); simpl; [|done].
  destruct (p x); by rewrite IH.
Qed.

Lemma filter_all p l : (∀ x, x ∈ l → p x = true) → List.filter p l = l.
Proof.
  induction l as [|x l IH]; simpl; [done|]. intros H. rewrite H by (by left).
  f_equal. apply IH. intros y Hy. apply H. by right.
Qed.
End filter_lemmas.

Definition not_form (form : Fin) (o : BlobObject) : bool := bo_form o !=? form.
Definition not_replaced (replacements : list BlobObject) (o : BlobObject) : bool :=
  negb (existsb (λ r, bo_form r ==? bo_form o) replacements).

Lemma not_replaced_spec rs o : not_replaced rs o = true ↔ bo_form o ∉ bo_form <$> rs.
Proof. unfold not_replaced. by rewrite negb_true_iff, <- existsb_form, not_true_iff_false. Qed.

Lemma publish_perm objects r :
  NoDup (bo_form <$> objects) →
  publish_object objects r ≡ₚ r :: List.filter (not_form (bo_form r)) objects.
Proof.
  intros Hd. assert (∀ l, bo_form r ∉ bo_form <$> l → List.filter (not_form (bo_form r)) l = l)
    as Hall.
  { intros l Hl. apply filter_all. intros x Hx. unfold not_form. apply negb_true_iff.
    apply bool_decide_eq_false. intros E. apply Hl. rewrite <- E. by apply list_elem_of_fmap_2. }
  unfold publish_object. destruct (find_object objects (bo_form r)) as [o|] eqn:E.
  - apply find_object_Some in E as [Ho Hf].
    assert (bo_form r ∈ bo_form <$> objects) as Hin by (rewrite <- Hf; by apply list_elem_of_fmap_2).
    clear o Ho Hf. induction objects as [|x l IH]; [by apply elem_of_nil in Hin|].
    csimpl in Hd. apply NoDup_cons in Hd as [Hx Hd]. csimpl in Hin. simpl.
    unfold not_form at 1. case_bool_decide as Ex; simpl.
    + rewrite Hall; [done|]. by rewrite <- Ex.
    + apply elem_of_cons in Hin as [Hin|Hin]; [congruence|].
      rewrite IH by done. apply Permutation_swap.
  - apply find_object_None in E. rewrite Hall by done. symmetry. apply Permutation_cons_append.
Qed.

Lemma publish_NoDup objects r :
  NoDup (bo_form <$> objects) → NoDup (bo_form <$> publish_object objects r).
Proof.
  intros Hd. rewrite publish_perm by done. csimpl. apply NoDup_cons. split.
  - intros (x & E & Hx)%list_elem_of_fmap. apply elem_of_filter_bool in Hx as [_ Hx].
    unfold not_form in Hx. bools. congruence.
  - clear -Hd. induction objects as [|x l IH]; [done|]. csimpl in Hd.
    apply NoDup_cons in Hd as [Hx Hd]. simpl. destruct (not_form (bo_form r) x); [|auto].
    csimpl. apply NoDup_cons. split; [|auto]. contradict Hx.
    apply list_elem_of_fmap in Hx as (y & -> & Hy). apply elem_of_filter_bool in Hy as [Hy _].
    by apply list_elem_of_fmap_2.
Qed.

Lemma publish_all_perm rs objects :
  NoDup (bo_form <$> objects) → NoDup (bo_form <$> rs) →
  fold_left publish_object rs objects ≡ₚ rs ++ List.filter (not_replaced rs) objects ∧
  NoDup (bo_form <$> fold_left publish_object rs objects).
Proof.
  revert objects. induction rs as [|r rs IH]; intros objects Hd Hr; simpl.
  { split; [|done]. by rewrite filter_all. }
  csimpl in Hr. apply NoDup_cons in Hr as [Hn Hr].
  destruct (IH (publish_object objects r)) as [IHp IHd]; [by apply publish_NoDup|done|].
  split; [|done]. rewrite IHp, (filter_perm _ _ _ (publish_perm objects r Hd)). simpl.
  rewrite (proj2 (not_replaced_spec rs r) Hn), <- Permutation_middle. constructor.
  rewrite filter_filter. apply Permutation_app; [done|].
  erewrite List.filter_ext; [done|]. intros x. unfold not_form, not_replaced. simpl.
  rewrite negb_orb. f_equal. f_equal. apply bool_decide_ext. naive_solver.
Qed.

Lemma preflight_spec s rs :
  commit_preflight s rs = Ok tt ↔
  Forall (λ r, object_len r ≤ bq_per_form_bytes (bs_quota s) ∧
    ∀ o, find_object (bs_objects s) (bo_form r) = Some o → bo_revision o < bo_revision r) rs.
Proof.
  induction rs as [|r rs IH]; simpl; [split; auto using Forall_nil_2|].
  rewrite Forall_cons, <- IH. destruct (_ >? _) eqn:E1; bools.
  { split; [done|]. intros [[? _] _]. lia. }
  destruct (find_object (bs_objects s) (bo_form r)) as [o|].
  - destruct (_ <=? _) eqn:E2; bools; naive_solver lia.
  - naive_solver lia.
Qed.

Lemma find_object_spec objects form o :
  NoDup (bo_form <$> objects) →
  find_object objects form = Some o ↔ o ∈ objects ∧ bo_form o = form.
Proof.
  intros Hd. split; [apply find_object_Some|]. intros [Ho Hf]. by apply find_unique.
Qed.

Lemma commit_spec s t :
  store_wf s → transaction_wf t → bq_cfc_bytes (bs_quota s) < usize_max →
  match CfcBlobStore_commit s t with
  | (s', Err _) => s' = s
  | (s', Ok _) =>
      store_wf s' ∧ bs_quota s' = bs_quota s ∧ bs_cfc s' = bs_cfc s ∧
      (∀ r o, r ∈ bt_replacements t → find_object (bs_objects s) (bo_form r) = Some o →
              bo_revision o < bo_revision r) ∧
      ∀ form, find_object (bs_objects s') form =
        match find_object (bt_replacements t) form with
        | Some r => Some r
        | None => find_object (bs_objects s) form
        end
  end.
Proof.
  intros [S1 S2 S3 S4] [T1 T2 T3] Hq. unfold CfcBlobStore_commit.
  destruct (negb _); [done|]. destruct t as [tc rs]. simpl in *.
  destruct (is_empty rs); [done|].
  destruct (commit_preflight s rs) as [[]|] eqn:Hpre; [|done].
  apply preflight_spec in Hpre.
  change (λ object, negb (existsb (λ replacement, bo_form replacement ==? bo_form object) rs))
    with (not_replaced rs).
  destruct (_ >? _) eqn:Hsum; [done|]. bools.
  destruct (publish_all_perm rs (bs_objects s) S1 T1) as [Hp Hd].
  rewrite Forall_forall in Hpre. rewrite Forall_forall in S2, S3, T2.
  split_and!; try done.
  - split; simpl; [done|..].
    + apply Forall_forall. intros o. rewrite Hp, elem_of_app, elem_of_filter_bool. naive_solver.
    + apply Forall_forall. intros o. rewrite Hp, elem_of_app, elem_of_filter_bool. naive_solver.
    + unfold CfcBlobStore_used_bytes. simpl.
      rewrite (Zsum_perm _ _ (fmap_Permutation object_len _ _ Hp)), fmap_app, Zsum_app.
      unfold saturating_add in Hsum. lia.
  - intros r o Hr Ho. by apply (proj2 (Hpre r Hr)).
  - intros form. apply option_eq. intros o. simpl. rewrite find_object_spec by done.
    rewrite Hp, elem_of_app, elem_of_filter_bool, not_replaced_spec.
    destruct (find_object rs form) as [r|] eqn:Hr.
    + apply find_object_Some in Hr as [Hr Hrf]. split.
      * intros [[Ho|[_ Hn]] Hof].
        -- f_equal. by apply (NoDup_key_inj bo_form rs); [..|congruence].
        -- destruct Hn. rewrite Hof, <- Hrf. by apply list_elem_of_fmap_2.
      * intros [= <-]. auto.
    + apply find_object_None in Hr. rewrite find_object_spec by done. split.
      * intros [[Ho|[Ho _]] Hof]; [|done]. destruct Hr. rewrite <- Hof. by apply list_elem_of_fmap_2.
      * intros [Ho Hof]. split; [|done]. right. split; [done|]. by rewrite Hof.
Qed.

(** A store as the program builds it. *)
Inductive transaction_reachable : BlobTransaction → Prop :=
  | tr_begin s : transaction_reachable (CfcBlobStore_begin s)
  | tr_replace t form revision bytes :
      transaction_reachable t →
      transaction_reachable (BlobTransaction_replace t form revision bytes).1.

Inductive store_reachable : CfcBlobStore → Prop :=
  | sr_new cfc quota s :
      CfcBlobStore_new cfc quota = Ok s → 0 ≤ bq_per_form_bytes quota →
      bq_cfc_bytes quota < usize_max → store_reachable s
  | sr_commit s t :
      store_reachable s → transaction_reachable t →
      store_reachable (CfcBlobStore_commit s t).1.

Lemma transaction_reachable_wf t : transaction_reachable t → transaction_wf t.
Proof.
  induction 1; [|by apply transaction_replace_wf]. split; constructor.
Qed.

Lemma store_reachable_wf s :
  store_reachable s → store_wf s ∧ bq_cfc_bytes (bs_quota s) < usize_max.
Proof.
  induction 1 as [cfc quota s H H0 Hq|s t _ [IH Hq] Ht].
  - unfold CfcBlobStore_new in H. destruct (_ || _) eqn:E; [done|]. bools.
    apply Ok_inj in H as <-. split; [|done]. split; simpl; try constructor.
    unfold CfcBlobStore_used_bytes. simpl. lia.
  - apply transaction_reachable_wf in Ht. pose proof (commit_spec s t IH Ht Hq) as H.
    destruct (CfcBlobStore_commit s t) as [s' [g|e]]; [|by subst].
    destruct H as (? & E & _). simpl. by rewrite E.
Qed.

(** ** Properties *)

(** Content survives chunking.  Storing bytes in 4 KiB chunks and
    reading any window back gives those bytes: [read] copies the part of the
    window that exists, leaves the rest of the buffer as it was, reports the
    number of bytes copied, terminates and never indexes a missing chunk;
    [to_vec] returns the bytes. *)
Theorem blob_roundtrip (bytes : list Z) (offset : nat) (output : list Z) :
  let blob := ChunkedBlob_from_bytes bytes in
  let count := (length output `min` (length bytes - offset))%nat in
  ChunkedBlob_read blob offset output =
    Returns (slice bytes offset count ++ drop count output, count) ∧
  ChunkedBlob_to_vec blob = Returns bytes ∧ bl_len blob = length bytes ∧
  (length bytes ≤ ChunkedBlob_allocated_bytes blob < length bytes + BLOB_CHUNK_BYTES)%nat.
Proof.
  cbv zeta. destruct (from_bytes_spec bytes) as (Hw & Hc & Hl). pose proof (wf_len _ Hw) as Hlen.
  pose proof Hw as [Hwc Hn _]. split_and!.
  - by rewrite blob_read_spec, Hc, Hl.
  - by rewrite blob_to_vec_spec, Hc.
  - done.
  - unfold ChunkedBlob_allocated_bytes. rewrite Hn, Hl. apply div_ceil_spec.
  - unfold ChunkedBlob_allocated_bytes. rewrite Hn, Hl. apply div_ceil_spec.
Qed.

(** [write] overwrites and extends.  When the written range reaches the
    last allocated chunk, the content becomes the old one with the bytes at
    [offset], extended with zeros up to it, and later reads see that. *)
Theorem blob_write_extends (b : ChunkedBlob) (offset : nat) (bytes : list Z) :
  blob_wf b → Z.of_nat offset + Zlength bytes ≤ usize_max →
  (length (bl_chunks b) ≤ div_ceil (offset + length bytes) BLOB_CHUNK_BYTES)%nat →
  ∃ b', ChunkedBlob_write b offset bytes = Returns (b', Ok tt) ∧ blob_wf b' ∧
        ChunkedBlob_to_vec b' = Returns (overwrite (blob_contents b) offset bytes).
Proof.
  intros Hw Hu Hg. destruct (write_extends b offset bytes Hw Hu Hg) as (b' & ? & Hw' & Hc).
  exists b'. split_and!; [done..|]. rewrite <- Hc. apply blob_to_vec_spec; [apply Hw'|].
  by apply wf_len.
Qed.

(** [write] drops chunks it does not touch.  A write that ends before
    the last allocated chunk still succeeds and keeps the old length, but
    [resize_with] has removed the chunks behind it, and reading the content
    back panics. *)
Theorem blob_write_truncates (b : ChunkedBlob) (offset : nat) (bytes : list Z) :
  blob_wf b → Z.of_nat offset + Zlength bytes ≤ usize_max →
  (div_ceil (offset + length bytes) BLOB_CHUNK_BYTES < length (bl_chunks b))%nat →
  ∃ b', ChunkedBlob_write b offset bytes = Returns (b', Ok tt) ∧ bl_len b' = bl_len b ∧
        ChunkedBlob_to_vec b' = Panics.
Proof.
  intros Hw Hu Hs. pose proof Hw as [Hwc Hn _].
  destruct (write_spec b offset bytes Hwc Hu) as (chunks & -> & Hwc' & Hlen & _).
  pose proof (div_ceil_spec (offset + length bytes)) as Hd.
  pose proof (div_ceil_spec (bl_len b)) as Hb.
  assert (div_ceil (offset + length bytes) BLOB_CHUNK_BYTES * BLOB_CHUNK_BYTES < bl_len b)%nat
    as Hshort.
  { rewrite Hn in Hs. pose proof chunk_pos.
    assert (div_ceil (offset + length bytes) BLOB_CHUNK_BYTES * BLOB_CHUNK_BYTES +
      BLOB_CHUNK_BYTES ≤ div_ceil (bl_len b) BLOB_CHUNK_BYTES * BLOB_CHUNK_BYTES)%nat by nia. lia. }
  eexists. split; [done|]. cbn [bl_len]. rewrite Nat.max_l by lia. split; [done|].
  apply to_vec_panics; [done|]. unfold blob_flat. cbn [bl_chunks bl_len]. rewrite length_concat_whole, Hlen by done. lia.
Qed.

(** The store commits atomically and within quota.  For every store the
    program can build: one object per Form, each within the per-Form quota,
    all together within the CFC quota; a refused commit changes nothing; an
    accepted one replaces exactly the staged Forms, each by a higher
    revision, and every other Form reads as before. *)
Theorem blob_store_commit (s : CfcBlobStore) (t : BlobTransaction) (form : Fin) (offset : nat)
    (output : list Z) :
  store_reachable s → transaction_reachable t →
  NoDup (bo_form <$> bs_objects s) ∧
  CfcBlobStore_used_bytes s ≤ bq_cfc_bytes (bs_quota s) ∧
  Forall (λ o, object_len o ≤ bq_per_form_bytes (bs_quota s)) (bs_objects s) ∧
  match CfcBlobStore_commit s t with
  | (s', Err _) => s' = s
  | (s', Ok _) =>
      CfcBlobStore_used_bytes s' ≤ bq_cfc_bytes (bs_quota s) ∧
      CfcBlobStore_read s' form offset output =
        match find_object (bt_replacements t) form with
        | Some r => Ok (ChunkedBlob_read (bo_content r) offset output)
        | None => CfcBlobStore_read s form offset output
        end ∧
      (∀ r o, find_object (bt_replacements t) form = Some r →
              find_object (bs_objects s) form = Some o → bo_revision o < bo_revision r)
  end.
Proof.
  intros [Hw Hq]%store_reachable_wf Ht%transaction_reachable_wf. pose proof Hw as [W1 _ W3 W4].
  pose proof (commit_spec s t Hw Ht Hq) as H. split_and!; [done..|].
  destruct (CfcBlobStore_commit s t) as [s' [g|e]]; [|done].
  destruct H as ([_ _ _ Hu] & <- & _ & Hrev & Hfind). split_and!; [done| |].
  - unfold CfcBlobStore_read. rewrite Hfind. by destruct (find_object (bt_replacements t) form).
  - intros r o Hr Ho. apply find_object_Some in Hr as [Hr <-]. eauto.
Qed.

(** ** Witnesses *)

Definition demo_blob : ChunkedBlob := ChunkedBlob_from_bytes (replicate (S BLOB_CHUNK_BYTES) 7).

Lemma demo_blob_wf : blob_wf demo_blob.
Proof. apply from_bytes_spec. Qed.

Lemma blob_write_extends_witness :
  ∃ b', ChunkedBlob_write demo_blob BLOB_CHUNK_BYTES [1; 2] = Returns (b', Ok tt) ∧
        blob_wf b' ∧
        ChunkedBlob_to_vec b' =
          Returns (overwrite (blob_contents demo_blob) BLOB_CHUNK_BYTES [1; 2]).
Proof.
  apply (blob_write_extends demo_blob BLOB_CHUNK_BYTES [1; 2] demo_blob_wf).
  - vm_compute. discriminate.
  - apply Nat.leb_le. vm_compute. reflexivity.
Defined.

Lemma blob_write_truncates_witness :
  ∃ b', ChunkedBlob_write demo_blob 0 [1] = Returns (b', Ok tt) ∧
        bl_len b' = bl_len demo_blob ∧ ChunkedBlob_to_vec b' = Panics.
Proof.
  apply (blob_write_truncates demo_blob 0 [1] demo_blob_wf).
  - vm_compute. discriminate.
  - apply Nat.ltb_lt. vm_compute. reflexivity.
Defined.

Definition demo_store : CfcBlobStore :=
  MkBlobStore (CfcFin_from_u128 1) BlobQuota_default [] 0.
Definition demo_tx : BlobTransaction :=
  (BlobTransaction_replace (CfcBlobStore_begin demo_store) (Fin_from_u128 5) 1 [104; 105]).1.

Lemma blob_store_commit_witness :
  ∃ s' g, CfcBlobStore_commit demo_store demo_tx = (s', Ok g) ∧
    CfcBlobStore_read s' (Fin_from_u128 5) 0 [0; 0; 0] = Ok (Returns ([104; 105; 0], 2%nat)).
Proof.
  assert (store_reachable demo_store) as Hs.
  { apply (sr_new (CfcFin_from_u128 1) BlobQuota_default);
      [vm_compute; reflexivity|vm_compute; discriminate|vm_compute; reflexivity]. }
  assert (transaction_reachable demo_tx) as Ht by (apply tr_replace, tr_begin).
  destruct (blob_store_commit demo_store demo_tx (Fin_from_u128 5) 0 [0; 0; 0] Hs Ht)
    as (_ & _ & _ & H).
  destruct (CfcBlobStore_commit demo_store demo_tx) as [s' [g|e]] eqn:E.
  - exists s', g. split; [reflexivity|]. destruct H as (_ & H & _). rewrite H.
    vm_compute. reflexivity.
  - exfalso. vm_compute in E. discriminate E.
Defined.
