(* ===== verification/ExpFs.v ===== *)
(** * ExpFS

    The transactional record store of one CFC
    (crates/expos-core/src/expfs.rs): Form content and typed system records,
    each kept in every revision, published under journal sequence numbers. *)

From stdpp Require Import prelude list.
From Stdlib Require Import ZArith Lia.
From S2P Require Import Prelude Identity Cfc Blob.

Set Default Goal Selector "!".
Open Scope Z_scope.
Open Scope expos_scope.

(** ** Data *)

Definition MAX_RECORDS : nat := 32.
Definition MAX_STAGED : nat := 8.
Definition MAX_SYSTEM_RECORDS : nat := 64.
Definition MAX_STAGED_SYSTEM_RECORDS : nat := 16.
Definition FORM_CONTENT_CAPACITY : Z := DEFAULT_FORM_BLOB_QUOTA.
Definition CFC_CONTENT_CAPACITY : Z := DEFAULT_CFC_BLOB_QUOTA.
Definition SYSTEM_RECORD_CAPACITY : nat := 512.

Inductive RecordKind :=
  | KCfc | KPrimaryDimension | KDimension | KForm | KRelationship | KPimp | KCapability
  | KAccount | KRevision | KSetting | KCheckpoint.

#[export] Instance RecordKind_eq_dec : EqDecision RecordKind.
Proof. solve_decision. Defined.

Record RecordKey := MkRecordKey {
  rk_kind : RecordKind; rk_identity : Fin; rk_dimension : Fin }.

#[export] Instance RecordKey_eq_dec : EqDecision RecordKey.
Proof. solve_decision. Defined.

Record SystemRecord := MkSystemRecord {
  sr_cfc : CfcFin; sr_key : RecordKey; sr_revision : Z; sr_journal_sequence : Z;
  sr_payload : list Z; sr_len : nat }.

#[export] Instance SystemRecord_eq_dec : EqDecision SystemRecord.
Proof. solve_decision. Defined.

Definition SystemRecord_eta (r : SystemRecord) : SystemRecord :=
  MkSystemRecord (sr_cfc r) (sr_key r) (sr_revision r) (sr_journal_sequence r) (sr_payload r)
    (sr_len r).
#[export] Instance set_sr_sequence : Setter sr_journal_sequence :=
  ltac:(build_setter SystemRecord_eta).

Definition SystemRecord_bytes (self : SystemRecord) : list Z :=
  take (sr_len self) (sr_payload self).

Record PersistentForm := MkPersistentForm {
  pf_cfc : CfcFin; pf_form : Fin; pf_dimension : Fin; pf_revision : Z;
  pf_journal_sequence : Z; pf_content : ChunkedBlob }.

#[export] Instance PersistentForm_eq_dec : EqDecision PersistentForm.
Proof. solve_decision. Defined.

Definition PersistentForm_eta (r : PersistentForm) : PersistentForm :=
  MkPersistentForm (pf_cfc r) (pf_form r) (pf_dimension r) (pf_revision r)
    (pf_journal_sequence r) (pf_content r).
#[export] Instance set_pf_sequence : Setter pf_journal_sequence :=
  ltac:(build_setter PersistentForm_eta).

Definition PersistentForm_content (self : PersistentForm) : outcome (list Z) :=
  ChunkedBlob_to_vec (pf_content self).
Definition PersistentForm_content_len (self : PersistentForm) : Z :=
  Z.of_nat (bl_len (pf_content self)).
Definition PersistentForm_read (self : PersistentForm) (offset : nat) (output : list Z)
    : outcome (list Z * nat) := ChunkedBlob_read (pf_content self) offset output.

Inductive StorageError :=
  | FsFull | FsEmptyTransaction | FsInvalidRecord | FsContentTooLarge | FsCfcQuotaExceeded
  | FsDuplicateRecord | FsDuplicateKey | FsStaleRevision | FsSequenceExhausted | FsWrongCfc
  | FsUnownedForm | FsUnownedDimension.

#[export] Instance StorageError_eq_dec : EqDecision StorageError.
Proof. solve_decision. Defined.

Record Transaction := MkTransaction {
  tx_cfc : Cfc; tx_records : slots PersistentForm; tx_system_records : slots SystemRecord }.

Definition Transaction_eta (t : Transaction) : Transaction :=
  MkTransaction (tx_cfc t) (tx_records t) (tx_system_records t).
#[export] Instance set_tx_records : Setter tx_records := ltac:(build_setter Transaction_eta).
#[export] Instance set_tx_system_records : Setter tx_system_records :=
  ltac:(build_setter Transaction_eta).

Record ExpFs := MkExpFs {
  fs_cfc : Cfc; fs_records : slots PersistentForm; fs_system_records : slots SystemRecord;
  fs_next_sequence : Z }.

(** ** Staging *)

Definition kind_needs_form (kind : RecordKind) : bool :=
  match kind with KForm | KCapability | KPimp => true | _ => false end.

Definition Transaction_stage_record (self : Transaction) (key : RecordKey) (revision : Z)
    (bytes : list Z) : Transaction * result unit StorageError :=
  if Fin_is_zero (rk_identity key) || (revision =? 0) then (self, Err FsInvalidRecord)
  else if (SYSTEM_RECORD_CAPACITY <? length bytes)%nat then (self, Err FsContentTooLarge)
  else if negb (Fin_is_zero (rk_dimension key)) &&
          negb (Cfc_owns_dimension (tx_cfc self) (rk_dimension key))
  then (self, Err FsUnownedDimension)
  else if kind_needs_form (rk_kind key) && negb (Cfc_owns_form (tx_cfc self) (rk_identity key))
  then (self, Err FsUnownedForm)
  else if existsb (λ record, sr_key record ==? key) (flatten (tx_system_records self))
  then (self, Err FsDuplicateKey)
  else
    let payload := bytes ++ replicate (SYSTEM_RECORD_CAPACITY - length bytes) 0 in
    let record := MkSystemRecord (cfc_fin (tx_cfc self)) key revision 0 payload (length bytes) in
    match fill_slot record (tx_system_records self) with
    | None => (self, Err FsFull)
    | Some l => (self <| tx_system_records := l |>, Ok tt)
    end.

Definition Transaction_stage_content (self : Transaction) (form dimension : Fin) (revision : Z)
    (bytes : list Z) : Transaction * result unit StorageError :=
  if Fin_is_zero form || Fin_is_zero dimension || (revision =? 0)
  then (self, Err FsInvalidRecord)
  else if negb (Cfc_owns_form (tx_cfc self) form) then (self, Err FsUnownedForm)
  else if negb (Cfc_owns_dimension (tx_cfc self) dimension) then (self, Err FsUnownedDimension)
  else if FORM_CONTENT_CAPACITY <? Zlength bytes then (self, Err FsContentTooLarge)
  else if existsb (λ record, (pf_form record ==? form) && (pf_dimension record ==? dimension))
            (flatten (tx_records self))
  then (self, Err FsDuplicateRecord)
  else
    let record := MkPersistentForm (cfc_fin (tx_cfc self)) form dimension revision 0
                    (ChunkedBlob_from_bytes bytes) in
    match fill_slot record (tx_records self) with
    | None => (self, Err FsFull)
    | Some l => (self <| tx_records := l |>, Ok tt)
    end.

Definition Transaction_stage_form (self : Transaction) (form dimension : Fin) (revision : Z)
    : Transaction * result unit StorageError :=
  Transaction_stage_content self form dimension revision [].

(** ** The store *)

(** [None] is the failed [expect]. *)
Definition ExpFs_new (cfc : Cfc) : option ExpFs :=
  match Cfc_validate cfc with
  | Err _ => None
  | Ok _ => Some (MkExpFs cfc (empty_slots PersistentForm MAX_RECORDS)
                    (empty_slots SystemRecord MAX_SYSTEM_RECORDS) 1)
  end.

Definition ExpFs_begin (self : ExpFs) : Transaction :=
  MkTransaction (fs_cfc self) (empty_slots PersistentForm MAX_STAGED)
    (empty_slots SystemRecord MAX_STAGED_SYSTEM_RECORDS).

Definition ExpFs_latest (self : ExpFs) (form dimension : Fin) : option PersistentForm :=
  max_by_key pf_revision
    (List.filter (λ record, (pf_form record ==? form) && (pf_dimension record ==? dimension))
       (flatten (fs_records self))).

Definition ExpFs_latest_record (self : ExpFs) (key : RecordKey) : option SystemRecord :=
  max_by_key sr_revision
    (List.filter (λ record, sr_key record ==? key) (flatten (fs_system_records self))).

Definition ExpFs_records_at (self : ExpFs) (sequence : Z) : list SystemRecord :=
  List.filter (λ record,
    (sr_journal_sequence record <=? sequence) &&
    negb (existsb (λ candidate, (sr_key candidate ==? sr_key record) &&
                    (sr_journal_sequence candidate <=? sequence) &&
                    (sr_revision candidate >? sr_revision record))
            (flatten (fs_system_records self))))
    (flatten (fs_system_records self)).

(** [iter().filter(|slot| slot.is_none()).count()] *)
Definition free_count {A} (l : slots A) : nat := length (List.filter slot_is_none l).

(** The publication loop: [expect("capacity preflighted")] panics when there
    is no free slot. *)
Fixpoint publish_rows {A} (stamp : A → A) (staged : list A) (table : slots A)
    : outcome (slots A) :=
  match staged with
  | [] => Returns table
  | record :: staged' =>
      match fill_slot (stamp record) table with
      | None => Panics
      | Some table' => publish_rows stamp staged' table'
      end
  end.

Definition stale_form (self : ExpFs) (record : PersistentForm) : bool :=
  match ExpFs_latest self (pf_form record) (pf_dimension record) with
  | Some previous => pf_revision record <=? pf_revision previous
  | None => false
  end.

Definition stale_record (self : ExpFs) (record : SystemRecord) : bool :=
  match ExpFs_latest_record self (sr_key record) with
  | Some previous => sr_revision record <=? sr_revision previous
  | None => false
  end.

(** The newest revision of its Form and Dimension. *)
Definition is_latest (self : ExpFs) (record : PersistentForm) : bool :=
  match ExpFs_latest self (pf_form record) (pf_dimension record) with
  | Some latest => pf_revision latest =? pf_revision record
  | None => false
  end.

Definition replaced_by (staged : list PersistentForm) (record : PersistentForm) : bool :=
  existsb (λ replacement, (pf_form replacement ==? pf_form record) &&
                          (pf_dimension replacement ==? pf_dimension record)) staged.

Definition retained_bytes (self : ExpFs) (staged : list PersistentForm) : Z :=
  Zsum (PersistentForm_content_len <$>
    List.filter (λ record, is_latest self record && negb (replaced_by staged record))
      (flatten (fs_records self))).

Definition ExpFs_commit (self : ExpFs) (transaction : Transaction)
    : outcome (ExpFs * result Z StorageError) :=
  let staged := flatten (tx_records transaction) in
  let staged_system := flatten (tx_system_records transaction) in
  if tx_cfc transaction !=? fs_cfc self then Returns (self, Err FsWrongCfc)
  else if (length staged =? 0)%nat && (length staged_system =? 0)%nat
  then Returns (self, Err FsEmptyTransaction)
  else if (free_count (fs_records self) <? length staged)%nat then Returns (self, Err FsFull)
  else if (free_count (fs_system_records self) <? length staged_system)%nat
  then Returns (self, Err FsFull)
  else if existsb (stale_form self) staged then Returns (self, Err FsStaleRevision)
  else if saturating_add usize_max (retained_bytes self staged)
            (Zsum (PersistentForm_content_len <$> staged)) >? CFC_CONTENT_CAPACITY
  then Returns (self, Err FsCfcQuotaExceeded)
  else if existsb (stale_record self) staged_system then Returns (self, Err FsStaleRevision)
  else match checked_add u32_max (fs_next_sequence self) 1 with
  | None => Returns (self, Err FsSequenceExhausted)
  | Some next =>
      let sequence := fs_next_sequence self in
      match publish_rows (λ r, r <| pf_journal_sequence := sequence |>) staged
              (fs_records self) with
      | Panics => Panics
      | OutOfFuel => OutOfFuel
      | Returns records =>
      match publish_rows (λ r, r <| sr_journal_sequence := sequence |>) staged_system
              (fs_system_records self) with
      | Panics => Panics
      | OutOfFuel => OutOfFuel
      | Returns system_records =>
          Returns (MkExpFs (fs_cfc self) records system_records next, Ok sequence)
      end end
  end.

(** ** Versioned tables

    Both tables keep every revision of a key.  [Versioned] is what the
    lemmas need to know of a row: its key, its revision and the journal
    sequence it was published under. *)

Class Versioned (R K : Type) := {
  vkey : R → K;
  vrev : R → Z;
  vseq : R → Z }.

#[export] Instance PersistentForm_versioned : Versioned PersistentForm (Fin * Fin) :=
  {| vkey r := (pf_form r, pf_dimension r); vrev := pf_revision; vseq := pf_journal_sequence |}.
#[export] Instance SystemRecord_versioned : Versioned SystemRecord RecordKey :=
  {| vkey := sr_key; vrev := sr_revision; vseq := sr_journal_sequence |}.

Section versioned.
Context {R K : Type} `{EqDecision K} `{!Versioned R K}.
Implicit Types (rows new : list R) (r o : R) (k : K).

Definition latest_of rows k : option R :=
  max_by_key vrev (List.filter (λ r, vkey r ==? k) rows).

(** Within one key the journal order is the revision order. *)
Record versions_wf (n : Z) rows : Prop := {
  vw_seq : ∀ r, r ∈ rows → 1 ≤ vseq r < n;
  vw_unique : NoDup ((λ r, (vkey r, vseq r)) <$> rows);
  vw_mono : ∀ a b, a ∈ rows → b ∈ rows → vkey a = vkey b → vseq a < vseq b → vrev a < vrev b }.

(** [new] is published over [rows] under sequence [n]. *)
Record publishes (n : Z) rows new rows' : Prop := {
  pb_rows : rows' ≡ₚ new ++ rows;
  pb_keys : NoDup (vkey <$> new);
  pb_seq : ∀ r, r ∈ new → vseq r = n;
  pb_newer : ∀ r o, r ∈ new → o ∈ rows → vkey o = vkey r → vrev o < vrev r }.

Lemma version_unique n rows a b :
  versions_wf n rows → a ∈ rows → b ∈ rows → vkey a = vkey b → vrev a = vrev b → a = b.
Proof.
  intros [_ Hu Hm] Ha Hb Hk Hr. apply (NoDup_key_inj (λ r, (vkey r, vseq r)) rows); auto.
  f_equal; [done|]. pose proof (Hm a b Ha Hb Hk). pose proof (Hm b a Hb Ha (eq_sym Hk)). lia.
Qed.

Lemma latest_of_spec n rows k r :
  versions_wf n rows →
  latest_of rows k = Some r ↔
  r ∈ rows ∧ vkey r = k ∧ ∀ o, o ∈ rows → vkey o = k → vrev o ≤ vrev r.
Proof.
  intros Hw. assert (∀ x, x ∈ List.filter (λ r, vkey r ==? k) rows ↔ x ∈ rows ∧ vkey x = k) as Hf.
  { intros x. by rewrite elem_of_filter_bool, bool_decide_eq_true. }
  unfold latest_of. split.
  - intros [[Hr Hk]%Hf Hge]%max_by_key_Some. split_and!; auto. intros o Ho Hok.
    apply Hge, Hf. auto.
  - intros (Hr & Hk & Hge). apply max_by_key_strict; [by apply Hf|].
    intros o [Ho Hok]%Hf. specialize (Hge o Ho Hok).
    destruct (decide (vrev o = vrev r)) as [E|E]; [left|right; lia].
    apply (version_unique n rows); auto. congruence.
Qed.

Lemma latest_of_None rows k : latest_of rows k = None ↔ k ∉ vkey <$> rows.
Proof.
  unfold latest_of. rewrite max_by_key_None, list_elem_of_fmap. split.
  - intros E (r & -> & Hr). assert (r ∈ List.filter (λ x, vkey x ==? vkey r) rows) as Hin.
    { rewrite elem_of_filter_bool, bool_decide_eq_true. auto. }
    rewrite E in Hin. by apply elem_of_nil in Hin.
  - intros Hn. destruct (List.filter _ rows) as [|r l] eqn:E; [done|]. exfalso.
    assert (r ∈ List.filter (λ r, vkey r ==? k) rows) as Hin by (rewrite E; by left).
    rewrite elem_of_filter_bool, bool_decide_eq_true in Hin. naive_solver.
Qed.

Lemma publishes_elem n rows new rows' r :
  publishes n rows new rows' → r ∈ rows' ↔ r ∈ new ∨ r ∈ rows.
Proof. intros [Hp _ _ _]. by rewrite Hp, elem_of_app. Qed.

Lemma publishes_wf n rows new rows' :
  versions_wf n rows → 1 ≤ n → publishes n rows new rows' → versions_wf (n + 1) rows'.
Proof.
  intros Hw Hn Hp. pose proof Hw as [Hs Hu Hm]. pose proof Hp as [Hperm Hk Hseq Hnew].
  split.
  - intros r [Hr|Hr]%(publishes_elem _ _ _ _ _ Hp).
    + rewrite (Hseq r Hr). lia.
    + specialize (Hs r Hr). lia.
  - rewrite Hperm, fmap_app. apply NoDup_app. split_and!; [|..|done].
    + clear -Hk. induction new as [|r new IH]; [constructor|]. csimpl in *.
      apply NoDup_cons in Hk as [Hr Hk]. apply NoDup_cons. split; [|auto].
      contradict Hr. apply list_elem_of_fmap in Hr as (x & [= E _] & Hx).
      rewrite E. by apply list_elem_of_fmap_2.
    + intros kk (r & -> & Hr)%list_elem_of_fmap (o & [= _ E] & Ho)%list_elem_of_fmap.
      specialize (Hs o Ho). specialize (Hseq r Hr). lia.
  - intros a b [Ha|Ha]%(publishes_elem _ _ _ _ _ Hp) [Hb|Hb]%(publishes_elem _ _ _ _ _ Hp) E Hlt.
    + rewrite (Hseq a Ha), (Hseq b Hb) in Hlt. lia.
    + specialize (Hs b Hb). rewrite (Hseq a Ha) in Hlt. lia.
    + by apply Hnew.
    + by apply Hm.
Qed.

Lemma publishes_latest n rows new rows' k :
  versions_wf n rows → 1 ≤ n → publishes n rows new rows' →
  latest_of rows' k =
    match List.find (λ r, vkey r ==? k) new with
    | Some r => Some r
    | None => latest_of rows k
    end.
Proof.
  intros Hw Hn Hp. pose proof (publishes_wf _ _ _ _ Hw Hn Hp) as Hw'.
  pose proof Hp as [_ Hk _ Hnew].
  assert (∀ x, x ∈ rows' ↔ x ∈ new ∨ x ∈ rows) as Hel by (intros; by eapply publishes_elem).
  destruct (List.find _ new) as [r|] eqn:E.
  - apply find_elem in E as [Hr Er]. bools. apply (latest_of_spec (n + 1) rows' k r Hw').
    rewrite Hel. split_and!; auto. intros o [Ho|Ho]%Hel Hok.
    + rewrite (NoDup_key_inj vkey new o r); [lia|done..|congruence].
    + specialize (Hnew r o Hr Ho). naive_solver lia.
  - rewrite find_elem_None in E.
    assert (∀ x, x ∈ new → vkey x ≠ k) as Hno.
    { intros x Hx. specialize (E x Hx). by bools. }
    apply option_eq. intros o. rewrite (latest_of_spec (n + 1) rows'), (latest_of_spec n rows) by done.
    setoid_rewrite Hel. naive_solver.
Qed.
End versioned.

(** ** Lemmas: publication into slots *)

Lemma free_count_spec {A} (l : slots A) : (free_count l + length (flatten l) = length l)%nat.
Proof. unfold free_count. induction l as [|[x|] l IH]; simpl; lia. Qed.

Lemma publish_rows_spec {A} (stamp : A → A) staged (table : slots A) :
  (length staged ≤ free_count table)%nat →
  ∃ table', publish_rows stamp staged table = Returns table' ∧
    length table' = length table ∧ flatten table' ≡ₚ (stamp <$> staged) ++ flatten table ∧
    ∀ q, (∀ x, x ∈ staged → q (stamp x) = false) →
      List.filter q (flatten table') = List.filter q (flatten table).
Proof.
  revert table. induction staged as [|x staged IH]; intros table Hf; simpl; [eauto|].
  simpl in Hf. pose proof (free_count_spec table) as Hc.
  destruct (fill_slot_Some table (stamp x)) as [t1 Ht1]; [lia|]. rewrite Ht1.
  pose proof (fill_slot_length _ _ _ Ht1) as Hl. pose proof (fill_slot_count _ _ _ Ht1) as Hcnt.
  pose proof (free_count_spec t1).
  destruct (IH t1) as (t' & -> & Hl' & Hp & Hq); [lia|]. exists t'. split_and!; [done|congruence| |].
  - rewrite Hp, (fill_slot_perm _ _ _ Ht1). csimpl. by rewrite Permutation_middle.
  - intros q Hx. rewrite Hq by (intros y Hy; apply Hx; by right).
    destruct (fill_slot_split _ _ _ Ht1) as (l1 & l2 & -> & ->).
    rewrite !flatten_app, !List.filter_app. simpl. by rewrite Hx by (by left).
Qed.

(** ** Invariants *)

Record form_ok (cfc : Cfc) (r : PersistentForm) : Prop := {
  fo_cfc : pf_cfc r = cfc_fin cfc;
  fo_form : Cfc_owns_form cfc (pf_form r) = true;
  fo_dimension : Cfc_owns_dimension cfc (pf_dimension r) = true;
  fo_revision : pf_revision r ≠ 0;
  fo_len : PersistentForm_content_len r ≤ FORM_CONTENT_CAPACITY;
  fo_blob : blob_wf (pf_content r) }.

Record record_ok (cfc : Cfc) (r : SystemRecord) : Prop := {
  so_cfc : sr_cfc r = cfc_fin cfc;
  so_revision : sr_revision r ≠ 0;
  so_dimension : Fin_is_zero (rk_dimension (sr_key r)) = true ∨
                 Cfc_owns_dimension cfc (rk_dimension (sr_key r)) = true;
  so_form : kind_needs_form (rk_kind (sr_key r)) = true →
            Cfc_owns_form cfc (rk_identity (sr_key r)) = true;
  so_len : (sr_len r ≤ SYSTEM_RECORD_CAPACITY)%nat;
  so_payload : length (sr_payload r) = SYSTEM_RECORD_CAPACITY }.

Record tx_wf (t : Transaction) : Prop := {
  tw_records : Forall (form_ok (tx_cfc t)) (flatten (tx_records t));
  tw_record_keys : NoDup (vkey <$> flatten (tx_records t));
  tw_system : Forall (record_ok (tx_cfc t)) (flatten (tx_system_records t));
  tw_system_keys : NoDup (vkey <$> flatten (tx_system_records t)) }.

(** Content of the newest revisions. *)
Definition live_bytes (fs : ExpFs) : Z :=
  Zsum (PersistentForm_content_len <$> List.filter (is_latest fs) (flatten (fs_records fs))).

Record fs_wf (fs : ExpFs) : Prop := {
  fw_records : length (fs_records fs) = MAX_RECORDS;
  fw_system : length (fs_system_records fs) = MAX_SYSTEM_RECORDS;
  fw_next : 1 ≤ fs_next_sequence fs ≤ u32_max;
  fw_forms : versions_wf (fs_next_sequence fs) (flatten (fs_records fs));
  fw_versions : versions_wf (fs_next_sequence fs) (flatten (fs_system_records fs));
  fw_form_ok : Forall (form_ok (fs_cfc fs)) (flatten (fs_records fs));
  fw_record_ok : Forall (record_ok (fs_cfc fs)) (flatten (fs_system_records fs));
  fw_quota : live_bytes fs ≤ CFC_CONTENT_CAPACITY }.

Inductive tx_reachable (cfc : Cfc) : Transaction → Prop :=
  | txr_begin fs : fs_cfc fs = cfc → tx_reachable cfc (ExpFs_begin fs)
  | txr_record t key revision bytes :
      tx_reachable cfc t → tx_reachable cfc (Transaction_stage_record t key revision bytes).1
  | txr_content t form dimension revision bytes :
      tx_reachable cfc t →
      tx_reachable cfc (Transaction_stage_content t form dimension revision bytes).1.

Inductive fs_reachable : ExpFs → Prop :=
  | fsr_new cfc fs : ExpFs_new cfc = Some fs → fs_reachable fs
  | fsr_commit fs cfc t fs' r :
      fs_reachable fs → tx_reachable cfc t → ExpFs_commit fs t = Returns (fs', r) →
      fs_reachable fs'.

(** ** Lemmas: staging *)

Lemma pair_test (r : PersistentForm) f d :
  (pf_form r ==? f) && (pf_dimension r ==? d) = (vkey r ==? (f, d)).
Proof.
  apply eq_bool_prop_intro. rewrite andb_True, !bool_decide_spec. simpl. naive_solver.
Qed.

Lemma existsb_vkey {R K} `{EqDecision K} `{!Versioned R K} (rows : list R) (k : K) :
  existsb (λ r, vkey r ==? k) rows = true ↔ k ∈ vkey <$> rows.
Proof.
  rewrite existsb_elem, list_elem_of_fmap. setoid_rewrite bool_decide_eq_true. naive_solver.
Qed.

Lemma existsb_vkey_false {R K} `{EqDecision K} `{!Versioned R K} (rows : list R) (k : K) :
  existsb (λ r, vkey r ==? k) rows = false ↔ k ∉ vkey <$> rows.
Proof. by rewrite <- existsb_vkey, not_true_iff_false. Qed.

Lemma fill_row_wf {R K} `{EqDecision K} `{!Versioned R K} (P : R → Prop) (t t' : slots R) r :
  Forall P (flatten t) → NoDup (vkey <$> flatten t) → P r → vkey r ∉ vkey <$> flatten t →
  fill_slot r t = Some t' → Forall P (flatten t') ∧ NoDup (vkey <$> flatten t').
Proof.
  intros HP Hd Hr Hk Hf%fill_slot_perm. rewrite Hf. csimpl. split; [by constructor|].
  by apply NoDup_cons.
Qed.

Lemma stage_record_wf t key revision bytes :
  tx_wf t → let t' := (Transaction_stage_record t key revision bytes).1 in
  tx_wf t' ∧ tx_cfc t' = tx_cfc t.
Proof.
  intros Hw. unfold Transaction_stage_record. destruct (_ || _) eqn:G1; [done|].
  destruct (Nat.ltb_spec SYSTEM_RECORD_CAPACITY (length bytes)) as [G2|G2]; [done|].
  destruct (_ && _) eqn:G3; [done|]. destruct (kind_needs_form _ && _) eqn:G4; [done|].
  destruct (existsb _ _) eqn:G5; [done|]. cbv zeta.
  set (r := MkSystemRecord _ _ _ _ _ _).
  destruct (fill_slot r (tx_system_records t)) as [l|] eqn:G6; [|done]. bools.
  destruct Hw as [W1 W2 W3 W4]. split; [|done].
  assert (record_ok (tx_cfc t) r) as Hr.
  { apply andb_false_iff in G3. apply andb_false_iff in G4.
    split; subst r; cbn [sr_cfc sr_revision sr_key sr_len sr_payload]; auto.
    - destruct G3 as [?|?]; bools; auto.
    - intros Hk. rewrite Hk in G4. destruct G4 as [?|?]; by bools.
    - rewrite length_app, length_replicate. lia. }
  assert (vkey r ∉ vkey <$> flatten (tx_system_records t)) as Hk.
  { apply existsb_vkey_false. rewrite <- G5. by apply existsb_ext. }
  destruct (fill_row_wf _ _ _ r W3 W4 Hr Hk G6). by split.
Qed.

Lemma stage_content_wf t form dimension revision bytes :
  tx_wf t → let t' := (Transaction_stage_content t form dimension revision bytes).1 in
  tx_wf t' ∧ tx_cfc t' = tx_cfc t.
Proof.
  intros Hw. unfold Transaction_stage_content. destruct (_ || _) eqn:G1; [done|].
  destruct (negb (Cfc_owns_form _ _)) eqn:G2; [done|].
  destruct (negb (Cfc_owns_dimension _ _)) eqn:G3; [done|].
  destruct (_ <? _) eqn:G4; [done|]. destruct (existsb _ _) eqn:G5; [done|]. cbv zeta.
  set (r := MkPersistentForm _ _ _ _ _ _).
  destruct (fill_slot r (tx_records t)) as [l|] eqn:G6; [|done]. bools.
  destruct Hw as [W1 W2 W3 W4]. split; [|done].
  assert (form_ok (tx_cfc t) r) as Hr.
  { destruct (from_bytes_spec bytes) as (Hb & _ & Hl).
    by split; subst r; cbn [pf_cfc pf_form pf_dimension pf_revision pf_content]. }
  assert (vkey r ∉ vkey <$> flatten (tx_records t)) as Hk.
  { apply existsb_vkey_false. rewrite <- G5. apply existsb_ext. intros x. symmetry.
    apply pair_test. }
  destruct (fill_row_wf _ _ _ r W1 W2 Hr Hk G6). by split.
Qed.

Lemma tx_reachable_wf cfc t : tx_reachable cfc t → tx_wf t ∧ tx_cfc t = cfc.
Proof.
  induction 1 as [fs Hfs|t key rev bytes _ [IH IHc]|t f d rev bytes _ [IH IHc]].
  - split; [|done]. split; cbn [ExpFs_begin tx_records tx_system_records];
      rewrite flatten_empty; constructor.
  - destruct (stage_record_wf t key rev bytes IH). split; congruence.
  - destruct (stage_content_wf t f d rev bytes IH). split; congruence.
Qed.

(** ** Lemmas: commit *)

Lemma latest_versioned fs f d : ExpFs_latest fs f d = latest_of (flatten (fs_records fs)) (f, d).
Proof.
  unfold ExpFs_latest, latest_of. f_equal. apply List.filter_ext. intros r. apply pair_test.
Qed.

Lemma latest_record_versioned fs k :
  ExpFs_latest_record fs k = latest_of (flatten (fs_system_records fs)) k.
Proof. done. Qed.

Definition stamp_form (n : Z) (r : PersistentForm) : PersistentForm :=
  r <| pf_journal_sequence := n |>.
Definition stamp_record (n : Z) (r : SystemRecord) : SystemRecord :=
  r <| sr_journal_sequence := n |>.

(** A table without stale rows is extended in revision order. *)
Lemma stamped_publishes {R K} `{EqDecision K} `{!Versioned R K} (stamp : R → R)
    (n : Z) (rows staged rows' : list R) :
  versions_wf n rows →
  (∀ r, vkey (stamp r) = vkey r ∧ vrev (stamp r) = vrev r ∧ vseq (stamp r) = n) →
  NoDup (vkey <$> staged) → rows' ≡ₚ (stamp <$> staged) ++ rows →
  (∀ r o, r ∈ staged → latest_of rows (vkey r) = Some o → vrev o < vrev r) →
  publishes n rows (stamp <$> staged) rows'.
Proof.
  intros Hw Hst Hk Hp Hfresh. split; [done|..].
  - rewrite <- list_fmap_compose, (list_fmap_ext _ vkey staged); [done|].
    intros _ r _. apply Hst.
  - intros x (r & -> & _)%list_elem_of_fmap. apply Hst.
  - intros x o (r & -> & Hr)%list_elem_of_fmap Ho E. destruct (Hst r) as (Hkr & Hvr & _).
    rewrite Hkr in E. rewrite Hvr. destruct (latest_of rows (vkey r)) as [l|] eqn:El.
    + pose proof (Hfresh r l Hr El). apply (latest_of_spec n rows _ _ Hw) in El as (_ & _ & Hge).
      specialize (Hge o Ho E). lia.
    + exfalso. apply latest_of_None in El. apply El. rewrite <- E. by apply list_elem_of_fmap_2.
Qed.

Lemma find_fmap {A B} (f : A → B) p l :
  List.find p (f <$> l) = f <$> List.find (λ x, p (f x)) l.
Proof. induction l as [|x l IH]; csimpl; [done|]. by destruct (p (f x)). Qed.

Lemma find_ext {A} (p q : A → bool) l : (∀ x, p x = q x) → List.find p l = List.find q l.
Proof. intros H. induction l as [|x l IH]; simpl; [done|]. by rewrite H, IH. Qed.

Lemma replaced_by_spec staged r :
  replaced_by staged r = true ↔ vkey r ∈ vkey <$> staged.
Proof.
  rewrite <- existsb_vkey. unfold replaced_by. erewrite existsb_ext; [done|].
  intros x. apply pair_test.
Qed.

(** After publication the newest revisions are the staged rows and the
    newest rows that were not replaced. *)
Lemma live_after fs fs' staged n :
  versions_wf n (flatten (fs_records fs)) → 1 ≤ n →
  publishes n (flatten (fs_records fs)) (stamp_form n <$> staged) (flatten (fs_records fs')) →
  live_bytes fs' = retained_bytes fs staged + Zsum (PersistentForm_content_len <$> staged).
Proof.
  intros Hw Hn Hp.
  assert (∀ k, latest_of (flatten (fs_records fs')) k = _) as Hl
    by (intros k; exact (publishes_latest _ _ _ _ k Hw Hn Hp)).
  pose proof Hp as [Hperm Hk _ Hnew].
  set (rows := flatten (fs_records fs)) in *. set (new := stamp_form n <$> staged) in *.
  assert (∀ r, r ∈ new → is_latest fs' r = true) as H1.
  { intros r Hr. unfold is_latest. rewrite latest_versioned, Hl.
    rewrite (find_unique vkey new r (pf_form r, pf_dimension r)) by done. apply Z.eqb_refl. }
  assert (∀ r, r ∈ rows → is_latest fs' r = is_latest fs r && negb (replaced_by staged r)) as H2.
  { intros r Hr. unfold is_latest. rewrite !latest_versioned, Hl. fold rows.
    destruct (List.find _ new) as [x|] eqn:E.
    - apply find_elem in E as [Hx Ex]. bools.
      assert (replaced_by staged r = true) as ->.
      { apply replaced_by_spec. subst new. apply list_elem_of_fmap in Hx as (y & -> & Hy).
        apply list_elem_of_fmap. exists y. split; [exact (eq_sym Ex)|done]. }
      rewrite andb_false_r. apply Z.eqb_neq. pose proof (Hnew x r Hx Hr (eq_sym Ex)).
      simpl in *. lia.
    - assert (replaced_by staged r = false) as ->; [|by rewrite andb_true_r].
      apply not_true_iff_false. rewrite replaced_by_spec. rewrite find_elem_None in E.
      intros (y & Ey & Hy)%list_elem_of_fmap. specialize (E (stamp_form n y)).
      rewrite bool_decide_eq_false in E. apply E; [by apply list_elem_of_fmap_2|].
      exact (eq_sym Ey). }
  unfold live_bytes, retained_bytes. fold rows.
  rewrite (Zsum_perm _ _ (fmap_Permutation _ _ _ (filter_perm _ _ _ Hperm))).
  rewrite List.filter_app, fmap_app, Zsum_app, (filter_all _ new H1).
  rewrite (List.filter_ext_in (is_latest fs')
    (λ r, is_latest fs r && negb (replaced_by staged r)) rows)
    by (intros r Hr%list_elem_of_In; by apply H2).
  subst new. rewrite <- list_fmap_compose. rewrite Z.add_comm. done.
Qed.

Lemma stale_form_false fs r o :
  stale_form fs r = false → latest_of (flatten (fs_records fs)) (vkey r) = Some o →
  vrev o < vrev r.
Proof.
  unfold stale_form. rewrite latest_versioned. intros H E. cbn in E. rewrite E in H. simpl. by bools.
Qed.

Lemma stale_record_false fs r o :
  stale_record fs r = false → latest_of (flatten (fs_system_records fs)) (vkey r) = Some o →
  vrev o < vrev r.
Proof.
  unfold stale_record. rewrite latest_record_versioned. intros H E. cbn in E. rewrite E in H.
  simpl. by bools.
Qed.

(** Every row of the new table is a staged one or an old one. *)
Lemma publishes_Forall {R K} `{EqDecision K} `{!Versioned R K} (P : R → Prop) n
    (rows new rows' : list R) :
  publishes n rows new rows' → Forall P rows → Forall P new → Forall P rows'.
Proof. intros [Hp _ _ _] H1 H2. rewrite Hp. by apply Forall_app. Qed.

Lemma commit_fs_spec fs t :
  fs_wf fs → tx_wf t →
  ∃ fs' r, ExpFs_commit fs t = Returns (fs', r) ∧ fs_wf fs' ∧
    match r with
    | Err _ => fs' = fs
    | Ok n =>
        n = fs_next_sequence fs ∧ fs_next_sequence fs' = n + 1 ∧ tx_cfc t = fs_cfc fs ∧
        fs_cfc fs' = fs_cfc fs ∧
        publishes n (flatten (fs_records fs)) (stamp_form n <$> flatten (tx_records t))
          (flatten (fs_records fs')) ∧
        publishes n (flatten (fs_system_records fs))
          (stamp_record n <$> flatten (tx_system_records t)) (flatten (fs_system_records fs')) ∧
        ∀ q, (∀ x, x ∈ flatten (tx_system_records t) → q (stamp_record n x) = false) →
          List.filter q (flatten (fs_system_records fs')) =
          List.filter q (flatten (fs_system_records fs))
    end.
Proof.
  intros Hw [T1 T2 T3 T4]. pose proof Hw as [W1 W2 W3 W4 W5 W6 W7 W8]. unfold ExpFs_commit.
  destruct (bool_decide (tx_cfc t = fs_cfc fs)) eqn:Hc; [|by eexists _, _]. bools. cbn [negb].
  destruct (_ && _); [by eexists _, _|].
  destruct (Nat.ltb_spec (free_count (fs_records fs)) (length (flatten (tx_records t)))) as [F1|F1];
    [by eexists _, _|].
  destruct (Nat.ltb_spec (free_count (fs_system_records fs))
    (length (flatten (tx_system_records t)))) as [F2|F2]; [by eexists _, _|].
  destruct (existsb (stale_form fs) _) eqn:S1; [by eexists _, _|].
  destruct (_ >? _) eqn:Q; [by eexists _, _|].
  destruct (existsb (stale_record fs) _) eqn:S2; [by eexists _, _|].
  unfold checked_add. set (n := fs_next_sequence fs) in *.
  destruct (Z.leb_spec (n + 1) u32_max) as [Hn|Hn]; [|by eexists _, _].
  destruct (publish_rows_spec (stamp_form n) _ _ F1) as (t1 & E1 & L1 & P1 & _).
  destruct (publish_rows_spec (stamp_record n) _ _ F2) as (t2 & E2 & L2 & P2 & Q2).
  unfold stamp_form in E1. unfold stamp_record in E2. rewrite E1, E2.
  rewrite existsb_elem_false in S1. rewrite existsb_elem_false in S2.
  assert (publishes n (flatten (fs_records fs)) (stamp_form n <$> flatten (tx_records t))
    (flatten t1)) as B1.
  { apply stamped_publishes; auto. intros r o Hr. by apply stale_form_false, S1. }
  assert (publishes n (flatten (fs_system_records fs))
    (stamp_record n <$> flatten (tx_system_records t)) (flatten t2)) as B2.
  { apply stamped_publishes; auto. intros r o Hr. by apply stale_record_false, S2. }
  eexists _, _. split; [done|]. split; [|by split_and!].
  split; cbn [fs_records fs_system_records fs_next_sequence fs_cfc]; try congruence; try lia.
  - by apply (publishes_wf _ _ _ _ W4 (proj1 W3) B1).
  - by apply (publishes_wf _ _ _ _ W5 (proj1 W3) B2).
  - apply (publishes_Forall _ _ _ _ _ B1); [done|]. apply Forall_fmap. rewrite <- Hc.
    eapply Forall_impl; [exact T1|]. intros r []. by split.
  - apply (publishes_Forall _ _ _ _ _ B2); [done|]. apply Forall_fmap. rewrite <- Hc.
    eapply Forall_impl; [exact T3|]. intros r []. by split.
  - rewrite (live_after fs _ (flatten (tx_records t)) n W4) by (done || lia). bools.
    unfold saturating_add, usize_max, u64_max, CFC_CONTENT_CAPACITY, DEFAULT_CFC_BLOB_QUOTA in *.
    lia.
Qed.

Lemma fs_reachable_wf fs : fs_reachable fs → fs_wf fs.
Proof.
  induction 1 as [cfc fs H|fs cfc t fs' r _ IH Ht Hc].
  - unfold ExpFs_new in H. destruct (Cfc_validate cfc); [|done]. injection H as <-.
    split; unfold live_bytes; cbn [fs_records fs_system_records fs_next_sequence];
      rewrite ?flatten_empty; auto using length_empty_slots.
    + done.
    + split; [by intros r ?%elem_of_nil|apply NoDup_nil_2|by intros x y ?%elem_of_nil].
    + split; [by intros r ?%elem_of_nil|apply NoDup_nil_2|by intros x y ?%elem_of_nil].
    + done.
  - apply tx_reachable_wf in Ht as [Ht _].
    destruct (commit_fs_spec fs t IH Ht) as (fs1 & r1 & E & Hw & _). rewrite E in Hc.
    by injection Hc as <- <-.
Qed.

(** ** Properties *)

(** C21.  Commit is atomic and never panics.  For every store and transaction
    the program can build: [commit] returns; a refused transaction changes
    nothing; an accepted one gets the next journal sequence, each staged
    record becomes the latest of its key with exactly its staged value, and
    every key that was not staged keeps its latest record. *)
Theorem expfs_commit_atomic (fs : ExpFs) (cfc : Cfc) (t : Transaction) (form dimension : Fin)
    (key : RecordKey) :
  fs_reachable fs → tx_reachable cfc t →
  ∃ fs' r, ExpFs_commit fs t = Returns (fs', r) ∧
    match r with
    | Err _ => fs' = fs
    | Ok n =>
        n = fs_next_sequence fs ∧ fs_next_sequence fs' = n + 1 ∧ cfc = fs_cfc fs ∧
        ExpFs_latest fs' form dimension =
          match List.find (λ r, vkey r ==? (form, dimension)) (flatten (tx_records t)) with
          | Some staged => Some (staged <| pf_journal_sequence := n |>)
          | None => ExpFs_latest fs form dimension
          end ∧
        ExpFs_latest_record fs' key =
          match List.find (λ r, vkey r ==? key) (flatten (tx_system_records t)) with
          | Some staged => Some (staged <| sr_journal_sequence := n |>)
          | None => ExpFs_latest_record fs key
          end
    end.
Proof.
  intros Hw%fs_reachable_wf [Ht Hcfc]%tx_reachable_wf.
  destruct (commit_fs_spec fs t Hw Ht) as (fs' & r & E & _ & H). exists fs', r. split; [done|].
  destruct r as [n|e]; [|done]. destruct H as (-> & Hn & Hc & _ & B1 & B2 & _).
  pose proof Hw as [_ _ W3 W4 W5 _ _ _]. split_and!; try congruence.
  - rewrite !latest_versioned, (publishes_latest _ _ _ _ _ W4 (proj1 W3) B1), find_fmap.
    by destruct (List.find _ _).
  - rewrite !latest_record_versioned, (publishes_latest _ _ _ _ _ W5 (proj1 W3) B2), find_fmap.
    by destruct (List.find _ _).
Qed.

(** C22.  The store keeps its promises at all times: every stored record
    belongs to the CFC and to a Form and Dimension the CFC owns, reads back
    without panic, within the per-Form limit; within one key the revision
    order is the journal order; [latest] is the strictly newest record; and
    the newest contents together stay within the CFC quota. *)
Theorem expfs_store_invariant (fs : ExpFs) (r o : PersistentForm) :
  fs_reachable fs → r ∈ flatten (fs_records fs) → o ∈ flatten (fs_records fs) →
  pf_cfc r = cfc_fin (fs_cfc fs) ∧ Cfc_owns_form (fs_cfc fs) (pf_form r) = true ∧
  Cfc_owns_dimension (fs_cfc fs) (pf_dimension r) = true ∧
  PersistentForm_content r = Returns (blob_contents (pf_content r)) ∧
  PersistentForm_content_len r ≤ FORM_CONTENT_CAPACITY ∧
  (vkey r = vkey o →
     (pf_journal_sequence r < pf_journal_sequence o ↔ pf_revision r < pf_revision o) ∧
     (ExpFs_latest fs (pf_form r) (pf_dimension r) = Some r → o = r ∨ pf_revision o < pf_revision r)) ∧
  live_bytes fs ≤ CFC_CONTENT_CAPACITY.
Proof.
  intros [_ _ _ W4 _ W6 _ W8]%fs_reachable_wf Hr Ho. rewrite Forall_forall in W6.
  pose proof (W6 r Hr) as []. split_and!; auto.
  - apply blob_to_vec_spec; [apply fo_blob0|]. by apply wf_len.
  - intros Hk. pose proof (vw_mono _ _ W4) as Hm.
    pose proof (version_unique _ _ r o W4 Hr Ho Hk) as Hu.
    pose proof (Hm r o Hr Ho Hk) as M1. pose proof (Hm o r Ho Hr (eq_sym Hk)) as M2.
    simpl in M1, M2, Hu. split.
    + split; [auto|]. intros Hlt. destruct (Z.lt_trichotomy (pf_journal_sequence r)
        (pf_journal_sequence o)) as [?|[E|?]]; [done| |specialize (M2 ltac:(done)); lia].
      exfalso. assert (r = o) as ->; [|lia].
      apply (NoDup_key_inj (λ r, (vkey r, vseq r)) (flatten (fs_records fs)));
        [apply W4|done|done|]. f_equal; [done|]. exact E.
    + rewrite latest_versioned, (latest_of_spec _ _ _ _ W4). intros (_ & _ & Hge).
      specialize (Hge o Ho (eq_sym Hk)). simpl in Hge.
      destruct (decide (pf_revision o = pf_revision r)) as [E|E]; [left|right; lia].
      symmetry. by apply Hu.
Qed.

(** The record a snapshot shows for a key. *)
Lemma records_at_spec fs n r :
  r ∈ ExpFs_records_at fs n ↔
  r ∈ flatten (fs_system_records fs) ∧ sr_journal_sequence r ≤ n ∧
  ∀ o, o ∈ flatten (fs_system_records fs) → sr_key o = sr_key r → sr_journal_sequence o ≤ n →
    sr_revision o ≤ sr_revision r.
Proof.
  unfold ExpFs_records_at. rewrite elem_of_filter_bool, andb_true_iff, negb_true_iff, Z.leb_le.
  rewrite existsb_elem_false. apply and_iff_compat_l. apply and_iff_compat_l. split.
  - intros H o Ho Hk Hs. specialize (H o Ho). rewrite bool_decide_true in H by done.
    rewrite (proj2 (Z.leb_le _ _) Hs) in H. simpl in H. bools. lia.
  - intros H o Ho. destruct (bool_decide _) eqn:E1; [|done].
    destruct (_ <=? _) eqn:E2; [|done]. bools. simpl. specialize (H o Ho E1 E2).
    apply not_true_iff_false. rewrite Z.gtb_lt. lia.
Qed.

(** C23.  Snapshots are stable.  The records visible at an already committed
    sequence stay the same, record for record, through any later commit; a
    snapshot shows at most one record per key; and the snapshot at the last
    committed sequence shows exactly the latest records. *)
Theorem expfs_snapshot_stable (fs fs' : ExpFs) (cfc : Cfc) (t : Transaction)
    (res : result Z StorageError) (n : Z) (a b : SystemRecord) :
  fs_reachable fs → tx_reachable cfc t → ExpFs_commit fs t = Returns (fs', res) →
  n < fs_next_sequence fs →
  ExpFs_records_at fs' n = ExpFs_records_at fs n ∧
  (a ∈ ExpFs_records_at fs n → b ∈ ExpFs_records_at fs n → sr_key a = sr_key b → a = b) ∧
  (a ∈ ExpFs_records_at fs (fs_next_sequence fs - 1) ↔
     ExpFs_latest_record fs (sr_key a) = Some a).
Proof.
  intros Hw%fs_reachable_wf [Ht _]%tx_reachable_wf E Hn.
  destruct (commit_fs_spec fs t Hw Ht) as (fs1 & r1 & E' & _ & H). rewrite E in E'.
  injection E' as <- <-. pose proof (fw_versions _ Hw) as W5. split_and!.
  - destruct res as [m|e]; [|by rewrite H]. destruct H as (-> & _ & _ & _ & _ & B & Hq).
    unfold ExpFs_records_at. rewrite Hq.
    + apply List.filter_ext_in. intros r _. f_equal. f_equal. apply eq_true_iff_eq.
      rewrite !existsb_elem. apply exist_proper. intros x.
      rewrite (publishes_elem _ _ _ _ x B). split; [|naive_solver].
      intros [[Hx|Hx] Hx']; [|done]. exfalso. pose proof (pb_seq _ _ _ _ B x Hx) as Hs.
      simpl in Hs. bools. lia.
    + intros x _. simpl. rewrite (proj2 (Z.leb_gt _ _)) by done. done.
  - intros Ha Hb Hk. apply records_at_spec in Ha as (Ha & Hna & Hga).
    apply records_at_spec in Hb as (Hb & Hnb & Hgb).
    apply (version_unique _ _ a b W5 Ha Hb Hk). simpl.
    pose proof (Hga b Hb (eq_sym Hk) Hnb). pose proof (Hgb a Ha Hk Hna). lia.
  - rewrite records_at_spec, latest_record_versioned, (latest_of_spec _ _ _ _ W5).
    pose proof (vw_seq _ _ W5) as Hs. simpl in Hs |- *. split.
    + intros (Ha & _ & Hge). split_and!; auto. intros o Ho Hk. apply Hge; auto.
      specialize (Hs o Ho). lia.
    + intros (Ha & _ & Hge). split_and!; auto. specialize (Hs a Ha). lia.
Qed.

(** ** Witnesses *)

Definition demo_fs : ExpFs :=
  match ExpFs_new demo_cfc with Some fs => fs | None => MkExpFs demo_cfc [] [] 0 end.
Definition demo_key : RecordKey := MkRecordKey KSetting (Fin_from_u128 500) Fin_ZERO.
Definition demo_fs_tx : Transaction :=
  let t := ExpFs_begin demo_fs in
  let t := (Transaction_stage_content t (Fin_from_u128 100) (Fin_from_u128 11) 1 [1; 2; 3]).1 in
  (Transaction_stage_record t demo_key 1 [9]).1.
Definition demo_fs1 : ExpFs :=
  match ExpFs_commit demo_fs demo_fs_tx with Returns (fs, _) => fs | _ => demo_fs end.
Definition demo_form_record : PersistentForm :=
  MkPersistentForm (CfcFin_from_u128 1) (Fin_from_u128 100) (Fin_from_u128 11) 1 1
    (ChunkedBlob_from_bytes [1; 2; 3]).

Lemma demo_fs_reachable : fs_reachable demo_fs.
Proof. apply (fsr_new demo_cfc). vm_compute. reflexivity. Qed.

Lemma demo_fs_tx_reachable : tx_reachable demo_cfc demo_fs_tx.
Proof. apply txr_record, txr_content, txr_begin. vm_compute. reflexivity. Qed.

Lemma demo_fs_commit : ExpFs_commit demo_fs demo_fs_tx = Returns (demo_fs1, Ok 1).
Proof. vm_compute. reflexivity. Qed.

Lemma expfs_commit_atomic_witness :
  ∃ fs' r, ExpFs_commit demo_fs demo_fs_tx = Returns (fs', r) ∧
    match r with
    | Err _ => fs' = demo_fs
    | Ok n => n = 1 ∧ ExpFs_latest fs' (Fin_from_u128 100) (Fin_from_u128 11) =
                        Some demo_form_record
    end.
Proof.
  destruct (expfs_commit_atomic demo_fs demo_cfc demo_fs_tx (Fin_from_u128 100)
    (Fin_from_u128 11) demo_key demo_fs_reachable demo_fs_tx_reachable) as (fs' & r & E & H).
  exists fs', r. split; [exact E|]. destruct r as [n|e]; [|exact H].
  destruct H as (-> & _ & _ & H & _). split; [reflexivity|]. rewrite H. vm_compute. reflexivity.
Defined.

Lemma expfs_store_invariant_witness :
  PersistentForm_content demo_form_record = Returns [1; 2; 3] ∧
  live_bytes demo_fs1 ≤ CFC_CONTENT_CAPACITY.
Proof.
  assert (fs_reachable demo_fs1) as Hr.
  { exact (fsr_commit demo_fs demo_cfc demo_fs_tx demo_fs1 (Ok 1) demo_fs_reachable
      demo_fs_tx_reachable demo_fs_commit). }
  assert (demo_form_record ∈ flatten (fs_records demo_fs1)) as Hin by (vm_compute; left).
  destruct (expfs_store_invariant demo_fs1 demo_form_record demo_form_record Hr Hin Hin)
    as (_ & _ & _ & H1 & _ & _ & H2).
  split; [|exact H2]. rewrite H1. vm_compute. reflexivity.
Defined.

Lemma expfs_snapshot_stable_witness :
  ExpFs_records_at demo_fs1 0 = ExpFs_records_at demo_fs 0.
Proof.
  refine (proj1 (expfs_snapshot_stable demo_fs demo_fs1 demo_cfc demo_fs_tx (Ok 1) 0
    (MkSystemRecord CfcFin_ZERO demo_key 1 1 [] 0) (MkSystemRecord CfcFin_ZERO demo_key 1 1 [] 0)
    demo_fs_reachable demo_fs_tx_reachable demo_fs_commit _)).
  vm_compute. reflexivity.
Defined.
