(* ===== verification/Abi.v ===== *)
(** * The Form ABI and the native call gate

    The wire numbers, request validation and the gate of
    crates/expos-core/src/abi.rs.  The gate runs a service implementation
    given by its caller; a service may change state of its own, so it is an
    argument that maps a call, its arguments and a state to a state and a
    response, and [dispatch] passes that state through. *)

From stdpp Require Import prelude list.
From Stdlib Require Import ZArith Lia.
From S2P Require Import Prelude Identity Capability.

Set Default Goal Selector "!".
Open Scope Z_scope.
Open Scope expos_scope.

(** ** Data *)

Definition FORM_ABI_VERSION : Z := 1.
Definition STREAM_ABI_VERSION : Z := 2.
Definition STREAM_CHUNK_BYTES : Z := 4096 - 256.

Inductive StreamCall :=
  | Stream_OpenRead | Stream_OpenWrite | Stream_ReadChunk | Stream_WriteChunk
  | Stream_Commit | Stream_Abort.

(** [call as u16], the discriminants of the [repr(u16)] declaration. *)
Definition StreamCall_as_u16 (call : StreamCall) : Z :=
  match call with
  | Stream_OpenRead => 1 | Stream_OpenWrite => 2 | Stream_ReadChunk => 3
  | Stream_WriteChunk => 4 | Stream_Commit => 5 | Stream_Abort => 6
  end.

Definition StreamCall_from_raw (value : Z) : option StreamCall :=
  match value with
  | 1 => Some Stream_OpenRead
  | 2 => Some Stream_OpenWrite
  | 3 => Some Stream_ReadChunk
  | 4 => Some Stream_WriteChunk
  | 5 => Some Stream_Commit
  | 6 => Some Stream_Abort
  | _ => None
  end.

Inductive AbiStatus := AbiOk | AbiInvalid | AbiDenied | AbiUnsupported | AbiWouldBlock.

Definition AbiStatus_as_u16 (status : AbiStatus) : Z :=
  match status with
  | AbiOk => 0 | AbiInvalid => 1 | AbiDenied => 2 | AbiUnsupported => 3 | AbiWouldBlock => 4
  end.

Definition AbiStatus_from_raw (value : Z) : option AbiStatus :=
  match value with
  | 0 => Some AbiOk
  | 1 => Some AbiInvalid
  | 2 => Some AbiDenied
  | 3 => Some AbiUnsupported
  | 4 => Some AbiWouldBlock
  | _ => None
  end.

Record StreamRequest := MkStreamRequest {
  sr_version : Z; sr_call : Z; sr_caller : Fin; sr_handle_id : Z; sr_stream_id : Z;
  sr_offset : Z; sr_length : Z; sr_flags : Z }.

Inductive AbiCall :=
  | Call_Log | Call_FormResolve | Call_HandleAuthorize | Call_TimeNow
  | Call_IpcSend | Call_IpcReceive | Call_ExecutionYield | Call_ExecutionExit
  | Call_SurfaceCreate | Call_BufferAttach | Call_SurfaceDamage | Call_SurfaceCommit
  | Call_EventPoll | Call_BrowserNavigate | Call_StorageRead | Call_StorageWrite
  | Call_NetworkSend | Call_NetworkReceive | Call_PackageTransaction.

Definition AbiCall_as_u16 (call : AbiCall) : Z :=
  match call with
  | Call_Log => 1 | Call_FormResolve => 2 | Call_HandleAuthorize => 3 | Call_TimeNow => 4
  | Call_IpcSend => 5 | Call_IpcReceive => 6 | Call_ExecutionYield => 7
  | Call_ExecutionExit => 8 | Call_SurfaceCreate => 16 | Call_BufferAttach => 17
  | Call_SurfaceDamage => 18 | Call_SurfaceCommit => 19 | Call_EventPoll => 20
  | Call_BrowserNavigate => 32 | Call_StorageRead => 33 | Call_StorageWrite => 34
  | Call_NetworkSend => 35 | Call_NetworkReceive => 36 | Call_PackageTransaction => 48
  end.

Definition AbiCall_from_raw (value : Z) : option AbiCall :=
  match value with
  | 1 => Some Call_Log
  | 2 => Some Call_FormResolve
  | 3 => Some Call_HandleAuthorize
  | 4 => Some Call_TimeNow
  | 5 => Some Call_IpcSend
  | 6 => Some Call_IpcReceive
  | 7 => Some Call_ExecutionYield
  | 8 => Some Call_ExecutionExit
  | 16 => Some Call_SurfaceCreate
  | 17 => Some Call_BufferAttach
  | 18 => Some Call_SurfaceDamage
  | 19 => Some Call_SurfaceCommit
  | 20 => Some Call_EventPoll
  | 32 => Some Call_BrowserNavigate
  | 33 => Some Call_StorageRead
  | 34 => Some Call_StorageWrite
  | 35 => Some Call_NetworkSend
  | 36 => Some Call_NetworkReceive
  | 48 => Some Call_PackageTransaction
  | _ => None
  end.

#[export] Instance AbiCall_eq_dec : EqDecision AbiCall.
Proof. solve_decision. Defined.

(** [arguments: [u64; 6]] and [values: [u64; 4]]. *)
Record AbiRequest := MkAbiRequest {
  ar_version : Z; ar_call : Z; ar_caller : Fin; ar_handle_id : Z; ar_arguments : list Z }.

Record AbiResponse := MkAbiResponse { resp_status : Z; resp_values : list Z }.

Record NativeCallGate := MkGate {
  gate_broker : CapabilityBroker; gate_cfc : CfcFin; gate_target : Fin; gate_dimension : Fin }.

(** ** Operations *)

Definition AbiResponse_status (status : AbiStatus) : AbiResponse :=
  MkAbiResponse (AbiStatus_as_u16 status) (replicate 4 0).

Definition AbiResponse_ok (values : list Z) : AbiResponse :=
  MkAbiResponse (AbiStatus_as_u16 AbiOk) values.

Definition StreamRequest_validate (self : StreamRequest) : result Operations AbiStatus :=
  if (sr_version self !=? STREAM_ABI_VERSION) || Fin_is_zero (sr_caller self) ||
     (sr_handle_id self ==? 0)
  then Err AbiInvalid
  else if sr_length self >? STREAM_CHUNK_BYTES then Err AbiInvalid
  else match StreamCall_from_raw (sr_call self) with
  | Some (Stream_OpenRead | Stream_ReadChunk) => Ok Ops_READ
  | Some (Stream_OpenWrite | Stream_WriteChunk | Stream_Commit | Stream_Abort) =>
      Ok Ops_CONFIGURE
  | None => Err AbiUnsupported
  end.

(** The [match call] of [validate]: the right each call needs. *)
Definition AbiCall_operation (call : AbiCall) : Operations :=
  match call with
  | Call_Log | Call_FormResolve | Call_TimeNow => Ops_READ
  | Call_EventPoll => Ops_INPUT
  | Call_HandleAuthorize | Call_IpcSend | Call_IpcReceive | Call_ExecutionYield
  | Call_ExecutionExit => Ops_EXECUTE
  | Call_SurfaceCreate | Call_BufferAttach | Call_SurfaceDamage | Call_SurfaceCommit =>
      Ops_DISPLAY
  | Call_BrowserNavigate => Ops_EXECUTE
  | Call_StorageRead => Ops_READ
  | Call_StorageWrite => Ops_CONFIGURE
  | Call_NetworkSend | Call_NetworkReceive => Ops_NETWORK
  | Call_PackageTransaction => Ops_PACKAGE
  end.

Definition AbiRequest_validate (self : AbiRequest) : result Operations AbiStatus :=
  if (ar_version self !=? FORM_ABI_VERSION) || Fin_is_zero (ar_caller self)
  then Err AbiInvalid
  else match AbiCall_from_raw (ar_call self) with
  | None => Err AbiUnsupported
  | Some call =>
      let operation := AbiCall_operation call in
      if (ar_handle_id self ==? 0) && negb (call ==? Call_Log) then Err AbiDenied
      else Ok operation
  end.

Definition NativeCallGate_dispatch {St : Type} (self : NativeCallGate) (request : AbiRequest)
    (tick : Z) (service : AbiCall → list Z → St → St * AbiResponse) (st : St)
    : St * AbiResponse :=
  match AbiRequest_validate request with
  | Err status => (st, AbiResponse_status status)
  | Ok operation =>
      if CfcFin_is_zero (gate_cfc self) || Fin_is_zero (gate_target self) ||
         Fin_is_zero (gate_dimension self)
      then (st, AbiResponse_status AbiInvalid)
      else if negb (is_ok (CapabilityBroker_authorize_in (gate_broker self) (gate_cfc self)
                             (ar_handle_id request) (gate_target self) (gate_dimension self)
                             operation tick)) ||
              negb (is_ok (CapabilityBroker_authorize_requester (gate_broker self)
                             (ar_handle_id request) (ar_caller request) (gate_target self)
                             (gate_dimension self) operation tick))
      then (st, AbiResponse_status AbiDenied)
      else match AbiCall_from_raw (ar_call request) with
      | None => (st, AbiResponse_status AbiUnsupported)
      | Some call => service call (ar_arguments request) st
      end
  end.

(** ** Specification *)

(** The caller holds a live Handle of the gate's CFC that covers the call. *)
Definition holds_right (g : NativeCallGate) (request : AbiRequest) (tick : Z) (call : AbiCall)
    : Prop :=
  ∃ h, handle_by_id (gate_broker g) (ar_handle_id request) = Some h ∧
       fh_cfc h = gate_cfc g ∧ fh_requester h = ar_caller request ∧
       grants h (gate_target g) (gate_dimension g) (AbiCall_operation call) tick.

Definition well_addressed (g : NativeCallGate) : Prop :=
  CfcFin_is_zero (gate_cfc g) = false ∧ Fin_is_zero (gate_target g) = false ∧
  Fin_is_zero (gate_dimension g) = false.

Definition well_versioned (request : AbiRequest) : Prop :=
  ar_version request = FORM_ABI_VERSION ∧ Fin_is_zero (ar_caller request) = false.

(** ** Lemmas *)

Lemma authorize_in_spec b c i t d o k :
  broker_wf b →
  CapabilityBroker_authorize_in b c i t d o k = Ok tt ↔
  ∃ h, handle_by_id b i = Some h ∧ fh_cfc h = c ∧ grants h t d o k.
Proof.
  intros Hw. unfold CapabilityBroker_authorize_in. split.
  - intros H. guards. bools. apply authorize_spec in H as (h & ? & ?). naive_solver.
  - intros (h & Hh & <- & Hg). rewrite Hh.
    pose proof (handle_by_id_Some _ _ _ Hh) as [Hin _].
    rewrite (hk_cfc _ _ (cw_ok _ Hw h Hin)), !bool_decide_true by done. simpl.
    apply authorize_spec. eauto.
Qed.

Lemma authorize_requester_spec b r i t d o k :
  CapabilityBroker_authorize_requester b i r t d o k = Ok tt ↔
  ∃ h, handle_by_id b i = Some h ∧ fh_requester h = r ∧ grants h t d o k.
Proof.
  unfold CapabilityBroker_authorize_requester. rewrite let_ok. split.
  - intros ([] & (h & Hh & Hg)%authorize_spec & H). rewrite Hh in H. guards. bools. eauto.
  - intros (h & Hh & <- & Hg). exists tt. split; [apply authorize_spec; eauto|].
    by rewrite Hh, bool_decide_true.
Qed.

(** The two broker checks of the gate together are [holds_right]. *)
Lemma gate_checks_spec g request tick call :
  broker_wf (gate_broker g) →
  negb (is_ok (CapabilityBroker_authorize_in (gate_broker g) (gate_cfc g)
                 (ar_handle_id request) (gate_target g) (gate_dimension g)
                 (AbiCall_operation call) tick)) ||
  negb (is_ok (CapabilityBroker_authorize_requester (gate_broker g)
                 (ar_handle_id request) (ar_caller request) (gate_target g)
                 (gate_dimension g) (AbiCall_operation call) tick)) = false ↔
  holds_right g request tick call.
Proof.
  intros Hw. rewrite orb_false_iff, !negb_false_iff, !is_ok_unit.
  rewrite authorize_in_spec, authorize_requester_spec by done. unfold holds_right. naive_solver.
Qed.

(** No Handle has identifier 0. *)
Lemma holds_right_id g request tick call :
  broker_wf (gate_broker g) → holds_right g request tick call → ar_handle_id request ≠ 0.
Proof.
  intros Hw (h & [Hh <-]%handle_by_id_Some & _). pose proof (hk_id _ _ (cw_ok _ Hw h Hh)). lia.
Qed.

Lemma validate_spec request :
  match AbiRequest_validate request with
  | Ok o => well_versioned request ∧
            ∃ call, AbiCall_from_raw (ar_call request) = Some call ∧ o = AbiCall_operation call
  | Err AbiInvalid => ¬ well_versioned request
  | Err AbiUnsupported => well_versioned request ∧ AbiCall_from_raw (ar_call request) = None
  | Err AbiDenied => well_versioned request ∧ ar_handle_id request = 0 ∧
                     ∃ call, AbiCall_from_raw (ar_call request) = Some call ∧ call ≠ Call_Log
  | Err _ => False
  end.
Proof.
  unfold AbiRequest_validate, well_versioned. destruct (_ || _) eqn:E.
  - apply orb_true_iff in E as [E|E]; bools; naive_solver congruence.
  - bools. destruct (AbiCall_from_raw _) as [call|]; [|done]. cbv zeta.
    destruct (_ && _) eqn:Hz; bools; eauto 6.
Qed.

(** ** Properties *)

(** C16.  Complete mediation.  The native call gate runs the service exactly
    when the request speaks ABI version 1 for a non-zero caller, names a known
    call, the gate is bound to non-zero identities, and the caller itself holds
    a live Handle of that CFC which covers the operation of the call on the
    gate's target and Dimension at this tick.  In every other case the service
    is not run (its state is untouched), and the response carries the status
    that names the reason and four zero values. *)
Theorem gate_mediates {St : Type} (g : NativeCallGate) (request : AbiRequest) (tick : Z)
    (service : AbiCall → list Z → St → St * AbiResponse) (st : St) :
  broker_reachable (gate_broker g) →
  (∃ call, well_versioned request ∧ well_addressed g ∧
     AbiCall_from_raw (ar_call request) = Some call ∧ holds_right g request tick call ∧
     NativeCallGate_dispatch g request tick service st =
       service call (ar_arguments request) st) ∨
  (∃ status,
     NativeCallGate_dispatch g request tick service st =
       (st, MkAbiResponse (AbiStatus_as_u16 status) [0; 0; 0; 0]) ∧
     match status with
     | AbiInvalid => ¬ (well_versioned request ∧ well_addressed g)
     | AbiUnsupported => well_versioned request ∧ AbiCall_from_raw (ar_call request) = None
     | AbiDenied => well_versioned request ∧
         ∃ call, AbiCall_from_raw (ar_call request) = Some call ∧
                 ¬ holds_right g request tick call
     | _ => False
     end).
Proof.
  intros Hw%broker_reachable_wf. unfold NativeCallGate_dispatch.
  pose proof (validate_spec request) as Hv. destruct (AbiRequest_validate request) as [o|s].
  - destruct Hv as (Hver & call & Hcall & ->). rewrite Hcall. destruct (_ || _) eqn:Ha.
    + right. exists AbiInvalid. split; [done|]. intros (_ & H1 & H2 & H3).
      by rewrite H1, H2, H3 in Ha.
    + bools. pose proof (gate_checks_spec g request tick call Hw) as Hc.
      destruct (_ || _) in Hc |- *.
      * right. exists AbiDenied. split; [done|]. split; [done|]. exists call. split; [done|].
        intros Hr. by apply Hc in Hr.
      * left. exists call. split_and!; [done| |done|by apply Hc|done]. done.
  - right. exists s. split; [done|]. destruct s; try naive_solver.
    destruct Hv as (? & Hz & call & ? & _). split; [done|]. exists call. split; [done|].
    intros Hr. by apply (holds_right_id _ _ _ _ Hw Hr).
Qed.

(** The demonstration broker's Handle 1 (READ and EXECUTE on 5 in Dimension 6
    for requester 7), and a service that counts its calls. *)
Definition demo_gate : NativeCallGate :=
  MkGate demo_broker1 (CfcFin_from_u128 1) (Fin_from_u128 5) (Fin_from_u128 6).
Definition demo_request (caller : Z) : AbiRequest :=
  MkAbiRequest 1 5 (Fin_from_u128 caller) 1 [7; 9; 0; 0; 0; 0].
Definition demo_service (call : AbiCall) (arguments : list Z) (count : nat) : nat * AbiResponse :=
  (S count, AbiResponse_ok (take 4 arguments)).

Lemma gate_mediates_witness :
  NativeCallGate_dispatch demo_gate (demo_request 7) 100 demo_service 0%nat =
    (1%nat, MkAbiResponse 0 [7; 9; 0; 0]) ∧
  ∃ status, NativeCallGate_dispatch demo_gate (demo_request 8) 100 demo_service 0%nat =
    (0%nat, MkAbiResponse (AbiStatus_as_u16 status) [0; 0; 0; 0]).
Proof.
  split.
  - destruct (gate_mediates demo_gate (demo_request 7) 100 demo_service 0%nat
      demo_broker1_reachable) as [(call & _ & _ & Hc & _ & ->)|(s & H & _)].
    + vm_compute in Hc. injection Hc as <-. reflexivity.
    + exfalso. vm_compute in H. discriminate H.
  - destruct (gate_mediates demo_gate (demo_request 8) 100 demo_service 0%nat
      demo_broker1_reachable) as [(call & _ & _ & Hc & (h & Hh & _ & Hr & _) & _)|(s & H & _)].
    + exfalso. vm_compute in Hh. injection Hh as <-. vm_compute in Hr. discriminate Hr.
    + exists s. exact H.
Defined.

(** The wire numbers are stable: every call, stream call and status
    decodes from its own number, every number that decodes is the number of
    what it decodes to, and no stream or Form call ever has number 0. *)
Theorem abi_numbers_roundtrip :
  (∀ call value, AbiCall_from_raw value = Some call ↔ value = AbiCall_as_u16 call) ∧
  (∀ call value, StreamCall_from_raw value = Some call ↔ value = StreamCall_as_u16 call) ∧
  (∀ status value, AbiStatus_from_raw value = Some status ↔ value = AbiStatus_as_u16 status) ∧
  AbiCall_from_raw 0 = None ∧ StreamCall_from_raw 0 = None.
Proof.
  split_and!; [..|done|done]; intros c v; split; try (by intros ->; destruct c).
  - unfold AbiCall_from_raw. intros H. by guards.
  - unfold StreamCall_from_raw. intros H. by guards.
  - unfold AbiStatus_from_raw. intros H. by guards.
Qed.

(** A streaming request is accepted exactly when it speaks version 2 for
    a non-zero caller and Handle, transfers at most one chunk window and names
    a known stream call; reading needs READ, and everything that writes or
    ends a write needs CONFIGURE. *)
Lemma stream_validate_decides (r : StreamRequest) (operation : Operations) :
  StreamRequest_validate r = Ok operation ↔
  sr_version r = 2 ∧ Fin_is_zero (sr_caller r) = false ∧ sr_handle_id r ≠ 0 ∧
  sr_length r ≤ 3840 ∧
  ∃ call, StreamCall_from_raw (sr_call r) = Some call ∧
    operation = match call with
                | Stream_OpenRead | Stream_ReadChunk => Ops_READ
                | _ => Ops_CONFIGURE
                end.
Proof.
  unfold StreamRequest_validate, STREAM_CHUNK_BYTES, STREAM_ABI_VERSION. split.
  - destruct (_ || _) eqn:E; [done|]. destruct (_ >? _) eqn:El; [done|]. bools.
    destruct (StreamCall_from_raw _) as [call|]; [|done]. intros Heq.
    split_and!; [done|done|done|lia|]. exists call. split; [done|]. by destruct call; simplify_eq.
  - intros (-> & -> & Hh & Hl & call & -> & ->).
    rewrite bool_decide_true, bool_decide_false by done. cbn [negb orb].
    change (4096 - 256) with 3840. rewrite Z.gtb_ltb, (proj2 (Z.ltb_ge 3840 (sr_length r)) Hl).
    by destruct call.
Qed.
