(* ===== verification/Registry.v ===== *)
(** * Forms, Dimensions and their bindings

    The Form registry of crates/expos-core/src/form.rs: sixteen Forms, eight
    Dimensions and thirty-two bindings of a Form into a Dimension.  A name is
    looked up through the visible bindings of one Dimension. *)

From stdpp Require Import prelude list.
From Stdlib Require Import ZArith Lia.
From S2P Require Import Prelude Identity.

Set Default Goal Selector "!".
Open Scope Z_scope.
Open Scope expos_scope.

(** ** Data *)

Definition MAX_FORMS : nat := 16.
Definition MAX_DIMENSIONS : nat := 8.
Definition MAX_BINDINGS : nat := 32.

Inductive FormKind :=
  | KindRoot | KindService | KindInterface | KindPackage | KindDriver | KindData | KindPolicy
  | KindExecutable.

Inductive Lifecycle := LifeActive | LifeRetired | LifeRecoverable | LifeRemoved.

Inductive Visibility := Visible | Hidden.

#[export] Instance FormKind_eq_dec : EqDecision FormKind.
Proof. solve_decision. Defined.
#[export] Instance Lifecycle_eq_dec : EqDecision Lifecycle.
Proof. solve_decision. Defined.

#[export] Instance Visibility_eq_dec : EqDecision Visibility.
Proof. solve_decision. Defined.

Record Form := MkForm {
  form_fin : Fin; form_name : Text; form_kind : FormKind; form_revision : Z;
  form_lifecycle : Lifecycle }.

Definition Form_eta (f : Form) : Form :=
  MkForm (form_fin f) (form_name f) (form_kind f) (form_revision f) (form_lifecycle f).
#[export] Instance set_form_revision : Setter form_revision := ltac:(build_setter Form_eta).
#[export] Instance set_form_lifecycle : Setter form_lifecycle := ltac:(build_setter Form_eta).

(** [None] is the failed assertion or [expect]. *)
Definition Form_new (fin : Fin) (name : str) (kind : FormKind) : option Form :=
  if Fin_is_zero fin then None
  else match Text_new name with
       | Ok name => Some (MkForm fin name kind 1 LifeActive)
       | Err _ => None
       end.

Record Dimension := MkDimension {
  dim_fin : Fin; dim_name : Text; dim_security_boundary : bool }.

Definition Dimension_new (fin : Fin) (name : str) (security_boundary : bool)
    : option Dimension :=
  if Fin_is_zero fin then None
  else match Text_new name with
       | Ok name => Some (MkDimension fin name security_boundary)
       | Err _ => None
       end.

Record Binding := MkBinding {
  bind_form : Fin; bind_dimension : Fin; bind_active_revision : Z;
  bind_visibility : Visibility }.

Definition Binding_eta (b : Binding) : Binding :=
  MkBinding (bind_form b) (bind_dimension b) (bind_active_revision b) (bind_visibility b).
#[export] Instance set_bind_visibility : Setter bind_visibility :=
  ltac:(build_setter Binding_eta).

Inductive RegistryError :=
  | RegDuplicateFin | RegFull | RegMissingForm | RegMissingDimension | RegAlreadyBound
  | RegStillBound.

Record FormRegistry := MkRegistry {
  reg_forms : slots Form; reg_dimensions : slots Dimension; reg_bindings : slots Binding }.

Definition Registry_eta (r : FormRegistry) : FormRegistry :=
  MkRegistry (reg_forms r) (reg_dimensions r) (reg_bindings r).
#[export] Instance set_reg_forms : Setter reg_forms := ltac:(build_setter Registry_eta).
#[export] Instance set_reg_dimensions : Setter reg_dimensions :=
  ltac:(build_setter Registry_eta).
#[export] Instance set_reg_bindings : Setter reg_bindings := ltac:(build_setter Registry_eta).

(** ** Operations *)

Definition FormRegistry_new : FormRegistry :=
  MkRegistry (empty_slots Form MAX_FORMS) (empty_slots Dimension MAX_DIMENSIONS)
    (empty_slots Binding MAX_BINDINGS).

Definition FormRegistry_form (self : FormRegistry) (fin : Fin) : option Form :=
  List.find (λ form, form_fin form ==? fin) (flatten (reg_forms self)).

Definition FormRegistry_dimension (self : FormRegistry) (fin : Fin) : option Dimension :=
  List.find (λ dimension, dim_fin dimension ==? fin) (flatten (reg_dimensions self)).

Definition fin_in_use (self : FormRegistry) (fin : Fin) : bool :=
  negb (slot_is_none (FormRegistry_form self fin)) ||
  negb (slot_is_none (FormRegistry_dimension self fin)).

Definition FormRegistry_register (self : FormRegistry) (form : Form)
    : FormRegistry * result unit RegistryError :=
  if fin_in_use self (form_fin form) then (self, Err RegDuplicateFin)
  else match fill_slot form (reg_forms self) with
       | None => (self, Err RegFull)
       | Some l => (self <| reg_forms := l |>, Ok tt)
       end.

Definition FormRegistry_add_dimension (self : FormRegistry) (dimension : Dimension)
    : FormRegistry * result unit RegistryError :=
  if fin_in_use self (dim_fin dimension) then (self, Err RegDuplicateFin)
  else match fill_slot dimension (reg_dimensions self) with
       | None => (self, Err RegFull)
       | Some l => (self <| reg_dimensions := l |>, Ok tt)
       end.

(** [Iterator::find_map]. *)
Fixpoint find_map {A B} (f : A → option B) (l : list A) : option B :=
  match l with
  | [] => None
  | x :: l' => match f x with Some y => Some y | None => find_map f l' end
  end.

Definition named_through (self : FormRegistry) (name : str) (dimension : Fin) (binding : Binding)
    : option Form :=
  if (bind_dimension binding !=? dimension) || (bind_visibility binding ==? Hidden) then None
  else match FormRegistry_form self (bind_form binding) with
       | Some form => if Text_as_str (form_name form) ==? name then Some form else None
       | None => None
       end.

Definition FormRegistry_first_named_in (self : FormRegistry) (name : str) (dimension : Fin)
    : option Form :=
  find_map (named_through self name dimension) (flatten (reg_bindings self)).

Definition binds (form dimension : Fin) (binding : Binding) : bool :=
  (bind_form binding ==? form) && (bind_dimension binding ==? dimension).

Definition FormRegistry_bind (self : FormRegistry) (form dimension : Fin) (active_revision : Z)
    (visibility : Visibility) : FormRegistry * result unit RegistryError :=
  if slot_is_none (FormRegistry_form self form) then (self, Err RegMissingForm)
  else if slot_is_none (FormRegistry_dimension self dimension)
  then (self, Err RegMissingDimension)
  else if existsb (binds form dimension) (flatten (reg_bindings self))
  then (self, Err RegAlreadyBound)
  else match fill_slot (MkBinding form dimension active_revision visibility)
               (reg_bindings self) with
       | None => (self, Err RegFull)
       | Some l => (self <| reg_bindings := l |>, Ok tt)
       end.

(** [any(|binding| binding.form == form && binding.visibility == Visible)] *)
Definition visible_somewhere (self : FormRegistry) (form : Fin) : bool :=
  existsb (λ binding, (bind_form binding ==? form) && (bind_visibility binding ==? Visible))
    (flatten (reg_bindings self)).

Definition FormRegistry_retire_from (self : FormRegistry) (form dimension : Fin)
    : FormRegistry * result unit RegistryError :=
  match List.find (binds form dimension) (flatten (reg_bindings self)) with
  | None => (self, Err RegMissingForm)
  | Some _ =>
      let self := self <| reg_bindings :=
        update_first (binds form dimension) (λ binding, binding <| bind_visibility := Hidden |>)
          (reg_bindings self) |> in
      if negb (visible_somewhere self form)
      then (self <| reg_forms :=
              update_first (λ record, form_fin record ==? form)
                (λ record, record <| form_lifecycle := LifeRetired |>) (reg_forms self) |>, Ok tt)
      else (self, Ok tt)
  end.

Definition FormRegistry_reclaim (self : FormRegistry) (form : Fin)
    : FormRegistry * result unit RegistryError :=
  if visible_somewhere self form then (self, Err RegStillBound)
  else match FormRegistry_form self form with
       | None => (self, Err RegMissingForm)
       | Some _ =>
           (self <| reg_forms :=
              update_first (λ record, form_fin record ==? form)
                (λ record, record <| form_lifecycle := LifeRemoved |>) (reg_forms self) |>, Ok tt)
       end.

(** ** Specification *)

Abbreviation forms r := (flatten (reg_forms r)).
Abbreviation dimensions r := (flatten (reg_dimensions r)).
Abbreviation bindings r := (flatten (reg_bindings r)).

Definition bind_key (b : Binding) : Fin * Fin := (bind_form b, bind_dimension b).

(** Forms and Dimensions share one space of FINs; a binding joins two
    registered ones, once. *)
Record registry_wf (r : FormRegistry) : Prop := {
  rw_fins : NoDup ((form_fin <$> forms r) ++ (dim_fin <$> dimensions r));
  rw_keys : NoDup (bind_key <$> bindings r);
  rw_bound : ∀ b, b ∈ bindings r →
    (bind_form b ∈ form_fin <$> forms r) ∧ (bind_dimension b ∈ dim_fin <$> dimensions r) }.

Inductive registry_step : FormRegistry → FormRegistry → Prop :=
  | gs_register r form : registry_step r (FormRegistry_register r form).1
  | gs_add_dimension r dimension : registry_step r (FormRegistry_add_dimension r dimension).1
  | gs_bind r form dimension revision visibility :
      registry_step r (FormRegistry_bind r form dimension revision visibility).1
  | gs_retire r form dimension : registry_step r (FormRegistry_retire_from r form dimension).1
  | gs_reclaim r form : registry_step r (FormRegistry_reclaim r form).1.

Definition registry_reachable (r : FormRegistry) : Prop := rtc registry_step FormRegistry_new r.

(** [b] makes [f] resolvable as [name] in [dimension]. *)
Definition resolves (r : FormRegistry) (name : str) (dimension : Fin) (b : Binding) (f : Form)
    : Prop :=
  b ∈ bindings r ∧ bind_dimension b = dimension ∧ bind_visibility b = Visible ∧
  FormRegistry_form r (bind_form b) = Some f ∧ Text_as_str (form_name f) = name.

(** ** Lemmas: lookups *)

Lemma find_key_None {A K} `{EqDecision K} (key : A → K) l k :
  slot_is_none (List.find (λ x, key x ==? k) l) = true ↔ k ∉ key <$> l.
Proof.
  rewrite list_elem_of_fmap. split.
  - destruct (List.find _ l) eqn:E; [done|]. intros _ (x & -> & Hx).
    apply (proj1 (find_elem_None _ _) E) in Hx. by bools.
  - intros Hn. destruct (List.find _ l) as [x|] eqn:E; [|done].
    apply find_elem in E as [Hx Hk]. bools. destruct Hn. eauto.
Qed.

Lemma find_key_Some {A K} `{EqDecision K} (key : A → K) l k :
  is_Some (List.find (λ x, key x ==? k) l) ↔ k ∈ key <$> l.
Proof.
  pose proof (find_key_None key l k) as H. destruct (List.find _ l) as [x|] eqn:E.
  - split; [|done]. intros _. apply find_elem in E as [Hx Hk]. bools.
    subst k. by apply list_elem_of_fmap_2.
  - split; [by intros []|]. intros Hk. by apply H in Hk.
Qed.

(** Editing the entry of one key, seen through a search by key. *)
Lemma find_alter_first {A K} `{EqDecision K} (key : A → K) f l k k0 :
  (∀ x, key (f x) = key x) →
  List.find (λ y, key y ==? k) (alter_first (λ y, key y ==? k0) f l) =
  (λ x, if decide (k = k0) then f x else x) <$> List.find (λ y, key y ==? k) l.
Proof.
  intros Hf. induction l as [|x l IH]; simpl; [done|].
  case_bool_decide as H0; simpl; rewrite ?Hf; case_bool_decide as Hk; simpl; rewrite ?IH; try done.
  - by rewrite decide_True by congruence.
  - destruct (decide _) as [->|]; [congruence|]. by destruct (List.find _ l).
  - by rewrite decide_False by congruence.
Qed.

Lemma binds_key form dimension b :
  binds form dimension b = (bind_key b ==? (form, dimension)).
Proof.
  unfold binds, bind_key. repeat case_bool_decide; simpl; naive_solver.
Qed.

Lemma fin_in_use_false r x :
  fin_in_use r x = false ↔
  (x ∉ form_fin <$> forms r) ∧ (x ∉ dim_fin <$> dimensions r).
Proof.
  unfold fin_in_use. rewrite orb_false_iff, !negb_false_iff.
  unfold FormRegistry_form, FormRegistry_dimension. by rewrite !find_key_None.
Qed.

Lemma registry_form_elem r f :
  registry_wf r → f ∈ forms r → FormRegistry_form r (form_fin f) = Some f.
Proof. intros [Hf _ _] Hin. apply NoDup_app in Hf as (Hf & _ & _). by apply find_unique. Qed.

Lemma registry_form_Some r x f : FormRegistry_form r x = Some f → f ∈ forms r ∧ form_fin f = x.
Proof. intros [? ?]%find_elem. by bools. Qed.

(** ** Lemmas: name resolution *)

Lemma find_map_Some {A B} (f : A → option B) l y :
  find_map f l = Some y → ∃ x, x ∈ l ∧ f x = Some y.
Proof.
  induction l as [|x l IH]; simpl; [done|]. destruct (f x) eqn:E.
  - intros [= ->]. exists x. split; [left|done].
  - intros (z & ? & ?)%IH. exists z. split; [by right|done].
Qed.

Lemma find_map_None {A B} (f : A → option B) l :
  find_map f l = None ↔ ∀ x, x ∈ l → f x = None.
Proof.
  induction l as [|x l IH]; simpl.
  - split; [by intros _ x ?%elem_of_nil|done].
  - destruct (f x) eqn:E.
    + split; [done|]. intros H. rewrite H in E; [done|by left].
    + rewrite IH. setoid_rewrite elem_of_cons. naive_solver.
Qed.

Lemma named_through_Some r name d b f :
  named_through r name d b = Some f ↔
  bind_dimension b = d ∧ bind_visibility b = Visible ∧
  FormRegistry_form r (bind_form b) = Some f ∧ Text_as_str (form_name f) = name.
Proof.
  unfold named_through. split.
  - intros H. destruct (_ || _) eqn:E; [done|]. bools. guards. bools.
    split_and!; auto. by destruct (bind_visibility b).
  - intros (-> & -> & -> & ->). repeat case_bool_decide; done.
Qed.

Lemma first_named_in_Some r name d f :
  FormRegistry_first_named_in r name d = Some f → ∃ b, resolves r name d b f.
Proof.
  intros (b & Hb & H)%find_map_Some. apply named_through_Some in H. exists b. split; done.
Qed.

Lemma first_named_in_None r name d :
  FormRegistry_first_named_in r name d = None ↔ ¬ ∃ b f, resolves r name d b f.
Proof.
  unfold FormRegistry_first_named_in. rewrite find_map_None. split.
  - intros H (b & f & Hb & Hr). apply named_through_Some in Hr. rewrite H in Hr; done.
  - intros H b Hb. destruct (named_through r name d b) as [f|] eqn:E; [|done].
    apply named_through_Some in E. destruct H. exists b, f. split; done.
Qed.

Lemma visible_somewhere_spec r f :
  visible_somewhere r f = true ↔
  ∃ b, b ∈ bindings r ∧ bind_form b = f ∧ bind_visibility b = Visible.
Proof.
  unfold visible_somewhere. rewrite existsb_elem. apply exist_proper. intros b.
  by rewrite andb_true_iff, !bool_decide_eq_true.
Qed.

(** ** Lemmas: the invariant *)

Definition set_lifecycle (form : Fin) (life : Lifecycle) (r : FormRegistry) : FormRegistry :=
  r <| reg_forms := update_first (λ record, form_fin record ==? form)
         (λ record, record <| form_lifecycle := life |>) (reg_forms r) |>.

Definition hide (form dimension : Fin) (r : FormRegistry) : FormRegistry :=
  r <| reg_bindings := update_first (binds form dimension)
         (λ binding, binding <| bind_visibility := Hidden |>) (reg_bindings r) |>.

Lemma set_lifecycle_form form life r x :
  FormRegistry_form (set_lifecycle form life r) x =
  (λ g, if decide (x = form) then g <| form_lifecycle := life |> else g)
    <$> FormRegistry_form r x.
Proof.
  unfold FormRegistry_form, set_lifecycle. simpl. rewrite flatten_update_first.
  by apply (find_alter_first form_fin).
Qed.

Lemma set_lifecycle_wf form life r : registry_wf r → registry_wf (set_lifecycle form life r).
Proof.
  intros [H1 H2 H3].
  assert (form_fin <$> forms (set_lifecycle form life r) = form_fin <$> forms r) as E.
  { unfold set_lifecycle. simpl. rewrite flatten_update_first. by apply alter_first_fmap. }
  split; rewrite ?E; done.
Qed.

Lemma hide_bindings form dimension r :
  registry_wf r →
  bindings (hide form dimension r) =
  (λ b, if binds form dimension b then b <| bind_visibility := Hidden |> else b) <$> bindings r.
Proof.
  intros [_ Hk _]. unfold hide. simpl. rewrite flatten_update_first.
  rewrite (alter_first_ext _ _ _ _ (binds_key form dimension)), alter_first_unique by done.
  apply list_fmap_ext. intros i b _. by rewrite binds_key.
Qed.

Lemma hide_elem form dimension r b' :
  registry_wf r →
  b' ∈ bindings (hide form dimension r) ↔
  ∃ b, b ∈ bindings r ∧
       b' = if binds form dimension b then b <| bind_visibility := Hidden |> else b.
Proof. intros Hw. rewrite hide_bindings, list_elem_of_fmap by done. naive_solver. Qed.

Lemma hide_wf form dimension r : registry_wf r → registry_wf (hide form dimension r).
Proof.
  intros Hw. pose proof Hw as [H1 H2 H3].
  split; [done| |].
  - rewrite hide_bindings, <- list_fmap_compose by done.
    erewrite list_fmap_ext; [exact H2|]. intros i b _. simpl. by destruct (binds _ _ b).
  - intros b' (b & Hb & ->)%hide_elem; [|done]. destruct (binds _ _ b); by apply (H3 b).
Qed.

Lemma retire_from_eq r form dimension :
  FormRegistry_retire_from r form dimension =
  if existsb (binds form dimension) (bindings r)
  then (if visible_somewhere (hide form dimension r) form then hide form dimension r
        else set_lifecycle form LifeRetired (hide form dimension r), Ok tt)
  else (r, Err RegMissingForm).
Proof.
  unfold FormRegistry_retire_from. destruct (existsb _ _) eqn:E.
  - apply find_existsb in E as [b ->]. cbv zeta. fold (hide form dimension r).
    by destruct (visible_somewhere _ _).
  - destruct (List.find _ _) as [b|] eqn:F; [|done].
    rewrite (proj2 (find_existsb _ _)) in E; [done|]. by rewrite F.
Qed.

Lemma registry_step_wf r r' : registry_wf r → registry_step r r' → registry_wf r'.
Proof.
  intros Hw. pose proof Hw as [H1 H2 H3].
  destruct 1 as [r form|r dim|r form d rev v|r form d|r form].
  - unfold FormRegistry_register. destruct (fin_in_use _ _) eqn:E; [done|].
    destruct (fill_slot _ _) as [l|] eqn:Hl; [|done]. apply fin_in_use_false in E as [E1 E2].
    apply fill_slot_perm in Hl. split; simpl; [|done|].
    + rewrite Hl. csimpl. apply NoDup_cons. rewrite elem_of_app. split; [tauto|done].
    + intros b Hb. rewrite Hl. csimpl. rewrite elem_of_cons. split; [right|]; by apply (H3 b).
  - unfold FormRegistry_add_dimension. destruct (fin_in_use _ _) eqn:E; [done|].
    destruct (fill_slot _ _) as [l|] eqn:Hl; [|done]. apply fin_in_use_false in E as [E1 E2].
    apply fill_slot_perm in Hl. split; simpl; [|done|].
    + rewrite Hl. csimpl. rewrite <- Permutation_middle. apply NoDup_cons.
      rewrite elem_of_app. split; [tauto|done].
    + intros b Hb. rewrite Hl. csimpl. rewrite elem_of_cons. split; [|right]; by apply (H3 b).
  - unfold FormRegistry_bind. destruct (slot_is_none _) eqn:Ef; [done|].
    destruct (slot_is_none (FormRegistry_dimension _ _)) eqn:Ed; [done|].
    destruct (existsb _ _) eqn:Ex; [done|].
    destruct (fill_slot _ _) as [l|] eqn:Hl; [|done]. apply fill_slot_perm in Hl.
    split; simpl; try rewrite Hl; csimpl; [done| |].
    + apply NoDup_cons. split; [|done]. intros (b & Eb & Hb)%list_elem_of_fmap.
      rewrite existsb_elem_false in Ex. specialize (Ex b Hb). rewrite binds_key in Ex.
      bools. by destruct Ex; rewrite <- Eb.
    + intros b. rewrite Hl, elem_of_cons. intros [->|Hb]; [simpl|by apply H3].
      split; apply dec_stable; intros Hn.
      * apply (find_key_None form_fin) in Hn. unfold FormRegistry_form in Ef. congruence.
      * apply (find_key_None dim_fin) in Hn. unfold FormRegistry_dimension in Ed. congruence.
  - rewrite retire_from_eq. destruct (existsb _ _); [|done]. simpl.
    destruct (visible_somewhere _ _); auto using hide_wf, set_lifecycle_wf.
  - unfold FormRegistry_reclaim. destruct (visible_somewhere _ _); [done|].
    destruct (FormRegistry_form _ _); [|done]. by apply set_lifecycle_wf.
Qed.

Lemma registry_reachable_wf r : registry_reachable r → registry_wf r.
Proof.
  apply (rtc_ind_r registry_wf).
  - split; unfold FormRegistry_new; cbn [reg_forms reg_dimensions reg_bindings];
      rewrite !flatten_empty; [constructor|constructor|by intros b Hb%elem_of_nil].
  - intros r1 r2 _ Hs Hw. by eapply registry_step_wf.
Qed.

(** Changing a lifecycle changes neither names nor FINs. *)
Lemma first_named_in_lifecycle form life r name d :
  form_fin <$> FormRegistry_first_named_in (set_lifecycle form life r) name d =
  form_fin <$> FormRegistry_first_named_in r name d.
Proof.
  unfold FormRegistry_first_named_in. change (bindings (set_lifecycle _ _ _)) with (bindings r).
  induction (bindings r) as [|b l IH]; simpl; [done|].
  assert (form_fin <$> named_through (set_lifecycle form life r) name d b =
          form_fin <$> named_through r name d b) as E.
  { unfold named_through. destruct (_ || _); [done|]. rewrite set_lifecycle_form.
    destruct (FormRegistry_form r _) as [f|]; simpl; [|done].
    destruct (decide _); simpl; by case_bool_decide. }
  destruct (named_through (set_lifecycle _ _ _) _ _ _), (named_through r _ _ _); simpl in *; congruence.
Qed.

Lemma first_named_in_hide form dimension r name d :
  registry_wf r → d ≠ dimension →
  FormRegistry_first_named_in (hide form dimension r) name d =
  FormRegistry_first_named_in r name d.
Proof.
  intros Hw Hd. unfold FormRegistry_first_named_in. rewrite hide_bindings by done.
  induction (bindings r) as [|b l IH]; csimpl; [done|]. rewrite IH.
  replace (named_through (hide form dimension r) name d _) with (named_through r name d b); [done|].
  unfold named_through. destruct (binds form dimension b) eqn:E; [|done].
  unfold binds in E. bools. simpl. subst. by rewrite (bool_decide_false (_ = d)).
Qed.

(** A Form with no visible binding in [d] is not found there. *)
Lemma first_named_in_not r name d f g :
  (∀ b, b ∈ bindings r → bind_form b = f → bind_dimension b = d → bind_visibility b = Hidden) →
  FormRegistry_first_named_in r name d = Some g → form_fin g ≠ f.
Proof.
  intros H (b & Hb & Hd & Hv & Hf & _)%first_named_in_Some Hg.
  apply registry_form_Some in Hf as [_ Hf]. specialize (H b Hb). naive_solver congruence.
Qed.

Lemma hidden_in_dimension r form dimension b :
  registry_wf r → b ∈ bindings (hide form dimension r) → bind_form b = form →
  bind_dimension b = dimension → bind_visibility b = Hidden.
Proof.
  intros Hw (x & Hx & ->)%hide_elem; [|done]. destruct (binds form dimension x) eqn:E; [done|].
  intros <- <-. unfold binds in E. by rewrite !bool_decide_true in E.
Qed.

(** ** Properties *)

(** The registry is consistent and resolution is sound and complete.  In
    every reachable registry each FIN names one thing, a Form or a Dimension
    but not both; a binding joins a registered Form and a registered Dimension
    and is the only one for that pair; and looking a name up in a Dimension
    finds a registered Form of that name that is visibly bound there, or
    reports that there is none. *)
Theorem registry_resolves (r : FormRegistry) :
  registry_reachable r →
  (∀ f, f ∈ forms r →
     FormRegistry_form r (form_fin f) = Some f ∧ FormRegistry_dimension r (form_fin f) = None) ∧
  (∀ d, d ∈ dimensions r → FormRegistry_dimension r (dim_fin d) = Some d) ∧
  (∀ b, b ∈ bindings r →
     is_Some (FormRegistry_form r (bind_form b)) ∧
     is_Some (FormRegistry_dimension r (bind_dimension b)) ∧
     List.find (binds (bind_form b) (bind_dimension b)) (bindings r) = Some b) ∧
  ∀ name dimension,
    match FormRegistry_first_named_in r name dimension with
    | Some f => ∃ b, resolves r name dimension b f
    | None => ¬ ∃ b f, resolves r name dimension b f
    end.
Proof.
  intros Hw%registry_reachable_wf. pose proof Hw as [H1 H2 H3].
  apply NoDup_app in H1 as (Hf & Hfd & Hd). split_and!.
  - intros f Hin. split; [by apply registry_form_elem|].
    apply find_elem_None. intros d Hdin. apply bool_decide_eq_false. intros E.
    apply (Hfd (form_fin f)); [by apply list_elem_of_fmap_2|].
    rewrite <- E. by apply list_elem_of_fmap_2.
  - intros d Hin. by apply find_unique.
  - intros b Hb. destruct (H3 b Hb) as [??]. split_and!; [by apply find_key_Some..|].
    destruct (find_is_Some (binds (bind_form b) (bind_dimension b)) (bindings r) b Hb) as [x Hx].
    { unfold binds. by rewrite !bool_decide_true. }
    rewrite Hx. f_equal. apply find_elem in Hx as [Hxin Hx]. rewrite binds_key in Hx. bools.
    by apply (NoDup_key_inj bind_key (bindings r)).
  - intros name d. destruct (FormRegistry_first_named_in r name d) eqn:E.
    + by apply first_named_in_Some.
    + by apply first_named_in_None.
Qed.

(** Removing a Form from one Dimension is local.  [retire_from] succeeds
    exactly when the Form is bound there; afterwards the Form is not found in
    that Dimension under any name, every other Dimension resolves every name
    to the same FIN as before, and only when no visible binding is left is the
    Form's own record marked retired.  No other record changes, and a refused
    call changes nothing. *)
Theorem retire_is_local (r : FormRegistry) (form dimension : Fin) :
  registry_reachable r →
  match FormRegistry_retire_from r form dimension with
  | (r', Err e) => r' = r ∧ e = RegMissingForm ∧
      ¬ (∃ b, b ∈ bindings r ∧ bind_form b = form ∧ bind_dimension b = dimension)
  | (r', Ok _) =>
      (∀ name f, FormRegistry_first_named_in r' name dimension = Some f → form_fin f ≠ form) ∧
      (∀ name d, d ≠ dimension →
         form_fin <$> FormRegistry_first_named_in r' name d =
         form_fin <$> FormRegistry_first_named_in r name d) ∧
      (∀ x, FormRegistry_form r' x =
         (λ g, if decide (x = form ∧ visible_somewhere r' form = false)
               then g <| form_lifecycle := LifeRetired |> else g) <$> FormRegistry_form r x)
  end.
Proof.
  intros Hw%registry_reachable_wf. rewrite retire_from_eq. destruct (existsb _ _) eqn:E.
  - assert (∀ b, b ∈ bindings (hide form dimension r) → bind_form b = form →
      bind_dimension b = dimension → bind_visibility b = Hidden) as Hh
      by (intros b; by apply hidden_in_dimension).
    destruct (visible_somewhere (hide form dimension r) form) eqn:Ev; split_and!.
    + intros name f. by apply first_named_in_not.
    + intros name d Hd. by rewrite first_named_in_hide.
    + intros x. change (FormRegistry_form (hide form dimension r) x) with (FormRegistry_form r x).
      destruct (FormRegistry_form r x); simpl; [|done].
      rewrite decide_False; [done|]. intros [_ ?]. congruence.
    + intros name f. by apply first_named_in_not.
    + intros name d Hd. by rewrite first_named_in_lifecycle, first_named_in_hide.
    + intros x. rewrite set_lifecycle_form.
      change (FormRegistry_form (hide form dimension r) x) with (FormRegistry_form r x).
      destruct (FormRegistry_form r x); simpl; [|done]. f_equal.
      destruct (decide (x = form)); [rewrite decide_True by done|rewrite decide_False by naive_solver];
        done.
  - split_and!; [done..|]. intros (b & Hb & <- & <-). rewrite existsb_elem_false in E.
    specialize (E b Hb). unfold binds in E. by rewrite !bool_decide_true in E.
Qed.

(** A reclaimed Form does not stay removed.  [reclaim] marks a Form with
    no visible binding as removed but keeps its hidden bindings, and
    [retire_from] on such a binding succeeds and marks the Form merely retired
    again. *)
Theorem reclaimed_form_returns (r : FormRegistry) (form dimension : Fin) (b : Binding) :
  registry_reachable r → b ∈ bindings r → bind_form b = form → bind_dimension b = dimension →
  visible_somewhere r form = false →
  let (r1, res1) := FormRegistry_reclaim r form in
  let (r2, res2) := FormRegistry_retire_from r1 form dimension in
  res1 = Ok tt ∧ form_lifecycle <$> FormRegistry_form r1 form = Some LifeRemoved ∧
  res2 = Ok tt ∧ form_lifecycle <$> FormRegistry_form r2 form = Some LifeRetired.
Proof.
  intros Hw%registry_reachable_wf Hb Hf Hd Hv. unfold FormRegistry_reclaim. rewrite Hv.
  destruct (rw_bound _ Hw b Hb) as [Hform _]. rewrite Hf in Hform.
  apply (find_key_Some form_fin) in Hform as [g Hg].
  change (FormRegistry_form r form = Some g) in Hg. rewrite Hg.
  fold (set_lifecycle form LifeRemoved r). set (r1 := set_lifecycle form LifeRemoved r).
  assert (registry_wf r1) as Hw1 by (by apply set_lifecycle_wf).
  rewrite retire_from_eq. change (bindings r1) with (bindings r).
  rewrite (proj2 (existsb_elem _ _)); [|exists b; unfold binds; by rewrite Hf, Hd, !bool_decide_true].
  assert (visible_somewhere (hide form dimension r1) form = false) as ->.
  { apply not_true_iff_false. rewrite visible_somewhere_spec.
    intros (x & (y & Hy & ->)%hide_elem & Hxf & Hxv); [|done].
    apply not_true_iff_false in Hv. rewrite visible_somewhere_spec in Hv.
    destruct (binds form dimension y); [done|]. naive_solver. }
  rewrite set_lifecycle_form.
  change (FormRegistry_form (hide form dimension r1) form) with (FormRegistry_form r1 form).
  unfold r1. rewrite set_lifecycle_form, Hg. simpl. by rewrite !decide_True.
Qed.

(** ** Witnesses

    "Notes" bound in Dimensions 2 and 3, then removed from Dimension 2, and
    from both. *)

Definition demo_name : str := [78; 111; 116; 101; 115].
Definition demo_text : Text := MkText (demo_name ++ replicate 27 0) 5.
Definition demo_form : Form := MkForm (Fin_from_u128 1) demo_text KindData 1 LifeActive.
Definition demo_registry1 : FormRegistry :=
  (FormRegistry_bind
    (FormRegistry_bind
      (FormRegistry_add_dimension
        (FormRegistry_add_dimension
          (FormRegistry_register FormRegistry_new demo_form).1
          (MkDimension (Fin_from_u128 2) demo_text true)).1
        (MkDimension (Fin_from_u128 3) demo_text false)).1
      (Fin_from_u128 1) (Fin_from_u128 2) 1 Visible).1
    (Fin_from_u128 1) (Fin_from_u128 3) 1 Visible).1.
Definition demo_registry2 : FormRegistry :=
  (FormRegistry_retire_from demo_registry1 (Fin_from_u128 1) (Fin_from_u128 2)).1.
Definition demo_registry3 : FormRegistry :=
  (FormRegistry_retire_from demo_registry2 (Fin_from_u128 1) (Fin_from_u128 3)).1.

Lemma demo_registry1_reachable : registry_reachable demo_registry1.
Proof.
  eapply rtc_r; [|apply gs_bind]. eapply rtc_r; [|apply gs_bind].
  eapply rtc_r; [|apply gs_add_dimension]. eapply rtc_r; [|apply gs_add_dimension].
  apply rtc_once, gs_register.
Qed.

Lemma demo_registry3_reachable : registry_reachable demo_registry3.
Proof.
  eapply rtc_r; [|apply gs_retire]. eapply rtc_r; [|apply gs_retire].
  apply demo_registry1_reachable.
Qed.

Lemma registry_resolves_witness :
  FormRegistry_form demo_registry1 (Fin_from_u128 1) = Some demo_form ∧
  FormRegistry_dimension demo_registry1 (Fin_from_u128 1) = None.
Proof.
  apply (proj1 (registry_resolves demo_registry1 demo_registry1_reachable) demo_form).
  vm_compute. left.
Defined.

Lemma retire_is_local_witness :
  form_fin <$> FormRegistry_first_named_in demo_registry2 demo_name (Fin_from_u128 3) =
    Some (Fin_from_u128 1) ∧
  FormRegistry_first_named_in demo_registry2 demo_name (Fin_from_u128 2) = None.
Proof.
  pose proof (retire_is_local demo_registry1 (Fin_from_u128 1) (Fin_from_u128 2)
    demo_registry1_reachable) as H.
  split; [|vm_compute; reflexivity]. unfold demo_registry2.
  destruct (FormRegistry_retire_from demo_registry1 (Fin_from_u128 1) (Fin_from_u128 2))
    as [r' [u|e]] eqn:E.
  - destruct H as (_ & H & _). cbn [fst].
    rewrite (H demo_name (Fin_from_u128 3)); [vm_compute; reflexivity|].
    intros Heq. vm_compute in Heq. discriminate Heq.
  - exfalso. vm_compute in E. discriminate E.
Defined.

Lemma reclaimed_form_returns_witness :
  form_lifecycle <$> FormRegistry_form
    (FormRegistry_retire_from (FormRegistry_reclaim demo_registry3 (Fin_from_u128 1)).1
       (Fin_from_u128 1) (Fin_from_u128 2)).1 (Fin_from_u128 1) = Some LifeRetired.
Proof.
  pose proof (reclaimed_form_returns demo_registry3 (Fin_from_u128 1) (Fin_from_u128 2)
    (MkBinding (Fin_from_u128 1) (Fin_from_u128 2) 1 Hidden) demo_registry3_reachable) as H.
  destruct (FormRegistry_reclaim demo_registry3 (Fin_from_u128 1)) as [r1 res1].
  destruct (FormRegistry_retire_from r1 (Fin_from_u128 1) (Fin_from_u128 2)) as [r2 res2] eqn:E2.
  cbn [fst]. rewrite E2. cbn [fst].
  apply H; [vm_compute; left|reflexivity|reflexivity|vm_compute; reflexivity].
Defined.
