(* ===== verification/Relationship.v ===== *)
(** * The relationship graph

    Typed edges between Forms (crates/expos-core/src/relationship.rs): a table
    of forty-eight entries that represents a finite set, which is its abstract
    specification here. *)

From stdpp Require Import prelude list gmap.
From Stdlib Require Import ZArith Lia.
From S2P Require Import Prelude Identity.

Set Default Goal Selector "!".
Open Scope Z_scope.
Open Scope expos_scope.

(** ** Data *)

Definition MAX_RELATIONSHIPS : nat := 48.

Inductive RelationshipKind := DependsOn | Provides | Contains | ConfiguredBy | Revises.

#[export] Instance RelationshipKind_eq_dec : EqDecision RelationshipKind.
Proof. solve_decision. Defined.

Record Relationship := MkRelationship {
  rel_source : Fin; rel_target : Fin; rel_kind : RelationshipKind; rel_dimension : option Fin }.

#[export] Instance Relationship_eq_dec : EqDecision Relationship.
Proof. solve_decision. Defined.

Inductive RelationshipError := RelInvalid | RelDuplicate | RelFull.

Record RelationshipGraph := MkGraph { graph_entries : slots Relationship }.

(** ** Operations *)

Definition RelationshipGraph_new : RelationshipGraph :=
  MkGraph (empty_slots Relationship MAX_RELATIONSHIPS).

Definition RelationshipGraph_relate (self : RelationshipGraph) (relationship : Relationship)
    : RelationshipGraph * result unit RelationshipError :=
  if Fin_is_zero (rel_source relationship) || Fin_is_zero (rel_target relationship) ||
     (rel_source relationship ==? rel_target relationship)
  then (self, Err RelInvalid)
  else if existsb (λ entry, entry ==? relationship) (flatten (graph_entries self))
  then (self, Err RelDuplicate)
  else match fill_slot relationship (graph_entries self) with
       | None => (self, Err RelFull)
       | Some l => (MkGraph l, Ok tt)
       end.

(** The first slot that holds [relationship] becomes [None]; [None] when there
    is no such slot. *)
Fixpoint clear_slot (relationship : Relationship) (l : slots Relationship)
    : option (slots Relationship) :=
  match l with
  | [] => None
  | o :: l' =>
      if o ==? Some relationship then Some (None :: l')
      else option_map (cons o) (clear_slot relationship l')
  end.

Definition RelationshipGraph_remove (self : RelationshipGraph) (relationship : Relationship)
    : RelationshipGraph * bool :=
  match clear_slot relationship (graph_entries self) with
  | Some l => (MkGraph l, true)
  | None => (self, false)
  end.

(** What the iterator yields, in order. *)
Definition RelationshipGraph_targets (self : RelationshipGraph) (source : Fin)
    (kind : RelationshipKind) (dimension : option Fin) : list Fin :=
  omap (λ entry,
    if (rel_source entry ==? source) && (rel_kind entry ==? kind) &&
       (slot_is_none (rel_dimension entry) || (rel_dimension entry ==? dimension))
    then Some (rel_target entry) else None) (flatten (graph_entries self)).

Definition RelationshipGraph_referenced (self : RelationshipGraph) (target : Fin) : bool :=
  existsb (λ entry, rel_target entry ==? target) (flatten (graph_entries self)).

Definition RelationshipGraph_involves (self : RelationshipGraph) (fin : Fin) : bool :=
  existsb (λ entry, (rel_source entry ==? fin) || (rel_target entry ==? fin))
    (flatten (graph_entries self)).

Definition RelationshipGraph_count (self : RelationshipGraph) : nat :=
  length (flatten (graph_entries self)).

(** The visitor is a state transformer, run on the entries in order. *)
Definition RelationshipGraph_visit {St} (self : RelationshipGraph)
    (visitor : St → Relationship → St) (st : St) : St :=
  fold_left visitor (flatten (graph_entries self)) st.

(** ** Specification: a finite set of edges *)

#[export] Instance Fin_countable : Countable Fin.
Proof. apply (inj_countable' Fin_bytes MkFin). by intros []. Defined.

Definition kind_number (k : RelationshipKind) : nat :=
  match k with DependsOn => 0 | Provides => 1 | Contains => 2 | ConfiguredBy => 3 | Revises => 4 end.

#[export] Instance RelationshipKind_countable : Countable RelationshipKind.
Proof.
  apply (inj_countable' kind_number
    (λ n, match n with 0 => DependsOn | 1 => Provides | 2 => Contains | 3 => ConfiguredBy
                     | _ => Revises end)%nat).
  by intros [].
Defined.

#[export] Instance Relationship_countable : Countable Relationship.
Proof.
  apply (inj_countable' (λ r, (rel_source r, rel_target r, rel_kind r, rel_dimension r))
    (λ '(s, t, k, d), MkRelationship s t k d)).
  by intros [].
Defined.

(** The edges a graph holds. *)
Definition edges (g : RelationshipGraph) : gset Relationship :=
  list_to_set (flatten (graph_entries g)).

Definition proper_edge (r : Relationship) : Prop :=
  Fin_is_zero (rel_source r) = false ∧ Fin_is_zero (rel_target r) = false ∧
  rel_source r ≠ rel_target r.

Record graph_wf (g : RelationshipGraph) : Prop := {
  gw_length : length (graph_entries g) = MAX_RELATIONSHIPS;
  gw_nodup : NoDup (flatten (graph_entries g));
  gw_proper : ∀ r, r ∈ edges g → proper_edge r }.

Inductive graph_step : RelationshipGraph → RelationshipGraph → Prop :=
  | grs_relate g r : graph_step g (RelationshipGraph_relate g r).1
  | grs_remove g r : graph_step g (RelationshipGraph_remove g r).1.

Definition graph_reachable (g : RelationshipGraph) : Prop :=
  rtc graph_step RelationshipGraph_new g.

(** ** Lemmas *)

Lemma elem_of_edges g r : r ∈ edges g ↔ r ∈ flatten (graph_entries g).
Proof. apply elem_of_list_to_set. Qed.

Lemma size_edges g : graph_wf g → size (edges g) = RelationshipGraph_count g.
Proof. intros [_ Hn _]. by apply size_list_to_set. Qed.

Lemma existsb_edge g r :
  existsb (λ entry, entry ==? r) (flatten (graph_entries g)) = bool_decide (r ∈ edges g).
Proof.
  apply eq_bool_prop_intro. rewrite !Is_true_true, bool_decide_eq_true, elem_of_edges, existsb_elem.
  setoid_rewrite bool_decide_eq_true. naive_solver.
Qed.

Lemma clear_slot_spec r l :
  match clear_slot r l with
  | Some l' => flatten l ≡ₚ r :: flatten l' ∧ length l' = length l
  | None => r ∉ flatten l
  end.
Proof.
  induction l as [|o l IH]; simpl; [by apply not_elem_of_nil|]. case_bool_decide as Ho.
  - by subst o.
  - destruct (clear_slot r l) as [l'|]; simpl.
    + destruct IH as [IH ->]. split; [|done]. destruct o; rewrite IH; [constructor|done].
    + destruct o as [x|]; [|done]. rewrite not_elem_of_cons. split; [congruence|done].
Qed.

Lemma relate_spec g r :
  graph_wf g →
  match RelationshipGraph_relate g r with
  | (g', Ok _) => graph_wf g' ∧ proper_edge r ∧ (r ∉ edges g) ∧ edges g' = {[r]} ∪ edges g
  | (g', Err e) => g' = g ∧
      match e with
      | RelInvalid => ¬ proper_edge r
      | RelDuplicate => proper_edge r ∧ (r ∈ edges g)
      | RelFull => proper_edge r ∧ (r ∉ edges g) ∧ size (edges g) = MAX_RELATIONSHIPS
      end
  end.
Proof.
  intros Hw. unfold RelationshipGraph_relate, proper_edge. destruct (_ || _) eqn:E.
  { split; [done|]. intros (H1 & H2 & H3). by rewrite H1, H2, bool_decide_false in E. }
  bools. rewrite existsb_edge. case_bool_decide as Hr; [done|].
  destruct (fill_slot _ _) as [l|] eqn:Hl.
  - assert (edges (MkGraph l) = {[r]} ∪ edges g) as He.
    { apply set_eq. intros x. rewrite elem_of_union, elem_of_singleton, !elem_of_edges.
      by apply elem_of_fill_slot. }
    split_and!; try done. pose proof Hw as [W1 W2 W3]. split; simpl.
    + by rewrite (fill_slot_length _ _ _ Hl).
    + rewrite (fill_slot_perm _ _ _ Hl). apply NoDup_cons. by rewrite <- elem_of_edges.
    + intros x. rewrite He, elem_of_union, elem_of_singleton. intros [->|Hx]; [done|auto].
  - split_and!; try done. rewrite size_edges by done. rewrite <- (gw_length _ Hw).
    by apply fill_slot_None in Hl.
Qed.

Lemma remove_spec g r :
  graph_wf g →
  let (g', removed) := RelationshipGraph_remove g r in
  graph_wf g' ∧ removed = bool_decide (r ∈ edges g) ∧ edges g' = edges g ∖ {[r]}.
Proof.
  intros Hw. unfold RelationshipGraph_remove. pose proof (clear_slot_spec r (graph_entries g)) as H.
  destruct (clear_slot _ _) as [l|].
  - destruct H as [Hp Hl]. pose proof Hw as [H1 H2 H3].
    pose proof H2 as Hn. rewrite Hp, NoDup_cons in Hn. destruct Hn as [Hr Hn].
    assert (edges (MkGraph l) = edges g ∖ {[r]}) as He.
    { apply set_eq. intros x. rewrite elem_of_difference, elem_of_singleton, !elem_of_edges, Hp.
      rewrite elem_of_cons. simpl. split; [|tauto]. intros Hx. split; [by right|].
      by intros ->. }
    split_and!; [split; simpl; [congruence|done|]| |done].
    + intros x. rewrite He, elem_of_difference. intros [? _]. auto.
    + symmetry. apply bool_decide_eq_true, elem_of_edges. rewrite Hp. left.
  - rewrite <- elem_of_edges in H. split_and!; [done| |set_solver].
    symmetry. by apply bool_decide_eq_false.
Qed.

Lemma graph_reachable_wf g : graph_reachable g → graph_wf g.
Proof.
  apply (rtc_ind_r graph_wf).
  - unfold RelationshipGraph_new. split; cbn [graph_entries].
    + apply length_empty_slots.
    + rewrite flatten_empty. constructor.
    + intros r. rewrite elem_of_edges. cbn [graph_entries]. rewrite flatten_empty.
      by intros ?%elem_of_nil.
  - intros g1 g2 _ Hs Hw. destruct Hs as [g1 r|g1 r].
    + pose proof (relate_spec g1 r Hw) as H.
      destruct (RelationshipGraph_relate g1 r) as [g' [?|e]]; [apply H|]. by destruct H as [-> _].
    + pose proof (remove_spec g1 r Hw) as H.
      destruct (RelationshipGraph_remove g1 r). apply H.
Qed.

Lemma targets_spec g s k d t :
  t ∈ RelationshipGraph_targets g s k d ↔
  ∃ r, r ∈ edges g ∧ rel_source r = s ∧ rel_kind r = k ∧ rel_target r = t ∧
       (rel_dimension r = None ∨ rel_dimension r = d).
Proof.
  unfold RelationshipGraph_targets. rewrite list_elem_of_omap. apply exist_proper. intros r.
  rewrite elem_of_edges. apply and_iff_compat_l. split.
  - destruct (_ && _) eqn:E; [|done]. intros [= <-]. bools. split_and!; auto.
    apply orb_true_iff in H0 as [H0|H0]; bools; [left|by right]. by destruct (rel_dimension r).
  - intros (-> & -> & -> & Hd). rewrite !bool_decide_true by done. simpl.
    destruct Hd as [->| ->]; [done|]. by rewrite bool_decide_true, orb_true_r.
Qed.

(** ** Properties *)

(** The graph is a finite set of edges.  In every reachable graph [relate]
    inserts an edge between two distinct non-zero Forms that was not present
    while fewer than 48 are, and otherwise changes nothing and says why;
    [remove] deletes and reports whether the edge was present; the iterators
    and counters describe exactly that set, where an edge without a Dimension
    counts in every Dimension. *)
Theorem relationship_graph_refines_set (g : RelationshipGraph) (r : Relationship) :
  graph_reachable g →
  match RelationshipGraph_relate g r with
  | (g', Ok _) => proper_edge r ∧ (r ∉ edges g) ∧ edges g' = {[r]} ∪ edges g ∧
      edges (RelationshipGraph_remove g' r).1 = edges g
  | (g', Err e) => g' = g ∧
      match e with
      | RelInvalid => ¬ proper_edge r
      | RelDuplicate => proper_edge r ∧ (r ∈ edges g)
      | RelFull => proper_edge r ∧ (r ∉ edges g) ∧ size (edges g) = 48%nat
      end
  end ∧
  (let (g', removed) := RelationshipGraph_remove g r in
   removed = bool_decide (r ∈ edges g) ∧ edges g' = edges g ∖ {[r]}) ∧
  RelationshipGraph_count g = size (edges g) ∧
  (∀ s k d t, t ∈ RelationshipGraph_targets g s k d ↔
     ∃ e, e ∈ edges g ∧ rel_source e = s ∧ rel_kind e = k ∧ rel_target e = t ∧
          (rel_dimension e = None ∨ rel_dimension e = d)) ∧
  (∀ f, RelationshipGraph_referenced g f = true ↔ ∃ e, e ∈ edges g ∧ rel_target e = f) ∧
  (∀ f, RelationshipGraph_involves g f = true ↔
     ∃ e, e ∈ edges g ∧ (rel_source e = f ∨ rel_target e = f)).
Proof.
  intros Hw%graph_reachable_wf. split_and!.
  - pose proof (relate_spec g r Hw) as H.
    destruct (RelationshipGraph_relate g r) as [g' [?|e]]; [|done].
    destruct H as (Hw' & Hp & Hr & He). split_and!; try done.
    pose proof (remove_spec g' r Hw') as H. destruct (RelationshipGraph_remove g' r) as [g'' b].
    destruct H as (_ & _ & H). cbn [fst]. rewrite H, He. set_solver.
  - pose proof (remove_spec g r Hw) as H. destruct (RelationshipGraph_remove g r). tauto.
  - by rewrite size_edges.
  - intros s k d t. apply targets_spec.
  - intros f. unfold RelationshipGraph_referenced. rewrite existsb_elem.
    setoid_rewrite elem_of_edges. by setoid_rewrite bool_decide_eq_true.
  - intros f. unfold RelationshipGraph_involves. rewrite existsb_elem.
    setoid_rewrite elem_of_edges. setoid_rewrite orb_true_iff.
    by setoid_rewrite bool_decide_eq_true.
Qed.

Definition demo_edge : Relationship :=
  MkRelationship (Fin_from_u128 1) (Fin_from_u128 2) DependsOn None.
Definition demo_graph : RelationshipGraph :=
  (RelationshipGraph_relate RelationshipGraph_new demo_edge).1.

Lemma relationship_graph_refines_set_witness :
  RelationshipGraph_count demo_graph = 1%nat ∧
  Fin_from_u128 2 ∈ RelationshipGraph_targets demo_graph (Fin_from_u128 1) DependsOn
    (Some (Fin_from_u128 9)) ∧
  edges (RelationshipGraph_remove demo_graph demo_edge).1 = ∅.
Proof.
  assert (graph_reachable demo_graph) as Hr by (apply rtc_once, grs_relate).
  destruct (relationship_graph_refines_set demo_graph demo_edge Hr)
    as (_ & Hrem & Hc & Ht & _ & _).
  split; [vm_compute; reflexivity|]. split.
  - apply Ht. exists demo_edge. split_and!; [|reflexivity..|left; reflexivity].
    apply elem_of_edges. vm_compute. left.
  - destruct (RelationshipGraph_remove demo_graph demo_edge) as [g' b] eqn:E.
    cbn [fst]. vm_compute in E. injection E as <- <-. reflexivity.
Defined.
