(* ===== verification/Pimp.v ===== *)
(** * PIMP policy sources

    The line parser of crates/expos-core/src/pimp.rs, with the string
    operations of the Rust standard library it uses. *)

From stdpp Require Import prelude list strings.
From Stdlib Require Import ZArith Lia.
From S2P Require Import Prelude Identity.

Set Default Goal Selector "!".
Open Scope Z_scope.
Open Scope expos_scope.

(** ** Strings *)

Definition NEWLINE : Z := 10.
Definition CARRIAGE_RETURN : Z := 13.

(** A line without its terminator, from the reversed characters before the
    newline: one carriage return belongs to the terminator. *)
Definition end_line (cur : str) : str :=
  match cur with
  | c :: cur' => if c =? CARRIAGE_RETURN then rev cur' else rev cur
  | [] => []
  end.

(** [str::lines]: a final line without a newline is kept as it is, and there is
    no line after a final newline. *)
Fixpoint lines_from (cur : str) (s : str) : list str :=
  match s with
  | [] => if str_is_empty cur then [] else [rev cur]
  | c :: s' =>
      if c =? NEWLINE then end_line cur :: lines_from [] s' else lines_from (c :: cur) s'
  end.

Definition str_lines (s : str) : list str := lines_from [] s.

(** [str::split_once] on a character. *)
Fixpoint split_once (separator : Z) (s : str) : option (str * str) :=
  match s with
  | [] => None
  | c :: s' =>
      if c =? separator then Some ([], s')
      else match split_once separator s' with
           | Some (a, b) => Some (c :: a, b)
           | None => None
           end
  end.

Definition starts_with_char (c : Z) (s : str) : bool :=
  match s with x :: _ => x =? c | [] => false end.

(** ** Data *)

Definition MAX_ENTRIES : nat := 8.

Inductive PimpScope := ScopeBuiltIn | ScopeSystem | ScopeSubsystem | ScopeDimension | ScopeForm.

(** The derived order is the order of declaration. *)
Definition PimpScope_rank (s : PimpScope) : Z :=
  match s with
  | ScopeBuiltIn => 0 | ScopeSystem => 1 | ScopeSubsystem => 2 | ScopeDimension => 3
  | ScopeForm => 4
  end.

Inductive SpecKey := KeyUse | KeyBackend | KeyNetwork | KeyDebug | KeyIsolation.

Inductive NetworkPolicy := NetOpen | NetRestricted | NetDisabled.

Inductive PimpValue :=
  | ValEnabled (b : bool)
  | ValNetwork (p : NetworkPolicy)
  | ValName (t : Text).

#[export] Instance PimpScope_eq_dec : EqDecision PimpScope.
Proof. solve_decision. Defined.
#[export] Instance SpecKey_eq_dec : EqDecision SpecKey.
Proof. solve_decision. Defined.
#[export] Instance NetworkPolicy_eq_dec : EqDecision NetworkPolicy.
Proof. solve_decision. Defined.
#[export] Instance PimpValue_eq_dec : EqDecision PimpValue.
Proof. solve_decision. Defined.

Record PimpEntry := MkEntry { pe_key : SpecKey; pe_value : PimpValue }.

Record PimpSpec := MkSpec {
  ps_scope : PimpScope; ps_target : Fin; ps_dimension : option Fin;
  ps_entries : slots PimpEntry }.

Inductive ParseError :=
  | ParseEmpty | ParseMalformedLine | ParseUnknownKey | ParseInvalidValue | ParseDuplicateKey
  | ParseTooManyEntries.

(** ** Operations *)

Definition parse_key (text : str) : result SpecKey ParseError :=
  if text ==? lit "use" then Ok KeyUse
  else if text ==? lit "backend" then Ok KeyBackend
  else if text ==? lit "network" then Ok KeyNetwork
  else if text ==? lit "debug" then Ok KeyDebug
  else if text ==? lit "isolation" then Ok KeyIsolation
  else Err ParseUnknownKey.

Definition parse_value (key : SpecKey) (value_text : str) : result PimpValue ParseError :=
  match key with
  | KeyDebug | KeyIsolation =>
      if (value_text ==? lit "enabled") || (value_text ==? lit "true") then Ok (ValEnabled true)
      else if (value_text ==? lit "disabled") || (value_text ==? lit "false")
      then Ok (ValEnabled false)
      else Err ParseInvalidValue
  | KeyNetwork =>
      if value_text ==? lit "open" then Ok (ValNetwork NetOpen)
      else if value_text ==? lit "restricted" then Ok (ValNetwork NetRestricted)
      else if value_text ==? lit "disabled" then Ok (ValNetwork NetDisabled)
      else Err ParseInvalidValue
  | KeyUse | KeyBackend =>
      let? t := map_err (λ _, ParseInvalidValue) (Text_new value_text) in Ok (ValName t)
  end.

(** The loop over the lines: the entries and their count. *)
Fixpoint parse_lines (lines : list str) (entries : slots PimpEntry) (count : nat)
    : result (slots PimpEntry * nat) ParseError :=
  match lines with
  | [] => Ok (entries, count)
  | raw_line :: lines' =>
      let line := str_trim raw_line in
      if str_is_empty line || starts_with_char 35 line then parse_lines lines' entries count
      else match split_once 61 line with
      | None => Err ParseMalformedLine
      | Some (raw_key, raw_value) =>
          let? key := parse_key (str_trim raw_key) in
          if existsb (λ entry, pe_key entry ==? key) (flatten entries) then Err ParseDuplicateKey
          else
            let? value := parse_value key (str_trim raw_value) in
            if (MAX_ENTRIES <=? count)%nat then Err ParseTooManyEntries
            else parse_lines lines' (<[count := Some (MkEntry key value)]> entries) (S count)
      end
  end.

Definition PimpSpec_parse (scope : PimpScope) (target : Fin) (dimension : option Fin)
    (source : str) : result PimpSpec ParseError :=
  let? p := parse_lines (str_lines source) (empty_slots PimpEntry MAX_ENTRIES) 0 in
  let '(entries, count) := p in
  if (count =? 0)%nat then Err ParseEmpty else Ok (MkSpec scope target dimension entries).

Definition PimpSpec_entries (self : PimpSpec) : list PimpEntry := flatten (ps_entries self).

(** ** Specification *)

(** The lines that are neither blank nor comments, trimmed. *)
Definition policy_lines (lines : list str) : list str :=
  List.filter (λ line, negb (str_is_empty line || starts_with_char 35 line)) (str_trim <$> lines).

(** [line] is [key = value] and means [e]. *)
Definition entry_of (line : str) (e : PimpEntry) : Prop :=
  ∃ raw_key raw_value,
    split_once 61 line = Some (raw_key, raw_value) ∧
    parse_key (str_trim raw_key) = Ok (pe_key e) ∧
    parse_value (pe_key e) (str_trim raw_value) = Ok (pe_value e).

(** The value has the type its key calls for. *)
Definition entry_typed (e : PimpEntry) : Prop :=
  match pe_key e, pe_value e with
  | (KeyDebug | KeyIsolation), ValEnabled _ => True
  | KeyNetwork, ValNetwork _ => True
  | (KeyUse | KeyBackend), ValName _ => True
  | _, _ => False
  end.

(** The array that holds [es] from its first slot on. *)
Definition packed (es : list PimpEntry) : slots PimpEntry :=
  (Some <$> es) ++ replicate (MAX_ENTRIES - length es) None.

(** ** Lemmas *)

Lemma flatten_packed es : flatten (packed es) = es.
Proof.
  unfold packed. rewrite flatten_app. change (replicate ?n None) with (empty_slots PimpEntry n).
  rewrite flatten_empty, app_nil_r. induction es as [|e es IH]; csimpl; [done|]. by rewrite IH.
Qed.

Lemma packed_snoc es e :
  (length es < MAX_ENTRIES)%nat → <[length es := Some e]> (packed es) = packed (es ++ [e]).
Proof.
  intros Hl. unfold packed. rewrite length_app, fmap_app, <- (app_assoc (Some <$> es)). csimpl.
  rewrite insert_app_r_alt by (by rewrite length_fmap). rewrite length_fmap, Nat.sub_diag.
  replace (MAX_ENTRIES - length es)%nat with (S (MAX_ENTRIES - (length es + 1))) by lia. done.
Qed.

(** There are five keys, so distinct keys never fill the array. *)
Lemma keys_bound (es : list PimpEntry) :
  NoDup (pe_key <$> es) → (length es < MAX_ENTRIES)%nat.
Proof.
  intros Hn.
  assert (length (pe_key <$> es) ≤ length [KeyUse; KeyBackend; KeyNetwork; KeyDebug; KeyIsolation])%nat
    as Hl.
  { apply submseteq_length, NoDup_submseteq; [done|]. intros k _. destruct k; set_solver. }
  rewrite length_fmap in Hl. simpl in Hl. unfold MAX_ENTRIES. lia.
Qed.

Lemma existsb_key es k :
  existsb (λ entry, pe_key entry ==? k) es = false ↔ k ∉ pe_key <$> es.
Proof.
  rewrite existsb_elem_false, list_elem_of_fmap. setoid_rewrite bool_decide_eq_false. naive_solver.
Qed.

Lemma policy_lines_cons line lines :
  policy_lines (line :: lines) =
  if str_is_empty (str_trim line) || starts_with_char 35 (str_trim line)
  then policy_lines lines else str_trim line :: policy_lines lines.
Proof. unfold policy_lines. csimpl. by destruct (_ || _). Qed.

Lemma parse_key_error text e : parse_key text = Err e → e = ParseUnknownKey.
Proof. unfold parse_key. repeat case_bool_decide; congruence. Qed.

Lemma parse_value_error key text e : parse_value key text = Err e → e = ParseInvalidValue.
Proof.
  unfold parse_value. destruct key; repeat case_bool_decide; simpl; try congruence;
    destruct (Text_new _); simpl; congruence.
Qed.

Lemma entries_of_cons line lines es k v :
  split_once 61 line = Some (k, v) → Forall2 entry_of (line :: lines) es →
  ∃ key value es', es = MkEntry key value :: es' ∧ parse_key (str_trim k) = Ok key ∧
    parse_value key (str_trim v) = Ok value ∧ Forall2 entry_of lines es'.
Proof.
  intros Es H. inversion H as [|x [key value] l l' (k' & v' & E & ? & ?)]; subst.
  rewrite Es in E. simplify_eq. eauto 8.
Qed.

Lemma NoDup_key_snoc es key value :
  NoDup (pe_key <$> es) → (key ∉ pe_key <$> es) → NoDup (pe_key <$> es ++ [MkEntry key value]).
Proof.
  intros Hn Hk. rewrite fmap_app, NoDup_app. csimpl. split_and!; [done| |apply NoDup_singleton].
  by intros x Hx ->%list_elem_of_singleton.
Qed.

Lemma parse_lines_spec lines es :
  NoDup (pe_key <$> es) →
  match parse_lines lines (packed es) (length es) with
  | Ok (entries, count) =>
      ∃ es', Forall2 entry_of (policy_lines lines) es' ∧ NoDup (pe_key <$> es ++ es') ∧
             entries = packed (es ++ es') ∧ count = length (es ++ es')
  | Err e => e ≠ ParseTooManyEntries ∧
      ∀ es', Forall2 entry_of (policy_lines lines) es' → ¬ NoDup (pe_key <$> es ++ es')
  end.
Proof.
  revert es. induction lines as [|line lines IH]; intros es Hn; cbn [parse_lines].
  { exists []. rewrite app_nil_r. split_and!; auto. }
  rewrite policy_lines_cons. destruct (_ || _); [by apply IH|].
  destruct (split_once 61 (str_trim line)) as [[k v]|] eqn:Es.
  2:{ split; [done|]. intros es' H. inversion H as [|x y l l' (? & ? & ? & _)]; subst. congruence. }
  pose proof (λ es', entries_of_cons _ (policy_lines lines) es' k v Es) as Hinv.
  destruct (parse_key (str_trim k)) as [key|e] eqn:Ek.
  2:{ pose proof (parse_key_error _ _ Ek) as ->. split; [done|].
      intros es' (? & ? & ? & _ & ? & _)%Hinv. congruence. }
  rewrite flatten_packed. destruct (existsb _ es) eqn:Ex.
  { split; [done|]. intros es' (? & ? & ? & -> & [= <-] & _)%Hinv. rewrite fmap_app, NoDup_app.
    intros (_ & H & _). rewrite <- not_false_iff_true, existsb_key in Ex. apply Ex. intros Hin.
    apply (H _ Hin). csimpl. left. }
  apply existsb_key in Ex. destruct (parse_value key (str_trim v)) as [value|e] eqn:Ev.
  2:{ pose proof (parse_value_error _ _ _ Ev) as ->. split; [done|].
      intros es' (? & ? & ? & -> & [= <-] & ? & _)%Hinv. congruence. }
  pose proof (keys_bound es Hn) as Hb. rewrite (proj2 (Nat.leb_gt _ _) Hb), packed_snoc by done.
  specialize (IH (es ++ [MkEntry key value]) (NoDup_key_snoc es key value Hn Ex)).
  rewrite length_app, Nat.add_1_r in IH. destruct (parse_lines _ _ _) as [[entries count]|e].
  - destruct IH as (es' & Hf & Hnd & -> & ->). exists (MkEntry key value :: es').
    rewrite <- app_assoc in *. split_and!; try done. constructor; [by exists k, v|done].
  - destruct IH as [He IH]. split; [done|].
    intros es' (? & ? & xs & -> & [= <-] & Hv & Hxs)%Hinv. specialize (IH xs Hxs).
    rewrite <- app_assoc in IH. rewrite Ev in Hv. by injection Hv as <-.
Qed.

Lemma entry_of_functional lines es es' :
  Forall2 entry_of lines es → Forall2 entry_of lines es' → es = es'.
Proof.
  intros H. revert es'. induction H as [|line [k1 v1] lines es (a & b & E & Hk & Hv) _ IH];
    intros es' H'; inversion H' as [|? [k2 v2] ? ? (? & ? & E' & Hk' & Hv')]; subst; [done|].
  rewrite E in E'. simplify_eq/=. rewrite Hk in Hk'. simplify_eq/=. rewrite Hv in Hv'.
  simplify_eq/=. f_equal. by apply IH.
Qed.

Lemma parse_value_typed key text value :
  parse_value key text = Ok value → entry_typed (MkEntry key value).
Proof.
  unfold parse_value, entry_typed. simpl.
  destruct key; repeat case_bool_decide; simpl; intros; simplify_eq; try done;
    destruct (Text_new _); simpl in *; by simplify_eq.
Qed.

Lemma parse_spec scope target dimension source :
  match PimpSpec_parse scope target dimension source with
  | Ok spec => ∃ es, Forall2 entry_of (policy_lines (str_lines source)) es ∧
      NoDup (pe_key <$> es) ∧ es ≠ [] ∧ spec = MkSpec scope target dimension (packed es)
  | Err e => e ≠ ParseTooManyEntries ∧
      ∀ es, Forall2 entry_of (policy_lines (str_lines source)) es → NoDup (pe_key <$> es) → es = []
  end.
Proof.
  unfold PimpSpec_parse. pose proof (parse_lines_spec (str_lines source) [] (NoDup_nil_2)) as H.
  change (packed []) with (empty_slots PimpEntry MAX_ENTRIES) in H. simpl in H.
  destruct (parse_lines _ _ _) as [[entries count]|e].
  - destruct H as (es & Hf & Hn & -> & ->). destruct es as [|x es]; simpl; [|by eauto 8].
    split; [done|]. intros es' Hf' _. inversion Hf as [E|]. rewrite <- E in Hf'.
    by inversion Hf'.
  - destruct H as [He H]. split; [done|]. intros es Hf Hn. by destruct (H es Hf).
Qed.

(** What other components rely on: keys are distinct and values typed. *)
Lemma parse_entries_ok scope target dimension source spec :
  PimpSpec_parse scope target dimension source = Ok spec →
  NoDup (pe_key <$> PimpSpec_entries spec) ∧ Forall entry_typed (PimpSpec_entries spec) ∧
  PimpSpec_entries spec ≠ [].
Proof.
  intros H. pose proof (parse_spec scope target dimension source) as Hs. rewrite H in Hs.
  destruct Hs as (es & Hf & Hn & Hne & ->). unfold PimpSpec_entries. cbn [ps_entries].
  rewrite flatten_packed. split_and!; try done. clear -Hf.
  induction Hf as [|line [k v] lines es (? & ? & _ & _ & Hv)]; constructor; auto.
  by apply parse_value_typed in Hv.
Qed.

(** ** Properties *)

(** The parser implements the line grammar.  A source is accepted exactly
    when every line that is not blank or a comment reads [key = value] with a
    known key and a value that key admits, no key occurs twice and at least
    one line remains; the specification then holds exactly those entries, in
    order.  The error for too many entries never occurs. *)
Theorem pimp_parse_grammar (scope : PimpScope) (target : Fin) (dimension : option Fin)
    (source : str) (spec : PimpSpec) :
  (PimpSpec_parse scope target dimension source = Ok spec ↔
   ∃ es, Forall2 entry_of (policy_lines (str_lines source)) es ∧ NoDup (pe_key <$> es) ∧
         es ≠ [] ∧ spec = MkSpec scope target dimension (packed es)) ∧
  PimpSpec_parse scope target dimension source ≠ Err ParseTooManyEntries.
Proof.
  pose proof (parse_spec scope target dimension source) as H.
  destruct (PimpSpec_parse _ _ _ _) as [spec'|e].
  - split; [|done]. destruct H as (es & Hf & Hn & Hne & ->). split.
    + intros [= <-]. eauto 8.
    + intros (es' & Hf' & _ & _ & ->). by rewrite (entry_of_functional _ _ _ Hf Hf').
  - destruct H as [He H]. split; [|congruence]. split; [done|].
    intros (es & Hf & Hn & Hne & _). by destruct Hne; apply H.
Qed.
