(* ===== verification/Diese.v ===== *)
(** * DIESE policy resolution

    Up to sixteen PIMP specifications and their resolution for one Form in one
    Dimension (crates/expos-core/src/diese.rs). *)

From stdpp Require Import prelude list strings.
From Stdlib Require Import ZArith Lia.
From S2P Require Import Prelude Identity Pimp.

Set Default Goal Selector "!".
Open Scope Z_scope.
Open Scope expos_scope.

(** ** Data *)

Definition MAX_SPECS : nat := 16.

Inductive Diagnostic :=
  | TooManySpecifications
  | Conflict (key : SpecKey) (scope : PimpScope)
  | MissingPolicy.

Record Resolution := MkResolution {
  res_use_mode : option Text; res_backend : option Text; res_network : option NetworkPolicy;
  res_debug : option bool; res_isolation : option bool }.

Record Selected := MkSelected { sel_scope : PimpScope; sel_value : PimpValue }.

Record Diese := MkDiese { diese_specs : slots PimpSpec }.

(** ** Operations *)

Definition Diese_new : Diese := MkDiese (empty_slots PimpSpec MAX_SPECS).

Definition Diese_push (self : Diese) (spec : PimpSpec) : Diese * result unit Diagnostic :=
  match fill_slot spec (diese_specs self) with
  | None => (self, Err TooManySpecifications)
  | Some l => (MkDiese l, Ok tt)
  end.

Definition key_index (key : SpecKey) : nat :=
  match key with
  | KeyUse => 0 | KeyBackend => 1 | KeyNetwork => 2 | KeyDebug => 3 | KeyIsolation => 4
  end.

Definition name_value (selected : option Selected) : option Text :=
  match selected with Some (MkSelected _ (ValName value)) => Some value | _ => None end.
Definition network_value (selected : option Selected) : option NetworkPolicy :=
  match selected with Some (MkSelected _ (ValNetwork value)) => Some value | _ => None end.
Definition bool_value (selected : option Selected) : option bool :=
  match selected with Some (MkSelected _ (ValEnabled value)) => Some value | _ => None end.

(** [selected[index]]; the table has five slots and [key_index] is below 5. *)
Definition selected_at (selected : slots Selected) (index : nat) : option Selected :=
  default None (selected !! index).

(** The body of the inner loop. *)
Definition resolve_entry (scope : PimpScope) (entry : PimpEntry) (selected : slots Selected)
    : result (slots Selected) Diagnostic :=
  let index := key_index (pe_key entry) in
  let store := <[index := Some (MkSelected scope (pe_value entry))]> selected in
  match selected_at selected index with
  | Some current =>
      if PimpScope_rank (sel_scope current) >? PimpScope_rank scope then Ok selected
      else if (sel_scope current ==? scope) && (sel_value current !=? pe_value entry)
      then Err (Conflict (pe_key entry) scope)
      else Ok store
  | None => Ok store
  end.

Fixpoint resolve_entries (scope : PimpScope) (entries : list PimpEntry) (selected : slots Selected)
    : result (slots Selected) Diagnostic :=
  match entries with
  | [] => Ok selected
  | entry :: entries' =>
      let? selected := resolve_entry scope entry selected in
      resolve_entries scope entries' selected
  end.

(** The two guards of the outer loop. *)
Definition applies_to (target dimension : Fin) (spec : PimpSpec) : bool :=
  if ps_target spec !=? target then false
  else match ps_dimension spec with
       | Some required_dimension => negb (required_dimension !=? dimension)
       | None => true
       end.

Fixpoint resolve_specs (target dimension : Fin) (specs : list PimpSpec)
    (selected : slots Selected) (matched : bool) : result (slots Selected * bool) Diagnostic :=
  match specs with
  | [] => Ok (selected, matched)
  | spec :: specs' =>
      if applies_to target dimension spec then
        let? selected := resolve_entries (ps_scope spec) (PimpSpec_entries spec) selected in
        resolve_specs target dimension specs' selected true
      else resolve_specs target dimension specs' selected matched
  end.

Definition Diese_resolve (self : Diese) (target dimension : Fin) : result Resolution Diagnostic :=
  let? p := resolve_specs target dimension (flatten (diese_specs self))
              (empty_slots Selected 5) false in
  let '(selected, matched) := p in
  if negb matched then Err MissingPolicy
  else Ok (MkResolution (name_value (selected_at selected 0)) (name_value (selected_at selected 1))
             (network_value (selected_at selected 2)) (bool_value (selected_at selected 3))
             (bool_value (selected_at selected 4))).

(** ** Specification *)

(** Specifications come from the parser. *)
Inductive diese_reachable : Diese → Prop :=
  | dr_new : diese_reachable Diese_new
  | dr_push self scope target dimension source spec :
      diese_reachable self → PimpSpec_parse scope target dimension source = Ok spec →
      diese_reachable (Diese_push self spec).1.

(** The setting a resolution gives for a key. *)
Definition Resolution_get (res : Resolution) (key : SpecKey) : option PimpValue :=
  match key with
  | KeyUse => ValName <$> res_use_mode res
  | KeyBackend => ValName <$> res_backend res
  | KeyNetwork => ValNetwork <$> res_network res
  | KeyDebug => ValEnabled <$> res_debug res
  | KeyIsolation => ValEnabled <$> res_isolation res
  end.

(** A setting: [scope] asks for the value of the entry at its key. *)
Abbreviation setting := (PimpScope * PimpEntry)%type.

Definition settings_of (target dimension : Fin) (specs : list PimpSpec) : list setting :=
  List.filter (applies_to target dimension) specs ≫=
    λ spec, pair (ps_scope spec) <$> PimpSpec_entries spec.

(** The settings of the specifications that apply, in the order they are read. *)
Definition settings (self : Diese) (target dimension : Fin) : list setting :=
  settings_of target dimension (flatten (diese_specs self)).

(** [value] at [scope] beats or agrees with every setting of [key]. *)
Definition wins (cs : list setting) (key : SpecKey) (scope : PimpScope) (value : PimpValue)
    : Prop :=
  (scope, MkEntry key value) ∈ cs ∧
  ∀ scope' value', (scope', MkEntry key value') ∈ cs →
    PimpScope_rank scope' < PimpScope_rank scope ∨ scope' = scope ∧ value' = value.

Definition conflicting (cs : list setting) (key : SpecKey) (scope : PimpScope) : Prop :=
  ∃ v v', (scope, MkEntry key v) ∈ cs ∧ (scope, MkEntry key v') ∈ cs ∧ v ≠ v'.

(** After reading [cs], the table holds the winner of each key. *)
Definition selection (cs : list setting) (selected : slots Selected) : Prop :=
  length selected = 5%nat ∧
  ∀ key, match selected_at selected (key_index key) with
         | Some s => wins cs key (sel_scope s) (sel_value s)
         | None => ∀ scope value, (scope, MkEntry key value) ∉ cs
         end.

(** ** Lemmas *)

Lemma rank_inj s s' : PimpScope_rank s = PimpScope_rank s' → s = s'.
Proof. by destruct s, s'. Qed.

Lemma selected_at_insert selected k k' s :
  length selected = 5%nat →
  selected_at (<[key_index k := Some s]> selected) (key_index k') =
  if decide (k' = k) then Some s else selected_at selected (key_index k').
Proof.
  intros Hl. unfold selected_at. destruct (decide (k' = k)) as [->|Hne].
  - rewrite list_lookup_insert_eq; [done|]. rewrite Hl. destruct k; simpl; lia.
  - rewrite list_lookup_insert_ne; [done|]. by destruct k, k'.
Qed.

Lemma wins_snoc cs key scope value scope' e :
  wins cs key scope value →
  (pe_key e = key → PimpScope_rank scope' < PimpScope_rank scope ∨
                    scope' = scope ∧ pe_value e = value) →
  wins (cs ++ [(scope', e)]) key scope value.
Proof.
  intros [Hin Hw] He. split; [apply elem_of_app; by left|].
  intros s v. rewrite elem_of_app, list_elem_of_singleton. intros [H|[= -> <-]]; auto.
Qed.

Lemma wins_new cs scope e :
  (∀ scope' value', (scope', MkEntry (pe_key e) value') ∈ cs →
     PimpScope_rank scope' < PimpScope_rank scope ∨ scope' = scope ∧ value' = pe_value e) →
  wins (cs ++ [(scope, e)]) (pe_key e) scope (pe_value e).
Proof.
  intros H. split.
  - apply elem_of_app. right. apply list_elem_of_singleton. by destruct e.
  - intros s v. rewrite elem_of_app, list_elem_of_singleton. intros [?|[= -> <-]]; auto.
Qed.

(** Storing the entry as the winner of its key. *)
Lemma selection_store cs selected scope e :
  selection cs selected → wins (cs ++ [(scope, e)]) (pe_key e) scope (pe_value e) →
  selection (cs ++ [(scope, e)])
    (<[key_index (pe_key e) := Some (MkSelected scope (pe_value e))]> selected).
Proof.
  intros [Hl Hs] Hw. split; [by rewrite length_insert|]. intros key.
  rewrite selected_at_insert by done. destruct (decide _) as [->|Hne]; [done|].
  specialize (Hs key). destruct (selected_at selected (key_index key)) as [s|].
  - apply wins_snoc; [done|]. congruence.
  - intros sc v. rewrite elem_of_app, list_elem_of_singleton.
    intros [?|[= -> <-]]; [by eapply Hs|]. done.
Qed.

Lemma resolve_entry_spec cs selected scope e :
  selection cs selected →
  match resolve_entry scope e selected with
  | Ok selected' => selection (cs ++ [(scope, e)]) selected'
  | Err d => d = Conflict (pe_key e) scope ∧ conflicting (cs ++ [(scope, e)]) (pe_key e) scope
  end.
Proof.
  intros Hsel. unfold resolve_entry. cbv zeta. pose proof (proj2 Hsel (pe_key e)) as Hk.
  destruct (selected_at selected (key_index (pe_key e))) as [[sc v]|] eqn:Es; simpl in *.
  - destruct Hk as [Hin Hmax]. destruct (_ >? _) eqn:Eg; bools.
    + destruct Hsel as [Hl Hs]. split; [done|]. intros key. specialize (Hs key).
      destruct (selected_at selected (key_index key)) as [s|] eqn:Ek.
      * apply wins_snoc; [done|]. intros <-. rewrite Es in Ek. injection Ek as <-. left. done.
      * intros sc' v'. rewrite elem_of_app, list_elem_of_singleton.
        intros [?|[= -> <-]]; [by eapply Hs|]. simpl in Es. congruence.
    + destruct (_ && _) eqn:Ec; bools.
      * split; [done|]. subst sc. exists v, (pe_value e). rewrite !elem_of_app.
        split_and!; [by left|right; apply list_elem_of_singleton; by destruct e|done].
      * apply selection_store; [done|]. apply wins_new. intros s' v' H'.
        apply andb_false_iff in Ec.
        destruct (Hmax s' v' H') as [Hlt|[-> ->]]; [left; lia|].
        destruct (decide (sc = scope)) as [->|Hne].
        -- right. split; [done|]. destruct Ec; bools; congruence.
        -- left. assert (PimpScope_rank sc ≠ PimpScope_rank scope) by (by intros ?%rank_inj). lia.
  - apply selection_store; [done|]. apply wins_new. intros s' v' H'. by apply Hk in H'.
Qed.

Lemma conflicting_mono cs cs' key scope : conflicting cs key scope → conflicting (cs ++ cs') key scope.
Proof. intros (v & v' & ? & ? & ?). exists v, v'. rewrite !elem_of_app. auto. Qed.

Lemma resolve_entries_spec scope entries cs selected :
  selection cs selected →
  match resolve_entries scope entries selected with
  | Ok selected' => selection (cs ++ (pair scope <$> entries)) selected'
  | Err d => ∃ key s, d = Conflict key s ∧ conflicting (cs ++ (pair scope <$> entries)) key s
  end.
Proof.
  revert cs selected. induction entries as [|e entries IH]; intros cs selected Hs; csimpl.
  { by rewrite app_nil_r. }
  pose proof (resolve_entry_spec cs selected scope e Hs) as He.
  rewrite cons_middle, app_assoc. destruct (resolve_entry scope e selected) as [selected'|d].
  - by apply IH.
  - destruct He as [-> He]. eauto using conflicting_mono.
Qed.

Lemma resolve_specs_spec target dimension specs cs selected matched :
  selection cs selected →
  match resolve_specs target dimension specs selected matched with
  | Ok (selected', matched') =>
      selection (cs ++ settings_of target dimension specs) selected' ∧
      matched' = matched || existsb (applies_to target dimension) specs
  | Err d => ∃ key s, d = Conflict key s ∧
      conflicting (cs ++ settings_of target dimension specs) key s
  end.
Proof.
  unfold settings_of. revert cs selected matched.
  induction specs as [|spec specs IH]; intros cs selected matched Hs; cbn [resolve_specs].
  { csimpl. by rewrite app_nil_r, orb_false_r. }
  cbn [List.filter existsb]. destruct (applies_to target dimension spec) eqn:Ea; [|by apply IH].
  rewrite bind_cons, app_assoc.
  pose proof (resolve_entries_spec (ps_scope spec) (PimpSpec_entries spec) cs selected Hs) as He.
  destruct (resolve_entries _ _ _) as [selected'|d].
  - specialize (IH _ _ true He). destruct (resolve_specs _ _ _ _ _) as [[]|]; [|done].
    by rewrite orb_true_r.
  - destruct He as (key & s & -> & He). eauto using conflicting_mono.
Qed.

Lemma diese_reachable_specs self :
  diese_reachable self → ∀ spec, spec ∈ flatten (diese_specs self) →
  Forall entry_typed (PimpSpec_entries spec) ∧ PimpSpec_entries spec ≠ [].
Proof.
  induction 1 as [|self scope target dimension source spec _ IH Hp]; intros x.
  - unfold Diese_new. cbn [diese_specs]. rewrite flatten_empty. by intros ?%elem_of_nil.
  - unfold Diese_push. destruct (fill_slot _ _) as [l|] eqn:Hl; [|by apply IH].
    cbn [fst diese_specs]. rewrite (elem_of_fill_slot _ _ _ _ Hl). intros [->|Hx]; [|auto].
    apply parse_entries_ok in Hp. naive_solver.
Qed.

Lemma settings_typed self target dimension scope e :
  diese_reachable self → (scope, e) ∈ settings self target dimension → entry_typed e.
Proof.
  intros Hr (spec & (e' & [= _ ->] & He)%list_elem_of_fmap & [Hs _]%list_elem_of_In%filter_In)%list_elem_of_bind.
  apply list_elem_of_In in Hs. destruct (diese_reachable_specs self Hr spec Hs) as [Ht _].
  by eapply Forall_forall.
Qed.

Lemma settings_nil self target dimension :
  diese_reachable self →
  existsb (applies_to target dimension) (flatten (diese_specs self)) = false ↔
  settings self target dimension = [].
Proof.
  intros Hr. unfold settings, settings_of. pose proof (diese_reachable_specs self Hr) as H.
  induction (flatten (diese_specs self)) as [|spec specs IH]; [done|]. csimpl.
  destruct (applies_to target dimension spec); csimpl.
  - split; [done|]. intros E. destruct (H spec) as [_ Hne]; [by left|].
    by destruct (PimpSpec_entries spec).
  - apply IH. intros x Hx. apply H. by right.
Qed.

(** The three accessors of the table undo the typing of the values. *)
Lemma resolution_get_typed selected key s :
  selected_at selected (key_index key) = Some s → entry_typed (MkEntry key (sel_value s)) →
  Resolution_get
    (MkResolution (name_value (selected_at selected 0)) (name_value (selected_at selected 1))
       (network_value (selected_at selected 2)) (bool_value (selected_at selected 3))
       (bool_value (selected_at selected 4))) key = Some (sel_value s).
Proof. intros Hs Ht. destruct key, s as [sc []]; simpl in *; try done; by rewrite Hs. Qed.

Lemma resolution_get_none selected key :
  selected_at selected (key_index key) = None →
  Resolution_get
    (MkResolution (name_value (selected_at selected 0)) (name_value (selected_at selected 1))
       (network_value (selected_at selected 2)) (bool_value (selected_at selected 3))
       (bool_value (selected_at selected 4))) key = None.
Proof. intros Hs. by destruct key; simpl in *; rewrite Hs. Qed.

Lemma selection_empty : selection [] (empty_slots Selected 5).
Proof. split; [done|]. intros []; cbn; by intros ? ? ?%elem_of_nil. Qed.

(** ** Properties *)

(** Resolution follows scope precedence.  When it succeeds, every key set
    by an applicable specification gets a value that some specification of the
    highest scope asks for and that all others of that scope agree with, and
    no other key gets a value.  A reported conflict is a real one: two
    applicable specifications of the named scope differ on the named key.  The
    missing-policy diagnostic means that nothing applies. *)
Theorem diese_scope_precedence (self : Diese) (target dimension : Fin) :
  diese_reachable self →
  match Diese_resolve self target dimension with
  | Ok res => settings self target dimension ≠ [] ∧
      ∀ key, match Resolution_get res key with
             | Some value => ∃ scope, wins (settings self target dimension) key scope value
             | None => ∀ scope value, (scope, MkEntry key value) ∉ settings self target dimension
             end
  | Err (Conflict key scope) => conflicting (settings self target dimension) key scope
  | Err MissingPolicy => settings self target dimension = []
  | Err TooManySpecifications => False
  end.
Proof.
  intros Hr. unfold Diese_resolve. pose proof (resolve_specs_spec target dimension
    (flatten (diese_specs self)) [] (empty_slots Selected 5) false selection_empty) as H.
  change ([] ++ settings_of _ _ _) with (settings self target dimension) in H.
  pose proof (settings_nil self target dimension Hr) as Hnil.
  destruct (resolve_specs _ _ _ _ _) as [[selected matched]|d].
  2:{ by destruct H as (key & s & -> & H). }
  destruct H as [[_ Hsel] ->]. cbn [orb]. destruct (existsb _ _); cbn [negb]; [|by apply Hnil].
  split; [by intros ?%Hnil|]. intros key. specialize (Hsel key).
  destruct (selected_at selected (key_index key)) as [s|] eqn:Es.
  - rewrite (resolution_get_typed selected key s Es); [by eauto|].
    by eapply settings_typed, Hsel.
  - by rewrite resolution_get_none.
Qed.

Definition demo_target : Fin := Fin_from_u128 1.
Definition demo_dimension : Fin := Fin_from_u128 2.
Definition demo_spec (scope : PimpScope) (source : string) : PimpSpec :=
  match PimpSpec_parse scope demo_target None (lit source) with
  | Ok spec => spec
  | Err _ => MkSpec scope demo_target None []
  end.
Definition demo_diese (specs : list PimpSpec) : Diese :=
  fold_left (λ self spec, (Diese_push self spec).1) specs Diese_new.

Lemma demo_push self scope source :
  diese_reachable self →
  is_ok (PimpSpec_parse scope demo_target None (lit source)) = true →
  diese_reachable (Diese_push self (demo_spec scope source)).1.
Proof.
  unfold demo_spec. intros Hr Hok. destruct (PimpSpec_parse _ _ _ _) as [spec|] eqn:E; [|done].
  by eapply dr_push.
Qed.

Lemma diese_scope_precedence_witness :
  ∃ res, Diese_resolve
           (demo_diese [demo_spec ScopeSystem "debug = false"; demo_spec ScopeForm "debug = true"])
           demo_target demo_dimension = Ok res ∧ Resolution_get res KeyDebug = Some (ValEnabled true).
Proof.
  assert (diese_reachable
    (demo_diese [demo_spec ScopeSystem "debug = false"; demo_spec ScopeForm "debug = true"])) as Hr.
  { unfold demo_diese. cbn [fold_left].
    apply demo_push; [apply demo_push; [apply dr_new|]|]; vm_compute; reflexivity. }
  pose proof (diese_scope_precedence _ demo_target demo_dimension Hr) as H.
  destruct (Diese_resolve _ _ _) as [res|d] eqn:E.
  - exists res. split; [reflexivity|]. vm_compute in E. injection E as <-. reflexivity.
  - exfalso. vm_compute in E. discriminate E.
Defined.

(** Whether a same-scope conflict is reported depends on the order in
    which specifications were pushed: with two contradicting System settings
    and one Form setting, resolution reports the conflict when the System
    settings come first and succeeds silently when the Form setting does. *)
Theorem diese_conflict_depends_on_order :
  let enabled := demo_spec ScopeSystem "debug = enabled" in
  let disabled := demo_spec ScopeSystem "debug = disabled" in
  let form := demo_spec ScopeForm "debug = true" in
  Diese_resolve (demo_diese [enabled; disabled; form]) demo_target demo_dimension =
    Err (Conflict KeyDebug ScopeSystem) ∧
  is_ok (Diese_resolve (demo_diese [form; enabled; disabled]) demo_target demo_dimension) = true ∧
  conflicting (settings (demo_diese [form; enabled; disabled]) demo_target demo_dimension)
    KeyDebug ScopeSystem.
Proof.
  cbv zeta. split; [vm_compute; reflexivity|]. split; [vm_compute; reflexivity|].
  exists (ValEnabled true), (ValEnabled false). split_and!; [| |done].
  - vm_compute. right. left.
  - vm_compute. right. right. left.
Qed.
