(* ===== verification/NativeImage.v ===== *)
(** * EXF1 native images

    The container parser of crates/expos-core/src/native_image.rs.  A byte is
    a [Z]; sizes are [Z] like the [usize] values of the source. *)

From stdpp Require Import prelude list.
From Stdlib Require Import ZArith Lia.
From S2P Require Import Prelude Identity Bytes.

Set Default Goal Selector "!".
Open Scope Z_scope.
Open Scope expos_scope.

(** ** Data *)

(** [b"EXF1"] *)
Definition NATIVE_IMAGE_MAGIC : list Z := [69; 88; 70; 49].
Definition NATIVE_IMAGE_HEADER : Z := 24.
Definition NATIVE_IMAGE_LIMIT : Z := 32 * 1024.
Definition NATIVE_V1_CODE_LIMIT : Z := 4096.
Definition NATIVE_V2_CODE_LIMIT : Z := 8 * 4096.
Definition NATIVE_V2_DATA_LIMIT : Z := 6 * 4096.

Inductive NativeImageError := ImgHeader | ImgUnsupported | ImgLength | ImgEntry.

(** The slices are the lists of their bytes. *)
Record NativeImage := MkImage {
  img_format_version : Z; img_code : list Z; img_data : list Z; img_zero_bytes : Z;
  img_entry : Z }.

(** ** Operations *)

Definition NativeImage_parse (bytes : list Z) : result NativeImage NativeImageError :=
  if (Zlength bytes <? NATIVE_IMAGE_HEADER) || (take 4 bytes !=? NATIVE_IMAGE_MAGIC)
  then Err ImgHeader
  else
    let format_version := word_at bytes 4 in
    if negb ((format_version =? 1) || (format_version =? 2)) || (word_at bytes 6 !=? 1) ||
       (word_at bytes 8 !=? 1) || (word_at bytes 10 !=? 0) ||
       (slice bytes 20 4 !=? replicate 4 0)
    then Err ImgUnsupported
    else
      let '(code, data, zero_bytes, entry) :=
        (word_at bytes 12, word_at bytes 14, word_at bytes 16, word_at bytes 18) in
      let '(code_limit, data_limit) :=
        if format_version =? 1 then (NATIVE_V1_CODE_LIMIT, 4096 - 256)
        else (NATIVE_V2_CODE_LIMIT, NATIVE_V2_DATA_LIMIT - 256) in
      if (Zlength bytes >? NATIVE_IMAGE_LIMIT) || (code =? 0) || (code >? code_limit) ||
         match checked_add usize_max data zero_bytes with
         | None => true
         | Some size => size >? data_limit
         end ||
         (NATIVE_IMAGE_HEADER + code + data !=? Zlength bytes)
      then Err ImgLength
      else if code <=? entry then Err ImgEntry
      else
        let code_end := Z.to_nat (NATIVE_IMAGE_HEADER + code) in
        Ok (MkImage format_version
              (slice bytes (Z.to_nat NATIVE_IMAGE_HEADER) (Z.to_nat code))
              (drop code_end bytes) zero_bytes entry).

(** ** Specification: the container format *)

Definition encode_header (version code data zero_bytes entry : Z) : list Z :=
  NATIVE_IMAGE_MAGIC ++ le_bytes 2 version ++ le_bytes 2 1 ++ le_bytes 2 1 ++ le_bytes 2 0 ++
  le_bytes 2 code ++ le_bytes 2 data ++ le_bytes 2 zero_bytes ++ le_bytes 2 entry ++
  replicate 4 0.

Definition encode (img : NativeImage) : list Z :=
  encode_header (img_format_version img) (Zlength (img_code img)) (Zlength (img_data img))
    (img_zero_bytes img) (img_entry img) ++ img_code img ++ img_data img.

Definition code_limit_of (version : Z) : Z := if version =? 1 then 4096 else 32768.
Definition data_limit_of (version : Z) : Z := if version =? 1 then 3840 else 24320.

Record image_ok (img : NativeImage) : Prop := {
  io_version : img_format_version img = 1 ∨ img_format_version img = 2;
  io_code : Zlength (img_code img) ≤ code_limit_of (img_format_version img);
  io_zero : 0 ≤ img_zero_bytes img;
  io_data : Zlength (img_data img) + img_zero_bytes img ≤ data_limit_of (img_format_version img);
  io_entry : 0 ≤ img_entry img < Zlength (img_code img);
  io_total : 24 + Zlength (img_code img) + Zlength (img_data img) ≤ 32768 }.

(** ** Lemmas *)

(** The header as its twelve fields. *)
Lemma split_header (bytes : list Z) :
  24 ≤ Zlength bytes →
  ∃ m v0 v1 a0 a1 b0 b1 c0 c1 k0 k1 d0 d1 z0 z1 e0 e1 r rest,
    bytes = m ++ [v0; v1; a0; a1; b0; b1; c0; c1; k0; k1; d0; d1; z0; z1; e0; e1] ++ r ++ rest ∧
    length m = 4%nat ∧ length r = 4%nat.
Proof.
  unfold Zlength. intros Hl.
  do 24 (destruct bytes as [|? bytes]; [simpl in Hl; lia|]).
  match goal with
  | |- context [?x0 :: ?x1 :: ?x2 :: ?x3 :: ?x4 :: ?x5 :: ?x6 :: ?x7 :: ?x8 :: ?x9 :: ?x10 ::
                ?x11 :: ?x12 :: ?x13 :: ?x14 :: ?x15 :: ?x16 :: ?x17 :: ?x18 :: ?x19 :: ?x20 ::
                ?x21 :: ?x22 :: ?x23 :: bytes] =>
      exists [x0; x1; x2; x3], x4, x5, x6, x7, x8, x9, x10, x11, x12, x13, x14, x15, x16, x17, x18,
        x19, [x20; x21; x22; x23], bytes
  end.
  done.
Qed.

(** The checks of the parser, on the decoded fields. *)
Definition parse_fields (m : list Z) (v a b c k d z e : Z) (r rest : list Z)
    : result NativeImage NativeImageError :=
  if m !=? NATIVE_IMAGE_MAGIC then Err ImgHeader
  else if negb ((v =? 1) || (v =? 2)) || (a !=? 1) || (b !=? 1) || (c !=? 0) ||
          (r !=? replicate 4 0)
  then Err ImgUnsupported
  else if (24 + Zlength rest >? 32768) || (k =? 0) || (k >? code_limit_of v) ||
          (d + z >? data_limit_of v) || (k + d !=? Zlength rest)
  then Err ImgLength
  else if k <=? e then Err ImgEntry
  else Ok (MkImage v (take (Z.to_nat k) rest) (drop (Z.to_nat k) rest) z e).

Lemma parse_fields_correct m v0 v1 a0 a1 b0 b1 c0 c1 k0 k1 d0 d1 z0 z1 e0 e1 r rest :
  length m = 4%nat → length r = 4%nat →
  0 ≤ le_value [k0; k1] → le_value [d0; d1] + le_value [z0; z1] ≤ usize_max →
  NativeImage_parse
    (m ++ [v0; v1; a0; a1; b0; b1; c0; c1; k0; k1; d0; d1; z0; z1; e0; e1] ++ r ++ rest) =
  parse_fields m (le_value [v0; v1]) (le_value [a0; a1]) (le_value [b0; b1]) (le_value [c0; c1])
    (le_value [k0; k1]) (le_value [d0; d1]) (le_value [z0; z1]) (le_value [e0; e1]) r rest.
Proof.
  intros Hm Hr Hk Hdz.
  destruct m as [|m0 [|m1 [|m2 [|m3 []]]]]; try done.
  destruct r as [|r0 [|r1 [|r2 [|r3 []]]]]; try done. simpl app.
  set (bytes := m0 :: _). unfold NativeImage_parse, parse_fields.
  assert (Zlength bytes = 24 + Zlength rest) as ->.
  { subst bytes. unfold Zlength. cbn [length]. lia. }
  assert (0 ≤ Zlength rest) as Hl by (unfold Zlength; lia).
  change (take 4 bytes) with [m0; m1; m2; m3].
  change (word_at bytes 4) with (le_value [v0; v1]).
  change (word_at bytes 6) with (le_value [a0; a1]).
  change (word_at bytes 8) with (le_value [b0; b1]).
  change (word_at bytes 10) with (le_value [c0; c1]).
  change (word_at bytes 12) with (le_value [k0; k1]).
  change (word_at bytes 14) with (le_value [d0; d1]).
  change (word_at bytes 16) with (le_value [z0; z1]).
  change (word_at bytes 18) with (le_value [e0; e1]).
  change (slice bytes 20 4) with [r0; r1; r2; r3].
  change (slice bytes (Z.to_nat NATIVE_IMAGE_HEADER) (Z.to_nat (le_value [k0; k1])))
    with (take (Z.to_nat (le_value [k0; k1])) rest).
  replace (drop (Z.to_nat (NATIVE_IMAGE_HEADER + le_value [k0; k1])) bytes)
    with (drop (Z.to_nat (le_value [k0; k1])) rest).
  2:{ rewrite Z2Nat.inj_add by (unfold NATIVE_IMAGE_HEADER; lia). by rewrite <- drop_drop. }
  generalize dependent (le_value [v0; v1]). generalize dependent (le_value [k0; k1]).
  generalize dependent (le_value [d0; d1]). generalize dependent (le_value [z0; z1]).
  intros z d Hdz k Hk v. unfold NATIVE_IMAGE_HEADER, checked_add.
  rewrite (proj2 (Z.ltb_ge (24 + Zlength rest) 24)) by lia. cbn [orb].
  destruct (_ !=? NATIVE_IMAGE_MAGIC); [done|].
  rewrite (proj2 (Z.leb_le (d + z) usize_max)) by done.
  assert ((24 + k + d !=? 24 + Zlength rest) = (k + d !=? Zlength rest)) as ->.
  { f_equal. apply bool_decide_ext. lia. }
  destruct (_ || _) eqn:E; [done|]. unfold code_limit_of, data_limit_of. by destruct (v =? 1).
Qed.

Lemma parse_fields_Ok m v a b c k d z e r rest img :
  0 ≤ k → 0 ≤ d → 0 ≤ z → 0 ≤ e → parse_fields m v a b c k d z e r rest = Ok img →
  m = NATIVE_IMAGE_MAGIC ∧ a = 1 ∧ b = 1 ∧ c = 0 ∧ r = replicate 4 0 ∧
  v = img_format_version img ∧ k = Zlength (img_code img) ∧ d = Zlength (img_data img) ∧
  z = img_zero_bytes img ∧ e = img_entry img ∧ rest = img_code img ++ img_data img ∧ image_ok img.
Proof.
  intros Hk Hd Hz He. unfold parse_fields. destruct (_ !=? _) eqn:E1; [done|].
  destruct (_ || _) eqn:E2; [done|]. destruct (_ || _) eqn:E3 in |- *; [done|].
  destruct (k <=? e) eqn:E4; [done|]. bools. intros [= <-].
  assert (Zlength (take (Z.to_nat k) rest) = k) as Hc.
  { unfold Zlength in *. rewrite length_take. lia. }
  assert (Zlength (drop (Z.to_nat k) rest) = d) as Hdl.
  { unfold Zlength in *. rewrite length_drop. lia. }
  split_and!; cbn [img_format_version img_code img_data img_zero_bytes img_entry]; auto.
  - by rewrite take_drop.
  - split; cbn [img_format_version img_code img_data img_zero_bytes img_entry];
      rewrite ?Hc, ?Hdl; lia.
Qed.

(** Two bytes that decode to [v] are the encoding of [v]. *)
Lemma parse_Ok_encode bytes img :
  Forall byte_range bytes → NativeImage_parse bytes = Ok img → bytes = encode img ∧ image_ok img.
Proof.
  intros Hr H.
  assert (24 ≤ Zlength bytes) as Hl.
  { unfold NativeImage_parse in H. destruct (_ || _) eqn:E in H; [done|]. by bools. }
  destruct (split_header bytes Hl) as (m & v0 & v1 & a0 & a1 & b0 & b1 & c0 & c1 & k0 & k1 & d0 & d1 &
    z0 & z1 & e0 & e1 & r & rest & -> & Hm & Hlr).
  rewrite !Forall_app, !Forall_cons in Hr.
  destruct Hr as (_ & (Hv0 & Hv1 & Ha0 & Ha1 & Hb0 & Hb1 & Hc0 & Hc1 & Hk0 & Hk1 & Hd0 & Hd1 & Hz0 &
    Hz1 & He0 & He1 & _) & _).
  pose proof (le_value2_range _ _ Hk0 Hk1). pose proof (le_value2_range _ _ Hd0 Hd1).
  pose proof (le_value2_range _ _ Hz0 Hz1). pose proof (le_value2_range _ _ He0 He1).
  rewrite parse_fields_correct in H; [|done|done|lia|].
  2:{ unfold usize_max, u64_max. lia. }
  apply parse_fields_Ok in H as (-> & Ea & Eb & Ec & -> & Ev & Ek & Ed & Ez & Ee & -> & Hok); [|lia..].
  split; [|done]. unfold encode, encode_header. rewrite <- !app_assoc. f_equal.
  rewrite <- (word_bytes v0 v1 _ Hv0 Hv1 Ev), <- (word_bytes c0 c1 _ Hc0 Hc1 Ec),
    <- (word_bytes k0 k1 _ Hk0 Hk1 Ek), <- (word_bytes d0 d1 _ Hd0 Hd1 Ed),
    <- (word_bytes z0 z1 _ Hz0 Hz1 Ez), <- (word_bytes e0 e1 _ He0 He1 Ee).
  pose proof (word_bytes a0 a1 _ Ha0 Ha1 Ea) as E1. pose proof (word_bytes b0 b1 _ Hb0 Hb1 Eb) as E2.
  injection E1 as -> ->. injection E2 as -> ->. done.
Qed.

Lemma parse_encoded_header v k d z e rest :
  0 ≤ v < 65536 → 0 ≤ k < 65536 → 0 ≤ d < 65536 → 0 ≤ z < 65536 → 0 ≤ e < 65536 →
  NativeImage_parse (encode_header v k d z e ++ rest) =
  parse_fields NATIVE_IMAGE_MAGIC v 1 1 0 k d z e (replicate 4 0) rest.
Proof.
  intros Hv Hk Hd Hz He.
  pose proof (parse_fields_correct NATIVE_IMAGE_MAGIC (v mod 256) (v / 256 mod 256) 1 0 1 0 0 0
    (k mod 256) (k / 256 mod 256) (d mod 256) (d / 256 mod 256) (z mod 256) (z / 256 mod 256)
    (e mod 256) (e / 256 mod 256) (replicate 4 0) rest eq_refl eq_refl) as H.
  change ([k mod 256; k / 256 mod 256]) with (le_bytes 2 k) in H.
  change ([d mod 256; d / 256 mod 256]) with (le_bytes 2 d) in H.
  change ([z mod 256; z / 256 mod 256]) with (le_bytes 2 z) in H.
  change ([v mod 256; v / 256 mod 256]) with (le_bytes 2 v) in H.
  change ([e mod 256; e / 256 mod 256]) with (le_bytes 2 e) in H.
  rewrite !word_le_bytes2 in H by done. apply H; unfold usize_max, u64_max; lia.
Qed.

Lemma encode_parse img : image_ok img → NativeImage_parse (encode img) = Ok img.
Proof.
  intros [Hv Hc Hz Hd He Ht]. unfold encode.
  assert (0 ≤ Zlength (img_data img)) by (unfold Zlength; lia).
  assert (code_limit_of (img_format_version img) < 65536 ∧
          data_limit_of (img_format_version img) < 65536) as (Hc' & Hd').
  { unfold code_limit_of, data_limit_of. destruct (_ =? 1); lia. }
  rewrite parse_encoded_header by lia. unfold parse_fields.
  rewrite !bool_decide_true by done. cbn [negb orb]. rewrite !orb_false_r.
  assert (Zlength (img_code img ++ img_data img) =
    Zlength (img_code img) + Zlength (img_data img)) as Happ.
  { unfold Zlength. rewrite length_app. lia. }
  destruct (negb _) eqn:E1; [by destruct Hv as [E|E]; rewrite E in E1|]. clear E1.
  destruct (_ || _) eqn:E2; [exfalso|].
  { rewrite Happ, !orb_true_iff, negb_true_iff, bool_decide_eq_false, !Z.gtb_ltb, !Z.ltb_lt in E2.
    rewrite Z.eqb_eq in E2. lia. }
  rewrite (proj2 (Z.leb_gt _ _)) by lia. unfold Zlength. rewrite Nat2Z.id.
  rewrite take_app_length, drop_app_length. by destruct img.
Qed.

(** ** Properties *)

(** The EXF1 parser accepts exactly the well-formed containers.  A byte
    string parses to an image exactly when it is the encoding of that image
    and the image respects the limits of its format version: non-empty code
    that contains the entry point, data and zero-initialised bytes within the
    data window, and no more than 32 KiB in all.  So parsing never drops or
    invents a byte, and no second encoding of an image exists. *)
Theorem native_image_roundtrip (bytes : list Z) (img : NativeImage) :
  Forall byte_range bytes →
  NativeImage_parse bytes = Ok img ↔ bytes = encode img ∧ image_ok img.
Proof.
  intros Hr. split; [by apply parse_Ok_encode|]. intros [-> Hok]. by apply encode_parse.
Qed.

Definition demo_image : NativeImage := MkImage 1 [0x90; 0xC3] [42; 43] 3838 1.

Lemma native_image_roundtrip_witness :
  NativeImage_parse (encode demo_image) = Ok demo_image ∧ image_ok demo_image.
Proof.
  assert (NativeImage_parse (encode demo_image) = Ok demo_image) as H by (vm_compute; reflexivity).
  split; [exact H|]. apply (native_image_roundtrip (encode demo_image) demo_image); [|exact H].
  repeat constructor; vm_compute; congruence.
Defined.
