(* ===== verification/NativeCompiler.v ===== *)
(** * The on-device compiler

    The bounded source-profile compiler of
    crates/expos-core/src/native_compiler.rs: it finds a log string and an
    exit value in the source and emits an EXF1 image that logs and exits
    through the Form ABI.  A [&str] is the list of its characters; the
    compiler only goes on with ASCII sources, where these are the bytes. *)

From stdpp Require Import prelude list strings.
From Stdlib Require Import ZArith Lia.
From S2P Require Import Prelude Identity Bytes NativeImage.

Set Default Goal Selector "!".
Open Scope Z_scope.
Open Scope expos_scope.

(** ** Data *)

Definition USER_DATA : Z := 0x400000001000.
Definition ABI_MAGIC : Z := 0x4558504f53414249.
Definition DATA_OFFSET : Z := 256.
Definition DATA_CAPACITY : nat := 3840.
Definition SOURCE_LIMIT : Z := 32 * 1024.
Definition COMPILER_IMAGE_LIMIT : Z := 4096.
(** The size of the local [code] array. *)
Definition CODE_CAPACITY : nat := 192.

Inductive NativeLanguage := LangC | LangRust | LangGo.

Definition NativeLanguage_from_extension (extension : str) : option NativeLanguage :=
  if extension ==? lit "c" then Some LangC
  else if extension ==? lit "rs" then Some LangRust
  else if extension ==? lit "go" then Some LangGo
  else None.

Definition NativeLanguage_entry_markers (self : NativeLanguage) : list str :=
  match self with
  | LangC => [lit "main("]
  | LangRust => [lit "fn main("]
  | LangGo => [lit "func main("]
  end.

Definition NativeLanguage_log_markers (self : NativeLanguage) : list str :=
  match self with
  | LangC => [lit "expos_log("; lit "puts("]
  | LangRust => [lit "expos::log("; lit "log("]
  | LangGo => [lit "expos.Log("]
  end.

Definition NativeLanguage_exit_markers (self : NativeLanguage) : list str :=
  match self with
  | LangC => [lit "expos_exit("; lit "return "]
  | LangRust => [lit "expos::exit("; lit "return "]
  | LangGo => [lit "expos.Exit("]
  end.

Inductive CompileError :=
  | SourceTooLarge | NonAscii | MissingEntry | InvalidString | InvalidResult | ImageTooLarge.

(** ** String searching *)

Definition str_contains (marker s : str) : bool :=
  match str_find marker s with Some _ => true | None => false end.

Definition find_after (source : str) (markers : list str) : option str :=
  min_by_key (λ rest, Zlength source - Zlength rest)
    (omap (λ marker, (λ at_, drop (at_ + length marker) source) <$> str_find marker source)
       markers).

(** ** Literals *)

(** [str::parse::<u64>] on a non-empty string of digits. *)
Fixpoint parse_u64 (acc : Z) (digits : str) : option Z :=
  match digits with
  | [] => Some acc
  | c :: digits' =>
      let v := acc * 10 + (c - 48) in
      if v <=? u64_max then parse_u64 v digits' else None
  end.

Definition parse_result (arguments : str) : result Z CompileError :=
  let digits := str_trim_start arguments in
  let end_ := default (length digits) (position (λ c, negb (is_ascii_digit c)) digits) in
  if (end_ =? 0)%nat then Err InvalidResult
  else match parse_u64 0 (take end_ digits) with
       | Some v => Ok v
       | None => Err InvalidResult
       end.

Definition decode_escape (escaped : Z) : option Z :=
  if escaped =? 110 then Some 10          (* n *)
  else if escaped =? 114 then Some 13     (* r *)
  else if escaped =? 116 then Some 9      (* t *)
  else if escaped =? 92 then Some 92      (* backslash *)
  else if escaped =? 39 then Some 39      (* single quote *)
  else if escaped =? 34 then Some 34      (* double quote *)
  else None.

(** [*output.get_mut(length)? = decoded; length += 1]. *)
Definition store (output : list Z) (length_ : nat) (decoded : Z)
    : result (list Z * nat) CompileError :=
  if (length_ <? length output)%nat then Ok (<[length_ := decoded]> output, S length_)
  else Err ImageTooLarge.

(** The [while] loop: [rest] is [bytes[input..]]. *)
Fixpoint string_loop (quote : Z) (rest : list Z) (output : list Z) (length_ : nat)
    : result (list Z * nat) CompileError :=
  match rest with
  | [] => Err InvalidString
  | byte :: rest' =>
      if byte =? quote then Ok (output, length_)
      else if byte =? 92 then
        match rest' with
        | [] => Err InvalidString
        | escaped :: rest'' =>
            match decode_escape escaped with
            | None => Err InvalidString
            | Some decoded =>
                let? p := store output length_ decoded in string_loop quote rest'' p.1 p.2
            end
        end
      else if is_ascii_control byte then Err InvalidString
      else let? p := store output length_ byte in string_loop quote rest' p.1 p.2
  end.

(** The filled buffer and the number of bytes written. *)
Definition parse_string (arguments : str) (output : list Z) : result (list Z * nat) CompileError :=
  match str_trim_start arguments with
  | quote :: rest =>
      if (quote =? 39) || (quote =? 34) then string_loop quote rest output 0
      else Err InvalidString
  | [] => Err InvalidString
  end.

(** ** Code emission: the buffer and its cursor *)

Abbreviation Buffer := (list Z * nat)%type.

Definition emit (b : Buffer) (bytes : list Z) : result Buffer CompileError :=
  match checked_add usize_max (Z.of_nat b.2) (Zlength bytes) with
  | Some end_ =>
      if end_ <=? Zlength b.1 then Ok (splice b.1 b.2 bytes, Z.to_nat end_) else Err ImageTooLarge
  | None => Err ImageTooLarge
  end.

Definition set_request_call (b : Buffer) (call : Z) (log_handle : bool)
    : result Buffer CompileError :=
  let? b := emit b [0x66; 0xC7; 0x43; 0x02] in
  let? b := emit b (le_bytes 2 call) in
  emit b (if log_handle then [0x44; 0x89; 0x6B; 0x14] else [0x44; 0x89; 0x63; 0x14]).

Definition emit_call (b : Buffer) : result Buffer CompileError :=
  let? b := emit b [0x48; 0x89; 0xDF] in
  let? b := emit b [0x48; 0x8D; 0x73; 0x50] in
  let? b := emit b [0x48; 0xB8] in
  let? b := emit b (le_bytes 8 ABI_MAGIC) in
  emit b [0xCD; 0x80].

(** The log call, emitted when there is something to log. *)
Definition emit_log (b : Buffer) (message_len : nat) : result Buffer CompileError :=
  let? b := set_request_call b 1 true in
  let? b := emit b [0x48; 0xC7; 0x43; 0x18] in
  let? b := emit b (le_bytes 4 DATA_OFFSET) in
  let? b := emit b [0x48; 0xC7; 0x43; 0x20] in
  let? b := emit b (le_bytes 4 (Z.of_nat message_len)) in
  emit_call b.

Definition emit_program (message_len : nat) (result_ : Z) : result Buffer CompileError :=
  let b := (replicate CODE_CAPACITY 0, 0%nat) in
  let? b := emit b [0x41; 0x89; 0xD4] in
  let? b := emit b [0x41; 0x89; 0xCD] in
  let? b := emit b [0x48; 0xBB] in
  let? b := emit b (le_bytes 8 USER_DATA) in
  let? b := if negb (message_len =? 0)%nat then emit_log b message_len else Ok b in
  let? b := set_request_call b 8 false in
  let? b := emit b [0x48; 0xB8] in
  let? b := emit b (le_bytes 8 result_) in
  let? b := emit b [0x48; 0x89; 0x43; 0x18] in
  let? b := emit_call b in
  emit b [0x0F; 0x0B].

(** The image, field by field into a zeroed vector. *)
Definition build_image (code message : list Z) (cursor message_len total : nat) : list Z :=
  let bytes := replicate total 0 in
  let bytes := splice bytes 0 [69; 88; 70; 49] in
  let bytes := splice bytes 4 (le_bytes 2 1) in
  let bytes := splice bytes 6 (le_bytes 2 1) in
  let bytes := splice bytes 8 (le_bytes 2 1) in
  let bytes := splice bytes 12 (le_bytes 2 (Z.of_nat cursor)) in
  let bytes := splice bytes 14 (le_bytes 2 (Z.of_nat message_len)) in
  let bytes := splice bytes 24 (take cursor code) in
  splice bytes (24 + cursor) (take message_len message).

Definition compile (language : NativeLanguage) (source : str) : result (list Z) CompileError :=
  if str_len source >? SOURCE_LIMIT then Err SourceTooLarge
  else if negb (str_is_ascii source) then Err NonAscii
  else if negb (existsb (λ marker, str_contains marker source)
                  (NativeLanguage_entry_markers language))
  then Err MissingEntry
  else
    let? p :=
      match find_after source (NativeLanguage_log_markers language) with
      | Some arguments => parse_string arguments (replicate DATA_CAPACITY 0)
      | None => Ok (replicate DATA_CAPACITY 0, 0%nat)
      end in
    let '(message, message_len) := p in
    let? result_ :=
      match find_after source (NativeLanguage_exit_markers language) with
      | Some arguments => parse_result arguments
      | None => Ok 0
      end in
    let? b := emit_program message_len result_ in
    let '(code, cursor) := b in
    let total := (Z.to_nat NATIVE_IMAGE_HEADER + cursor + message_len)%nat in
    if Z.of_nat total >? COMPILER_IMAGE_LIMIT then Err ImageTooLarge
    else Ok (build_image code message cursor message_len total).

(** ** Specification *)

(** [arguments] stands behind the marker that ends first in the source. *)
Definition after_first (source : str) (markers : list str) (arguments : str) : Prop :=
  (∃ pre marker, marker ∈ markers ∧ source = pre ++ marker ++ arguments) ∧
  ∀ pre marker rest, marker ∈ markers → source = pre ++ marker ++ rest →
    (length rest ≤ length arguments)%nat.

Definition mentions (source : str) (markers : list str) : Prop :=
  ∃ pre marker rest, marker ∈ markers ∧ source = pre ++ marker ++ rest.

(** The escape sequences of a string literal. *)
Inductive escape : Z → Z → Prop :=
  | escape_newline : escape 110 10
  | escape_return : escape 114 13
  | escape_tab : escape 116 9
  | escape_self c : c ∈ [34; 39; 92] → escape c c.

(** The grammar of the rest of a string literal, after its opening quote:
    [literal quote rest s] says that [rest] spells [s] up to the next quote. *)
Inductive literal (quote : Z) : list Z → list Z → Prop :=
  | literal_end tail : literal quote (quote :: tail) []
  | literal_escape escaped decoded rest s :
      92 ≠ quote → escape escaped decoded → literal quote rest s →
      literal quote (92 :: escaped :: rest) (decoded :: s)
  | literal_char c rest s :
      c ≠ quote → c ≠ 92 → 32 ≤ c → c ≠ 127 → literal quote rest s →
      literal quote (c :: rest) (c :: s).

Definition blank (s : str) : Prop := Forall (λ c, char_is_whitespace c = true) s.

(** The arguments begin with a string literal for [message]. *)
Definition string_argument (arguments message : str) : Prop :=
  ∃ blanks quote rest, arguments = blanks ++ quote :: rest ∧ blank blanks ∧
    (quote = 39 ∨ quote = 34) ∧ literal quote rest message.

(** A decimal digit stands at its value in the row of digits. *)
Definition decimal_char (c : Z) (d : nat) : Prop := lit "0123456789" !! d = Some c.

(** The arguments begin with a decimal numeral for [value], of 64 bits. *)
Definition number_argument (arguments : str) (value : Z) : Prop :=
  ∃ blanks digits tail ds, arguments = blanks ++ digits ++ tail ∧ blank blanks ∧
    Forall2 decimal_char digits ds ∧ ds ≠ [] ∧ (∀ c d, head tail = Some c → ¬ decimal_char c d) ∧
    value = positional 10 ds ∧ value < 2 ^ 64.

(** What the source asks to log, and the value it exits with. *)
Definition logs (language : NativeLanguage) (source message : str) : Prop :=
  (¬ mentions source (NativeLanguage_log_markers language) ∧ message = []) ∨
  ∃ arguments, after_first source (NativeLanguage_log_markers language) arguments ∧
    string_argument arguments message ∧ (length message ≤ DATA_CAPACITY)%nat.

Definition exits (language : NativeLanguage) (source : str) (value : Z) : Prop :=
  (¬ mentions source (NativeLanguage_exit_markers language) ∧ value = 0) ∨
  ∃ arguments, after_first source (NativeLanguage_exit_markers language) arguments ∧
    number_argument arguments value.

Definition accepted_source (language : NativeLanguage) (source : str) : Prop :=
  Zlength source ≤ 32768 ∧ Forall (λ c, c < 128) source ∧
  mentions source (NativeLanguage_entry_markers language).

(** The machine code: load the request page, log when there is a message,
    exit, trap. *)
Definition request_bytes (call : Z) (log_handle : bool) : list Z :=
  [0x66; 0xC7; 0x43; 0x02] ++ le_bytes 2 call ++
  (if log_handle then [0x44; 0x89; 0x6B; 0x14] else [0x44; 0x89; 0x63; 0x14]).
Definition call_bytes : list Z :=
  [0x48; 0x89; 0xDF; 0x48; 0x8D; 0x73; 0x50; 0x48; 0xB8] ++ le_bytes 8 ABI_MAGIC ++ [0xCD; 0x80].
Definition log_bytes (message_len : nat) : list Z :=
  request_bytes 1 true ++ [0x48; 0xC7; 0x43; 0x18] ++ le_bytes 4 256 ++ [0x48; 0xC7; 0x43; 0x20] ++
  le_bytes 4 (Z.of_nat message_len) ++ call_bytes.
Definition exit_bytes (value : Z) : list Z :=
  request_bytes 8 false ++ [0x48; 0xB8] ++ le_bytes 8 value ++ [0x48; 0x89; 0x43; 0x18] ++
  call_bytes.
Definition program (message_len : nat) (value : Z) : list Z :=
  [0x41; 0x89; 0xD4; 0x41; 0x89; 0xCD; 0x48; 0xBB] ++ le_bytes 8 USER_DATA ++
  (if (message_len =? 0)%nat then [] else log_bytes message_len) ++ exit_bytes value ++
  [0x0F; 0x0B].

(** ** Lemmas: searching *)

Lemma str_find_occurs m s : is_Some (str_find m s) ↔ ∃ pre rest, s = pre ++ m ++ rest.
Proof.
  split.
  - intros [n (pre & rest & E & _)%str_find_Some]. eauto.
  - intros (pre & rest & ->). destruct (str_find_le m pre rest) as (n & E & _). eauto.
Qed.

Lemma find_after_elem source (markers : list str) a :
  a ∈ omap (λ marker, (λ at_, drop (at_ + length marker) source) <$> str_find marker source) markers →
  ∃ pre marker, marker ∈ markers ∧ source = pre ++ marker ++ a.
Proof.
  intros (m & Hm & E)%list_elem_of_omap. destruct (str_find m source) as [n|] eqn:En; [|done].
  injection E as <-. apply str_find_Some in En as (pre & rest & -> & <- & _).
  exists pre, m. by rewrite drop_app_add, drop_app_length.
Qed.

Lemma find_after_None source markers : find_after source markers = None ↔ ¬ mentions source markers.
Proof.
  unfold find_after, mentions. rewrite min_by_key_None. split.
  - intros E (pre & m & rest & Hm & Es). destruct (str_find_le m pre rest) as (n & En & _).
    rewrite <- Es in En.
    assert (drop (n + length m) source ∈ omap (λ marker,
      (λ at_, drop (at_ + length marker) source) <$> str_find marker source) markers) as H
      by (apply list_elem_of_omap; exists m; by rewrite En).
    rewrite E in H. by apply elem_of_nil in H.
  - intros H. destruct (omap _ _) as [|a l] eqn:E; [done|].
    destruct H. destruct (find_after_elem source markers a) as (pre & m & Hm & Es); [|eauto].
    rewrite E. by left.
Qed.

Lemma after_first_functional source markers a a' :
  after_first source markers a → after_first source markers a' → a = a'.
Proof.
  intros [(p & m & Hm & E) H] [(p' & m' & Hm' & E') H'].
  pose proof (H _ _ _ Hm' E'). pose proof (H' _ _ _ Hm E).
  rewrite app_assoc in E, E'. rewrite E in E'. apply app_inj_2 in E' as [_ ?]; [done|lia].
Qed.

Lemma find_after_Some source markers a :
  find_after source markers = Some a ↔ after_first source markers a.
Proof.
  assert (∀ b, find_after source markers = Some b → after_first source markers b) as H.
  { intros b [Hin Hmin]%min_by_key_Some. split; [by apply find_after_elem|].
    intros pre m rest Hm Es. destruct (str_find_le m pre rest) as (n & En & Hn). rewrite <- Es in En.
    specialize (Hmin (drop (n + length m) source)). unfold Zlength in Hmin.
    assert (length source = length pre + length m + length rest)%nat
      by (rewrite Es, !length_app; lia).
    rewrite length_drop in Hmin. cut (length source - (n + length m) ≤ length b)%nat; [lia|].
    cut (Z.of_nat (length source - (n + length m)) ≤ Z.of_nat (length b)); [lia|].
    cut (Z.of_nat (length source) - Z.of_nat (length b) ≤
         Z.of_nat (length source) - Z.of_nat (length source - (n + length m))); [lia|].
    apply Hmin, list_elem_of_omap. exists m. by rewrite En. }
  split; [by apply H|]. intros Ha. destruct (find_after source markers) as [b|] eqn:E.
  - f_equal. eapply after_first_functional; [by apply H|done].
  - apply find_after_None in E as []. destruct Ha as [(pre & m & ? & ?) _]. by exists pre, m, a.
Qed.

Lemma decode_escape_spec e d : decode_escape e = Some d ↔ escape e d.
Proof.
  unfold decode_escape. split.
  - intros H. guards; bools; subst; constructor; by vm_compute; repeat constructor.
  - intros [| | |c Hc]; [done..|]. revert c Hc. apply Forall_forall. by repeat constructor.
Qed.

Lemma is_ascii_control_spec c : is_ascii_control c = false ↔ 32 ≤ c ∧ c ≠ 127.
Proof. unfold is_ascii_control. rewrite orb_false_iff, Z.ltb_ge, Z.eqb_neq. done. Qed.

(** ** Lemmas: buffers *)

Definition code_buffer (p : list Z) : Buffer := (filled CODE_CAPACITY p, length p).

Lemma emit_buffer p bs :
  (length p + length bs ≤ CODE_CAPACITY)%nat →
  emit (code_buffer p) bs = Ok (code_buffer (p ++ bs)).
Proof.
  intros Hl. unfold emit, code_buffer. cbn [fst snd]. unfold checked_add, Zlength.
  rewrite length_filled by lia. unfold CODE_CAPACITY in *.
  rewrite (proj2 (Z.leb_le _ usize_max)) by (unfold usize_max, u64_max; lia).
  rewrite (proj2 (Z.leb_le _ _)) by lia. rewrite splice_filled by done.
  rewrite length_app. do 3 f_equal. lia.
Qed.

(** Emission into the buffer, block by block. *)
Ltac emit_blocks :=
  repeat (rewrite emit_buffer by (rewrite ?length_app, ?le_bytes_length; simpl; lia)); cbn [fst snd].

Lemma set_request_call_buffer p call h :
  (length p + 10 ≤ CODE_CAPACITY)%nat →
  set_request_call (code_buffer p) call h = Ok (code_buffer (p ++ request_bytes call h)).
Proof.
  intros Hl. unfold set_request_call. emit_blocks.
  rewrite emit_buffer by (rewrite !length_app, le_bytes_length; destruct h; simpl; lia).
  unfold request_bytes. by rewrite <- !app_assoc.
Qed.

Lemma emit_call_buffer p :
  (length p + 19 ≤ CODE_CAPACITY)%nat →
  emit_call (code_buffer p) = Ok (code_buffer (p ++ call_bytes)).
Proof.
  intros Hl. unfold emit_call. emit_blocks. unfold call_bytes. by rewrite <- !app_assoc.
Qed.

Lemma request_bytes_length call h : length (request_bytes call h) = 10%nat.
Proof. by destruct h. Qed.

Lemma emit_log_buffer p n :
  (length p + 45 ≤ CODE_CAPACITY)%nat →
  emit_log (code_buffer p) n = Ok (code_buffer (p ++ log_bytes n)).
Proof.
  intros Hl. unfold emit_log. rewrite set_request_call_buffer by lia.
  pose proof (request_bytes_length 1 true) as Hr.
  do 4 (rewrite emit_buffer by (rewrite !length_app, ?le_bytes_length, Hr; simpl; lia)).
  rewrite emit_call_buffer by (rewrite !length_app, !le_bytes_length, Hr; simpl; lia).
  unfold log_bytes. by rewrite <- !app_assoc.
Qed.

Lemma log_bytes_length n : length (log_bytes n) = 45%nat.
Proof. done. Qed.

Lemma exit_bytes_length v : length (exit_bytes v) = 43%nat.
Proof. done. Qed.

(** The code always fits: emission never fails. *)
Lemma emit_program_total n v :
  emit_program n v = Ok (code_buffer (program n v)).
Proof.
  unfold emit_program. cbv zeta. change (replicate CODE_CAPACITY 0, 0%nat) with (code_buffer []).
  do 4 (rewrite emit_buffer by (rewrite ?length_app, ?le_bytes_length; unfold CODE_CAPACITY; simpl; lia)).
  set (p := _ ++ le_bytes 8 USER_DATA). assert (length p = 16%nat) as Hp by done.
  assert (∀ q, (length q + 45 ≤ CODE_CAPACITY)%nat →
    (let? b := set_request_call (code_buffer q) 8 false in
     let? b := emit b [0x48; 0xB8] in
     let? b := emit b (le_bytes 8 v) in
     let? b := emit b [0x48; 0x89; 0x43; 0x18] in
     let? b := emit_call b in
     emit b [0x0F; 0x0B]) = Ok (code_buffer (q ++ exit_bytes v ++ [0x0F; 0x0B]))) as Hexit.
  { intros q Hq. pose proof (request_bytes_length 8 false) as Hr.
    rewrite set_request_call_buffer by lia.
    do 3 (rewrite emit_buffer by (rewrite !length_app, ?le_bytes_length, Hr; simpl; lia)).
    rewrite emit_call_buffer by (rewrite !length_app, !le_bytes_length, Hr; simpl; lia).
    rewrite emit_buffer by (rewrite !length_app, !le_bytes_length, Hr; simpl; lia).
    unfold exit_bytes. by rewrite <- !app_assoc. }
  destruct (n =? 0)%nat eqn:En; cbn [negb].
  - rewrite Hexit by (rewrite Hp; unfold CODE_CAPACITY; lia). unfold program. rewrite En. done.
  - rewrite emit_log_buffer by (rewrite Hp; unfold CODE_CAPACITY; lia).
    rewrite Hexit by (rewrite length_app, log_bytes_length, Hp; unfold CODE_CAPACITY; lia).
    unfold program. rewrite En, <- app_assoc. done.
Qed.

Lemma program_length n v : (61 ≤ length (program n v) ≤ 106)%nat.
Proof.
  unfold program. rewrite !length_app, le_bytes_length, exit_bytes_length.
  destruct (n =? 0)%nat; rewrite ?log_bytes_length; simpl; lia.
Qed.

(** ** Lemmas: the image *)

Lemma build_image_encode code message c n :
  length code = c → length message = n →
  build_image (filled CODE_CAPACITY code) (filled DATA_CAPACITY message) c n (24 + c + n) =
  encode (MkImage 1 code message 0 0).
Proof.
  intros <- <-. unfold build_image. cbv zeta. rewrite !take_filled.
  rewrite <- Nat.add_assoc, replicate_add.
  rewrite (splice_app_l (replicate 24 0)) by (rewrite length_replicate; simpl; lia).
  do 5 (rewrite splice_app_l by (cbn; lia)).
  rewrite splice_at_end by (rewrite ?length_replicate; done || lia).
  rewrite drop_replicate. replace (length code + length message - length code)%nat
    with (length message) by lia.
  rewrite app_assoc, splice_at_end by (rewrite ?length_app, ?length_replicate; done || lia).
  rewrite drop_replicate, Nat.sub_diag, app_nil_r. unfold encode, encode_header.
  rewrite <- !app_assoc. reflexivity.
Qed.

(** ** Lemmas: literals *)

Lemma store_fits p c :
  (length p < DATA_CAPACITY)%nat →
  store (filled DATA_CAPACITY p) (length p) c =
  Ok (filled DATA_CAPACITY (p ++ [c]), length (p ++ [c])).
Proof.
  intros Hl. unfold store. rewrite length_filled, (proj2 (Nat.ltb_lt _ _) Hl) by lia.
  rewrite length_app, Nat.add_1_r. do 2 f_equal.
  rewrite <- (splice_filled DATA_CAPACITY p [c]) by (simpl; lia).
  unfold splice. rewrite insert_take_drop by (rewrite length_filled; lia). simpl.
  by rewrite Nat.add_1_r.
Qed.

Lemma store_full p c :
  length p = DATA_CAPACITY → store (filled DATA_CAPACITY p) (length p) c = Err ImageTooLarge.
Proof.
  intros Hl. unfold store. rewrite length_filled by lia. by rewrite Hl, Nat.ltb_irrefl.
Qed.

Lemma literal_functional quote rest s s' :
  literal quote rest s → literal quote rest s' → s = s'.
Proof.
  intros H. revert s'. induction H as [tail|e d rest s Hq He _ IH|c rest s Hq Hb Hc Hc' _ IH];
    intros s' H'; inversion H' as [|? d' ? ? Hq' He'|]; subst; try done; f_equal; auto.
  apply decode_escape_spec in He, He'. congruence.
Qed.

(** [loop_ok quote rest p r]: [r] reads the literal [rest] after [p] has been
    stored, if the whole fits. *)
Definition loop_ok (quote : Z) (rest p : list Z) (r : result (list Z * nat) CompileError) : Prop :=
  ∀ out len, r = Ok (out, len) ↔
    ∃ s, literal quote rest s ∧ (length (p ++ s) ≤ DATA_CAPACITY)%nat ∧
         out = filled DATA_CAPACITY (p ++ s) ∧ len = length (p ++ s).

Lemma loop_ok_error quote rest p e : (∀ s, ¬ literal quote rest s) → loop_ok quote rest p (Err e).
Proof. intros H out len. naive_solver. Qed.

(** One more character: it is stored, or the buffer is full. *)
Lemma loop_ok_store quote rest rest0 p c (k : list Z → nat → result (list Z * nat) CompileError) :
  (length p ≤ DATA_CAPACITY)%nat →
  (∀ s, literal quote rest0 s ↔ ∃ s', s = c :: s' ∧ literal quote rest s') →
  ((length (p ++ [c]) ≤ DATA_CAPACITY)%nat →
     loop_ok quote rest (p ++ [c]) (k (filled DATA_CAPACITY (p ++ [c])) (length (p ++ [c])))) →
  loop_ok quote rest0 p
    (let? q := store (filled DATA_CAPACITY p) (length p) c in k q.1 q.2).
Proof.
  intros Hp Hlit Hk out len. destruct (decide (length p = DATA_CAPACITY)) as [Hfull|Hfit].
  - rewrite store_full by done. split; [done|]. intros (s & Hs & Hl & _).
    apply Hlit in Hs as (s' & -> & _). rewrite length_app in Hl. simpl in Hl. lia.
  - rewrite store_fits by lia. cbn [fst snd].
    assert (length (p ++ [c]) ≤ DATA_CAPACITY)%nat as Hl by (rewrite length_app; simpl; lia).
    rewrite (Hk Hl out len : _ ↔ _). split.
    + intros (s & Hs & Hls & -> & ->). exists (c :: s). rewrite <- (app_assoc p) in *.
      split_and!; try done. apply Hlit. eauto.
    + intros (s & (s' & -> & Hs)%Hlit & Hls & -> & ->). exists s'. by rewrite <- (app_assoc p).
Qed.

Lemma string_loop_spec n quote rest p :
  (length rest ≤ n)%nat → (length p ≤ DATA_CAPACITY)%nat →
  loop_ok quote rest p (string_loop quote rest (filled DATA_CAPACITY p) (length p)).
Proof.
  revert rest p. induction n as [|n IH]; intros rest p Hn Hp.
  { destruct rest; [|simpl in Hn; lia]. apply loop_ok_error. intros s H. inversion H. }
  destruct rest as [|c rest]; [apply loop_ok_error; intros s H; inversion H|].
  simpl in Hn. cbn [string_loop]. destruct (c =? quote) eqn:Eq; bools.
  { subst c. intros out len. split.
    - intros [= <- <-]. exists []. rewrite app_nil_r. split_and!; try done. constructor.
    - intros (s & Hs & _ & -> & ->). rewrite (literal_functional _ _ _ _ Hs (literal_end quote rest)).
      by rewrite app_nil_r. }
  destruct (c =? 92) eqn:Eb; bools.
  - subst c. destruct rest as [|e rest].
    { apply loop_ok_error. intros s H. inversion H; subst; done. }
    destruct (decode_escape e) as [d|] eqn:Ee.
    + apply decode_escape_spec in Ee as Hd. apply (loop_ok_store quote rest); [done| |].
      * intros s. split; [|intros (s' & -> & ?); by apply literal_escape].
        intros H. inversion H as [|? d' ? s' Hq' Hd'|]; subst; try done.
        apply decode_escape_spec in Hd'. rewrite Ee in Hd'. simplify_eq. eauto.
      * intros Hl. apply IH; [simpl in Hn; lia|done].
    + apply loop_ok_error. intros s H. inversion H as [|? d' ? s' Hq' Hd'|]; subst; try done.
      apply decode_escape_spec in Hd'. congruence.
  - destruct (is_ascii_control c) eqn:Ec.
    + apply loop_ok_error. intros s H. inversion H; subst; try done.
      by rewrite (proj2 (is_ascii_control_spec c)) in Ec.
    + apply is_ascii_control_spec in Ec as [Ec1 Ec2]. apply (loop_ok_store quote rest); [done| |].
      * intros s. split; [|intros (s' & -> & ?); by apply literal_char].
        intros H. inversion H; subst; try done. eauto.
      * intros Hl. apply IH; [lia|done].
Qed.

Lemma trim_start_spec s c rest :
  str_trim_start s = c :: rest ↔
  char_is_whitespace c = false ∧ ∃ blanks, s = blanks ++ c :: rest ∧ blank blanks.
Proof.
  split.
  - induction s as [|x s IH]; simpl; [done|]. destruct (char_is_whitespace x) eqn:E.
    + intros (Hc & blanks & -> & Hb)%IH. split; [done|]. exists (x :: blanks). by split; [|constructor].
    + intros [= -> ->]. split; [done|]. exists []. by split; [|constructor].
  - intros (Hc & blanks & -> & Hb). induction Hb as [|x blanks Hx _ IH]; simpl; [by rewrite Hc|by rewrite Hx].
Qed.

Lemma parse_string_spec arguments out len :
  parse_string arguments (replicate DATA_CAPACITY 0) = Ok (out, len) ↔
  ∃ s, string_argument arguments s ∧ (length s ≤ DATA_CAPACITY)%nat ∧
    out = filled DATA_CAPACITY s ∧ len = length s.
Proof.
  unfold parse_string, string_argument. rewrite <- filled_nil.
  pose proof (λ quote rest, string_loop_spec (length rest) quote rest [] (le_n _) (Nat.le_0_l _) out len) as H.
  simpl length in H. simpl app in H. split.
  - destruct (str_trim_start arguments) as [|quote rest] eqn:Et; [done|].
    apply trim_start_spec in Et as (_ & blanks & -> & Hb). destruct (_ || _) eqn:Eq; [|done].
    rewrite orb_true_iff, !Z.eqb_eq in Eq. intros (s & ?)%H. exists s. naive_solver.
  - intros (s & (blanks & quote & rest & -> & Hb & Hq & Hl) & Hlen & -> & ->).
    rewrite (proj2 (trim_start_spec (blanks ++ quote :: rest) quote rest)).
    2: { split; [by destruct Hq as [->| ->]|eauto]. }
    rewrite (proj2 (orb_true_iff _ _)) by (rewrite !Z.eqb_eq; done). apply H. eauto.
Qed.

Lemma decimal_char_spec c d : decimal_char c d ↔ is_ascii_digit c = true ∧ c - 48 = Z.of_nat d.
Proof.
  unfold decimal_char, is_ascii_digit. split.
  - intros H. do 10 (destruct d as [|d]; [by injection H as <-|]). done.
  - intros [Hc Hd]. bools. assert (d = Z.to_nat (c - 48)) as -> by lia.
    assert (c ∈ seqZ 48 10) as Hin by (apply elem_of_seqZ; lia). revert Hin. clear.
    revert c. apply Forall_forall. by repeat constructor.
Qed.

Lemma digit_not_blank c : is_ascii_digit c = true → char_is_whitespace c = false.
Proof.
  unfold is_ascii_digit. intros H. bools.
  assert (c ∈ seqZ 48 10) as Hin by (apply elem_of_seqZ; lia). revert Hin. clear.
  revert c. apply Forall_forall. by repeat constructor.
Qed.

Lemma parse_u64_spec digits acc v :
  0 ≤ acc ≤ u64_max → Forall (λ c, is_ascii_digit c = true) digits →
  parse_u64 acc digits = Some v ↔
  ∃ ds, Forall2 decimal_char digits ds ∧ v = acc * 10 ^ Zlength ds + positional 10 ds ∧ v ≤ u64_max.
Proof.
  intros Ha Hd. revert acc Ha. induction Hd as [|c digits Hc _ IH]; intros acc Ha; cbn [parse_u64].
  { split.
    - intros [= <-]. exists []. rewrite positional_start. split_and!; [constructor|done|lia].
    - intros (ds & ->%Forall2_nil_inv_l & -> & _). by rewrite positional_start. }
  assert (∃ d, decimal_char c d) as [d Hdc].
  { exists (Z.to_nat (c - 48)). apply decimal_char_spec. split; [done|].
    unfold is_ascii_digit in Hc. bools. lia. }
  apply decimal_char_spec in Hdc as Hdv. destruct Hdv as [_ Hdv]. rewrite Hdv. cbv zeta.
  assert (∀ d', decimal_char c d' → d' = d) as Hfun by (intros d' [_ ?]%decimal_char_spec; lia).
  split.
  - destruct (Z.leb_spec (acc * 10 + Z.of_nat d) u64_max); [|done]. rewrite IH by lia.
    intros (ds & Hds & -> & Hv). exists (d :: ds). rewrite positional_cons. by split; [constructor|].
  - intros (ds' & (d' & ds & ->%Hfun & Hds & ->)%Forall2_cons_inv_l & -> & Hv).
    rewrite positional_cons in *. pose proof (positional_nonneg 10 ds).
    pose proof (pow_length_pos 10 ds). rewrite (proj2 (Z.leb_le _ _)) by nia.
    apply IH; [nia|]. eauto.
Qed.

(** The digits at the front of a string. *)
Lemma leading_digits s digits tail :
  take (default (length s) (position (λ c, negb (is_ascii_digit c)) s)) s = digits →
  drop (default (length s) (position (λ c, negb (is_ascii_digit c)) s)) s = tail →
  s = digits ++ tail ∧ Forall (λ c, is_ascii_digit c = true) digits ∧
  ∀ c, head tail = Some c → is_ascii_digit c = false.
Proof.
  intros <- <-. split; [by rewrite take_drop|]. induction s as [|c s [IH1 IH2]]; simpl; [by split|].
  destruct (is_ascii_digit c) eqn:E; simpl; [|split; [constructor|by intros ? [= <-]]].
  destruct (position _ s); simpl in *; (split; [by constructor|done]).
Qed.

Lemma leading_digits_app digits tail :
  Forall (λ c, is_ascii_digit c = true) digits →
  (∀ c, head tail = Some c → is_ascii_digit c = false) →
  default (length (digits ++ tail)) (position (λ c, negb (is_ascii_digit c)) (digits ++ tail)) =
    length digits.
Proof.
  intros Hd Ht. induction Hd as [|c digits Hc _ IH]; simpl.
  - destruct tail as [|c tail]; [done|]. simpl. by rewrite (Ht c eq_refl).
  - rewrite Hc. cbn [negb]. destruct (position _ _); simpl in *; by rewrite IH.
Qed.

Lemma parse_result_spec arguments value :
  parse_result arguments = Ok value ↔ number_argument arguments value.
Proof.
  unfold parse_result, number_argument. cbv zeta. change (2 ^ 64) with (u64_max + 1). split.
  - set (s := str_trim_start arguments). set (n := default _ _).
    destruct (leading_digits s (take n s) (drop n s) eq_refl eq_refl) as (Es & Hd & Ht).
    destruct (Nat.eqb_spec n 0) as [|Hn]; [done|].
    destruct (parse_u64 0 (take n s)) as [v|] eqn:Ev; [|done]. intros [= <-].
    apply parse_u64_spec in Ev as (ds & Hds & -> & Hv); [|unfold u64_max; lia|done].
    destruct s as [|c s'] eqn:Ec; [done|].
    apply trim_start_spec in Ec as (_ & blanks & -> & Hb).
    exists blanks, (take n (c :: s')), (drop n (c :: s')), ds. rewrite <- Es.
    split_and!; try done; try lia.
    + intros ->. apply Forall2_nil_inv_r in Hds. by destruct n.
    + intros x d Hx [Hc _]%decimal_char_spec. rewrite (Ht x Hx) in Hc. done.
  - intros (blanks & digits & tail & ds & -> & Hb & Hds & Hne & Ht & -> & Hv).
    assert (Forall (λ c, is_ascii_digit c = true) digits) as Hd.
    { clear -Hds. induction Hds as [|c d digits ds [Hc _]%decimal_char_spec _ IH]; by constructor. }
    destruct digits as [|c digits]; [by apply Forall2_nil_inv_l in Hds|].
    assert (str_trim_start (blanks ++ (c :: digits) ++ tail) = (c :: digits) ++ tail) as ->.
    { apply trim_start_spec. split; [|by eauto]. by apply digit_not_blank, (Forall_inv Hd). }
    rewrite leading_digits_app; [|done|].
    + cbn [length Nat.eqb]. change (S (length digits)) with (length (c :: digits)).
      rewrite take_app_length.
      rewrite (proj2 (parse_u64_spec (c :: digits) 0 (positional 10 ds) ltac:(unfold u64_max; lia) Hd));
        [done|]. exists ds. split_and!; [done|lia..].
    + intros x Hx. destruct (is_ascii_digit x) eqn:Ex; [|done].
      destruct (Ht x (Z.to_nat (x - 48)) Hx). apply decimal_char_spec. split; [done|].
      unfold is_ascii_digit in Ex. bools. lia.
Qed.

Lemma exits_range language source v : exits language source v → 0 ≤ v ≤ u64_max.
Proof.
  change u64_max with (2 ^ 64 - 1).
  intros [[_ ->]|(a & _ & _ & _ & _ & ds & _ & _ & _ & _ & _ & -> & Hv)]; [lia|].
  pose proof (positional_nonneg 10 ds). lia.
Qed.

Lemma logs_length language source message :
  logs language source message → (length message ≤ DATA_CAPACITY)%nat.
Proof. intros [[_ ->]|(a & _ & _ & H)]; [simpl; lia|done]. Qed.

Definition compiled (message : str) (value : Z) : NativeImage :=
  MkImage 1 (program (length message) value) message 0 0.

Lemma compiled_ok message value :
  (length message ≤ DATA_CAPACITY)%nat → image_ok (compiled message value).
Proof.
  unfold DATA_CAPACITY. intros Hl. pose proof (program_length (length message) value).
  split; unfold Zlength, code_limit_of, data_limit_of, compiled;
    cbn [img_format_version img_code img_data img_zero_bytes img_entry Z.eqb Pos.eqb]; auto; lia.
Qed.

Lemma encode_length img : length (encode img) = (24 + length (img_code img) + length (img_data img))%nat.
Proof. unfold encode. by rewrite !length_app. Qed.

(** The back end, once message and exit value are known. *)
Lemma back_end message value :
  (length message ≤ DATA_CAPACITY)%nat →
  (let? b := emit_program (length message) value in
   let '(code, cursor) := b in
   let total := (Z.to_nat NATIVE_IMAGE_HEADER + cursor + length message)%nat in
   if Z.of_nat total >? COMPILER_IMAGE_LIMIT then Err ImageTooLarge
   else Ok (build_image code (filled DATA_CAPACITY message) cursor (length message) total)) =
  Ok (encode (compiled message value)).
Proof.
  intros Hl. rewrite emit_program_total. unfold code_buffer. cbv zeta.
  pose proof (program_length (length message) value) as Hp.
  destruct (_ >? _) eqn:E.
  - rewrite Z.gtb_ltb, Z.ltb_lt in E.
    unfold COMPILER_IMAGE_LIMIT, NATIVE_IMAGE_HEADER, DATA_CAPACITY in *. lia.
  - change (Z.to_nat NATIVE_IMAGE_HEADER) with 24%nat. by rewrite build_image_encode.
Qed.

Lemma accepted_source_spec language source :
  accepted_source language source ↔
  (str_len source >? SOURCE_LIMIT) = false ∧ negb (str_is_ascii source) = false ∧
  negb (existsb (λ marker, str_contains marker source)
          (NativeLanguage_entry_markers language)) = false.
Proof.
  assert (Forall (λ c, c < 128) source ↔ str_is_ascii source = true) as Ha.
  { unfold str_is_ascii. rewrite forallb_forall, Forall_forall. setoid_rewrite Z.ltb_lt.
    by setoid_rewrite list_elem_of_In. }
  assert (∀ m, str_contains m source = true ↔ ∃ pre rest, source = pre ++ m ++ rest) as Hc.
  { intros m. rewrite <- str_find_occurs. unfold str_contains, is_Some.
    destruct (str_find m source); naive_solver. }
  unfold accepted_source, mentions. rewrite Z.gtb_ltb, Z.ltb_ge, !negb_false_iff, existsb_elem, Ha.
  setoid_rewrite Hc. change SOURCE_LIMIT with 32768.
  split; intros (H1 & H2 & H3); rewrite str_len_ascii in *; naive_solver.
Qed.

(** The front end: what is logged, and the exit value. *)
Lemma front_end_log language source out len :
  match find_after source (NativeLanguage_log_markers language) with
  | Some arguments => parse_string arguments (replicate DATA_CAPACITY 0)
  | None => Ok (replicate DATA_CAPACITY 0, 0%nat)
  end = Ok (out, len) ↔
  ∃ message, logs language source message ∧ out = filled DATA_CAPACITY message ∧ len = length message.
Proof.
  unfold logs. destruct (find_after _ _) as [a|] eqn:E.
  - apply find_after_Some in E. rewrite parse_string_spec. split.
    + intros (s & ? & ? & -> & ->). eauto 10.
    + intros (s & [[[] _]|(a' & Ha & ? & ?)] & -> & ->).
      * destruct E as [(pre & m & ? & ?) _]. by exists pre, m, a.
      * rewrite (after_first_functional _ _ _ _ E Ha). eauto.
  - apply find_after_None in E. rewrite <- filled_nil. split.
    + intros [= <- <-]. exists []. eauto.
    + intros (s & [[_ ->]|(a & [(pre & m & ? & ?) _] & _)] & -> & ->); [done|].
      destruct E. by exists pre, m, a.
Qed.

Lemma front_end_exit language source value :
  match find_after source (NativeLanguage_exit_markers language) with
  | Some arguments => parse_result arguments
  | None => Ok 0
  end = Ok value ↔ exits language source value.
Proof.
  unfold exits. destruct (find_after _ _) as [a|] eqn:E.
  - apply find_after_Some in E. rewrite parse_result_spec. split; [eauto|].
    intros [[[] _]|(a' & Ha & ?)].
    + destruct E as [(pre & m & ? & ?) _]. by exists pre, m, a.
    + by rewrite (after_first_functional _ _ _ _ E Ha).
  - apply find_after_None in E. split; [intros [= <-]; by left|].
    intros [[_ ->]|(a & [(pre & m & ? & ?) _] & _)]; [done|]. destruct E. by exists pre, m, a.
Qed.

(** ** Properties *)

(** C39.  The compiler is correct for its source profile.  It produces an image
    exactly for the ASCII sources of at most 32 KiB that hold an entry marker,
    whose text behind the first log marker, if there is one, begins with a
    string literal that fits the data window, and whose text behind the first
    exit marker begins with a decimal numeral below 2^64 (0 without a marker).
    The image is then the encoding of the program that
    logs that string (if any) and exits with that value.  Code emission never
    overflows its buffer, and the EXF1 parser loads the image back: version 1,
    entry at 0, the string as its data, at most 4096 bytes. *)
Theorem compile_emits_loadable_image (language : NativeLanguage) (source : str)
    (bytes : list Z) :
  compile language source = Ok bytes ↔
  ∃ message value,
    accepted_source language source ∧ logs language source message ∧
    exits language source value ∧ 0 ≤ value ≤ u64_max ∧
    bytes = encode (compiled message value) ∧
    NativeImage_parse bytes = Ok (compiled message value) ∧ Zlength bytes ≤ 4096.
Proof.
  unfold compile. split.
  - destruct (str_len source >? SOURCE_LIMIT) eqn:E1; [done|].
    destruct (negb (str_is_ascii source)) eqn:E2; [done|].
    destruct (negb (existsb _ _)) eqn:E3; [done|]. intros H.
    apply let_ok in H as ([out len] & (message & Hm & -> & ->)%front_end_log & H).
    apply let_ok in H as (value & Hv%front_end_exit & H).
    pose proof (logs_length _ _ _ Hm) as Hl. rewrite back_end in H by done. apply Ok_inj in H as <-.
    exists message, value. split_and!; try done; try (by eapply exits_range).
    + by apply accepted_source_spec.
    + by apply encode_parse, compiled_ok.
    + unfold Zlength. rewrite encode_length. cbn [compiled img_code img_data].
      pose proof (program_length (length message) value). unfold DATA_CAPACITY in Hl. lia.
  - intros (message & value & Hacc & Hm & Hv & _ & -> & _).
    apply accepted_source_spec in Hacc as (-> & -> & ->).
    pose proof (logs_length _ _ _ Hm) as Hl. rewrite <- (back_end message value Hl).
    rewrite (proj2 (front_end_log language source (filled DATA_CAPACITY message) (length message)))
      by eauto.
    by rewrite (proj2 (front_end_exit language source value) Hv).
Qed.

(** ** Witness

    [int main(void) { expos_log('hi'); return 41; }] *)

Definition demo_source : str := lit "int main(void) { expos_log('hi'); return 41; }".

Example compile_demo :
  compile LangC demo_source = Ok (encode (compiled (lit "hi") 41)).
Proof. vm_compute. reflexivity. Qed.
