(* ===== verification/Bootstrap.v ===== *)
(** * The bootstrap path

    [bootstrap_with_identity] of crates/expos-core/src/lib.rs, with the
    allocator, as the kernel builds it: the one function that runs every
    component of the core in sequence.  An assertion or [expect] on the way is
    the outcome [Panics]. *)

From stdpp Require Import prelude list strings.
From Stdlib Require Import ZArith Lia.
From S2P Require Import Prelude Identity Cfc Scope Budget Capability.
From S2P Require Import Blob ExpFs Registry Pimp Diese.

Set Default Goal Selector "!".
Open Scope Z_scope.
Open Scope expos_scope.

(** ** Data *)

Definition DEVELOPMENT_CFC_FIN : CfcFin :=
  CfcFin_from_u128 0x43464300000000000000000000000001.

Inductive BootError :=
  | BootRegistryFull | BootDuplicateFin | BootMissingForm | BootMissingDimension
  | BootPolicyRejected | BootAccessDenied | BootStorageFailure | BootCfcRejected
  | BootScopeRejected | BootBudgetRejected.

Record BootReport := MkBootReport {
  br_cfc_fin : CfcFin; br_cfc_name : Text; br_root_fin : Fin; br_stable_fin : Fin;
  br_handle_id : Z; br_journal_sequence : Z; br_network_restricted : bool; br_isolated : bool }.

(** [x = e.map_err(|_| err)?] for a [Result] and for a method call. *)
Notation "'try' x := e 'else' err 'in' k" :=
  (match e with Ok x => k | Err _ => Returns (Err err) end)
    (at level 10, x pattern, e at level 100, err at level 100, k at level 200) : expos_scope.
Notation "'call' s , x := e 'else' err 'in' k" :=
  (match e with (s, Ok x) => k | (_, Err _) => Returns (Err err) end)
    (at level 10, s name, x pattern, e at level 100, err at level 100, k at level 200)
    : expos_scope.
(** A constructor that panics, or a call that may. *)
Notation "'expect' x := e 'in' k" :=
  (match e with Some x => k | None => Panics end)
    (at level 10, x pattern, e at level 100, k at level 200) : expos_scope.

(** ** Operations *)

Definition BOOT_ROOT_FIN : Fin := Fin_from_u128 0x48455841000000000000000000000001.

(** [use=service], [network=restricted], [isolation=enabled], one per line. *)
Definition BOOT_POLICY : str :=
  lit "use=service" ++ [NEWLINE] ++ lit "network=restricted" ++ [NEWLINE] ++
  lit "isolation=enabled".

Definition bootstrap_with_identity (cfc_fin : CfcFin) (cfc_name : Text) (stable_fin : Fin)
    (stable_name : Text) : outcome (result BootReport BootError) :=
  let root_fin := BOOT_ROOT_FIN in
  try cfc := Cfc_new cfc_fin (Text_as_str cfc_name) stable_fin else BootCfcRejected in
  call cfc, _ := Cfc_own_form cfc root_fin else BootCfcRejected in
  call cfc, _ := Cfc_bind cfc root_fin stable_fin else BootCfcRejected in
  let registry := FormRegistry_new in
  expect root := Form_new root_fin (lit "Root") KindRoot in
  match FormRegistry_register registry root with
  | (_, Err RegDuplicateFin) => Returns (Err BootDuplicateFin)
  | (_, Err _) => Returns (Err BootRegistryFull)
  | (registry, Ok _) =>
  expect stable := Dimension_new stable_fin (Text_as_str stable_name) true in
  call registry, _ := FormRegistry_add_dimension registry stable else BootRegistryFull in
  call registry, _ := FormRegistry_bind registry root_fin stable_fin 1 Visible
    else BootMissingForm in
  try defaults := PimpSpec_parse ScopeBuiltIn root_fin None BOOT_POLICY
    else BootPolicyRejected in
  call diese, _ := Diese_push Diese_new defaults else BootPolicyRejected in
  try resolution := Diese_resolve diese root_fin stable_fin else BootPolicyRejected in
  try scope := ExpScope_new cfc stable_fin root_fin else BootScopeRejected in
  call scope, _ := ExpScope_allow scope root_fin else BootScopeRejected in
  expect broker := CapabilityBroker_new cfc_fin in
  call broker, handle :=
    CapabilityBroker_issue_for broker root_fin Operator root_fin stable_fin
      (Operations_union Ops_READ Ops_EXECUTE) 100 else BootAccessDenied in
  call broker, _ := CapabilityBroker_seal_context broker root_fin stable_fin
    else BootAccessDenied in
  let budget := ExpBudget_uniform (cfc_fin, stable_fin, root_fin) 64 in
  call budget, _ := ExpBudget_configure budget FormOperations 32 64 else BootBudgetRejected in
  call budget, _ := ExpBudget_charge budget FormOperations 1 else BootBudgetRejected in
  expect store := ExpFs_new cfc in
  let transaction := ExpFs_begin store in
  call transaction, _ := Transaction_stage_form transaction root_fin stable_fin 1
    else BootStorageFailure in
  match ExpFs_commit store transaction with
  | Panics => Panics
  | OutOfFuel => OutOfFuel
  | Returns (_, Err _) => Returns (Err BootStorageFailure)
  | Returns (_, Ok sequence) =>
      Returns (Ok (MkBootReport cfc_fin (Cfc.cfc_name cfc) root_fin stable_fin (fh_id handle)
                     sequence (res_network resolution ==? Some NetRestricted)
                     (res_isolation resolution ==? Some true)))
  end end.

Definition bootstrap_demo : outcome (result BootReport BootError) :=
  expect name := match Text_new (lit "ExpOS Development") with Ok t => Some t | Err _ => None end in
  expect stable := match Text_new (lit "Stable") with Ok t => Some t | Err _ => None end in
  bootstrap_with_identity DEVELOPMENT_CFC_FIN name
    (Fin_from_u128 0x44494d00000000000000000000000001) stable.

(** ** Lemmas: each stage on symbolic identities *)

Section stages.
Context (fin : CfcFin) (name : Text) (root stable : Fin).
Hypothesis fin_nonzero : CfcFin_is_zero fin = false.
Hypothesis root_nonzero : Fin_is_zero root = false.
Hypothesis stable_nonzero : Fin_is_zero stable = false.
Hypothesis root_not_stable : bool_decide (root = stable) = false.
Hypothesis stable_not_root : bool_decide (stable = root) = false.

Lemma same_fin (x : Fin) : bool_decide (x = x) = true.
Proof. by apply bool_decide_eq_true. Qed.

Lemma same_cfc_fin (x : CfcFin) : bool_decide (x = x) = true.
Proof. by apply bool_decide_eq_true. Qed.

Ltac stage :=
  repeat first
    [ progress simpl
    | rewrite same_fin | rewrite same_cfc_fin | rewrite root_nonzero | rewrite stable_nonzero
    | rewrite fin_nonzero | rewrite root_not_stable | rewrite stable_not_root ].

Definition boot_cfc0 : Cfc :=
  MkCfc fin name stable (replicate 7 None) (replicate 16 None) (replicate 32 None).
Definition boot_cfc1 : Cfc :=
  MkCfc fin name stable (replicate 7 None) (Some root :: replicate 15 None) (replicate 32 None).
Definition boot_cfc : Cfc :=
  MkCfc fin name stable (replicate 7 None) (Some root :: replicate 15 None)
    (Some (MkCfcBinding root stable) :: replicate 31 None).

Lemma boot_own_form : Cfc_own_form boot_cfc0 root = (boot_cfc1, Ok tt).
Proof using root_nonzero root_not_stable.
  unfold Cfc_own_form, Cfc_owns_form, Cfc_owns_dimension. by stage.
Qed.

Lemma boot_bind : Cfc_bind boot_cfc1 root stable = (boot_cfc, Ok tt).
Proof using root_nonzero root_not_stable.
  unfold Cfc_bind, Cfc_owns_form, Cfc_owns_dimension, Cfc_is_bound. by stage.
Qed.

Definition boot_registry (form : Form) (dimension : option Dimension) (bound : option Binding)
    : FormRegistry :=
  MkRegistry (Some form :: replicate 15 None) (dimension :: replicate 7 None)
    (bound :: replicate 31 None).

Lemma boot_register form :
  form_fin form = root → FormRegistry_register FormRegistry_new form =
  (boot_registry form None None, Ok tt).
Proof using. done. Qed.

Lemma boot_add_dimension form dimension :
  form_fin form = root → dim_fin dimension = stable →
  FormRegistry_add_dimension (boot_registry form None None) dimension =
  (boot_registry form (Some dimension) None, Ok tt).
Proof using root_not_stable.
  intros Hf Hd. unfold FormRegistry_add_dimension, fin_in_use, FormRegistry_form,
    FormRegistry_dimension. simpl. rewrite Hf, Hd. by stage.
Qed.

Lemma boot_registry_bind form dimension :
  form_fin form = root → dim_fin dimension = stable →
  FormRegistry_bind (boot_registry form (Some dimension) None) root stable 1 Visible =
  (boot_registry form (Some dimension) (Some (MkBinding root stable 1 Visible)), Ok tt).
Proof using.
  intros Hf Hd. unfold FormRegistry_bind, FormRegistry_form, FormRegistry_dimension.
  simpl. rewrite Hf, Hd. by stage.
Qed.

Lemma boot_scope :
  ∃ scope scope', ExpScope_new boot_cfc stable root = Ok scope ∧
    ExpScope_allow scope root = (scope', Ok tt).
Proof using.
  unfold ExpScope_new. simpl. unfold Cfc_owns_dimension, Cfc_owns_form. stage.
  eexists _, _. split; [done|].
  unfold ExpScope_allow, ExpScope_validate_target, ExpScope_contains. by stage.
Qed.

Lemma boot_broker :
  ∃ broker broker1 broker2 handle seal,
    CapabilityBroker_new fin = Some broker ∧
    CapabilityBroker_issue_for broker root Operator root stable
      (Operations_union Ops_READ Ops_EXECUTE) 100 = (broker1, Ok handle) ∧ fh_id handle = 1 ∧
    CapabilityBroker_seal_context broker1 root stable = (broker2, Ok seal).
Proof using fin_nonzero root_nonzero stable_nonzero.
  unfold CapabilityBroker_new. stage.
  eexists _, _, _, _, _. split; [done|]. split; [|split; [shelve|]].
  - unfold CapabilityBroker_issue_for, CapabilityBroker_is_sealed, CapabilityBroker_seal. stage.
    reflexivity.
  - unfold CapabilityBroker_seal_context, CapabilityBroker_is_sealed, CapabilityBroker_seal. stage.
    reflexivity.
  Unshelve. done.
Qed.

Lemma boot_policy :
  ∃ spec diese res, PimpSpec_parse ScopeBuiltIn root None BOOT_POLICY = Ok spec ∧
    Diese_push Diese_new spec = (diese, Ok tt) ∧ Diese_resolve diese root stable = Ok res ∧
    res_network res = Some NetRestricted ∧ res_isolation res = Some true.
Proof using.
  eexists _, _, _. split; [vm_compute; reflexivity|]. split; [done|].
  unfold Diese_resolve. cbn [diese_specs flatten resolve_specs applies_to]. unfold applies_to. cbn [ps_target ps_dimension].
  rewrite same_fin. cbn. done.
Qed.

Lemma boot_store :
  Cfc_validate boot_cfc = Ok tt →
  ∃ store tx store', ExpFs_new boot_cfc = Some store ∧
    Transaction_stage_form (ExpFs_begin store) root stable 1 = (tx, Ok tt) ∧
    ExpFs_commit store tx = Returns (store', Ok 1).
Proof using root_nonzero stable_nonzero.
  intros Hv. unfold ExpFs_new. rewrite Hv. eexists _, _, _. split; [done|].
  split.
  - unfold Transaction_stage_form, Transaction_stage_content, ExpFs_begin, Cfc_owns_form,
      Cfc_owns_dimension. stage. reflexivity.
  - unfold ExpFs_commit. cbv zeta. cbn [tx_cfc fs_cfc set_field].
    rewrite bool_decide_true by done. stage.
    reflexivity.
Qed.
End stages.

Lemma boot_cfc_valid fin text name root stable :
  Cfc_new fin text stable = Ok (boot_cfc0 fin name stable) → Fin_is_zero root = false →
  bool_decide (root = stable) = false → Cfc_validate (boot_cfc fin name root stable) = Ok tt.
Proof.
  intros Hn Hr Hd. apply validate_wf, reachable_wf.
  pose proof (boot_own_form fin name root stable Hr Hd) as H1.
  pose proof (boot_bind fin name root stable Hr Hd) as H2.
  replace (boot_cfc fin name root stable)
    with (Cfc_bind (boot_cfc1 fin name root stable) root stable).1 by (by rewrite H2).
  apply reach_bind.
  replace (boot_cfc1 fin name root stable)
    with (Cfc_own_form (boot_cfc0 fin name stable) root).1 by (by rewrite H1).
  by eapply reach_own, reach_new.
Qed.

Lemma boot_root_form : ∃ form, Form_new BOOT_ROOT_FIN (lit "Root") KindRoot = Some form ∧
  form_fin form = BOOT_ROOT_FIN.
Proof. eexists. split; [vm_compute; reflexivity|]. vm_compute. reflexivity. Qed.

Lemma boot_budget (ctx : CfcFin * Fin * Fin) :
  ∃ b1 b2, ExpBudget_configure (ExpBudget_uniform ctx 64) FormOperations 32 64 = (b1, Ok tt) ∧
    ExpBudget_charge b1 FormOperations 1 = (b2, Ok 1).
Proof. eexists _, _. split; [vm_compute; reflexivity|]. vm_compute. reflexivity. Qed.

(** ** Properties *)

(** Bootstrap is decided by its four inputs.  It rejects the CFC when an
    identity is zero, the Dimension reuses the Root Form's FIN or the CFC name
    is blank; it panics exactly when those are fine and the Dimension name is
    empty; in every other case no later stage can fail, and the report names
    Handle 1, journal sequence 1, a restricted network and isolation. *)
Theorem bootstrap_decides (cfc_fin : CfcFin) (cfc_name : Text) (stable_fin : Fin)
    (stable_name : Text) :
  bootstrap_with_identity cfc_fin cfc_name stable_fin stable_name =
  match Text_new (str_trim (Text_as_str cfc_name)) with
  | Err _ => Returns (Err BootCfcRejected)
  | Ok name =>
      if CfcFin_is_zero cfc_fin || Fin_is_zero stable_fin || (stable_fin ==? BOOT_ROOT_FIN)
      then Returns (Err BootCfcRejected)
      else match Text_new (Text_as_str stable_name) with
           | Err _ => Panics
           | Ok _ => Returns (Ok (MkBootReport cfc_fin name BOOT_ROOT_FIN stable_fin 1 1 true true))
           end
  end.
Proof.
  assert (Fin_is_zero BOOT_ROOT_FIN = false) as Hroot by (vm_compute; reflexivity).
  unfold bootstrap_with_identity. cbv zeta.
  destruct boot_root_form as (root_form & -> & Hrf). generalize dependent BOOT_ROOT_FIN.
  intros root Hroot Hrf.
  unfold Cfc_new at 1. destruct (CfcFin_is_zero cfc_fin) eqn:Hfin; [by destruct (Text_new _)|].
  destruct (Fin_is_zero stable_fin) eqn:Hst; [by destruct (Text_new _)|].
  destruct (Text_new (str_trim (Text_as_str cfc_name))) as [name|] eqn:Hname; [|done].
  cbn [map_err orb].
  change (MkCfc cfc_fin name stable_fin _ _ _) with (boot_cfc0 cfc_fin name stable_fin).
  destruct (bool_decide (stable_fin = root)) eqn:Hsr.
  { apply bool_decide_eq_true in Hsr as ->. unfold Cfc_own_form. rewrite Hroot.
    unfold Cfc_owns_form, Cfc_owns_dimension. simpl. by rewrite same_fin. }
  assert (bool_decide (root = stable_fin) = false) as Hrs.
  { apply bool_decide_eq_false_1 in Hsr. by apply bool_decide_eq_false. }
  assert (Cfc_new cfc_fin (Text_as_str cfc_name) stable_fin =
    Ok (boot_cfc0 cfc_fin name stable_fin)) as Hnew.
  { unfold Cfc_new. by rewrite Hfin, Hst, Hname. }
  rewrite boot_own_form, boot_bind, (boot_register root) by done.
  unfold Dimension_new. rewrite Hst. destruct (Text_new (Text_as_str stable_name)); [|done].
  rewrite (boot_add_dimension root stable_fin), (boot_registry_bind root stable_fin) by done.
  destruct (boot_policy root stable_fin) as (spec & diese & res & -> & -> & -> & -> & ->).
  destruct (boot_scope cfc_fin name root stable_fin) as (scope & scope' & -> & ->).
  destruct (boot_broker cfc_fin root stable_fin) as (b & b1 & b2 & h & seal & -> & -> & -> & ->);
    [done..|].
  destruct (boot_budget (cfc_fin, stable_fin, root)) as (bud1 & bud2 & -> & ->).
  destruct (boot_store cfc_fin name root stable_fin) as (store & tx & store' & -> & -> & ->);
    [done|done|by eapply boot_cfc_valid|].
  done.
Qed.

(** The development image boots. *)
Example bootstrap_demo_report :
  ∃ name, Text_new (lit "ExpOS Development") = Ok name ∧
  bootstrap_demo =
    Returns (Ok (MkBootReport DEVELOPMENT_CFC_FIN name BOOT_ROOT_FIN
                   (Fin_from_u128 0x44494d00000000000000000000000001) 1 1 true true)).
Proof. eexists. split; [vm_compute; reflexivity|]. vm_compute. reflexivity. Qed.
