(* ===== verification/Http.v ===== *)
(** * HTTP responses

    The bounded response decoder of crates/expos-core/src/http.rs: chunked
    bodies, header fields, and the reply format between the network worker and
    its clients. *)

From stdpp Require Import prelude list strings.
From Stdlib Require Import ZArith Lia.
From S2P Require Import Prelude Identity Bytes.

Set Default Goal Selector "!".
Open Scope Z_scope.
Open Scope expos_scope.

(** ** Data *)

Definition HTTP_BODY_CAPACITY : nat := Z.to_nat (56 * 1024).
Definition HTTP_LOCATION_CAPACITY : nat := Z.to_nat 512.
Definition HTTP_CONTENT_TYPE_CAPACITY : nat := Z.to_nat 96.
Definition HTTP_COOKIE_CAPACITY : nat := Z.to_nat 384.
Arguments HTTP_BODY_CAPACITY : simpl never.
Arguments HTTP_LOCATION_CAPACITY : simpl never.
Arguments HTTP_CONTENT_TYPE_CAPACITY : simpl never.
Arguments HTTP_COOKIE_CAPACITY : simpl never.

Inductive HttpError := MalformedHttp.

Record HttpResponse := MkResponse {
  hr_status : Z; hr_body_buf : list Z; hr_body_len : nat; hr_truncated : bool; hr_peer : list Z;
  hr_location_buf : list Z; hr_location_len : nat;
  hr_content_type_buf : list Z; hr_content_type_len : nat;
  hr_set_cookie_buf : list Z; hr_set_cookie_len : nat }.

Definition HttpResponse_body (self : HttpResponse) : list Z :=
  take (hr_body_len self) (hr_body_buf self).

(** [(len != 0).then(|| ..)]: the bytes handed to [from_utf8_unchecked]. *)
Definition field_text (buffer : list Z) (len : nat) : option (list Z) :=
  if (len =? 0)%nat then None else Some (take len buffer).
Definition HttpResponse_location (self : HttpResponse) : option (list Z) :=
  field_text (hr_location_buf self) (hr_location_len self).
Definition HttpResponse_content_type (self : HttpResponse) : option (list Z) :=
  field_text (hr_content_type_buf self) (hr_content_type_len self).
Definition HttpResponse_set_cookie (self : HttpResponse) : option (list Z) :=
  field_text (hr_set_cookie_buf self) (hr_set_cookie_len self).

(** ** Scanning *)

Definition CRLF : list Z := [13; 10].

Definition find_bytes (haystack needle : list Z) : option nat :=
  if is_empty needle then Some O else str_find needle haystack.

Definition is_blank (byte : Z) : bool := (byte =? 32) || (byte =? 9).

(** The digit loop that [parse_ascii_usize] and [parse_chunk_size] share, in
    its base and digit test: blanks are skipped wherever they stand. *)
Fixpoint digits_loop (base : Z) (digit : Z → option Z) (value : Z) (found : bool)
    (bytes : list Z) : option Z :=
  match bytes with
  | [] => if found then Some value else None
  | byte :: bytes' =>
      if is_blank byte then digits_loop base digit value found bytes'
      else match digit byte with
           | None => None
           | Some d =>
               match checked_mul usize_max value base with
               | None => None
               | Some v =>
                   match checked_add usize_max v d with
                   | None => None
                   | Some v => digits_loop base digit v true bytes'
                   end
               end
           end
  end.

Definition decimal_digit (byte : Z) : option Z :=
  if is_ascii_digit byte then Some (byte - 48) else None.

Definition hexadecimal_digit (byte : Z) : option Z :=
  if (48 <=? byte) && (byte <=? 57) then Some (byte - 48)
  else if (97 <=? byte) && (byte <=? 102) then Some (byte - 97 + 10)
  else if (65 <=? byte) && (byte <=? 70) then Some (byte - 65 + 10)
  else None.

Definition parse_ascii_usize (bytes : list Z) : option Z :=
  digits_loop 10 decimal_digit 0 false bytes.

(** [line.split(|byte| *byte == b';').next()] *)
Fixpoint before_semicolon (line : list Z) : list Z :=
  match line with
  | [] => []
  | byte :: line' => if byte =? 59 then [] else byte :: before_semicolon line'
  end.

Definition parse_chunk_size (line : list Z) : option Z :=
  digits_loop 16 hexadecimal_digit 0 false (before_semicolon line).

(** ** Chunked bodies *)

(** The [loop] of [decode_chunked].  The slice [input[input_offset..]] and the
    two sides of the copy panic when out of range. *)
Fixpoint chunk_loop (fuel : nat) (input : list Z) (input_offset : nat) (output : list Z)
    (output_length : nat) : outcome (list Z * result (nat * bool) HttpError) :=
  match fuel with
  | O => OutOfFuel
  | S fuel' =>
      if (length input <? input_offset)%nat then Panics
      else match find_bytes (drop input_offset input) CRLF with
      | None => Returns (output, Err MalformedHttp)
      | Some relative =>
      let line_end := (input_offset + relative)%nat in
      match parse_chunk_size (slice input input_offset (line_end - input_offset)) with
      | None => Returns (output, Err MalformedHttp)
      | Some chunk_length =>
      let input_offset := (line_end + 2)%nat in
      if chunk_length =? 0 then Returns (output, Ok (output_length, false))
      else match checked_add usize_max (Z.of_nat input_offset) chunk_length with
      | None => Returns (output, Err MalformedHttp)
      | Some chunk_end =>
      if negb match checked_add usize_max chunk_end 2 with
              | Some tail => tail <=? Zlength input
              | None => false
              end
      then Returns (output, Err MalformedHttp)
      else
        let chunk_end := Z.to_nat chunk_end in
        let chunk_length := Z.to_nat chunk_length in
        if slice input chunk_end 2 !=? CRLF then Returns (output, Err MalformedHttp)
        else
          let remaining := (length output - output_length)%nat in
          let copied := (chunk_length `min` remaining)%nat in
          if (length output <? output_length + copied)%nat ||
             (length input <? input_offset + copied)%nat
          then Panics
          else
            let output := splice output output_length (slice input input_offset copied) in
            let output_length := (output_length + copied)%nat in
            if negb (copied =? chunk_length)%nat
            then Returns (output, Ok (output_length, true))
            else chunk_loop fuel' input (chunk_end + 2) output output_length
      end end end
  end.

(** Every round moves past a line end, so the input length bounds them. *)
Definition decode_chunked (input output : list Z)
    : outcome (list Z * result (nat * bool) HttpError) :=
  chunk_loop (S (length input)) input 0 output 0.

(** ** Header fields *)

Definition to_ascii_lowercase (c : Z) : Z := if (65 <=? c) && (c <=? 90) then c + 32 else c.
Definition eq_ignore_ascii_case (a b : list Z) : bool :=
  (to_ascii_lowercase <$> a) ==? (to_ascii_lowercase <$> b).

(** [u8::is_ascii_whitespace] and [<[u8]>::trim_ascii] *)
Definition is_ascii_whitespace (c : Z) : bool :=
  (c =? 32) || (c =? 9) || (c =? 10) || (c =? 12) || (c =? 13).
Fixpoint trim_ascii_start (s : list Z) : list Z :=
  match s with
  | [] => []
  | c :: s' => if is_ascii_whitespace c then trim_ascii_start s' else s
  end.
Definition trim_ascii (s : list Z) : list Z :=
  rev (trim_ascii_start (rev (trim_ascii_start s))).

(** [value.windows(7).any(|part| part.eq_ignore_ascii_case(b"chunked"))] *)
Definition CHUNKED : list Z := lit "chunked".
Fixpoint mentions_chunked (value : list Z) : bool :=
  eq_ignore_ascii_case (take 7 value) CHUNKED ||
  match value with [] => false | _ :: value' => mentions_chunked value' end.

(** The locals of the header loop. *)
Record Headers := MkHeaders {
  h_content_length : option Z; h_chunked : bool;
  h_location : list Z; h_location_len : nat;
  h_content_type : list Z; h_content_type_len : nat;
  h_set_cookie : list Z; h_set_cookie_len : nat }.

Definition Headers_eta (r : Headers) : Headers :=
  MkHeaders (h_content_length r) (h_chunked r) (h_location r) (h_location_len r)
    (h_content_type r) (h_content_type_len r) (h_set_cookie r) (h_set_cookie_len r).
#[export] Instance set_h_content_length : Setter h_content_length := ltac:(build_setter Headers_eta).
#[export] Instance set_h_chunked : Setter h_chunked := ltac:(build_setter Headers_eta).
#[export] Instance set_h_location : Setter h_location := ltac:(build_setter Headers_eta).
#[export] Instance set_h_location_len : Setter h_location_len := ltac:(build_setter Headers_eta).
#[export] Instance set_h_content_type : Setter h_content_type := ltac:(build_setter Headers_eta).
#[export] Instance set_h_content_type_len : Setter h_content_type_len :=
  ltac:(build_setter Headers_eta).
#[export] Instance set_h_set_cookie : Setter h_set_cookie := ltac:(build_setter Headers_eta).
#[export] Instance set_h_set_cookie_len : Setter h_set_cookie_len :=
  ltac:(build_setter Headers_eta).

Definition Headers_new : Headers :=
  MkHeaders None false (replicate HTTP_LOCATION_CAPACITY 0) 0
    (replicate HTTP_CONTENT_TYPE_CAPACITY 0) 0 (replicate HTTP_COOKIE_CAPACITY 0) 0.

Definition in_range (minimum byte : Z) : bool := (minimum <=? byte) && (byte <=? 0x7E).

(** The body the three text fields share: trim, check, copy. *)
Definition store_field (minimum : Z) (value buffer : list Z) : result (list Z * nat) HttpError :=
  let value := trim_ascii value in
  if is_empty value || (length buffer <? length value)%nat || negb (forallb (in_range minimum) value)
  then Err MalformedHttp
  else Ok (splice buffer 0 value, length value).

Definition header_field (h : Headers) (name value : list Z) : result Headers HttpError :=
  if eq_ignore_ascii_case name (lit "content-length") then
    match parse_ascii_usize value with
    | Some n => Ok (h <| h_content_length := Some n |>)
    | None => Err MalformedHttp
    end
  else if eq_ignore_ascii_case name (lit "location") then
    let? p := store_field 0x21 value (h_location h) in
    Ok (h <| h_location := p.1 |> <| h_location_len := p.2 |>)
  else if eq_ignore_ascii_case name (lit "content-type") then
    let? p := store_field 0x20 value (h_content_type h) in
    Ok (h <| h_content_type := p.1 |> <| h_content_type_len := p.2 |>)
  else if eq_ignore_ascii_case name (lit "set-cookie") && (h_set_cookie_len h =? 0)%nat then
    let? p := store_field 0x20 value (h_set_cookie h) in
    Ok (h <| h_set_cookie := p.1 |> <| h_set_cookie_len := p.2 |>)
  else if eq_ignore_ascii_case name (lit "transfer-encoding") && mentions_chunked value then
    Ok (h <| h_chunked := true |>)
  else Ok h.

Definition header_line (h : Headers) (line : list Z) : result Headers HttpError :=
  match position (λ byte, byte =? 58) line with
  | Some colon => header_field h (take colon line) (drop (colon + 1) line)
  | None => Ok h
  end.

(** [while cursor < header_end]; [rest] is [wire[cursor..header_end]]. *)
Fixpoint header_loop (fuel : nat) (h : Headers) (rest : list Z)
    : outcome (result Headers HttpError) :=
  match fuel with
  | O => OutOfFuel
  | S fuel' =>
      if is_empty rest then Returns (Ok h)
      else
        let line_length := default (length rest) (find_bytes rest CRLF) in
        match header_line h (take line_length rest) with
        | Err e => Returns (Err e)
        | Ok h => header_loop fuel' h (drop (line_length + 2) rest)
        end
  end.

(** ** The response *)

Definition parse_status (status_line : list Z) : result Z HttpError :=
  if negb (str_starts_with (lit "HTTP/1.") status_line) then Err MalformedHttp
  else match position (λ byte, byte =? 32) status_line with
  | None => Err MalformedHttp
  | Some first_space =>
      match drop (first_space + 1) status_line with
      | a :: b :: c :: _ =>
          if negb (forallb is_ascii_digit [a; b; c]) then Err MalformedHttp
          else Ok ((a - 48) * 100 + (b - 48) * 10 + (c - 48))
      | _ => Err MalformedHttp
      end
  end.

(** The body: chunked, or as long as announced, or all of it. *)
Definition decode_body (h : Headers) (encoded_body : list Z) (wire_truncated : bool)
    : outcome (result (list Z * nat * bool) HttpError) :=
  let body := replicate HTTP_BODY_CAPACITY 0 in
  if h_chunked h then
    match decode_chunked encoded_body body with
    | Returns (body, Ok (length_, truncated)) =>
        Returns (Ok (body, length_, truncated || wire_truncated))
    | Returns (_, Err e) => Returns (Err e)
    | Panics => Panics
    | OutOfFuel => OutOfFuel
    end
  else
    let expected := default (Zlength encoded_body) (h_content_length h) in
    if (Zlength encoded_body <? expected) && negb wire_truncated
    then Returns (Err MalformedHttp)
    else
      let available := Z.min expected (Zlength encoded_body) in
      let body_len := Z.to_nat (Z.min available (Zlength body)) in
      Returns (Ok (splice body 0 (take body_len encoded_body), body_len,
        (expected >? Zlength body) || (available <? expected) ||
        (match h_content_length h with None => true | Some _ => false end && wire_truncated))).

Definition parse_http_response (peer wire : list Z) (wire_truncated : bool)
    : outcome (result HttpResponse HttpError) :=
  match find_bytes wire (CRLF ++ CRLF) with
  | None => Returns (Err MalformedHttp)
  | Some header_end =>
      let head := take header_end wire in
      let first_line_end := default header_end (find_bytes head CRLF) in
      match parse_status (take first_line_end head) with
      | Err e => Returns (Err e)
      | Ok status =>
          match header_loop (S header_end) Headers_new (drop (first_line_end + 2) head) with
          | Panics => Panics
          | OutOfFuel => OutOfFuel
          | Returns (Err e) => Returns (Err e)
          | Returns (Ok h) =>
              match decode_body h (drop (header_end + 4) wire) wire_truncated with
              | Panics => Panics
              | OutOfFuel => OutOfFuel
              | Returns (Err e) => Returns (Err e)
              | Returns (Ok (body, body_len, truncated)) =>
                  Returns (Ok (MkResponse status body body_len truncated peer
                    (h_location h) (h_location_len h) (h_content_type h) (h_content_type_len h)
                    (h_set_cookie h) (h_set_cookie_len h)))
              end
          end
      end
  end.

(** ** The worker reply *)

Definition reply_length (self : HttpResponse) : nat :=
  (16 + hr_body_len self + hr_location_len self + hr_content_type_len self +
   hr_set_cookie_len self)%nat.

(** The data loop of [encode]. *)
Fixpoint put_all (out : list Z) (cursor : nat) (data : list (list Z)) : list Z :=
  match data with
  | [] => out
  | d :: data' => put_all (splice out cursor d) (cursor + length d) data'
  end.

Definition HttpResponse_encode (self : HttpResponse) (out : list Z)
    : list Z * result nat HttpError :=
  if (length out <? reply_length self)%nat then (out, Err MalformedHttp)
  else
    let out := splice out 0 (le_bytes 2 (hr_status self)) in
    let out := <[2%nat := if hr_truncated self then 1 else 0]> out in
    let out := <[3%nat := 0]> out in
    let out := splice out 4 (le_bytes 2 (Z.of_nat (hr_body_len self))) in
    let out := splice out 6 (le_bytes 2 (Z.of_nat (hr_location_len self))) in
    let out := splice out 8 (le_bytes 2 (Z.of_nat (hr_content_type_len self))) in
    let out := splice out 10 (le_bytes 2 (Z.of_nat (hr_set_cookie_len self))) in
    let out := splice out 12 (hr_peer self) in
    (put_all out 16 [HttpResponse_body self;
                     take (hr_location_len self) (hr_location_buf self);
                     take (hr_content_type_len self) (hr_content_type_buf self);
                     take (hr_set_cookie_len self) (hr_set_cookie_buf self)],
     Ok (reply_length self)).

(** One round of the field loop of [decode]: check and copy into a zeroed
    buffer. *)
Definition decode_field (bytes : list Z) (capacity cursor len : nat) (minimum : Z)
    : result (list Z) HttpError :=
  let data := slice bytes cursor len in
  if negb (forallb (in_range minimum) data) then Err MalformedHttp
  else Ok (splice (replicate capacity 0) 0 data).

Definition HttpResponse_decode (bytes : list Z) : result HttpResponse HttpError :=
  if (length bytes <? 16)%nat || (byte_at bytes 2 >? 1) || (byte_at bytes 3 !=? 0)
  then Err MalformedHttp
  else
    let '(body, location, content_type, cookie) :=
      (Z.to_nat (word_at bytes 4), Z.to_nat (word_at bytes 6), Z.to_nat (word_at bytes 8),
       Z.to_nat (word_at bytes 10)) in
    if (HTTP_BODY_CAPACITY <? body)%nat || (HTTP_LOCATION_CAPACITY <? location)%nat ||
       (HTTP_CONTENT_TYPE_CAPACITY <? content_type)%nat || (HTTP_COOKIE_CAPACITY <? cookie)%nat ||
       negb (length bytes =? 16 + body + location + content_type + cookie)%nat ||
       negb ((100 <=? word_at bytes 0) && (word_at bytes 0 <=? 599))
    then Err MalformedHttp
    else
      let? l := decode_field bytes HTTP_LOCATION_CAPACITY (16 + body) location 0x21 in
      let? t := decode_field bytes HTTP_CONTENT_TYPE_CAPACITY (16 + body + location)
                  content_type 0x20 in
      let? k := decode_field bytes HTTP_COOKIE_CAPACITY (16 + body + location + content_type)
                  cookie 0x20 in
      Ok (MkResponse (word_at bytes 0)
            (splice (replicate HTTP_BODY_CAPACITY 0) 0 (slice bytes 16 body)) body
            (byte_at bytes 2 !=? 0) (slice bytes 12 4)
            l location t content_type k cookie).

(** ** Specification: the chunked coding *)

(** [line] holds no line end, also not across its own terminator. *)
Definition ends_line (line : list Z) : Prop := only_at_end CRLF line.

(** A hexadecimal digit stands at its value in the row of digits. *)
Definition hex_char (c : Z) (d : nat) : Prop :=
  lit "0123456789abcdef" !! d = Some c ∨ lit "0123456789ABCDEF" !! d = Some c.

(** A size line: hexadecimal digits, blanks among them ignored, that write a
    number of 64 bits; a semicolon ends it. *)
Definition size_line (line : list Z) (n : Z) : Prop :=
  ∃ size extension ds,
    line = size ++ extension ∧ 59 ∉ size ∧ (extension = [] ∨ head extension = Some 59) ∧
    Forall2 hex_char (filter (λ c, c ∉ lit " " ∧ c ≠ 9) size) ds ∧ ds ≠ [] ∧
    n = positional 16 ds ∧ n < 2 ^ 64.

(** [chunks input data rest]: [input] begins with chunks of total content
    [data], after which [rest] follows. *)
Inductive chunks : list Z → list Z → list Z → Prop :=
  | chunks_nil rest : chunks rest [] rest
  | chunks_cons line data input tail rest :
      ends_line line → size_line line (Zlength data) → data ≠ [] →
      chunks input tail rest →
      chunks (line ++ CRLF ++ data ++ CRLF ++ input) (data ++ tail) rest.

(** The whole body: chunks, then the line of the last chunk. *)
Definition chunked (input data : list Z) : Prop :=
  ∃ line tail, chunks input data (line ++ CRLF ++ tail) ∧ ends_line line ∧ size_line line 0.

(** ** Lemmas: numbers *)

(** The loop computes positional notation, and stops at the first overflow. *)
Lemma digits_loop_spec base digit bytes value found n :
  1 ≤ base → 0 ≤ value ≤ usize_max → (∀ c d, digit c = Some d → 0 ≤ d) →
  digits_loop base digit value found bytes = Some n ↔
  ∃ ds, Forall2 (λ c d, digit c = Some (Z.of_nat d)) (filter (λ c, is_blank c = false) bytes) ds ∧
        (found = true ∨ ds ≠ []) ∧
        n = value * base ^ Zlength ds + positional base ds ∧ n ≤ usize_max.
Proof.
  intros Hb Hv Hd. revert value found Hv.
  induction bytes as [|c bytes IH]; intros value found Hv; cbn [digits_loop].
  { rewrite filter_nil. split.
    - destruct found; [|done]. intros [= <-]. exists [].
      split_and!; [constructor|by left|by rewrite positional_start|lia].
    - intros (ds & ->%Forall2_nil_inv_l & [->|?] & -> & _); [|done]. by rewrite positional_start. }
  destruct (is_blank c) eqn:Ec; [rewrite filter_cons_False by congruence; by apply IH|].
  rewrite filter_cons_True by done.
  destruct (digit c) as [d|] eqn:Ed.
  2: { split; [done|]. intros (ds & (d & ? & ? & _)%Forall2_cons_inv_l & _). congruence. }
  pose proof (Hd c d Ed) as Hd0. unfold checked_mul, checked_add.
  transitivity (value * base + d ≤ usize_max ∧
                digits_loop base digit (value * base + d) true bytes = Some n).
  { destruct (Z.leb_spec (value * base) usize_max); [|split; [done|]; lia].
    destruct (Z.leb_spec (value * base + d) usize_max); [naive_solver|split; [done|]; lia]. }
  split.
  - intros [Hle (ds & Hds & _ & -> & Hn)%IH]; [|nia]. exists (Z.to_nat d :: ds).
    rewrite positional_cons, Z2Nat.id by done. split_and!; [|by right|done..].
    constructor; [|done]. by rewrite Z2Nat.id.
  - intros (ds' & (d' & ds & Ed' & Hds & ->)%Forall2_cons_inv_l & _ & -> & Hn).
    assert (d = Z.of_nat d') as -> by congruence. rewrite positional_cons in *.
    pose proof (positional_nonneg base ds). pose proof (pow_length_pos base ds Hb).
    assert (value * base + Z.of_nat d' ≤ usize_max) by nia. split; [done|]. apply IH; [nia|].
    naive_solver.
Qed.

Lemma hexadecimal_digit_spec c d : hexadecimal_digit c = Some (Z.of_nat d) ↔ hex_char c d.
Proof.
  unfold hex_char. split.
  - unfold hexadecimal_digit. intros H. guards; bools.
    + left. assert (d = Z.to_nat (c - 48)) as -> by lia.
      assert (c ∈ seqZ 48 10) as Hc by (apply elem_of_seqZ; lia). revert Hc. clear.
      revert c. apply Forall_forall. by repeat constructor.
    + left. assert (d = Z.to_nat (c - 97 + 10)) as -> by lia.
      assert (c ∈ seqZ 97 6) as Hc by (apply elem_of_seqZ; lia). revert Hc. clear.
      revert c. apply Forall_forall. by repeat constructor.
    + right. assert (d = Z.to_nat (c - 65 + 10)) as -> by lia.
      assert (c ∈ seqZ 65 6) as Hc by (apply elem_of_seqZ; lia). revert Hc. clear.
      revert c. apply Forall_forall. by repeat constructor.
  - intros [H|H]; do 16 (destruct d as [|d]; [by injection H as <-|]); done.
Qed.

Lemma before_semicolon_spec line size :
  before_semicolon line = size ↔
  ∃ extension, line = size ++ extension ∧ 59 ∉ size ∧ (extension = [] ∨ head extension = Some 59).
Proof.
  split.
  - intros <-. induction line as [|c line (ext & E & Hn & He)]; simpl.
    { exists []. split_and!; [done|apply not_elem_of_nil|by left]. }
    destruct (Z.eqb_spec c 59) as [->|Hc].
    + exists (59 :: line). split_and!; [done|apply not_elem_of_nil|by right].
    + exists ext. split_and!; [by rewrite E at 1|by apply not_elem_of_cons|done].
  - intros (ext & -> & Hn & He). induction size as [|c size IH]; simpl.
    + destruct He as [->|He]; [done|]. destruct ext as [|c ext]; [done|]. injection He as ->. done.
    + apply not_elem_of_cons in Hn as [Hc Hn]. rewrite (proj2 (Z.eqb_neq c 59)) by done. f_equal. auto.
Qed.

(** The parser reads exactly the size lines. *)
Lemma parse_chunk_size_spec line n : parse_chunk_size line = Some n ↔ size_line line n.
Proof.
  unfold parse_chunk_size, size_line. rewrite digits_loop_spec; [|lia|done|].
  2: { unfold hexadecimal_digit. intros c d H. guards; bools; lia. }
  assert (∀ size : list Z, filter (λ c, c ∉ lit " " ∧ c ≠ 9) size = filter (λ c, is_blank c = false) size) as Hf.
  { intros size. apply list_filter_iff. intros c. unfold is_blank. rewrite orb_false_iff, !Z.eqb_neq.
    change (lit " ") with [32]. by rewrite list_elem_of_singleton. }
  assert (∀ cs ds, Forall2 hex_char cs ds ↔ Forall2 (λ c d, hexadecimal_digit c = Some (Z.of_nat d)) cs ds) as Hh.
  { intros cs ds. split; intros H; (eapply Forall2_impl; [exact H|]); intros; by apply hexadecimal_digit_spec. }
  change usize_max with (2 ^ 64 - 1). split.
  - intros (ds & Hds & [?|Hne] & -> & Hn); [done|].
    destruct (proj1 (before_semicolon_spec line _) eq_refl) as (ext & E & Hs & He).
    exists (before_semicolon line), ext, ds. rewrite Hf. split_and!; try done; [by apply Hh|lia..].
  - intros (size & ext & ds & E & Hs & He & Hds & Hne & -> & Hn).
    rewrite (proj2 (before_semicolon_spec line size)) by eauto. rewrite Hf in Hds.
    exists ds. split_and!; [by apply Hh|by right|lia..].
Qed.

Lemma size_line_unique line n m : size_line line n → size_line line m → n = m.
Proof. rewrite <- !parse_chunk_size_spec. congruence. Qed.

Lemma size_line_nonneg line n : size_line line n → 0 ≤ n.
Proof. intros (_ & _ & ds & _ & _ & _ & _ & _ & -> & _). by apply positional_nonneg. Qed.

(** ** Lemmas: chunks *)

Lemma find_crlf s n :
  find_bytes s CRLF = Some n ↔
  ∃ line rest, s = line ++ CRLF ++ rest ∧ length line = n ∧ ends_line line.
Proof. unfold ends_line. setoid_rewrite <- str_find_first. apply str_find_Some. Qed.

Lemma find_line line rest : ends_line line → find_bytes (line ++ CRLF ++ rest) CRLF = Some (length line).
Proof. intros H. apply find_crlf. eauto. Qed.

Lemma ends_line_unique line line' rest rest' :
  ends_line line → ends_line line' → line ++ CRLF ++ rest = line' ++ CRLF ++ rest' →
  line = line' ∧ rest = rest'.
Proof.
  intros H1 H2 E. pose proof (find_line line rest H1) as F1.
  rewrite E, (find_line line' rest' H2) in F1. injection F1 as F1.
  apply app_inj_1 in E as [-> E]; [|lia]. by injection E.
Qed.

(** The first chunk of an input is determined by it. *)
Lemma chunks_inv line n rest0 data rest :
  ends_line line → size_line line n →
  chunks (line ++ CRLF ++ rest0) data rest →
  (data = [] ∧ rest = line ++ CRLF ++ rest0) ∨
  (n ≠ 0 ∧ ∃ first tail input, rest0 = first ++ CRLF ++ input ∧ Zlength first = n ∧
     data = first ++ tail ∧ chunks input tail rest).
Proof.
  intros Hl Hn H. inversion H as [|line' first input tail ? Hl' Hn' Hne Hc]; simplify_eq/=; [by left|].
  right. apply ends_line_unique in H0 as [-> <-]; [|done..].
  pose proof (size_line_unique _ _ _ Hn Hn') as ->. split; [|by exists first, tail, input].
  destruct first; [done|]. unfold Zlength. simpl. lia.
Qed.

Lemma chunks_some_line input data rest :
  chunks input data rest → data ≠ [] →
  ∃ line n rest0, input = line ++ CRLF ++ rest0 ∧ ends_line line ∧ size_line line n.
Proof. intros [?|line data' input' tail rest' Hl Hn Hne Hc] H; [done|]. eauto 8. Qed.

Lemma chunked_some_line input data :
  chunked input data →
  ∃ line n rest0, input = line ++ CRLF ++ rest0 ∧ ends_line line ∧ size_line line n.
Proof.
  intros (line & tail & Hc & Hl & Hn).
  inversion Hc as [|line' data' input' tail' ? Hl' Hn' Hne Hc']; simplify_eq/=; eauto 8.
Qed.

Lemma chunked_inv line n rest0 data :
  ends_line line → size_line line n → chunked (line ++ CRLF ++ rest0) data →
  (n = 0 ∧ data = []) ∨
  (n ≠ 0 ∧ ∃ first tail input, rest0 = first ++ CRLF ++ input ∧ Zlength first = n ∧
     data = first ++ tail ∧ chunked input tail).
Proof.
  intros Hl Hn (line' & tail' & Hc & Hl' & Hn').
  destruct (chunks_inv _ _ _ _ _ Hl Hn Hc) as [[-> E]|(Hne & first & tail & input & -> & E & -> & Hc')].
  - left. symmetry in E. apply ends_line_unique in E as [-> _]; [|done..].
    split; [by apply (size_line_unique line')|done].
  - right. split; [done|]. exists first, tail, input. repeat split; try done. by exists line', tail'.
Qed.

(** What the loop has to establish from a given state on. *)
Definition chunk_post (input output : list Z) (output_length : nat) (out : list Z)
    (r : result (nat * bool) HttpError) : Prop :=
  match r with
  | Ok (len, false) =>
      ∃ data, chunked input data ∧ len = (output_length + length data)%nat ∧
        (len ≤ length output)%nat ∧ out = splice output output_length data
  | Ok (len, true) =>
      len = length output ∧
      ∃ data rest, chunks input data rest ∧ (length output < output_length + length data)%nat ∧
        out = splice output output_length (take (length output - output_length) data)
  | Err _ =>
      (∀ data, ¬ chunked input data) ∧
      ∀ data rest, chunks input data rest → (output_length + length data ≤ length output)%nat
  end.

Lemma chunk_post_err input output olen out :
  (olen ≤ length output)%nat →
  (∀ data, ¬ chunked input data) → (∀ data rest, chunks input data rest → data = []) →
  chunk_post input output olen out (Err MalformedHttp).
Proof.
  intros Ho H1 H2. split; [done|]. intros data rest Hc. rewrite (H2 data rest Hc). simpl. lia.
Qed.

(** So does an input without a readable first line. *)
Lemma chunk_post_unsized input output olen out :
  (olen ≤ length output)%nat →
  (∀ line n rest, input = line ++ CRLF ++ rest → ends_line line →
     size_line line n → False) →
  chunk_post input output olen out (Err MalformedHttp).
Proof.
  intros Ho Hbad. apply chunk_post_err; [done|..].
  - intros data (line & n & rest & E & Hl & Hn)%chunked_some_line. eauto.
  - intros data rest Hc. destruct (decide (data = [])) as [|Hne]; [done|].
    destruct (chunks_some_line _ _ _ Hc Hne) as (line & n & rest' & E & Hl & Hn). exfalso. eauto.
Qed.

(** A refused first chunk refuses the input. *)
Lemma chunk_post_bad line n rest0 output olen out :
  ends_line line → size_line line n → n ≠ 0 → (olen ≤ length output)%nat →
  (∀ first input, rest0 = first ++ CRLF ++ input → Zlength first ≠ n) →
  chunk_post (line ++ CRLF ++ rest0) output olen out (Err MalformedHttp).
Proof.
  intros Hl Hn Hz Ho Hbad. apply chunk_post_err; [done|..].
  - intros data [[? _]|(_ & first & tail & input & E & Hlen & _)]%(chunked_inv _ n); [done| |done..].
    by eapply Hbad.
  - intros data rest [[? _]|(_ & first & tail & input & E & Hlen & _)]%(chunks_inv _ n);
      [done| |done..].
    by exfalso; eapply Hbad.
Qed.

(** The first chunk fits: the rest decides. *)
Lemma chunk_post_step line first input output olen out r :
  ends_line line → size_line line (Zlength first) → first ≠ [] →
  (olen + length first ≤ length output)%nat →
  chunk_post input (splice output olen first) (olen + length first) out r →
  chunk_post (line ++ CRLF ++ first ++ CRLF ++ input) output olen out r.
Proof.
  intros Hl Hn Hne Ho. assert (Zlength first ≠ 0) by (destruct first; [done|unfold Zlength; simpl; lia]).
  assert (∀ f' i', first ++ CRLF ++ input = f' ++ CRLF ++ i' → Zlength f' = Zlength first →
          f' = first ∧ i' = input) as Huniq.
  { unfold Zlength. intros f' i' E Hlen. apply app_inj_1 in E as [-> E]; [|lia]. by injection E. }
  unfold chunk_post. rewrite length_splice by done. destruct r as [[len []]|[]].
  - intros (-> & data & rest & Hc & Hlt & ->). split; [done|].
    exists (first ++ data), rest. rewrite length_app. repeat split; [by constructor|lia|].
    rewrite splice_splice; [|rewrite length_take; lia].
    rewrite take_app_ge by lia. do 3 f_equal. lia.
  - intros (data & (line' & tail & Hc & Hl' & Hn') & -> & Hle & ->).
    exists (first ++ data). rewrite length_app. repeat split; [|lia|lia|].
    + exists line', tail. split; [by constructor|done].
    + by rewrite splice_splice by lia.
  - intros [H1 H2]. split.
    + intros data [[? _]|(_ & f' & tail & i' & E & Hlen & -> & Hc)]%(chunked_inv _ (Zlength first));
        [done| |done..].
      destruct (Huniq _ _ E Hlen) as [-> ->]. by eapply H1.
    + intros data rest [[-> _]|(_ & f' & tail & i' & E & Hlen & -> & Hc)]%(chunks_inv _ (Zlength first));
        [simpl; lia| |done..].
      destruct (Huniq _ _ E Hlen) as [-> ->]. apply H2 in Hc. rewrite length_app. lia.
Qed.

Definition isize_max : Z := 2 ^ 63 - 1.

(** A chunk of [k] bytes and its line end. *)
Lemma first_chunk rest k :
  slice rest k 2 = CRLF ↔ ∃ first input, rest = first ++ CRLF ++ input ∧ length first = k.
Proof.
  unfold slice. split.
  - intros H. exists (take k rest), (drop (k + 2) rest).
    rewrite <- H, <- drop_drop, !take_drop, length_take. split; [done|].
    apply (f_equal length) in H. rewrite length_take, length_drop in H.
    change (length CRLF) with 2%nat in H. lia.
  - intros (first & input & -> & <-). by rewrite drop_app_length.
Qed.

(** One round on [pre ++ line ++ CRLF ++ rest], read at [length pre]. *)
Lemma chunk_loop_line fuel pre line n rest output olen :
  ends_line line → size_line line n → n ≠ 0 → (olen ≤ length output)%nat →
  Zlength (pre ++ line ++ CRLF ++ rest) ≤ isize_max →
  (∃ first input, rest = first ++ CRLF ++ input ∧ Zlength first = n ∧
     let copied := (length first `min` (length output - olen))%nat in
     chunk_loop (S fuel) (pre ++ line ++ CRLF ++ rest) (length pre) output olen =
     if negb (copied =? length first)%nat
     then Returns (splice output olen (take copied first), Ok (olen + copied, true)%nat)
     else chunk_loop fuel (pre ++ line ++ CRLF ++ rest)
            (length (pre ++ line ++ CRLF ++ first ++ CRLF))
            (splice output olen (take copied first)) (olen + copied)) ∨
  ((∀ first input, rest = first ++ CRLF ++ input → Zlength first ≠ n) ∧
   chunk_loop (S fuel) (pre ++ line ++ CRLF ++ rest) (length pre) output olen =
     Returns (output, Err MalformedHttp)).
Proof.
  intros Hl Hn Hz Ho Hmax. pose proof (size_line_nonneg _ _ Hn) as Hpos.
  cbn [chunk_loop]. rewrite (proj2 (Nat.ltb_ge _ _)) by (rewrite length_app; lia).
  rewrite drop_app_length, (find_line line rest Hl).
  replace (length pre + length line - length pre)%nat with (length line) by lia.
  assert (slice (pre ++ line ++ CRLF ++ rest) (length pre) (length line) = line) as ->.
  { unfold slice. by rewrite drop_app_length, take_app_length. }
  rewrite (proj2 (parse_chunk_size_spec _ _) Hn), (proj2 (Z.eqb_neq n 0)) by done.
  set (input := pre ++ line ++ CRLF ++ rest) in *.
  assert (drop (length pre + length line + 2) input = rest) as Hrest.
  { unfold input. rewrite <- Nat.add_assoc, drop_app_add, drop_app_add. done. }
  assert (length input = length pre + length line + 2 + length rest)%nat as Hin.
  { unfold input. rewrite !length_app. simpl. lia. }
  set (k := Z.to_nat n). assert (n = Z.of_nat k) as Hk by lia.
  assert (∀ m, slice input (length pre + length line + 2 + k) m = slice rest k m) as Hd.
  { intros m. unfold slice. by rewrite <- drop_drop, Hrest. }
  unfold checked_add, Zlength, isize_max in *. change usize_max with (2 ^ 64 - 1).
  assert (Z.to_nat (Z.of_nat (length pre + length line + 2) + n) =
          (length pre + length line + 2 + k)%nat) as Hto by lia.
  destruct (decide (slice rest k 2 = CRLF)) as [Hcr|Hcr]; [left|right].
  - apply first_chunk in Hcr as (first & i & -> & Hfirst). exists first, i.
    split; [done|]. split; [lia|]. rewrite !length_app in Hin. simpl in Hin.
    rewrite !(proj2 (Z.leb_le _ _)) by lia. cbn [negb]. rewrite Hto, Hd.
    rewrite bool_decide_true by (apply first_chunk; eauto). cbn [negb]. cbv zeta.
    rewrite !(proj2 (Nat.ltb_ge _ _)) by lia. cbn [orb]. rewrite <- Hfirst.
    unfold slice. rewrite Hrest, take_app_le by lia. rewrite !length_app.
    change (length CRLF) with 2%nat. by rewrite !Nat.add_assoc.
  - split.
    { intros first i -> Hlen. apply Hcr, first_chunk. exists first, i. split; [done|lia]. }
    destruct (Z.leb _ _); [|done]. cbv beta iota. rewrite Hto, Hd, (bool_decide_false _ Hcr).
    by destruct (negb _).
Qed.

Lemma chunk_loop_spec fuel pre suffix output olen :
  (length suffix < fuel)%nat → (olen ≤ length output)%nat → Zlength (pre ++ suffix) ≤ isize_max →
  ∃ out r, chunk_loop fuel (pre ++ suffix) (length pre) output olen = Returns (out, r) ∧
           chunk_post suffix output olen out r.
Proof.
  revert pre suffix output olen.
  induction fuel as [|fuel IH]; intros pre suffix output olen Hf Ho Hmax; [lia|].
  destruct (find_bytes suffix CRLF) as [m|] eqn:Em.
  2: { exists output, (Err MalformedHttp). cbn [chunk_loop].
       rewrite (proj2 (Nat.ltb_ge _ _)), drop_app_length, Em by (rewrite length_app; lia).
       split; [done|]. apply chunk_post_unsized; [done|].
       intros line n rest -> Hl _. by rewrite find_line in Em. }
  apply find_crlf in Em as (line & rest & -> & <- & Hl).
  destruct (parse_chunk_size line) as [n|] eqn:En; [destruct (decide (n = 0)) as [->|Hn]|].
  - exists output, (Ok (olen, false)). cbn [chunk_loop].
    rewrite (proj2 (Nat.ltb_ge _ _)), drop_app_length, find_line by (done || rewrite length_app; lia).
    unfold slice. rewrite drop_app_length, Nat.add_comm, Nat.add_sub, take_app_length, En.
    split; [done|]. exists []. rewrite splice_nil, Nat.add_0_r. repeat split; try done.
    exists line, rest. split_and!; [constructor|done|by apply parse_chunk_size_spec].
  - apply parse_chunk_size_spec in En.
    destruct (chunk_loop_line fuel pre line n rest output olen) as
      [(first & input & -> & Hfirst & ->)|[Hbad ->]]; try done.
    2: { eexists _, _. split; [done|]. by apply (chunk_post_bad _ n). }
    assert (first ≠ []) by (intros ->; by destruct Hn).
    destruct (Nat.eqb_spec (length first `min` (length output - olen)) (length first)) as [He|He];
      cbn [negb].
    + rewrite He, take_ge by lia. destruct (IH (pre ++ line ++ CRLF ++ first ++ CRLF) input
        (splice output olen first) (olen + length first)%nat) as (out & r & Hr & Hp).
      * revert Hf. rewrite !length_app. simpl. lia.
      * rewrite length_splice by lia. lia.
      * by rewrite <- !app_assoc.
      * exists out, r. split; [by rewrite <- Hr, <- !app_assoc|].
        apply chunk_post_step; [done|congruence|done|lia|done].
    + replace (length first `min` (length output - olen))%nat with (length output - olen)%nat by lia.
      eexists _, _. split; [done|]. split; [lia|]. exists first, input. rewrite <- (app_nil_r first) at 2.
      split; [|split; [lia|done]]. constructor; [done|congruence|done|constructor].
  - exists output, (Err MalformedHttp). cbn [chunk_loop].
    rewrite (proj2 (Nat.ltb_ge _ _)), drop_app_length, find_line by (done || rewrite length_app; lia).
    unfold slice. rewrite drop_app_length, Nat.add_comm, Nat.add_sub, take_app_length, En.
    split; [done|]. apply chunk_post_unsized; [done|]. intros line' n rest' E Hl' Hn.
    apply ends_line_unique in E as [-> _]; [|done..].
    apply parse_chunk_size_spec in Hn. congruence.
Qed.

(** ** Specification: the head of a response *)

(** The lines between the status line and the end of the head. *)
Inductive head_lines : list Z → list (list Z) → Prop :=
  | head_none : head_lines [] []
  | head_last line : line ≠ [] → find_bytes line CRLF = None → head_lines line [line]
  | head_more line rest lines :
      ends_line line → head_lines rest lines → head_lines (line ++ CRLF ++ rest) (line :: lines).

(** The values of the fields called [name], in order. *)
Definition field_values (name : list Z) (lines : list (list Z)) : list (list Z) :=
  omap (λ line,
    match position (λ byte, byte =? 58) line with
    | Some colon =>
        if eq_ignore_ascii_case (take colon line) name then Some (drop (colon + 1) line) else None
    | None => None
    end) lines.

Definition announces_chunked (lines : list (list Z)) : bool :=
  existsb mentions_chunked (field_values (lit "transfer-encoding") lines).
Definition announced_length (lines : list (list Z)) : option Z :=
  last (omap parse_ascii_usize (field_values (lit "content-length") lines)).

Fixpoint header_all (h : Headers) (lines : list (list Z)) : result Headers HttpError :=
  match lines with
  | [] => Ok h
  | line :: lines' => let? h := header_line h line in header_all h lines'
  end.

(** What [from_utf8_unchecked] relies on: the occupied part of a text field
    is printable ASCII within its buffer. *)
Definition text_ok (minimum : Z) (capacity : nat) (buffer : list Z) (len : nat) : Prop :=
  length buffer = capacity ∧ (len ≤ capacity)%nat ∧ forallb (in_range minimum) (take len buffer) = true.

Definition headers_ok (h : Headers) : Prop :=
  text_ok 0x21 HTTP_LOCATION_CAPACITY (h_location h) (h_location_len h) ∧
  text_ok 0x20 HTTP_CONTENT_TYPE_CAPACITY (h_content_type h) (h_content_type_len h) ∧
  text_ok 0x20 HTTP_COOKIE_CAPACITY (h_set_cookie h) (h_set_cookie_len h).

Record response_ok (r : HttpResponse) : Prop := {
  ro_status : 0 ≤ hr_status r ≤ 999;
  ro_body : length (hr_body_buf r) = HTTP_BODY_CAPACITY ∧ (hr_body_len r ≤ HTTP_BODY_CAPACITY)%nat;
  ro_location : text_ok 0x21 HTTP_LOCATION_CAPACITY (hr_location_buf r) (hr_location_len r);
  ro_content_type :
    text_ok 0x20 HTTP_CONTENT_TYPE_CAPACITY (hr_content_type_buf r) (hr_content_type_len r);
  ro_cookie : text_ok 0x20 HTTP_COOKIE_CAPACITY (hr_set_cookie_buf r) (hr_set_cookie_len r) }.

(** ** Lemmas: the head *)

Lemma header_loop_spec fuel h rest :
  (length rest < fuel)%nat →
  ∃ lines, head_lines rest lines ∧ header_loop fuel h rest = Returns (header_all h lines).
Proof.
  revert h rest. induction fuel as [|fuel IH]; intros h rest Hf; [lia|]. cbn [header_loop].
  destruct rest as [|c rest0] eqn:Er; [exists []; split; [constructor|done]|].
  rewrite <- Er in *. assert (rest ≠ []) as Hne by by rewrite Er.
  replace (is_empty rest) with false by by rewrite Er.
  destruct (find_bytes rest CRLF) as [m|] eqn:Em; cbn [default from_option id].
  - apply find_crlf in Em as (line & rest' & E & <- & Hl). rewrite E, take_app_length.
    rewrite drop_app_add. change (drop 2 (CRLF ++ rest')) with rest'.
    assert (∀ h', ∃ lines, head_lines rest' lines ∧
      header_loop fuel h' rest' = Returns (header_all h' lines)) as Hrest.
    { intros h'. apply IH. revert Hf. rewrite E, !length_app. simpl. lia. }
    destruct (header_line h line) as [h'|[]] eqn:Eh.
    + destruct (Hrest h') as (lines & Hlines & ->). exists (line :: lines).
      split; [by constructor|]. simpl. by rewrite Eh.
    + destruct (Hrest h) as (lines & Hlines & _). exists (line :: lines).
      split; [by constructor|]. simpl. by rewrite Eh.
  - rewrite take_ge by lia. exists [rest]. split; [by constructor|]. simpl.
    destruct (header_line h rest) as [h'|[]]; [|done].
    rewrite drop_ge by lia. destruct fuel; [rewrite Er in Hf; simpl in Hf; lia|done].
Qed.

Lemma store_field_ok minimum capacity value buffer len buffer' len' :
  text_ok minimum capacity buffer len → store_field minimum value buffer = Ok (buffer', len') →
  text_ok minimum capacity buffer' len'.
Proof.
  unfold store_field, text_ok. generalize (trim_ascii value). intros v (Hb & Hl & Hr) H.
  guards. bools. rewrite Nat.ltb_ge in *. rewrite length_splice by (simpl; lia). split; [done|]. split; [lia|].
  unfold splice. rewrite take_0, app_nil_l. by rewrite take_app_length.
Qed.

Lemma header_line_ok h line h' : headers_ok h → header_line h line = Ok h' → headers_ok h'.
Proof.
  intros (H1 & H2 & H3). unfold header_line, header_field. intros H.
  repeat match type of H with
  | context [store_field ?m ?v ?b] => destruct (store_field m v b) as [[? ?]|] eqn:?
  | context [match ?x with _ => _ end] => destruct x eqn:?
  end; simplify_eq/=; unfold headers_ok; simpl; split_and!; eauto using store_field_ok.
Qed.

Lemma header_all_ok h lines h' : headers_ok h → header_all h lines = Ok h' → headers_ok h'.
Proof.
  revert h. induction lines as [|line lines IH]; intros h Hh; simpl; [naive_solver|].
  destruct (header_line h line) eqn:E; [|done]. eauto using header_line_ok.
Qed.

Lemma eq_ignore_excl name a b :
  (to_ascii_lowercase <$> a) ≠ (to_ascii_lowercase <$> b) →
  eq_ignore_ascii_case name a = true → eq_ignore_ascii_case name b = false.
Proof. unfold eq_ignore_ascii_case. intros H ?. bools. apply bool_decide_false. congruence. Qed.

(** One line: which framing field it is, and what it does. *)
Lemma header_line_framing h line h' :
  header_line h line = Ok h' →
  h_chunked h' = h_chunked h || announces_chunked [line] ∧
  h_content_length h' =
    match announced_length [line] with Some n => Some n | None => h_content_length h end.
Proof.
  unfold header_line, announces_chunked, announced_length, field_values. cbn [omap list_omap].
  destruct (position _ line) as [colon|]; cbn [existsb omap list_omap last];
    [|intros [= <-]; by rewrite orb_false_r].
  generalize (take colon line), (drop (colon + 1) line). intros name value. unfold header_field.
  destruct (eq_ignore_ascii_case name (lit "content-length")) eqn:E1.
  { rewrite (eq_ignore_excl _ (lit "content-length") (lit "transfer-encoding")) by done.
    simpl. destruct (parse_ascii_usize value); [|done]. intros [= <-]. simpl.
    by rewrite orb_false_r. }
  destruct (eq_ignore_ascii_case name (lit "transfer-encoding")) eqn:E2.
  - rewrite (eq_ignore_excl _ (lit "transfer-encoding") (lit "location")),
      (eq_ignore_excl _ (lit "transfer-encoding") (lit "content-type")),
      (eq_ignore_excl _ (lit "transfer-encoding") (lit "set-cookie")) by done.
    simpl. destruct (mentions_chunked value); intros [= <-]; simpl;
      by rewrite ?orb_true_r, ?orb_false_r.
  - simpl. intros H. rewrite orb_false_r. guards; done.
Qed.

Lemma headers_new_ok : headers_ok Headers_new.
Proof.
  unfold headers_ok, text_ok, Headers_new.
  cbn [h_location h_location_len h_content_type h_content_type_len h_set_cookie h_set_cookie_len].
  rewrite !length_replicate, !take_0. split_and!; solve [done | lia].
Qed.

Lemma header_all_framing h lines h' :
  header_all h lines = Ok h' →
  h_chunked h' = h_chunked h || announces_chunked lines ∧
  h_content_length h' =
    match announced_length lines with Some n => Some n | None => h_content_length h end.
Proof.
  revert h. induction lines as [|line lines IH]; intros h; cbn [header_all].
  { intros [= <-]. by rewrite orb_false_r. }
  destruct (header_line h line) as [h1|] eqn:E; [|done]. intros H.
  apply IH in H as [-> ->]. apply header_line_framing in E as [-> ->].
  assert (∀ name, field_values name (line :: lines) =
            field_values name [line] ++ field_values name lines) as Hf.
  { intros name. unfold field_values. by rewrite <- omap_app. }
  unfold announces_chunked, announced_length. rewrite !Hf, existsb_app, omap_app, last_app.
  split; [by rewrite orb_assoc|]. by destruct (last (omap _ (field_values _ lines))).
Qed.

Lemma announced_length_nonneg lines n : announced_length lines = Some n → 0 ≤ n.
Proof.
  unfold announced_length. intros (v & _ & H)%last_Some_elem_of%list_elem_of_omap. revert H.
  unfold parse_ascii_usize. rewrite digits_loop_spec; [|lia|done|].
  - intros (ds & _ & _ & -> & _). pose proof (positional_nonneg 10 ds). lia.
  - unfold decimal_digit, is_ascii_digit. intros c d H. guards. bools. lia.
Qed.

Lemma parse_status_range line status : parse_status line = Ok status → 0 ≤ status ≤ 999.
Proof.
  unfold parse_status. destruct (negb (str_starts_with _ _)); [done|].
  destruct (position _ line) as [n|]; [|done].
  destruct (drop (n + 1) line) as [|a [|b [|c ?]]]; [done..|].
  destruct (negb (forallb _ _)) eqn:E; [done|]. intros [= <-].
  unfold is_ascii_digit in E. simpl in E. bools. lia.
Qed.

(** ** Lemmas: the body *)

Lemma decode_chunked_spec input output :
  Zlength input ≤ isize_max →
  ∃ out r, decode_chunked input output = Returns (out, r) ∧ chunk_post input output 0 out r.
Proof. intros H. apply (chunk_loop_spec _ []); [lia|lia|done]. Qed.

(** An untruncated body is the complete one. *)
Definition complete_body (chunked_ : bool) (announced : option Z) (encoded : list Z)
    (wire_truncated : bool) (body : list Z) : Prop :=
  if chunked_ then chunked encoded body
  else match announced with
       | Some n => body = take (Z.to_nat n) encoded ∧ Zlength body = n
       | None => body = encoded ∧ wire_truncated = false
       end.

Lemma decode_body_spec h encoded wire_truncated :
  Zlength encoded ≤ isize_max → (∀ n, h_content_length h = Some n → 0 ≤ n) →
  ∃ r, decode_body h encoded wire_truncated = Returns r ∧
  ∀ body len truncated, r = Ok (body, len, truncated) →
    length body = HTTP_BODY_CAPACITY ∧ (len ≤ HTTP_BODY_CAPACITY)%nat ∧
    (truncated = false →
       complete_body (h_chunked h) (h_content_length h) encoded wire_truncated (take len body)).
Proof.
  intros Hmax Hn. unfold decode_body, complete_body.
  assert (∃ buf, replicate HTTP_BODY_CAPACITY 0 = buf ∧ length buf = HTTP_BODY_CAPACITY)
    as (buf & -> & <-) by (eexists; split; [done|apply length_replicate]).
  destruct (h_chunked h).
  - destruct (decode_chunked_spec encoded buf Hmax) as (out & r & -> & Hp).
    destruct r as [[len t]|e]; (eexists; split; [done|]); intros body len' t' H; [|done].
    injection H as <- <- <-. destruct t; simpl in Hp.
    + destruct Hp as (-> & data & rest & _ & Hl & ->).
      rewrite length_splice by (rewrite length_take; lia). split; [done|]. split; [lia|done].
    + destruct Hp as (data & Hc & -> & Hl & ->). rewrite length_splice by done.
      split; [done|]. split; [lia|]. intros _. unfold splice. rewrite take_0, app_nil_l.
      by rewrite take_app_length.
  - destruct (_ && negb wire_truncated) eqn:E; (eexists; split; [done|]);
      intros body len t H; [done|]. injection H as <- <- Ht. unfold Zlength in *.
    set (len' := Z.to_nat _) in *.
    assert (len' ≤ length buf ∧ len' ≤ length encoded)%nat as [Hl1 Hl2] by lia.
    rewrite length_splice by (rewrite length_take; simpl; lia). split; [done|]. split; [done|].
    intros ->. bools. unfold splice. rewrite take_0, app_nil_l.
    rewrite take_app_le, take_take, Nat.min_id by (rewrite length_take; lia).
    destruct (h_content_length h) as [n|]; simpl in *.
    + specialize (Hn n eq_refl). rewrite length_take. assert (len' = Z.to_nat n) as -> by lia.
      split; [done|lia].
    + split; [|done]. rewrite take_ge; [done|lia].
Qed.

Lemma find_head wire n :
  find_bytes wire (CRLF ++ CRLF) = Some n →
  ∃ head encoded, wire = head ++ (CRLF ++ CRLF) ++ encoded ∧ length head = n.
Proof. intros (head & encoded & -> & <- & _)%str_find_Some. eauto. Qed.

(** The head is the status line and the fields after it. *)
Definition head_parts (head status_line fields : list Z) : Prop :=
  (head = status_line ∧ fields = []) ∨ head = status_line ++ CRLF ++ fields.

Lemma head_split head :
  let n := default (length head) (find_bytes head CRLF) in
  head_parts head (take n head) (drop (n + 2) head).
Proof.
  destruct (find_bytes head CRLF) as [n|] eqn:E; simpl.
  - apply find_crlf in E as (line & rest & -> & <- & _). right.
    by rewrite take_app_length, drop_app_add.
  - left. rewrite take_ge, drop_ge by lia. done.
Qed.

(** ** Theorems *)

(** C32.  The chunked decoder implements the chunked coding: size lines in
    hexadecimal, blanks ignored and extensions after a semicolon skipped, each
    followed by that many bytes and a line end, and a line of size 0 at the end.
    On every input of at most 2^63-1 bytes it returns, without panic; it reports a complete body exactly when the input is
    one and fits the buffer, with its content at the front of the buffer; it
    reports truncation exactly when the chunks so far exceed the buffer, which
    then holds their first bytes; everything else is malformed. *)
Theorem http_chunked_decodes (input output : list Z) :
  Zlength input ≤ isize_max →
  ∃ out r, decode_chunked input output = Returns (out, r) ∧
    match r with
    | Ok (len, false) =>
        ∃ data, chunked input data ∧ len = length data ∧ (len ≤ length output)%nat ∧
          out = data ++ drop len output
    | Ok (len, true) =>
        len = length output ∧
        ∃ data rest, chunks input data rest ∧ (length output < length data)%nat ∧
          out = take len data
    | Err _ =>
        (∀ data, ¬ chunked input data) ∧
        ∀ data rest, chunks input data rest → (length data ≤ length output)%nat
    end.
Proof.
  intros H. destruct (decode_chunked_spec input output H) as (out & r & Hr & Hp).
  exists out, r. split; [done|]. unfold chunk_post in Hp. destruct r as [[len []]|[]]; [|naive_solver..].
  rewrite Nat.sub_0_r in Hp. destruct Hp as (-> & data & rest & Hc & Hl & ->). split; [done|].
  exists data, rest. repeat split; [done|lia|]. unfold splice.
  rewrite take_0, app_nil_l, drop_ge, app_nil_r; [done|]. rewrite length_take. lia.
Qed.

Lemma http_chunked_decodes_witness :
  Zlength (lit "2" ++ CRLF ++ lit "hi" ++ CRLF ++ lit "0" ++ CRLF) ≤ isize_max ∧
  ∃ out r,
    decode_chunked (lit "2" ++ CRLF ++ lit "hi" ++ CRLF ++ lit "0" ++ CRLF) [0; 0; 0] =
      Returns (out, r) ∧ out = [104; 105; 0] ∧ r = Ok (2%nat, false).
Proof.
  split; [vm_compute; discriminate|].
  destruct (http_chunked_decodes (lit "2" ++ CRLF ++ lit "hi" ++ CRLF ++ lit "0" ++ CRLF) [0; 0; 0])
    as (out & r & H & _); [vm_compute; discriminate|].
  exists out, r. rewrite H. split; [done|]. vm_compute in H. by injection H as <- <-.
Defined.

(** C31.  Response parsing is total, safe and honest.  It returns on every wire
    image, without panic.  An accepted response has a status below 1000 and
    fields within their buffers; the occupied part of every text field is
    printable ASCII, which is what the unchecked UTF-8 conversions of the
    accessors rely on.  When the response is not marked truncated, its body is
    the complete one for the framing the head announces. *)
Theorem http_parse_sound (peer wire : list Z) (wire_truncated : bool) :
  Zlength wire ≤ isize_max →
  ∃ res, parse_http_response peer wire wire_truncated = Returns res ∧
  ∀ r, res = Ok r →
    response_ok r ∧ hr_peer r = peer ∧
    ∃ head encoded status_line fields lines,
      wire = head ++ (CRLF ++ CRLF) ++ encoded ∧ head_parts head status_line fields ∧
      parse_status status_line = Ok (hr_status r) ∧ head_lines fields lines ∧
      (hr_truncated r = false →
       complete_body (announces_chunked lines) (announced_length lines) encoded wire_truncated
         (HttpResponse_body r)).
Proof.
  intros Hmax. unfold parse_http_response.
  destruct (find_bytes wire (CRLF ++ CRLF)) as [n|] eqn:En; [|by eexists].
  apply find_head in En as (head & encoded & -> & <-). rewrite take_app_length.
  replace (drop (length head + 4) (head ++ (CRLF ++ CRLF) ++ encoded)) with encoded
    by by rewrite drop_app_add.
  pose proof (head_split head) as Hsplit. simpl in Hsplit.
  set (k := default (length head) (find_bytes head CRLF)) in *.
  destruct (parse_status (take k head)) as [status|[]] eqn:Es; [|by eexists].
  destruct (header_loop_spec (S (length head)) Headers_new (drop (k + 2) head))
    as (lines & Hlines & ->); [rewrite length_drop; lia|].
  destruct (header_all Headers_new lines) as [h|[]] eqn:Eh; [|by eexists].
  pose proof (header_all_framing _ _ _ Eh) as [Hch Hcl]. simpl in Hch, Hcl.
  assert (h_content_length h = announced_length lines) as Hcl'
    by (rewrite Hcl; by destruct (announced_length lines)).
  apply header_all_ok in Eh as (H1 & H2 & H3); [|exact headers_new_ok].
  destruct (decode_body_spec h encoded wire_truncated) as (res & -> & Hbody).
  { unfold Zlength in *. rewrite !length_app in Hmax. lia. }
  { intros m Hm. rewrite Hcl' in Hm. by eapply announced_length_nonneg. }
  destruct res as [[[body len] truncated]|[]]; [|by eexists].
  destruct (Hbody body len truncated eq_refl) as (Hb1 & Hb2 & Hb3). eexists. split; [done|].
  intros r [= <-]. split; [|split; [done|]].
  - constructor; simpl; auto. by eapply parse_status_range.
  - exists head, encoded, (take k head), (drop (k + 2) head), lines.
    split_and!; try done. rewrite <- Hch, <- Hcl'. done.
Qed.

Definition demo_wire : list Z :=
  lit "HTTP/1.0 200 OK" ++ CRLF ++ lit "Content-Length: 2" ++ CRLF ++ lit "Location: /next" ++
  (CRLF ++ CRLF) ++ lit "hi".

Lemma http_parse_sound_witness :
  Zlength demo_wire ≤ isize_max ∧
  ∃ r, parse_http_response [1; 2; 3; 4] demo_wire false = Returns (Ok r) ∧ response_ok r ∧
    (HttpResponse_body r ==? lit "hi") && (HttpResponse_location r ==? Some (lit "/next")) = true.
Proof.
  split; [vm_compute; discriminate|].
  destruct (http_parse_sound [1; 2; 3; 4] demo_wire false) as (res & Hr & Hres);
    [vm_compute; discriminate|].
  assert (match parse_http_response [1; 2; 3; 4] demo_wire false with
          | Returns (Ok r) =>
              (HttpResponse_body r ==? lit "hi") && (HttpResponse_location r ==? Some (lit "/next"))
          | _ => false
          end = true) as Hv by (vm_compute; reflexivity).
  rewrite Hr in Hv. destruct res as [r|]; [|done].
  exists r. split; [exact Hr|]. split; [by apply Hres|exact Hv].
Defined.

(** ** Specification: the reply format *)

Definition reply_header (status truncated body location content_type cookie : Z) : list Z :=
  le_bytes 2 status ++ [truncated; 0] ++ le_bytes 2 body ++ le_bytes 2 location ++
  le_bytes 2 content_type ++ le_bytes 2 cookie.

Definition reply (r : HttpResponse) : list Z :=
  reply_header (hr_status r) (if hr_truncated r then 1 else 0) (Z.of_nat (hr_body_len r))
    (Z.of_nat (hr_location_len r)) (Z.of_nat (hr_content_type_len r))
    (Z.of_nat (hr_set_cookie_len r)) ++ hr_peer r ++
  HttpResponse_body r ++ take (hr_location_len r) (hr_location_buf r) ++
  take (hr_content_type_len r) (hr_content_type_buf r) ++
  take (hr_set_cookie_len r) (hr_set_cookie_buf r).

(** The response without what is left behind the occupied parts. *)
Definition canonical (r : HttpResponse) : HttpResponse :=
  MkResponse (hr_status r) (filled HTTP_BODY_CAPACITY (HttpResponse_body r)) (hr_body_len r)
    (hr_truncated r) (hr_peer r)
    (filled HTTP_LOCATION_CAPACITY (take (hr_location_len r) (hr_location_buf r)))
    (hr_location_len r)
    (filled HTTP_CONTENT_TYPE_CAPACITY (take (hr_content_type_len r) (hr_content_type_buf r)))
    (hr_content_type_len r)
    (filled HTTP_COOKIE_CAPACITY (take (hr_set_cookie_len r) (hr_set_cookie_buf r)))
    (hr_set_cookie_len r).

(** ** Lemmas: replies *)

Lemma capacities :
  (Z.of_nat HTTP_BODY_CAPACITY < 65536 ∧ Z.of_nat HTTP_LOCATION_CAPACITY < 65536 ∧
   Z.of_nat HTTP_CONTENT_TYPE_CAPACITY < 65536 ∧ Z.of_nat HTTP_COOKIE_CAPACITY < 65536).
Proof.
  unfold HTTP_BODY_CAPACITY, HTTP_LOCATION_CAPACITY, HTTP_CONTENT_TYPE_CAPACITY,
    HTTP_COOKIE_CAPACITY. lia.
Qed.

Lemma put_all_spec out cursor data :
  (cursor + length (concat data) ≤ length out)%nat →
  put_all out cursor data = splice out cursor (concat data).
Proof.
  revert out cursor. induction data as [|d data IH]; intros out cursor; simpl.
  { by rewrite splice_nil. }
  rewrite length_app. intros Hl.
  rewrite IH by (rewrite length_splice; lia). by rewrite splice_splice by lia.
Qed.

Lemma response_lengths r :
  response_ok r →
  length (HttpResponse_body r) = hr_body_len r ∧
  length (take (hr_location_len r) (hr_location_buf r)) = hr_location_len r ∧
  length (take (hr_content_type_len r) (hr_content_type_buf r)) = hr_content_type_len r ∧
  length (take (hr_set_cookie_len r) (hr_set_cookie_buf r)) = hr_set_cookie_len r.
Proof.
  intros [_ [Hb Hb'] [Hl [Hl' _]] [Ht [Ht' _]] [Hk [Hk' _]]].
  unfold HttpResponse_body. rewrite !length_take. lia.
Qed.

Lemma reply_length_spec r :
  response_ok r → length (hr_peer r) = 4%nat → length (reply r) = reply_length r.
Proof.
  intros Hr Hp. apply response_lengths in Hr as (H1 & H2 & H3 & H4).
  unfold reply, reply_length. rewrite !length_app, H1, H2, H3, H4, Hp. simpl. lia.
Qed.

(** The stores of [encode], from left to right. *)
Lemma encode_spec r out :
  response_ok r → length (hr_peer r) = 4%nat → (reply_length r ≤ length out)%nat →
  HttpResponse_encode r out = (splice out 0 (reply r), Ok (reply_length r)).
Proof.
  intros Hr Hp Hl. pose proof (reply_length_spec r Hr Hp) as Hlen.
  pose proof (response_lengths r Hr) as (H1 & H2 & H3 & H4).
  unfold HttpResponse_encode. rewrite (proj2 (Nat.ltb_ge _ _) Hl). cbv zeta. f_equal.
  assert (∀ l i (x : Z), (i < length l)%nat → <[i := x]> l = splice l i [x]) as Hins.
  { intros l i x Hi. unfold splice. rewrite insert_take_drop by done. simpl. by rewrite Nat.add_1_r. }
  unfold reply_length in Hl.
  rewrite (Hins (splice out 0 _) 2%nat) by (rewrite length_splice; simpl; lia).
  rewrite (Hins (splice (splice out 0 _) 2 _) 3%nat)
    by (rewrite !length_splice; rewrite ?length_splice; cbn [length le_bytes]; lia).
  pose (parts := [le_bytes 2 (hr_status r); [if hr_truncated r then 1 else 0]; [0];
    le_bytes 2 (Z.of_nat (hr_body_len r)); le_bytes 2 (Z.of_nat (hr_location_len r));
    le_bytes 2 (Z.of_nat (hr_content_type_len r)); le_bytes 2 (Z.of_nat (hr_set_cookie_len r));
    hr_peer r; HttpResponse_body r; take (hr_location_len r) (hr_location_buf r);
    take (hr_content_type_len r) (hr_content_type_buf r);
    take (hr_set_cookie_len r) (hr_set_cookie_buf r)]).
  transitivity (put_all out 0 parts); [unfold parts; cbn [put_all]; by rewrite Hp|].
  assert (concat parts = reply r) as E by (unfold parts; cbn [concat]; by rewrite app_nil_r).
  rewrite put_all_spec, E; [done|]. rewrite E, Hlen. unfold reply_length. lia.
Qed.

(** [decode] on a header in parts: the guards in order, on decoded values. *)
Definition decode_parts (status truncated zero b l t k : Z) (peer data : list Z)
    : result HttpResponse HttpError :=
  if (truncated >? 1) || (zero !=? 0) then Err MalformedHttp
  else
    let '(body, location, content_type, cookie) := (Z.to_nat b, Z.to_nat l, Z.to_nat t, Z.to_nat k) in
    if (HTTP_BODY_CAPACITY <? body)%nat || (HTTP_LOCATION_CAPACITY <? location)%nat ||
       (HTTP_CONTENT_TYPE_CAPACITY <? content_type)%nat || (HTTP_COOKIE_CAPACITY <? cookie)%nat ||
       negb (length data =? body + location + content_type + cookie)%nat ||
       negb ((100 <=? status) && (status <=? 599))
    then Err MalformedHttp
    else
      let? l := decode_field data HTTP_LOCATION_CAPACITY body location 0x21 in
      let? t := decode_field data HTTP_CONTENT_TYPE_CAPACITY (body + location) content_type 0x20 in
      let? k := decode_field data HTTP_COOKIE_CAPACITY (body + location + content_type) cookie 0x20 in
      Ok (MkResponse status (splice (replicate HTTP_BODY_CAPACITY 0) 0 (take body data)) body
            (truncated !=? 0) peer l location t content_type k cookie).

Lemma decode_as_parts s0 s1 truncated zero b0 b1 l0 l1 t0 t1 k0 k1 p0 p1 p2 p3 data :
  HttpResponse_decode (s0 :: s1 :: truncated :: zero :: b0 :: b1 :: l0 :: l1 :: t0 :: t1 :: k0 :: k1 ::
                       p0 :: p1 :: p2 :: p3 :: data) =
  decode_parts (le_value [s0; s1]) truncated zero (le_value [b0; b1]) (le_value [l0; l1])
    (le_value [t0; t1]) (le_value [k0; k1]) [p0; p1; p2; p3] data.
Proof. reflexivity. Qed.

Lemma decode_field_ok data capacity cursor len minimum buf :
  (cursor + len ≤ length data)%nat → (len ≤ capacity)%nat →
  decode_field data capacity cursor len minimum = Ok buf ↔
  forallb (in_range minimum) (slice data cursor len) = true ∧ buf = filled capacity (slice data cursor len).
Proof.
  intros Hl Hc. unfold decode_field. rewrite splice_zeros by by rewrite length_slice.
  destruct (forallb _ _); simpl; naive_solver.
Qed.

Lemma decode_field_part data capacity cursor part minimum :
  slice data cursor (length part) = part → (length part ≤ capacity)%nat →
  forallb (in_range minimum) part = true →
  decode_field data capacity cursor (length part) minimum = Ok (filled capacity part).
Proof.
  intros Hs Hl Hf. unfold decode_field. by rewrite Hs, Hf, splice_zeros.
Qed.

(** The response that four data parts stand for. *)
Definition response_of (status truncated : Z) (peer body location content_type cookie : list Z)
    : HttpResponse :=
  MkResponse status (filled HTTP_BODY_CAPACITY body) (length body) (truncated !=? 0) peer
    (filled HTTP_LOCATION_CAPACITY location) (length location)
    (filled HTTP_CONTENT_TYPE_CAPACITY content_type) (length content_type)
    (filled HTTP_COOKIE_CAPACITY cookie) (length cookie).

Definition parts_ok (body location content_type cookie : list Z) : Prop :=
  (length body ≤ HTTP_BODY_CAPACITY)%nat ∧ (length location ≤ HTTP_LOCATION_CAPACITY)%nat ∧
  (length content_type ≤ HTTP_CONTENT_TYPE_CAPACITY)%nat ∧
  (length cookie ≤ HTTP_COOKIE_CAPACITY)%nat ∧
  forallb (in_range 0x21) location = true ∧ forallb (in_range 0x20) content_type = true ∧
  forallb (in_range 0x20) cookie = true.

Lemma four_slices {A} (data : list A) a b c d :
  length data = (a + b + c + d)%nat →
  data = take a data ++ slice data a b ++ slice data (a + b) c ++ slice data (a + b + c) d ∧
  length (take a data) = a ∧ length (slice data a b) = b ∧ length (slice data (a + b) c) = c ∧
  length (slice data (a + b + c) d) = d.
Proof.
  intros Hl. rewrite !length_slice, length_take by lia. split; [|lia].
  change (take a data) with (slice data 0 a). rewrite <- (slice_add data (a + b) c d).
  rewrite <- (slice_add data a b (c + d)), <- (slice_add data 0 a).
  unfold slice. rewrite drop_0, take_ge by lia. done.
Qed.

Lemma slices_of_app {A} (x y z w : list A) :
  take (length x) (x ++ y ++ z ++ w) = x ∧ slice (x ++ y ++ z ++ w) (length x) (length y) = y ∧
  slice (x ++ y ++ z ++ w) (length x + length y) (length z) = z ∧
  slice (x ++ y ++ z ++ w) (length x + length y + length z) (length w) = w.
Proof.
  unfold slice. rewrite <- !drop_drop, !drop_app_length, !take_app_length. by rewrite firstn_all.
Qed.

Lemma decode_parts_Ok status truncated zero b l t k peer data r :
  0 ≤ b → 0 ≤ l → 0 ≤ t → 0 ≤ k → 0 ≤ truncated →
  decode_parts status truncated zero b l t k peer data = Ok r ↔
  truncated ≤ 1 ∧ zero = 0 ∧ 100 ≤ status ≤ 599 ∧
  ∃ body location content_type cookie,
    data = body ++ location ++ content_type ++ cookie ∧ Zlength body = b ∧ Zlength location = l ∧
    Zlength content_type = t ∧ Zlength cookie = k ∧ parts_ok body location content_type cookie ∧
    r = response_of status truncated peer body location content_type cookie.
Proof.
  intros Hb Hl Ht Hk Htr. unfold decode_parts, Zlength. split.
  - destruct (_ || _) eqn:E1; [done|]. destruct (_ || _) eqn:E2 in |- *; [done|].
    bools. rewrite Nat.ltb_ge in *. rewrite Nat.eqb_eq in *.
    rewrite !let_ok. setoid_rewrite let_ok. setoid_rewrite let_ok.
    destruct (four_slices data _ _ _ _ ltac:(eassumption)) as (Hd & L1 & L2 & L3 & L4).
    intros (x & Hx & y & Hy & z & Hz & <-%Ok_inj).
    apply decode_field_ok in Hx as [Fx ->]; [|lia..]. apply decode_field_ok in Hy as [Fy ->]; [|lia..].
    apply decode_field_ok in Hz as [Fz ->]; [|lia..]. split_and!; try lia.
    eexists _, _, _, _. split; [exact Hd|]. unfold parts_ok, response_of. rewrite L1, L2, L3, L4.
    split_and!; try lia; try done. f_equal.
    apply splice_zeros. lia.
  - intros (Ht1 & -> & Hs & body & loc & ct & ck & -> & <- & <- & <- & <- & Hok & ->).
    destruct Hok as (C1 & C2 & C3 & C4 & F1 & F2 & F3).
    destruct (slices_of_app body loc ct ck) as (S1 & S2 & S3 & S4).
    rewrite Z.gtb_ltb, (proj2 (Z.ltb_ge _ _) Ht1), (bool_decide_true (0 = 0)) by done.
    rewrite !Nat2Z.id, !length_app, !(proj2 (Nat.ltb_ge _ _)), !Nat.add_assoc by done.
    rewrite Nat.eqb_refl, !(proj2 (Z.leb_le _ _)) by lia. cbn [orb negb andb].
    rewrite (decode_field_part _ HTTP_LOCATION_CAPACITY _ loc) by done.
    rewrite (decode_field_part _ HTTP_CONTENT_TYPE_CAPACITY _ ct) by done.
    rewrite (decode_field_part _ HTTP_COOKIE_CAPACITY _ ck) by done.
    by rewrite S1, splice_zeros.
Qed.

Lemma canonical_parts r :
  response_ok r → length (hr_peer r) = 4%nat →
  canonical r = response_of (hr_status r) (if hr_truncated r then 1 else 0) (hr_peer r)
    (HttpResponse_body r) (take (hr_location_len r) (hr_location_buf r))
    (take (hr_content_type_len r) (hr_content_type_buf r))
    (take (hr_set_cookie_len r) (hr_set_cookie_buf r)) ∧
  parts_ok (HttpResponse_body r) (take (hr_location_len r) (hr_location_buf r))
    (take (hr_content_type_len r) (hr_content_type_buf r))
    (take (hr_set_cookie_len r) (hr_set_cookie_buf r)).
Proof.
  intros Hr Hp. pose proof (response_lengths r Hr) as (H1 & H2 & H3 & H4).
  destruct Hr as [_ [_ Hb] (_ & Hl & Fl) (_ & Ht & Ft) (_ & Hk & Fk)].
  unfold parts_ok, response_of, canonical. rewrite H1, H2, H3, H4. split; [|split_and!; assumption].
  by destruct (hr_truncated r).
Qed.

Lemma decode_reply r :
  response_ok r → length (hr_peer r) = 4%nat →
  HttpResponse_decode (reply r) =
    if (100 <=? hr_status r) && (hr_status r <=? 599) then Ok (canonical r) else Err MalformedHttp.
Proof.
  intros Hr Hp. pose proof (canonical_parts r Hr Hp) as [-> Hok].
  pose proof (response_lengths r Hr) as (H1 & H2 & H3 & H4).
  pose proof capacities as (C1 & C2 & C3 & C4).
  destruct Hr as [Hs [_ Hb] (_ & Hl & _) (_ & Ht & _) (_ & Hk & _)].
  unfold reply, reply_header. destruct (hr_peer r) as [|p0 [|p1 [|p2 [|p3 [|? ?]]]]]; try discriminate Hp.
  cbn [le_bytes app]. rewrite decode_as_parts.
  repeat match goal with
  | |- context [le_value [?v mod 256; ?v / 256 mod 256]] =>
      change (le_value [v mod 256; v / 256 mod 256]) with (le_value (le_bytes 2 v));
      rewrite (word_le_bytes2 v) by lia
  end.
  destruct (_ && _) eqn:E; bools.
  - apply decode_parts_Ok; try lia; [by destruct (hr_truncated r)|].
    split_and!; try lia; [by destruct (hr_truncated r)|].
    eexists _, _, _, _. split; [reflexivity|]. unfold Zlength. rewrite H1, H2, H3, H4.
    split_and!; [reflexivity..|exact Hok|reflexivity].
  - destruct (decode_parts _ _ _ _ _ _ _ _ _) as [r'|[]] eqn:Er; [|done].
    apply decode_parts_Ok in Er as (_ & _ & Hr & _); try lia. by destruct (hr_truncated r).
Qed.

Lemma response_of_spec status truncated peer body location content_type cookie :
  let r := response_of status truncated peer body location content_type cookie in
  parts_ok body location content_type cookie → 0 ≤ status ≤ 999 → 0 ≤ truncated ≤ 1 →
  response_ok r ∧ canonical r = r ∧
  reply r = reply_header status truncated (Zlength body) (Zlength location) (Zlength content_type)
              (Zlength cookie) ++ peer ++ body ++ location ++ content_type ++ cookie.
Proof.
  intros r (C1 & C2 & C3 & C4 & F1 & F2 & F3) Hs Ht.
  assert (HttpResponse_body r = body) as Eb by apply take_filled. unfold canonical, reply. rewrite Eb.
  unfold r, response_of. cbn [hr_status hr_truncated hr_peer hr_body_len hr_location_buf hr_location_len
    hr_content_type_buf hr_content_type_len hr_set_cookie_buf hr_set_cookie_len].
  rewrite !take_filled. split; [|split; [reflexivity|]].
  - constructor; unfold text_ok; cbn [hr_status hr_body_buf hr_body_len hr_location_buf hr_location_len
      hr_content_type_buf hr_content_type_len hr_set_cookie_buf hr_set_cookie_len];
      rewrite ?take_filled, ?length_filled by assumption; split_and!; (reflexivity || lia || assumption).
  - do 2 f_equal. case_bool_decide; simpl; lia.
Qed.

Lemma decode_inv bytes r :
  Forall byte_range bytes → HttpResponse_decode bytes = Ok r →
  bytes = reply r ∧ canonical r = r ∧ response_ok r ∧ length (hr_peer r) = 4%nat ∧
  100 ≤ hr_status r ≤ 599.
Proof.
  intros Hr H. assert (16 ≤ length bytes)%nat as Hlen.
  { unfold HttpResponse_decode in H. destruct (length bytes <? 16)%nat eqn:E; [discriminate H|].
    by apply Nat.ltb_ge in E. }
  do 16 (destruct bytes as [|? bytes]; [simpl in Hlen; lia|]).
  rewrite decode_as_parts in H. rewrite !Forall_cons in Hr.
  destruct Hr as (R0 & R1 & R2 & R3 & R4 & R5 & R6 & R7 & R8 & R9 & R10 & R11 & _).
  apply decode_parts_Ok in H; try (apply le_value2_range; assumption); [|apply R2].
  destruct H as (Ht & -> & Hs & body & loc & ct & ck & -> & E1 & E2 & E3 & E4 & Hok & ->).
  unfold byte_range in R2. match goal with |- context [response_of ?s ?t ?p _ _ _ _] =>
    destruct (response_of_spec s t p body loc ct ck Hok) as (H1 & H2 & H3); [lia|lia|] end.
  rewrite H3, E1, E2, E3, E4. unfold reply_header. rewrite !le_bytes2_word by assumption.
  split_and!; (reflexivity || assumption || apply Hs).
Qed.

(** The worker reply format is exact.  [encode] writes the reply at the
    front of any buffer that is large enough and touches nothing behind it;
    [decode] gives back the response, up to what lies behind the occupied parts
    of its buffers, exactly when the status is between 100 and 599, and refuses
    it otherwise; and it accepts nothing that is not the encoding of what it
    returns. *)
Theorem http_reply_roundtrip (r r' : HttpResponse) (out bytes : list Z) :
  response_ok r → length (hr_peer r) = 4%nat → (reply_length r ≤ length out)%nat →
  Forall byte_range bytes →
  (let (out', res) := HttpResponse_encode r out in
   res = Ok (reply_length r) ∧ drop (reply_length r) out' = drop (reply_length r) out ∧
   HttpResponse_decode (take (reply_length r) out') =
     if (100 <=? hr_status r) && (hr_status r <=? 599) then Ok (canonical r)
     else Err MalformedHttp) ∧
  (HttpResponse_decode bytes = Ok r' → bytes = reply r' ∧ canonical r' = r' ∧ response_ok r').
Proof.
  intros Hr Hp Hl Hb. rewrite (encode_spec r out Hr Hp Hl), <- (decode_reply r Hr Hp).
  pose proof (reply_length_spec r Hr Hp) as Hlen. unfold splice.
  rewrite take_0, app_nil_l, <- Hlen, take_app_length, drop_app_length, Nat.add_0_l.
  split; [split_and!; reflexivity|]. intros H. destruct (decode_inv _ _ Hb H) as (? & ? & ? & _). auto.
Qed.

Definition demo_response : HttpResponse :=
  MkResponse 204 (replicate HTTP_BODY_CAPACITY 0) 0 false [10; 0; 2; 15]
    (replicate HTTP_LOCATION_CAPACITY 0) 0 (replicate HTTP_CONTENT_TYPE_CAPACITY 0) 0
    (replicate HTTP_COOKIE_CAPACITY 0) 0.

Lemma demo_response_ok : response_ok demo_response.
Proof.
  constructor; unfold text_ok, demo_response; cbn [hr_status hr_body_buf hr_body_len hr_location_buf
    hr_location_len hr_content_type_buf hr_content_type_len hr_set_cookie_buf hr_set_cookie_len];
    rewrite ?length_replicate, ?take_0; split_and!; (reflexivity || lia).
Qed.

Lemma http_reply_roundtrip_witness :
  response_ok demo_response ∧
  HttpResponse_decode (take 16 (HttpResponse_encode demo_response (replicate 20 7)).1) =
    Ok (canonical demo_response).
Proof.
  split; [exact demo_response_ok|].
  destruct (http_reply_roundtrip demo_response demo_response (replicate 20 7) [] demo_response_ok)
    as [H _]; [reflexivity|by apply Nat.leb_le|constructor|].
  destruct (HttpResponse_encode demo_response (replicate 20 7)) as [out' res].
  destruct H as (_ & _ & H). exact H.
Defined.
