(* ===== verification/Geometry.v ===== *)
(** * Display geometry

    Rectangles and damage arithmetic of crates/expos-core/src/display.rs.
    Coordinates are [i16], sizes [u16]; intermediate sums are [i32], and the
    casts back wrap around. *)

From stdpp Require Import prelude list.
From Stdlib Require Import ZArith Lia.
From S2P Require Import Prelude.

Set Default Goal Selector "!".
Open Scope Z_scope.
Open Scope expos_scope.

(** ** Operations *)

Definition i16_max : Z := 2 ^ 15 - 1.
Definition i16_min : Z := - 2 ^ 15.

(** [value as i16], [value as u16] and [i16::saturating_add] (also of an
    unsigned operand). *)
Definition as_i16 (v : Z) : Z := (v + 2 ^ 15) mod 2 ^ 16 - 2 ^ 15.
Definition as_u16 (v : Z) : Z := v mod 2 ^ 16.
Definition i16_saturating_add (a b : Z) : Z := Z.max i16_min (Z.min (a + b) i16_max).

Record Rect := MkRect { rect_x : Z; rect_y : Z; rect_width : Z; rect_height : Z }.

#[export] Instance Rect_eq_dec : EqDecision Rect.
Proof. solve_decision. Defined.

Definition Rect_eta (r : Rect) : Rect :=
  MkRect (rect_x r) (rect_y r) (rect_width r) (rect_height r).
#[export] Instance set_rect_x : Setter rect_x := ltac:(build_setter Rect_eta).
#[export] Instance set_rect_y : Setter rect_y := ltac:(build_setter Rect_eta).

Definition Rect_contains (self : Rect) (x y : Z) : bool :=
  (rect_x self <=? x) && (rect_y self <=? y) &&
  (x <? i16_saturating_add (rect_x self) (rect_width self)) &&
  (y <? i16_saturating_add (rect_y self) (rect_height self)).

Definition surface_bounds (rect : Rect) : Rect := MkRect 0 0 (rect_width rect) (rect_height rect).

Definition translate_damage (surface damage : Rect) : Rect :=
  MkRect (i16_saturating_add (rect_x surface) (rect_x damage))
    (i16_saturating_add (rect_y surface) (rect_y damage)) (rect_width damage) (rect_height damage).

Definition intersect_damage (left_ right_ : Rect) : option Rect :=
  let x1 := Z.max (rect_x left_) (rect_x right_) in
  let y1 := Z.max (rect_y left_) (rect_y right_) in
  let x2 := Z.min (rect_x left_ + rect_width left_) (rect_x right_ + rect_width right_) in
  let y2 := Z.min (rect_y left_ + rect_height left_) (rect_y right_ + rect_height right_) in
  if (x2 <=? x1) || (y2 <=? y1) then None
  else Some (MkRect (as_i16 x1) (as_i16 y1) (as_u16 (x2 - x1)) (as_u16 (y2 - y1))).

Definition merge_damage (left_ right_ : option Rect) : option Rect :=
  match left_, right_ with
  | Some left_, Some right_ =>
      let x1 := Z.min (rect_x left_) (rect_x right_) in
      let y1 := Z.min (rect_y left_) (rect_y right_) in
      let x2 := Z.max (rect_x left_ + rect_width left_) (rect_x right_ + rect_width right_) in
      let y2 := Z.max (rect_y left_ + rect_height left_) (rect_y right_ + rect_height right_) in
      Some (MkRect (as_i16 x1) (as_i16 y1) (as_u16 (x2 - x1)) (as_u16 (y2 - y1)))
  | Some left_, None => Some left_
  | None, right_ => right_
  end.

Definition pack_size (rect : Rect) : Z :=
  Z.lor (Z.shiftl (rect_width rect) 32) (rect_height rect).

(** ** Specification *)

(** The values a [Rect] can have. *)
Definition rect_ok (r : Rect) : Prop :=
  i16_min ≤ rect_x r ≤ i16_max ∧ i16_min ≤ rect_y r ≤ i16_max ∧
  0 ≤ rect_width r ≤ u16_max ∧ 0 ≤ rect_height r ≤ u16_max.

(** Pixel [(x, y)] lies in the rectangle. *)
Definition covers (r : Rect) (x y : Z) : Prop :=
  rect_x r ≤ x < rect_x r + rect_width r ∧ rect_y r ≤ y < rect_y r + rect_height r.

Definition covered_by (o : option Rect) (x y : Z) : Prop := ∃ r, o = Some r ∧ covers r x y.

(** [r] is a non-empty part of [[0, width) x [0, height)]. *)
Definition within (width height : Z) (r : Rect) : Prop :=
  0 ≤ rect_x r ∧ 0 ≤ rect_y r ∧ 0 < rect_width r ∧ 0 < rect_height r ∧
  rect_x r + rect_width r ≤ width ∧ rect_y r + rect_height r ≤ height.

Definition opt_within (width height : Z) (o : option Rect) : Prop :=
  match o with None => True | Some r => within width height r ∧ rect_ok r end.

(** The rectangle lies in a window of 65,535 pixels with origin [(ox, oy)];
    then no bounding box in that window is wider than a [u16]. *)
Definition in_plane (ox oy : Z) (r : Rect) : Prop :=
  rect_ok r ∧ ox ≤ rect_x r ∧ rect_x r + rect_width r ≤ ox + u16_max ∧
  oy ≤ rect_y r ∧ rect_y r + rect_height r ≤ oy + u16_max.

Definition opt_in_plane (ox oy : Z) (o : option Rect) : Prop :=
  match o with None => True | Some r => in_plane ox oy r end.

(** ** Lemmas *)

Ltac geometry :=
  unfold in_plane, rect_ok, within, covers, i16_saturating_add, surface_bounds in *;
  cbn [rect_x rect_y rect_width rect_height] in *;
  change i16_max with 32767 in *; change i16_min with (-32768) in *;
  change u16_max with 65535 in *.

Lemma as_i16_id v : i16_min ≤ v ≤ i16_max → as_i16 v = v.
Proof. intros. geometry. unfold as_i16. rewrite Z.mod_small; lia. Qed.

Lemma as_u16_id v : 0 ≤ v ≤ u16_max → as_u16 v = v.
Proof. intros. geometry. unfold as_u16. rewrite Z.mod_small; lia. Qed.

Lemma contains_covers r x y :
  rect_ok r → i16_min ≤ x < i16_max → i16_min ≤ y < i16_max →
  Rect_contains r x y = true ↔ covers r x y.
Proof.
  intros Hr Hx Hy. unfold Rect_contains. rewrite !andb_true_iff, !Z.leb_le, !Z.ltb_lt.
  geometry. lia.
Qed.

(** The bounding box, when it fits. *)
Lemma merge_box a b :
  rect_ok a → rect_ok b →
  Z.max (rect_x a + rect_width a) (rect_x b + rect_width b) - Z.min (rect_x a) (rect_x b) ≤ u16_max →
  Z.max (rect_y a + rect_height a) (rect_y b + rect_height b) - Z.min (rect_y a) (rect_y b) ≤ u16_max →
  ∃ r, merge_damage (Some a) (Some b) = Some r ∧ rect_ok r ∧
    rect_x r = Z.min (rect_x a) (rect_x b) ∧ rect_y r = Z.min (rect_y a) (rect_y b) ∧
    rect_x r + rect_width r = Z.max (rect_x a + rect_width a) (rect_x b + rect_width b) ∧
    rect_y r + rect_height r = Z.max (rect_y a + rect_height a) (rect_y b + rect_height b).
Proof.
  intros Ha Hb Hw Hh. eexists. split; [reflexivity|]. geometry.
  rewrite !as_i16_id, !as_u16_id by (geometry; lia). lia.
Qed.

Lemma merge_in_plane ox oy a b :
  opt_in_plane ox oy a → opt_in_plane ox oy b → opt_in_plane ox oy (merge_damage a b).
Proof.
  destruct a as [a|], b as [b|]; try done. simpl opt_in_plane at 1 2. intros Ha Hb.
  destruct (merge_box a b) as (r & -> & Hr); [geometry; lia..|]. simpl. geometry. lia.
Qed.

Lemma merge_covers ox oy a b x y :
  opt_in_plane ox oy a → opt_in_plane ox oy b →
  covered_by a x y ∨ covered_by b x y → covered_by (merge_damage a b) x y.
Proof.
  intros Ha Hb [(r & -> & Hr)|(r & -> & Hr)].
  - destruct b as [b|]; [|by exists r]. simpl in Ha, Hb.
    destruct (merge_box r b) as (q & -> & Hq); [geometry; lia..|].
    exists q. split; [done|]. geometry. lia.
  - destruct a as [a|]; [|by exists r]. simpl in Ha, Hb.
    destruct (merge_box a r) as (q & -> & Hq); [geometry; lia..|].
    exists q. split; [done|]. geometry. lia.
Qed.

Lemma merge_within w h a b :
  w ≤ u16_max → h ≤ u16_max →
  opt_within w h a → opt_within w h b → opt_within w h (merge_damage a b).
Proof.
  intros Hw Hh. destruct a as [a|], b as [b|]; try done. simpl opt_within at 1 2. intros [Ha Ha'] [Hb Hb'].
  destruct (merge_box a b) as (r & -> & Hr); [geometry; lia..|]. simpl. geometry. lia.
Qed.

(** Merging with the whole surface gives the whole surface. *)
Lemma merge_bounds rect d :
  rect_ok rect → 0 < rect_width rect → 0 < rect_height rect →
  opt_within (rect_width rect) (rect_height rect) d →
  merge_damage d (Some (surface_bounds rect)) = Some (surface_bounds rect) ∧
  merge_damage (Some (surface_bounds rect)) d = Some (surface_bounds rect).
Proof.
  intros Hr Hw Hh Hd. destruct d as [[dx dy dw dh]|]; [|done]. destruct rect as [x y w h].
  simpl in Hd. unfold merge_damage. geometry.
  rewrite !as_i16_id, !as_u16_id by (geometry; lia).
  split; do 2 f_equal; lia.
Qed.

Lemma intersect_spec a b r :
  rect_ok a → rect_ok b → intersect_damage a b = Some r →
  rect_ok r ∧ 0 < rect_width r ∧ 0 < rect_height r ∧ ∀ x y, covers r x y ↔ covers a x y ∧ covers b x y.
Proof.
  intros Ha Hb. unfold intersect_damage. destruct (_ || _) eqn:E; [done|]. intros [= <-]. bools.
  geometry. rewrite !as_i16_id, !as_u16_id by (geometry; lia).
  split; [lia|]. split; [lia|]. split; [lia|]. intros x y. lia.
Qed.

Lemma intersect_None a b x y :
  rect_ok a → rect_ok b → intersect_damage a b = None → ¬ (covers a x y ∧ covers b x y).
Proof.
  intros Ha Hb. unfold intersect_damage. destruct (_ || _) eqn:E; [|done]. intros _.
  apply orb_true_iff in E as [E|E]; bools; geometry; lia.
Qed.

(** Clipping to a surface leaves a part of it. *)
Lemma intersect_within a rect r :
  rect_ok a → rect_ok rect → intersect_damage a (surface_bounds rect) = Some r →
  opt_within (rect_width rect) (rect_height rect) (Some r).
Proof.
  intros Ha Hb. unfold intersect_damage. destruct (_ || _) eqn:E; [done|]. intros [= <-]. bools.
  simpl. geometry. rewrite !as_i16_id, !as_u16_id by (geometry; lia). lia.
Qed.

(** A damaged part of a surface, on the output: exact where a pixel has [i16]
    coordinates, in spite of the saturation. *)
Lemma translate_spec ox oy rect d x y :
  in_plane ox oy rect → within (rect_width rect) (rect_height rect) d → rect_ok d →
  in_plane ox oy (translate_damage rect d) ∧
  (x ≤ i16_max → y ≤ i16_max → covers d (x - rect_x rect) (y - rect_y rect) →
   covers (translate_damage rect d) x y).
Proof. intros Hr Hd Hd'. unfold translate_damage. geometry. lia. Qed.
