(* ===== verification/Display.v ===== *)
(** * The display server

    Surfaces, atomic commits, damage, frame callbacks and input events of
    crates/expos-core/src/display.rs. *)

From stdpp Require Import prelude list.
From Stdlib Require Import ZArith Lia.
From S2P Require Import Prelude Identity Geometry.

Set Default Goal Selector "!".
Open Scope Z_scope.
Open Scope expos_scope.

(** ** Data *)

Definition MAX_SURFACES : nat := 16.
Definition MAX_DISPLAY_EVENTS : nat := 32.
Definition EXPDISPLAY_PROTOCOL_VERSION : Z := 3.
Arguments MAX_SURFACES : simpl never.
Arguments MAX_DISPLAY_EVENTS : simpl never.

(** [DisplayFeatures(u32)] *)
Definition DisplayFeatures := Z.
Definition DisplayFeatures_contains (self feature : DisplayFeatures) : bool :=
  Z.land self feature =? feature.
Definition ATOMIC_SURFACE_STATE : DisplayFeatures := Z.shiftl 1 0.
Definition DAMAGE_REGIONS : DisplayFeatures := Z.shiftl 1 1.
Definition MULTI_REGION_DAMAGE : DisplayFeatures := Z.shiftl 1 2.
Definition FRAME_CALLBACKS : DisplayFeatures := Z.shiftl 1 3.
Definition OUTPUT_DAMAGE : DisplayFeatures := Z.shiftl 1 4.
Definition ALPHA_BUFFERS : DisplayFeatures := Z.shiftl 1 5.
Definition POINTER_EVENT_COALESCING : DisplayFeatures := Z.shiftl 1 6.
Definition EVENT_OVERFLOW_RECOVERY : DisplayFeatures := Z.shiftl 1 7.
Definition PRESENTATION_DIAGNOSTICS : DisplayFeatures := Z.shiftl 1 8.

Record DisplayProtocolInfo := MkProtocolInfo {
  pi_version : Z; pi_max_surfaces : Z; pi_max_events : Z; pi_features : DisplayFeatures }.

Definition protocol_info : DisplayProtocolInfo :=
  MkProtocolInfo EXPDISPLAY_PROTOCOL_VERSION (Z.of_nat MAX_SURFACES) (Z.of_nat MAX_DISPLAY_EVENTS)
    (fold_left Z.lor
       [DAMAGE_REGIONS; MULTI_REGION_DAMAGE; FRAME_CALLBACKS; OUTPUT_DAMAGE; ALPHA_BUFFERS;
        POINTER_EVENT_COALESCING; EVENT_OVERFLOW_RECOVERY; PRESENTATION_DIAGNOSTICS]
       ATOMIC_SURFACE_STATE).

Inductive BufferFormat := Xrgb8888 | Argb8888 | Rgb565 | TextCells.

#[export] Instance BufferFormat_eq_dec : EqDecision BufferFormat.
Proof. solve_decision. Defined.

Definition BufferFormat_bits_per_pixel (self : BufferFormat) : Z :=
  match self with Xrgb8888 | Argb8888 => 32 | Rgb565 | TextCells => 16 end.
Definition BufferFormat_has_alpha (self : BufferFormat) : bool :=
  match self with Argb8888 => true | _ => false end.

Record BufferHandle := MkBuffer {
  bh_id : Z; bh_owner : Fin; bh_width : Z; bh_height : Z; bh_format : BufferFormat }.

#[export] Instance BufferHandle_eq_dec : EqDecision BufferHandle.
Proof. solve_decision. Defined.

Inductive SurfaceRole := RoleBackground | RoleWindow | RolePanel | RolePopup.

#[export] Instance SurfaceRole_eq_dec : EqDecision SurfaceRole.
Proof. solve_decision. Defined.

Record SurfaceState := MkSurfaceState {
  st_rect : Rect;
  st_buffer : option BufferHandle;
  st_damage : option Rect;
  st_visible : bool }.

Definition SurfaceState_eta (r : SurfaceState) : SurfaceState :=
  MkSurfaceState (st_rect r) (st_buffer r) (st_damage r) (st_visible r).
#[export] Instance set_st_rect : Setter st_rect := ltac:(build_setter SurfaceState_eta).
#[export] Instance set_st_buffer : Setter st_buffer := ltac:(build_setter SurfaceState_eta).
#[export] Instance set_st_damage : Setter st_damage := ltac:(build_setter SurfaceState_eta).
#[export] Instance set_st_visible : Setter st_visible := ltac:(build_setter SurfaceState_eta).

#[export] Instance SurfaceState_eq_dec : EqDecision SurfaceState.
Proof. solve_decision. Defined.

Record Surface := MkSurface {
  su_id : Z;
  su_owner : Fin;
  su_title : Text;
  su_role : SurfaceRole;
  su_current : SurfaceState;
  su_pending : SurfaceState;
  su_commit_sequence : Z;
  su_z_index : Z }.

Definition Surface_eta (r : Surface) : Surface :=
  MkSurface (su_id r) (su_owner r) (su_title r) (su_role r) (su_current r) (su_pending r) (su_commit_sequence r) (su_z_index r).
#[export] Instance set_su_id : Setter su_id := ltac:(build_setter Surface_eta).
#[export] Instance set_su_owner : Setter su_owner := ltac:(build_setter Surface_eta).
#[export] Instance set_su_title : Setter su_title := ltac:(build_setter Surface_eta).
#[export] Instance set_su_role : Setter su_role := ltac:(build_setter Surface_eta).
#[export] Instance set_su_current : Setter su_current := ltac:(build_setter Surface_eta).
#[export] Instance set_su_pending : Setter su_pending := ltac:(build_setter Surface_eta).
#[export] Instance set_su_commit_sequence : Setter su_commit_sequence := ltac:(build_setter Surface_eta).
#[export] Instance set_su_z_index : Setter su_z_index := ltac:(build_setter Surface_eta).

#[export] Instance Surface_eq_dec : EqDecision Surface.
Proof. solve_decision. Defined.

Inductive DisplayError := DispInvalid | DispDenied | DispNotFound | DispFull | DispBufferSizeMismatch.

Inductive DisplayEventKind :=
  | Configure | FocusIn | FocusOut | FrameDone | Key | PointerMotion | PointerButton.

#[export] Instance DisplayEventKind_eq_dec : EqDecision DisplayEventKind.
Proof. solve_decision. Defined.

Record DisplayEvent := MkDisplayEvent {
  ev_serial : Z;
  ev_owner : Fin;
  ev_surface_id : Z;
  ev_kind : DisplayEventKind;
  ev_value : Z }.

Definition DisplayEvent_eta (r : DisplayEvent) : DisplayEvent :=
  MkDisplayEvent (ev_serial r) (ev_owner r) (ev_surface_id r) (ev_kind r) (ev_value r).
#[export] Instance set_ev_serial : Setter ev_serial := ltac:(build_setter DisplayEvent_eta).
#[export] Instance set_ev_owner : Setter ev_owner := ltac:(build_setter DisplayEvent_eta).
#[export] Instance set_ev_surface_id : Setter ev_surface_id := ltac:(build_setter DisplayEvent_eta).
#[export] Instance set_ev_kind : Setter ev_kind := ltac:(build_setter DisplayEvent_eta).
#[export] Instance set_ev_value : Setter ev_value := ltac:(build_setter DisplayEvent_eta).

#[export] Instance DisplayEvent_eq_dec : EqDecision DisplayEvent.
Proof. solve_decision. Defined.

Record DisplayServer := MkDisplayServer {
  ds_surfaces : slots Surface;
  ds_output_damage : list (option Rect);
  ds_next_surface_id : Z;
  ds_next_z : Z;
  ds_commit_sequence : Z;
  ds_frame_sequence : Z;
  ds_pending_frame_commits : list Z;
  ds_focused : option Z;
  ds_events : slots DisplayEvent;
  ds_next_event_serial : Z;
  ds_commits : Z;
  ds_callbacks : Z;
  ds_coalesced_frame_callbacks : Z;
  ds_coalesced_pointer_motion : Z;
  ds_recovered_event_slots : Z;
  ds_dropped_events : Z }.

Definition DisplayServer_eta (r : DisplayServer) : DisplayServer :=
  MkDisplayServer (ds_surfaces r) (ds_output_damage r) (ds_next_surface_id r) (ds_next_z r) (ds_commit_sequence r) (ds_frame_sequence r) (ds_pending_frame_commits r) (ds_focused r) (ds_events r) (ds_next_event_serial r) (ds_commits r) (ds_callbacks r) (ds_coalesced_frame_callbacks r) (ds_coalesced_pointer_motion r) (ds_recovered_event_slots r) (ds_dropped_events r).
#[export] Instance set_ds_surfaces : Setter ds_surfaces := ltac:(build_setter DisplayServer_eta).
#[export] Instance set_ds_output_damage : Setter ds_output_damage := ltac:(build_setter DisplayServer_eta).
#[export] Instance set_ds_next_surface_id : Setter ds_next_surface_id := ltac:(build_setter DisplayServer_eta).
#[export] Instance set_ds_next_z : Setter ds_next_z := ltac:(build_setter DisplayServer_eta).
#[export] Instance set_ds_commit_sequence : Setter ds_commit_sequence := ltac:(build_setter DisplayServer_eta).
#[export] Instance set_ds_frame_sequence : Setter ds_frame_sequence := ltac:(build_setter DisplayServer_eta).
#[export] Instance set_ds_pending_frame_commits : Setter ds_pending_frame_commits := ltac:(build_setter DisplayServer_eta).
#[export] Instance set_ds_focused : Setter ds_focused := ltac:(build_setter DisplayServer_eta).
#[export] Instance set_ds_events : Setter ds_events := ltac:(build_setter DisplayServer_eta).
#[export] Instance set_ds_next_event_serial : Setter ds_next_event_serial := ltac:(build_setter DisplayServer_eta).
#[export] Instance set_ds_commits : Setter ds_commits := ltac:(build_setter DisplayServer_eta).
#[export] Instance set_ds_callbacks : Setter ds_callbacks := ltac:(build_setter DisplayServer_eta).
#[export] Instance set_ds_coalesced_frame_callbacks : Setter ds_coalesced_frame_callbacks := ltac:(build_setter DisplayServer_eta).
#[export] Instance set_ds_coalesced_pointer_motion : Setter ds_coalesced_pointer_motion := ltac:(build_setter DisplayServer_eta).
#[export] Instance set_ds_recovered_event_slots : Setter ds_recovered_event_slots := ltac:(build_setter DisplayServer_eta).
#[export] Instance set_ds_dropped_events : Setter ds_dropped_events := ltac:(build_setter DisplayServer_eta).

Record DisplayDiagnostics := MkDiagnostics {
  dd_surfaces : Z; dd_visible_surfaces : Z; dd_queued_events : Z; dd_pending_frame_callbacks : Z;
  dd_commits : Z; dd_frames : Z; dd_callbacks : Z; dd_coalesced_frame_callbacks : Z;
  dd_coalesced_pointer_motion : Z; dd_recovered_event_slots : Z; dd_dropped_events : Z }.

Definition DisplayServer_new : DisplayServer :=
  MkDisplayServer (empty_slots Surface MAX_SURFACES) (replicate MAX_SURFACES None) 1 1 0 0
    (replicate MAX_SURFACES 0) None (empty_slots DisplayEvent MAX_DISPLAY_EVENTS) 1 0 0 0 0 0 0.

(** ** Events *)

(** [counter.wrapping_add(1).max(1)], for a counter of the given width. *)
Definition next_counter (max counter : Z) : Z := Z.max (wrapping_add max counter 1) 1.

(** [events.iter().enumerate().filter_map(..)]: the events that satisfy [p],
    with their slots. *)
Definition indexed_events (p : DisplayEvent → bool) (events : slots DisplayEvent)
    : list (nat * DisplayEvent) :=
  omap (λ entry : nat * option DisplayEvent,
    match entry.2 with
    | Some event => if p event then Some (entry.1, event) else None
    | None => None
    end) (imap pair events).

Definition event_for (owner : Fin) (surface_id : Z) (event : DisplayEvent) : bool :=
  (ev_owner event ==? owner) && (ev_surface_id event =? surface_id).

Definition oldest_event (p : DisplayEvent → bool) (events : slots DisplayEvent) : option nat :=
  fst <$> min_by_key (λ entry, ev_serial entry.2) (indexed_events p events).

Definition DisplayServer_push_event (self : DisplayServer) (owner : Fin) (surface_id : Z)
    (kind : DisplayEventKind) (value : Z) : DisplayServer :=
  let event := MkDisplayEvent (ds_next_event_serial self) owner surface_id kind value in
  let self := self <| ds_next_event_serial := next_counter u64_max (ds_next_event_serial self) |> in
  match fill_slot event (ds_events self) with
  | Some events => self <| ds_events := events |>
  | None =>
      match (if kind !=? PointerMotion
             then oldest_event (λ e, ev_kind e ==? PointerMotion) (ds_events self) else None) with
      | Some index =>
          self <| ds_events := <[index := Some event]> (ds_events self) |>
               <| ds_recovered_event_slots :=
                    saturating_add u64_max (ds_recovered_event_slots self) 1 |>
      | None =>
          self <| ds_dropped_events := saturating_add u64_max (ds_dropped_events self) 1 |>
      end
  end.

(** An event that is already queued gets a new serial and value. *)
Definition refresh_event (self : DisplayServer) (index : nat) (value : Z) : DisplayServer :=
  let serial := ds_next_event_serial self in
  self <| ds_next_event_serial := next_counter u64_max serial |>
       <| ds_events := alter (option_map (λ event,
            event <| ev_serial := serial |> <| ev_value := value |>)) index (ds_events self) |>.

Definition DisplayServer_push_frame_done (self : DisplayServer) (owner : Fin) (surface_id sequence : Z)
    : DisplayServer * bool :=
  match position (λ entry, match entry with
                           | Some event => event_for owner surface_id event &&
                                           (ev_kind event ==? FrameDone)
                           | None => false
                           end) (ds_events self) with
  | Some index =>
      let self := refresh_event self index sequence in
      (self <| ds_coalesced_frame_callbacks :=
                 saturating_add u64_max (ds_coalesced_frame_callbacks self) 1 |>, true)
  | None =>
      let event := MkDisplayEvent (ds_next_event_serial self) owner surface_id FrameDone sequence in
      match fill_slot event (ds_events self) with
      | None => (self, false)
      | Some events =>
          (self <| ds_events := events |>
                <| ds_next_event_serial := next_counter u64_max (ds_next_event_serial self) |>, true)
      end
  end.

Definition DisplayServer_push_pointer_motion (self : DisplayServer) (owner : Fin)
    (surface_id value : Z) : DisplayServer :=
  match max_by_key (λ entry, ev_serial entry.2)
          (indexed_events (event_for owner surface_id) (ds_events self)) with
  | Some (index, newest) =>
      if ev_kind newest ==? PointerMotion then
        let self := refresh_event self index value in
        self <| ds_coalesced_pointer_motion :=
                  saturating_add u64_max (ds_coalesced_pointer_motion self) 1 |>
      else DisplayServer_push_event self owner surface_id PointerMotion value
  | None => DisplayServer_push_event self owner surface_id PointerMotion value
  end.

Definition DisplayServer_poll_event (self : DisplayServer) (owner : Fin)
    : DisplayServer * option DisplayEvent :=
  match oldest_event (λ event, ev_owner event ==? owner) (ds_events self) with
  | Some index =>
      (self <| ds_events := <[index := None]> (ds_events self) |>, mjoin (ds_events self !! index))
  | None => (self, None)
  end.

(** ** Surfaces *)

Definition DisplayServer_surface (self : DisplayServer) (surface_id : Z) : option Surface :=
  List.find (λ surface, su_id surface =? surface_id) (flatten (ds_surfaces self)).

(** [owned_mut], with what the caller does to the surface it returns. *)
Definition DisplayServer_owned_mut {A} (self : DisplayServer) (owner : Fin) (surface_id : Z)
    (body : Surface → Surface * result A DisplayError) : DisplayServer * result A DisplayError :=
  match DisplayServer_surface self surface_id with
  | None => (self, Err DispNotFound)
  | Some surface =>
      if su_owner surface !=? owner then (self, Err DispDenied)
      else
        let (surface', r) := body surface in
        (self <| ds_surfaces :=
                   update_first (λ s, su_id s =? surface_id) (λ _, surface') (ds_surfaces self) |>, r)
  end.

Definition DisplayServer_owned_index (self : DisplayServer) (owner : Fin) (surface_id : Z)
    : result nat DisplayError :=
  match position (λ slot, match slot with
                          | Some surface => su_id surface =? surface_id
                          | None => false
                          end) (ds_surfaces self) with
  | None => Err DispNotFound
  | Some index =>
      if match mjoin (ds_surfaces self !! index) with
         | None => true
         | Some surface => su_owner surface !=? owner
         end
      then Err DispDenied else Ok index
  end.

Definition add_pending_damage (surface : Surface) (damage : Rect) : Surface :=
  surface <| su_pending := (su_pending surface)
               <| st_damage := merge_damage (st_damage (su_pending surface)) (Some damage) |> |>.

Definition DisplayServer_create_surface (self : DisplayServer) (owner : Fin) (title : str)
    (role : SurfaceRole) (rect : Rect) : DisplayServer * result Z DisplayError :=
  if Fin_is_zero owner || (rect_width rect =? 0) || (rect_height rect =? 0)
  then (self, Err DispInvalid)
  else match Text_new title with
  | Err _ => (self, Err DispInvalid)
  | Ok title =>
      let id := ds_next_surface_id self in
      let state := MkSurfaceState rect None (Some (surface_bounds rect)) true in
      match fill_slot (MkSurface id owner title role state state 0 (ds_next_z self))
              (ds_surfaces self) with
      | None => (self, Err DispFull)
      | Some surfaces =>
          let self := self <| ds_next_surface_id := next_counter u32_max (ds_next_surface_id self) |>
                           <| ds_surfaces := surfaces |>
                           <| ds_next_z := saturating_add u16_max (ds_next_z self) 1 |> in
          (DisplayServer_push_event self owner id Configure (pack_size rect), Ok id)
      end
  end.

Definition DisplayServer_attach (self : DisplayServer) (owner : Fin) (surface_id : Z)
    (buffer : BufferHandle) : DisplayServer * result unit DisplayError :=
  DisplayServer_owned_mut self owner surface_id (λ surface,
    let rect := st_rect (su_pending surface) in
    if bh_owner buffer !=? owner then (surface, Err DispDenied)
    else if (bh_width buffer <? rect_width rect) || (bh_height buffer <? rect_height rect)
    then (surface, Err DispBufferSizeMismatch)
    else
      let surface := surface <| su_pending := (su_pending surface) <| st_buffer := Some buffer |> |> in
      (add_pending_damage surface (surface_bounds rect), Ok tt)).

Definition DisplayServer_damage (self : DisplayServer) (owner : Fin) (surface_id : Z)
    (damage : Rect) : DisplayServer * result unit DisplayError :=
  DisplayServer_owned_mut self owner surface_id (λ surface,
    if (rect_width damage =? 0) || (rect_height damage =? 0) then (surface, Err DispInvalid)
    else match intersect_damage damage (surface_bounds (st_rect (su_pending surface))) with
    | None => (surface, Err DispInvalid)
    | Some clipped => (add_pending_damage surface clipped, Ok tt)
    end).

(** The validation loop and the mutation loop of [damage_regions]. *)
Definition region_invalid (bounds region : Rect) : bool :=
  (rect_width region =? 0) || (rect_height region =? 0) ||
  match intersect_damage region bounds with None => true | Some _ => false end.

Fixpoint add_regions (bounds : Rect) (surface : Surface) (regions : list Rect) : outcome Surface :=
  match regions with
  | [] => Returns surface
  | region :: regions' =>
      match intersect_damage region bounds with
      | None => Panics
      | Some clipped => add_regions bounds (add_pending_damage surface clipped) regions'
      end
  end.

Definition DisplayServer_damage_regions (self : DisplayServer) (owner : Fin) (surface_id : Z)
    (regions : list Rect) : outcome (DisplayServer * result nat DisplayError) :=
  if is_empty regions then Returns (self, Err DispInvalid)
  else match DisplayServer_owned_index self owner surface_id with
  | Err e => Returns (self, Err e)
  | Ok index =>
  match mjoin (ds_surfaces self !! index) with
  | None => Returns (self, Err DispNotFound)
  | Some surface =>
      let bounds := surface_bounds (st_rect (su_pending surface)) in
      if existsb (region_invalid bounds) regions then Returns (self, Err DispInvalid)
      else match add_regions bounds surface regions with
      | Panics => Panics
      | OutOfFuel => OutOfFuel
      | Returns surface =>
          Returns (self <| ds_surfaces := <[index := Some surface]> (ds_surfaces self) |>,
                   Ok (length regions))
      end
  end end.

Definition DisplayServer_set_position (self : DisplayServer) (owner : Fin) (surface_id x y : Z)
    : DisplayServer * result unit DisplayError :=
  DisplayServer_owned_mut self owner surface_id (λ surface,
    let rect := st_rect (su_pending surface) in
    if (rect_x rect !=? x) || (rect_y rect !=? y) then
      let rect := rect <| rect_x := x |> <| rect_y := y |> in
      let surface := surface <| su_pending := (su_pending surface) <| st_rect := rect |> |> in
      (add_pending_damage surface (surface_bounds rect), Ok tt)
    else (surface, Ok tt)).

Definition DisplayServer_set_geometry (self : DisplayServer) (owner : Fin) (surface_id : Z)
    (rect : Rect) : DisplayServer * result unit DisplayError :=
  if (rect_width rect =? 0) || (rect_height rect =? 0) then (self, Err DispInvalid)
  else DisplayServer_owned_mut self owner surface_id (λ surface,
    if match st_buffer (su_pending surface) with
       | Some buffer => (bh_width buffer <? rect_width rect) || (bh_height buffer <? rect_height rect)
       | None => false
       end
    then (surface, Err DispBufferSizeMismatch)
    else (surface <| su_pending := (su_pending surface) <| st_rect := rect |>
                                     <| st_damage := Some (surface_bounds rect) |> |>, Ok tt)).

Definition DisplayServer_set_visible (self : DisplayServer) (owner : Fin) (surface_id : Z)
    (visible : bool) : DisplayServer * result unit DisplayError :=
  DisplayServer_owned_mut self owner surface_id (λ surface,
    if st_visible (su_pending surface) !=? visible then
      let surface := surface <| su_pending := (su_pending surface) <| st_visible := visible |> |> in
      (add_pending_damage surface (surface_bounds (st_rect (su_pending surface))), Ok tt)
    else (surface, Ok tt)).

(** ** Commits and frames *)

Definition committed_output_damage (old new : SurfaceState) : option Rect :=
  let geometry_changed := (st_rect old !=? st_rect new) || (st_visible old !=? st_visible new) in
  let output := None in
  let output := if geometry_changed && st_visible old
                then merge_damage output (Some (st_rect old)) else output in
  let output := if geometry_changed && st_visible new
                then merge_damage output (Some (st_rect new)) else output in
  if st_visible new
  then merge_damage output (option_map (translate_damage (st_rect new)) (st_damage new))
  else output.

(** [expect] on the slot that [owned_index] returned. *)
Definition DisplayServer_commit (self : DisplayServer) (owner : Fin) (surface_id : Z)
    : outcome (DisplayServer * result Z DisplayError) :=
  match DisplayServer_owned_index self owner surface_id with
  | Err e => Returns (self, Err e)
  | Ok index =>
  match mjoin (ds_surfaces self !! index) with
  | None => Panics
  | Some surface =>
      let sequence := next_counter u64_max (ds_commit_sequence self) in
      let old := su_current surface in
      let pending := su_pending surface in
      let output := merge_damage (mjoin (ds_output_damage self !! index))
                      (committed_output_damage old pending) in
      let unpresented :=
        if default 0 (ds_pending_frame_commits self !! index) !=? 0
        then st_damage old ≫= λ damage, intersect_damage damage (surface_bounds (st_rect pending))
        else None in
      let committed := pending <| st_damage := merge_damage unpresented (st_damage pending) |> in
      let surface := surface <| su_current := committed |>
                             <| su_pending := pending <| st_damage := None |> |>
                             <| su_commit_sequence := sequence |> in
      Returns (self <| ds_commits := saturating_add u64_max (ds_commits self) 1 |>
                    <| ds_commit_sequence := sequence |>
                    <| ds_output_damage := <[index := output]> (ds_output_damage self) |>
                    <| ds_surfaces := <[index := Some surface]> (ds_surfaces self) |>
                    <| ds_pending_frame_commits :=
                         <[index := sequence]> (ds_pending_frame_commits self) |>, Ok sequence)
  end end.

(** One round of the loop of [complete_frame]. *)
Definition complete_slot (st : DisplayServer * nat) (index : nat) : DisplayServer * nat :=
  let (self, completed) := st in
  let sequence := default 0 (ds_pending_frame_commits self !! index) in
  if sequence =? 0 then st
  else match mjoin (ds_surfaces self !! index) with
  | None =>
      (self <| ds_pending_frame_commits := <[index := 0]> (ds_pending_frame_commits self) |>, completed)
  | Some surface =>
      let self := self <| ds_surfaces := <[index := Some (surface
                    <| su_current := (su_current surface) <| st_damage := None |> |>)]>
                    (ds_surfaces self) |> in
      let (self, pushed) :=
        DisplayServer_push_frame_done self (su_owner surface) (su_id surface) sequence in
      if pushed
      then (self <| ds_pending_frame_commits := <[index := 0]> (ds_pending_frame_commits self) |>,
            S completed)
      else (self, completed)
  end.

Definition DisplayServer_complete_frame (self : DisplayServer) : DisplayServer * nat :=
  let self := self <| ds_frame_sequence := next_counter u64_max (ds_frame_sequence self) |> in
  let (self, completed) := fold_left complete_slot (seq 0 MAX_SURFACES) (self, 0%nat) in
  (self <| ds_output_damage := replicate MAX_SURFACES None |>
        <| ds_callbacks := saturating_add u64_max (ds_callbacks self) (Z.of_nat completed) |>,
   completed).

Definition DisplayServer_needs_frame (self : DisplayServer) : bool :=
  existsb (λ sequence, sequence !=? 0) (ds_pending_frame_commits self) ||
  existsb (λ damage, match damage with Some _ => true | None => false end) (ds_output_damage self).

Definition DisplayServer_pending_output_damage (self : DisplayServer) : list Rect :=
  flatten (ds_output_damage self).

(** [count() as u16]; every count is at most 32. *)
Definition DisplayServer_diagnostics (self : DisplayServer) : DisplayDiagnostics :=
  MkDiagnostics (Zlength (flatten (ds_surfaces self)))
    (Zlength (List.filter (λ surface, st_visible (su_current surface)) (flatten (ds_surfaces self))))
    (Zlength (flatten (ds_events self)))
    (Zlength (List.filter (λ sequence, sequence !=? 0) (ds_pending_frame_commits self)))
    (ds_commits self) (ds_frame_sequence self) (ds_callbacks self)
    (ds_coalesced_frame_callbacks self) (ds_coalesced_pointer_motion self)
    (ds_recovered_event_slots self) (ds_dropped_events self).

(** ** Focus, input and destruction *)

Definition DisplayServer_focus (self : DisplayServer) (surface_id : Z)
    : DisplayServer * result unit DisplayError :=
  let previous_owner :=
    match ds_focused self with
    | Some previous_id =>
        if previous_id !=? surface_id
        then (λ surface, (previous_id, su_owner surface)) <$> DisplayServer_surface self previous_id
        else None
    | None => None
    end in
  match DisplayServer_surface self surface_id with
  | None => (self, Err DispNotFound)
  | Some surface =>
      if negb (st_visible (su_current surface)) || (su_role surface ==? RoleBackground)
      then (self, Err DispDenied)
      else
        let self := self <| ds_surfaces := update_first (λ s, su_id s =? surface_id)
                              (λ s, s <| su_z_index := ds_next_z self |>) (ds_surfaces self) |>
                         <| ds_next_z := saturating_add u16_max (ds_next_z self) 1 |>
                         <| ds_focused := Some surface_id |> in
        let self := match previous_owner with
                    | Some (previous_id, previous_owner) =>
                        DisplayServer_push_event self previous_owner previous_id FocusOut 0
                    | None => self
                    end in
        (DisplayServer_push_event self (su_owner surface) surface_id FocusIn 0, Ok tt)
  end.

Definition DisplayServer_hit_test (self : DisplayServer) (x y : Z) : option Z :=
  su_id <$> max_by_key su_z_index
    (List.filter (λ surface, st_visible (su_current surface) &&
                             Rect_contains (st_rect (su_current surface)) x y)
       (flatten (ds_surfaces self))).

Definition DisplayServer_destroy (self : DisplayServer) (owner : Fin) (surface_id : Z)
    : DisplayServer * result unit DisplayError :=
  match DisplayServer_owned_index self owner surface_id with
  | Err e => (self, Err e)
  | Ok index =>
      let self :=
        match mjoin (ds_surfaces self !! index) with
        | Some surface =>
            if st_visible (su_current surface) then
              self <| ds_output_damage := <[index :=
                        merge_damage (mjoin (ds_output_damage self !! index))
                          (Some (st_rect (su_current surface)))]> (ds_output_damage self) |>
            else self
        | None => self
        end in
      let self := self <| ds_surfaces := <[index := None]> (ds_surfaces self) |>
                       <| ds_pending_frame_commits := <[index := 0]> (ds_pending_frame_commits self) |>
                       <| ds_events := (λ entry : option DisplayEvent,
                            match entry with
                            | Some event => if event_for owner surface_id event then None else entry
                            | None => None
                            end) <$> ds_events self |> in
      (if ds_focused self ==? Some surface_id then self <| ds_focused := None |> else self, Ok tt)
  end.

Definition DisplayServer_route_key (self : DisplayServer) (key : Z)
    : DisplayServer * result unit DisplayError :=
  match ds_focused self with
  | None => (self, Err DispNotFound)
  | Some surface_id =>
      match DisplayServer_surface self surface_id with
      | None => (self, Err DispNotFound)
      | Some surface =>
          (DisplayServer_push_event self (su_owner surface) surface_id Key key, Ok tt)
      end
  end.

Definition pointer_value (x y buttons changed : Z) : Z :=
  Z.lor (Z.lor (Z.lor (as_u16 x) (Z.shiftl (as_u16 y) 16)) (Z.shiftl buttons 32))
    (Z.shiftl changed 40).

Definition DisplayServer_route_pointer (self : DisplayServer) (x y buttons changed : Z)
    : DisplayServer * result Z DisplayError :=
  match DisplayServer_hit_test self x y with
  | None => (self, Err DispNotFound)
  | Some surface_id =>
      match DisplayServer_surface self surface_id with
      | None => (self, Err DispNotFound)
      | Some surface =>
          let owner := su_owner surface in
          let value := pointer_value x y buttons changed in
          let self := DisplayServer_push_pointer_motion self owner surface_id value in
          let self := if changed !=? 0
                      then DisplayServer_push_event self owner surface_id PointerButton value
                      else self in
          (self, Ok surface_id)
      end
  end.
