(* ===== verification/DisplayEvents.v ===== *)
(** * The event queue of the display server

    The 32 event slots as a multiset: what each queue operation of Display.v
    does to it, and the runs of the server that the display theorems speak
    about. *)

From stdpp Require Import prelude list.
From Stdlib Require Import ZArith Lia.
From S2P Require Import Prelude Identity Geometry Display.

Set Default Goal Selector "!".
Open Scope Z_scope.
Open Scope expos_scope.

(** ** Specification *)

Abbreviation surfaces s := (flatten (ds_surfaces s)).
Abbreviation events s := (flatten (ds_events s)).

(** The event a full queue gives up for a new one: its oldest pointer motion. *)
Definition evictable (evs : list DisplayEvent) (old : DisplayEvent) : Prop :=
  ev_kind old = PointerMotion ∧ length evs = MAX_DISPLAY_EVENTS ∧
  ∀ e, e ∈ evs → ev_kind e = PointerMotion → ev_serial old ≤ ev_serial e.

(** What a queued event may be overwritten by: the oldest pointer motion of a
    full queue by anything but pointer motion, any event by a newer one of its
    kind for the same surface. *)
Definition replaceable (evs : list DisplayEvent) (old e : DisplayEvent) : Prop :=
  (evictable evs old ∧ ev_kind e ≠ PointerMotion) ∨
  (ev_kind old = ev_kind e ∧ ev_owner old = ev_owner e ∧ ev_surface_id old = ev_surface_id e).

Inductive ev_push (evs : list DisplayEvent) (e : DisplayEvent) : list DisplayEvent → Prop :=
  | ev_add evs' : evs' ≡ₚ e :: evs → ev_push evs e evs'
  | ev_replace old rest evs' :
      evs ≡ₚ old :: rest → evs' ≡ₚ e :: rest → replaceable evs old e → ev_push evs e evs'
  | ev_drop : length evs = MAX_DISPLAY_EVENTS → ev_push evs e evs.

(** Everything but the event queue and its counters. *)
Definition display_core (s : DisplayServer) :=
  (ds_surfaces s, ds_output_damage s, ds_next_surface_id s, ds_next_z s, ds_commit_sequence s,
   ds_pending_frame_commits s, ds_focused s).

(** [s'] is [s] with event [e] pushed. *)
Record pushes (s : DisplayServer) (e : DisplayEvent) (s' : DisplayServer) : Prop := {
  pu_core : display_core s' = display_core s;
  pu_length : length (ds_events s') = length (ds_events s);
  pu_serial : ev_serial e = ds_next_event_serial s;
  pu_next : ds_next_event_serial s' = next_counter u64_max (ds_next_event_serial s);
  pu_events : ev_push (events s) e (events s') }.

(** ** Lemmas *)

Lemma next_counter_small max n : 0 ≤ n < max → next_counter max n = n + 1.
Proof. intros H. unfold next_counter, wrapping_add. rewrite Z.mod_small; lia. Qed.

Lemma elem_of_indexed p l i e :
  (i, e) ∈ indexed_events p l ↔ l !! i = Some (Some e) ∧ p e = true.
Proof.
  unfold indexed_events. rewrite list_elem_of_omap. split.
  - intros ([j o] & Hj & H). apply elem_of_lookup_imap in Hj as (k & o' & [= -> ->] & Hk).
    simpl in H. destruct o' as [e'|]; [|done]. destruct (p e') eqn:E; [|done]. naive_solver.
  - intros [Hl Hp]. exists (i, Some e). split; [|simpl; by rewrite Hp].
    apply elem_of_lookup_imap. eauto.
Qed.

Lemma oldest_event_Some p l i :
  oldest_event p l = Some i →
  ∃ e, l !! i = Some (Some e) ∧ p e = true ∧
       ∀ e', e' ∈ flatten l → p e' = true → ev_serial e ≤ ev_serial e'.
Proof.
  unfold oldest_event. destruct (min_by_key _ _) as [[j e]|] eqn:E; [|done]. intros [= <-].
  apply min_by_key_Some in E as [[Hl Hp]%elem_of_indexed Hmin]. exists e. split_and!; [done..|].
  intros e' (k & Hk)%elem_of_flatten_lookup Hp'. apply (Hmin (k, e')). by apply elem_of_indexed.
Qed.

Lemma oldest_event_None p l : oldest_event p l = None ↔ ∀ e, e ∈ flatten l → p e = false.
Proof.
  unfold oldest_event. rewrite fmap_None, min_by_key_None. split.
  - intros E e (i & Hi)%elem_of_flatten_lookup. destruct (p e) eqn:Ep; [|done].
    assert ((i, e) ∈ indexed_events p l) as H by by apply elem_of_indexed.
    rewrite E in H. by apply elem_of_nil in H.
  - intros H. destruct (indexed_events p l) as [|[i e] r] eqn:E; [done|].
    assert ((i, e) ∈ indexed_events p l) as [Hi Hp]%elem_of_indexed
      by (rewrite E; by apply elem_of_cons; left).
    rewrite (H e) in Hp; [done|]. by eapply flatten_lookup.
Qed.

Lemma push_event_pushes s owner id kind value :
  length (ds_events s) = MAX_DISPLAY_EVENTS →
  pushes s (MkDisplayEvent (ds_next_event_serial s) owner id kind value)
    (DisplayServer_push_event s owner id kind value).
Proof.
  intros Hlen. unfold DisplayServer_push_event. simpl. set (e := MkDisplayEvent _ _ _ _ _).
  destruct (fill_slot e (ds_events s)) as [evs|] eqn:E.
  { constructor; try done; simpl; [by eapply fill_slot_length|]. by eapply ev_add, fill_slot_perm. }
  apply fill_slot_None in E.
  assert (ev_push (events s) e (events s)) as Hdrop by (apply ev_drop; congruence).
  destruct (kind !=? PointerMotion) eqn:Hk; [|by constructor].
  destruct (oldest_event _ _) as [i|] eqn:Ei; [|by constructor].
  apply oldest_event_Some in Ei as (old & Hi & Hp & Hold). bools.
  constructor; try done; simpl; [by rewrite length_insert|].
  destruct (flatten_write _ _ _ Hi) as (rest & H1 & _ & H2). eapply ev_replace; eauto.
  left. split; [|done]. split_and!; [done|congruence|]. intros x Hx Hm. apply Hold; [done|].
  by rewrite Hm.
Qed.

Lemma refresh_pushes s i old value :
  ds_events s !! i = Some (Some old) →
  pushes s (MkDisplayEvent (ds_next_event_serial s) (ev_owner old) (ev_surface_id old) (ev_kind old)
              value) (refresh_event s i value).
Proof.
  intros Hi. unfold refresh_event. constructor; try done; simpl; [by rewrite length_alter|].
  destruct (flatten_write _ _ _ Hi) as (rest & H1 & _ & H2).
  eapply ev_replace; [exact H1| |by right]. etrans; [|apply H2].
  rewrite list_insert_alter. erewrite list_alter_ext; [done| |done].
  intros o Ho. rewrite Hi in Ho. by injection Ho as <-.
Qed.

Lemma push_motion_pushes s owner id value :
  length (ds_events s) = MAX_DISPLAY_EVENTS →
  pushes s (MkDisplayEvent (ds_next_event_serial s) owner id PointerMotion value)
    (DisplayServer_push_pointer_motion s owner id value).
Proof.
  intros Hlen. unfold DisplayServer_push_pointer_motion.
  destruct (max_by_key _ _) as [[i newest]|] eqn:E; [|by apply push_event_pushes].
  destruct (ev_kind newest ==? PointerMotion) eqn:Ek; [|by apply push_event_pushes].
  apply max_by_key_Some in E as [[Hi Hf]%elem_of_indexed _]. unfold event_for in Hf. bools. subst.
  destruct (refresh_pushes s i newest value Hi) as [H1 H2 H3 H4 H5].
  rewrite Ek in H5. by constructor.
Qed.

(** A frame callback is queued, or there is neither room nor an older one. *)
Lemma push_frame_done_spec s owner id sequence :
  match DisplayServer_push_frame_done s owner id sequence with
  | (s', true) =>
      pushes s (MkDisplayEvent (ds_next_event_serial s) owner id FrameDone sequence) s' ∧
      MkDisplayEvent (ds_next_event_serial s) owner id FrameDone sequence ∈ events s'
  | (s', false) => s' = s ∧ length (events s) = length (ds_events s)
  end.
Proof.
  unfold DisplayServer_push_frame_done. destruct (position _ _) as [i|] eqn:E.
  - apply position_Some in E as (o & Hi & Ho). destruct o as [old|]; [|done].
    unfold event_for in Ho. bools. subst.
    destruct (refresh_pushes s i old sequence Hi) as [H1 H2 H3 H4 H5]. rewrite H0 in H5.
    split; [by constructor|]. apply elem_of_flatten. simpl.
    apply list_elem_of_lookup. exists i. rewrite list_lookup_alter, Hi. simpl. rewrite <- H0.
    rewrite decide_True by done. by destruct old.
  - destruct (fill_slot _ _) as [evs|] eqn:Ef.
    + split; [|simpl; apply (elem_of_fill_slot _ _ _ _ Ef); by left].
      constructor; try done; simpl; [by eapply fill_slot_length|]. by eapply ev_add, fill_slot_perm.
    + split; [done|]. by apply fill_slot_None in Ef.
Qed.

(** [poll_event] hands out the owner's oldest event. *)
Lemma poll_event_spec s owner :
  match DisplayServer_poll_event s owner with
  | (s', Some e) =>
      display_core s' = display_core s ∧ length (ds_events s') = length (ds_events s) ∧
      ds_next_event_serial s' = ds_next_event_serial s ∧
      ev_owner e = owner ∧ events s ≡ₚ e :: events s' ∧
      ∀ e', e' ∈ events s → ev_owner e' = owner → ev_serial e ≤ ev_serial e'
  | (s', None) => s' = s ∧ ∀ e, e ∈ events s → ev_owner e ≠ owner
  end.
Proof.
  unfold DisplayServer_poll_event. destruct (oldest_event _ _) as [i|] eqn:E.
  - apply oldest_event_Some in E as (e & Hi & Hp & Hmin). bools. rewrite Hi. simpl.
    split_and!; [done|by rewrite length_insert|done|done| |].
    + destruct (flatten_write _ _ _ Hi) as (rest & H1 & H2 & _). by rewrite H1, H2.
    + intros e' He' Ho. apply Hmin; [done|]. by apply bool_decide_true.
  - split; [done|]. intros e He Ho. rewrite oldest_event_None in E. specialize (E e He).
    by rewrite bool_decide_true in E.
Qed.

(** ** Runs *)

Inductive d_op :=
  | DCreate (owner : Fin) (title : str) (role : SurfaceRole) (rect : Rect)
  | DAttach (owner : Fin) (id : Z) (buffer : BufferHandle)
  | DDamage (owner : Fin) (id : Z) (damage : Rect)
  | DRegions (owner : Fin) (id : Z) (regions : list Rect)
  | DPosition (owner : Fin) (id x y : Z)
  | DGeometry (owner : Fin) (id : Z) (rect : Rect)
  | DVisible (owner : Fin) (id : Z) (visible : bool)
  | DCommit (owner : Fin) (id : Z)
  | DDestroy (owner : Fin) (id : Z)
  | DPoll (owner : Fin)
  | DFocus (id : Z)
  | DKey (key : Z)
  | DPointer (x y buttons changed : Z)
  | DComplete.

(** The state after a call, and the event a poll returned. *)
Definition d_step (s : DisplayServer) (op : d_op) : outcome (DisplayServer * option DisplayEvent) :=
  match op with
  | DCreate owner title role rect =>
      Returns ((DisplayServer_create_surface s owner title role rect).1, None)
  | DAttach owner id buffer => Returns ((DisplayServer_attach s owner id buffer).1, None)
  | DDamage owner id damage => Returns ((DisplayServer_damage s owner id damage).1, None)
  | DRegions owner id regions =>
      match DisplayServer_damage_regions s owner id regions with
      | Returns (s', _) => Returns (s', None)
      | Panics => Panics
      | OutOfFuel => OutOfFuel
      end
  | DPosition owner id x y => Returns ((DisplayServer_set_position s owner id x y).1, None)
  | DGeometry owner id rect => Returns ((DisplayServer_set_geometry s owner id rect).1, None)
  | DVisible owner id visible => Returns ((DisplayServer_set_visible s owner id visible).1, None)
  | DCommit owner id =>
      match DisplayServer_commit s owner id with
      | Returns (s', _) => Returns (s', None)
      | Panics => Panics
      | OutOfFuel => OutOfFuel
      end
  | DDestroy owner id => Returns ((DisplayServer_destroy s owner id).1, None)
  | DPoll owner => Returns (DisplayServer_poll_event s owner)
  | DFocus id => Returns ((DisplayServer_focus s id).1, None)
  | DKey key => Returns ((DisplayServer_route_key s key).1, None)
  | DPointer x y buttons changed =>
      Returns ((DisplayServer_route_pointer s x y buttons changed).1, None)
  | DComplete => Returns ((DisplayServer_complete_frame s).1, None)
  end.

(** The state after some calls, and the events that were polled, in order. *)
Fixpoint d_run (s : DisplayServer) (ops : list d_op) : outcome (DisplayServer * list DisplayEvent) :=
  match ops with
  | [] => Returns (s, [])
  | op :: ops' =>
      match d_step s op with
      | Returns (s', polled) =>
          match d_run s' ops' with
          | Returns (s'', log) => Returns (s'', option_list polled ++ log)
          | Panics => Panics
          | OutOfFuel => OutOfFuel
          end
      | Panics => Panics
      | OutOfFuel => OutOfFuel
      end
  end.

(** The arguments are values of their Rust types. *)
Definition d_op_ok (op : d_op) : Prop :=
  match op with
  | DCreate _ _ _ rect | DDamage _ _ rect | DGeometry _ _ rect => rect_ok rect
  | DRegions _ _ regions => Forall rect_ok regions
  | DPosition _ _ x y => i16_min ≤ x ≤ i16_max ∧ i16_min ≤ y ≤ i16_max
  | _ => True
  end.

(** The Form on whose behalf a call is made; [None] for the compositor. *)
Definition d_caller (op : d_op) : option Fin :=
  match op with
  | DCreate owner _ _ _ | DAttach owner _ _ | DDamage owner _ _ | DRegions owner _ _
  | DPosition owner _ _ _ | DGeometry owner _ _ | DVisible owner _ _ | DCommit owner _
  | DDestroy owner _ | DPoll owner => Some owner
  | _ => None
  end.
