(* ===== verification/DisplayInvariant.v ===== *)
(** * Invariants of the display server

    Ownership, buffer bounds, event routing and callbacks of Display.v, over
    all runs of the server. *)

From stdpp Require Import prelude list strings.
From Stdlib Require Import ZArith Lia.
From S2P Require Import Prelude Identity Geometry Display DisplayEvents.

Set Default Goal Selector "!".
Open Scope Z_scope.
Open Scope expos_scope.

(** ** Specification *)

(** A state the compositor can paint: the buffer belongs to the owner of the
    surface and is large enough for it, and the damage lies inside. *)
Record state_ok (owner : Fin) (st : SurfaceState) : Prop := {
  so_rect : rect_ok (st_rect st);
  so_width : 0 < rect_width (st_rect st);
  so_height : 0 < rect_height (st_rect st);
  so_buffer : ∀ b, st_buffer st = Some b →
    bh_owner b = owner ∧ rect_width (st_rect st) ≤ bh_width b ∧
    rect_height (st_rect st) ≤ bh_height b;
  so_damage : opt_within (rect_width (st_rect st)) (rect_height (st_rect st)) (st_damage st) }.

(** A new buffer waits with the whole surface damaged. *)
Record surface_ok (u : Surface) : Prop := {
  uo_current : state_ok (su_owner u) (su_current u);
  uo_pending : state_ok (su_owner u) (su_pending u);
  uo_buffer : st_buffer (su_pending u) ≠ st_buffer (su_current u) →
    st_damage (su_pending u) = Some (surface_bounds (st_rect (su_pending u))) }.

Definition surface_key (u : Surface) : Z * Fin := (su_id u, su_owner u).
Definition keys (s : DisplayServer) : list (Z * Fin) := surface_key <$> surfaces s.

Record display_wf (s : DisplayServer) : Prop := {
  dw_surface_slots : length (ds_surfaces s) = MAX_SURFACES;
  dw_damage_slots : length (ds_output_damage s) = MAX_SURFACES;
  dw_pending_slots : length (ds_pending_frame_commits s) = MAX_SURFACES;
  dw_event_slots : length (ds_events s) = MAX_DISPLAY_EVENTS;
  dw_surfaces : ∀ u, u ∈ surfaces s → surface_ok u;
  dw_ids : NoDup (keys s).*1;
  dw_next_id : ∀ k, k ∈ keys s → 0 < k.1 < ds_next_surface_id s;
  dw_next_id_pos : 0 < ds_next_surface_id s;
  dw_focus : ∀ id, ds_focused s = Some id → id ∈ (keys s).*1;
  dw_pending : ∀ i n, ds_pending_frame_commits s !! i = Some n → n ≠ 0 →
    ∃ u, ds_surfaces s !! i = Some (Some u) ∧ su_commit_sequence u = n;
  dw_events : ∀ e, e ∈ events s → (ev_surface_id e, ev_owner e) ∈ keys s;
  dw_serials : NoDup (ev_serial <$> events s);
  dw_next_serial : ∀ e, e ∈ events s → 0 < ev_serial e < ds_next_event_serial s;
  dw_next_serial_pos : 0 < ds_next_event_serial s }.

(** ** Lemmas: finding and editing surfaces *)

Lemma flatten_fmap_insert {A B} (f : A → B) (l : slots A) i x y :
  l !! i = Some (Some x) → f y = f x → f <$> flatten (<[i := Some y]> l) = f <$> flatten l.
Proof.
  revert i. induction l as [|[z|] l IH]; intros [|i]; simpl; try done.
  - by intros [= ->] ->.
  - intros Hi Hf. f_equal. by apply IH.
  - apply IH.
Qed.

Lemma surface_find s id u :
  DisplayServer_surface s id = Some u →
  ∃ i, ds_surfaces s !! i = Some (Some u) ∧ su_id u = id ∧
       ∀ f, update_first (λ v, su_id v =? id) f (ds_surfaces s) = <[i := Some (f u)]> (ds_surfaces s).
Proof. intros (i & Hi & He & Hf)%find_slot. bools. eauto. Qed.

Lemma owned_mut_spec {A} s owner id (body : Surface → Surface * result A DisplayError) :
  (∃ e, DisplayServer_owned_mut s owner id body = (s, Err e)) ∨
  ∃ i u, ds_surfaces s !! i = Some (Some u) ∧ su_id u = id ∧ su_owner u = owner ∧
    DisplayServer_owned_mut s owner id body =
      (s <| ds_surfaces := <[i := Some (body u).1]> (ds_surfaces s) |>, (body u).2).
Proof.
  unfold DisplayServer_owned_mut. destruct (DisplayServer_surface s id) as [u|] eqn:E; [|eauto].
  destruct (su_owner u !=? owner) eqn:Eo; [eauto|]. bools. right.
  destruct (surface_find _ _ _ E) as (i & Hi & Hid & Hf). exists i, u.
  destruct (body u) as [u' r]. rewrite Hf. auto.
Qed.

Lemma owned_index_Ok s owner id i :
  DisplayServer_owned_index s owner id = Ok i →
  ∃ u, ds_surfaces s !! i = Some (Some u) ∧ su_id u = id ∧ su_owner u = owner.
Proof.
  unfold DisplayServer_owned_index. destruct (position _ _) as [j|] eqn:E; [|done].
  apply position_Some in E as ([u|] & Hj & Hu); [|done]. rewrite Hj. simpl.
  destruct (_ !=? owner) eqn:Eo; [done|]. intros [= <-]. bools. eauto.
Qed.

(** An edit of pending state only, where [moved] relates the old rectangle to
    the ones the surface may get. *)
Definition pending_edit (moved : Rect → Rect → Prop) (s : DisplayServer) (owner : Fin)
    (s' : DisplayServer) : Prop :=
  s' = s ∨
  ∃ i u p, ds_surfaces s !! i = Some (Some u) ∧ su_owner u = owner ∧
    surface_ok (u <| su_pending := p |>) ∧
    (st_rect p = st_rect (su_pending u) ∨ moved (st_rect (su_pending u)) (st_rect p)) ∧
    s' = s <| ds_surfaces := <[i := Some (u <| su_pending := p |>)]> (ds_surfaces s) |>.

Definition no_move (_ _ : Rect) : Prop := False.
Definition move_to (x y : Z) (old new : Rect) : Prop := new = old <| rect_x := x |> <| rect_y := y |>.
Definition resize_to (rect : Rect) (_ new : Rect) : Prop := new = rect.

Lemma add_damage_ok u d :
  surface_ok u → opt_within (rect_width (st_rect (su_pending u)))
    (rect_height (st_rect (su_pending u))) (Some d) →
  surface_ok (add_pending_damage u d).
Proof.
  intros [Hc [Hr Hw Hh Hb Hd] Hbuf] Hin. constructor; simpl; [done| |].
  - constructor; try done. simpl. apply merge_within; [apply Hr|apply Hr|done|done].
  - intros Hne. rewrite Hbuf by done. apply merge_bounds; done.
Qed.

(** Damaging all of a surface re-establishes the buffer condition. *)
Lemma add_bounds_ok u p rect :
  st_rect p = rect → state_ok (su_owner u) (su_current u) → state_ok (su_owner u) p →
  surface_ok (add_pending_damage (u <| su_pending := p |>) (surface_bounds rect)).
Proof.
  intros <- Hc Hp. destruct Hp as [Hr Hw Hh Hb Hd].
  destruct (merge_bounds (st_rect p) (st_damage p) Hr Hw Hh Hd) as [E _].
  constructor; simpl; [done| |done].
  constructor; try done. simpl. rewrite E. simpl. geometry. lia.
Qed.

Lemma pending_self moved u :
  ∃ p, u = u <| su_pending := p |> ∧
       (st_rect p = st_rect (su_pending u) ∨ moved (st_rect (su_pending u)) (st_rect p)).
Proof. exists (su_pending u). split; [by destruct u|by left]. Qed.

(** What [owned_mut] does when its body edits pending state. *)
Lemma owned_mut_pending {A} moved s owner id (body : Surface → Surface * result A DisplayError) :
  (∀ u, u ∈ surfaces s → surface_ok u) →
  (∀ u, surface_ok u → su_owner u = owner →
     surface_ok (body u).1 ∧
     ∃ p, (body u).1 = u <| su_pending := p |> ∧
          (st_rect p = st_rect (su_pending u) ∨ moved (st_rect (su_pending u)) (st_rect p))) →
  pending_edit moved s owner (DisplayServer_owned_mut s owner id body).1.
Proof.
  intros Hs Hb. destruct (owned_mut_spec s owner id body) as [(e & ->)|(i & u & Hi & _ & Ho & ->)];
    [by left|]. right.
  destruct (Hb u) as [Hok (p & Hp & Hm)]; [eapply Hs, flatten_lookup; exact Hi|done|].
  exists i, u, p. rewrite <- Hp. auto 6.
Qed.

Lemma attach_pending s owner id buffer :
  (∀ u, u ∈ surfaces s → surface_ok u) →
  pending_edit no_move s owner (DisplayServer_attach s owner id buffer).1.
Proof.
  intros Hs. apply owned_mut_pending; [done|]. intros u Hu Ho. cbv zeta beta.
  destruct (_ !=? owner) eqn:Eo; [by split; [|apply pending_self]|].
  destruct (_ || _) eqn:E; [by split; [|apply pending_self]|].
  bools. simpl. split; [|eexists; split; [done|by auto]].
  destruct Hu as [Hc [Hr Hw Hh Hb Hd] _].
  apply add_bounds_ok; [done|done|].
  constructor; try done. simpl. intros b [= <-]. rewrite Ho. auto.
Qed.

Lemma damage_pending s owner id damage :
  (∀ u, u ∈ surfaces s → surface_ok u) → rect_ok damage →
  pending_edit no_move s owner (DisplayServer_damage s owner id damage).1.
Proof.
  intros Hs Hd. apply owned_mut_pending; [done|]. intros u Hu Ho. cbv zeta beta.
  destruct (_ || _); [by split; [|apply pending_self]|].
  destruct (intersect_damage _ _) as [c|] eqn:E;
    [|by split; [|apply pending_self]].
  simpl. split; [|eexists; split; [done|by auto]]. apply add_damage_ok; [done|].
  eapply intersect_within; [done|apply Hu|done].
Qed.

(** The mutation loop of [damage_regions] does not panic on validated regions. *)
Lemma add_regions_ok regions u :
  surface_ok u → Forall rect_ok regions →
  existsb (region_invalid (surface_bounds (st_rect (su_pending u)))) regions = false →
  ∃ p, add_regions (surface_bounds (st_rect (su_pending u))) u regions =
         Returns (u <| su_pending := p |>) ∧ surface_ok (u <| su_pending := p |>) ∧
       st_rect p = st_rect (su_pending u).
Proof.
  revert u. induction regions as [|r rs IH]; intros u Hu Hr.
  { exists (su_pending u). by destruct u. }
  apply Forall_cons in Hr as [Hr Hrs]. simpl. unfold region_invalid at 1.
  destruct (intersect_damage _ _) as [c|] eqn:E; [|by rewrite !orb_true_r].
  rewrite orb_false_iff. intros [_ He].
  destruct (IH (add_pending_damage u c)) as (p & Hp & Hok & Hrect); [|done|done|by exists p].
  apply add_damage_ok; [done|]. eapply intersect_within; [done|apply Hu|done].
Qed.

Lemma damage_regions_pending s owner id regions :
  (∀ u, u ∈ surfaces s → surface_ok u) → Forall rect_ok regions →
  ∃ s' r, DisplayServer_damage_regions s owner id regions = Returns (s', r) ∧
    pending_edit no_move s owner s'.
Proof.
  intros Hs Hr. unfold DisplayServer_damage_regions.
  destruct (is_empty regions); [repeat eexists; by left|].
  destruct (DisplayServer_owned_index _ _ _) as [i|] eqn:Ei; [|repeat eexists; by left].
  apply owned_index_Ok in Ei as (u & Hi & _ & Ho). rewrite Hi. cbn [mjoin option_join].
  destruct (existsb _ _) eqn:E; [repeat eexists; by left|].
  destruct (add_regions_ok regions u) as (p & -> & Hok & Hrect); [|done|done|].
  { eapply Hs, flatten_lookup; exact Hi. }
  repeat eexists. right. exists i, u, p. auto 6.
Qed.

Lemma position_pending s owner id x y :
  (∀ u, u ∈ surfaces s → surface_ok u) → i16_min ≤ x ≤ i16_max → i16_min ≤ y ≤ i16_max →
  pending_edit (move_to x y) s owner (DisplayServer_set_position s owner id x y).1.
Proof.
  intros Hs Hx Hy. apply owned_mut_pending; [done|]. intros u Hu Ho. cbv zeta beta.
  destruct (_ || _); [|by split; [|apply pending_self]].
  simpl. split; [|eexists; split; [done|first [by left|by right]]]. destruct Hu as [Hc [Hr Hw Hh Hb Hd] _].
  apply add_bounds_ok; [done|done|].
  constructor; try done. unfold rect_ok in *. simpl. tauto.
Qed.

Lemma geometry_pending s owner id rect :
  (∀ u, u ∈ surfaces s → surface_ok u) → rect_ok rect →
  pending_edit (resize_to rect) s owner (DisplayServer_set_geometry s owner id rect).1.
Proof.
  intros Hs Hr. unfold DisplayServer_set_geometry.
  destruct (_ || _) eqn:E0; [by left|]. bools. apply owned_mut_pending; [done|]. intros u Hu Ho. cbv zeta beta.
  destruct (match st_buffer _ with Some _ => _ | None => _ end) eqn:E;
    [by split; [|apply pending_self]|].
  simpl. split; [|eexists; split; [done|first [by left|by right]]]. destruct Hu as [Hc [_ _ _ Hb _] _].
  constructor; simpl; [done| |done]. constructor; simpl; [done|geometry; lia..| |geometry; lia].
  intros b Hbuf. rewrite Hbuf in E. bools. destruct (Hb b Hbuf). auto.
Qed.

Lemma visible_pending s owner id visible :
  (∀ u, u ∈ surfaces s → surface_ok u) →
  pending_edit no_move s owner (DisplayServer_set_visible s owner id visible).1.
Proof.
  intros Hs. apply owned_mut_pending; [done|]. intros u Hu Ho. cbv zeta beta.
  destruct (_ !=? _); [|by split; [|apply pending_self]].
  simpl. split; [|eexists; split; [done|by auto]]. destruct Hu as [Hc [Hr Hw Hh Hb Hd] _].
  by apply add_bounds_ok.
Qed.

(** ** Lemmas: the invariant is preserved *)

Lemma display_wf_new : display_wf DisplayServer_new.
Proof.
  constructor; try done; try (by intros ? ?%elem_of_nil); try apply NoDup_nil_2.
  intros i n Hi. by apply lookup_replicate in Hi as [-> _].
Qed.

(** Rewriting a surface in place, with the callback that belongs to it. *)
Lemma wf_edit s s' i u u' :
  display_wf s → ds_surfaces s !! i = Some (Some u) → surface_key u' = surface_key u →
  surface_ok u' → ds_surfaces s' = <[i := Some u']> (ds_surfaces s) →
  length (ds_output_damage s') = length (ds_output_damage s) →
  ds_next_surface_id s' = ds_next_surface_id s → ds_events s' = ds_events s →
  ds_next_event_serial s' = ds_next_event_serial s →
  (∀ id, ds_focused s' = Some id → id ∈ (keys s).*1) →
  (ds_pending_frame_commits s' = ds_pending_frame_commits s ∧
     su_commit_sequence u' = su_commit_sequence u ∨
   ds_pending_frame_commits s' = <[i := su_commit_sequence u']> (ds_pending_frame_commits s)) →
  display_wf s'.
Proof.
  intros Hwf Hi Hk Hok Es Ed En Ee Eser Hf Hp.
  assert (keys s' = keys s) as Ek.
  { unfold keys. rewrite Es. by eapply flatten_fmap_insert. }
  assert (i < length (ds_surfaces s))%nat as Hlt by by eapply lookup_lt_Some.
  destruct Hwf. constructor; rewrite ?Ek, ?Ed, ?En, ?Ee, ?Eser; try done.
  - by rewrite Es, length_insert.
  - destruct Hp as [[-> _]| ->]; by rewrite ?length_insert.
  - intros v (j & Hj)%elem_of_flatten_lookup. rewrite Es in Hj.
    apply list_lookup_insert_Some in Hj as [(_ & [= ->] & _)|[_ Hj]]; [done|].
    eapply dw_surfaces0, flatten_lookup, Hj.
  - intros j n Hj Hn. rewrite Es. destruct (decide (i = j)) as [<-|Hne].
    + exists u'. rewrite list_lookup_insert_eq by done. split; [done|].
      destruct Hp as [[E E']|E]; rewrite E in Hj.
      * destruct (dw_pending0 i n Hj Hn) as (v & Hv & <-). rewrite Hi in Hv. by injection Hv as ->.
      * apply list_lookup_insert_Some in Hj as [(_ & -> & _)|[? _]]; done.
    + rewrite list_lookup_insert_ne by done. apply dw_pending0; [|done].
      destruct Hp as [[E _]|E]; rewrite E in Hj; [done|]. by rewrite list_lookup_insert_ne in Hj.
Qed.

Lemma ev_push_elem evs e evs' x : ev_push evs e evs' → x ∈ evs' → x = e ∨ x ∈ evs.
Proof.
  intros [evs1 ->|old rest evs1 E1 -> _|_]; rewrite ?E1, ?elem_of_cons; naive_solver.
Qed.

Lemma ev_push_NoDup evs e evs' :
  ev_push evs e evs' → NoDup (ev_serial <$> evs) → (∀ x, x ∈ evs → ev_serial x < ev_serial e) →
  NoDup (ev_serial <$> evs').
Proof.
  intros H Hnd Hlt. assert (∀ l : list DisplayEvent, (∀ x, x ∈ l → x ∈ evs) → ev_serial e ∉ ev_serial <$> l) as Hnew.
  { intros l Hl (x & E & Hx)%list_elem_of_fmap. specialize (Hlt x (Hl x Hx)). lia. }
  destruct H as [evs1 E|old rest evs1 E1 E2 _|_]; [| |done].
  - rewrite E. apply NoDup_cons. split; [by apply Hnew|done].
  - rewrite E2. rewrite E1 in Hnd. apply NoDup_cons in Hnd as [_ Hnd]. apply NoDup_cons.
    split; [|done]. apply Hnew. intros x Hx. rewrite E1. by apply elem_of_cons; right.
Qed.

Lemma wf_push s e s' :
  display_wf s → pushes s e s' → (ev_surface_id e, ev_owner e) ∈ keys s →
  ds_next_event_serial s < u64_max → display_wf s'.
Proof.
  intros Hwf [Hc Hl Hs Hn He] Hk Hmax. destruct Hwf.
  rewrite next_counter_small in Hn by lia.
  injection Hc as E1 E2 E3 E4 E5 E6 E7.
  assert (keys s' = keys s) as Ek by (unfold keys; by rewrite E1).
  constructor; rewrite ?Ek, ?E1, ?E2, ?E3, ?E6, ?E7, ?Hl, ?Hn; try done; try lia.
  - intros x [->|Hx]%(ev_push_elem _ _ _ _ He); auto.
  - eapply ev_push_NoDup; [done|done|]. intros x Hx. rewrite Hs. by apply dw_next_serial0.
  - intros x [->|Hx]%(ev_push_elem _ _ _ _ He); [lia|]. specialize (dw_next_serial0 x Hx). lia.
Qed.

Lemma wf_pending_edit moved s owner s' : display_wf s → pending_edit moved s owner s' → display_wf s'.
Proof.
  intros Hwf [->|(i & u & p & Hi & _ & Hok & _ & ->)]; [done|].
  apply (wf_edit s _ i u (u <| su_pending := p |>)); try done; [apply Hwf|by left].
Qed.

(** A creation is refused, or takes a free slot and queues [Configure]. *)
Lemma create_spec s owner title role rect :
  length (ds_events s) = MAX_DISPLAY_EVENTS →
  let '(s', r) := DisplayServer_create_surface s owner title role rect in
  (s' = s ∧ is_ok r = false) ∨
  ∃ u slots' s1 e,
    fill_slot u (ds_surfaces s) = Some slots' ∧ su_id u = ds_next_surface_id s ∧
    su_owner u = owner ∧ su_commit_sequence u = 0 ∧
    su_current u = MkSurfaceState rect None (Some (surface_bounds rect)) true ∧
    su_pending u = su_current u ∧ rect_width rect ≠ 0 ∧ rect_height rect ≠ 0 ∧
    s1 = s <| ds_next_surface_id := next_counter u32_max (ds_next_surface_id s) |>
           <| ds_surfaces := slots' |> <| ds_next_z := saturating_add u16_max (ds_next_z s) 1 |> ∧
    ev_owner e = owner ∧ ev_surface_id e = su_id u ∧ ev_kind e = Configure ∧ pushes s1 e s' ∧
    r = Ok (su_id u).
Proof.
  intros Hlen. unfold DisplayServer_create_surface. destruct (_ || _) eqn:E; [by left|]. bools.
  destruct (Text_new title) as [t|]; [|by left].
  destruct (fill_slot _ _) as [slots'|] eqn:Ef; [|by left]. right.
  eexists _, slots', _, (MkDisplayEvent (ds_next_event_serial s) owner (ds_next_surface_id s)
    Configure (pack_size rect)). split; [exact Ef|]. split_and!; try reflexivity; [done..|].
  lazymatch goal with |- pushes ?s1 _ _ => exact (push_event_pushes s1 _ _ _ _ Hlen) end.
Qed.

Lemma wf_create s owner title role rect :
  display_wf s → rect_ok rect → ds_next_surface_id s < u32_max → ds_next_event_serial s < u64_max →
  display_wf (DisplayServer_create_surface s owner title role rect).1.
Proof.
  intros Hwf Hr Hid Hser. pose proof (create_spec s owner title role rect (dw_event_slots s Hwf)) as H.
  destruct (DisplayServer_create_surface _ _ _ _ _) as [s' r]. simpl.
  destruct H as [[-> _]|(u & slots' & s1 & e & Hf & Eid & Eo & Ec & Ecur & Ep & Hw & Hh & -> & Heo & Hei & _ & Hpu & _)];
    [done|].
  assert (surface_key <$> flatten slots' ≡ₚ surface_key u :: keys s) as Hk.
  { by rewrite (fill_slot_perm _ _ _ Hf). }
  refine (wf_push _ _ _ _ Hpu _ Hser); [|unfold keys; simpl; rewrite Hk, Hei, Heo, <- Eo; by left].
  destruct Hwf. constructor; unfold keys; simpl; rewrite ?Hk, ?next_counter_small by lia; try done; try lia.
  - by erewrite fill_slot_length.
  - intros v [->|Hv]%(elem_of_fill_slot _ _ _ _ Hf); [|by apply dw_surfaces0].
    assert (state_ok (su_owner u) (su_current u)) as Hst.
    { rewrite Ecur. constructor; simpl; [done|geometry; lia..|done|geometry; lia]. }
    constructor; [done|by rewrite Ep|by rewrite Ep].
  - apply NoDup_cons. split; [|done]. intros (k & E & Hin)%list_elem_of_fmap.
    specialize (dw_next_id0 k Hin). rewrite <- E in dw_next_id0. simpl in dw_next_id0. lia.
  - intros k. rewrite Hk, elem_of_cons. intros [->|Hin]; [simpl; lia|].
    specialize (dw_next_id0 k Hin). lia.
  - intros id Hf'. rewrite Hk. apply elem_of_cons; right. by apply dw_focus0.
  - intros i n Hi Hn. destruct (dw_pending0 i n Hi Hn) as (v & Hv & <-). exists v. split; [|done].
    destruct (fill_slot_lookup _ _ _ Hf) as (j & Hj & _ & Hne). rewrite Hne; [done|]. congruence.
  - intros x Hx. rewrite Hk. apply elem_of_cons; right. by apply dw_events0.
Qed.

(** What [commit] makes of the surface in slot [index]. *)
Definition committed (s : DisplayServer) (index : nat) (u : Surface) : Surface :=
  let unpresented :=
    if default 0 (ds_pending_frame_commits s !! index) !=? 0
    then st_damage (su_current u) ≫= λ damage,
           intersect_damage damage (surface_bounds (st_rect (su_pending u)))
    else None in
  u <| su_current := (su_pending u)
         <| st_damage := merge_damage unpresented (st_damage (su_pending u)) |> |>
    <| su_pending := (su_pending u) <| st_damage := None |> |>
    <| su_commit_sequence := next_counter u64_max (ds_commit_sequence s) |>.

Lemma surface_commit_spec s owner id :
  ∃ s' r, DisplayServer_commit s owner id = Returns (s', r) ∧
  ((s' = s ∧ is_ok r = false) ∨
   ∃ i u, ds_surfaces s !! i = Some (Some u) ∧ su_id u = id ∧ su_owner u = owner ∧
     r = Ok (su_commit_sequence (committed s i u)) ∧
     s' = s <| ds_commits := saturating_add u64_max (ds_commits s) 1 |>
            <| ds_commit_sequence := su_commit_sequence (committed s i u) |>
            <| ds_output_damage := <[i := merge_damage (mjoin (ds_output_damage s !! i))
                  (committed_output_damage (su_current u) (su_pending u))]> (ds_output_damage s) |>
            <| ds_surfaces := <[i := Some (committed s i u)]> (ds_surfaces s) |>
            <| ds_pending_frame_commits := <[i := su_commit_sequence (committed s i u)]>
                  (ds_pending_frame_commits s) |>).
Proof.
  unfold DisplayServer_commit.
  destruct (DisplayServer_owned_index _ _ _) as [i|] eqn:E; [|repeat eexists; by left].
  apply owned_index_Ok in E as (u & Hi & Hid & Ho). rewrite Hi. cbn [mjoin option_join].
  eexists _, _. split; [reflexivity|]. right. exists i, u. done.
Qed.

Lemma committed_ok s i u : surface_ok u → surface_ok (committed s i u).
Proof.
  intros [[Cr _ _ _ Cd] [Hr Hw Hh Hb Hd] _]. constructor; simpl; [| |done]; constructor; try done.
  simpl. apply merge_within; [apply Hr|apply Hr| |done].
  destruct (_ !=? 0); [|done]. destruct (st_damage (su_current u)) as [d|]; [|done]. simpl in *.
  destruct (intersect_damage _ _) as [c|] eqn:E; [|done].
  eapply intersect_within; [apply Cd|done|done].
Qed.

Lemma wf_commit s owner id s' r :
  display_wf s → DisplayServer_commit s owner id = Returns (s', r) → display_wf s'.
Proof.
  intros Hwf E. destruct (surface_commit_spec s owner id) as (s1 & r1 & E1 & H). rewrite E1 in E.
  injection E as -> ->. destruct H as [[-> _]|(i & u & Hi & _ & _ & _ & ->)]; [done|].
  apply (wf_edit s _ i u (committed s i u)); try done.
  - eapply committed_ok, Hwf, flatten_lookup, Hi.
  - simpl. by rewrite length_insert.
  - apply Hwf.
  - by right.
Qed.

Lemma flatten_drop {A} (p : A → bool) (l : slots A) :
  flatten ((λ o : option A, match o with Some x => if p x then None else o | None => None end) <$> l) =
  List.filter (λ x, negb (p x)) (flatten l).
Proof.
  induction l as [|[x|] l IH]; [done| |exact IH].
  rewrite fmap_cons. cbn [flatten List.filter]. destruct (p x); cbn; [exact IH|]. f_equal. exact IH.
Qed.

(** A destruction is refused, or clears the slot with its callback, its events
    and the focus, and damages what was shown. *)
Lemma destroy_spec s owner id :
  let '(s', r) := DisplayServer_destroy s owner id in
  (s' = s ∧ is_ok r = false) ∨
  ∃ i u, ds_surfaces s !! i = Some (Some u) ∧ su_id u = id ∧ su_owner u = owner ∧ r = Ok tt ∧
    ds_surfaces s' = <[i := None]> (ds_surfaces s) ∧
    ds_pending_frame_commits s' = <[i := 0]> (ds_pending_frame_commits s) ∧
    ds_output_damage s' = (if st_visible (su_current u)
      then <[i := merge_damage (mjoin (ds_output_damage s !! i)) (Some (st_rect (su_current u)))]>
             (ds_output_damage s) else ds_output_damage s) ∧
    ds_focused s' = (if ds_focused s ==? Some id then None else ds_focused s) ∧
    ds_next_surface_id s' = ds_next_surface_id s ∧
    ds_next_event_serial s' = ds_next_event_serial s ∧
    ds_commit_sequence s' = ds_commit_sequence s ∧
    length (ds_events s') = length (ds_events s) ∧
    events s' = List.filter (λ e, negb (event_for owner id e)) (events s).
Proof.
  unfold DisplayServer_destroy.
  destruct (DisplayServer_owned_index _ _ _) as [i|] eqn:E; [|by left].
  apply owned_index_Ok in E as (u & Hi & Hid & Ho). right. exists i, u. rewrite Hi.
  cbn [mjoin option_join].
  destruct (st_visible (su_current u)); destruct (_ ==? Some id) eqn:Ef; simpl in *; rewrite ?Ef;
    split_and!; try done; rewrite ?length_fmap; try done; apply flatten_drop.
Qed.

Lemma wf_destroy s owner id : display_wf s → display_wf (DisplayServer_destroy s owner id).1.
Proof.
  intros Hwf. pose proof (destroy_spec s owner id) as H.
  destruct (DisplayServer_destroy s owner id) as [s' r]. simpl.
  destruct H as [[-> _]|(i & u & Hi & Hid & Ho & _ & Es & Ep & Ed & Ef & En & Eser & _ & El & Ee)]; [done|].
  destruct (flatten_write _ _ _ Hi) as (rest & H1 & H2 & _). rewrite <- Es in H2.
  assert (keys s ≡ₚ (id, owner) :: keys s') as Hk.
  { unfold keys. rewrite H1, H2. simpl. unfold surface_key at 1. by rewrite Hid, Ho. }
  destruct Hwf. rewrite Hk in dw_ids0. apply NoDup_cons in dw_ids0 as [Hnin Hnd].
  constructor; rewrite ?Es, ?Ep, ?En, ?Eser, ?length_insert, ?El; try done.
  - rewrite Ed. destruct (st_visible _); by rewrite ?length_insert.
  - intros v Hv. apply dw_surfaces0. rewrite H1, <- H2. apply elem_of_cons. right.
    by rewrite Es.
  - intros k Hin. apply dw_next_id0. rewrite Hk. by apply elem_of_cons; right.
  - intros f. rewrite Ef. destruct (_ ==? _) eqn:E; [done|]. bools. intros Hf.
    specialize (dw_focus0 f Hf). rewrite Hk in dw_focus0. simpl in dw_focus0.
    apply elem_of_cons in dw_focus0 as [->|?]; [by destruct E|done].
  - intros j n Hj Hn. destruct (decide (i = j)) as [<-|Hne].
    + apply list_lookup_insert_Some in Hj as [(_ & <- & _)|[? _]]; done.
    + rewrite list_lookup_insert_ne in Hj by done. rewrite list_lookup_insert_ne by done.
      by apply dw_pending0.
  - intros e. rewrite Ee, elem_of_filter_bool. intros [Hin Hne]. specialize (dw_events0 e Hin).
    rewrite Hk in dw_events0. apply elem_of_cons in dw_events0 as [[= E1 E2]|?]; [|done].
    unfold event_for in Hne. rewrite E1, E2, Z.eqb_refl, bool_decide_true in Hne; done.
  - rewrite Ee. clear -dw_serials0. induction (events s) as [|e l IH]; [done|]. simpl in *.
    apply NoDup_cons in dw_serials0 as [Hn Hl]. destruct (negb _); [|auto]. simpl. apply NoDup_cons.
    split; [|auto]. intros (x & E & [Hx _]%elem_of_filter_bool)%list_elem_of_fmap.
    destruct Hn. rewrite E. by apply list_elem_of_fmap_2.
  - intros e. rewrite Ee, elem_of_filter_bool. intros [Hin _]. by apply dw_next_serial0.
Qed.

(** Several events pushed in order. *)
Inductive push_run : DisplayServer → list DisplayEvent → DisplayServer → Prop :=
  | push_run_nil s : push_run s [] s
  | push_run_cons s e s1 es s' : pushes s e s1 → push_run s1 es s' → push_run s (e :: es) s'.

Lemma push_run_core s es s' : push_run s es s' → display_core s' = display_core s.
Proof. induction 1 as [|s e s1 es s' Hp _ IH]; [done|]. rewrite IH. apply Hp. Qed.

Lemma push_run_length s es s' : push_run s es s' → length (ds_events s') = length (ds_events s).
Proof. induction 1 as [|s e s1 es s' Hp _ IH]; [done|]. rewrite IH. apply Hp. Qed.

Lemma push_run_snoc s es s1 e s' : push_run s es s1 → pushes s1 e s' → push_run s (es ++ [e]) s'.
Proof.
  intros Hr. induction Hr as [s|s e1 s1 es s2 Hp _ IH]; intros He; simpl.
  - eapply push_run_cons; [done|apply push_run_nil].
  - eapply push_run_cons; [done|by apply IH].
Qed.

Lemma core_keys s s' : display_core s' = display_core s → keys s' = keys s.
Proof. intros [= E _ _ _ _ _ _]. unfold keys. by rewrite E. Qed.

Lemma wf_push_run s es s' :
  display_wf s → push_run s es s' →
  (∀ e, e ∈ es → (ev_surface_id e, ev_owner e) ∈ keys s) →
  ds_next_event_serial s + Zlength es ≤ u64_max →
  display_wf s' ∧ ds_next_event_serial s' = ds_next_event_serial s + Zlength es.
Proof.
  intros Hwf Hr. revert Hwf. induction Hr as [|s e s1 es s' Hp _ IH]; intros Hwf Hk Hs.
  { split; [done|]. unfold Zlength. simpl. lia. }
  unfold Zlength in *. simpl in Hs. pose proof (dw_next_serial_pos s Hwf).
  assert (ds_next_event_serial s1 = ds_next_event_serial s + 1) as En.
  { rewrite (pu_next _ _ _ Hp). apply next_counter_small. lia. }
  destruct IH as [H1 H2].
  - eapply wf_push; [done|done|apply Hk; by left|lia].
  - intros e' He'. rewrite (core_keys _ _ (pu_core _ _ _ Hp)). apply Hk. by right.
  - rewrite En. lia.
  - split; [done|]. rewrite H2, En. simpl. lia.
Qed.

Lemma wf_poll s owner : display_wf s → display_wf (DisplayServer_poll_event s owner).1.
Proof.
  intros Hwf. pose proof (poll_event_spec s owner) as H.
  destruct (DisplayServer_poll_event s owner) as [s' [e|]]; simpl; [|by destruct H as [-> _]].
  destruct H as (Hc & Hl & Hn & _ & He & _). pose proof (core_keys _ _ Hc) as Ek.
  injection Hc as E1 E2 E3 E4 E5 E6 E7. destruct Hwf.
  rewrite He in dw_serials0. apply NoDup_cons in dw_serials0 as [_ Hnd].
  constructor; rewrite ?Ek, ?E1, ?E2, ?E3, ?E6, ?E7, ?Hl, ?Hn; try done.
  - intros x Hx. apply dw_events0. rewrite He. by apply elem_of_cons; right.
  - intros x Hx. apply dw_next_serial0. rewrite He. by apply elem_of_cons; right.
Qed.

Lemma surface_key_elem s id u :
  DisplayServer_surface s id = Some u → (id, su_owner u) ∈ keys s.
Proof.
  intros (i & Hi & <- & _)%surface_find. apply (list_elem_of_fmap_2 surface_key (surfaces s) u).
  by eapply flatten_lookup.
Qed.

(** A focus change is refused, or raises the surface and tells both owners. *)
Lemma focus_spec s id :
  length (ds_events s) = MAX_DISPLAY_EVENTS →
  let '(s', r) := DisplayServer_focus s id in
  (s' = s ∧ is_ok r = false) ∨
  ∃ i u es, ds_surfaces s !! i = Some (Some u) ∧ su_id u = id ∧ r = Ok tt ∧
    push_run (s <| ds_surfaces := <[i := Some (u <| su_z_index := ds_next_z s |>)]> (ds_surfaces s) |>
                <| ds_next_z := saturating_add u16_max (ds_next_z s) 1 |>
                <| ds_focused := Some id |>) es s' ∧
    (length es ≤ 2)%nat ∧
    ∀ e, e ∈ es → (ev_surface_id e, ev_owner e) ∈ keys s ∧ (ev_kind e = FocusIn ∨ ev_kind e = FocusOut).
Proof.
  intros Hlen. unfold DisplayServer_focus.
  set (previous := match ds_focused s with Some _ => _ | None => None end).
  assert (∀ p o, previous = Some (p, o) → (p, o) ∈ keys s) as Hprev.
  { subst previous. intros p o. destruct (ds_focused s) as [f|]; [|done]. destruct (f !=? id); [|done].
    destruct (DisplayServer_surface s f) as [u|] eqn:E; [|done]. intros [= <- <-].
    by apply surface_key_elem. }
  destruct (DisplayServer_surface s id) as [u|] eqn:E; [|by left].
  pose proof (surface_key_elem _ _ _ E) as Hkey.
  destruct (_ || _); [by left|]. right.
  apply surface_find in E as (i & Hi & Hid & Hf). rewrite Hf. set (s1 := s <| ds_surfaces := _ |> <| ds_next_z := _ |> <| ds_focused := _ |>).
  assert (∃ es, push_run s1 es (match previous with
      | Some (p, o) => DisplayServer_push_event s1 o p FocusOut 0 | None => s1 end) ∧
      (length es ≤ 1)%nat ∧ ∀ e, e ∈ es → (ev_surface_id e, ev_owner e) ∈ keys s ∧ ev_kind e = FocusOut)
    as (es & Hr & Hl & Hes).
  { destruct previous as [[p o]|] eqn:Ep.
    - eexists [_]. split; [eapply push_run_cons; [by apply push_event_pushes|apply push_run_nil]|].
      split; [done|]. intros e ->%list_elem_of_singleton. split; [by apply Hprev|done].
    - exists []. split; [apply push_run_nil|]. split; [simpl; lia|]. by intros e ?%elem_of_nil. }
  set (s2 := match previous with Some _ => _ | None => _ end) in *.
  exists i, u, (es ++ [MkDisplayEvent (ds_next_event_serial s2) (su_owner u) id FocusIn 0]).
  split_and!; try done.
  - eapply push_run_snoc; [exact Hr|]. apply push_event_pushes. by rewrite (push_run_length _ _ _ Hr).
  - rewrite length_app. simpl. lia.
  - intros e [He|He%list_elem_of_singleton]%elem_of_app; [destruct (Hes e He); auto|subst e].
    split; [done|by left].
Qed.

Lemma wf_focus s id :
  display_wf s → ds_next_event_serial s + 2 ≤ u64_max →
  let s' := (DisplayServer_focus s id).1 in
  display_wf s' ∧ ds_next_surface_id s' = ds_next_surface_id s ∧
  ds_next_event_serial s' ≤ ds_next_event_serial s + 2.
Proof.
  intros Hwf Hs. pose proof (focus_spec s id (dw_event_slots s Hwf)) as H.
  destruct (DisplayServer_focus s id) as [s' r]. simpl.
  destruct H as [[-> _]|(i & u & es & Hi & Hid & _ & Hr & Hl & Hes)]; [split_and!; [done..|lia]|].
  pose proof (push_run_core _ _ _ Hr) as Hc. set (s1 := s <| ds_surfaces := _ |> <| ds_next_z := _ |> <| ds_focused := _ |>) in *.
  assert (u ∈ surfaces s) as Hu by by eapply flatten_lookup.
  assert (display_wf s1) as Hwf1.
  { apply (wf_edit s _ i u (u <| su_z_index := ds_next_z s |>)); try done; [| |by left].
    - destruct (dw_surfaces s Hwf u Hu). by constructor.
    - intros f [= <-]. subst id. apply (list_elem_of_fmap_2 fst (keys s) (surface_key u)).
      by apply list_elem_of_fmap_2. }
  assert (keys s1 = keys s) as Ek.
  { unfold keys. simpl. eapply flatten_fmap_insert; [exact Hi|done]. }
  destruct (wf_push_run s1 es s' Hwf1 Hr) as [H1 H2].
  - intros e He. rewrite Ek. by apply Hes.
  - unfold Zlength. change (ds_next_event_serial s1) with (ds_next_event_serial s). lia.
  - change (ds_next_event_serial s1) with (ds_next_event_serial s) in H2. unfold Zlength in H2.
    injection Hc as _ _ Hn _ _ _ _. split; [done|]. split; [done|lia].
Qed.

(** Input is queued for the owner of a live surface. *)
Lemma route_key_spec s key :
  length (ds_events s) = MAX_DISPLAY_EVENTS →
  let '(s', r) := DisplayServer_route_key s key in
  (s' = s ∧ is_ok r = false) ∨
  ∃ id u, ds_focused s = Some id ∧ DisplayServer_surface s id = Some u ∧ r = Ok tt ∧
    pushes s (MkDisplayEvent (ds_next_event_serial s) (su_owner u) id Key key) s'.
Proof.
  intros Hlen. unfold DisplayServer_route_key. destruct (ds_focused s) as [id|] eqn:E; [|by left].
  destruct (DisplayServer_surface s id) as [u|] eqn:Eu; [|by left]. right. exists id, u.
  split_and!; try done. by apply push_event_pushes.
Qed.

Lemma route_pointer_spec s x y buttons changed :
  length (ds_events s) = MAX_DISPLAY_EVENTS →
  let '(s', r) := DisplayServer_route_pointer s x y buttons changed in
  (s' = s ∧ is_ok r = false) ∨
  ∃ id u es, DisplayServer_hit_test s x y = Some id ∧ DisplayServer_surface s id = Some u ∧
    r = Ok id ∧ push_run s es s' ∧ (length es ≤ 2)%nat ∧
    ∀ e, e ∈ es → ev_owner e = su_owner u ∧ ev_surface_id e = id ∧
      (ev_kind e = PointerMotion ∨ ev_kind e = PointerButton ∧ changed ≠ 0) ∧
      ev_value e = pointer_value x y buttons changed.
Proof.
  intros Hlen. unfold DisplayServer_route_pointer.
  destruct (DisplayServer_hit_test s x y) as [id|] eqn:E; [|by left].
  destruct (DisplayServer_surface s id) as [u|] eqn:Eu; [|by left]. right. exists id, u.
  set (value := pointer_value _ _ _ _).
  pose proof (push_motion_pushes s (su_owner u) id value Hlen) as Hp.
  set (s1 := DisplayServer_push_pointer_motion _ _ _ _) in *.
  assert (push_run s [_] s1) as Hr by (eapply push_run_cons; [exact Hp|apply push_run_nil]).
  destruct (changed !=? 0) eqn:Ec; bools.
  - eexists _. split_and!; [done..| | |].
    + eapply push_run_snoc; [exact Hr|]. apply push_event_pushes. by rewrite (push_run_length _ _ _ Hr).
    + done.
    + intros e [->%list_elem_of_singleton|He%list_elem_of_singleton]%elem_of_app; [by auto 6|subst e; by auto 6].
  - eexists _. split_and!; [done..|exact Hr|simpl; lia|].
    intros e ->%list_elem_of_singleton. by auto 6.
Qed.

Lemma wf_key s key :
  display_wf s → ds_next_event_serial s + 1 ≤ u64_max →
  let s' := (DisplayServer_route_key s key).1 in
  display_wf s' ∧ ds_next_surface_id s' = ds_next_surface_id s ∧
  ds_next_event_serial s' ≤ ds_next_event_serial s + 1.
Proof.
  intros Hwf Hs. pose proof (route_key_spec s key (dw_event_slots s Hwf)) as H.
  pose proof (dw_next_serial_pos s Hwf).
  destruct (DisplayServer_route_key s key) as [s' r]. simpl.
  destruct H as [[-> _]|(id & u & _ & Eu & _ & Hp)]; [split_and!; [done..|lia]|].
  pose proof (pu_core _ _ _ Hp) as [= _ _ Hn _ _ _ _]. split_and!; [|done|].
  - eapply wf_push; [done|done| |lia]. by apply surface_key_elem.
  - rewrite (pu_next _ _ _ Hp), next_counter_small; lia.
Qed.

Lemma wf_pointer s x y buttons changed :
  display_wf s → ds_next_event_serial s + 2 ≤ u64_max →
  let s' := (DisplayServer_route_pointer s x y buttons changed).1 in
  display_wf s' ∧ ds_next_surface_id s' = ds_next_surface_id s ∧
  ds_next_event_serial s' ≤ ds_next_event_serial s + 2.
Proof.
  intros Hwf Hs. pose proof (route_pointer_spec s x y buttons changed (dw_event_slots s Hwf)) as H.
  destruct (DisplayServer_route_pointer s x y buttons changed) as [s' r]. simpl.
  destruct H as [[-> _]|(id & u & es & _ & Eu & _ & Hr & Hl & He)]; [split_and!; [done..|lia]|].
  pose proof (push_run_core _ _ _ Hr) as [= _ _ Hn _ _ _ _].
  destruct (wf_push_run s es s' Hwf Hr) as [H1 H2]; [|unfold Zlength; lia|].
  - intros e (-> & -> & _)%He. by apply surface_key_elem.
  - unfold Zlength in H2. split_and!; [done..|lia].
Qed.

Definition presented (u : Surface) : Surface :=
  u <| su_current := (su_current u) <| st_damage := None |> |>.

(** Presenting a slot does nothing, or marks its surface presented and then
    queues the callback unless the queue is full. *)
Lemma complete_slot_spec s n i :
  display_wf s →
  let '(s', n') := complete_slot (s, n) i in
  (s' = s ∧ n' = n ∧ default 0 (ds_pending_frame_commits s !! i) = 0) ∨
  ∃ u, ds_surfaces s !! i = Some (Some u) ∧ su_commit_sequence u ≠ 0 ∧
    ds_pending_frame_commits s !! i = Some (su_commit_sequence u) ∧
    let s1 := s <| ds_surfaces := <[i := Some (presented u)]> (ds_surfaces s) |> in
    (s' = s1 ∧ n' = n ∧ length (events s) = length (ds_events s)) ∨
    (n' = S n ∧ ∃ s2 e,
       e = MkDisplayEvent (ds_next_event_serial s) (su_owner u) (su_id u) FrameDone
             (su_commit_sequence u) ∧
       pushes s1 e s2 ∧ e ∈ events s2 ∧
       s' = s2 <| ds_pending_frame_commits := <[i := 0]> (ds_pending_frame_commits s2) |>).
Proof.
  intros Hwf. unfold complete_slot.
  destruct (ds_pending_frame_commits s !! i) as [q|] eqn:Eq; cbn [default from_option id]; [|by left].
  destruct (q =? 0) eqn:E0; bools; [by left|].
  destruct (dw_pending s Hwf i q Eq) as (u & Hi & <-); [done|]. rewrite Hi.
  cbn [mjoin option_join]. fold (presented u). set (s1 := s <| ds_surfaces := _ |>).
  pose proof (push_frame_done_spec s1 (su_owner u) (su_id u) (su_commit_sequence u)) as H.
  destruct (DisplayServer_push_frame_done _ _ _ _) as [s2 [|]].
  - right. exists u. split_and!; [done..|]. right. split; [done|]. destruct H as [H1 H2]. eauto 6.
  - right. exists u. split_and!; [done..|]. left. by destruct H as [-> H2].
Qed.

Lemma presented_ok u : surface_ok u → surface_ok (presented u).
Proof. intros [[] Hp Hb]. constructor; [by constructor|exact Hp|exact Hb]. Qed.

Lemma wf_complete_slot s n i :
  display_wf s → ds_next_event_serial s + 1 ≤ u64_max →
  let s' := (complete_slot (s, n) i).1 in
  display_wf s' ∧ ds_next_surface_id s' = ds_next_surface_id s ∧
  ds_next_event_serial s' ≤ ds_next_event_serial s + 1.
Proof.
  intros Hwf Hser. pose proof (complete_slot_spec s n i Hwf) as H.
  destruct (complete_slot (s, n) i) as [s' n']. simpl.
  destruct H as [(-> & _)|(u & Hi & Hn0 & Hq & H)]; [split_and!; [done..|lia]|].
  set (s1 := s <| ds_surfaces := _ |>) in *.
  assert (display_wf s1) as Hwf1.
  { apply (wf_edit s _ i u (presented u)); try done; [|apply Hwf|by left].
    eapply presented_ok, Hwf, flatten_lookup, Hi. }
  destruct H as [(-> & _)|(_ & s2 & e & Ee & Hp & _ & ->)]; [split_and!; [done..|simpl; lia]|].
  pose proof (dw_next_serial_pos s Hwf).
  pose proof (pu_core _ _ _ Hp) as Hc. pose proof (pu_next _ _ _ Hp) as Hn.
  rewrite next_counter_small in Hn by (simpl; lia). injection Hc as E1 _ E3 _ _ E6 _.
  split_and!; [|done|simpl in *; lia].
  assert (display_wf s2) as Hwf2.
  { eapply wf_push; [done|exact Hp| |simpl; lia]. subst e. simpl.
    apply (list_elem_of_fmap_2 surface_key (surfaces s1) (presented u)).
    eapply (flatten_lookup _ i). simpl. apply list_lookup_insert_eq. by eapply lookup_lt_Some. }
  destruct Hwf2. constructor; try done; simpl.
  - by rewrite length_insert.
  - intros j m Hj Hm. apply list_lookup_insert_Some in Hj as [(_ & <- & _)|[_ Hj]]; [done|].
    by apply dw_pending0.
Qed.

Lemma wf_complete_slots l s n :
  display_wf s → ds_next_event_serial s + Zlength l ≤ u64_max →
  let s' := (fold_left complete_slot l (s, n)).1 in
  display_wf s' ∧ ds_next_surface_id s' = ds_next_surface_id s ∧
  ds_next_event_serial s' ≤ ds_next_event_serial s + Zlength l.
Proof.
  unfold Zlength. revert s n. induction l as [|i l IH]; intros s n Hwf Hs; cbn [fold_left].
  { simpl. split_and!; [done..|lia]. }
  cbn [length] in *. destruct (wf_complete_slot s n i Hwf) as (H1 & H2 & H3); [lia|].
  destruct (complete_slot (s, n) i) as [s1 n1]. cbn [fst] in *.
  destruct (IH s1 n1 H1) as (H4 & H5 & H6); [lia|]. split_and!; [done|congruence|lia].
Qed.

Lemma wf_complete s :
  display_wf s → ds_next_event_serial s + 16 ≤ u64_max →
  let s' := (DisplayServer_complete_frame s).1 in
  display_wf s' ∧ ds_next_surface_id s' = ds_next_surface_id s ∧
  ds_next_event_serial s' ≤ ds_next_event_serial s + 16.
Proof.
  intros Hwf Hs. unfold DisplayServer_complete_frame.
  set (s0 := s <| ds_frame_sequence := _ |>).
  assert (display_wf s0) as Hwf0 by (destruct Hwf; by constructor).
  destruct (wf_complete_slots (seq 0 MAX_SURFACES) s0 0 Hwf0 Hs) as (H1 & H2 & H3).
  destruct (fold_left _ _ _) as [s1 n]. cbn [fst] in *. split_and!; [|done|exact H3].
  destruct H1. by constructor.
Qed.

(** ** Lemmas: runs *)

Definition creations (op : d_op) : Z := match op with DCreate _ _ _ _ => 1 | _ => 0 end.

(** The arguments are values of their types, and neither the 32-bit surface
    identifiers nor the 64-bit event serials wrap around. *)
Definition run_ok (ops : list d_op) : Prop :=
  Forall d_op_ok ops ∧ Zsum (creations <$> ops) < u32_max ∧ 16 * Zlength ops < u64_max.

Lemma pending_edit_counters moved s owner s' :
  pending_edit moved s owner s' →
  ds_next_surface_id s' = ds_next_surface_id s ∧ ds_next_event_serial s' = ds_next_event_serial s.
Proof. by intros [->|(i & u & p & _ & _ & _ & _ & ->)]. Qed.

(** Every call returns, in a state that satisfies the invariant. *)
Lemma wf_step s op :
  display_wf s → d_op_ok op → ds_next_surface_id s + creations op ≤ u32_max →
  ds_next_event_serial s + 16 ≤ u64_max →
  ∃ s' r, d_step s op = Returns (s', r) ∧ display_wf s' ∧
    ds_next_surface_id s' ≤ ds_next_surface_id s + creations op ∧
    ds_next_event_serial s' ≤ ds_next_event_serial s + 16.
Proof.
  intros Hwf Hok Hid Hser. pose proof (dw_surfaces s Hwf) as Hs.
  pose proof (dw_next_serial_pos s Hwf). pose proof (dw_next_id_pos s Hwf).
  assert (∀ moved owner s', pending_edit moved s owner s' → display_wf s' ∧
    ds_next_surface_id s' ≤ ds_next_surface_id s + 0 ∧
    ds_next_event_serial s' ≤ ds_next_event_serial s + 16) as Hpe.
  { intros moved owner s' He. destruct (pending_edit_counters _ _ _ _ He). split; [|lia].
    by eapply wf_pending_edit. }
  destruct op; cbn [d_step creations d_op_ok] in *.
  - eexists _, _. split; [done|]. split; [apply wf_create; auto; lia|].
    pose proof (create_spec s owner title role rect (dw_event_slots s Hwf)) as H1.
    destruct (DisplayServer_create_surface _ _ _ _ _) as [s' r]. simpl.
    destruct H1 as [[-> _]|(u & slots' & s1 & e & _ & _ & _ & _ & _ & _ & _ & _ & -> & _ & _ & _ & Hp & _)]; [lia|].
    pose proof (pu_core _ _ _ Hp) as [= _ _ Hn _ _ _ _].
    rewrite (pu_next _ _ _ Hp), Hn. simpl. rewrite !next_counter_small by lia. lia.
  - eexists _, _. split; [done|]. by eapply Hpe, attach_pending.
  - eexists _, _. split; [done|]. by eapply Hpe, damage_pending.
  - destruct (damage_regions_pending s owner id regions Hs Hok) as (s' & r & -> & He).
    eexists _, _. split; [done|]. by eapply Hpe.
  - eexists _, _. split; [done|]. by eapply Hpe, position_pending; try apply Hok.
  - eexists _, _. split; [done|]. by eapply Hpe, geometry_pending.
  - eexists _, _. split; [done|]. by eapply Hpe, visible_pending.
  - destruct (surface_commit_spec s owner id) as (s' & r & E & H1). rewrite E. eexists _, _. split; [done|].
    split; [by eapply wf_commit|]. destruct H1 as [[-> _]|(i & u & _ & _ & _ & _ & ->)]; simpl; lia.
  - eexists _, _. split; [done|]. split; [by apply wf_destroy|].
    pose proof (destroy_spec s owner id) as H1. destruct (DisplayServer_destroy _ _ _) as [s' r]. simpl.
    destruct H1 as [[-> _]|(i & u & _ & _ & _ & _ & _ & _ & _ & _ & -> & -> & _)]; lia.
  - destruct (DisplayServer_poll_event s owner) as [s' r] eqn:E. eexists _, _. split; [done|].
    pose proof (wf_poll s owner Hwf) as Hp. pose proof (poll_event_spec s owner) as H1.
    rewrite E in Hp, H1. split; [done|]. destruct r; [|destruct H1 as [-> _]; lia].
    destruct H1 as ([= _ _ -> _ _ _ _] & _ & -> & _). lia.
  - eexists _, _. split; [done|]. destruct (wf_focus s id Hwf) as (? & ? & ?); [lia|]. split; [done|lia].
  - eexists _, _. split; [done|]. destruct (wf_key s key Hwf) as (? & ? & ?); [lia|]. split; [done|lia].
  - eexists _, _. split; [done|].
    destruct (wf_pointer s x y buttons changed Hwf) as (? & ? & ?); [lia|]. split; [done|lia].
  - eexists _, _. split; [done|]. destruct (wf_complete s Hwf) as (? & ? & ?); [lia|]. split; [done|lia].
Qed.

Lemma creations_cons op ops :
  Zsum (creations <$> op :: ops) = creations op + Zsum (creations <$> ops).
Proof. done. Qed.

Lemma creations_pos ops : 0 ≤ Zsum (creations <$> ops).
Proof.
  induction ops as [|op ops IH]; [done|]. rewrite creations_cons. destruct op; simpl creations; lia.
Qed.

(** Invariants of runs, with the events polled so far. *)
Lemma run_invariant (Q : d_op → Prop) (I : DisplayServer → list DisplayEvent → Prop) ops s log0 :
  (∀ s log op s' r, display_wf s → d_op_ok op → Q op → ds_next_event_serial s + 16 ≤ u64_max →
     d_step s op = Returns (s', r) → display_wf s' → I s log → I s' (log ++ option_list r)) →
  display_wf s → I s log0 → Forall Q ops → Forall d_op_ok ops →
  ds_next_surface_id s + Zsum (creations <$> ops) ≤ u32_max →
  ds_next_event_serial s + 16 * Zlength ops ≤ u64_max →
  ∃ s' log, d_run s ops = Returns (s', log) ∧ display_wf s' ∧ I s' (log0 ++ log) ∧
    ds_next_surface_id s' ≤ ds_next_surface_id s + Zsum (creations <$> ops) ∧
    ds_next_event_serial s' ≤ ds_next_event_serial s + 16 * Zlength ops.
Proof.
  intros Hstep. unfold Zlength. revert s log0.
  induction ops as [|op ops IH]; intros s log0 Hwf HI HQ Hok Hid Hser.
  { exists s, []. rewrite app_nil_r. simpl in *. split_and!; try done; lia. }
  apply Forall_cons in HQ as [HQ HQs]. apply Forall_cons in Hok as [Hok Hoks].
  cbn [length] in *. rewrite creations_cons in Hid |- *. pose proof (creations_pos ops).
  destruct (wf_step s op Hwf Hok) as (s1 & r & E & Hwf1 & H1 & H2); [lia..|].
  destruct (IH s1 (log0 ++ option_list r)) as (s2 & log & E2 & Hwf2 & HI2 & H3 & H4);
    [done|apply (Hstep s log0 op s1 r); try done; lia|done|done|lia|lia|].
  exists s2, (option_list r ++ log). cbn [d_run]. rewrite E, E2. rewrite <- app_assoc in HI2.
  split_and!; try done; lia.
Qed.

Lemma run_reachable (Q : d_op → Prop) (I : DisplayServer → list DisplayEvent → Prop) ops :
  (∀ s log op s' r, display_wf s → d_op_ok op → Q op → ds_next_event_serial s + 16 ≤ u64_max →
     d_step s op = Returns (s', r) → display_wf s' → I s log → I s' (log ++ option_list r)) →
  I DisplayServer_new [] → Forall Q ops → run_ok ops →
  ∃ s log, d_run DisplayServer_new ops = Returns (s, log) ∧ display_wf s ∧ I s log ∧
    ds_next_surface_id s ≤ 1 + Zsum (creations <$> ops) ∧
    ds_next_event_serial s ≤ 1 + 16 * Zlength ops.
Proof.
  intros Hstep H0 HQ (Hok & Hc & Hl).
  apply (run_invariant Q I ops DisplayServer_new []); auto using display_wf_new; simpl; lia.
Qed.

(** ** Lemmas: isolation *)

(** What a call by Form [A] may do to the rest of the display. *)
Record isolates (A : Fin) (s s' : DisplayServer) : Prop := {
  is_surfaces : ∀ i u, su_owner u ≠ A →
    ds_surfaces s' !! i = Some (Some u) ↔ ds_surfaces s !! i = Some (Some u);
  is_output : ∀ i u, su_owner u ≠ A → ds_surfaces s !! i = Some (Some u) →
    ds_output_damage s' !! i = ds_output_damage s !! i ∧
    ds_pending_frame_commits s' !! i = ds_pending_frame_commits s !! i;
  is_events : ∀ e, ev_owner e ≠ A → e ∈ events s → e ∈ events s' ∨ evictable (events s) e;
  is_forged : ∀ e, ev_owner e ≠ A → e ∈ events s' → e ∈ events s;
  is_focus : ds_focused s' = ds_focused s ∨
    ∃ u, u ∈ surfaces s ∧ su_owner u = A ∧ ds_focused s = Some (su_id u) }.

Lemma isolates_refl A s : isolates A s s.
Proof. constructor; auto. Qed.

(** Rewriting a slot of [A]. *)
Lemma insert_own A (l : slots Surface) i u o :
  l !! i = Some (Some u) → su_owner u = A → (∀ u', o = Some u' → su_owner u' = A) →
  (∀ j v, su_owner v ≠ A → <[i := o]> l !! j = Some (Some v) ↔ l !! j = Some (Some v)) ∧
  (∀ j v, su_owner v ≠ A → l !! j = Some (Some v) → i ≠ j).
Proof.
  intros Hi Ho Hn.
  assert (∀ j v, su_owner v ≠ A → l !! j = Some (Some v) → i ≠ j) as Hne.
  { intros j v Hv Hj ->. rewrite Hi in Hj. injection Hj as ->. done. }
  split; [|done]. intros j v Hv. rewrite list_lookup_insert_Some. split.
  - intros [(_ & -> & _)|[_ ?]]; [by destruct (Hv (Hn v eq_refl))|done].
  - intros Hj. right. eauto.
Qed.

Lemma isolates_pending moved A s s' : pending_edit moved s A s' → isolates A s s'.
Proof.
  intros [->|(i & u & p & Hi & Ho & _ & _ & ->)]; [apply isolates_refl|].
  destruct (insert_own A _ i u (Some (u <| su_pending := p |>)) Hi Ho) as [H1 H2];
    [by intros ? [= <-]|].
  constructor; simpl; auto.
Qed.

Lemma isolates_commit A s id s' r :
  DisplayServer_commit s A id = Returns (s', r) → isolates A s s'.
Proof.
  destruct (surface_commit_spec s A id) as (s1 & r1 & -> & H). intros [= -> ->].
  destruct H as [[-> _]|(i & u & Hi & _ & Ho & _ & ->)]; [apply isolates_refl|].
  destruct (insert_own A _ i u (Some (committed s i u)) Hi Ho) as [H1 H2]; [by intros ? [= <-]|].
  constructor; simpl; auto.
  intros j v Hv Hj. rewrite !list_lookup_insert_ne by eauto. done.
Qed.

Lemma isolates_push A s s1 e s' :
  isolates A s s1 → ds_events s1 = ds_events s → pushes s1 e s' → ev_owner e = A → isolates A s s'.
Proof.
  intros [H1 H2 _ H4 H5] Es [Hc _ _ _ He] Ho. injection Hc as E1 E2 E3 E4 E5 E6 E7.
  rewrite Es in He. constructor; rewrite ?E1, ?E2, ?E6, ?E7; try done.
  - intros x Hx Hin. destruct He as [evs ->|old rest evs Hold -> Hr|_]; [by left; right| |by left].
    assert (x = old ∨ x ∈ rest) as [->|?] by (rewrite Hold in Hin; by apply elem_of_cons in Hin);
      [|by left; right].
    destruct Hr as [[? _]|(_ & Hm & _)]; [by right|congruence].
  - intros x Hx [->|?]%(ev_push_elem _ _ _ _ He); [done|auto].
Qed.

Lemma isolates_create A s title role rect :
  display_wf s → isolates A s (DisplayServer_create_surface s A title role rect).1.
Proof.
  intros Hwf. pose proof (create_spec s A title role rect (dw_event_slots s Hwf)) as H.
  destruct (DisplayServer_create_surface _ _ _ _ _) as [s' r]. simpl.
  destruct H as [[-> _]|(u & slots' & s1 & e & Hf & _ & Ho & _ & _ & _ & _ & _ & -> & Heo & _ & _ & Hp & _)];
    [apply isolates_refl|].
  eapply isolates_push; [| |exact Hp|done]; [|reflexivity]. constructor; simpl; auto.
  intros i v Hv. destruct (fill_slot_lookup _ _ _ Hf) as (j & Hj & Hj' & Hne).
  destruct (decide (i = j)) as [->|]; [|by rewrite Hne].
  rewrite Hj, Hj'. split; [|done]. by intros [= ->].
Qed.

Lemma isolates_destroy A s id : isolates A s (DisplayServer_destroy s A id).1.
Proof.
  pose proof (destroy_spec s A id) as H. destruct (DisplayServer_destroy s A id) as [s' r]. simpl.
  destruct H as [[-> _]|(i & u & Hi & Hid & Ho & _ & Es & Ep & Ed & Ef & _ & _ & _ & _ & Ee)];
    [apply isolates_refl|].
  destruct (insert_own A _ i u None Hi Ho) as [H1 H2]; [done|].
  constructor; rewrite ?Es, ?Ee; auto.
  - intros j v Hv Hj. rewrite Ep, Ed. rewrite list_lookup_insert_ne by eauto. split; [|done].
    destruct (st_visible _); [|done]. by rewrite list_lookup_insert_ne by eauto.
  - intros e He Hin. left. apply elem_of_filter_bool. split; [done|].
    unfold event_for. by rewrite bool_decide_false.
  - intros e _ [Hin _]%elem_of_filter_bool. done.
  - rewrite Ef. destruct (_ ==? _) eqn:E; [|by left]. bools. right. exists u. rewrite Hid.
    split_and!; [by eapply flatten_lookup|done..].
Qed.

Lemma isolates_poll A s :
  let '(s', r) := DisplayServer_poll_event s A in
  isolates A s s' ∧ ∀ e, r = Some e → ev_owner e = A.
Proof.
  pose proof (poll_event_spec s A) as H. destruct (DisplayServer_poll_event s A) as [s' [e|]].
  - destruct H as ([= E1 E2 E3 E4 E5 E6 E7] & _ & _ & Ho & He & _). split; [|by intros ? [= <-]].
    constructor; rewrite ?E1, ?E2, ?E6, ?E7; auto.
    + intros x Hx Hin. left. rewrite He in Hin. by apply elem_of_cons in Hin as [->|?].
    + intros x _ Hx. rewrite He. by right.
  - destruct H as [-> _]. split; [apply isolates_refl|done].
Qed.

Lemma isolates_step A s op s' r :
  display_wf s → d_op_ok op → d_caller op = Some A → d_step s op = Returns (s', r) →
  isolates A s s' ∧ ∀ e, r = Some e → ev_owner e = A.
Proof.
  intros Hwf Hok. pose proof (dw_surfaces s Hwf) as Hs.
  destruct op; try done; intros [= <-]; cbn [d_step d_op_ok] in *; try (intros [= <- <-]; split; [|done]).
  - by apply isolates_create.
  - by eapply isolates_pending, attach_pending.
  - by eapply isolates_pending, damage_pending.
  - destruct (damage_regions_pending s owner id regions Hs Hok) as (s1 & r1 & -> & He).
    intros [= <- <-]. split; [by eapply isolates_pending|done].
  - eapply isolates_pending, position_pending; [done|apply Hok..].
  - by eapply isolates_pending, geometry_pending.
  - by eapply isolates_pending, visible_pending.
  - destruct (DisplayServer_commit s owner id) as [[s1 r1]| |] eqn:E; try done.
    intros [= <- <-]. split; [by eapply isolates_commit|done].
  - apply isolates_destroy.
  - pose proof (isolates_poll owner s) as H. intros [= E]. by rewrite E in H.
Qed.

Lemma run_ok_snoc ops op :
  run_ok (ops ++ [op]) →
  run_ok ops ∧ d_op_ok op ∧ 1 + Zsum (creations <$> ops) + creations op ≤ u32_max ∧
  1 + 16 * Zlength ops + 16 ≤ u64_max.
Proof.
  intros ([H1 H2]%Forall_app & Hc & Hl). rewrite fmap_app in Hc.
  rewrite Zsum_app in Hc. change (Zsum (creations <$> [op])) with (creations op + 0) in Hc.
  unfold run_ok, Zlength in *. rewrite length_app in Hl. cbn [length] in Hl.
  apply Forall_cons in H2 as [H2 _]. assert (0 ≤ creations op) by by destruct op.
  split; [split_and!; try done; lia|]. split; [done|lia].
Qed.

Lemma display_run_wf ops s log :
  run_ok ops → d_run DisplayServer_new ops = Returns (s, log) →
  display_wf s ∧ ds_next_surface_id s ≤ 1 + Zsum (creations <$> ops) ∧
  ds_next_event_serial s ≤ 1 + 16 * Zlength ops.
Proof.
  intros Hok E. destruct (run_reachable (λ _, True) (λ _ _, True) ops) as (s1 & log1 & E1 & H1 & _ & H2);
    [done|done|by apply Forall_true|done|]. rewrite E in E1. by injection E1 as <- <-.
Qed.

(** ** Theorems *)

(** C28.  In a run of fewer than 2^32-1 creations and 2^60 calls (the surface
    identifiers and event serials do not wrap around) with geometry of its
    width, the display server never panics, and in the state it reaches each
    buffer a surface shows belongs to the Form that owns the surface and covers
    it, damage lies inside its surface, surface identifiers and event serials
    are distinct, the focused surface exists, and every queued event and frame
    callback belongs to a live surface of its addressee. *)
Theorem display_reachable_wf ops :
  run_ok ops → ∃ s log, d_run DisplayServer_new ops = Returns (s, log) ∧ display_wf s.
Proof.
  intros Hok. destruct (run_reachable (λ _, True) (λ _ _, True) ops) as (s & log & E & H & _);
    [done|done|by apply Forall_true|done|]. eauto.
Qed.

(** Two Forms, one window each, and a buffer for the first. *)
Definition alice : Fin := Fin_from_u128 1.
Definition bob : Fin := Fin_from_u128 2.
Definition demo_buffer : BufferHandle := MkBuffer 7 alice 8 8 Xrgb8888.
Definition demo_ops : list d_op :=
  [DCreate alice (lit "a") RoleWindow (MkRect 0 0 4 4);
   DCreate bob (lit "b") RoleWindow (MkRect 2 2 4 4);
   DAttach alice 1 demo_buffer; DCommit alice 1; DFocus 2; DPointer 3 3 0 0].

Lemma demo_run_ok : run_ok demo_ops.
Proof.
  split_and!; [|done..]. unfold demo_ops.
  repeat (apply Forall_cons; split; [first [exact I|simpl; geometry; lia]|]). apply Forall_nil_2.
Qed.

Lemma display_reachable_wf_witness :
  ∃ s log, d_run DisplayServer_new demo_ops = Returns (s, log) ∧ display_wf s.
Proof. apply (display_reachable_wf demo_ops). exact demo_run_ok. Defined.

(** C27.  Forms are isolated on the display, in a run of fewer than 2^32-1
    creations and 2^60 calls with geometry of its width: a call made for one
    Form leaves the surfaces, the damage and the frame callbacks of every other
    Form as they were, queues no event for another Form, takes the focus from no
    surface but the caller's own, and returns only events addressed to the
    caller.  Of the events queued for another Form it may take one, the oldest
    pointer motion of the whole queue, and only when all 32 slots are used. *)
Theorem display_isolation ops s log A op :
  run_ok (ops ++ [op]) → d_run DisplayServer_new ops = Returns (s, log) → d_caller op = Some A →
  ∃ s' r, d_step s op = Returns (s', r) ∧ isolates A s s' ∧ ∀ e, r = Some e → ev_owner e = A.
Proof.
  intros (Hok & Hop & Hid & Hser)%run_ok_snoc E Hc.
  destruct (display_run_wf ops s log Hok E) as (Hwf & H1 & H2).
  destruct (wf_step s op Hwf Hop) as (s' & r & Es & _); [lia..|].
  exists s', r. split; [done|]. by eapply isolates_step.
Qed.

Lemma display_isolation_witness :
  ∃ s log s' r, d_run DisplayServer_new demo_ops = Returns (s, log) ∧
    d_step s (DDestroy alice 2) = Returns (s', r) ∧ isolates alice s s'.
Proof.
  destruct (d_run DisplayServer_new demo_ops) as [[s log]| |] eqn:E; [|vm_compute in E; congruence..].
  destruct (display_isolation demo_ops s log alice (DDestroy alice 2)) as (s' & r & H1 & H2 & _);
    [|exact E|reflexivity|exists s, log, s', r; auto].
  destruct demo_run_ok as (H1 & _). split_and!; [|done..]. apply Forall_app. split; [exact H1|].
  by repeat constructor.
Defined.
