(* ===== verification/DisplayDamage.v ===== *)
(** * Output damage of the display server

    Between two presented frames, whatever changes on the output because of a
    commit or a destruction lies in the damage that [pending_output_damage]
    reports, as long as all surfaces lie in a window of 65,535 pixels; outside
    such a window the 16-bit bounding box wraps around. *)

From stdpp Require Import prelude list strings.
From Stdlib Require Import ZArith Lia.
From S2P Require Import Prelude Identity Geometry Display DisplayEvents DisplayInvariant.

Set Default Goal Selector "!".
Open Scope Z_scope.
Open Scope expos_scope.

(** ** Specification *)

(** What a surface slot shows at an output pixel: a pixel of a buffer. *)
Definition shown (slot : option Surface) (x y : Z) : option (BufferHandle * Z * Z) :=
  match slot with
  | None => None
  | Some u =>
      let st := su_current u in
      if st_visible st && bool_decide (rect_x (st_rect st) ≤ x < rect_x (st_rect st) + rect_width (st_rect st))
         && bool_decide (rect_y (st_rect st) ≤ y < rect_y (st_rect st) + rect_height (st_rect st))
      then match st_buffer st with
           | Some b => Some (b, x - rect_x (st_rect st), y - rect_y (st_rect st))
           | None => None
           end
      else None
  end.

Section plane.
(** All surfaces are at most [max_w] by [max_h] and are placed such that they lie in a
    window of 65,535 pixels with origin [(ox, oy)]. *)
Context (ox oy max_w max_h : Z).

Definition placed (x y : Z) : Prop :=
  ox ≤ x ≤ ox + u16_max - max_w ∧ oy ≤ y ≤ oy + u16_max - max_h.

Definition rect_placed (r : Rect) : Prop :=
  rect_ok r ∧ rect_width r ≤ max_w ∧ rect_height r ≤ max_h ∧ placed (rect_x r) (rect_y r).

Definition op_placed (op : d_op) : Prop :=
  match op with
  | DCreate _ _ _ rect | DGeometry _ _ rect => rect_placed rect
  | DPosition _ _ x y => placed x y
  | _ => True
  end.

Record display_placed (s : DisplayServer) : Prop := {
  dp_surfaces : ∀ i u, ds_surfaces s !! i = Some (Some u) →
    rect_placed (st_rect (su_current u)) ∧ rect_placed (st_rect (su_pending u));
  dp_damage : ∀ i d, ds_output_damage s !! i = Some d → opt_in_plane ox oy d }.

(** Every difference to [s0] is damaged, slot by slot. *)
Definition damage_covers (s0 s : DisplayServer) : Prop :=
  ∀ i x y, i16_min ≤ x ≤ i16_max → i16_min ≤ y ≤ i16_max →
    shown (mjoin (ds_surfaces s0 !! i)) x y ≠ shown (mjoin (ds_surfaces s !! i)) x y →
    covered_by (mjoin (ds_output_damage s !! i)) x y.

(** ** Lemmas *)

Lemma placed_in_plane r : rect_placed r → in_plane ox oy r.
Proof. unfold rect_placed, placed. intros Hr. geometry. lia. Qed.

Lemma shown_Some slot x y p :
  shown slot x y = Some p →
  ∃ u, slot = Some u ∧ st_visible (su_current u) = true ∧ covers (st_rect (su_current u)) x y.
Proof.
  unfold shown. destruct slot as [u|]; [|done]. destruct (_ && _) eqn:E; [|done]. intros _.
  bools. exists u. unfold covers. auto.
Qed.

(** A commit damages whatever it changes. *)
Lemma commit_covers u x y :
  surface_ok u → in_plane ox oy (st_rect (su_current u)) → in_plane ox oy (st_rect (su_pending u)) →
  let output := committed_output_damage (su_current u) (su_pending u) in
  opt_in_plane ox oy output ∧
  (x ≤ i16_max → y ≤ i16_max →
   ∀ v, st_rect (su_current v) = st_rect (su_pending u) →
     st_buffer (su_current v) = st_buffer (su_pending u) →
     st_visible (su_current v) = st_visible (su_pending u) →
     shown (Some u) x y ≠ shown (Some v) x y → covered_by output x y).
Proof.
  intros [_ [Pr _ _ _ Pd] Hb] Hc Hp. unfold committed_output_damage. cbv zeta.
  set (changed := _ || _).
  set (o1 := if changed && st_visible (su_current u) then _ else _).
  set (o2 := if changed && st_visible (su_pending u) then _ else _).
  assert (opt_in_plane ox oy o1) as H1 by (subst o1; destruct (changed && st_visible (su_current u)); [exact Hc|exact I]).
  assert (opt_in_plane ox oy o2) as H2.
  { subst o2. destruct (changed && st_visible (su_pending u)); [|done]. by apply merge_in_plane. }
  set (t := option_map (translate_damage (st_rect (su_pending u))) (st_damage (su_pending u))).
  assert (opt_in_plane ox oy t) as Ht.
  { subst t. destruct (st_damage (su_pending u)) as [d|]; [|done]. simpl in *.
    destruct Pd. by apply (translate_spec ox oy _ d 0 0). }
  split; [destruct (st_visible (su_pending u)); [by apply merge_in_plane|done]|].
  intros Hx Hy v Er Eb Ev Hne.
  assert (covered_by o2 x y ∨ st_visible (su_pending u) = true ∧ covered_by t x y) as Hcov.
  2: { destruct (st_visible (su_pending u)); [|by destruct Hcov as [?|[? _]]].
       apply (merge_covers ox oy); [done|done|tauto]. }
  assert (covered_by o1 x y → covered_by o2 x y) as H12.
  { intros H'. subst o2. destruct (changed && st_visible (su_pending u)); [|done]. apply (merge_covers ox oy); auto. }
  destruct changed eqn:Ech.
  - left. destruct (shown (Some u) x y) eqn:Eu.
    + apply shown_Some in Eu as (? & [= <-] & Hv & Hcov). apply H12. subst o1. rewrite Hv. simpl.
      by eexists.
    + destruct (shown (Some v) x y) eqn:Evv; [|done].
      apply shown_Some in Evv as (? & [= <-] & Hv & Hcov). rewrite Ev in Hv. rewrite Er in Hcov.
      subst o2. rewrite Hv. cbn [andb]. apply (merge_covers ox oy); [done|done|right]. by eexists.
  - right. subst changed. bools. unfold shown in Hne. rewrite Er, Eb, Ev, H, H0 in Hne.
    destruct (st_visible (su_pending u) && _ && _) eqn:E; [|done]. bools. split; [congruence|].
    subst t. rewrite Hb by (intros E'; rewrite E' in Hne; done). simpl. eexists. split; [done|].
    apply (translate_spec ox oy); auto; geometry; lia.
Qed.

(** What a call does to the surfaces and to the output damage. *)
Inductive output_step (s s' : DisplayServer) : Prop :=
  | os_same : ds_surfaces s' = ds_surfaces s → ds_output_damage s' = ds_output_damage s →
      output_step s s'
  | os_edit i u u' : ds_surfaces s !! i = Some (Some u) → su_current u' = su_current u →
      (rect_placed (st_rect (su_pending u)) → rect_placed (st_rect (su_pending u'))) →
      ds_surfaces s' = <[i := Some u']> (ds_surfaces s) →
      ds_output_damage s' = ds_output_damage s → output_step s s'
  | os_create u : fill_slot u (ds_surfaces s) = Some (ds_surfaces s') →
      st_buffer (su_current u) = None → rect_placed (st_rect (su_current u)) →
      su_pending u = su_current u → ds_output_damage s' = ds_output_damage s → output_step s s'
  | os_commit i u u' : ds_surfaces s !! i = Some (Some u) → surface_ok u →
      (∃ d, su_current u' = (su_pending u) <| st_damage := d |>) →
      st_rect (su_pending u') = st_rect (su_pending u) →
      ds_surfaces s' = <[i := Some u']> (ds_surfaces s) →
      ds_output_damage s' = <[i := merge_damage (mjoin (ds_output_damage s !! i))
        (committed_output_damage (su_current u) (su_pending u))]> (ds_output_damage s) →
      output_step s s'
  | os_destroy i u : ds_surfaces s !! i = Some (Some u) →
      ds_surfaces s' = <[i := None]> (ds_surfaces s) →
      ds_output_damage s' = (if st_visible (su_current u)
        then <[i := merge_damage (mjoin (ds_output_damage s !! i)) (Some (st_rect (su_current u)))]>
               (ds_output_damage s) else ds_output_damage s) → output_step s s'.

Lemma pending_output moved s owner s' :
  pending_edit moved s owner s' →
  (∀ old new, moved old new → rect_ok new → rect_placed old → rect_placed new) → output_step s s'.
Proof.
  intros [->|(i & u & p & Hi & _ & Hok & Hm & ->)] Hmv; [by apply os_same|].
  apply (os_edit s _ i u (u <| su_pending := p |>)); try done. intros Hu. destruct Hm as [E|Hm]; [simpl; by rewrite E|].
  eapply Hmv; [done|apply Hok|done].
Qed.

Lemma step_output s op s' r :
  display_wf s → d_op_ok op → op_placed op → op ≠ DComplete → d_step s op = Returns (s', r) →
  output_step s s'.
Proof.
  intros Hwf Hok Hpl Hc. pose proof (dw_surfaces s Hwf) as Hs.
  destruct op; cbn [d_step d_op_ok op_placed] in *; try (intros [= <- <-]); try done.
  - pose proof (create_spec s owner title role rect (dw_event_slots s Hwf)) as H.
    destruct (DisplayServer_create_surface _ _ _ _ _) as [s1 r1].
    destruct H as [[-> _]|(u & slots' & s2 & e & Hf & _ & _ & _ & Ec & Ep & _ & _ & -> & _ & _ & _ & Hp & _)];
      [by apply os_same|]. pose proof (pu_core _ _ _ Hp) as [= E1 E2 _ _ _ _ _].
    apply (os_create s _ u); simpl; rewrite ?E1, ?E2, ?Ep, ?Ec; done.
  - eapply pending_output; [by apply attach_pending|done].
  - eapply pending_output; [by apply damage_pending|done].
  - destruct (damage_regions_pending s owner id regions Hs Hok) as (s1 & r1 & -> & He).
    intros [= <- <-]. by eapply pending_output.
  - eapply pending_output; [apply position_pending; [done|apply Hok..]|].
    intros old new -> Hr Ho. unfold rect_placed in *. simpl. tauto.
  - eapply pending_output; [by apply geometry_pending|]. by intros old new ->.
  - eapply pending_output; [by apply visible_pending|done].
  - destruct (surface_commit_spec s owner id) as (s1 & r1 & -> & H). intros [= <- <-].
    destruct H as [[-> _]|(i & u & Hi & _ & _ & _ & ->)]; [by apply os_same|].
    eapply (os_commit _ _ i u (committed s i u)); try done; [eapply Hs, flatten_lookup, Hi|by eexists].
  - pose proof (destroy_spec s owner id) as H. destruct (DisplayServer_destroy _ _ _) as [s1 r1].
    destruct H as [[-> _]|(i & u & Hi & _ & _ & _ & Es & _ & Ed & _)]; [by apply os_same|].
    by apply (os_destroy _ _ i u).
  - pose proof (poll_event_spec s owner) as H. intros [= E]. rewrite E in H.
    destruct r; [|destruct H as [-> _]; by apply os_same].
    destruct H as ([= E1 E2 _ _ _ _ _] & _). by apply os_same.
  - pose proof (focus_spec s id (dw_event_slots s Hwf)) as H.
    destruct (DisplayServer_focus s id) as [s1 r1].
    destruct H as [[-> _]|(i & u & es & Hi & _ & _ & Hr & _)]; [by apply os_same|].
    apply push_run_core in Hr as [= E1 E2 _ _ _ _ _].
    by eapply (os_edit _ _ i u); [..|exact E1|exact E2].
  - pose proof (route_key_spec s key (dw_event_slots s Hwf)) as H.
    destruct (DisplayServer_route_key s key) as [s1 r1].
    destruct H as [[-> _]|(i & u & _ & _ & _ & Hp)]; [by apply os_same|].
    pose proof (pu_core _ _ _ Hp) as [= E1 E2 _ _ _ _ _]. by apply os_same.
  - pose proof (route_pointer_spec s x y buttons changed (dw_event_slots s Hwf)) as H.
    destruct (DisplayServer_route_pointer s x y buttons changed) as [s1 r1].
    destruct H as [[-> _]|(i & u & es & _ & _ & _ & Hr & _)]; [by apply os_same|].
    apply push_run_core in Hr as [= E1 E2 _ _ _ _ _]. by apply os_same.
Qed.

Lemma placed_step s s' :
  display_placed s → output_step s s' → display_placed s'.
Proof.
  intros [Hs Hd] Hst. assert (∀ i, opt_in_plane ox oy (mjoin (ds_output_damage s !! i))) as Hd'.
  { intros i. destruct (ds_output_damage s !! i) as [d|] eqn:E; [|done]. simpl. eauto. }
  destruct Hst as [E1 E2|i u u' Hi Ec Hp E1 E2|u Hf _ Hr Ep E2|i u u' Hi Hok (d & Ec) Ep E1 E2|i u Hi E1 E2].
  - constructor; rewrite ?E1, ?E2; done.
  - constructor; rewrite ?E1, ?E2; [|done].
    intros j v [(_ & [= <-] & _)|[_ Hj]]%list_lookup_insert_Some; [|eauto].
    rewrite Ec. destruct (Hs i u Hi). auto.
  - constructor; rewrite ?E2; [|done]. intros j v Hj.
    destruct (fill_slot_lookup _ _ _ Hf) as (k & _ & Hk & Hne).
    destruct (decide (j = k)) as [->|]; [|rewrite Hne in Hj; eauto].
    rewrite Hk in Hj. injection Hj as <-. by rewrite Ep.
  - destruct (Hs i u Hi) as [H1 H2]. constructor; rewrite ?E1, ?E2.
    + intros j v [(_ & [= <-] & _)|[_ Hj]]%list_lookup_insert_Some; [|eauto]. by rewrite Ec, Ep.
    + intros j o [(_ & <- & _)|[_ Hj]]%list_lookup_insert_Some; [|eauto]. apply merge_in_plane; [done|].
      apply (commit_covers u 0 0); auto using placed_in_plane.
  - constructor; rewrite ?E1, ?E2.
    + intros j v [(_ & ? & _)|[_ Hj]]%list_lookup_insert_Some; [done|eauto].
    + destruct (st_visible _); [|done]. intros j o [(_ & <- & _)|[_ Hj]]%list_lookup_insert_Some; [|eauto].
      apply merge_in_plane; [done|]. apply placed_in_plane. by eapply Hs.
Qed.

(** Rewriting slot [i] with enough damage keeps the differences covered. *)
Lemma covers_write s0 s s' i (o : option Surface) d :
  damage_covers s0 s → length (ds_output_damage s) = length (ds_surfaces s) →
  (∀ j, opt_in_plane ox oy (mjoin (ds_output_damage s !! j))) → opt_in_plane ox oy d →
  ds_surfaces s' = <[i := o]> (ds_surfaces s) →
  ds_output_damage s' = <[i := merge_damage (mjoin (ds_output_damage s !! i)) d]> (ds_output_damage s) →
  (∀ x y, x ≤ i16_max → y ≤ i16_max →
     shown (mjoin (ds_surfaces s !! i)) x y ≠ shown o x y → covered_by d x y) →
  damage_covers s0 s'.
Proof.
  intros Hc Hlen Hpl Hd E1 E2 Hi j x y Hx Hy. rewrite E1, E2.
  destruct (decide (i = j)) as [<-|Hne].
  2: { rewrite !list_lookup_insert_ne by done. by apply Hc. }
  destruct (decide (i < length (ds_surfaces s))%nat) as [Hlt|Hge].
  2: { rewrite !list_insert_ge by lia. by apply Hc. }
  rewrite !list_lookup_insert_eq by lia. cbn [mjoin option_join]. intros Hdiff.
  apply (merge_covers ox oy); [done|done|].
  destruct (decide (shown (mjoin (ds_surfaces s !! i)) x y = shown o x y)) as [E|E].
  - left. apply Hc; [done|done|]. by rewrite E.
  - right. apply Hi; [lia..|done].
Qed.

Lemma covers_step s0 s s' :
  display_wf s → display_placed s → damage_covers s0 s → output_step s s' → damage_covers s0 s'.
Proof.
  intros Hwf [Hs Hd] Hc Hst.
  assert (∀ i, opt_in_plane ox oy (mjoin (ds_output_damage s !! i))) as Hd'.
  { intros i. destruct (ds_output_damage s !! i) as [d|] eqn:E; [|done]. simpl. eauto. }
  assert (length (ds_output_damage s) = length (ds_surfaces s)) as Hlen.
  { by rewrite (dw_surface_slots s Hwf), (dw_damage_slots s Hwf). }
  destruct Hst as [E1 E2|i u u' Hi Ec _ E1 E2|u Hf Hb _ _ E2|i u u' Hi Hok (d & Ec) _ E1 E2|i u Hi E1 E2].
  - unfold damage_covers. by rewrite E1, E2.
  - intros j x y. rewrite E1, E2. destruct (decide (i = j)) as [<-|]; [|by rewrite list_lookup_insert_ne by done; apply Hc].
    specialize (Hc i x y). rewrite Hi in Hc. rewrite list_lookup_insert_eq by by eapply lookup_lt_Some.
    revert Hc. unfold shown. simpl. by rewrite Ec.
  - intros j x y. rewrite E2. specialize (Hc j x y).
    destruct (fill_slot_lookup _ _ _ Hf) as (k & Hk & Hk' & Hne).
    destruct (decide (j = k)) as [->|]; [|by rewrite Hne]. rewrite Hk in Hc. rewrite Hk'.
    revert Hc. simpl. rewrite Hb. by destruct (_ && _).
  - destruct (Hs i u Hi) as [H1%placed_in_plane H2%placed_in_plane].
    eapply (covers_write s0 s s' i (Some u')); [done|done|done| |done|exact E2|].
    + by apply (commit_covers u 0 0).
    + intros x y Hx Hy. rewrite Hi. destruct (commit_covers u x y Hok H1 H2) as [_ Hcc].
      apply Hcc; [done|done|by rewrite Ec..].
  - destruct (Hs i u Hi) as [H1%placed_in_plane _].
    destruct (st_visible (su_current u)) eqn:Ev.
    + eapply (covers_write s0 s s' i None); [done|done|done| |done|exact E2|]; [done|].
      intros x y _ _. rewrite Hi. cbn [mjoin option_join]. intros Hne.
      destruct (shown (Some u) x y) eqn:Eu; [|done].
      apply shown_Some in Eu as (? & [= <-] & _ & Hcov). by eexists.
    + intros j x y. rewrite E1, E2.
      destruct (decide (i = j)) as [<-|]; [|by rewrite list_lookup_insert_ne by done; apply Hc].
      specialize (Hc i x y). rewrite Hi in Hc.
      rewrite list_lookup_insert_eq by by eapply lookup_lt_Some. revert Hc. simpl. by rewrite Ev.
Qed.

(** Presenting a frame moves no surface. *)
Lemma placed_complete s :
  display_wf s → ds_next_event_serial s + 16 ≤ u64_max → display_placed s →
  display_placed (DisplayServer_complete_frame s).1.
Proof.
  intros Hwf Hser [Hs _]. unfold DisplayServer_complete_frame.
  set (s0 := s <| ds_frame_sequence := _ |>).
  assert (display_wf s0) as Hwf0 by (destruct Hwf; by constructor).
  change (∀ i u, ds_surfaces s0 !! i = Some (Some u) →
    rect_placed (st_rect (su_current u)) ∧ rect_placed (st_rect (su_pending u))) in Hs.
  change (ds_next_event_serial s0 + Zlength (seq 0 MAX_SURFACES) ≤ u64_max) in Hser.
  assert (∀ l n s, display_wf s → ds_next_event_serial s + Zlength l ≤ u64_max →
    (∀ i u, ds_surfaces s !! i = Some (Some u) →
       rect_placed (st_rect (su_current u)) ∧ rect_placed (st_rect (su_pending u))) →
    ∀ i u, ds_surfaces (fold_left complete_slot l (s, n)).1 !! i = Some (Some u) →
       rect_placed (st_rect (su_current u)) ∧ rect_placed (st_rect (su_pending u))) as Hfold.
  { clear. intros l. unfold Zlength. induction l as [|j l IH]; intros n s Hwf Hser Hs; [done|].
    cbn [fold_left length] in *. destruct (wf_complete_slot s n j Hwf) as (H1 & _ & H3); [lia|].
    pose proof (complete_slot_spec s n j Hwf) as H.
    destruct (complete_slot (s, n) j) as [s1 n1]. cbn [fst] in *. apply IH; [done|lia|].
    destruct H as [(-> & _)|(u & Hj & _ & _ & H)]; [done|].
    assert (ds_surfaces s1 = <[j := Some (presented u)]> (ds_surfaces s)) as ->.
    { destruct H as [(-> & _)|(_ & s2 & e & _ & Hp & _ & ->)]; [done|].
      by pose proof (pu_core _ _ _ Hp) as [= E1 _ _ _ _ _ _]. }
    intros i v [(_ & [= <-] & _)|[_ Hi]]%list_lookup_insert_Some; [|eauto]. apply (Hs j u Hj). }
  specialize (Hfold _ 0%nat s0 Hwf0 Hser Hs).
  destruct (fold_left _ _ _) as [s1 n]. cbn [fst] in *. constructor; [exact Hfold|].
  by intros i d [-> _]%lookup_replicate.
Qed.

Lemma run_placed ops s log :
  run_ok ops → Forall op_placed ops → d_run DisplayServer_new ops = Returns (s, log) →
  display_placed s.
Proof.
  intros Hok Hpl E.
  destruct (run_reachable op_placed (λ s _, display_placed s) ops) as (s1 & log1 & E1 & _ & H1 & _);
    [|constructor; [by intros i u [? _]%lookup_replicate|by intros i d [-> _]%lookup_replicate]|done|done|].
  - intros s2 lg op s3 r Hwf Hop Hp Hser Hst _ Hpl2.
    assert (op = DComplete ∨ op ≠ DComplete) as [->|Hne] by (destruct op; first [by left|by right]).
    + injection Hst as <- _. by apply placed_complete.
    + eapply placed_step; [done|]. by eapply step_output.
  - rewrite E in E1. by injection E1 as -> ->.
Qed.
End plane.

Lemma run_ok_app ops1 ops2 :
  run_ok (ops1 ++ ops2) →
  run_ok ops1 ∧ Forall d_op_ok ops2 ∧
  1 + Zsum (creations <$> ops1) + Zsum (creations <$> ops2) ≤ u32_max ∧
  1 + 16 * Zlength ops1 + 16 * Zlength ops2 ≤ u64_max.
Proof.
  intros ([H1 H2]%Forall_app & Hc & Hl). rewrite fmap_app, Zsum_app in Hc.
  pose proof (creations_pos ops2). unfold run_ok, Zlength in *. rewrite length_app in Hl.
  split; [split_and!; try done; lia|]. split; [done|lia].
Qed.

(** ** Theorems *)

(** C29.  Between two presented frames, every pixel at which a surface slot shows
    something else than before - another buffer, another part of it, or nothing
    - lies in one of the rectangles of [pending_output_damage], provided that
    all surfaces lie in a window of 65,535 by 65,535 pixels and the run has fewer
    than 2^32-1 creations and 2^60 calls. *)
Theorem display_damage_covers ox oy max_w max_h ops1 ops2 s log :
  run_ok (ops1 ++ ops2) → Forall (op_placed ox oy max_w max_h) (ops1 ++ ops2) → DComplete ∉ ops2 →
  d_run DisplayServer_new ops1 = Returns (s, log) →
  ∃ s' log', d_run s ops2 = Returns (s', log') ∧
    ∀ i x y, i16_min ≤ x ≤ i16_max → i16_min ≤ y ≤ i16_max →
      shown (mjoin (ds_surfaces s !! i)) x y ≠ shown (mjoin (ds_surfaces s' !! i)) x y →
      ∃ r, r ∈ DisplayServer_pending_output_damage s' ∧ covers r x y.
Proof.
  intros (Hok1 & Hok2 & Hc & Hl)%run_ok_app [Hp1 Hp2]%Forall_app Hnc E.
  destruct (display_run_wf ops1 s log Hok1 E) as (Hwf & Hid & Hser).
  pose proof (run_placed ox oy max_w max_h ops1 s log Hok1 Hp1 E) as Hpl.
  destruct (run_invariant (λ op, op_placed ox oy max_w max_h op ∧ op ≠ DComplete)
    (λ s1 _, display_placed ox oy max_w max_h s1 ∧ damage_covers s s1) ops2 s [])
    as (s' & log' & E' & _ & [_ Hcov] & _); [|done|split; [done|by intros i x y]| |done|lia|lia|].
  - intros s1 lg op s2 r Hwf1 Hop [Hpo Hne] _ Hst _ [Hpl1 Hcov].
    assert (output_step ox oy max_w max_h s1 s2) as Ho by by eapply step_output.
    split; [by eapply placed_step|by eapply covers_step].
  - apply Forall_forall. intros op Hin. split; [by eapply Forall_forall in Hp2|]. by intros ->.
  - exists s', log'. split; [done|]. intros i x y Hx Hy Hd.
    destruct (Hcov i x y Hx Hy Hd) as (r & Hr & Hin). exists r. split; [|done].
    unfold DisplayServer_pending_output_damage. apply elem_of_flatten.
    destruct (ds_output_damage s' !! i) as [o|] eqn:Ei; [|done]. simpl in Hr. subst o.
    by eapply list_elem_of_lookup_2.
Qed.

Lemma display_damage_covers_witness :
  ∃ s log s' log', d_run DisplayServer_new demo_ops = Returns (s, log) ∧
    d_run s [DPosition alice 1 9 0; DCommit alice 1] = Returns (s', log') ∧
    shown (mjoin (ds_surfaces s !! 0%nat)) 1 1 ≠ shown (mjoin (ds_surfaces s' !! 0%nat)) 1 1 ∧
    ∃ r, r ∈ DisplayServer_pending_output_damage s' ∧ covers r 1 1.
Proof.
  destruct (d_run DisplayServer_new demo_ops) as [[s log]| |] eqn:E; [|vm_compute in E; congruence..].
  destruct (display_damage_covers 0 0 4 4 demo_ops [DPosition alice 1 9 0; DCommit alice 1] s log)
    as (s' & log' & E' & H).
  - destruct demo_run_ok as (H1 & _). split_and!; [|done..]. apply Forall_app. split; [exact H1|].
    repeat (apply Forall_cons; split; [first [exact I|simpl; geometry; lia]|]). apply Forall_nil_2.
  - repeat (apply Forall_cons; split; [first [exact I|unfold op_placed, rect_placed, placed; simpl; geometry; lia]|]).
    apply Forall_nil_2.
  - intros Hin. repeat (apply elem_of_cons in Hin as [Hin|Hin]; [done|]). by apply elem_of_nil in Hin.
  - exact E.
  - exists s, log, s', log'.
    assert (shown (mjoin (ds_surfaces s !! 0%nat)) 1 1 ≠ shown (mjoin (ds_surfaces s' !! 0%nat)) 1 1) as Hne.
    { vm_compute in E. injection E as <- <-. vm_compute in E'. injection E' as <- <-.
      vm_compute. congruence. }
    split_and!; [done|done|done|]. by apply (H 0%nat 1 1).
Defined.

(** Without that provision it fails: a surface of one pixel that moves from the
    left edge of the coordinate space to the right edge has a bounding box of
    65,536 pixels, whose width wraps around to 0. *)
Example display_damage_wraps :
  let ops := [DCreate alice (lit "a") RoleWindow (MkRect (-32768) 0 1 1);
              DAttach alice 1 demo_buffer; DCommit alice 1; DComplete] in
  match d_run DisplayServer_new ops with
  | Returns (s, _) =>
      match d_run s [DPosition alice 1 32767 0; DCommit alice 1] with
      | Returns (s', _) =>
          shown (mjoin (ds_surfaces s !! 0%nat)) (-32768) 0 = Some (demo_buffer, 0, 0) ∧
          shown (mjoin (ds_surfaces s' !! 0%nat)) (-32768) 0 = None ∧
          DisplayServer_pending_output_damage s' = [MkRect (-32768) 0 0 1]
      | _ => False
      end
  | _ => False
  end.
Proof. vm_compute. auto. Qed.
