(* ===== verification/DisplayFrames.v ===== *)
(** * Frame callbacks and event order of the display server

    Each surface hears of its latest commit, and each Form receives its events
    in the order in which they were queued. *)

From stdpp Require Import prelude list strings sorting.
From Stdlib Require Import ZArith Lia.
From S2P Require Import Prelude Identity Geometry Display DisplayEvents DisplayInvariant.

Set Default Goal Selector "!".
Open Scope Z_scope.
Open Scope expos_scope.

(** ** Specification *)

(** The event that tells the owner of [u] that its latest commit was shown. *)
Definition callback_for (u : Surface) (e : DisplayEvent) : Prop :=
  ev_kind e = FrameDone ∧ ev_owner e = su_owner u ∧ ev_surface_id e = su_id u ∧
  ev_value e = su_commit_sequence u.

(** The latest commit of the surface in slot [i] awaits presentation, or its
    callback is queued or was received. *)
Definition acknowledged (s : DisplayServer) (log : list DisplayEvent) (i : nat) (u : Surface) : Prop :=
  ds_pending_frame_commits s !! i = Some (su_commit_sequence u) ∨
  ∃ e, callback_for u e ∧ (e ∈ events s ∨ e ∈ log).

(** Two events of one Form, in the order of their serials. *)
Definition in_order (e1 e2 : DisplayEvent) : Prop :=
  ev_owner e1 = ev_owner e2 → ev_serial e1 < ev_serial e2.

Definition pending_callbacks (s : DisplayServer) : nat :=
  length (List.filter (λ n, n !=? 0) (ds_pending_frame_commits s)).

(** ** Lemmas: order *)

(** The queue only gains events with new serials. *)
Definition grows (s s' : DisplayServer) : Prop :=
  ds_next_event_serial s ≤ ds_next_event_serial s' ∧
  ∀ e, e ∈ events s' → e ∈ events s ∨ ds_next_event_serial s ≤ ev_serial e.

Lemma grows_refl s : grows s s.
Proof. split; [lia|auto]. Qed.

Lemma grows_trans s1 s2 s3 : grows s1 s2 → grows s2 s3 → grows s1 s3.
Proof.
  intros [H1 H2] [H3 H4]. split; [lia|]. intros e [He|He]%H4; [auto|]. right. lia.
Qed.

Lemma pushes_grows s e s' : 0 < ds_next_event_serial s < u64_max → pushes s e s' → grows s s'.
Proof.
  intros Hn [_ _ Hs Hn' He]. rewrite next_counter_small in Hn' by lia. split; [lia|].
  intros x [->|Hx]%(ev_push_elem _ _ _ _ He); [right; lia|auto].
Qed.

Lemma push_run_grows s es s' :
  0 < ds_next_event_serial s → ds_next_event_serial s + Zlength es ≤ u64_max → push_run s es s' →
  grows s s'.
Proof.
  unfold Zlength. intros H1 H2 Hr. revert H1 H2.
  induction Hr as [|s e s1 es s' Hp _ IH]; intros H1 H2; [apply grows_refl|]. cbn [length] in H2.
  assert (grows s s1) as Hg by (eapply pushes_grows; [|done]; lia). eapply grows_trans; [done|].
  pose proof (pu_next _ _ _ Hp) as Hn. rewrite next_counter_small in Hn by lia. apply IH; lia.
Qed.

Lemma grows_same s s' :
  events s' = events s → ds_next_event_serial s' = ds_next_event_serial s → grows s s'.
Proof. intros E1 E2. split; [lia|]. rewrite E1. auto. Qed.

Lemma complete_slots_grow l s n :
  display_wf s → ds_next_event_serial s + Zlength l ≤ u64_max →
  grows s (fold_left complete_slot l (s, n)).1.
Proof.
  unfold Zlength. revert s n. induction l as [|i l IH]; intros s n Hwf Hs; cbn [fold_left].
  { apply grows_refl. }
  cbn [length] in Hs. destruct (wf_complete_slot s n i Hwf) as (H1 & _ & H3); [lia|].
  pose proof (complete_slot_spec s n i Hwf) as H. pose proof (dw_next_serial_pos s Hwf).
  destruct (complete_slot (s, n) i) as [s1 n1]. cbn [fst] in *.
  eapply grows_trans; [|apply IH; [done|lia]].
  destruct H as [(-> & _)|(u & _ & _ & _ & [(-> & _)|(_ & s2 & e & _ & Hp & _ & ->)])];
    [apply grows_refl|by apply grows_same|].
  eapply (grows_trans _ s2); [|by apply grows_same]. apply pushes_grows in Hp; [done|simpl; lia].
Qed.

Lemma pending_grows moved s owner s' : pending_edit moved s owner s' → grows s s'.
Proof. intros [->|(i & u & p & _ & _ & _ & _ & ->)]; by apply grows_same. Qed.

Lemma step_grows s op s' r :
  display_wf s → d_op_ok op → ds_next_event_serial s + 16 ≤ u64_max →
  d_step s op = Returns (s', r) → grows s s'.
Proof.
  intros Hwf Hok Hser. pose proof (dw_surfaces s Hwf) as Hs. pose proof (dw_next_serial_pos s Hwf).
  pose proof (dw_event_slots s Hwf) as Hlen.
  destruct op; cbn [d_step d_op_ok] in *; try (intros [= <- <-]).
  - pose proof (create_spec s owner title role rect Hlen) as Hc.
    destruct (DisplayServer_create_surface _ _ _ _ _) as [s1 r1].
    destruct Hc as [[-> _]|(u & slots' & s2 & e & _ & _ & _ & _ & _ & _ & _ & _ & -> & _ & _ & _ & Hp & _)];
      [apply grows_refl|]. apply pushes_grows in Hp; [done|simpl; lia].
  - eapply pending_grows, attach_pending, Hs.
  - by eapply pending_grows, damage_pending.
  - destruct (damage_regions_pending s owner id regions Hs Hok) as (s1 & r1 & -> & He).
    intros [= <- <-]. by eapply pending_grows.
  - eapply pending_grows, position_pending; [done|apply Hok..].
  - by eapply pending_grows, geometry_pending.
  - by eapply pending_grows, visible_pending.
  - destruct (surface_commit_spec s owner id) as (s1 & r1 & -> & Hc). intros [= <- <-].
    destruct Hc as [[-> _]|(i & u & _ & _ & _ & _ & ->)]; [apply grows_refl|by apply grows_same].
  - pose proof (destroy_spec s owner id) as Hd. destruct (DisplayServer_destroy _ _ _) as [s1 r1].
    destruct Hd as [[-> _]|(i & u & _ & _ & _ & _ & _ & _ & _ & _ & _ & En & _ & _ & Ee)];
      [apply grows_refl|]. split; [simpl; lia|]. simpl. rewrite Ee.
    intros e [? _]%elem_of_filter_bool. auto.
  - pose proof (poll_event_spec s owner) as Hp. intros [= E]. rewrite E in Hp.
    destruct r; [|destruct Hp as [-> _]; apply grows_refl]. destruct Hp as (_ & _ & En & _ & He & _).
    split; [lia|]. intros x Hx. left. rewrite He. by right.
  - pose proof (focus_spec s id Hlen) as Hf. destruct (DisplayServer_focus s id) as [s1 r1].
    destruct Hf as [[-> _]|(i & u & es & _ & _ & _ & Hr & Hl & _)]; [apply grows_refl|].
    apply push_run_grows in Hr; [done|simpl; lia|unfold Zlength; simpl; lia].
  - pose proof (route_key_spec s key Hlen) as Hk. destruct (DisplayServer_route_key s key) as [s1 r1].
    destruct Hk as [[-> _]|(i & u & _ & _ & _ & Hp)]; [apply grows_refl|].
    eapply pushes_grows; [|exact Hp]; lia.
  - pose proof (route_pointer_spec s x y buttons changed Hlen) as Hp.
    destruct (DisplayServer_route_pointer s x y buttons changed) as [s1 r1].
    destruct Hp as [[-> _]|(i & u & es & _ & _ & _ & Hr & Hl & _)]; [apply grows_refl|].
    apply push_run_grows in Hr; [done|lia|unfold Zlength; lia].
  - unfold DisplayServer_complete_frame. set (s0 := s <| ds_frame_sequence := _ |>).
    assert (display_wf s0) as Hwf0 by (destruct Hwf; by constructor).
    pose proof (complete_slots_grow (seq 0 MAX_SURFACES) s0 0 Hwf0 Hser) as Hg.
    by destruct (fold_left _ _ _) as [s1 n].
Qed.

Lemma step_polled s op s' r :
  d_step s op = Returns (s', r) →
  match r with
  | Some e => events s ≡ₚ e :: events s' ∧ ds_next_event_serial s' = ds_next_event_serial s ∧
              ∀ e', e' ∈ events s → ev_owner e' = ev_owner e → ev_serial e ≤ ev_serial e'
  | None => True
  end.
Proof.
  destruct r as [e|]; [|done].
  destruct op; cbn [d_step]; try (by intros [=]).
  - by destruct (DisplayServer_damage_regions _ _ _ _) as [[]| |].
  - by destruct (DisplayServer_commit _ _ _) as [[]| |].
  - pose proof (poll_event_spec s owner) as H. intros [= E]. rewrite E in H. naive_solver.
Qed.

Record ordered (s : DisplayServer) (log : list DisplayEvent) : Prop := {
  or_log : StronglySorted in_order log;
  or_queue : ∀ e1 e2, e1 ∈ log → e2 ∈ events s → in_order e1 e2;
  or_next : ∀ e, e ∈ log → ev_serial e < ds_next_event_serial s }.

Lemma ordered_step s log op s' r :
  display_wf s → d_op_ok op → ds_next_event_serial s + 16 ≤ u64_max →
  d_step s op = Returns (s', r) → ordered s log → ordered s' (log ++ option_list r).
Proof.
  intros Hwf Hok Hser Hst [H1 H2 H3]. destruct (step_grows s op s' r Hwf Hok Hser Hst) as [Hn Hg].
  pose proof (step_polled s op s' r Hst) as Hp. destruct r as [e|]; simpl.
  - destruct Hp as (He & En & Hmin). assert (e ∈ events s) as Hes by (rewrite He; by left).
    pose proof (dw_serials s Hwf) as Hnd. rewrite He in Hnd. apply NoDup_cons in Hnd as [Hnin _].
    constructor.
    + apply StronglySorted_app. split_and!; [|done|by repeat constructor].
      intros e1 e2 He1 ->%list_elem_of_singleton. auto.
    + intros e1 e2 [Hl|He1]%elem_of_app He2.
      * apply H2; [done|]. rewrite He. by right.
      * apply list_elem_of_singleton in He1 as ->. intros Eo.
        assert (ev_serial e ≤ ev_serial e2) by (apply Hmin; [rewrite He; by right|done]).
        assert (ev_serial e ≠ ev_serial e2); [|lia].
        intros E. apply Hnin. rewrite E. by apply list_elem_of_fmap_2.
    + intros x [Hl|Hx%list_elem_of_singleton]%elem_of_app; rewrite En; [by apply H3|].
      subst x. by apply (dw_next_serial s Hwf).
  - rewrite app_nil_r. constructor; [done| |].
    + intros e1 e2 Hl [He2|He2]%Hg; [auto|]. intros _. specialize (H3 e1 Hl). lia.
    + intros x Hx. specialize (H3 x Hx). lia.
Qed.

(** ** Lemmas: callbacks *)

Lemma ids_distinct s i j u v :
  display_wf s → ds_surfaces s !! i = Some (Some u) → ds_surfaces s !! j = Some (Some v) → i ≠ j →
  su_id u ≠ su_id v.
Proof.
  intros Hwf Hi Hj Hne E. pose proof (dw_ids s Hwf) as Hnd.
  destruct (flatten_write _ _ _ Hi) as (rest & H1 & H2 & _). unfold keys in Hnd.
  rewrite H1, !fmap_cons in Hnd. apply NoDup_cons in Hnd as [Hnin _]. apply Hnin.
  change (surface_key u).1 with (su_id u). rewrite E.
  apply (list_elem_of_fmap_2 fst (surface_key <$> rest) (surface_key v)), list_elem_of_fmap_2.
  rewrite <- H2. apply (flatten_lookup _ j). by rewrite list_lookup_insert_ne.
Qed.

(** What a push keeps: all callbacks, but the older one of the same surface. *)
Lemma pushes_keep s e s' x :
  pushes s e s' → x ∈ events s → ev_kind x = FrameDone →
  (ev_kind e = FrameDone → ev_surface_id x ≠ ev_surface_id e) → x ∈ events s'.
Proof.
  intros [_ _ _ _ [evs ->|old rest evs Ho -> [[[Hm _] _]|(Hk & _ & Hid)]|_]] Hx Hf Hne; [by right| | |done];
    rewrite Ho in Hx; apply elem_of_cons in Hx as [->|?]; [congruence|by right| |by right].
  destruct Hne; congruence.
Qed.

Lemma push_run_keep s es s' x :
  push_run s es s' → (∀ e, e ∈ es → ev_kind e ≠ FrameDone) → x ∈ events s → ev_kind x = FrameDone →
  x ∈ events s'.
Proof.
  intros Hr. induction Hr as [|s e s1 es s' Hp _ IH]; intros Hes Hx Hf; [done|].
  apply IH; [intros; apply Hes; by right| |done]. eapply pushes_keep; [done..|].
  intros Hk. by destruct (Hes e ltac:(by left)).
Qed.

Definition all_acknowledged (s : DisplayServer) (log : list DisplayEvent) : Prop :=
  ∀ i u, ds_surfaces s !! i = Some (Some u) → su_commit_sequence u ≠ 0 → acknowledged s log i u.

(** Carrying the acknowledgement of one slot over a step. *)
Lemma acknowledged_carry s log s' log' i u u' :
  acknowledged s log i u →
  surface_key u' = surface_key u → su_commit_sequence u' = su_commit_sequence u →
  ds_pending_frame_commits s' !! i = ds_pending_frame_commits s !! i →
  (∀ e, callback_for u e → e ∈ events s → e ∈ events s' ∨ e ∈ log') →
  (∀ e, e ∈ log → e ∈ log') → acknowledged s' log' i u'.
Proof.
  intros Ha [= E1 E2] E3 Ep He Hl. unfold acknowledged, callback_for in *. rewrite E1, E2, E3, Ep.
  destruct Ha as [?|(e & Hc & Hin)]; [by left|]. right. exists e. split; [done|]. naive_solver.
Qed.

(** A step that rewrites one slot in place and keeps all callbacks. *)
Lemma all_acknowledged_edit s log s' i u u' :
  all_acknowledged s log → ds_surfaces s !! i = Some (Some u) →
  surface_key u' = surface_key u → su_commit_sequence u' = su_commit_sequence u →
  ds_surfaces s' = <[i := Some u']> (ds_surfaces s) →
  ds_pending_frame_commits s' = ds_pending_frame_commits s →
  (∀ e, ev_kind e = FrameDone → e ∈ events s → e ∈ events s') → all_acknowledged s' log.
Proof.
  intros Ha Hi Ek Ec Es Ep He j v. rewrite Es.
  intros [(<- & [= <-] & _)|[_ Hj]]%list_lookup_insert_Some Hv.
  - eapply acknowledged_carry; [apply (Ha i u Hi); congruence|done|done|by rewrite Ep| |done].
    intros e (? & _). auto.
  - eapply acknowledged_carry; [by apply (Ha j v Hj)|done|done|by rewrite Ep| |done].
    intros e (? & _). auto.
Qed.

Lemma all_acknowledged_same s log s' log' :
  all_acknowledged s log → ds_surfaces s' = ds_surfaces s →
  ds_pending_frame_commits s' = ds_pending_frame_commits s →
  (∀ e, ev_kind e = FrameDone → e ∈ events s → e ∈ events s' ∨ e ∈ log') →
  (∀ e, e ∈ log → e ∈ log') → all_acknowledged s' log'.
Proof.
  intros Ha Es Ep He Hl j v. rewrite Es. intros Hj Hv.
  eapply acknowledged_carry; [by apply (Ha j v Hj)|done|done|by rewrite Ep| |done].
  intros e (? & _). auto.
Qed.

Lemma pending_acknowledged moved s owner s' log :
  pending_edit moved s owner s' → all_acknowledged s log → all_acknowledged s' log.
Proof.
  intros [->|(i & u & p & Hi & _ & _ & _ & ->)] Ha; [done|].
  by apply (all_acknowledged_edit s log _ i u (u <| su_pending := p |>)).
Qed.

Lemma create_acknowledged s owner title role rect log :
  display_wf s → all_acknowledged s log →
  all_acknowledged (DisplayServer_create_surface s owner title role rect).1 log.
Proof.
  intros Hwf Ha. pose proof (create_spec s owner title role rect (dw_event_slots s Hwf)) as H.
  destruct (DisplayServer_create_surface _ _ _ _ _) as [s' r]. simpl.
  destruct H as [[-> _]|(u & slots' & s1 & e & Hf & _ & _ & E0 & _ & _ & _ & _ & -> & _ & _ & Ek & Hp & _)];
    [done|]. pose proof (pu_core _ _ _ Hp) as [= Es _ _ _ _ Ep _].
  intros i v. rewrite Es. destruct (fill_slot_lookup _ _ _ Hf) as (j & _ & Hj & Hne). intros Hi Hv.
  destruct (decide (i = j)) as [->|]; [congruence|]. rewrite Hne in Hi by done.
  eapply acknowledged_carry; [by apply (Ha i v Hi)|done|done|by rewrite Ep| |done].
  intros x (Hx & _) Hin. left. eapply pushes_keep; [exact Hp|done|done|]. congruence.
Qed.

Lemma commit_acknowledged s owner id s' r log :
  display_wf s → DisplayServer_commit s owner id = Returns (s', r) →
  all_acknowledged s log → all_acknowledged s' log.
Proof.
  intros Hwf E Ha. destruct (surface_commit_spec s owner id) as (s1 & r1 & E1 & H). rewrite E1 in E.
  injection E as -> ->. destruct H as [[-> _]|(i & u & Hi & _ & _ & _ & ->)]; [done|].
  assert (i < length (ds_pending_frame_commits s))%nat as Hlt.
  { rewrite (dw_pending_slots s Hwf), <- (dw_surface_slots s Hwf). by eapply lookup_lt_Some. }
  intros j v [(<- & [= <-] & _)|[Hne Hj]]%list_lookup_insert_Some Hv.
  - left. simpl. by rewrite list_lookup_insert_eq.
  - eapply acknowledged_carry; [by apply (Ha j v Hj)|done|done| |by auto|done].
    simpl. by rewrite list_lookup_insert_ne.
Qed.

Lemma destroy_acknowledged s owner id log :
  display_wf s → all_acknowledged s log → all_acknowledged (DisplayServer_destroy s owner id).1 log.
Proof.
  intros Hwf Ha. pose proof (destroy_spec s owner id) as H.
  destruct (DisplayServer_destroy s owner id) as [s' r]. simpl.
  destruct H as [[-> _]|(i & u & Hi & Hid & _ & _ & Es & Ep & _ & _ & _ & _ & _ & _ & Ee)]; [done|].
  intros j v. rewrite Es. intros [(_ & ? & _)|[Hne Hj]]%list_lookup_insert_Some Hv; [done|].
  eapply acknowledged_carry; [by apply (Ha j v Hj)|done|done|by rewrite Ep, list_lookup_insert_ne| |done].
  intros e (_ & _ & Hv' & _) Hin. left. rewrite Ee. apply elem_of_filter_bool. split; [done|].
  pose proof (ids_distinct s i j u v Hwf Hi Hj Hne). unfold event_for.
  destruct (ev_surface_id e =? id) eqn:E; bools; [congruence|]. by rewrite andb_false_r.
Qed.

Lemma complete_slots_acknowledged l s n log :
  display_wf s → ds_next_event_serial s + Zlength l ≤ u64_max →
  all_acknowledged s log → all_acknowledged (fold_left complete_slot l (s, n)).1 log.
Proof.
  unfold Zlength. revert s n. induction l as [|i l IH]; intros s n Hwf Hs Ha; cbn [fold_left]; [done|].
  cbn [length] in Hs. destruct (wf_complete_slot s n i Hwf) as (H1 & _ & H3); [lia|].
  pose proof (complete_slot_spec s n i Hwf) as H.
  destruct (complete_slot (s, n) i) as [s1 n1]. cbn [fst] in *. apply IH; [done|lia|]. clear IH.
  destruct H as [(-> & _)|(u & Hi & Hu & _ & [(-> & _)|(_ & s2 & e & Ee & Hp & Hin & ->)])]; [done| |].
  { by apply (all_acknowledged_edit s log _ i u (presented u)). }
  pose proof (pu_core _ _ _ Hp) as [= Es _ _ _ _ Ep _].
  intros j v. simpl. rewrite Es. intros [(<- & [= <-] & _)|[Hne Hj]]%list_lookup_insert_Some Hv.
  - right. exists e. subst e. split; [done|]. by left.
  - eapply acknowledged_carry; [by apply (Ha j v Hj)|done|done| | |done].
    + simpl. by rewrite list_lookup_insert_ne, Ep.
    + intros x (Hx & _ & Hid & _) Hxin. left. simpl. eapply pushes_keep; [exact Hp|done|done|].
      intros _. subst e. simpl. rewrite Hid. intros E. by apply (ids_distinct s i j u v Hwf Hi Hj Hne).
Qed.

Lemma acknowledged_step s log op s' r :
  display_wf s → d_op_ok op → ds_next_event_serial s + 16 ≤ u64_max →
  d_step s op = Returns (s', r) → all_acknowledged s log → all_acknowledged s' (log ++ option_list r).
Proof.
  intros Hwf Hok Hser Hst Ha. pose proof (dw_surfaces s Hwf) as Hs.
  pose proof (dw_event_slots s Hwf) as Hlen.
  destruct op; cbn [d_step d_op_ok] in *;
    try (injection Hst as <- <-; cbn [option_list]; rewrite ?app_nil_r).
  - by apply create_acknowledged.
  - by eapply pending_acknowledged; [apply attach_pending|].
  - by eapply pending_acknowledged; [apply damage_pending|].
  - destruct (damage_regions_pending s owner id regions Hs Hok) as (s1 & r1 & E & He). rewrite E in Hst.
    injection Hst as <- <-. rewrite app_nil_r. by eapply pending_acknowledged.
  - eapply pending_acknowledged; [apply position_pending; [done|apply Hok..]|done].
  - by eapply pending_acknowledged; [apply geometry_pending|].
  - by eapply pending_acknowledged; [apply visible_pending|].
  - destruct (DisplayServer_commit s owner id) as [[s1 r1]| |] eqn:E; try done.
    injection Hst as <- <-. rewrite app_nil_r. by eapply commit_acknowledged.
  - by apply destroy_acknowledged.
  - pose proof (poll_event_spec s owner) as H. injection Hst as E. rewrite E in H.
    destruct r as [e|]; cbn [option_list]; [|destruct H as [-> _]; by rewrite app_nil_r].
    destruct H as ([= Es _ _ _ _ Ep _] & _ & _ & _ & He & _).
    eapply all_acknowledged_same; [done|done|done| |intros; apply elem_of_app; auto].
    intros x _. change (option_list (Some e)) with [e]. rewrite He, elem_of_app, !elem_of_cons. tauto.
  - pose proof (focus_spec s id Hlen) as H. destruct (DisplayServer_focus s id) as [s1 r1]. simpl.
    destruct H as [[-> _]|(i & u & es & Hi & _ & _ & Hr & _ & Hes)]; [done|].
    pose proof (push_run_core _ _ _ Hr) as [= Es _ _ _ _ Ep _].
    eapply (all_acknowledged_edit s log s1 i u); [done|done| | |exact Es|exact Ep|]; [done|done|].
    intros e Hf Hin. eapply push_run_keep; [exact Hr| |exact Hin|done].
    intros x Hx. destruct (Hes x Hx) as [_ [E|E]]; by rewrite E.
  - pose proof (route_key_spec s key Hlen) as H. destruct (DisplayServer_route_key s key) as [s1 r1].
    destruct H as [[-> _]|(i & u & _ & _ & _ & Hp)]; [done|].
    pose proof (pu_core _ _ _ Hp) as [= Es _ _ _ _ Ep _].
    eapply all_acknowledged_same; [done|done|done| |done].
    intros x Hf Hin. left. by eapply pushes_keep; [exact Hp|..].
  - pose proof (route_pointer_spec s x y buttons changed Hlen) as H.
    destruct (DisplayServer_route_pointer s x y buttons changed) as [s1 r1].
    destruct H as [[-> _]|(i & u & es & _ & _ & _ & Hr & _ & Hes)]; [done|].
    pose proof (push_run_core _ _ _ Hr) as [= Es _ _ _ _ Ep _].
    eapply all_acknowledged_same; [done|done|done| |done].
    intros e Hf Hin. left. eapply push_run_keep; [exact Hr| |exact Hin|done].
    intros z Hz. destruct (Hes z Hz) as (_ & _ & [E|[E _]] & _); by rewrite E.
  - unfold DisplayServer_complete_frame. set (s0 := s <| ds_frame_sequence := _ |>).
    assert (display_wf s0) as Hwf0 by (destruct Hwf; by constructor).
    pose proof (complete_slots_acknowledged (seq 0 MAX_SURFACES) s0 0 log Hwf0 Hser Ha) as Hg.
    by destruct (fold_left _ _ _) as [s1 n].
Qed.

(** ** Lemmas: delivery *)

Definition waits (s : DisplayServer) (i : nat) : bool :=
  default 0 (ds_pending_frame_commits s !! i) !=? 0.

Lemma ev_push_length evs e evs' : ev_push evs e evs' → (length evs' ≤ S (length evs))%nat.
Proof. intros [evs1 ->|old rest evs1 E -> _|_]; rewrite ?E; simpl; lia. Qed.

Lemma complete_slots_deliver l s n :
  display_wf s → ds_next_event_serial s + Zlength l ≤ u64_max → NoDup l →
  (length (events s) + length (List.filter (waits s) l) ≤ MAX_DISPLAY_EVENTS)%nat →
  let '(s', n') := fold_left complete_slot l (s, n) in
  (∀ i, i ∈ l → waits s' i = false) ∧
  (∀ i, i ∉ l → ds_pending_frame_commits s' !! i = ds_pending_frame_commits s !! i) ∧
  n' = (n + length (List.filter (waits s) l))%nat.
Proof.
  unfold Zlength. revert s n. induction l as [|i l IH]; intros s n Hwf Hs Hnd Hroom; cbn [fold_left].
  { split_and!; [by intros i ?%elem_of_nil|done|simpl; lia]. }
  cbn [length] in Hs. destruct (wf_complete_slot s n i Hwf) as (H1 & _ & H3); [lia|].
  pose proof (complete_slot_spec s n i Hwf) as H. apply NoDup_cons in Hnd as [Hi Hnd].
  destruct (complete_slot (s, n) i) as [s1 n1]. cbn [fst] in *.
  assert (waits s1 i = false ∧
    (∀ j, j ≠ i → ds_pending_frame_commits s1 !! j = ds_pending_frame_commits s !! j) ∧
    (length (events s1) + length (List.filter (waits s) l) ≤ MAX_DISPLAY_EVENTS)%nat ∧
    n1 = (n + if waits s i then 1 else 0)%nat) as (Hw & Hsame & Hroom1 & ->).
  { cbn [List.filter] in Hroom.
    destruct H as [(-> & -> & E)|(u & Hu & Hn & Hp & [(_ & _ & Hfull)|(-> & s2 & e & _ & Hpu & _ & ->)])].
    - assert (waits s i = false) as Hwt by (unfold waits; by rewrite E).
      rewrite Hwt in *. split_and!; [done..|lia].
    - assert (waits s i = true) as Hwt.
      { unfold waits. rewrite Hp. cbn [default from_option id]. by rewrite bool_decide_false. }
      rewrite Hwt, Hfull, (dw_event_slots s Hwf) in Hroom. cbn [length] in Hroom. lia.
    - pose proof (pu_core _ _ _ Hpu) as [= _ _ _ _ _ Ep _].
      assert (i < length (ds_pending_frame_commits s2))%nat as Hlt.
      { rewrite Ep. by eapply lookup_lt_Some. }
      assert (waits s i = true) as Hwt.
      { unfold waits. rewrite Hp. cbn [default from_option id]. by rewrite bool_decide_false. }
      rewrite Hwt in *. cbn [length] in Hroom.
      pose proof (ev_push_length _ _ _ (pu_events _ _ _ Hpu)). unfold waits at 1. simpl in *.
      rewrite list_lookup_insert_eq by done. split_and!; [done| |lia|lia].
      intros j Hj. by rewrite list_lookup_insert_ne, Ep. }
  assert (List.filter (waits s1) l = List.filter (waits s) l) as Ef.
  { apply filter_ext_in. intros j Hj%list_elem_of_In. unfold waits. rewrite Hsame; [done|].
    by intros ->. }
  specialize (IH s1 (n + if waits s i then 1 else 0)%nat H1 ltac:(lia) Hnd).
  rewrite Ef in IH. specialize (IH Hroom1).
  destruct (fold_left _ _ _) as [s' n']. destruct IH as (IH1 & IH2 & ->). split_and!.
  - intros j [->|?]%elem_of_cons; [|auto]. unfold waits in *. by rewrite IH2.
  - intros j [? ?]%not_elem_of_cons. rewrite IH2 by done. auto.
  - cbn [List.filter]. destruct (waits s i); simpl; lia.
Qed.

Lemma filter_seq (p : Z → bool) (l : list Z) :
  length (List.filter (λ i, p (default 0 (l !! i))) (seq 0 (length l))) = length (List.filter p l).
Proof.
  assert (∀ k, length (List.filter (λ i, p (default 0 (l !! (i - k)%nat))) (seq k (length l))) =
    length (List.filter p l)) as H.
  { induction l as [|x l IH]; intros k; [done|]. cbn [length seq List.filter].
    rewrite Nat.sub_diag. cbn [lookup list_lookup default from_option id].
    specialize (IH (S k)). assert (∀ i, i ∈ seq (S k) (length l) →
      p (default 0 ((x :: l) !! (i - k)%nat)) = p (default 0 (l !! (i - S k)%nat))) as E.
    { intros i Hi%elem_of_seq. replace (i - k)%nat with (S (i - S k)) by lia. done. }
    rewrite (filter_ext_in _ (λ i, p (default 0 (l !! (i - S k)%nat)))) by
      (intros i Hi; apply E, list_elem_of_In, Hi).
    destruct (p x); cbn [length]; by rewrite IH. }
  rewrite <- (H 0%nat). f_equal. apply filter_ext. intros i. by rewrite Nat.sub_0_r.
Qed.

(** With room for its callbacks, a frame delivers them all. *)
Lemma complete_frame_delivers s :
  display_wf s → ds_next_event_serial s + 16 ≤ u64_max →
  (length (events s) + pending_callbacks s ≤ MAX_DISPLAY_EVENTS)%nat →
  let '(s', n) := DisplayServer_complete_frame s in
  DisplayServer_needs_frame s' = false ∧ n = pending_callbacks s.
Proof.
  intros Hwf Hser Hroom. unfold DisplayServer_complete_frame.
  set (s0 := s <| ds_frame_sequence := _ |>).
  assert (display_wf s0) as Hwf0 by (destruct Hwf; by constructor).
  assert (length (List.filter (waits s0) (seq 0 MAX_SURFACES)) = pending_callbacks s) as Ec.
  { rewrite <- (dw_pending_slots s Hwf). exact (filter_seq (λ n : Z, n !=? 0) (ds_pending_frame_commits s)). }
  pose proof (complete_slots_deliver (seq 0 MAX_SURFACES) s0 0 Hwf0 Hser) as H. rewrite Ec in H.
  specialize (H ltac:(apply NoDup_seq) Hroom).
  destruct (wf_complete_slots (seq 0 MAX_SURFACES) s0 0 Hwf0 Hser) as (Hwf1 & _).
  destruct (fold_left _ _ _) as [s1 n]. cbn [fst] in *. destruct H as (Hw & _ & ->). split; [|done].
  unfold DisplayServer_needs_frame. apply orb_false_iff. split; [|done].
  apply existsb_elem_false. intros q (i & Hq)%list_elem_of_lookup. simpl in Hq.
  assert (waits s1 i = false) as E.
  { apply Hw, elem_of_seq. rewrite <- (dw_pending_slots s1 Hwf1). split; [lia|]. by eapply lookup_lt_Some. }
  unfold waits in E. by rewrite Hq in E.
Qed.

(** ** Theorems *)

(** C30.  In a run of fewer than 2^32-1 creations and 2^60 calls no frame
    callback is lost: the latest commit of every live surface is
    waiting for presentation, or its callback is queued, or the owner received
    it; and presenting a frame delivers every waiting callback, as many as it
    returns, and leaves nothing to present, whenever the queue has room. *)
Theorem display_frame_callbacks ops s log :
  run_ok (ops ++ [DComplete]) → d_run DisplayServer_new ops = Returns (s, log) →
  (∀ i u, ds_surfaces s !! i = Some (Some u) → su_commit_sequence u ≠ 0 → acknowledged s log i u) ∧
  ((length (events s) + pending_callbacks s ≤ MAX_DISPLAY_EVENTS)%nat →
   let '(s', n) := DisplayServer_complete_frame s in
   DisplayServer_needs_frame s' = false ∧ n = pending_callbacks s).
Proof.
  intros (Hok & _ & _ & Hser)%run_ok_snoc E.
  destruct (run_reachable (λ _, True) all_acknowledged ops) as (s1 & log1 & E1 & Hwf & Ha & _ & Hs);
    [|by intros i u [? _]%lookup_replicate|by apply Forall_true|done|].
  - intros s1 lg op s2 r Hwf Hop _ Hser1 Hst _ Ha. by eapply acknowledged_step.
  - rewrite E in E1. injection E1 as <- <-. split; [exact Ha|].
    apply complete_frame_delivers; [done|]. lia.
Qed.

Lemma display_frame_callbacks_witness :
  ∃ s log, d_run DisplayServer_new demo_ops = Returns (s, log) ∧ pending_callbacks s = 1%nat ∧
    (∃ u, ds_surfaces s !! 0%nat = Some (Some u) ∧ su_commit_sequence u ≠ 0 ∧ acknowledged s log 0 u) ∧
    let '(s', n) := DisplayServer_complete_frame s in
    DisplayServer_needs_frame s' = false ∧ n = pending_callbacks s.
Proof.
  destruct (d_run DisplayServer_new demo_ops) as [[s log]| |] eqn:E; [|vm_compute in E; congruence..].
  destruct (display_frame_callbacks demo_ops s log) as [H1 H2]; [|exact E|].
  { destruct demo_run_ok as (H & _). split_and!; [|done..]. apply Forall_app. split; [exact H|].
    by repeat constructor. }
  exists s, log. split; [done|].
  assert (pending_callbacks s = 1%nat ∧ (length (events s) + pending_callbacks s ≤ 32)%nat ∧
    ∃ u, ds_surfaces s !! 0%nat = Some (Some u) ∧ su_commit_sequence u ≠ 0) as (Hp & Hr & u & Hu & Hc).
  { vm_compute in E. injection E as <- <-. split; [reflexivity|]. split; [vm_compute; lia|].
    eexists. split; [reflexivity|]. discriminate. }
  split; [exact Hp|]. split; [|exact (H2 Hr)]. exists u. auto.
Defined.

(** Every Form receives its events in the order in which they were queued:
    along any run, the events polled for one owner have strictly increasing
    serials, although slots are reused, queued events are refreshed in place and
    pointer motion is overwritten. *)
Theorem display_events_in_order ops :
  run_ok ops →
  ∃ s log, d_run DisplayServer_new ops = Returns (s, log) ∧ StronglySorted in_order log.
Proof.
  intros Hok.
  destruct (run_reachable (λ _, True) ordered ops) as (s & log & E & _ & [Hl _ _] & _);
    [|constructor; [constructor|by intros ? ? ?%elem_of_nil..|by intros ? ?%elem_of_nil]
     |by apply Forall_true|done|eauto].
  intros s1 lg op s2 r Hwf Hop _ Hser Hst _ Ho. by eapply ordered_step.
Qed.

Lemma display_events_in_order_witness :
  ∃ s log, d_run DisplayServer_new (demo_ops ++ [DComplete; DPoll bob; DPoll bob; DPoll alice; DPoll alice])
             = Returns (s, log) ∧ length log = 4%nat ∧ StronglySorted in_order log.
Proof.
  destruct (display_events_in_order (demo_ops ++ [DComplete; DPoll bob; DPoll bob; DPoll alice; DPoll alice]))
    as (s & log & E & H).
  { destruct demo_run_ok as (H & _). split_and!; [|done..]. apply Forall_app. split; [exact H|].
    by repeat constructor. }
  exists s, log. split; [exact E|]. split; [|exact H]. vm_compute in E. injection E as <- <-. reflexivity.
Defined.
