(* ===== verification/Crypto.v ===== *)
(** * Digests of the kernel

    [Sha256], HMAC, PBKDF2, the constant-time comparison and the nonce
    derivation of kernel/src/crypto.rs.  The argon2 and chacha20poly1305 crates
    are third-party code: [Aead] states what the storage layer needs of the
    cipher. *)

From stdpp Require Import prelude list strings.
From Stdlib Require Import ZArith Lia.
From S2P Require Import Prelude Identity Bytes.

Set Default Goal Selector "!".
Open Scope Z_scope.
Open Scope expos_scope.

(** ** 32-bit words *)

Definition u32_add (a b : Z) : Z := wrapping_add u32_max a b.
Definition u32_not (a : Z) : Z := Z.lxor u32_max a.
Definition rotate_right (x n : Z) : Z :=
  Z.lor (Z.shiftr x n) (Z.land (Z.shiftl x (32 - n)) u32_max).

Definition SHA256_INITIAL : list Z :=
  [0x6a09e667; 0xbb67ae85; 0x3c6ef372; 0xa54ff53a; 0x510e527f; 0x9b05688c; 0x1f83d9ab; 0x5be0cd19].

(** The round constants, in rows of eight. *)
Definition SHA256_K : list Z := mjoin
  [[0x428a2f98; 0x71374491; 0xb5c0fbcf; 0xe9b5dba5; 0x3956c25b; 0x59f111f1; 0x923f82a4; 0xab1c5ed5];
   [0xd807aa98; 0x12835b01; 0x243185be; 0x550c7dc3; 0x72be5d74; 0x80deb1fe; 0x9bdc06a7; 0xc19bf174];
   [0xe49b69c1; 0xefbe4786; 0x0fc19dc6; 0x240ca1cc; 0x2de92c6f; 0x4a7484aa; 0x5cb0a9dc; 0x76f988da];
   [0x983e5152; 0xa831c66d; 0xb00327c8; 0xbf597fc7; 0xc6e00bf3; 0xd5a79147; 0x06ca6351; 0x14292967];
   [0x27b70a85; 0x2e1b2138; 0x4d2c6dfc; 0x53380d13; 0x650a7354; 0x766a0abb; 0x81c2c92e; 0x92722c85];
   [0xa2bfe8a1; 0xa81a664b; 0xc24b8b70; 0xc76c51a3; 0xd192e819; 0xd6990624; 0xf40e3585; 0x106aa070];
   [0x19a4c116; 0x1e376c08; 0x2748774c; 0x34b0bcb5; 0x391c0cb3; 0x4ed8aa4a; 0x5b9cca4f; 0x682e6ff3];
   [0x748f82ee; 0x78a5636f; 0x84c87814; 0x8cc70208; 0x90befffa; 0xa4506ceb; 0xbef9a3f7; 0xc67178f2]].

(** ** SHA-256 *)

Record Sha256 := MkSha {
  sha_state : list Z; sha_buffer : list Z; sha_buffered : nat; sha_total_len : Z }.

Definition Sha256_new : Sha256 := MkSha SHA256_INITIAL (replicate 64 0) 0 0.

(** The message schedule: sixteen words of the block, then 48 derived ones. *)
Definition schedule_next (schedule : list Z) (index : nat) : list Z :=
  let x := nth (index - 15) schedule 0 in
  let y := nth (index - 2) schedule 0 in
  let s0 := Z.lxor (Z.lxor (rotate_right x 7) (rotate_right x 18)) (Z.shiftr x 3) in
  let s1 := Z.lxor (Z.lxor (rotate_right y 17) (rotate_right y 19)) (Z.shiftr y 10) in
  schedule ++ [u32_add (u32_add (u32_add (nth (index - 16) schedule 0) s0)
                          (nth (index - 7) schedule 0)) s1].

Definition schedule_of (block : list Z) : list Z :=
  fold_left schedule_next (seq 16 48)
    ((λ index, be_value (slice block (4 * index) 4)) <$> seq 0 16).

Definition compress_round (schedule : list Z) (v : Z * Z * Z * Z * Z * Z * Z * Z) (index : nat)
    : Z * Z * Z * Z * Z * Z * Z * Z :=
  let '(a, b, c, d, e, f, g, h) := v in
  let sum1 := Z.lxor (Z.lxor (rotate_right e 6) (rotate_right e 11)) (rotate_right e 25) in
  let choice := Z.lxor (Z.land e f) (Z.land (u32_not e) g) in
  let temp1 := u32_add (u32_add (u32_add (u32_add h sum1) choice) (nth index SHA256_K 0))
                 (nth index schedule 0) in
  let sum0 := Z.lxor (Z.lxor (rotate_right a 2) (rotate_right a 13)) (rotate_right a 22) in
  let majority := Z.lxor (Z.lxor (Z.land a b) (Z.land a c)) (Z.land b c) in
  let temp2 := u32_add sum0 majority in
  (u32_add temp1 temp2, a, b, c, u32_add d temp1, e, f, g).

(** [compress], as a function of the eight state words. *)
Definition compress (state : list Z) (block : list Z) : list Z :=
  let w i := nth i state 0 in
  let '(a, b, c, d, e, f, g, h) :=
    fold_left (compress_round (schedule_of block)) (seq 0 64)
      (w 0%nat, w 1%nat, w 2%nat, w 3%nat, w 4%nat, w 5%nat, w 6%nat, w 7%nat) in
  zip_with u32_add state [a; b; c; d; e; f; g; h].

(** [while input.len() >= 64]; every round takes 64 bytes, so the length of the
    input is enough fuel. *)
Fixpoint blocks_loop (fuel : nat) (state input : list Z) : list Z * list Z :=
  match fuel with
  | O => (state, input)
  | S fuel' =>
      if (64 <=? length input)%nat
      then blocks_loop fuel' (compress state (take 64 input)) (drop 64 input)
      else (state, input)
  end.

Definition Sha256_update (self : Sha256) (input : list Z) : Sha256 :=
  let total := wrapping_add u64_max (sha_total_len self) (Zlength input) in
  let '(state, buffer, buffered, input) :=
    if negb (sha_buffered self =? 0)%nat then
      let take_ := Nat.min (64 - sha_buffered self) (length input) in
      let buffer := splice (sha_buffer self) (sha_buffered self) (take take_ input) in
      let buffered := (sha_buffered self + take_)%nat in
      if (buffered =? 64)%nat then (compress (sha_state self) buffer, buffer, 0%nat, drop take_ input)
      else (sha_state self, buffer, buffered, drop take_ input)
    else (sha_state self, sha_buffer self, sha_buffered self, input) in
  let (state, input) := blocks_loop (length input) state input in
  if is_empty input then MkSha state buffer buffered total
  else MkSha state (splice buffer 0 input) (length input) total.

Definition Sha256_finalize (self : Sha256) : list Z :=
  let bit_len := (sha_total_len self * 8) mod (u64_max + 1) in
  let buffer := splice (sha_buffer self) (sha_buffered self) [0x80] in
  let buffered := S (sha_buffered self) in
  let '(state, buffer, buffered) :=
    if (56 <? buffered)%nat then
      (compress (sha_state self) (splice buffer buffered (replicate (64 - buffered) 0)),
       replicate 64 0, 0%nat)
    else (sha_state self, buffer, buffered) in
  let buffer := splice buffer buffered (replicate (56 - buffered) 0) in
  let buffer := splice buffer 56 (be_bytes 8 bit_len) in
  mjoin (be_bytes 4 <$> compress state buffer).

Definition sha256 (input : list Z) : list Z := Sha256_finalize (Sha256_update Sha256_new input).

(** ** HMAC, PBKDF2, comparison, nonces *)

Definition hmac_key_block (key : list Z) : list Z :=
  if (64 <? length key)%nat
  then splice (replicate 64 0) 0 (Sha256_finalize (Sha256_update Sha256_new key))
  else splice (replicate 64 0) 0 key.

(** The pads are wiped after use, which leaves nothing to observe. *)
Definition hmac_sha256 (key : list Z) (parts : list (list Z)) : list Z :=
  let key_block := hmac_key_block key in
  let inner_pad := Z.lxor 0x36 <$> key_block in
  let outer_pad := Z.lxor 0x5c <$> key_block in
  let inner := fold_left Sha256_update parts (Sha256_update Sha256_new inner_pad) in
  let inner_hash := Sha256_finalize inner in
  Sha256_finalize (Sha256_update (Sha256_update Sha256_new outer_pad) inner_hash).

Definition pbkdf2_round (password : list Z) (v : list Z * list Z) : list Z * list Z :=
  let u := hmac_sha256 password [v.1] in (u, zip_with Z.lxor v.2 u).

Definition pbkdf2_hmac_sha256 (password salt : list Z) (rounds : Z) : list Z :=
  let rounds := Z.max rounds 1 in
  let u := hmac_sha256 password [salt; be_bytes 4 1] in
  (Nat.iter (Z.to_nat (rounds - 1)) (pbkdf2_round password) (u, u)).2.

Definition constant_time_eq (left_ right_ : list Z) : bool :=
  let different := Z.lxor (Zlength left_) (Zlength right_) in
  let different := fold_left Z.lor (zip_with Z.lxor left_ right_) different in
  different =? 0.

Definition storage_nonce (key cfc : list Z) (generation domain : Z) : list Z :=
  take 24 (hmac_sha256 key [lit "ExpOS ExpFS nonce v1"; cfc; le_bytes 8 generation; le_bytes 4 domain]).

(** ** Authenticated encryption

    [seal_storage] and [open_storage] wrap XChaCha20Poly1305 of the
    chacha20poly1305 crate: sealing keeps the length and yields a tag of 16
    bytes; opening what was sealed under the same key, nonce and associated data
    returns the plaintext. *)
Class Aead := {
  seal_storage : list Z → list Z → list Z → list Z → option (list Z * list Z);
  open_storage : list Z → list Z → list Z → list Z → list Z → option (list Z) }.

Class AeadLaws (A : Aead) := {
  seal_shape : ∀ key nonce ad bytes sealed tag,
    seal_storage key nonce ad bytes = Some (sealed, tag) →
    length sealed = length bytes ∧ length tag = 16%nat;
  open_seal : ∀ key nonce ad bytes sealed tag,
    seal_storage key nonce ad bytes = Some (sealed, tag) →
    open_storage key nonce ad sealed tag = Some bytes;
  open_length : ∀ key nonce ad sealed tag bytes,
    open_storage key nonce ad sealed tag = Some bytes → length bytes = length sealed;
  seal_range : ∀ key nonce ad bytes sealed tag,
    seal_storage key nonce ad bytes = Some (sealed, tag) → Forall byte_range bytes →
    Forall byte_range sealed ∧ Forall byte_range tag;
  open_range : ∀ key nonce ad sealed tag bytes,
    open_storage key nonce ad sealed tag = Some bytes → Forall byte_range sealed →
    Forall byte_range bytes }.

(** ** Specification *)

(** The first [n] blocks of a message. *)
Fixpoint blocks (n : nat) (l : list Z) : list (list Z) :=
  match n with O => [] | S n' => take 64 l :: blocks n' (drop 64 l) end.

Definition compress_all (state l : list Z) : list Z :=
  fold_left compress (blocks (length l / 64) l) state.

(** FIPS 180-4: a bit, zeros, and the length in bits, to a multiple of 64. *)
Definition sha256_padding (len : nat) : list Z :=
  [0x80] ++ replicate ((119 - len mod 64) mod 64) 0 ++ be_bytes 8 ((Z.of_nat len * 8) mod 2 ^ 64).

Definition sha256_spec (msg : list Z) : list Z :=
  mjoin (be_bytes 4 <$> compress_all SHA256_INITIAL (msg ++ sha256_padding (length msg))).

(** The HMAC of RFC 2104. *)
Definition hmac_spec (key msg : list Z) : list Z :=
  let block := filled 64 (if (64 <? length key)%nat then sha256_spec key else key) in
  sha256_spec ((Z.lxor 0x5c <$> block) ++ sha256_spec ((Z.lxor 0x36 <$> block) ++ msg)).

(** ** Lemmas: blocks *)

Lemma blocks_app n l k : length l = (64 * n)%nat → blocks n (l ++ k) = blocks n l.
Proof.
  revert l. induction n as [|n IH]; intros l Hl; [done|]. simpl.
  rewrite take_app_le, drop_app_le by lia. f_equal. apply IH. rewrite length_drop. lia.
Qed.

Lemma blocks_add n m l k :
  length l = (64 * n)%nat → blocks (n + m) (l ++ k) = blocks n l ++ blocks m k.
Proof.
  revert l. induction n as [|n IH]; intros l Hl; simpl.
  { by destruct l. }
  rewrite take_app_le, drop_app_le by lia. f_equal. apply IH. rewrite length_drop. lia.
Qed.

Lemma compress_all_app state l k :
  (length l mod 64 = 0)%nat → compress_all state (l ++ k) = compress_all (compress_all state l) k.
Proof.
  intros Hl. unfold compress_all. rewrite <- fold_left_app. f_equal.
  assert (length l = 64 * (length l / 64))%nat as E by (pose proof (Nat.div_mod_eq (length l) 64); lia).
  rewrite length_app, E at 1. rewrite (Nat.mul_comm 64), Nat.div_add_l by lia. by apply blocks_add.
Qed.

Lemma compress_all_block state b : length b = 64%nat → compress_all state b = compress state b.
Proof.
  intros Hb. unfold compress_all. rewrite Hb. cbn [Nat.div Nat.divmod fst Nat.sub blocks fold_left].
  by rewrite take_ge by lia.
Qed.

Lemma blocks_loop_spec fuel state input :
  (length input ≤ fuel)%nat →
  ∃ whole rest, input = whole ++ rest ∧ (length whole mod 64 = 0)%nat ∧ (length rest < 64)%nat ∧
    blocks_loop fuel state input = (compress_all state whole, rest).
Proof.
  revert state input. induction fuel as [|fuel IH]; intros state input Hf.
  { exists [], input. split_and!; [done|done|lia|done]. }
  cbn [blocks_loop]. destruct (64 <=? length input)%nat eqn:E; [|exists [], input; apply Nat.leb_gt in E; split_and!; [done|done|lia|done]].
  apply Nat.leb_le in E.
  destruct (IH (compress state (take 64 input)) (drop 64 input)) as (whole & rest & Ei & Hw & Hr & ->).
  { rewrite length_drop. lia. }
  assert (length (take 64 input) = 64%nat) as Ht by (rewrite length_take; lia).
  exists (take 64 input ++ whole), rest. split_and!; [|rewrite length_app, Ht|done|].
  - by rewrite <- app_assoc, <- Ei, take_drop.
  - replace (64 + length whole)%nat with (length whole + 1 * 64)%nat by lia. by rewrite Nat.Div0.mod_add.
  - rewrite compress_all_app by (rewrite Ht; reflexivity). by rewrite (compress_all_block _ (take 64 input)) by exact Ht.
Qed.

(** ** Lemmas: the streaming state *)

(** [self] has absorbed [msg]: whole blocks are compressed, the rest waits in
    the buffer. *)
Definition absorbed (self : Sha256) (msg : list Z) : Prop :=
  ∃ whole rest, msg = whole ++ rest ∧ (length whole mod 64 = 0)%nat ∧ (length rest < 64)%nat ∧
    sha_state self = compress_all SHA256_INITIAL whole ∧ sha_buffered self = length rest ∧
    length (sha_buffer self) = 64%nat ∧ take (length rest) (sha_buffer self) = rest ∧
    sha_total_len self = Zlength msg mod 2 ^ 64.

Lemma absorbed_new : absorbed Sha256_new [].
Proof. exists [], []. split_and!; try done; simpl; lia. Qed.

Lemma take_splice_0 (l d : list Z) : (length d ≤ length l)%nat → take (length d) (splice l 0 d) = d.
Proof. intros H. unfold splice. simpl. by rewrite take_app_length. Qed.

Lemma update_total self (msg input : list Z) :
  sha_total_len self = Zlength msg mod 2 ^ 64 →
  wrapping_add u64_max (sha_total_len self) (Zlength input) = Zlength (msg ++ input) mod 2 ^ 64.
Proof.
  intros ->. unfold wrapping_add, Zlength. change (u64_max + 1) with (2 ^ 64).
  rewrite length_app, Nat2Z.inj_add. by rewrite Zplus_mod_idemp_l.
Qed.

(** Bytes that reach the end of a partly filled buffer. *)
Lemma buffer_append (buffer rest part : list Z) :
  take (length rest) buffer = rest → (length rest + length part ≤ length buffer)%nat →
  take (length rest + length part) (splice buffer (length rest) part) = rest ++ part.
Proof.
  intros Hb Hl. unfold splice. rewrite Hb, app_assoc.
  by rewrite <- length_app, take_app_length.
Qed.

Lemma update_absorbs self msg input :
  absorbed self msg → absorbed (Sha256_update self input) (msg ++ input).
Proof.
  intros (whole & rest & -> & Hw & Hr & Hs & Hn & Hlen & Hb & Ht).
  pose proof (update_total self (whole ++ rest) input Ht) as Htot.
  assert (∃ state buffer whole' rest' input',
    (if negb (sha_buffered self =? 0)%nat then
       let take_ := Nat.min (64 - sha_buffered self) (length input) in
       let buffer := splice (sha_buffer self) (sha_buffered self) (take take_ input) in
       let buffered := (sha_buffered self + take_)%nat in
       if (buffered =? 64)%nat then (compress (sha_state self) buffer, buffer, 0%nat, drop take_ input)
       else (sha_state self, buffer, buffered, drop take_ input)
     else (sha_state self, sha_buffer self, sha_buffered self, input)) =
      (state, buffer, length rest', input') ∧
    (whole ++ rest) ++ input = (whole' ++ rest') ++ input' ∧
    (length whole' mod 64 = 0)%nat ∧ (length rest' < 64)%nat ∧ (rest' = [] ∨ input' = []) ∧
    state = compress_all SHA256_INITIAL whole' ∧ length buffer = 64%nat ∧
    take (length rest') buffer = rest')
    as (state & buffer & whole' & rest' & input' & E & Em & Hw' & Hr' & Hor & -> & Hlb & Hb').
  { rewrite Hn. destruct (length rest =? 0)%nat eqn:E0; cbn [negb].
    { apply Nat.eqb_eq, length_zero_iff_nil in E0 as ->.
      exists (sha_state self), (sha_buffer self), whole, [], input. split_and!; auto; simpl; lia. }
    cbv zeta. set (n := Nat.min (64 - length rest) (length input)).
    assert (length (take n input) = n) as En by (rewrite length_take; lia).
    assert (length (splice (sha_buffer self) (length rest) (take n input)) = 64%nat) as Hlb.
    { rewrite length_splice; lia. }
    pose proof (buffer_append (sha_buffer self) rest (take n input) Hb ltac:(lia)) as Hba. rewrite En in Hba.
    destruct (length rest + n =? 64)%nat eqn:E1.
    - apply Nat.eqb_eq in E1. rewrite E1, take_ge in Hba by lia.
      eexists _, _, (whole ++ rest ++ take n input), [], (drop n input).
      split; [reflexivity|]. split_and!; try done; [| |simpl; lia|by left|].
      + by rewrite app_nil_r, <- !app_assoc, take_drop.
      + rewrite !length_app, En, E1.
        replace (length whole + 64)%nat with (length whole + 1 * 64)%nat by lia. by rewrite Nat.Div0.mod_add.
      + rewrite compress_all_app by done. rewrite <- Hba, compress_all_block by done. by rewrite Hs.
    - apply Nat.eqb_neq in E1. assert (n = length input) as Hn' by lia.
      eexists _, _, whole, (rest ++ take n input), [].
      rewrite drop_ge by lia. rewrite length_app, En. split; [reflexivity|].
      split_and!; try done; [|lia|by right]. rewrite take_ge by lia. by rewrite app_nil_r, app_assoc. }
  unfold Sha256_update. rewrite Htot. cbv zeta in *. rewrite E. clear E.
  destruct (blocks_loop_spec (length input') (compress_all SHA256_INITIAL whole') input' ltac:(lia))
    as (w & r & Ei & Hw2 & Hr2 & ->).
  assert (length (whole' ++ w) mod 64 = 0)%nat as Hww.
  { rewrite length_app, Nat.Div0.add_mod, Hw', Hw2. done. }
  destruct r as [|x r]; cbn [is_empty].
  - rewrite app_nil_r in Ei. subst w.
    destruct Hor as [->| ->].
    + exists (whole' ++ input'), []. rewrite Em, app_nil_r in *.
      split_and!; try done; [by rewrite app_nil_r|]. cbn [sha_state]. by rewrite compress_all_app.
    + exists whole', rest'. rewrite app_nil_r in Em. rewrite Em in *. split_and!; done.
  - destruct Hor as [->| ->]; [|by destruct w].
    exists (whole' ++ w), (x :: r). rewrite app_nil_r in Em.
    assert ((whole ++ rest) ++ input = (whole' ++ w) ++ x :: r) as Em'.
    { by rewrite Em, Ei, app_assoc. }
    rewrite Em' in *. split_and!; try done; cbn [sha_state sha_buffer sha_total_len].
    + by rewrite compress_all_app.
    + rewrite length_splice; [done|]. lia.
    + apply take_splice_0. lia.
Qed.

Lemma splice_known (buffer rest part : list Z) :
  take (length rest) buffer = rest → splice buffer (length rest) part = rest ++ part ++ drop (length rest + length part) buffer.
Proof. intros Hb. unfold splice. by rewrite Hb. Qed.

(** Filling a known prefix up to [n] with [part]. *)
Lemma splice_prefix (known tail_ part : list Z) n :
  length known = n → length part = length tail_ → splice (known ++ tail_) n part = known ++ part.
Proof.
  intros <- Hl. unfold splice. rewrite take_app_length, drop_app_add, drop_ge by lia.
  by rewrite app_nil_r.
Qed.

Lemma total_bits (msg : list Z) :
  (Zlength msg mod 2 ^ 64 * 8) mod (u64_max + 1) = (Z.of_nat (length msg) * 8) mod 2 ^ 64.
Proof. unfold Zlength. change (u64_max + 1) with (2 ^ 64). by rewrite Zmult_mod_idemp_l. Qed.

Lemma finalize_spec self msg : absorbed self msg → Sha256_finalize self = sha256_spec msg.
Proof.
  intros (whole & rest & -> & Hw & Hr & Hs & Hn & Hlen & Hb & Ht).
  unfold Sha256_finalize, sha256_spec. rewrite Hn, Ht, total_bits, Hs.
  set (bits := be_bytes 8 _).
  assert (length bits = 8%nat) as Hbits by apply be_bytes_length.
  assert (sha256_padding (length (whole ++ rest)) =
    [0x80] ++ replicate ((119 - length rest) mod 64) 0 ++ bits) as Epad.
  { unfold sha256_padding. rewrite length_app, Nat.Div0.add_mod, Hw, Nat.add_0_l, Nat.Div0.mod_mod.
    rewrite (Nat.mod_small (length rest)) by lia. subst bits. by rewrite length_app. }
  rewrite Epad, splice_known by done. set (tail_ := drop _ (sha_buffer self)).
  assert (length tail_ = (63 - length rest)%nat) as Htail by (subst tail_; rewrite length_drop; simpl; lia).
  rewrite <- app_assoc, compress_all_app by done.
  set (state := compress_all SHA256_INITIAL whole). cbv zeta.
  destruct (56 <? S (length rest))%nat eqn:E; [apply Nat.ltb_lt in E|apply Nat.ltb_ge in E].
  - replace ((119 - length rest) mod 64)%nat with ((63 - length rest) + 56)%nat
      by (rewrite Nat.mod_small; lia).
    rewrite replicate_add, (app_assoc rest [0x80] tail_), splice_prefix;
      [|rewrite length_app; simpl; lia|rewrite length_replicate; lia].
    replace (64 - S (length rest))%nat with (63 - length rest)%nat by lia.
    replace (rest ++ [0x80] ++ (replicate (63 - length rest) 0 ++ replicate 56 0) ++ bits)
      with (((rest ++ [0x80]) ++ replicate (63 - length rest) 0) ++ (replicate 56 0 ++ bits))
      by (by rewrite <- !app_assoc).
    assert (length ((rest ++ [0x80]) ++ replicate (63 - length rest) 0) = 64%nat) as Hb1.
    { rewrite !length_app, length_replicate. simpl. lia. }
    rewrite compress_all_app by (rewrite Hb1; done). rewrite (compress_all_block state) by done.
    rewrite compress_all_block by (rewrite length_app, length_replicate; lia).
    do 2 f_equal.
  - replace ((119 - length rest) mod 64)%nat with (55 - length rest)%nat.
    2: { replace (119 - length rest)%nat with (55 - length rest + 1 * 64)%nat by lia.
         rewrite Nat.Div0.mod_add, Nat.mod_small; lia. }
    replace tail_ with (take (55 - length rest) tail_ ++ drop (55 - length rest) tail_)
      by apply take_drop.
    replace (56 - S (length rest))%nat with (55 - length rest)%nat by lia.
    rewrite (app_assoc rest [0x80]), (app_assoc (rest ++ [0x80])).
    rewrite splice_app_l by (rewrite !length_app, length_replicate, length_take; simpl; lia).
    rewrite (splice_prefix (rest ++ [0x80]) (take _ tail_)) by (rewrite ?length_app, ?length_replicate, ?length_take; simpl; lia).
    rewrite splice_prefix by (rewrite ?length_app, ?length_replicate, ?length_drop; simpl; lia).
    rewrite <- !app_assoc. rewrite compress_all_block; [done|].
    rewrite !length_app, length_replicate. simpl. lia.
Qed.

Lemma parts_absorbed parts self msg :
  absorbed self msg → absorbed (fold_left Sha256_update parts self) (msg ++ mjoin parts).
Proof.
  revert self msg. induction parts as [|p parts IH]; intros self msg Ha; simpl.
  { by rewrite app_nil_r. }
  rewrite app_assoc. apply IH. by apply update_absorbs.
Qed.

Lemma length_compress state b : length state = 8%nat → length (compress state b) = 8%nat.
Proof.
  intros Hs. unfold compress. destruct (fold_left _ _ _) as [[[[[[[a b'] c] d] e] f] g] h].
  rewrite length_zip_with, Hs. done.
Qed.

Lemma fold_invariant {A B} (I : A → Prop) (f : A → B → A) l a :
  (∀ a b, I a → b ∈ l → I (f a b)) → I a → I (fold_left f l a).
Proof.
  revert a. induction l as [|b l IH]; intros a Hf Ha; [done|].
  apply IH; [intros; apply Hf; [done|by right]|]. apply Hf; [done|by left].
Qed.

Lemma length_compress_all state l : length state = 8%nat → length (compress_all state l) = 8%nat.
Proof. apply (fold_invariant (λ st, length st = 8%nat) compress). intros st b ? _. by apply length_compress. Qed.

Lemma length_words ws : length ws = 8%nat → length (mjoin (be_bytes 4 <$> ws)) = 32%nat.
Proof. intros H. do 9 (destruct ws as [|? ws]; try done). Qed.

Lemma length_spec msg : length (sha256_spec msg) = 32%nat.
Proof. unfold sha256_spec. apply length_words, length_compress_all. reflexivity. Qed.

Lemma key_block_spec key :
  hmac_key_block key = filled 64 (if (64 <? length key)%nat then sha256_spec key else key).
Proof.
  unfold hmac_key_block. destruct (64 <? length key)%nat eqn:E.
  - rewrite (finalize_spec _ key); [|apply (update_absorbs _ [] key absorbed_new)].
    apply splice_zeros. rewrite length_spec. lia.
  - apply Nat.ltb_ge in E. by apply splice_zeros.
Qed.

Lemma lor_fold_zero l acc : fold_left Z.lor l acc = 0 ↔ acc = 0 ∧ Forall (eq 0) l.
Proof.
  revert acc. induction l as [|x l IH]; intros acc; simpl.
  { split; [by intros ->|by intros [-> _]]. }
  rewrite IH, Z.lor_eq_0_iff, Forall_cons. naive_solver.
Qed.

(** ** Theorems *)

(** C33.  The incremental digest is independent of how its input is cut into
    pieces, and is SHA-256 of the whole input; HMAC over several parts is the
    HMAC of their concatenation, for keys of any length. *)
Theorem digests_streaming (parts : list (list Z)) (key : list Z) :
  Sha256_finalize (fold_left Sha256_update parts Sha256_new) = sha256_spec (mjoin parts) ∧
  hmac_sha256 key parts = hmac_spec key (mjoin parts).
Proof.
  split.
  - apply finalize_spec. apply (parts_absorbed parts Sha256_new [] absorbed_new).
  - unfold hmac_sha256, hmac_spec. rewrite key_block_spec. set (block := filled 64 _).
    pose proof (update_absorbs _ [] (Z.lxor 0x36 <$> block) absorbed_new) as Hi.
    pose proof (update_absorbs _ [] (Z.lxor 0x5c <$> block) absorbed_new) as Ho. simpl in Hi, Ho.
    rewrite (finalize_spec (fold_left _ _ _) _ (parts_absorbed parts _ _ Hi)).
    apply finalize_spec. by apply update_absorbs.
Qed.

(** The comparison of secrets decides equality. *)
Theorem constant_time_eq_decides (left_ right_ : list Z) :
  constant_time_eq left_ right_ = true ↔ left_ = right_.
Proof.
  unfold constant_time_eq. rewrite Z.eqb_eq, lor_fold_zero, Z.lxor_eq_0_iff. unfold Zlength. split.
  - intros [Hl Hf]. apply Nat2Z.inj in Hl. revert right_ Hl Hf.
    induction left_ as [|x l IH]; intros [|y r] Hl Hf; try done.
    cbn [zip_with] in Hf. apply Forall_cons in Hf as [Hx Hf]. symmetry in Hx. apply Z.lxor_eq in Hx as ->.
    f_equal. apply IH; [by injection Hl|done].
  - intros ->. split; [done|]. induction right_ as [|x l IH]; cbn [zip_with]; constructor; [|done].
    by rewrite Z.lxor_nilpotent.
Qed.

(** The test vectors of NIST, RFC 4231 and RFC 7914. *)
Example sha256_abc :
  sha256 (lit "abc") = be_bytes 32 0xba7816bf8f01cfea414140de5dae2223b00361a396177a9cb410ff61f20015ad.
Proof. vm_compute. reflexivity. Qed.

Example hmac_hi_there :
  hmac_sha256 (replicate 20 11) [lit "Hi There"] =
  be_bytes 32 0xb0344c61d8db38535ca8afceaf0bf12b881dc200c9833da726e9376c2e32cff7.
Proof. vm_compute. reflexivity. Qed.

Example pbkdf2_two_rounds :
  pbkdf2_hmac_sha256 (lit "password") (lit "salt") 2 =
  be_bytes 32 0xae4d0c95af6b46d32d0adff928f06dd02a303f8ef3c251dfd6e2d85a95474c43.
Proof. vm_compute. reflexivity. Qed.
