(* ===== verification/StoreCodec.v ===== *)
(** * The on-disk format of the ExpFS database

    [Snapshot], [validate_snapshot], [encode_slot] and [decode_slot] of
    kernel/src/expfs_store.rs.  Writing is a computation on an output buffer and
    a cursor; reading is a parser with a cursor.  A read that meets an [assert!]
    or an index out of range panics. *)

From stdpp Require Import prelude list strings.
From Stdlib Require Import ZArith Lia.
From S2P Require Import Prelude Identity Bytes Capability Blob ExpFs Registry Relationship Pimp Crypto.

Set Default Goal Selector "!".
Open Scope Z_scope.
Open Scope expos_scope.

(** ** Data *)

Definition MAX_STORED_FORMS : nat := 12.
Definition MAX_STORED_DIMENSIONS : nat := 6.
Definition MAX_STORED_RELATIONSHIPS : nat := 48.
Definition MAX_STORED_HANDLES : nat := 16.
Definition SETTINGS_RECORD_CAPACITY : nat := 32.
Definition ACCOUNTS_RECORD_CAPACITY : nat := 12 * 80.

Definition SECTOR_SIZE : nat := 512.
Definition MAGIC : list Z := lit "EXPFSDB1".
Definition FORMAT_VERSION : Z := 3.
Definition HEADER_LEN : nat := 64.
Definition LEGACY_FORM_CONTENT_CAPACITY : nat := 512.
Definition LEGACY_SLOT_SECTORS : nat := 24.
Definition LEGACY_SLOT_LEN : nat := LEGACY_SLOT_SECTORS * SECTOR_SIZE.
Definition SLOT_SECTORS : nat := 128.
Definition SLOT_LEN : nat := SLOT_SECTORS * SECTOR_SIZE.

Record StoredForm := MkStoredForm { sf_form : Form; sf_content : ChunkedBlob }.

Definition StoredForm_content_len (self : StoredForm) : Z := Z.of_nat (bl_len (sf_content self)).
Definition StoredForm_bytes (self : StoredForm) : outcome (list Z) :=
  ChunkedBlob_to_vec (sf_content self).

Record Snapshot := MkSnapshot {
  sn_cfc : CfcFin; sn_cfc_name : Text; sn_primary_dimension : Fin;
  sn_forms : slots StoredForm; sn_dimensions : slots Dimension;
  sn_relationships : slots Relationship; sn_handles : slots FormHandle;
  sn_next_fin : Z; sn_next_dimension_fin : Z; sn_journal_sequence : Z;
  sn_network_policy : NetworkPolicy; sn_form_graph_present : bool;
  sn_settings : option (list Z); sn_accounts : option (list Z) }.

Definition Snapshot_eta (s : Snapshot) : Snapshot :=
  MkSnapshot (sn_cfc s) (sn_cfc_name s) (sn_primary_dimension s) (sn_forms s) (sn_dimensions s)
    (sn_relationships s) (sn_handles s) (sn_next_fin s) (sn_next_dimension_fin s)
    (sn_journal_sequence s) (sn_network_policy s) (sn_form_graph_present s) (sn_settings s)
    (sn_accounts s).
#[export] Instance set_sn_forms : Setter sn_forms := ltac:(build_setter Snapshot_eta).
#[export] Instance set_sn_dimensions : Setter sn_dimensions := ltac:(build_setter Snapshot_eta).
#[export] Instance set_sn_relationships : Setter sn_relationships := ltac:(build_setter Snapshot_eta).
#[export] Instance set_sn_next_fin : Setter sn_next_fin := ltac:(build_setter Snapshot_eta).
#[export] Instance set_sn_journal_sequence : Setter sn_journal_sequence := ltac:(build_setter Snapshot_eta).
#[export] Instance set_sn_network_policy : Setter sn_network_policy := ltac:(build_setter Snapshot_eta).
#[export] Instance set_sn_form_graph_present : Setter sn_form_graph_present := ltac:(build_setter Snapshot_eta).
#[export] Instance set_sn_settings : Setter sn_settings := ltac:(build_setter Snapshot_eta).
#[export] Instance set_sn_accounts : Setter sn_accounts := ltac:(build_setter Snapshot_eta).

Definition Snapshot_empty (cfc : CfcFin) (cfc_name : Text) (primary_dimension : Fin) : Snapshot :=
  MkSnapshot cfc cfc_name primary_dimension (empty_slots StoredForm MAX_STORED_FORMS)
    (empty_slots Dimension MAX_STORED_DIMENSIONS)
    (empty_slots Relationship MAX_STORED_RELATIONSHIPS) (empty_slots FormHandle MAX_STORED_HANDLES)
    2 2 1 NetRestricted false None None.

(** The errors of the block device, and of the store. *)
Inductive DeviceError :=
  | DevNoDevice | DevUnsupportedDevice | DevOutOfRange | DevTimeout
  | DevDeviceFault (code : Z) | DevControllerFault (code : Z).

Inductive StoreError :=
  | StUnavailable | StFull | StWrongCfc | StInvalidSnapshot | StDisk (e : DeviceError)
  | StVerificationFailed | StNoCurrentState | StCheckpointNotFound | StBaselineNotFound
  | StBaselineDamaged | StStreamNotFound | StStreamMode | StStaleStream.

Record DecodedSlot := MkDecoded { dsl_snapshot : Snapshot; dsl_generation : Z; dsl_slot : Z }.

(** ** Validation *)

Definition form_invalid (stored : StoredForm) : bool :=
  Fin_is_zero (form_fin (sf_form stored)) || str_is_empty (Text_as_str (form_name (sf_form stored))) ||
  (form_revision (sf_form stored) =? 0) || (FORM_CONTENT_CAPACITY <? StoredForm_content_len stored).

Definition dimension_invalid (dimension : Dimension) : bool :=
  Fin_is_zero (dim_fin dimension) || str_is_empty (Text_as_str (dim_name dimension)).

Definition handle_invalid (cfc : CfcFin) (handle : FormHandle) (later : list FormHandle) : bool :=
  (fh_id handle =? 0) || (fh_cfc handle !=? cfc) || Fin_is_zero (fh_requester handle) ||
  Fin_is_zero (fh_target handle) || Fin_is_zero (fh_dimension handle) ||
  (ops_bits (fh_operations handle) =? 0) ||
  existsb (λ candidate, fh_id candidate =? fh_id handle) later.

Fixpoint handles_invalid (cfc : CfcFin) (handles : list FormHandle) : bool :=
  match handles with
  | [] => false
  | handle :: later => handle_invalid cfc handle later || handles_invalid cfc later
  end.

Definition validate_snapshot (snapshot : Snapshot) : result unit StoreError :=
  if CfcFin_is_zero (sn_cfc snapshot) || str_is_empty (Text_as_str (sn_cfc_name snapshot)) ||
     Fin_is_zero (sn_primary_dimension snapshot) || (sn_journal_sequence snapshot =? 0) ||
     (sn_next_fin snapshot =? 0) || (sn_next_dimension_fin snapshot =? 0)
  then Err StInvalidSnapshot
  else if existsb form_invalid (flatten (sn_forms snapshot)) then Err StInvalidSnapshot
  else if CFC_CONTENT_CAPACITY <? Zsum (StoredForm_content_len <$> flatten (sn_forms snapshot))
  then Err StFull
  else if existsb dimension_invalid (flatten (sn_dimensions snapshot)) then Err StInvalidSnapshot
  else if handles_invalid (sn_cfc snapshot) (flatten (sn_handles snapshot)) then Err StInvalidSnapshot
  else Ok tt.

(** ** Enumerations on disk *)

Definition encode_kind (value : FormKind) : Z :=
  match value with
  | KindRoot => 0 | KindService => 1 | KindInterface => 2 | KindPackage => 3 | KindDriver => 4
  | KindData => 5 | KindPolicy => 6 | KindExecutable => 7
  end.

Definition decode_kind (value : Z) : option FormKind :=
  if value =? 0 then Some KindRoot else if value =? 1 then Some KindService
  else if value =? 2 then Some KindInterface else if value =? 3 then Some KindPackage
  else if value =? 4 then Some KindDriver else if value =? 5 then Some KindData
  else if value =? 6 then Some KindPolicy else if value =? 7 then Some KindExecutable else None.

Definition encode_lifecycle (value : Lifecycle) : Z :=
  match value with LifeActive => 0 | LifeRetired => 1 | LifeRecoverable => 2 | LifeRemoved => 3 end.

Definition decode_lifecycle (value : Z) : option Lifecycle :=
  if value =? 0 then Some LifeActive else if value =? 1 then Some LifeRetired
  else if value =? 2 then Some LifeRecoverable else if value =? 3 then Some LifeRemoved else None.

Definition encode_relationship (value : RelationshipKind) : Z :=
  match value with
  | DependsOn => 0 | Provides => 1 | Contains => 2 | ConfiguredBy => 3 | Revises => 4
  end.

Definition decode_relationship (value : Z) : option RelationshipKind :=
  if value =? 0 then Some DependsOn else if value =? 1 then Some Provides
  else if value =? 2 then Some Contains else if value =? 3 then Some ConfiguredBy
  else if value =? 4 then Some Revises else None.

Definition encode_network (value : NetworkPolicy) : Z :=
  match value with NetOpen => 0 | NetRestricted => 1 | NetDisabled => 2 end.

Definition decode_network (value : Z) : option NetworkPolicy :=
  if value =? 0 then Some NetOpen else if value =? 1 then Some NetRestricted
  else if value =? 2 then Some NetDisabled else None.

(** ** Checksum *)

Definition crc32_bit (crc : Z) : Z :=
  let mask := (0 - Z.land crc 1) mod 2 ^ 32 in
  Z.lxor (Z.shiftr crc 1) (Z.land 0xEDB88320 mask).

Definition crc32_byte (crc byte : Z) : Z := Nat.iter 8 crc32_bit (Z.lxor crc byte).

Definition crc32 (bytes : list Z) : Z := Z.lxor u32_max (fold_left crc32_byte bytes u32_max).

(** ** Writing

    A writer takes the output buffer and the cursor; [?] stops at the first
    error.  [None] of [checked_add] cannot occur: the buffer has 65,536 bytes. *)

Definition Writer : Type := list Z * nat → outcome (result (list Z * nat) StoreError).

Definition put (bytes : list Z) : Writer := λ '(output, offset),
  let end_ := (offset + length bytes)%nat in
  if (end_ <=? length output)%nat then Returns (Ok (splice output offset bytes, end_))
  else Returns (Err StInvalidSnapshot).

Definition put_nothing : Writer := λ st, Returns (Ok st).

Definition put_then (first second : Writer) : Writer := λ st,
  match first st with
  | Returns (Ok st') => second st'
  | Returns (Err e) => Returns (Err e)
  | Panics => Panics
  | OutOfFuel => OutOfFuel
  end.

(** A value of the source that may panic, written by [k]. *)
Definition put_value {A} (value : outcome A) (k : A → Writer) : Writer := λ st,
  match value with
  | Returns a => k a st
  | Panics => Panics
  | OutOfFuel => OutOfFuel
  end.

Notation "a ;; b" := (put_then a b) : expos_scope.

Definition put_byte (value : Z) : Writer := put [value].
Definition put_text (value : Text) : Writer :=
  let text := Text_as_str value in
  put_byte (Zlength text) ;; put (splice (replicate 32 0) 0 text).
Definition put_u16_cursor (value : Z) : Writer := put (le_bytes 2 value).
Definition put_u32_cursor (value : Z) : Writer := put (le_bytes 4 value).
Definition put_u64_cursor (value : Z) : Writer := put (le_bytes 8 value).

Definition bool_byte (b : bool) : Z := if b then 1 else 0.
Definition is_some {A} (o : option A) : bool := match o with Some _ => true | None => false end.

(** [for slot in &table]: a presence byte, then the record. *)
Fixpoint put_slots {A} (record : A → Writer) (table : slots A) : Writer :=
  match table with
  | [] => put_nothing
  | slot :: table' =>
      put_byte (bool_byte (is_some slot)) ;;
      match slot with Some x => record x | None => put_nothing end ;;
      put_slots record table'
  end.

Definition put_dimension (dimension : Dimension) : Writer :=
  put (Fin_bytes (dim_fin dimension)) ;; put_text (dim_name dimension) ;;
  put_byte (bool_byte (dim_security_boundary dimension)).

Definition put_form (stored : StoredForm) : Writer :=
  put (Fin_bytes (form_fin (sf_form stored))) ;; put_text (form_name (sf_form stored)) ;;
  put_byte (encode_kind (form_kind (sf_form stored))) ;;
  put_u32_cursor (form_revision (sf_form stored)) ;;
  put_byte (encode_lifecycle (form_lifecycle (sf_form stored))) ;;
  put_value (StoredForm_bytes stored) (λ content,
    put_u16_cursor (Zlength content mod 2 ^ 16) ;; put content).

Definition put_relationship (relationship : Relationship) : Writer :=
  put (Fin_bytes (rel_source relationship)) ;; put (Fin_bytes (rel_target relationship)) ;;
  put_byte (encode_relationship (rel_kind relationship)) ;;
  put_byte (bool_byte (is_some (rel_dimension relationship))) ;;
  put (Fin_bytes (default Fin_ZERO (rel_dimension relationship))).

Definition put_handle (handle : FormHandle) : Writer :=
  put_u32_cursor (fh_id handle) ;; put_u32_cursor (fh_parent_id handle) ;;
  put (Fin_bytes (fh_requester handle)) ;; put (Fin_bytes (fh_target handle)) ;;
  put (Fin_bytes (fh_dimension handle)) ;; put_u16_cursor (ops_bits (fh_operations handle)) ;;
  put_u64_cursor (fh_valid_until_tick handle) ;; put_byte (bool_byte (fh_revoked handle)).

Definition put_payload (snapshot : Snapshot) : Writer :=
  put (Fin_bytes (sn_primary_dimension snapshot)) ;; put_text (sn_cfc_name snapshot) ;;
  put_u32_cursor (sn_next_fin snapshot) ;; put_u32_cursor (sn_next_dimension_fin snapshot) ;;
  put_u32_cursor (sn_journal_sequence snapshot) ;;
  put_byte (encode_network (sn_network_policy snapshot)) ;;
  put_byte (bool_byte (sn_form_graph_present snapshot)) ;;
  put_byte (bool_byte (is_some (sn_settings snapshot))) ;;
  put (default (replicate SETTINGS_RECORD_CAPACITY 0) (sn_settings snapshot)) ;;
  put_byte (bool_byte (is_some (sn_accounts snapshot))) ;;
  put (default (replicate ACCOUNTS_RECORD_CAPACITY 0) (sn_accounts snapshot)) ;;
  put_slots put_dimension (sn_dimensions snapshot) ;; put_slots put_form (sn_forms snapshot) ;;
  put_slots put_relationship (sn_relationships snapshot) ;; put_slots put_handle (sn_handles snapshot).

Section codec.
Context `{Aead}.

(** The header up to the checksums: magic, version, lengths, generation, CFC and
    journal sequence. *)
Definition put_header (snapshot : Snapshot) (generation : Z) (payload_len : nat) (output : list Z)
    : list Z :=
  let output := splice output 0 MAGIC in
  let output := splice output 8 (le_bytes 2 FORMAT_VERSION) in
  let output := splice output 10 (le_bytes 2 (Z.of_nat HEADER_LEN)) in
  let output := splice output 12 (le_bytes 4 (Z.of_nat payload_len)) in
  let output := splice output 16 (le_bytes 8 generation) in
  let output := splice output 24 (CfcFin_bytes (sn_cfc snapshot)) in
  splice output 40 (le_bytes 4 (sn_journal_sequence snapshot)).

(** The end of [encode_slot]: encryption and tag, or the two checksums. *)
Definition seal_slot (snapshot : Snapshot) (generation : Z) (storage_key : option (list Z))
    (nonce_domain : Z) (output : list Z) (offset : nat) : result (list Z) StoreError :=
  match storage_key with
  | Some key =>
      let output := splice (splice output 44 [1]) 45 [1] in
      let nonce := storage_nonce key (CfcFin_bytes (sn_cfc snapshot)) generation nonce_domain in
      match seal_storage key nonce (take 48 output) (slice output HEADER_LEN (offset - HEADER_LEN)) with
      | None => Err StVerificationFailed
      | Some (payload, tag) => Ok (splice (splice output HEADER_LEN payload) 48 tag)
      end
  | None =>
      let output := splice output 48 (le_bytes 4 (crc32 (slice output HEADER_LEN (offset - HEADER_LEN)))) in
      Ok (splice output 52 (le_bytes 4 (crc32 (take 52 output))))
  end.

(** [encode_slot]: the filled buffer and its used length. *)
Definition encode_slot (snapshot : Snapshot) (generation : Z) (storage_key : option (list Z))
    (nonce_domain : Z) : outcome (result (list Z * nat) StoreError) :=
  match put_payload snapshot (replicate SLOT_LEN 0, HEADER_LEN) with
  | Returns (Ok (output, offset)) =>
      if (SLOT_LEN <? offset)%nat then Returns (Err StInvalidSnapshot)
      else
        let output := put_header snapshot generation (offset - HEADER_LEN) output in
        Returns (match seal_slot snapshot generation storage_key nonce_domain output offset with
                 | Ok output => Ok (output, offset)
                 | Err e => Err e
                 end)
  | Returns (Err e) => Returns (Err e)
  | Panics => Panics
  | OutOfFuel => OutOfFuel
  end.
End codec.

(** ** Reading

    A parser takes the input and the cursor; [?] on [None] stops with [None]. *)

Definition Parser (A : Type) : Type := list Z → nat → outcome (option (A * nat)).

Definition p_ret {A} (a : A) : Parser A := λ _ offset, Returns (Some (a, offset)).
Definition p_none {A} : Parser A := λ _ _, Returns None.
Definition p_panic {A} : Parser A := λ _ _, Panics.
Definition p_option {A} (o : option A) : Parser A := match o with Some a => p_ret a | None => p_none end.
Definition p_skip (n : nat) : Parser unit := λ _ offset, Returns (Some (tt, (offset + n)%nat)).

Definition p_bind {A B} (p : Parser A) (k : A → Parser B) : Parser B := λ input offset,
  match p input offset with
  | Returns (Some (a, offset')) => k a input offset'
  | Returns None => Returns None
  | Panics => Panics
  | OutOfFuel => OutOfFuel
  end.

Notation "x <-- p ; k" := (p_bind p (λ x, k)) 
  (at level 100, p at next level, k at level 200, right associativity) : expos_scope.

Definition read (len : nat) : Parser (list Z) := λ input offset,
  let end_ := (offset + len)%nat in
  if (end_ <=? length input)%nat then Returns (Some (slice input offset len, end_)) else Returns None.

Definition read_byte : Parser Z := bytes <-- read 1; p_ret (byte_at bytes 0).
Definition read_u16_cursor : Parser Z := bytes <-- read 2; p_ret (le_value bytes).
Definition read_u32_cursor : Parser Z := bytes <-- read 4; p_ret (le_value bytes).
Definition read_u64_cursor : Parser Z := bytes <-- read 8; p_ret (le_value bytes).
Definition read_fin : Parser Fin := bytes <-- read 16; p_ret (Fin_from_u128 (be_value bytes)).

Definition read_text : Parser Text :=
  len <-- read_byte;
  bytes <-- read 32;
  let text := take (Z.to_nat len) bytes in
  if (len =? 0) || (32 <? len) || negb (str_is_ascii text) then p_none
  else match Text_new text with Ok t => p_ret t | Err _ => p_none end.

Definition read_bool : Parser bool :=
  byte <-- read_byte;
  if byte =? 0 then p_ret false else if byte =? 1 then p_ret true else p_none.

(** [for target in &mut table]: a presence byte, then the record; the fixed
    formats 1 and 2 leave [width] bytes for an absent record. *)
Definition read_slot_entry {A} (fixed_records : bool) (width : nat) (record : Parser A)
    : Parser (option A) :=
  present <-- read_byte;
  if present =? 0 then (if fixed_records then _ <-- p_skip width; p_ret None else p_ret None)
  else if present !=? 1 then p_none
  else x <-- record; p_ret (Some x).

Fixpoint read_slots {A} (n : nat) (entry : Parser (option A)) : Parser (slots A) :=
  match n with
  | O => p_ret []
  | S n' => slot <-- entry; rest <-- read_slots n' entry; p_ret (slot :: rest)
  end.

Definition read_dimension : Parser Dimension :=
  fin <-- read_fin;
  name <-- read_text;
  security_boundary <-- read_bool;
  match Dimension_new fin (Text_as_str name) security_boundary with
  | Some dimension => p_ret dimension
  | None => p_panic
  end.

Definition read_form (fixed_records : bool) : Parser StoredForm :=
  fin <-- read_fin;
  name <-- read_text;
  byte <-- read_byte; kind <-- p_option (decode_kind byte);
  revision <-- read_u32_cursor;
  byte <-- read_byte; lifecycle <-- p_option (decode_lifecycle byte);
  content_len <-- read_u16_cursor;
  if FORM_CONTENT_CAPACITY <? content_len then p_none
  else
    stored <-- read (if fixed_records then LEGACY_FORM_CONTENT_CAPACITY else Z.to_nat content_len);
    match Form_new fin (Text_as_str name) kind with
    | None => p_panic
    | Some form =>
        if Zlength stored <? content_len then p_panic
        else p_ret (MkStoredForm (MkForm (form_fin form) (form_name form) (form_kind form) revision
                                    lifecycle)
                      (ChunkedBlob_from_bytes (take (Z.to_nat content_len) stored)))
    end.

Definition read_relationship : Parser Relationship :=
  source <-- read_fin;
  destination <-- read_fin;
  byte <-- read_byte; kind <-- p_option (decode_relationship byte);
  dimension_present <-- read_byte;
  dimension <-- read_fin;
  if (dimension_present =? 0) && Fin_is_zero dimension
  then p_ret (MkRelationship source destination kind None)
  else if (dimension_present =? 1) && negb (Fin_is_zero dimension)
  then p_ret (MkRelationship source destination kind (Some dimension))
  else p_none.

Definition read_handle (cfc : CfcFin) : Parser FormHandle :=
  id <-- read_u32_cursor;
  parent_id <-- read_u32_cursor;
  requester <-- read_fin;
  target_fin <-- read_fin;
  dimension <-- read_fin;
  bits <-- read_u16_cursor; operations <-- p_option (Operations_from_bits bits);
  valid_until_tick <-- read_u64_cursor;
  revoked <-- read_bool;
  p_ret (MkHandle id parent_id cfc requester target_fin dimension operations valid_until_tick revoked).

Definition read_payload (cfc : CfcFin) (fixed_records : bool) (header_sequence : Z) : Parser Snapshot :=
  primary_dimension <-- read_fin;
  cfc_name <-- read_text;
  next_fin <-- read_u32_cursor;
  next_dimension_fin <-- read_u32_cursor;
  journal_sequence <-- read_u32_cursor;
  if journal_sequence !=? header_sequence then p_none
  else
    byte <-- read_byte; network_policy <-- p_option (decode_network byte);
    form_graph_present <-- read_bool;
    settings_present <-- read_byte;
    settings <-- read SETTINGS_RECORD_CAPACITY;
    accounts_present <-- read_byte;
    accounts <-- read ACCOUNTS_RECORD_CAPACITY;
    if (1 <? settings_present) || (1 <? accounts_present) then p_none
    else
      dimensions <-- read_slots MAX_STORED_DIMENSIONS
        (read_slot_entry fixed_records (16 + 1 + 32 + 1) read_dimension);
      forms <-- read_slots MAX_STORED_FORMS
        (read_slot_entry fixed_records (16 + 1 + 32 + 1 + 4 + 1 + 2 + LEGACY_FORM_CONTENT_CAPACITY)
           (read_form fixed_records));
      relationships <-- read_slots MAX_STORED_RELATIONSHIPS
        (read_slot_entry fixed_records (16 + 16 + 1 + 1 + 16) read_relationship);
      handles <-- read_slots MAX_STORED_HANDLES
        (read_slot_entry fixed_records (4 + 4 + 16 + 16 + 16 + 2 + 8 + 1) (read_handle cfc));
      p_ret (MkSnapshot cfc cfc_name primary_dimension forms dimensions relationships handles next_fin
               next_dimension_fin journal_sequence network_policy form_graph_present
               (if settings_present =? 1 then Some settings else None)
               (if accounts_present =? 1 then Some accounts else None)).

Definition get_u16 (input : list Z) (offset : nat) : Z := le_value (slice input offset 2).
Definition get_u32 (input : list Z) (offset : nat) : Z := le_value (slice input offset 4).
Definition get_u64 (input : list Z) (offset : nat) : Z := le_value (slice input offset 8).

Section decode.
Context `{Aead}.

(** The payload of a slot in the clear, after the tag or the checksums match. *)
Definition open_slot (encoded : list Z) (storage_key : option (list Z)) (nonce_domain : Z)
    : option (list Z) :=
  if (2 <=? get_u16 encoded 8) && (byte_at encoded 44 =? 1) then
    if byte_at encoded 45 !=? 1 then None
    else match storage_key with
    | None => None
    | Some key =>
        let nonce := storage_nonce key (slice encoded 24 16) (get_u64 encoded 16) nonce_domain in
        (λ payload, take HEADER_LEN encoded ++ payload) <$>
          open_storage key nonce (take 48 encoded) (drop HEADER_LEN encoded) (slice encoded 48 16)
    end
  else if (crc32 (take 52 encoded) !=? get_u32 encoded 52) ||
          (crc32 (drop HEADER_LEN encoded) !=? get_u32 encoded 48)
  then None else Some encoded.

(** [decode_slot]; the version is read before the length is checked, so fewer
    than ten bytes panic. *)
Definition decode_slot (encoded : list Z) (slot : Z) (storage_key : option (list Z)) (nonce_domain : Z)
    : outcome (option DecodedSlot) :=
  if (length encoded <? 10)%nat then Panics
  else
    let version := get_u16 encoded 8 in
    if (length encoded <? HEADER_LEN)%nat || (take 8 encoded !=? MAGIC) || (version <? 1) ||
       (FORMAT_VERSION <? version) || (get_u16 encoded 10 !=? Z.of_nat HEADER_LEN) ||
       (get_u32 encoded 12 !=? Z.of_nat (length encoded - HEADER_LEN))
    then Returns None
    else match open_slot encoded storage_key nonce_domain with
    | None => Returns None
    | Some input =>
        let generation := get_u64 input 16 in
        if generation =? 0 then Returns None
        else
          let cfc := CfcFin_from_u128 (be_value (slice input 24 16)) in
          match read_payload cfc (version <=? 2) (get_u32 input 40) input HEADER_LEN with
          | Returns (Some (snapshot, _)) =>
              Returns (match validate_snapshot snapshot with
                       | Ok _ => Some (MkDecoded snapshot generation slot)
                       | Err _ => None
                       end)
          | Returns None => Returns None
          | Panics => Panics
          | OutOfFuel => OutOfFuel
          end
    end.
End decode.
