(* ===== verification/StoreRoundtrip.v ===== *)
(** * The on-disk format reads back

    What [encode_slot] writes, [decode_slot] returns, for every snapshot whose
    contents have their chunks and whose Relationships name their Dimension; and
    what happens to the other snapshots of the Rust types. *)

From stdpp Require Import prelude list strings.
From Stdlib Require Import ZArith Lia.
From S2P Require Import Prelude Identity Bytes Capability Blob ExpFs Registry Relationship Pimp Crypto StoreCodec.

Set Default Goal Selector "!".
Open Scope Z_scope.
Open Scope expos_scope.

(** ** Specification *)

Definition word (n : nat) (v : Z) : Prop := 0 ≤ v < 256 ^ Z.of_nat n.

Definition fin_ok (f : Fin) : Prop := length (Fin_bytes f) = 16%nat ∧ Forall byte_range (Fin_bytes f).
Definition cfc_ok (f : CfcFin) : Prop := length (CfcFin_bytes f) = 16%nat ∧ Forall byte_range (CfcFin_bytes f).
Definition text_ok (t : Text) : Prop := ∃ s, Forall byte_range s ∧ Text_new s = Ok t.

(** The values the Rust types admit: the chunks of a content are arrays of bytes. *)
Definition dimension_typed (d : Dimension) : Prop := fin_ok (dim_fin d) ∧ text_ok (dim_name d).

Definition form_typed (f : StoredForm) : Prop :=
  fin_ok (form_fin (sf_form f)) ∧ text_ok (form_name (sf_form f)) ∧
  word 4 (form_revision (sf_form f)) ∧ whole_chunks (bl_chunks (sf_content f)) ∧
  Forall byte_range (blob_contents (sf_content f)).

Definition relationship_typed (r : Relationship) : Prop :=
  fin_ok (rel_source r) ∧ fin_ok (rel_target r) ∧ ∀ d, rel_dimension r = Some d → fin_ok d.

(** What neither the types nor [validate_snapshot] ask for: a content has exactly the
    chunks its length needs ([ChunkedBlob::write] can leave fewer), and a Relationship
    is not limited to the zero Dimension, which the format reads as damage. *)
Definition form_intact (f : StoredForm) : Prop :=
  fin_ok (form_fin (sf_form f)) ∧ text_ok (form_name (sf_form f)) ∧
  word 4 (form_revision (sf_form f)) ∧ blob_wf (sf_content f) ∧ Forall byte_range (blob_contents (sf_content f)).

Definition relationship_intact (r : Relationship) : Prop :=
  fin_ok (rel_source r) ∧ fin_ok (rel_target r) ∧
  ∀ d, rel_dimension r = Some d → fin_ok d ∧ Fin_is_zero d = false.

Definition chunks_missing (f : StoredForm) : Prop :=
  (length (blob_flat (sf_content f)) < bl_len (sf_content f))%nat.

Definition dimension_named (r : Relationship) : bool :=
  match rel_dimension r with Some d => negb (Fin_is_zero d) | None => true end.

Definition handle_typed (h : FormHandle) : Prop :=
  word 4 (fh_id h) ∧ word 4 (fh_parent_id h) ∧ fin_ok (fh_requester h) ∧ fin_ok (fh_target h) ∧
  fin_ok (fh_dimension h) ∧ word 2 (ops_bits (fh_operations h)) ∧
  Operations_from_bits (ops_bits (fh_operations h)) = Some (fh_operations h) ∧
  word 8 (fh_valid_until_tick h).

Definition slots_typed {A} (n : nat) (P : A → Prop) (l : slots A) : Prop :=
  length l = n ∧ ∀ x, x ∈ flatten l → P x.

(** The fields of a snapshot, its Forms in [F] and its Relationships in [R]. *)
Record snapshot_of (F : StoredForm → Prop) (R : Relationship → Prop) (s : Snapshot) : Prop := {
  st_cfc : cfc_ok (sn_cfc s);
  st_name : text_ok (sn_cfc_name s);
  st_primary : fin_ok (sn_primary_dimension s);
  st_forms : slots_typed MAX_STORED_FORMS F (sn_forms s);
  st_dimensions : slots_typed MAX_STORED_DIMENSIONS dimension_typed (sn_dimensions s);
  st_relationships : slots_typed MAX_STORED_RELATIONSHIPS R (sn_relationships s);
  st_handles : slots_typed MAX_STORED_HANDLES handle_typed (sn_handles s);
  st_next_fin : word 4 (sn_next_fin s);
  st_next_dimension : word 4 (sn_next_dimension_fin s);
  st_journal : word 4 (sn_journal_sequence s);
  st_settings : ∀ r, sn_settings s = Some r → length r = SETTINGS_RECORD_CAPACITY ∧ Forall byte_range r;
  st_accounts : ∀ r, sn_accounts s = Some r → length r = ACCOUNTS_RECORD_CAPACITY ∧ Forall byte_range r }.
Arguments st_cfc {F R} s _.

(** What the types admit, what can be written, and what also reads back. *)
Abbreviation snapshot_typed := (snapshot_of form_typed relationship_typed).
Abbreviation snapshot_whole := (snapshot_of form_intact relationship_typed).
Abbreviation snapshot_intact := (snapshot_of form_intact relationship_intact).

Class Typed (R : Relationship → Prop) := relationship_is_typed r : R r → relationship_typed r.
#[export] Instance typed_typed : Typed relationship_typed.
Proof. by intros r. Qed.
#[export] Instance intact_typed : Typed relationship_intact.
Proof. intros r (H1 & H2 & H3). split_and!; [done..|]. intros d Hd. by apply H3. Qed.

(** The bytes of each record. *)
Definition text_bytes (t : Text) : list Z := Zlength (Text_as_str t) :: filled 32 (Text_as_str t).

Definition dimension_bytes (d : Dimension) : list Z :=
  Fin_bytes (dim_fin d) ++ text_bytes (dim_name d) ++ [bool_byte (dim_security_boundary d)].

Definition form_bytes (f : StoredForm) : list Z :=
  Fin_bytes (form_fin (sf_form f)) ++ text_bytes (form_name (sf_form f)) ++
  [encode_kind (form_kind (sf_form f))] ++ le_bytes 4 (form_revision (sf_form f)) ++
  [encode_lifecycle (form_lifecycle (sf_form f))] ++
  le_bytes 2 (Zlength (blob_contents (sf_content f)) mod 2 ^ 16) ++ blob_contents (sf_content f).

Definition relationship_bytes (r : Relationship) : list Z :=
  Fin_bytes (rel_source r) ++ Fin_bytes (rel_target r) ++ [encode_relationship (rel_kind r)] ++
  [bool_byte (is_some (rel_dimension r))] ++ Fin_bytes (default Fin_ZERO (rel_dimension r)).

Definition handle_bytes (h : FormHandle) : list Z :=
  le_bytes 4 (fh_id h) ++ le_bytes 4 (fh_parent_id h) ++ Fin_bytes (fh_requester h) ++
  Fin_bytes (fh_target h) ++ Fin_bytes (fh_dimension h) ++ le_bytes 2 (ops_bits (fh_operations h)) ++
  le_bytes 8 (fh_valid_until_tick h) ++ [bool_byte (fh_revoked h)].

Fixpoint slots_bytes {A} (record : A → list Z) (table : slots A) : list Z :=
  match table with
  | [] => []
  | slot :: table' =>
      [bool_byte (is_some slot)] ++ match slot with Some x => record x | None => [] end ++
      slots_bytes record table'
  end.

Definition payload_bytes (s : Snapshot) : list Z :=
  Fin_bytes (sn_primary_dimension s) ++ text_bytes (sn_cfc_name s) ++ le_bytes 4 (sn_next_fin s) ++
  le_bytes 4 (sn_next_dimension_fin s) ++ le_bytes 4 (sn_journal_sequence s) ++
  [encode_network (sn_network_policy s)] ++ [bool_byte (sn_form_graph_present s)] ++
  [bool_byte (is_some (sn_settings s))] ++
  default (replicate SETTINGS_RECORD_CAPACITY 0) (sn_settings s) ++
  [bool_byte (is_some (sn_accounts s))] ++
  default (replicate ACCOUNTS_RECORD_CAPACITY 0) (sn_accounts s) ++
  slots_bytes dimension_bytes (sn_dimensions s) ++ slots_bytes form_bytes (sn_forms s) ++
  slots_bytes relationship_bytes (sn_relationships s) ++ slots_bytes handle_bytes (sn_handles s).

(** ** Lemmas: writers *)

(** [m] writes exactly [bytes], or reports that they do not fit. *)
Definition writes (m : Writer) (bytes : list Z) : Prop :=
  ∀ output offset, (offset ≤ length output)%nat →
    m (output, offset) =
    Returns (if (offset + length bytes <=? length output)%nat
             then Ok (splice output offset bytes, (offset + length bytes)%nat)
             else Err StInvalidSnapshot).

Lemma writes_put bytes : writes (put bytes) bytes.
Proof. intros output offset _. simpl. by destruct (_ <=? _)%nat. Qed.

Lemma writes_nothing : writes put_nothing [].
Proof.
  intros output offset Ho. unfold put_nothing. simpl. rewrite Nat.add_0_r.
  apply Nat.leb_le in Ho as ->. by rewrite splice_nil.
Qed.

Lemma writes_then m1 m2 b1 b2 : writes m1 b1 → writes m2 b2 → writes (m1 ;; m2) (b1 ++ b2).
Proof.
  intros H1 H2 output offset Ho. unfold put_then. rewrite H1 by done. rewrite length_app.
  destruct (offset + length b1 <=? length output)%nat eqn:E1.
  - apply Nat.leb_le in E1. rewrite H2 by (rewrite length_splice; lia).
    rewrite length_splice by lia. rewrite Nat.add_assoc.
    destruct (offset + length b1 + length b2 <=? length output)%nat eqn:E2; [|done].
    apply Nat.leb_le in E2. by rewrite splice_splice.
  - apply Nat.leb_gt in E1. rewrite (proj2 (Nat.leb_gt _ _)); [done|lia].
Qed.

Lemma text_short t : text_ok t → (length (Text_as_str t) ≤ 32)%nat.
Proof. intros (s & _ & H). rewrite (Text_as_str_new _ _ H). apply Text_new_Ok in H as (_ & Hl & _). done. Qed.

Lemma writes_text t : text_ok t → writes (put_text t) (text_bytes t).
Proof.
  intros Ht%text_short. unfold put_text. cbv zeta. rewrite splice_zeros by done.
  apply (writes_then _ _ [_] _); apply writes_put.
Qed.

Lemma writes_slots {A} (record : A → Writer) (bytes : A → list Z) table :
  (∀ x, x ∈ flatten table → writes (record x) (bytes x)) →
  writes (put_slots record table) (slots_bytes bytes table).
Proof.
  induction table as [|[x|] table IH]; intros Hr; cbn [put_slots slots_bytes].
  - apply writes_nothing.
  - apply writes_then; [apply writes_put|]. apply writes_then; [apply Hr; by left|].
    apply IH. intros y Hy. apply Hr. by right.
  - apply writes_then; [apply writes_put|]. apply writes_then; [apply writes_nothing|]. auto.
Qed.

Lemma blob_bytes b : blob_wf b → ChunkedBlob_to_vec b = Returns (blob_contents b).
Proof. intros Hw. apply blob_to_vec_spec; [apply Hw|by apply wf_len]. Qed.

Lemma writes_form f : form_intact f → writes (put_form f) (form_bytes f).
Proof.
  intros (_ & Ht & _ & Hb & _). unfold put_form, form_bytes, StoredForm_bytes. rewrite blob_bytes by done.
  do 5 (apply writes_then; [first [apply writes_put|by apply writes_text]|]).
  unfold put_value. apply writes_then; apply writes_put.
Qed.

Lemma writes_payload `{Typed R} s : snapshot_of form_intact R s → writes (put_payload s) (payload_bytes s).
Proof.
  intros Hs. destruct Hs as [_ Hn _ [_ Hf] [_ Hd] [_ Hr] [_ Hh] _ _ _ _ _]. unfold put_payload, payload_bytes.
  do 11 (apply writes_then; [first [apply writes_put|by apply writes_text]|]).
  apply writes_then; [apply writes_slots|apply writes_then; [apply writes_slots|
    apply writes_then; apply writes_slots]].
  - intros d (_ & Ht)%Hd. unfold put_dimension, dimension_bytes.
    repeat (apply writes_then; [first [apply writes_put|by apply writes_text]|]). apply writes_put.
  - intros f ?%Hf. by apply writes_form.
  - intros r _. unfold put_relationship, relationship_bytes.
    repeat (apply writes_then; [apply writes_put|]). apply writes_put.
  - intros h _. unfold put_handle, handle_bytes.
    repeat (apply writes_then; [apply writes_put|]). apply writes_put.
Qed.

(** ** Lemmas: parsers *)

(** [p] reads exactly [bytes] and returns [a]. *)
Definition reads {A} (p : Parser A) (bytes : list Z) (a : A) : Prop :=
  ∀ pre post, p (pre ++ bytes ++ post) (length pre) = Returns (Some (a, (length pre + length bytes)%nat)).

Lemma reads_ret {A} (a : A) : reads (p_ret a) [] a.
Proof. intros pre post. unfold p_ret. simpl. by rewrite Nat.add_0_r. Qed.

Lemma reads_bind {A B} (p : Parser A) (k : A → Parser B) b1 b2 a c :
  reads p b1 a → reads (k a) b2 c → reads (p_bind p k) (b1 ++ b2) c.
Proof.
  intros Hp Hk pre post. unfold p_bind. rewrite <- app_assoc, Hp.
  specialize (Hk (pre ++ b1) post). rewrite <- app_assoc, length_app in Hk. rewrite Hk.
  rewrite length_app. do 3 f_equal. lia.
Qed.

(** The last step of a record. *)
Lemma reads_map {A B} (p : Parser A) (k : A → Parser B) b a c :
  reads p b a → reads (k a) [] c → reads (p_bind p k) b c.
Proof. intros Hp Hk. rewrite <- (app_nil_r b). by eapply reads_bind. Qed.

Lemma reads_option {A B} (o : option A) (k : A → Parser B) b a c :
  o = Some a → reads (k a) b c → reads (p_bind (p_option o) k) b c.
Proof. intros -> Hk. apply (reads_bind _ _ [] b a); [apply reads_ret|done]. Qed.

Lemma reads_read n bytes : length bytes = n → reads (read n) bytes bytes.
Proof.
  intros <- pre post. unfold read. rewrite !length_app, (proj2 (Nat.leb_le _ _)) by lia.
  unfold slice. by rewrite drop_app_length, take_app_length.
Qed.

Lemma reads_byte b : reads read_byte [b] b.
Proof. eapply reads_map; [by apply (reads_read 1)|]. apply reads_ret. Qed.

Lemma reads_le n v (p : Parser Z) :
  p = (bytes <-- read n; p_ret (le_value bytes)) → word n v → reads p (le_bytes n v) v.
Proof.
  intros -> Hv. eapply reads_map; [apply reads_read, le_bytes_length|].
  rewrite le_value_bytes, Z.mod_small by exact Hv. apply reads_ret.
Qed.

Lemma reads_u16 v : word 2 v → reads read_u16_cursor (le_bytes 2 v) v.
Proof. by apply reads_le. Qed.
Lemma reads_u32 v : word 4 v → reads read_u32_cursor (le_bytes 4 v) v.
Proof. by apply reads_le. Qed.
Lemma reads_u64 v : word 8 v → reads read_u64_cursor (le_bytes 8 v) v.
Proof. by apply reads_le. Qed.

Lemma fin_bytes_value f : fin_ok f → Fin_from_u128 (be_value (Fin_bytes f)) = f.
Proof.
  destruct f as [bs]. intros [Hl Hr]. unfold Fin_from_u128. cbn [Fin_bytes] in *. f_equal.
  rewrite <- Hl. by apply be_bytes_value.
Qed.

Lemma reads_fin f : fin_ok f → reads read_fin (Fin_bytes f) f.
Proof.
  intros Hf. eapply reads_map; [apply reads_read, Hf|]. rewrite fin_bytes_value by done.
  apply reads_ret.
Qed.

Lemma reads_bool b : reads read_bool [bool_byte b] b.
Proof. eapply reads_map; [apply reads_byte|]. destruct b; apply reads_ret. Qed.

Lemma reads_text t : text_ok t → reads read_text (text_bytes t) t.
Proof.
  intros (s & _ & Hs). pose proof (Text_as_str_new _ _ Hs) as Et. unfold text_bytes. rewrite Et.
  pose proof (Text_new_Ok _ _ Hs) as (Hne & Hl & Ha & _). unfold TEXT_CAPACITY in Hl.
  apply (reads_bind _ _ [_] _ _ _ (reads_byte _)). cbv zeta.
  eapply reads_map; [apply reads_read; by rewrite length_filled|]. cbv beta.
  unfold Zlength. rewrite Nat2Z.id, take_filled, Ha, Hs.
  assert (length s ≠ 0%nat) by (by destruct s).
  rewrite (proj2 (Z.eqb_neq _ _)), (proj2 (Z.ltb_ge _ _)) by lia. apply reads_ret.
Qed.

Lemma reads_slots {A} n width (record : Parser A) (bytes : A → list Z) table :
  length table = n → (∀ x, x ∈ flatten table → reads record (bytes x) x) →
  reads (read_slots n (read_slot_entry false width record)) (slots_bytes bytes table) table.
Proof.
  intros <-. induction table as [|slot table IH]; intros Hr; [apply reads_ret|].
  cbn [length read_slots slots_bytes]. rewrite app_assoc.
  apply (reads_bind _ _ _ _ slot).
  - apply (reads_bind _ _ [_] _ _ _ (reads_byte _)).
    destruct slot as [x|]; simpl.
    + eapply reads_map; [apply Hr; by left|]. apply reads_ret.
    + apply reads_ret.
  - eapply reads_map; [|apply reads_ret]. apply IH. intros x Hx. apply Hr. destruct slot; [by right|done].
Qed.

Lemma concat_chunks_inj l k :
  whole_chunks l → whole_chunks k → concat l = concat k → l = k.
Proof.
  pose proof chunk_pos as Hc. intros Hl. revert k. induction Hl as [|c l Hcl Hl IH]; intros [|d k] Hk E.
  - done.
  - apply Forall_cons in Hk as [Hd _]. apply (f_equal length) in E. simpl in E. rewrite length_app in E. lia.
  - apply (f_equal length) in E. simpl in E. rewrite length_app in E. lia.
  - apply Forall_cons in Hk as [Hd Hk]. simpl in E. apply app_inj_1 in E as [-> E]; [|congruence].
    f_equal. by apply IH.
Qed.

(** A well-formed blob is determined by its contents. *)
Lemma blob_canonical b : blob_wf b → ChunkedBlob_from_bytes (blob_contents b) = b.
Proof.
  intros Hw. destruct (wf_flat b Hw) as [Hf Hl].
  destruct (from_bytes_spec (blob_contents b)) as (Hw' & Hc' & Hl').
  destruct (wf_flat _ Hw') as [Hf' _]. rewrite Hc' in Hf'. rewrite Hl' in Hf'.
  assert (length (blob_flat b) = length (blob_flat (ChunkedBlob_from_bytes (blob_contents b)))) as El.
  { unfold blob_flat. rewrite !length_concat_whole by first [apply Hw|apply Hw'].
    by rewrite (bw_count _ Hw), (bw_count _ Hw'), Hl', Hl. }
  assert (blob_flat (ChunkedBlob_from_bytes (blob_contents b)) = blob_flat b) as Eflat.
  { rewrite Hf', Hf at 1. by rewrite <- El, Hl. }
  apply concat_chunks_inj in Eflat; [|apply Hw'|apply Hw].
  destruct (ChunkedBlob_from_bytes _) as [ch' len'], b as [ch len]. simpl in *. congruence.
Qed.

Lemma kind_roundtrip k : decode_kind (encode_kind k) = Some k.
Proof. by destruct k. Qed.
Lemma lifecycle_roundtrip l : decode_lifecycle (encode_lifecycle l) = Some l.
Proof. by destruct l. Qed.
Lemma relationship_roundtrip r : decode_relationship (encode_relationship r) = Some r.
Proof. by destruct r. Qed.
Lemma network_roundtrip n : decode_network (encode_network n) = Some n.
Proof. by destruct n. Qed.

Lemma Text_new_as_str t : text_ok t → Text_new (Text_as_str t) = Ok t.
Proof. intros (s & _ & Hs). by rewrite (Text_as_str_new _ _ Hs). Qed.

Lemma reads_dimension d :
  dimension_typed d → dimension_invalid d = false → reads read_dimension (dimension_bytes d) d.
Proof.
  intros [Hf Ht] Hv. unfold dimension_invalid in Hv. bools.
  eapply reads_bind; [by apply reads_fin|]. eapply reads_bind; [by apply reads_text|].
  eapply reads_map; [apply reads_bool|]. cbv beta. unfold Dimension_new.
  rewrite H, Text_new_as_str by done. destruct d. apply reads_ret.
Qed.

Lemma content_length f :
  blob_wf (sf_content f) → Zlength (blob_contents (sf_content f)) = StoredForm_content_len f.
Proof. intros Hw. unfold Zlength, StoredForm_content_len. by rewrite (proj2 (wf_flat _ Hw)). Qed.

Lemma reads_form f :
  form_intact f → form_invalid f = false → reads (read_form false) (form_bytes f) f.
Proof.
  intros (Hf & Ht & Hr & Hb & _) Hv. unfold form_invalid in Hv. bools.
  pose proof (content_length f Hb) as Hlen. unfold form_bytes.
  assert (Zlength (blob_contents (sf_content f)) mod 2 ^ 16 = Zlength (blob_contents (sf_content f))) as Em.
  { apply Z.mod_small. unfold Zlength in *. unfold FORM_CONTENT_CAPACITY, DEFAULT_FORM_BLOB_QUOTA in *. lia. }
  rewrite Em.
  eapply reads_bind; [by apply reads_fin|]. eapply reads_bind; [by apply reads_text|].
  eapply reads_bind; [apply reads_byte|]. eapply reads_option; [apply kind_roundtrip|].
  eapply reads_bind; [by apply reads_u32|].
  eapply reads_bind; [apply reads_byte|]. eapply reads_option; [apply lifecycle_roundtrip|].
  eapply reads_bind.
  { apply reads_u16. unfold word. rewrite <- Em. apply Z.mod_pos_bound. lia. }
  cbv beta. rewrite (proj2 (Z.ltb_ge _ _)) by lia.
  eapply reads_map; [apply reads_read; unfold Zlength; by rewrite Nat2Z.id|]. cbv beta.
  unfold Form_new. rewrite H, Text_new_as_str by done. cbn [form_fin form_name form_kind].
  rewrite (proj2 (Z.ltb_ge _ _)) by lia. unfold Zlength. rewrite Nat2Z.id, take_ge by done.
  rewrite blob_canonical by done. destruct f as [[] ?]. apply reads_ret.
Qed.

Lemma Fin_ZERO_ok : fin_ok Fin_ZERO.
Proof. split; [done|]. by apply Forall_replicate. Qed.

Lemma reads_relationship r :
  relationship_intact r → reads read_relationship (relationship_bytes r) r.
Proof.
  intros (Hs & Ht & Hd). unfold relationship_bytes.
  eapply reads_bind; [by apply reads_fin|]. eapply reads_bind; [by apply reads_fin|].
  eapply reads_bind; [apply reads_byte|]. eapply reads_option; [apply relationship_roundtrip|].
  eapply reads_bind; [apply reads_byte|].
  destruct r as [src tgt kind [d|]]; cbn [rel_source rel_target rel_kind rel_dimension] in *.
  - destruct (Hd d eq_refl) as [Hd' Hz]. eapply reads_map; [by apply reads_fin|].
    cbn. rewrite Hz. apply reads_ret.
  - eapply reads_map; [apply reads_fin, Fin_ZERO_ok|]. cbn. apply reads_ret.
Qed.

Lemma reads_handle h : handle_typed h → reads (read_handle (fh_cfc h)) (handle_bytes h) h.
Proof.
  intros (H1 & H2 & H3 & H4 & H5 & H6 & H7 & H8). unfold handle_bytes.
  eapply reads_bind; [by apply reads_u32|]. eapply reads_bind; [by apply reads_u32|].
  do 3 (eapply reads_bind; [by apply reads_fin|]).
  eapply reads_bind; [by apply reads_u16|]. eapply reads_option; [done|].
  eapply reads_bind; [by apply reads_u64|]. eapply reads_map; [apply reads_bool|].
  destruct h. apply reads_ret.
Qed.

Lemma handles_owned cfc handles h :
  handles_invalid cfc handles = false → h ∈ handles → fh_cfc h = cfc.
Proof.
  induction handles as [|k handles IH]; intros Hv Hh; [by apply elem_of_nil in Hh|].
  cbn [handles_invalid] in Hv. apply orb_false_iff in Hv as [Hk Hv]. unfold handle_invalid in Hk. bools.
  apply elem_of_cons in Hh as [->|Hh]; [done|auto].
Qed.

(** [p] refuses whatever starts with [bytes]. *)
Definition refuses {A} (p : Parser A) (bytes : list Z) : Prop :=
  ∀ pre post, p (pre ++ bytes ++ post) (length pre) = Returns None.

Lemma refuses_bind {A B} (p : Parser A) (k : A → Parser B) b1 b2 a :
  reads p b1 a → refuses (k a) b2 → refuses (p_bind p k) (b1 ++ b2).
Proof.
  intros Hp Hk pre post. unfold p_bind. rewrite <- app_assoc, Hp.
  specialize (Hk (pre ++ b1) post). rewrite <- app_assoc, length_app in Hk. by rewrite Hk.
Qed.

Lemma refuses_first {A B} (p : Parser A) (k : A → Parser B) b1 b2 :
  refuses p b1 → refuses (p_bind p k) (b1 ++ b2).
Proof. intros Hp pre post. unfold p_bind. by rewrite <- app_assoc, Hp. Qed.

Lemma refuses_option {A B} (o : option A) (k : A → Parser B) b a :
  o = Some a → refuses (k a) b → refuses (p_bind (p_option o) k) b.
Proof. intros -> Hk. exact Hk. Qed.

Lemma refuses_slots {A} n width (record : Parser A) (bytes : A → list Z) table :
  length table = n → (∀ x, x ∈ flatten table → reads record (bytes x) x ∨ refuses record (bytes x)) →
  (∃ x, x ∈ flatten table ∧ refuses record (bytes x)) →
  refuses (read_slots n (read_slot_entry false width record)) (slots_bytes bytes table).
Proof.
  intros <-. induction table as [|slot table IH]; intros Hr (x & Hx & Hf); [by apply elem_of_nil in Hx|].
  cbn [length read_slots slots_bytes]. rewrite app_assoc. destruct slot as [y|]; cbn [flatten] in *.
  - destruct (Hr y) as [Hy|Hy]; [by left|..].
    + apply (refuses_bind _ _ _ _ (Some y)).
      * apply (reads_bind _ _ [_] _ _ _ (reads_byte _)). eapply reads_map; [exact Hy|apply reads_ret].
      * apply elem_of_cons in Hx as [->|Hx]; [by specialize (Hy [] []); rewrite Hf in Hy|].
        rewrite <- app_nil_r. apply refuses_first, IH; [|by eauto]. intros z Hz. apply Hr. by right.
    + apply refuses_first. apply (refuses_bind _ _ [_] _ _ (reads_byte _)). cbn. rewrite <- app_nil_r. by apply refuses_first.
  - apply (refuses_bind _ _ _ _ None).
    + apply (reads_bind _ _ [_] _ _ _ (reads_byte _)). apply reads_ret.
    + rewrite <- app_nil_r. apply refuses_first, IH; eauto.
Qed.

Lemma refuses_relationship r :
  relationship_typed r → dimension_named r = false → refuses read_relationship (relationship_bytes r).
Proof.
  intros (Hs & Ht & Hd) Hn. unfold relationship_bytes, dimension_named in *.
  destruct (rel_dimension r) as [d|]; [|done]. apply negb_false_iff in Hn.
  eapply refuses_bind; [by apply reads_fin|]. eapply refuses_bind; [by apply reads_fin|].
  eapply refuses_bind; [apply reads_byte|]. eapply refuses_option; [apply relationship_roundtrip|].
  eapply refuses_bind; [apply reads_byte|]. rewrite <- app_nil_r.
  eapply refuses_bind; [by apply reads_fin, Hd|]. cbn. rewrite Hn. by intros pre post.
Qed.

Lemma intact_or_unnamed r : relationship_typed r → dimension_named r = true → relationship_intact r.
Proof.
  intros (Hs & Ht & Hd) Hn. split_and!; [done..|]. intros d E. split; [by apply Hd|].
  unfold dimension_named in Hn. rewrite E in Hn. by apply negb_true_iff.
Qed.

(** Both results of a parser. *)
Definition parses {A} (p : Parser A) (bytes : list Z) (o : option A) : Prop :=
  match o with Some a => reads p bytes a | None => refuses p bytes end.

Lemma parses_bind {A B} (p : Parser A) (k : A → Parser B) b1 b2 a o :
  reads p b1 a → parses (k a) b2 o → parses (p_bind p k) (b1 ++ b2) o.
Proof. destruct o; [by apply reads_bind|by apply refuses_bind]. Qed.

Lemma parses_option {A B} (x : option A) (k : A → Parser B) b a o :
  x = Some a → parses (k a) b o → parses (p_bind (p_option x) k) b o.
Proof. intros ->. by destruct o. Qed.

(** The payload reads back unless a Relationship is limited to the zero Dimension. *)
Lemma parses_payload s :
  snapshot_whole s → validate_snapshot s = Ok tt →
  parses (read_payload (sn_cfc s) false (sn_journal_sequence s)) (payload_bytes s)
    (if forallb dimension_named (flatten (sn_relationships s)) then Some s else None).
Proof.
  intros [Hc Hn Hp [Lf Hf] [Ld Hd] [Lr Hr] [Lh Hh] Nf Nd Nj Hs Ha] Hv.
  unfold validate_snapshot in Hv. destruct (_ || _); [done|].
  destruct (existsb form_invalid _) eqn:Ef; [done|]. destruct (_ <? _); [done|].
  destruct (existsb dimension_invalid _) eqn:Ed; [done|]. destruct (handles_invalid _ _) eqn:Eh; [done|].
  clear Hv. rewrite existsb_elem_false in Ef. rewrite existsb_elem_false in Ed. unfold payload_bytes.
  eapply parses_bind; [by apply reads_fin|]. eapply parses_bind; [by apply reads_text|].
  do 3 (eapply parses_bind; [by apply reads_u32|]). cbv beta.
  rewrite bool_decide_true by done. cbn [negb].
  eapply parses_bind; [apply reads_byte|]. eapply parses_option; [apply network_roundtrip|].
  eapply parses_bind; [apply reads_bool|]. eapply parses_bind; [apply reads_byte|].
  eapply parses_bind.
  { apply reads_read. destruct (sn_settings s) eqn:E; [by apply Hs|apply length_replicate]. }
  eapply parses_bind; [apply reads_byte|]. eapply parses_bind.
  { apply reads_read. destruct (sn_accounts s) eqn:E; [by apply Ha|apply length_replicate]. }
  cbv beta. replace ((1 <? bool_byte (is_some (sn_settings s))) || (1 <? bool_byte (is_some (sn_accounts s))))
    with false by (by destruct (sn_settings s), (sn_accounts s)).
  eapply parses_bind; [apply (reads_slots _ _ _ dimension_bytes); [done|]|].
  { intros d Hin. apply reads_dimension; auto. }
  eapply parses_bind; [apply (reads_slots _ _ _ form_bytes); [done|]|].
  { intros f Hin. apply reads_form; auto. }
  destruct (forallb dimension_named _) eqn:En.
  - rewrite forallb_forall in En. eapply reads_bind; [apply (reads_slots _ _ _ relationship_bytes); [done|]|].
    { intros r Hin. apply reads_relationship, intact_or_unnamed; [auto|]. by apply En, list_elem_of_In. }
    eapply reads_map; [apply (reads_slots _ _ _ handle_bytes); [done|]|].
    { intros h Hin. rewrite <- (handles_owned _ _ h Eh Hin). apply reads_handle; auto. }
    destruct s as [a b c d e f g h i j k l st ac]. cbn [sn_settings sn_accounts].
    destruct st, ac; apply reads_ret.
  - apply refuses_first, refuses_slots; [done|..].
    + intros r Hin. destruct (dimension_named r) eqn:E; [left|right; auto using refuses_relationship].
      apply reads_relationship, intact_or_unnamed; auto.
    + rewrite <- not_true_iff_false, forallb_forall in En.
      destruct (existsb (λ r, negb (dimension_named r)) (flatten (sn_relationships s))) eqn:Ex.
      * apply existsb_exists in Ex as (r & Hin & Hu). apply negb_true_iff in Hu. exists r.
        split; [by apply list_elem_of_In|]. apply refuses_relationship; [|done]. apply Hr. by apply list_elem_of_In.
      * destruct En. intros r Hin. rewrite <- not_true_iff_false, existsb_exists in Ex.
        apply dec_stable. intros Hu. apply Ex. exists r. split; [done|]. by apply negb_true_iff, not_true_iff_false.
Qed.

Lemma intact_whole s : snapshot_intact s → snapshot_whole s.
Proof. intros []. constructor; try done. split; [apply st_relationships0|]. intros r Hr. by apply intact_typed, st_relationships0. Qed.

Lemma intact_named s : snapshot_intact s → forallb dimension_named (flatten (sn_relationships s)) = true.
Proof.
  intros Hs. apply forallb_forall. intros r Hr%list_elem_of_In. apply (st_relationships _ _ _ Hs) in Hr as (_ & _ & Hd).
  unfold dimension_named. destruct (rel_dimension r) as [d|]; [|done]. by rewrite (proj2 (Hd d eq_refl)).
Qed.

(** ** Lemmas: the header *)

Definition header (generation : Z) (cfc : list Z) (journal : Z) (payload_len : nat) (flags tail_ : list Z)
    : list Z :=
  MAGIC ++ le_bytes 2 FORMAT_VERSION ++ le_bytes 2 (Z.of_nat HEADER_LEN) ++
  le_bytes 4 (Z.of_nat payload_len) ++ le_bytes 8 generation ++ cfc ++ le_bytes 4 journal ++ flags ++ tail_.


Lemma put_header_bytes s generation n rest :
  cfc_ok (sn_cfc s) →
  put_header s generation n (replicate 64 0 ++ rest) =
  header generation (CfcFin_bytes (sn_cfc s)) (sn_journal_sequence s) n (replicate 4 0) (replicate 16 0) ++ rest.
Proof.
  intros [Hl _]. unfold put_header, header. destruct (CfcFin_bytes (sn_cfc s)) as [|? l]; [done|].
  do 15 (destruct l as [|? l]; [done|]). destruct l; [|done]. reflexivity.
Qed.

Record header_reads (h rest : list Z) (generation : Z) (cfc : list Z) (journal : Z) (n : nat)
    (flags tail_ : list Z) : Prop := {
  hr_length : length h = 64%nat;
  hr_magic : take 8 (h ++ rest) = MAGIC;
  hr_version : slice (h ++ rest) 8 2 = le_bytes 2 FORMAT_VERSION;
  hr_header_len : slice (h ++ rest) 10 2 = le_bytes 2 (Z.of_nat HEADER_LEN);
  hr_payload_len : slice (h ++ rest) 12 4 = le_bytes 4 (Z.of_nat n);
  hr_generation : slice (h ++ rest) 16 8 = le_bytes 8 generation;
  hr_cfc : slice (h ++ rest) 24 16 = cfc;
  hr_journal : slice (h ++ rest) 40 4 = le_bytes 4 journal;
  hr_flag : byte_at (h ++ rest) 44 = byte_at flags 0;
  hr_suite : byte_at (h ++ rest) 45 = byte_at flags 1;
  hr_tag : slice (h ++ rest) 48 16 = tail_;
  hr_first : slice (h ++ rest) 48 4 = take 4 tail_;
  hr_second : slice (h ++ rest) 52 4 = slice tail_ 4 4 }.

Lemma header_spec generation cfc journal n flags tail_ rest :
  length cfc = 16%nat → length flags = 4%nat → length tail_ = 16%nat →
  header_reads (header generation cfc journal n flags tail_) rest generation cfc journal n flags tail_.
Proof.
  intros Hc Hf Ht.
  do 16 (destruct cfc as [|? cfc]; [done|]). destruct cfc; [|done].
  do 4 (destruct flags as [|? flags]; [done|]). destruct flags; [|done].
  do 16 (destruct tail_ as [|? tail_]; [done|]). destruct tail_; [|done].
  constructor; reflexivity.
Qed.

(** ** Lemmas: size *)

Lemma slots_bytes_length {A} (bytes : A → list Z) table :
  Zlength (slots_bytes bytes table) = Zlength table + Zsum ((λ x, Zlength (bytes x)) <$> flatten table).
Proof.
  unfold Zlength. induction table as [|[x|] table IH]; [done|..];
    cbn [slots_bytes flatten]; rewrite ?fmap_cons, !length_app; cbn [length Zsum fold_right];
    fold (Zsum ((λ x, Z.of_nat (length (bytes x))) <$> flatten table)); lia.
Qed.

Lemma Zsum_bound {A} (f : A → Z) l k : (∀ x, x ∈ l → f x ≤ k) → Zsum (f <$> l) ≤ k * Zlength l.
Proof.
  unfold Zlength. induction l as [|x l IH]; intros Hf; [cbn; lia|].
  rewrite fmap_cons. cbn [Zsum fold_right length]. fold (Zsum (f <$> l)).
  assert (f x ≤ k) by (apply Hf; by left).
  assert (Zsum (f <$> l) ≤ k * Z.of_nat (length l)) by (apply IH; intros; apply Hf; by right). lia.
Qed.

(** Records of a bounded size. *)
Lemma slots_bytes_bound {A} (P : A → Prop) (bytes : A → list Z) n k table :
  slots_typed n P table → 0 ≤ k → (∀ x, P x → Zlength (bytes x) ≤ k) →
  Zlength (slots_bytes bytes table) ≤ Z.of_nat n * (k + 1).
Proof.
  intros [Hl Hp] Hk Hb. rewrite slots_bytes_length.
  assert (Zsum ((λ x, Zlength (bytes x)) <$> flatten table) ≤ k * Zlength (flatten table)) by
    (apply Zsum_bound; auto).
  pose proof (length_flatten table). unfold Zlength in *. nia.
Qed.

Lemma text_bytes_length t : text_ok t → Zlength (text_bytes t) = 33.
Proof.
  intros Ht%text_short. unfold text_bytes, Zlength. cbn [length]. rewrite length_filled by done. done.
Qed.

Lemma form_bytes_length f :
  form_intact f → Zlength (form_bytes f) = 57 + StoredForm_content_len f.
Proof.
  intros ([Hf _] & Ht & _ & Hb & _). rewrite <- content_length by done. pose proof (text_bytes_length _ Ht).
  unfold form_bytes, Zlength in *. rewrite !length_app, !le_bytes_length, Hf. cbn [length]. lia.
Qed.

(** Whatever passes validation fits a slot. *)
Lemma payload_fits `{Typed R} s :
  snapshot_of form_intact R s → validate_snapshot s = Ok tt → (HEADER_LEN + length (payload_bytes s) ≤ SLOT_LEN)%nat.
Proof.
  intros [_ Hn [Hp _] Hf Hd Hr Hh _ _ _ Hs Ha] Hv.
  assert (Zsum (StoredForm_content_len <$> flatten (sn_forms s)) ≤ CFC_CONTENT_CAPACITY) as Hsum.
  { unfold validate_snapshot in Hv. destruct (_ || _); [done|].
    destruct (existsb form_invalid _); [done|]. destruct (_ <? _) eqn:E; [done|]. by apply Z.ltb_ge in E. }
  assert (Zlength (slots_bytes dimension_bytes (sn_dimensions s)) ≤ 6 * (50 + 1)) as Bd.
  { apply (slots_bytes_bound dimension_typed dimension_bytes MAX_STORED_DIMENSIONS 50); [done|lia|]. intros d [[Hf' _] Ht].
    pose proof (text_bytes_length _ Ht). unfold dimension_bytes, Zlength in *.
    rewrite !length_app, Hf'. cbn [length]. lia. }
  assert (Zlength (slots_bytes relationship_bytes (sn_relationships s)) ≤ 48 * (50 + 1)) as Br.
  { apply (slots_bytes_bound R relationship_bytes MAX_STORED_RELATIONSHIPS 50); [done|lia|]. intros r ([H1 _] & [H2 _] & H3)%relationship_is_typed.
    assert (length (Fin_bytes (default Fin_ZERO (rel_dimension r))) = 16%nat) as H4.
    { destruct (rel_dimension r) as [d|]; [|done]. by destruct (H3 d eq_refl) as [? _]. }
    unfold relationship_bytes, Zlength. rewrite !length_app, H1, H2, H4. cbn [length]. lia. }
  assert (Zlength (slots_bytes handle_bytes (sn_handles s)) ≤ 16 * (67 + 1)) as Bh.
  { apply (slots_bytes_bound handle_typed handle_bytes MAX_STORED_HANDLES 67); [done|lia|].
    intros h (_ & _ & [H1 _] & [H2 _] & [H3 _] & _).
    unfold handle_bytes, Zlength. rewrite !length_app, !le_bytes_length, H1, H2, H3. cbn [length]. lia. }
  assert (Zlength (slots_bytes form_bytes (sn_forms s)) ≤ 12 + 57 * 12 + CFC_CONTENT_CAPACITY) as Bf.
  { destruct Hf as [Lf Hf]. rewrite slots_bytes_length.
    assert (Zsum ((λ f, Zlength (form_bytes f)) <$> flatten (sn_forms s)) =
      57 * Zlength (flatten (sn_forms s)) + Zsum (StoredForm_content_len <$> flatten (sn_forms s))) as ->.
    { unfold Zlength. clear -Hf. induction (flatten (sn_forms s)) as [|f l IH]; [done|].
      rewrite !fmap_cons. cbn [Zsum fold_right length].
      fold (Zsum ((λ f, Z.of_nat (length (form_bytes f))) <$> l)) (Zsum (StoredForm_content_len <$> l)).
      rewrite IH by (intros; apply Hf; by right). fold (Zlength (form_bytes f)).
      rewrite form_bytes_length by (apply Hf; by left). lia. }
    pose proof (length_flatten (sn_forms s)). unfold Zlength in *. rewrite Lf in *.
    unfold MAX_STORED_FORMS in *. lia. }
  pose proof (text_bytes_length _ Hn).
  assert (length (default (replicate SETTINGS_RECORD_CAPACITY 0) (sn_settings s)) = SETTINGS_RECORD_CAPACITY) as Es.
  { destruct (sn_settings s) eqn:E; [by apply Hs|apply length_replicate]. }
  assert (length (default (replicate ACCOUNTS_RECORD_CAPACITY 0) (sn_accounts s)) = ACCOUNTS_RECORD_CAPACITY) as Ea.
  { destruct (sn_accounts s) eqn:E; [by apply Ha|apply length_replicate]. }
  unfold payload_bytes. rewrite !length_app, !le_bytes_length, Hp, Es, Ea. cbn [length].
  unfold Zlength, CFC_CONTENT_CAPACITY, DEFAULT_CFC_BLOB_QUOTA in *.
  assert (Z.of_nat ACCOUNTS_RECORD_CAPACITY = 960) by done.
  assert (Z.of_nat SETTINGS_RECORD_CAPACITY = 32) by done.
  assert (Z.of_nat SLOT_LEN = 65536) by (unfold SLOT_LEN; rewrite Nat2Z.inj_mul; done).
  assert (Z.of_nat HEADER_LEN = 64) by done. lia.
Qed.

(** ** Lemmas: missing chunks *)

(** [m] panics when [n] more bytes fit. *)
Definition panics (m : Writer) (n : nat) : Prop :=
  ∀ output offset, (offset + n ≤ length output)%nat → m (output, offset) = Panics.

Lemma panics_after m1 m2 b1 n : writes m1 b1 → panics m2 n → panics (m1 ;; m2) (length b1 + n).
Proof.
  intros H1 H2 output offset Ho. unfold put_then. rewrite H1, (proj2 (Nat.leb_le _ _)) by lia.
  apply H2. rewrite length_splice; lia.
Qed.

Lemma panics_first m1 m2 n : panics m1 n → panics (m1 ;; m2) n.
Proof. intros H1 output offset Ho. unfold put_then. by rewrite H1. Qed.

Lemma panics_more m n n' : panics m n → (n ≤ n')%nat → panics m n'.
Proof. intros Hm Hn output offset Ho. apply Hm. lia. Qed.

Lemma panics_form f : form_typed f → chunks_missing f → panics (put_form f) 57.
Proof.
  intros ([Hf _] & Ht & _ & Hw & _) Hm. pose proof (text_bytes_length _ Ht) as Hl. unfold Zlength in Hl.
  assert (panics (put_form f) (length (Fin_bytes (form_fin (sf_form f))) + (length (text_bytes (form_name (sf_form f))) +
    (length [encode_kind (form_kind (sf_form f))] + (length (le_bytes 4 (form_revision (sf_form f))) +
    (length [encode_lifecycle (form_lifecycle (sf_form f))] + 0)))))) as Hp.
  { unfold put_form, StoredForm_bytes. rewrite to_vec_panics by done.
    do 5 (apply panics_after; [first [apply writes_put|by apply writes_text]|]). by intros output offset _. }
  eapply panics_more; [exact Hp|]. rewrite Hf, le_bytes_length. cbn [length]. lia.
Qed.

(** The same Form with a content of zeros in place of the damaged one. *)
Definition repaired (f : StoredForm) : StoredForm :=
  if decide (chunks_missing f) then MkStoredForm (sf_form f) (ChunkedBlob_from_bytes (replicate (bl_len (sf_content f)) 0))
  else f.

Lemma repaired_form f : sf_form (repaired f) = sf_form f ∧ StoredForm_content_len (repaired f) = StoredForm_content_len f.
Proof.
  unfold repaired. case_decide; [|done]. split; [done|]. unfold StoredForm_content_len. cbn [sf_content].
  destruct (from_bytes_spec (replicate (bl_len (sf_content f)) 0)) as (_ & _ & ->). by rewrite length_replicate.
Qed.

Lemma repaired_intact f : form_typed f → chunks_missing f ∨ blob_wf (sf_content f) → form_intact (repaired f).
Proof.
  intros (H1 & H2 & H3 & H4 & H5) Hw. unfold repaired. case_decide as Hm.
  - destruct (from_bytes_spec (replicate (bl_len (sf_content f)) 0)) as (Hb & Hc & _).
    split_and!; [done..|]. cbn [sf_content]. rewrite Hc. by apply Forall_replicate.
  - destruct Hw as [?|Hw]; [done|]. by split_and!.
Qed.

Definition repair (table : slots StoredForm) : slots StoredForm := map (option_map repaired) table.

Lemma flatten_repair table : flatten (repair table) = map repaired (flatten table).
Proof. unfold repair. induction table as [|[f|] table IH]; cbn [map option_map flatten]; by rewrite ?IH. Qed.

Lemma panics_slots table :
  (∀ f, f ∈ flatten table → form_typed f ∧ (chunks_missing f ∨ blob_wf (sf_content f))) →
  (∃ f, f ∈ flatten table ∧ chunks_missing f) →
  panics (put_slots put_form table) (length (slots_bytes form_bytes (repair table))).
Proof.
  induction table as [|slot table IH]; intros Ht (f & Hf & Hm); [by apply elem_of_nil in Hf|].
  cbn [put_slots repair map slots_bytes]. rewrite length_app.
  apply panics_after; [by destruct slot; apply writes_put|]. rewrite length_app.
  destruct slot as [g|]; cbn [flatten option_map] in *.
  - destruct (Ht g) as [Hg [Hgm|Hgw]]; [by left|..].
    + apply panics_first. eapply panics_more; [by apply panics_form|].
      pose proof (form_bytes_length _ (repaired_intact g Hg (or_introl Hgm))) as Hl. unfold Zlength, StoredForm_content_len in Hl. lia.
    + assert (repaired g = g ∧ ¬ chunks_missing g) as [-> Hn].
      { assert (¬ chunks_missing g) by (unfold chunks_missing; pose proof (wf_len _ Hgw); lia).
        unfold repaired. by rewrite decide_False. }
      apply panics_after; [apply writes_form; destruct Hg as (? & ? & ? & ? & ?); by split_and!|].
      apply IH; [intros x Hx; apply Ht; by right|]. apply elem_of_cons in Hf as [->|Hf]; [done|by eauto].
  - apply (panics_after _ _ []); [apply writes_nothing|]. apply IH; eauto.
Qed.

Lemma repair_whole s :
  snapshot_typed s → (∀ f, f ∈ flatten (sn_forms s) → chunks_missing f ∨ blob_wf (sf_content f)) →
  snapshot_whole (s <| sn_forms := repair (sn_forms s) |>).
Proof.
  intros [] Hb. constructor; try done. destruct st_forms0 as [Hl Hf]. split.
  - cbn. unfold repair. by rewrite length_map.
  - cbn. rewrite flatten_repair. intros f (g & -> & Hg)%list_elem_of_fmap.
    apply repaired_intact; auto.
Qed.

Lemma repair_valid s :
  validate_snapshot s = Ok tt → validate_snapshot (s <| sn_forms := repair (sn_forms s) |>) = Ok tt.
Proof.
  unfold validate_snapshot, set_field, set_sn_forms. cbn [sn_cfc sn_cfc_name sn_primary_dimension sn_journal_sequence sn_next_fin
    sn_next_dimension_fin sn_forms sn_dimensions sn_handles]. rewrite flatten_repair.
  assert (∀ l, existsb form_invalid (map repaired l) = existsb form_invalid l ∧
    StoredForm_content_len <$> map repaired l = StoredForm_content_len <$> l) as Hl.
  { induction l as [|f l [IH1 IH2]]; [done|]. destruct (repaired_form f) as [E1 E2]. cbn [map existsb].
    rewrite !fmap_cons, IH1, IH2, E2. unfold form_invalid. by rewrite E1, E2. }
  by destruct (Hl (flatten (sn_forms s))) as [-> ->].
Qed.

Lemma encode_missing `{Aead} s generation key domain :
  snapshot_typed s → validate_snapshot s = Ok tt →
  (∀ f, f ∈ flatten (sn_forms s) → chunks_missing f ∨ blob_wf (sf_content f)) →
  (∃ f, f ∈ flatten (sn_forms s) ∧ chunks_missing f) → encode_slot s generation key domain = Panics.
Proof.
  intros Hs Hv Hb Hm. unfold encode_slot.
  pose proof (payload_fits _ (repair_whole s Hs Hb) (repair_valid s Hv)) as Hfit.
  assert (panics (put_payload s) (length (payload_bytes (s <| sn_forms := repair (sn_forms s) |>)))) as ->; [|done|].
  - destruct Hs as [_ Hn _ [_ Hf] [_ Hd] _ _ _ _ _ _ _]. unfold put_payload, payload_bytes. rewrite !length_app.
    do 11 (apply panics_after; [first [apply writes_put|by apply writes_text]|]).
    apply panics_after.
    { apply writes_slots. intros d (_ & Ht)%Hd. unfold put_dimension, dimension_bytes.
      repeat (apply writes_then; [first [apply writes_put|by apply writes_text]|]). apply writes_put. }
    apply panics_first. eapply panics_more; [apply panics_slots; [|done]|cbn; lia].
    intros f Hin. split; auto.
  - rewrite length_replicate. exact Hfit.
Qed.

(** ** Lemmas: bytes and checksums *)

Lemma lxor_range n a b : 0 ≤ n → 0 ≤ a < 2 ^ n → 0 ≤ b < 2 ^ n → 0 ≤ Z.lxor a b < 2 ^ n.
Proof.
  intros Hn [Ha La] [Hb Lb]. assert (0 ≤ Z.lxor a b) by (by apply Z.lxor_nonneg). split; [done|].
  apply Z.bounded_iff_bits_nonneg; [done..|]. intros i Hi. rewrite Z.lxor_spec.
  rewrite (proj1 (Z.bounded_iff_bits_nonneg n a Hn Ha)) by done.
  by rewrite (proj1 (Z.bounded_iff_bits_nonneg n b Hn Hb)).
Qed.

Lemma land_range n a b : 0 ≤ n → 0 ≤ a < 2 ^ n → 0 ≤ b → 0 ≤ Z.land a b < 2 ^ n.
Proof.
  intros Hn [Ha La] Hb. assert (0 ≤ Z.land a b) by (apply Z.land_nonneg; by left). split; [done|].
  apply Z.bounded_iff_bits_nonneg; [done..|]. intros i Hi. rewrite Z.land_spec.
  by rewrite (proj1 (Z.bounded_iff_bits_nonneg n a Hn Ha)).
Qed.

Lemma crc32_byte_range crc b : 0 ≤ crc < 2 ^ 32 → byte_range b → 0 ≤ crc32_byte crc b < 2 ^ 32.
Proof.
  unfold byte_range. intros Hc Hb. unfold crc32_byte.
  assert (0 ≤ Z.lxor crc b < 2 ^ 32) as H0 by (apply lxor_range; lia).
  revert H0. generalize (Z.lxor crc b) 8%nat. intros x n Hx.
  induction n as [|n IH]; [done|]. cbn [Nat.iter nat_rect]. fold (Nat.iter n crc32_bit x).
  revert IH. generalize (Nat.iter n crc32_bit x). clear. intros x Hx. unfold crc32_bit.
  apply lxor_range; [lia|..].
  - rewrite Z.shiftr_div_pow2 by lia. change (2 ^ 1) with 2. split; [apply Z.div_pos; lia|].
    apply Z.div_lt_upper_bound; lia.
  - apply land_range; [lia..|]. apply Z.mod_pos_bound. lia.
Qed.

Lemma crc32_word bytes : Forall byte_range bytes → word 4 (crc32 bytes).
Proof.
  intros Hb. unfold crc32, word. change (256 ^ Z.of_nat 4) with (2 ^ 32).
  apply lxor_range; [lia|done|].
  apply (fold_invariant (λ crc, 0 ≤ crc < 2 ^ 32)); [|done]. intros crc b Hc Hin.
  apply crc32_byte_range; [done|]. by eapply Forall_forall in Hb.
Qed.

Lemma filled_range n p : Forall byte_range p → Forall byte_range (filled n p).
Proof. intros. apply Forall_app. split; [done|]. by apply Forall_replicate. Qed.

Lemma text_range t : text_ok t → Forall byte_range (text_bytes t).
Proof.
  intros Ht. pose proof (text_short t Ht). destruct Ht as (s & Hb & Hs). unfold text_bytes.
  rewrite (Text_as_str_new _ _ Hs) in *. constructor; [unfold byte_range, Zlength; lia|]. by apply filled_range.
Qed.

Lemma slots_range {A} (bytes : A → list Z) table :
  (∀ x, x ∈ flatten table → Forall byte_range (bytes x)) → Forall byte_range (slots_bytes bytes table).
Proof.
  induction table as [|[x|] table IH]; intros Hr; cbn [slots_bytes]; [done|..]; constructor; try done.
  - apply Forall_app. split; [apply Hr; by left|]. apply IH. intros. apply Hr. by right.
  - auto.
Qed.

(** One small field. *)
Lemma byte_field b : byte_range b → Forall byte_range [b].
Proof. intros. by apply Forall_singleton. Qed.

Lemma bool_byte_range b : byte_range (bool_byte b).
Proof. by destruct b. Qed.

Ltac ranges :=
  repeat (apply Forall_app; split);
  first [done | apply le_bytes_range | by apply text_range | apply byte_field, bool_byte_range | idtac].

Lemma record_range r n :
  (∀ x, r = Some x → length x = n ∧ Forall byte_range x) → Forall byte_range (default (replicate n 0) r).
Proof. intros Hr. destruct r as [x|]; [by apply (Hr x)|]. by apply Forall_replicate. Qed.

Lemma payload_range `{Typed R} s : snapshot_of form_intact R s → Forall byte_range (payload_bytes s).
Proof.
  intros [Hc Hn [_ Hp] [_ Hf] [_ Hd] [_ Hr] [_ Hh] _ _ _ Hs Ha]. unfold payload_bytes. ranges.
  - apply byte_field. by destruct (sn_network_policy s).
  - by apply record_range.
  - by apply record_range.
  - apply slots_range. intros d ([_ ?] & ?)%Hd. unfold dimension_bytes. ranges.
  - apply slots_range. intros f ([_ ?] & ? & _ & _ & ?)%Hf. unfold form_bytes. ranges.
    + apply byte_field. by destruct (form_kind _).
    + apply byte_field. by destruct (form_lifecycle _).
  - apply slots_range. intros r ([_ ?] & [_ ?] & Hd')%Hr%relationship_is_typed. unfold relationship_bytes. ranges.
    + apply byte_field. by destruct (rel_kind _).
    + destruct (rel_dimension r) as [d|]; [by apply (Hd' d)|]. by apply Forall_replicate.
  - apply slots_range. intros h (_ & _ & [_ ?] & [_ ?] & [_ ?] & _)%Hh. unfold handle_bytes. ranges.
Qed.

(** ** Lemmas: whole slots *)

Section slots.
Context `{AeadLaws}.

Definition plain_header (s : Snapshot) (generation : Z) (flags tail_ : list Z) : list Z :=
  header generation (CfcFin_bytes (sn_cfc s)) (sn_journal_sequence s) (length (payload_bytes s)) flags tail_.

(** The bytes of an encoded slot; [None] if the cipher refuses. *)
Definition slot_image (s : Snapshot) (generation : Z) (key : option (list Z)) (domain : Z)
    : option (list Z) :=
  let payload := payload_bytes s in
  match key with
  | None =>
      let crc := le_bytes 4 (crc32 payload) in
      let crc' := le_bytes 4 (crc32 (take 52 (plain_header s generation (replicate 4 0) (crc ++ replicate 12 0)))) in
      Some (plain_header s generation (replicate 4 0) (crc ++ crc' ++ replicate 8 0) ++ payload)
  | Some k =>
      let flags := [1; 1; 0; 0] in
      match seal_storage k (storage_nonce k (CfcFin_bytes (sn_cfc s)) generation domain)
              (take 48 (plain_header s generation flags (replicate 16 0))) payload with
      | Some (sealed, tag) => Some (plain_header s generation flags tag ++ sealed)
      | None => None
      end
  end.

Lemma plain_header_length s generation flags tail_ :
  cfc_ok (sn_cfc s) → length flags = 4%nat → length tail_ = 16%nat →
  length (plain_header s generation flags tail_) = 64%nat.
Proof. intros [Hc _] Hf Ht. by apply (header_spec _ _ _ _ _ _ []). Qed.

(** Rewriting parts of the header. *)
Lemma header_flags s generation rest :
  cfc_ok (sn_cfc s) →
  splice (splice (plain_header s generation (replicate 4 0) (replicate 16 0) ++ rest) 44 [1]) 45 [1] =
  plain_header s generation [1; 1; 0; 0] (replicate 16 0) ++ rest.
Proof.
  intros [Hl _]. unfold plain_header, header. destruct (CfcFin_bytes (sn_cfc s)) as [|? l]; [done|].
  do 15 (destruct l as [|? l]; [done|]). destruct l; [|done]. reflexivity.
Qed.

Lemma header_tag s generation flags tag rest :
  cfc_ok (sn_cfc s) → length flags = 4%nat → length tag = 16%nat →
  splice (plain_header s generation flags (replicate 16 0) ++ rest) 48 tag =
  plain_header s generation flags tag ++ rest.
Proof.
  intros [Hl _] Hf Ht. unfold plain_header, header. destruct (CfcFin_bytes (sn_cfc s)) as [|? l]; [done|].
  do 15 (destruct l as [|? l]; [done|]). destruct l; [|done].
  do 4 (destruct flags as [|? flags]; [done|]). destruct flags; [|done].
  do 16 (destruct tag as [|? tag]; [done|]). destruct tag; [|done]. reflexivity.
Qed.

Lemma header_crcs s generation a b rest :
  cfc_ok (sn_cfc s) → length a = 4%nat → length b = 4%nat →
  splice (plain_header s generation (replicate 4 0) (replicate 16 0) ++ rest) 48 a =
    plain_header s generation (replicate 4 0) (a ++ replicate 12 0) ++ rest ∧
  splice (plain_header s generation (replicate 4 0) (a ++ replicate 12 0) ++ rest) 52 b =
    plain_header s generation (replicate 4 0) (a ++ b ++ replicate 8 0) ++ rest ∧
  take 52 (plain_header s generation (replicate 4 0) (a ++ b ++ replicate 8 0) ++ rest) =
    take 52 (plain_header s generation (replicate 4 0) (a ++ replicate 12 0)) ∧
  take 52 (plain_header s generation (replicate 4 0) (a ++ replicate 12 0) ++ rest) =
    take 52 (plain_header s generation (replicate 4 0) (a ++ replicate 12 0)).
Proof.
  intros [Hl _] Ha Hb. unfold plain_header, header. destruct (CfcFin_bytes (sn_cfc s)) as [|? l]; [done|].
  do 15 (destruct l as [|? l]; [done|]). destruct l; [|done].
  do 4 (destruct a as [|? a]; [done|]). destruct a; [|done].
  do 4 (destruct b as [|? b]; [done|]). destruct b; [|done]. repeat split; reflexivity.
Qed.

Lemma take_header_48 s generation flags tail_ rest :
  cfc_ok (sn_cfc s) → length flags = 4%nat → length tail_ = 16%nat →
  take 48 (plain_header s generation flags tail_ ++ rest) =
  take 48 (plain_header s generation flags (replicate 16 0)).
Proof.
  intros [Hl _] Hf Ht. unfold plain_header, header. destruct (CfcFin_bytes (sn_cfc s)) as [|? l]; [done|].
  do 15 (destruct l as [|? l]; [done|]). destruct l; [|done].
  do 4 (destruct flags as [|? flags]; [done|]). destruct flags; [|done].
  do 16 (destruct tail_ as [|? tail_]; [done|]). destruct tail_; [|done]. reflexivity.
Qed.

(** [encode_slot] fills the start of the buffer with the image of the slot. *)
Lemma encode_slot_spec `{Typed R} s generation key domain :
  snapshot_of form_intact R s → validate_snapshot s = Ok tt →
  encode_slot s generation key domain =
  Returns (match slot_image s generation key domain with
           | Some image => Ok (filled SLOT_LEN image, length image)
           | None => Err StVerificationFailed
           end).
Proof.
  intros Hs Hv. pose proof (payload_fits s Hs Hv) as Hfit. pose proof (st_cfc s Hs) as Hc.
  unfold encode_slot, slot_image. set (payload := payload_bytes s) in *.
  assert (∃ size, size = SLOT_LEN) as [size Esize] by eauto. rewrite <- Esize in *.
  rewrite (writes_payload s Hs) by (rewrite length_replicate; unfold HEADER_LEN in *; lia).
  fold payload. rewrite length_replicate, (proj2 (Nat.leb_le _ _)) by done.
  rewrite (proj2 (Nat.ltb_ge _ _)) by done.
  assert (splice (replicate size 0) HEADER_LEN payload =
    replicate 64 0 ++ filled (size - 64) payload) as ->.
  { unfold HEADER_LEN in *. replace size with (64 + (size - 64))%nat at 1 by lia. rewrite replicate_add.
    rewrite splice_at_end; [|by rewrite length_replicate|rewrite length_replicate; lia].
    unfold filled. by rewrite drop_replicate. }
  replace (HEADER_LEN + length payload - HEADER_LEN)%nat with (length payload) by lia.
  rewrite put_header_bytes by done. change (header _ _ _ _ _ _) with
    (plain_header s generation (replicate 4 0) (replicate 16 0)).
  assert (∀ h, length h = 64%nat → slice (h ++ filled (size - 64) payload) HEADER_LEN (length payload) = payload) as Hsl.
  { intros h Hh. unfold slice, HEADER_LEN. rewrite <- Hh, drop_app_length. apply take_filled. }
  assert (∀ h p, length h = 64%nat → length p = length payload →
    filled size (h ++ p) = h ++ filled (size - 64) p ∧
    length (h ++ p) = (HEADER_LEN + length payload)%nat) as Hfl.
  { intros h p Hh Hp. unfold filled, HEADER_LEN. rewrite length_app, Hh, <- app_assoc, Hp. split; [|done].
    do 3 f_equal. lia. }
  unfold seal_slot. destruct key as [k|].
  - rewrite header_flags by done. rewrite take_header_48 by done.
    replace (HEADER_LEN + length payload - HEADER_LEN)%nat with (length payload) by lia.
    rewrite Hsl by by apply plain_header_length.
    destruct (seal_storage _ _ _ _) as [[sealed tag]|] eqn:E; [|done].
    destruct (seal_shape _ _ _ _ _ _ E) as [Hsealed Htag].
    destruct (Hfl (plain_header s generation [1; 1; 0; 0] tag) sealed) as [-> ->];
      [by apply plain_header_length|done|].
    unfold HEADER_LEN in *.
    rewrite (splice_at_end (plain_header s generation [1; 1; 0; 0] (replicate 16 0)) _ sealed 64);
      [|by apply plain_header_length|rewrite length_filled; lia].
    rewrite header_tag by done. do 4 f_equal.
    unfold filled. by rewrite drop_app_ge, Hsealed, Nat.sub_diag by lia.
  - replace (HEADER_LEN + length payload - HEADER_LEN)%nat with (length payload) by lia.
    rewrite Hsl by by apply plain_header_length.
    destruct (header_crcs s generation (le_bytes 4 (crc32 payload))
      (le_bytes 4 (crc32 (take 52 (plain_header s generation (replicate 4 0) (le_bytes 4 (crc32 payload) ++ replicate 12 0)))))
      (filled (size - 64) payload)) as (E1 & E2 & _ & E4); [done|apply le_bytes_length..|].
    rewrite E1, E4, E2.
    destruct (Hfl (plain_header s generation (replicate 4 0) (le_bytes 4 (crc32 payload) ++
      le_bytes 4 (crc32 (take 52 (plain_header s generation (replicate 4 0) (le_bytes 4 (crc32 payload) ++ replicate 12 0)))) ++
      replicate 8 0)) payload) as [-> ->]; [|done|done].
    apply plain_header_length; [done|done|]. by rewrite !length_app, !le_bytes_length.
Qed.

Lemma payload_length_word `{Typed R} s :
  snapshot_of form_intact R s → validate_snapshot s = Ok tt → word 4 (Z.of_nat (length (payload_bytes s))).
Proof.
  intros Hs Hv. pose proof (payload_fits s Hs Hv) as Hfit. unfold word.
  assert (Z.of_nat SLOT_LEN = 65536) by (unfold SLOT_LEN; rewrite Nat2Z.inj_mul; done).
  change (256 ^ Z.of_nat 4) with (2 ^ 32). lia.
Qed.

(** What [decode_slot] makes of the snapshot it has read. *)
Definition decoded (slot generation : Z) (r : outcome (option (Snapshot * nat))) : outcome (option DecodedSlot) :=
  match r with
  | Returns (Some (snapshot, _)) =>
      Returns (match validate_snapshot snapshot with
               | Ok _ => Some (MkDecoded snapshot generation slot)
               | Err _ => None
               end)
  | Returns None => Returns None
  | Panics => Panics
  | OutOfFuel => OutOfFuel
  end.

(** Once the tag or the checksums match, the payload is read. *)
Lemma decode_opened `{Typed R} s generation flags tail_ rest slot key domain :
  snapshot_of form_intact R s → validate_snapshot s = Ok tt → word 8 generation → generation ≠ 0 →
  length flags = 4%nat → length tail_ = 16%nat → length rest = length (payload_bytes s) →
  open_slot (plain_header s generation flags tail_ ++ rest) key domain =
    Some (plain_header s generation flags tail_ ++ payload_bytes s) →
  ∃ pre, length pre = HEADER_LEN ∧ decode_slot (plain_header s generation flags tail_ ++ rest) slot key domain =
    decoded slot generation (read_payload (sn_cfc s) false (sn_journal_sequence s) (pre ++ payload_bytes s) (length pre)).
Proof.
  intros Hs Hv Hg Hg0 Hf Ht Hrest Ho. pose proof (st_cfc s Hs) as [Hc Hcb].
  unfold decode_slot. rewrite Ho.
  destruct (header_spec generation (CfcFin_bytes (sn_cfc s)) (sn_journal_sequence s)
    (length (payload_bytes s)) flags tail_ rest Hc Hf Ht)
    as [Hl Hmagic Hver Hhl Hpl _ _ _ _ _ _ _ _].
  destruct (header_spec generation (CfcFin_bytes (sn_cfc s)) (sn_journal_sequence s)
    (length (payload_bytes s)) flags tail_ (payload_bytes s) Hc Hf Ht)
    as [_ _ _ _ _ Hgen Hcfc Hj _ _ _ _ _].
  fold (plain_header s generation flags tail_) in *.
  unfold get_u16, get_u32, get_u64. rewrite Hmagic, Hver, Hhl, Hpl, Hgen, Hcfc, Hj, length_app, Hl.
  rewrite !le_value_bytes. rewrite (Z.mod_small generation) by exact Hg.
  rewrite (Z.mod_small (sn_journal_sequence s)) by apply Hs.
  rewrite (Z.mod_small (Z.of_nat (length (payload_bytes s)))) by (by apply payload_length_word).
  change (64 + length rest <? 10)%nat with false. change (64 + length rest <? HEADER_LEN)%nat with false.
  replace (64 + length rest - HEADER_LEN)%nat with (length (payload_bytes s)) by (unfold HEADER_LEN; lia).
  rewrite !bool_decide_true by done. cbn [negb orb].
  change (FORMAT_VERSION mod 256 ^ Z.of_nat 2) with 3. cbn [orb].
  rewrite (proj2 (Z.eqb_neq _ _)) by done.
  assert (CfcFin_from_u128 (be_value (CfcFin_bytes (sn_cfc s))) = sn_cfc s) as ->.
  { unfold CfcFin_from_u128. rewrite <- Hc, be_bytes_value by done. by destruct (sn_cfc s). }
  exists (plain_header s generation flags tail_). split; [exact Hl|]. rewrite Hl. change (3 <=? 2) with false.
  change (3 <? 1) with false. change (FORMAT_VERSION <? 3) with false. cbn [orb]. reflexivity.
Qed.

Lemma slot_image_decoded `{Typed R} s generation key domain image slot :
  snapshot_of form_intact R s → validate_snapshot s = Ok tt → word 8 generation → generation ≠ 0 →
  slot_image s generation key domain = Some image →
  ∃ pre, length pre = HEADER_LEN ∧ decode_slot image slot key domain =
    decoded slot generation (read_payload (sn_cfc s) false (sn_journal_sequence s) (pre ++ payload_bytes s) (length pre)).
Proof.
  intros Hs Hv Hg Hg0 Hi. pose proof (st_cfc s Hs) as [Hc Hcb]. unfold slot_image in Hi.
  destruct key as [k|]; [destruct (seal_storage _ _ _ _) as [[sealed tag]|] eqn:E; [|done]|];
    apply (inj Some) in Hi as <-.
  - destruct (seal_shape _ _ _ _ _ _ E) as [Hsealed Htag].
    eapply decode_opened; try done.
    destruct (header_spec generation (CfcFin_bytes (sn_cfc s)) (sn_journal_sequence s)
      (length (payload_bytes s)) [1; 1; 0; 0] tag sealed Hc eq_refl Htag)
      as [Hl _ Hver _ _ Hgen Hcfc _ H1 H2 H3 _ _].
    fold (plain_header s generation [1; 1; 0; 0] tag) in *.
    unfold open_slot, get_u16, get_u64. rewrite Hver, Hgen, Hcfc, H1, H2, H3, !le_value_bytes.
    rewrite (Z.mod_small generation) by exact Hg.
    change (2 <=? FORMAT_VERSION mod 256 ^ Z.of_nat 2) with true. cbn [byte_at andb].
    rewrite take_header_48 by done. unfold HEADER_LEN.
    rewrite <- Hl, take_app_length, drop_app_length, (open_seal _ _ _ _ _ _ E). done.
  - set (crc := le_bytes 4 (crc32 (payload_bytes s))).
    set (crc' := le_bytes 4 (crc32 (take 52 _))).
    assert (length (crc ++ crc' ++ replicate 8 0) = 16%nat) as Ht by
      (unfold crc, crc'; by rewrite !length_app, !le_bytes_length).
    eapply decode_opened; try done.
    destruct (header_spec generation (CfcFin_bytes (sn_cfc s)) (sn_journal_sequence s)
      (length (payload_bytes s)) (replicate 4 0) _ (payload_bytes s) Hc eq_refl Ht)
      as [Hl _ _ _ _ _ _ _ H1 _ _ H2 H3].
    destruct (header_crcs s generation crc crc' (payload_bytes s)) as (_ & _ & H4 & _);
      [done|apply le_bytes_length..|].
    fold (plain_header s generation (replicate 4 0) (crc ++ crc' ++ replicate 8 0)) in *.
    unfold open_slot, get_u32. rewrite H1, H2, H3, H4. change (byte_at (replicate 4 0) 0 =? 1) with false.
    rewrite andb_false_r. unfold HEADER_LEN. rewrite <- Hl, drop_app_length.
    change (take 4 (crc ++ _)) with crc. change (slice (crc ++ _) 4 4) with crc'.
    assert (le_value crc = crc32 (payload_bytes s)) as ->.
    { unfold crc. rewrite le_value_bytes. apply Z.mod_small, crc32_word. by apply payload_range. }
    unfold crc'. rewrite le_value_bytes, Z.mod_small; [by rewrite !bool_decide_true|].
    apply crc32_word, Forall_take. unfold plain_header, header. ranges.
    + by repeat constructor.
    + by repeat constructor.
    + by apply Forall_replicate.
Qed.

Lemma slot_image_decodes s generation key domain image slot :
  snapshot_intact s → validate_snapshot s = Ok tt → word 8 generation → generation ≠ 0 →
  slot_image s generation key domain = Some image →
  decode_slot image slot key domain = Returns (Some (MkDecoded s generation slot)).
Proof.
  intros Hs Hv Hg Hg0 Hi. destruct (slot_image_decoded _ _ _ _ _ slot Hs Hv Hg Hg0 Hi) as (pre & _ & ->).
  pose proof (parses_payload s (intact_whole s Hs) Hv) as Hr. rewrite (intact_named s Hs) in Hr.
  specialize (Hr pre []). rewrite app_nil_r in Hr. rewrite Hr. cbn [decoded]. by rewrite Hv.
Qed.

Lemma slot_image_length `{Typed R} s generation key domain image :
  snapshot_of form_intact R s → validate_snapshot s = Ok tt → slot_image s generation key domain = Some image →
  (length image ≤ SLOT_LEN)%nat.
Proof.
  intros Hs Hv Hi. pose proof (payload_fits s Hs Hv) as Hfit. pose proof (st_cfc s Hs) as Hc.
  revert Hfit. generalize SLOT_LEN. unfold HEADER_LEN. intros size Hfit. unfold slot_image in Hi.
  destruct key as [k|]; [destruct (seal_storage _ _ _ _) as [[sealed tag]|] eqn:E; [|done]|];
    apply (inj Some) in Hi as <-; rewrite length_app, plain_header_length; try done.
  - destruct (seal_shape _ _ _ _ _ _ E) as [-> _]. done.
  - by destruct (seal_shape _ _ _ _ _ _ E).
Qed.
End slots.

(** A cipher to instantiate the interface with: it refuses keys that are not 32
    bytes and tags with a constant. *)
#[local] Instance demo_aead : Aead := {
  seal_storage key _ _ bytes := if (length key =? 32)%nat then Some (rev bytes, replicate 16 7) else None;
  open_storage key _ _ sealed tag :=
    if (length key =? 32)%nat && (tag ==? replicate 16 7) then Some (rev sealed) else None }.

Lemma demo_aead_laws : AeadLaws demo_aead.
Proof.
  constructor; intros key nonce ad bytes x y; cbn; destruct (_ =? _)%nat; try done.
  - intros [= <- <-]. by rewrite length_rev.
  - intros [= <- <-]. cbn. by rewrite rev_involutive.
  - cbn. case_bool_decide; [|done]. intros [= <-]. by rewrite length_rev.
  - intros [= <- <-] Hb. split; [|by repeat constructor]. by apply Forall_rev.
  - cbn. case_bool_decide; [|done]. intros [= <-] Hb. by apply Forall_rev.
Qed.

(** A snapshot with a Form, its Dimension, a Relationship, a handle and settings. *)
Definition demo_text : Text := MkText (lit "ego" ++ replicate 29 0) 3.
Definition demo_form : StoredForm :=
  MkStoredForm (MkForm (Fin_from_u128 7) demo_text KindExecutable 1 LifeActive)
    (ChunkedBlob_from_bytes (lit "hi")).

Definition demo_snapshot : Snapshot :=
  MkSnapshot (CfcFin_from_u128 5) demo_text (Fin_from_u128 1)
    (Some demo_form :: empty_slots _ 11)
    (None :: Some (MkDimension (Fin_from_u128 1) demo_text true) :: empty_slots _ 4)
    (Some (MkRelationship (Fin_from_u128 7) (Fin_from_u128 8) Contains None) :: empty_slots _ 47)
    (Some (MkHandle 3 0 (CfcFin_from_u128 5) (Fin_from_u128 7) (Fin_from_u128 8) (Fin_from_u128 1)
             (MkOps 1) 900 false) :: empty_slots _ 15)
    9 2 4 NetOpen true (Some (replicate 32 255)) None.

Lemma demo_snapshot_intact : snapshot_intact demo_snapshot.
Proof.
  assert (text_ok demo_text) by (exists (lit "ego"); split; [by repeat constructor|reflexivity]).
  assert (∀ n, fin_ok (Fin_from_u128 n)) by (split; [apply be_bytes_length|apply be_bytes_range]).
  constructor; try done; try (split; [reflexivity|]; intros x Hx;
    cbn [demo_snapshot sn_forms sn_dimensions sn_relationships sn_handles flatten] in Hx;
    rewrite flatten_empty in Hx; apply list_elem_of_singleton in Hx as ->).
  - split; [apply be_bytes_length|apply be_bytes_range].
  - apply H0.
  - destruct (from_bytes_spec (lit "hi")) as (Hw & Hc & _).
    split; [apply H0|]. split; [exact H|]. split; [unfold word; cbn; lia|]. split; [exact Hw|].
    unfold demo_form, sf_content. rewrite Hc. by repeat constructor.
  - split; [apply H0|done].
  - split_and!; [apply H0..|done].
  - split_and!; first [done|apply H0].
  - intros r [= <-]. split; [done|]. by repeat constructor.
Qed.

(** C24.  The on-disk format reads back.  A snapshot of the Rust types that passes
    validation always fits a slot.  While its contents have all their chunks, encoding
    fails only when the cipher refuses, and decoding the encoded bytes with the same
    key and domain gives back the snapshot and its generation, sealed or with their
    checksums, unless a Relationship is limited to the zero Dimension, which validation
    accepts and decoding refuses; a content with a missing chunk, the state
    [ChunkedBlob::write] can leave, makes encoding panic. *)
Theorem store_slot_roundtrip `{AeadLaws} s generation key domain slot :
  snapshot_typed s → validate_snapshot s = Ok tt → word 8 generation → generation ≠ 0 →
  (∀ f, f ∈ flatten (sn_forms s) → chunks_missing f ∨ blob_wf (sf_content f)) →
  if decide (Exists chunks_missing (flatten (sn_forms s))) then encode_slot s generation key domain = Panics
  else
    (is_Some key ∧ encode_slot s generation key domain = Returns (Err StVerificationFailed)) ∨
    ∃ output len, encode_slot s generation key domain = Returns (Ok (output, len)) ∧
      length output = SLOT_LEN ∧ (len ≤ SLOT_LEN)%nat ∧
      decode_slot (take len output) slot key domain =
        Returns (if forallb dimension_named (flatten (sn_relationships s))
                 then Some (MkDecoded s generation slot) else None).
Proof.
  intros Hs Hv Hg Hg0 Hb. case_decide as Hm; [apply encode_missing; try done; by apply Exists_exists in Hm|].
  assert (snapshot_whole s) as Hw.
  { destruct Hs. constructor; try done. destruct st_forms0 as [Hl Hf]. split; [done|]. intros f Hin.
    destruct (Hf f Hin) as (? & ? & ? & _ & ?). destruct (Hb f Hin); [|done]. destruct Hm. apply Exists_exists. eauto. }
  rewrite (encode_slot_spec (R := relationship_typed)) by done.
  destruct (slot_image s generation key domain) as [image|] eqn:E; [right|left; by destruct key].
  destruct (slot_image_decoded _ _ _ _ _ slot Hw Hv Hg Hg0 E) as (pre & _ & Hd).
  pose proof (slot_image_length _ _ _ _ _ Hw Hv E) as Hl. pose proof (parses_payload s Hw Hv) as Hp.
  exists (filled SLOT_LEN image), (length image).
  rewrite take_filled. split_and!; [done|by apply length_filled|done|]. rewrite Hd.
  destruct (forallb _ _); specialize (Hp pre []); rewrite app_nil_r in Hp; rewrite Hp; [|done].
  cbn [decoded]. by rewrite Hv.
Qed.

Lemma demo_snapshot_typed : snapshot_typed demo_snapshot.
Proof.
  destruct (intact_whole _ demo_snapshot_intact). constructor; try done. destruct st_forms0 as [Hl Hf].
  split; [done|]. intros f (? & ? & ? & Hb & ?)%Hf. split_and!; try done. apply Hb.
Qed.

(** A damaged content, and a Relationship of the zero Dimension. *)
Definition demo_damaged : Snapshot :=
  demo_snapshot <| sn_forms := Some (MkStoredForm (sf_form demo_form) (MkBlob [] 2)) :: empty_slots _ 11 |>.
Definition demo_unnamed : Snapshot :=
  demo_snapshot <| sn_relationships :=
    Some (MkRelationship (Fin_from_u128 7) (Fin_from_u128 8) Contains (Some Fin_ZERO)) :: empty_slots _ 47 |>.

Lemma demo_snapshots :
  snapshot_typed demo_damaged ∧ snapshot_typed demo_unnamed ∧
  (∀ f, f ∈ flatten (sn_forms demo_unnamed) → chunks_missing f ∨ blob_wf (sf_content f)) ∧
  (∀ f, f ∈ flatten (sn_forms demo_damaged) → chunks_missing f ∨ blob_wf (sf_content f)).
Proof.
  pose proof demo_snapshot_typed as [D1 D2 D3 D4 D5 D6 D7 D8 D9 D10 D11 D12].
  destruct (proj2 D4 demo_form ltac:(by left)) as (F1 & F2 & F3 & _). split_and!.
  - constructor; try done. split; [done|]. intros f Hf. cbn in Hf. apply list_elem_of_singleton in Hf as ->.
    split_and!; try done; by constructor.
  - constructor; try done. split; [done|]. intros r Hr. cbn in Hr. apply list_elem_of_singleton in Hr as ->.
    split_and!; [split; [apply be_bytes_length|apply be_bytes_range]..|]. intros d [= <-]. apply Fin_ZERO_ok.
  - intros f Hf. cbn in Hf. apply list_elem_of_singleton in Hf as ->. right. apply (from_bytes_spec (lit "hi")).
  - intros f Hf. cbn in Hf. apply list_elem_of_singleton in Hf as ->. left. unfold chunks_missing. cbn. lia.
Qed.

Lemma store_slot_roundtrip_witness :
  encode_slot demo_damaged 6 None 1 = Panics ∧
  ∃ output len, encode_slot demo_unnamed 6 None 1 = Returns (Ok (output, len)) ∧
    decode_slot (take len output) 0 None 1 = Returns None.
Proof.
  destruct demo_snapshots as (T1 & T2 & B2 & B1). split.
  - pose proof (@store_slot_roundtrip demo_aead demo_aead_laws demo_damaged 6 None 1 0 T1 ltac:(by vm_compute)
      ltac:(unfold word; lia) ltac:(done) B1) as Hr.
    rewrite decide_True in Hr; [exact Hr|]. apply Exists_cons_hd. unfold chunks_missing. cbn. lia.
  - pose proof (@store_slot_roundtrip demo_aead demo_aead_laws demo_unnamed 6 None 1 0 T2 ltac:(by vm_compute)
      ltac:(unfold word; lia) ltac:(done) B2) as Hr.
    rewrite decide_False in Hr.
    + destruct Hr as [[[? [=]] _]|(output & len & E & _ & _ & Hd)]. exists output, len.
      split; [exact E|]. rewrite Hd. vm_compute. reflexivity.
    + intros Hm. apply Exists_exists in Hm as (f & Hf & Hm). apply list_elem_of_singleton in Hf as ->.
      pose proof (wf_len _ (proj1 (from_bytes_spec (lit "hi")))) as Hl. unfold chunks_missing in Hm.
      cbn [demo_form sf_content] in Hm. lia.
Defined.
