(* ===== verification/StoreTyped.v ===== *)
(** * What a slot decodes to

    Whatever bytes lie on the disk, a slot that decodes gives a snapshot whose
    fields have the widths and shapes of their Rust types, that passes
    validation, and whose generation and CFC are those of the header. *)

From stdpp Require Import prelude list strings.
From Stdlib Require Import ZArith Lia.
From S2P Require Import Prelude Identity Bytes Capability Blob ExpFs Registry Relationship Pimp Crypto StoreCodec StoreRoundtrip.

Set Default Goal Selector "!".
Open Scope Z_scope.
Open Scope expos_scope.

(** ** Lemmas: parsers *)

(** Every value that [p] returns on bytes satisfies [P]. *)
Definition yields {A} (p : Parser A) (P : A → Prop) : Prop :=
  ∀ input offset a offset', Forall byte_range input →
    p input offset = Returns (Some (a, offset')) → P a.

Lemma yields_ret {A} (a : A) (P : A → Prop) : P a → yields (p_ret a) P.
Proof. intros Ha input offset a' offset' _ [= <- _]. done. Qed.

Lemma yields_none {A} (P : A → Prop) : yields p_none P.
Proof. by intros input offset a offset' _. Qed.

Lemma yields_panic {A} (P : A → Prop) : yields p_panic P.
Proof. by intros input offset a offset' _. Qed.

Lemma yields_bind {A B} (p : Parser A) (k : A → Parser B) (P : A → Prop) (Q : B → Prop) :
  yields p P → (∀ a, P a → yields (k a) Q) → yields (p_bind p k) Q.
Proof.
  intros Hp Hk input offset b offset' Hi E. unfold p_bind in E.
  destruct (p input offset) as [[[a o]|]| |] eqn:Ep; try done. by eapply Hk; [eapply Hp| |].
Qed.

Lemma yields_any {A} (p : Parser A) : yields p (λ _, True).
Proof. done. Qed.

Lemma yields_option {A} (o : option A) (P : A → Prop) : (∀ a, o = Some a → P a) → yields (p_option o) P.
Proof. destruct o; intros Ho; [by apply yields_ret, Ho|apply yields_none]. Qed.

Lemma yields_read n : yields (read n) (λ bytes, length bytes = n ∧ Forall byte_range bytes).
Proof.
  intros input offset a offset' Hi E. unfold read in E. destruct (_ <=? _)%nat eqn:El; [|done].
  injection E as <- <-. apply Nat.leb_le in El. unfold slice. split.
  - rewrite length_take, length_drop. lia.
  - by apply Forall_take, Forall_drop.
Qed.

Lemma le_value_range bs : Forall byte_range bs → word (length bs) (le_value bs).
Proof.
  unfold word. induction 1 as [|b bs Hb _ IH]; [done|]. unfold byte_range in Hb.
  cbn [le_value fold_right length]. fold (le_value bs). rewrite Nat2Z.inj_succ, Z.pow_succ_r by lia. lia.
Qed.

Lemma yields_byte : yields read_byte byte_range.
Proof.
  eapply yields_bind; [apply yields_read|]. intros bs [Hl Hb]. apply yields_ret.
  destruct bs as [|b [|]]; try done. by apply Forall_cons in Hb as [? _].
Qed.

Lemma yields_word n : yields (bytes <-- read n; p_ret (le_value bytes)) (word n).
Proof.
  eapply yields_bind; [apply yields_read|]. intros bs [<- Hb]. apply yields_ret. by apply le_value_range.
Qed.

Lemma yields_fin : yields read_fin fin_ok.
Proof.
  eapply yields_bind; [apply yields_read|]. intros bs _. apply yields_ret.
  split; [apply be_bytes_length|apply be_bytes_range].
Qed.

Lemma yields_text : yields read_text text_ok.
Proof.
  eapply yields_bind; [apply yields_any|]. intros len _. eapply yields_bind; [apply yields_read|].
  intros bs [_ Hb]. cbv zeta. destruct (_ || _); [apply yields_none|].
  destruct (Text_new _) as [t|] eqn:E; [|apply yields_none]. apply yields_ret.
  eexists. split; [|done]. by apply Forall_take.
Qed.

Lemma yields_slots {A} n fixed width (record : Parser A) (P : A → Prop) :
  yields record P → yields (read_slots n (read_slot_entry fixed width record)) (slots_typed n P).
Proof.
  intros Hr. induction n as [|n IH].
  { apply yields_ret. split; [done|]. by intros x ?%elem_of_nil. }
  eapply (yields_bind _ _ (λ o, ∀ x, o = Some x → P x)).
  - eapply yields_bind; [apply yields_any|]. intros present _.
    destruct (_ =? _); [destruct fixed; [eapply yields_bind; [apply yields_any|]; intros _ _|]; by apply yields_ret|].
    destruct (negb _); [apply yields_none|]. eapply yields_bind; [exact Hr|].
    intros x Hx. apply yields_ret. by intros y [= <-].
  - intros o Ho. eapply yields_bind; [exact IH|]. intros rest [Hl Hp]. apply yields_ret.
    split; [cbn; by f_equal|]. intros x Hx. destruct o as [y|]; cbn [flatten] in Hx; [|auto].
    apply elem_of_cons in Hx as [->|?]; auto.
Qed.

Lemma text_ok_new t t' : text_ok t → Text_new (Text_as_str t) = Ok t' → text_ok t'.
Proof. intros Ht E. rewrite Text_new_as_str in E by done. by injection E as <-. Qed.

Lemma yields_dimension : yields read_dimension dimension_typed.
Proof.
  eapply yields_bind; [apply yields_fin|]. intros fin Hf. eapply yields_bind; [apply yields_text|].
  intros name Hn. eapply yields_bind; [apply yields_any|]. intros b _.
  unfold Dimension_new. destruct (Fin_is_zero fin); [apply yields_panic|].
  destruct (Text_new _) as [t|] eqn:E; [|apply yields_panic]. apply yields_ret.
  split; [done|]. by eapply text_ok_new.
Qed.

Lemma yields_form fixed : yields (read_form fixed) form_intact.
Proof.
  eapply yields_bind; [apply yields_fin|]. intros fin Hf. eapply yields_bind; [apply yields_text|].
  intros name Hn. do 2 (eapply yields_bind; [apply yields_any|]; intros ? _).
  eapply yields_bind; [apply yields_word|]. intros revision Hr.
  do 2 (eapply yields_bind; [apply yields_any|]; intros ? _).
  eapply yields_bind; [apply yields_word|]. intros len Hlen.
  destruct (_ <? _); [apply yields_none|]. eapply yields_bind; [apply yields_read|]. intros bs [_ Hb].
  unfold Form_new. destruct (Fin_is_zero fin); [apply yields_panic|].
  destruct (Text_new _) as [t|] eqn:E; [|apply yields_panic]. cbn [form_fin form_name form_kind].
  destruct (_ <? _); [apply yields_panic|]. apply yields_ret.
  destruct (from_bytes_spec (take (Z.to_nat len) bs)) as (Hw & Hc & _).
  split_and!; [done|by eapply text_ok_new|done|done|]. cbn [sf_content]. rewrite Hc. by apply Forall_take.
Qed.

Lemma yields_relationship : yields read_relationship relationship_intact.
Proof.
  eapply yields_bind; [apply yields_fin|]. intros s Hs. eapply yields_bind; [apply yields_fin|]. intros t Ht.
  do 3 (eapply yields_bind; [apply yields_any|]; intros ? _).
  eapply yields_bind; [apply yields_fin|]. intros d Hd.
  destruct (_ && _); [by apply yields_ret|]. destruct (_ && negb _) eqn:E; [|apply yields_none].
  bools. apply yields_ret. split_and!; [done..|]. intros d' [= <-]. done.
Qed.

Lemma yields_handle cfc : yields (read_handle cfc) handle_typed.
Proof.
  do 2 (eapply yields_bind; [apply yields_word|]; intros ? ?).
  do 3 (eapply yields_bind; [apply yields_fin|]; intros ? ?).
  eapply yields_bind; [apply yields_word|]. intros bits Hbits.
  eapply yields_bind; [apply yields_option; exact (λ _ E, E)|]. intros ops Ho.
  eapply yields_bind; [apply yields_word|]. intros tick Htick.
  eapply yields_bind; [apply yields_any|]. intros revoked _. apply yields_ret.
  assert (ops_bits ops = bits) as Eb.
  { unfold Operations_from_bits in Ho. by destruct (_ ==? _); [injection Ho as <-|]. }
  split_and!; cbn [fh_id fh_parent_id fh_requester fh_target fh_dimension fh_operations
    fh_valid_until_tick]; rewrite ?Eb; done.
Qed.

Lemma yields_payload cfc fixed sequence :
  cfc_ok cfc →
  yields (read_payload cfc fixed sequence) (λ s, snapshot_intact s ∧ sn_cfc s = cfc).
Proof.
  intros Hc. eapply yields_bind; [apply yields_fin|]. intros primary Hp.
  eapply yields_bind; [apply yields_text|]. intros name Hn.
  do 3 (eapply yields_bind; [apply yields_word|]; intros ? ?).
  destruct (negb _); [apply yields_none|].
  do 4 (eapply yields_bind; [apply yields_any|]; intros ? _).
  eapply yields_bind; [apply yields_read|]. intros settings Hs.
  eapply yields_bind; [apply yields_any|]. intros ap _.
  eapply yields_bind; [apply yields_read|]. intros accounts Ha.
  destruct (_ || _); [apply yields_none|].
  eapply yields_bind; [apply yields_slots, yields_dimension|]. intros dimensions Hd.
  eapply yields_bind; [apply yields_slots, yields_form|]. intros forms Hf.
  eapply yields_bind; [apply yields_slots, yields_relationship|]. intros relationships Hr.
  eapply yields_bind; [apply yields_slots, yields_handle|]. intros handles Hh.
  apply yields_ret. split; [|done].
  constructor; cbn [sn_cfc sn_cfc_name sn_primary_dimension sn_forms sn_dimensions sn_relationships
    sn_handles sn_next_fin sn_next_dimension_fin sn_journal_sequence sn_settings sn_accounts]; try done.
  - intros r. by destruct (_ =? _); [intros [= <-]|].
  - intros r. by destruct (_ =? _); [intros [= <-]|].
Qed.

(** ** Lemmas: slots *)

Section decode.
Context {A : Aead} {AL : AeadLaws A}.

(** The fields of a header. *)
Definition header_cfc (h : list Z) : CfcFin := CfcFin_from_u128 (be_value (slice h 24 16)).
Definition header_generation (h : list Z) : Z := get_u64 h 16.

Lemma open_slot_header encoded key domain input :
  (64 ≤ length encoded)%nat → open_slot encoded key domain = Some input → take 64 input = take 64 encoded.
Proof.
  intros Hl. unfold open_slot. destruct (_ && _).
  - destruct (negb _); [done|]. destruct key as [k|]; [|done]. destruct (open_storage _ _ _ _ _); [|done].
    intros [= <-]. unfold HEADER_LEN. rewrite take_app_le by (rewrite length_take; lia). by rewrite take_take.
  - destruct (_ || _); [done|]. by intros [= <-].
Qed.

Lemma open_slot_range encoded key domain input :
  Forall byte_range encoded → open_slot encoded key domain = Some input → Forall byte_range input.
Proof.
  intros Hb. unfold open_slot. destruct (_ && _).
  - destruct (negb _); [done|]. destruct key as [k|]; [|done].
    destruct (open_storage _ _ _ _ _) as [payload|] eqn:E; [|done]. intros [= <-].
    apply Forall_app. split; [by apply Forall_take|]. eapply open_range; [done|]. by apply Forall_drop.
  - destruct (_ || _); [done|]. by intros [= <-].
Qed.

Record decoded_from (encoded : list Z) (slot : Z) (dec : DecodedSlot) : Prop := {
  df_magic : take 8 encoded = MAGIC;
  df_generation : dsl_generation dec = header_generation encoded;
  df_nonzero : dsl_generation dec ≠ 0;
  df_cfc : sn_cfc (dsl_snapshot dec) = header_cfc encoded;
  df_slot : dsl_slot dec = slot;
  df_valid : validate_snapshot (dsl_snapshot dec) = Ok tt;
  df_typed : snapshot_intact (dsl_snapshot dec) }.

(** The three ways a slot can decode. *)
Lemma decode_slot_cases encoded slot key domain :
  (10 ≤ length encoded)%nat → Forall byte_range encoded →
  match decode_slot encoded slot key domain with
  | Returns (Some dec) => decoded_from encoded slot dec
  | Returns None => True
  | _ => ∃ input, open_slot encoded key domain = Some input
  end.
Proof.
  intros Hl Hb. unfold decode_slot. rewrite (proj2 (Nat.ltb_ge _ _)) by done. cbv zeta.
  destruct ((length encoded <? HEADER_LEN)%nat || _ || _ || _ || _ || _) eqn:E; [done|].
  repeat (apply orb_false_iff in E as [E ?]). apply Nat.ltb_ge in E. unfold HEADER_LEN in E.
  destruct (open_slot encoded key domain) as [input|] eqn:Eo; [|done].
  pose proof (open_slot_header encoded key domain input E Eo) as Eh.
  assert (∀ i n, (i + n ≤ 64)%nat → slice input i n = slice encoded i n) as Hs.
  { intros i n Hi. unfold slice. assert (∀ l : list Z, take n (drop i l) = take n (drop i (take 64 l))) as Ht.
    { intros l. rewrite skipn_firstn_comm, take_take. f_equal. lia. }
    by rewrite (Ht input), (Ht encoded), Eh. }
  unfold get_u64 at 1 2. rewrite Hs by lia. fold (get_u64 encoded 16).
  destruct (get_u64 encoded 16 =? 0) eqn:Eg; [done|]. apply Z.eqb_neq in Eg.
  rewrite (Hs 24 16)%nat by lia. fold (header_cfc encoded).
  destruct (read_payload _ _ _ input HEADER_LEN) as [[[s o]|]| |] eqn:Ep; [|done|eauto..].
  destruct (validate_snapshot s) as [[]|] eqn:Ev; [|done].
  assert (cfc_ok (header_cfc encoded)) as Hc by (split; [apply be_bytes_length|apply be_bytes_range]).
  destruct (yields_payload _ _ _ Hc _ _ _ _ (open_slot_range _ _ _ _ Hb Eo) Ep) as [Ht Esc].
  constructor; cbn [dsl_generation dsl_snapshot dsl_slot]; try done.
  match goal with H : negb (bool_decide (take 8 encoded = MAGIC)) = false |- _ =>
    by apply negb_false_iff, bool_decide_eq_true in H end.
Qed.
End decode.
