(* ===== verification/Records.v ===== *)
(** * Account and preference records

    The fixed-size records of kernel/src/state.rs: the 32-byte preference record
    with its two tagged extensions, the 80-byte account record, and the table of
    twelve accounts.  The disk state around them is in State.v. *)

From stdpp Require Import prelude list strings.
From Stdlib Require Import ZArith Lia.
From S2P Require Import Prelude Identity Bytes Crypto StoreCodec.

Set Default Goal Selector "!".
Open Scope Z_scope.
Open Scope expos_scope.

(** ** Data *)

Definition MAX_STORED_ACCOUNTS : nat := 12.
Definition ACCOUNT_NAME_CAPACITY : nat := 24.
Definition PASSWORD_SALT_LEN : nat := 16.
Definition PASSWORD_HASH_LEN : nat := 32.
Definition ACCOUNT_RECORD_LEN : nat := 80.

Definition PREF_PURE_BLACK_APPS : Z := Z.shiftl 1 0.
Definition PREF_ROUNDED_CONTROLS : Z := Z.shiftl 1 1.
Definition PREF_TASKBAR_VISIBLE : Z := Z.shiftl 1 2.
Definition PREF_STATUS_VISIBLE : Z := Z.shiftl 1 3.
Definition PREF_NETWORK_ENABLED : Z := Z.shiftl 1 6.
Definition PREF_RESPONSIVE_PRESENTATION : Z := Z.shiftl 1 11.

(** All sixteen flags have a meaning. *)
Definition PREF_ALL : Z := fold_left Z.lor ((λ n, Z.shiftl 1 (Z.of_nat n)) <$> seq 0 16) 0.

Definition DISPLAY_TIMING_TAG : list Z := lit "HZ1".
Definition CUSTOMIZATION_TAG : list Z := lit "CX1".
Definition TWO_BIT_FIELD_MASK : Z := 3.
Definition DEFAULT_FONT_WEIGHT : Z := 1.

Definition FONT_FACE_CHOICES : Z := 5.
Definition FONT_WEIGHT_CHOICES : Z := 3.
Definition WINDOW_CORNER_RADIUS_CHOICES : Z := 9.
Definition WINDOW_BORDER_WIDTH_CHOICES : Z := 7.
Definition TITLEBAR_DENSITY_CHOICES : Z := 5.
Definition TASKBAR_PLACEMENT_CHOICES : Z := 4.
Definition TASKBAR_SIZE_CHOICES : Z := 9.
Definition TASKBAR_ALIGNMENT_CHOICES : Z := 3.
Definition WINDOW_OFFSCREEN_ALLOWANCE_CHOICES : Z := 9.
Definition WINDOW_SNAP_DISTANCE_CHOICES : Z := 9.
Definition MENU_DENSITY_CHOICES : Z := 5.
Definition ANIMATION_LEVEL_CHOICES : Z := 5.
Definition UI_SCALE_CHOICES : Z := 7.
Definition SCROLL_SPEED_CHOICES : Z := 7.
Definition FOCUS_POLICY_CHOICES : Z := 3.
Definition WINDOW_OPACITY_CHOICES : Z := 6.
Definition WALLPAPER_VARIANT_CHOICES : Z := 252.

Inductive RefreshRate := Hz60 | Hz75 | Hz120 | Hz144.

#[export] Instance RefreshRate_eq_dec : EqDecision RefreshRate.
Proof. solve_decision. Defined.

Definition RefreshRate_hz (self : RefreshRate) : Z :=
  match self with Hz60 => 60 | Hz75 => 75 | Hz120 => 120 | Hz144 => 144 end.

Definition RefreshRate_persisted_id (self : RefreshRate) : Z :=
  match self with Hz60 => 0 | Hz75 => 1 | Hz120 => 2 | Hz144 => 3 end.

Definition RefreshRate_from_persisted_id (value : Z) : option RefreshRate :=
  if value =? 0 then Some Hz60 else if value =? 1 then Some Hz75
  else if value =? 2 then Some Hz120 else if value =? 3 then Some Hz144 else None.

Record PersistentPreferences := MkPrefs {
  pp_display_mode : Z; pp_theme : Z; pp_wallpaper : Z; pp_cursor_theme : Z; pp_accent : Z;
  pp_backdrop : Z; pp_pointer_speed : Z; pp_flags : Z;
  pp_refresh_rate : RefreshRate; pp_vsync : bool;
  pp_font_face : Z; pp_font_weight : Z;
  pp_window_corner_radius : Z; pp_window_border_width : Z; pp_titlebar_density : Z;
  pp_taskbar_placement : Z; pp_taskbar_size : Z; pp_taskbar_alignment : Z;
  pp_taskbar_autohide : bool; pp_taskbar_translucent : bool; pp_taskbar_labels : bool;
  pp_clock_seconds : bool;
  pp_window_offscreen_allowance : Z; pp_window_snap_distance : Z; pp_window_snap : bool;
  pp_menu_density : Z; pp_animation_level : Z; pp_ui_scale : Z; pp_scroll_speed : Z;
  pp_focus_policy : Z; pp_window_opacity : Z;
  pp_tooltips : bool; pp_cursor_shadow : bool; pp_notification_animations : bool }.

#[export] Instance PersistentPreferences_eq_dec : EqDecision PersistentPreferences.
Proof. solve_decision. Defined.

Definition PersistentPreferences_new : PersistentPreferences :=
  MkPrefs 0 0 0 0 0 0 1
    (Z.lor PREF_PURE_BLACK_APPS (Z.lor PREF_ROUNDED_CONTROLS (Z.lor PREF_TASKBAR_VISIBLE
      (Z.lor PREF_STATUS_VISIBLE PREF_NETWORK_ENABLED))))
    Hz60 true 0 DEFAULT_FONT_WEIGHT 0 0 0 0 0 0 false false false false 0 0 false 0 0 0 0 0 0
    false false false.

Record StoredAccount := MkAccount {
  acc_name : list Z; acc_name_len : Z; acc_password_salt : list Z; acc_password_hash : list Z;
  acc_kdf_rounds : Z; acc_authority : Z; acc_occupied : bool }.

#[export] Instance StoredAccount_eq_dec : EqDecision StoredAccount.
Proof. solve_decision. Defined.

Definition StoredAccount_EMPTY : StoredAccount :=
  MkAccount (replicate ACCOUNT_NAME_CAPACITY 0) 0 (replicate PASSWORD_SALT_LEN 0)
    (replicate PASSWORD_HASH_LEN 0) 0 2 false.

Record PersistentData := MkData {
  pd_accounts_initialized : bool; pd_preferences : PersistentPreferences;
  pd_accounts : list StoredAccount }.

Definition PersistentData_eta (d : PersistentData) : PersistentData :=
  MkData (pd_accounts_initialized d) (pd_preferences d) (pd_accounts d).
#[export] Instance set_pd_accounts_initialized : Setter pd_accounts_initialized := ltac:(build_setter PersistentData_eta).
#[export] Instance set_pd_preferences : Setter pd_preferences := ltac:(build_setter PersistentData_eta).
#[export] Instance set_pd_accounts : Setter pd_accounts := ltac:(build_setter PersistentData_eta).

Definition PersistentData_new : PersistentData :=
  MkData false PersistentPreferences_new (replicate MAX_STORED_ACCOUNTS StoredAccount_EMPTY).

(** ** Preferences *)

Definition sanitize_choice (value choices : Z) : Z := if value <? choices then value else 0.
Definition sanitize_choice_or (value choices fallback : Z) : Z :=
  if value <? choices then value else fallback.

Definition sanitize_preferences (value : PersistentPreferences) : PersistentPreferences :=
  MkPrefs
    (if pp_display_mode value <=? 2 then pp_display_mode value else 0)
    (pp_theme value)
    (if pp_wallpaper value <? WALLPAPER_VARIANT_CHOICES then pp_wallpaper value else 0)
    (if pp_cursor_theme value <=? 3 then pp_cursor_theme value else 0)
    (pp_accent value) (pp_backdrop value)
    (if (1 <=? pp_pointer_speed value) && (pp_pointer_speed value <=? 3)
     then pp_pointer_speed value else 1)
    (Z.land (pp_flags value) PREF_ALL)
    (pp_refresh_rate value) (pp_vsync value)
    (sanitize_choice (pp_font_face value) FONT_FACE_CHOICES)
    (sanitize_choice_or (pp_font_weight value) FONT_WEIGHT_CHOICES DEFAULT_FONT_WEIGHT)
    (sanitize_choice (pp_window_corner_radius value) WINDOW_CORNER_RADIUS_CHOICES)
    (sanitize_choice (pp_window_border_width value) WINDOW_BORDER_WIDTH_CHOICES)
    (sanitize_choice (pp_titlebar_density value) TITLEBAR_DENSITY_CHOICES)
    (sanitize_choice (pp_taskbar_placement value) TASKBAR_PLACEMENT_CHOICES)
    (sanitize_choice (pp_taskbar_size value) TASKBAR_SIZE_CHOICES)
    (sanitize_choice (pp_taskbar_alignment value) TASKBAR_ALIGNMENT_CHOICES)
    (pp_taskbar_autohide value) (pp_taskbar_translucent value) (pp_taskbar_labels value)
    (pp_clock_seconds value)
    (sanitize_choice (pp_window_offscreen_allowance value) WINDOW_OFFSCREEN_ALLOWANCE_CHOICES)
    (sanitize_choice (pp_window_snap_distance value) WINDOW_SNAP_DISTANCE_CHOICES)
    (pp_window_snap value)
    (sanitize_choice (pp_menu_density value) MENU_DENSITY_CHOICES)
    (sanitize_choice (pp_animation_level value) ANIMATION_LEVEL_CHOICES)
    (sanitize_choice (pp_ui_scale value) UI_SCALE_CHOICES)
    (sanitize_choice (pp_scroll_speed value) SCROLL_SPEED_CHOICES)
    (sanitize_choice (pp_focus_policy value) FOCUS_POLICY_CHOICES)
    (sanitize_choice (pp_window_opacity value) WINDOW_OPACITY_CHOICES)
    (pp_tooltips value) (pp_cursor_shadow value) (pp_notification_animations value).

Definition flag_bit (b : bool) (n : Z) : Z := if b then Z.shiftl 1 n else 0.

Definition customization_flags (value : PersistentPreferences) : Z :=
  Z.lor (flag_bit (pp_taskbar_autohide value) 0) (Z.lor (flag_bit (pp_taskbar_translucent value) 1)
  (Z.lor (flag_bit (pp_taskbar_labels value) 2) (Z.lor (flag_bit (pp_clock_seconds value) 3)
  (Z.lor (flag_bit (pp_window_snap value) 4) (Z.lor (flag_bit (pp_tooltips value) 5)
  (Z.lor (flag_bit (pp_cursor_shadow value) 6) (flag_bit (pp_notification_animations value) 7))))))).

Definition window_layout_byte (value : PersistentPreferences) : Z :=
  Z.lor (Z.shiftl (Z.land (pp_taskbar_placement value) TWO_BIT_FIELD_MASK) 0)
  (Z.lor (Z.shiftl (Z.land (pp_taskbar_alignment value) TWO_BIT_FIELD_MASK) 2)
         (Z.shiftl (Z.land (pp_focus_policy value) TWO_BIT_FIELD_MASK) 4)).

(** The whole record is written, in the order of its offsets. *)
Definition encode_preferences (value : PersistentPreferences) : list Z :=
  [pp_display_mode value; pp_theme value; pp_wallpaper value; pp_cursor_theme value; pp_accent value;
   pp_backdrop value; pp_pointer_speed value] ++ le_bytes 2 (pp_flags value) ++
  DISPLAY_TIMING_TAG ++ [RefreshRate_persisted_id (pp_refresh_rate value); bool_byte (pp_vsync value)] ++
  CUSTOMIZATION_TAG ++
  [pp_font_face value; pp_font_weight value; pp_window_corner_radius value;
   pp_window_border_width value; pp_titlebar_density value; window_layout_byte value;
   pp_taskbar_size value; pp_window_offscreen_allowance value; pp_window_snap_distance value;
   pp_menu_density value; pp_animation_level value; pp_ui_scale value; pp_scroll_speed value;
   customization_flags value; pp_window_opacity value].

Definition customization_value (input : list Z) (present : bool) (offset : nat) (default_ : Z) : Z :=
  if present then byte_at input offset else default_.

Definition has_flag (flags n : Z) : bool := negb (Z.land flags (Z.shiftl 1 n) =? 0).

Definition decode_preferences (input : list Z) : PersistentPreferences :=
  let has_display_timing := slice input 9 3 ==? DISPLAY_TIMING_TAG in
  let refresh_rate :=
    if has_display_timing then default Hz60 (RefreshRate_from_persisted_id (byte_at input 12)) else Hz60 in
  let vsync := if has_display_timing then negb (byte_at input 13 =? 0) else true in
  let defaults := PersistentPreferences_new in
  let has_customization := slice input 14 3 ==? CUSTOMIZATION_TAG in
  let window_layout := if has_customization then byte_at input 22 else 0 in
  let flags := if has_customization then byte_at input 30 else 0 in
  let value offset default_ := customization_value input has_customization offset default_ in
  sanitize_preferences (MkPrefs
    (byte_at input 0) (byte_at input 1) (byte_at input 2) (byte_at input 3) (byte_at input 4)
    (byte_at input 5) (byte_at input 6) (le_value [byte_at input 7; byte_at input 8])
    refresh_rate vsync
    (value 17%nat (pp_font_face defaults)) (value 18%nat (pp_font_weight defaults))
    (value 19%nat (pp_window_corner_radius defaults)) (value 20%nat (pp_window_border_width defaults))
    (value 21%nat (pp_titlebar_density defaults))
    (Z.land (Z.shiftr window_layout 0) TWO_BIT_FIELD_MASK)
    (value 23%nat (pp_taskbar_size defaults))
    (Z.land (Z.shiftr window_layout 2) TWO_BIT_FIELD_MASK)
    (has_flag flags 0) (has_flag flags 1) (has_flag flags 2) (has_flag flags 3)
    (value 24%nat (pp_window_offscreen_allowance defaults))
    (value 25%nat (pp_window_snap_distance defaults))
    (has_flag flags 4)
    (value 26%nat (pp_menu_density defaults)) (value 27%nat (pp_animation_level defaults))
    (value 28%nat (pp_ui_scale defaults)) (value 29%nat (pp_scroll_speed defaults))
    (Z.land (Z.shiftr window_layout 4) TWO_BIT_FIELD_MASK)
    (value 31%nat (pp_window_opacity defaults))
    (has_flag flags 5) (has_flag flags 6) (has_flag flags 7)).

(** ** Accounts *)

Definition encode_account (account : StoredAccount) : list Z :=
  [bool_byte (acc_occupied account); acc_authority account; acc_name_len account; 0] ++
  acc_name account ++ acc_password_salt account ++ acc_password_hash account ++
  le_bytes 4 (acc_kdf_rounds account).

Definition decode_account (input : list Z) : option StoredAccount :=
  let occupied := negb (byte_at input 0 =? 0) in
  let authority := byte_at input 1 in
  let name_len := byte_at input 2 in
  if (1 <? byte_at input 0) || (2 <? authority) || (Z.of_nat ACCOUNT_NAME_CAPACITY <? name_len) ||
     (occupied && ((name_len =? 0) || (get_u32 input 76 =? 0)))
  then None
  else Some (MkAccount (slice input 4 24) name_len (slice input 28 16) (slice input 44 32)
               (get_u32 input 76) authority occupied).

(** ** The two records of the system database *)

Definition encode_expfs_records (data : PersistentData) : list Z * option (list Z) :=
  (encode_preferences (pd_preferences data),
   if pd_accounts_initialized data then Some (mjoin (encode_account <$> pd_accounts data)) else None).

Fixpoint decode_accounts (n : nat) (input : list Z) : option (list StoredAccount) :=
  match n with
  | O => Some []
  | S n' =>
      match decode_account (take ACCOUNT_RECORD_LEN input) with
      | None => None
      | Some account => (cons account) <$> decode_accounts n' (drop ACCOUNT_RECORD_LEN input)
      end
  end.

Definition decode_expfs_records (records : option (list Z) * option (list Z)) : option PersistentData :=
  let (settings, accounts) := records in
  if negb (is_some settings) && negb (is_some accounts) then None
  else
    let data := PersistentData_new in
    let data := match settings with
                | Some settings => data <| pd_preferences := decode_preferences settings |>
                | None => data
                end in
    match accounts with
    | None => Some data
    | Some accounts =>
        (λ accounts, data <| pd_accounts := accounts |> <| pd_accounts_initialized := true |>) <$>
          decode_accounts MAX_STORED_ACCOUNTS accounts
    end.

(** ** Specification *)

(** The values of the Rust fields. *)
Record prefs_typed (p : PersistentPreferences) : Prop := {
  pt_bytes : Forall byte_range
    [pp_display_mode p; pp_theme p; pp_wallpaper p; pp_cursor_theme p; pp_accent p; pp_backdrop p;
     pp_pointer_speed p; pp_font_face p; pp_font_weight p; pp_window_corner_radius p;
     pp_window_border_width p; pp_titlebar_density p; pp_taskbar_placement p; pp_taskbar_size p;
     pp_taskbar_alignment p; pp_window_offscreen_allowance p; pp_window_snap_distance p;
     pp_menu_density p; pp_animation_level p; pp_ui_scale p; pp_scroll_speed p; pp_focus_policy p;
     pp_window_opacity p];
  pt_flags : 0 ≤ pp_flags p < 2 ^ 16 }.

(** Every choice names one of its values. *)
Record prefs_valid (p : PersistentPreferences) : Prop := {
  pv_display_mode : 0 ≤ pp_display_mode p ≤ 2;
  pv_theme : byte_range (pp_theme p);
  pv_wallpaper : 0 ≤ pp_wallpaper p < 252;
  pv_cursor_theme : 0 ≤ pp_cursor_theme p ≤ 3;
  pv_accent : byte_range (pp_accent p);
  pv_backdrop : byte_range (pp_backdrop p);
  pv_pointer_speed : 1 ≤ pp_pointer_speed p ≤ 3;
  pv_flags : 0 ≤ pp_flags p < 2 ^ 16;
  pv_font_face : 0 ≤ pp_font_face p < FONT_FACE_CHOICES;
  pv_font_weight : 0 ≤ pp_font_weight p < FONT_WEIGHT_CHOICES;
  pv_corner : 0 ≤ pp_window_corner_radius p < WINDOW_CORNER_RADIUS_CHOICES;
  pv_border : 0 ≤ pp_window_border_width p < WINDOW_BORDER_WIDTH_CHOICES;
  pv_titlebar : 0 ≤ pp_titlebar_density p < TITLEBAR_DENSITY_CHOICES;
  pv_placement : 0 ≤ pp_taskbar_placement p < TASKBAR_PLACEMENT_CHOICES;
  pv_size : 0 ≤ pp_taskbar_size p < TASKBAR_SIZE_CHOICES;
  pv_alignment : 0 ≤ pp_taskbar_alignment p < TASKBAR_ALIGNMENT_CHOICES;
  pv_offscreen : 0 ≤ pp_window_offscreen_allowance p < WINDOW_OFFSCREEN_ALLOWANCE_CHOICES;
  pv_snap : 0 ≤ pp_window_snap_distance p < WINDOW_SNAP_DISTANCE_CHOICES;
  pv_menu : 0 ≤ pp_menu_density p < MENU_DENSITY_CHOICES;
  pv_animation : 0 ≤ pp_animation_level p < ANIMATION_LEVEL_CHOICES;
  pv_scale : 0 ≤ pp_ui_scale p < UI_SCALE_CHOICES;
  pv_scroll : 0 ≤ pp_scroll_speed p < SCROLL_SPEED_CHOICES;
  pv_focus : 0 ≤ pp_focus_policy p < FOCUS_POLICY_CHOICES;
  pv_opacity : 0 ≤ pp_window_opacity p < WINDOW_OPACITY_CHOICES }.

Record account_typed (a : StoredAccount) : Prop := {
  ao_name : length (acc_name a) = ACCOUNT_NAME_CAPACITY ∧ Forall byte_range (acc_name a);
  ao_len : byte_range (acc_name_len a);
  ao_salt : length (acc_password_salt a) = PASSWORD_SALT_LEN ∧ Forall byte_range (acc_password_salt a);
  ao_hash : length (acc_password_hash a) = PASSWORD_HASH_LEN ∧ Forall byte_range (acc_password_hash a);
  ao_rounds : 0 ≤ acc_kdf_rounds a < 2 ^ 32;
  ao_authority : byte_range (acc_authority a) }.

(** What a record must also satisfy to be read; saving does not ask for it. *)
Definition account_readable (a : StoredAccount) : Prop :=
  acc_name_len a ≤ 24 ∧ acc_authority a ≤ 2 ∧
  (acc_occupied a = true → acc_name_len a ≠ 0 ∧ acc_kdf_rounds a ≠ 0).

Record data_typed (d : PersistentData) : Prop := {
  do_preferences : prefs_valid (pd_preferences d);
  do_accounts : length (pd_accounts d) = MAX_STORED_ACCOUNTS;
  do_account : Forall account_typed (pd_accounts d) }.

(** ** Lemmas *)

Lemma choice_range v n : 0 ≤ v → 0 < n → 0 ≤ sanitize_choice v n < n.
Proof. intros. unfold sanitize_choice. destruct (v <? n) eqn:E; [apply Z.ltb_lt in E|]; lia. Qed.

Lemma choice_id v n : v < n → sanitize_choice v n = v.
Proof. intros H%Z.ltb_lt. unfold sanitize_choice. by rewrite H. Qed.

Lemma land_all v : 0 ≤ v < 2 ^ 16 → Z.land v PREF_ALL = v.
Proof. intros. change PREF_ALL with (Z.ones 16). rewrite Z.land_ones by lia. by apply Z.mod_small. Qed.

Lemma sanitize_valid p : prefs_typed p → prefs_valid (sanitize_preferences p).
Proof.
  intros [Hb Hf]. repeat (apply Forall_cons in Hb as [? Hb]). unfold byte_range in *.
  constructor; cbn [sanitize_preferences pp_display_mode pp_theme pp_wallpaper pp_cursor_theme pp_accent
    pp_backdrop pp_pointer_speed pp_flags pp_font_face pp_font_weight pp_window_corner_radius
    pp_window_border_width pp_titlebar_density pp_taskbar_placement pp_taskbar_size pp_taskbar_alignment
    pp_window_offscreen_allowance pp_window_snap_distance pp_menu_density pp_animation_level pp_ui_scale
    pp_scroll_speed pp_focus_policy pp_window_opacity]; try (by apply choice_range; [lia|]); try done.
  - destruct (_ <=? _) eqn:E; [apply Z.leb_le in E|]; lia.
  - destruct (_ <=? _) eqn:E; [apply Z.leb_le in E|]; lia.
  - destruct (_ && _) eqn:E; bools; lia.
  - by rewrite land_all.
  - unfold sanitize_choice_or, FONT_WEIGHT_CHOICES, DEFAULT_FONT_WEIGHT.
    destruct (_ <? _) eqn:E; [apply Z.ltb_lt in E|]; lia.
Qed.

Lemma sanitize_id p : prefs_valid p → sanitize_preferences p = p.
Proof.
  intros []. destruct p. unfold sanitize_preferences. cbn in *. unfold WALLPAPER_VARIANT_CHOICES.
  rewrite !choice_id by lia. rewrite land_all by done.
  unfold sanitize_choice_or. rewrite !(proj2 (Z.leb_le _ _)), !(proj2 (Z.ltb_lt _ _)) by lia. done.
Qed.

(** The two bytes that pack several choices. *)
Lemma window_layout_fields p :
  prefs_valid p →
  let b := window_layout_byte p in
  Z.land (Z.shiftr b 0) TWO_BIT_FIELD_MASK = pp_taskbar_placement p ∧
  Z.land (Z.shiftr b 2) TWO_BIT_FIELD_MASK = pp_taskbar_alignment p ∧
  Z.land (Z.shiftr b 4) TWO_BIT_FIELD_MASK = pp_focus_policy p.
Proof.
  intros Hp. pose proof (pv_placement p Hp) as H1. pose proof (pv_alignment p Hp) as H2.
  pose proof (pv_focus p Hp) as H3. unfold window_layout_byte, TASKBAR_PLACEMENT_CHOICES,
    TASKBAR_ALIGNMENT_CHOICES, FOCUS_POLICY_CHOICES in *. clear Hp.
  revert H1 H2 H3. generalize (pp_taskbar_placement p) (pp_taskbar_alignment p) (pp_focus_policy p).
  intros a b c Ha Hb Hc.
  assert (a = 0 ∨ a = 1 ∨ a = 2 ∨ a = 3) as [-> | [-> | [-> | ->]]] by lia;
    (assert (b = 0 ∨ b = 1 ∨ b = 2) as [-> | [-> | ->]] by lia);
    (assert (c = 0 ∨ c = 1 ∨ c = 2) as [-> | [-> | ->]] by lia); done.
Qed.

Lemma customization_flags_fields p :
  let f := customization_flags p in
  has_flag f 0 = pp_taskbar_autohide p ∧ has_flag f 1 = pp_taskbar_translucent p ∧
  has_flag f 2 = pp_taskbar_labels p ∧ has_flag f 3 = pp_clock_seconds p ∧
  has_flag f 4 = pp_window_snap p ∧ has_flag f 5 = pp_tooltips p ∧
  has_flag f 6 = pp_cursor_shadow p ∧ has_flag f 7 = pp_notification_animations p.
Proof.
  unfold customization_flags. destruct (pp_taskbar_autohide p), (pp_taskbar_translucent p),
    (pp_taskbar_labels p), (pp_clock_seconds p), (pp_window_snap p), (pp_tooltips p),
    (pp_cursor_shadow p), (pp_notification_animations p); done.
Qed.

Lemma refresh_rate_roundtrip r : RefreshRate_from_persisted_id (RefreshRate_persisted_id r) = Some r.
Proof. by destruct r. Qed.

Lemma preferences_roundtrip p : prefs_valid p → decode_preferences (encode_preferences p) = p.
Proof.
  intros Hp. rewrite <- (sanitize_id p Hp) at 2. unfold decode_preferences. f_equal.
  destruct (window_layout_fields p Hp) as (L1 & L2 & L3).
  destruct (customization_flags_fields p) as (F1 & F2 & F3 & F4 & F5 & F6 & F7 & F8).
  assert (le_value (le_bytes 2 (pp_flags p)) = pp_flags p) as Ef.
  { rewrite le_value_bytes. apply Z.mod_small, Hp. }
  change (slice (encode_preferences p) 9 3) with DISPLAY_TIMING_TAG.
  change (slice (encode_preferences p) 14 3) with CUSTOMIZATION_TAG.
  rewrite !bool_decide_true by done. unfold customization_value.
  change (byte_at (encode_preferences p) 22) with (window_layout_byte p).
  change (byte_at (encode_preferences p) 30) with (customization_flags p).
  change [byte_at (encode_preferences p) 7; byte_at (encode_preferences p) 8] with (le_bytes 2 (pp_flags p)).
  change (byte_at (encode_preferences p) 12) with (RefreshRate_persisted_id (pp_refresh_rate p)).
  change (byte_at (encode_preferences p) 13) with (bool_byte (pp_vsync p)).
  rewrite L1, L2, L3, F1, F2, F3, F4, F5, F6, F7, F8, Ef, refresh_rate_roundtrip.
  replace (negb (bool_byte (pp_vsync p) =? 0)) with (pp_vsync p) by (by destruct (pp_vsync p)).
  by destruct p.
Qed.

Lemma length_encode_preferences p : length (encode_preferences p) = SETTINGS_RECORD_CAPACITY.
Proof. done. Qed.

Lemma length_encode_account a : account_typed a → length (encode_account a) = ACCOUNT_RECORD_LEN.
Proof.
  intros [[Hn _] _ [Hs _] [Hh _] _ _]. unfold encode_account.
  rewrite !length_app, Hn, Hs, Hh, le_bytes_length. done.
Qed.

Lemma slice_next {A} (x y : list A) i n : length x = n → (n ≤ i)%nat →
  ∀ k, slice (x ++ y) i k = slice y (i - n) k.
Proof. intros <- Hi k. unfold slice. by rewrite drop_app_ge. Qed.

Lemma slice_here {A} (x y : list A) n : length x = n → slice (x ++ y) 0 n = x.
Proof. intros <-. unfold slice. by rewrite drop_0, take_app_length. Qed.

(** The fields of an account record. *)
Lemma account_fields (h name salt hash rounds : list Z) :
  length h = 4%nat → length name = 24%nat → length salt = 16%nat → length hash = 32%nat →
  length rounds = 4%nat →
  let input := h ++ name ++ salt ++ hash ++ rounds in
  slice input 4 24 = name ∧ slice input 28 16 = salt ∧ slice input 44 32 = hash ∧ slice input 76 4 = rounds.
Proof.
  intros Hh Hn Hs Hp Hr input. unfold input. split_and!.
  - rewrite (slice_next h _ 4 4) by (done || lia). by apply slice_here.
  - rewrite (slice_next h _ 28 4), (slice_next name _ _ 24) by (done || lia). by apply slice_here.
  - rewrite (slice_next h _ 44 4), (slice_next name _ _ 24), (slice_next salt _ _ 16) by (done || lia).
    by apply slice_here.
  - rewrite (slice_next h _ 76 4), (slice_next name _ _ 24), (slice_next salt _ _ 16),
      (slice_next hash _ _ 32) by (done || lia). unfold slice. rewrite drop_0. by apply take_ge; rewrite Hr.
Qed.

Lemma account_roundtrip a : account_typed a → account_readable a → decode_account (encode_account a) = Some a.
Proof.
  intros [[Hn _] _ [Hs _] [Hh _] Hr _] (Hl & Ha & Ho). destruct a as [name len salt hash rounds auth occ].
  cbn [acc_name acc_name_len acc_password_salt acc_password_hash acc_kdf_rounds acc_authority
    acc_occupied] in *. unfold decode_account, encode_account.
  cbn [acc_name acc_name_len acc_password_salt acc_password_hash acc_kdf_rounds acc_authority acc_occupied].
  destruct (account_fields [bool_byte occ; auth; len; 0] name salt hash (le_bytes 4 rounds)) as (E1 & E2 & E3 & E4);
    [done..|apply le_bytes_length|].
  set (input := [bool_byte occ; auth; len; 0] ++ _) in *.
  assert (get_u32 input 76 = rounds) as Er.
  { unfold get_u32. rewrite E4, le_value_bytes. by apply Z.mod_small. }
  rewrite Er, E1, E2, E3. change (byte_at input 0) with (bool_byte occ).
  change (byte_at input 1) with auth. change (byte_at input 2) with len.
  replace (negb (bool_byte occ =? 0)) with occ by (by destruct occ).
  rewrite (proj2 (Z.ltb_ge 2 auth)), (proj2 (Z.ltb_ge _ len)) by (unfold ACCOUNT_NAME_CAPACITY; lia).
  replace (1 <? bool_byte occ) with false by (by destruct occ). cbn [orb].
  destruct occ; [|done]. destruct Ho as [H1%Z.eqb_neq H2%Z.eqb_neq]; [done|]. by rewrite H1, H2.
Qed.

(** What is read is readable. *)
Lemma decode_account_readable input a : decode_account input = Some a → account_readable a.
Proof.
  unfold decode_account. destruct (_ || _) eqn:E; [done|]. intros [= <-]. unfold account_readable, ACCOUNT_NAME_CAPACITY in *.
  cbn [acc_name_len acc_authority acc_occupied acc_kdf_rounds]. apply orb_false_iff in E as [E Eo]. bools.
  split_and!; [lia..|]. intros Ho. rewrite Ho in Eo. cbn in Eo. bools. done.
Qed.

Lemma decode_accounts_readable n input l : decode_accounts n input = Some l → Forall account_readable l.
Proof.
  revert input l. induction n as [|n IH]; intros input l E; cbn in E; [by injection E as <-|].
  destruct (decode_account _) as [a|] eqn:Ea; [|done]. apply fmap_Some in E as (l' & El & ->).
  constructor; [by eapply decode_account_readable|by eapply IH].
Qed.

Lemma new_readable : Forall account_readable (pd_accounts PersistentData_new).
Proof. by repeat constructor. Qed.

Lemma records_readable records d : decode_expfs_records records = Some d → Forall account_readable (pd_accounts d).
Proof.
  destruct records as [settings accounts]. unfold decode_expfs_records. destruct (_ && _); [done|].
  destruct accounts as [accounts|].
  - intros (l & El & ->)%fmap_Some. by eapply decode_accounts_readable.
  - intros [= <-]. destruct settings; apply new_readable.
Qed.

Lemma accounts_roundtrip l :
  Forall account_typed l → Forall account_readable l →
  decode_accounts (length l) (mjoin (encode_account <$> l)) = Some l.
Proof.
  induction 1 as [|a l Ha Hl IH]; intros Hr; [done|]. inversion Hr as [|? ? Hra Hrl]; subst. rewrite fmap_cons. cbn [length decode_accounts].
  change (mjoin (encode_account a :: (encode_account <$> l))) with
    (encode_account a ++ mjoin (encode_account <$> l)).
  rewrite <- (length_encode_account a Ha), take_app_length, drop_app_length, account_roundtrip by done.
  by rewrite IH.
Qed.

(** What is committed for a state decodes to the state. *)
Lemma records_roundtrip d :
  data_typed d → Forall account_readable (pd_accounts d) →
  (pd_accounts_initialized d = false → pd_accounts d = pd_accounts PersistentData_new) →
  decode_expfs_records (Some (encode_expfs_records d).1, (encode_expfs_records d).2) = Some d.
Proof.
  intros [Hp Hl Ha] Hr Hn. destruct d as [init prefs accounts]. cbn in Hp, Hl, Ha, Hr, Hn.
  unfold encode_expfs_records, decode_expfs_records.
  cbn [pd_preferences pd_accounts pd_accounts_initialized fst snd is_some negb andb].
  rewrite preferences_roundtrip by done. destruct init.
  - rewrite <- Hl, accounts_roundtrip by done. done.
  - by rewrite Hn.
Qed.
