(* ===== verification/GenesisPlan.v ===== *)
(** * The installation plan and manifest

    The two sectors that describe an installation (kernel/src/genesis.rs): the
    manifest with the identity of the CFC, its operator and the wrapped storage
    key, and the plan with Dimensions, users, packages and policy.  Both are
    written by offset into a zeroed sector and end in a checksum. *)

From stdpp Require Import prelude list strings.
From Stdlib Require Import ZArith Lia.
From S2P Require Import Prelude Identity Bytes Crypto StoreCodec Records.

Set Default Goal Selector "!".
Open Scope Z_scope.
Open Scope expos_scope.

(** ** Data *)

Definition MANIFEST_LBA : Z := 40.
Definition MANIFEST_BACKUP_LBA : Z := 41.
Definition PLAN_LBA : Z := 42.
Definition PLAN_BACKUP_LBA : Z := 43.
Definition MANIFEST_MAGIC : list Z := lit "EXGEN001".
Definition MANIFEST_VERSION : Z := 4.
Definition PLAN_MAGIC : list Z := lit "EXPLAN02".
Definition PLAN_VERSION : Z := 1.
Definition MAX_GENESIS_DIMENSIONS : nat := 5.
Definition MAX_GENESIS_USERS : nat := 2.
Definition COMPONENT_DESKTOP : Z := Z.shiftl 1 0.
Definition COMPONENT_BROWSER : Z := Z.shiftl 1 1.
Definition COMPONENT_PYTHON : Z := Z.shiftl 1 2.
Definition DRIVER_NETWORK : Z := Z.shiftl 1 0.
Definition SDK_RUST : Z := Z.shiftl 1 0.
Definition SDK_C : Z := Z.shiftl 1 1.
Definition SDK_GO : Z := Z.shiftl 1 2.
Definition SDK_PYTHON : Z := Z.shiftl 1 3.
Definition STORAGE_ARGON2_MEMORY_KIB : Z := 65536.
Definition STORAGE_ARGON2_PASSES : Z := 3.
Definition STORAGE_ARGON2_LANES : Z := 1.
Definition STORAGE_PARANOID_ARGON2_PASSES : Z := 6.

Inductive EncryptionProfile := Unencrypted | Easy | Paranoid.
Inductive GraphicsProfile := GfxAutomatic | GfxVirtioGpu | GfxCompatibleFramebuffer.
Inductive RenderProfile := Efficient | Balanced | Responsive.
Inductive Locale := English | Russian | Hebrew | German | Esperanto.

#[export] Instance EncryptionProfile_eq_dec : EqDecision EncryptionProfile.
Proof. solve_decision. Defined.
#[export] Instance GraphicsProfile_eq_dec : EqDecision GraphicsProfile.
Proof. solve_decision. Defined.
#[export] Instance RenderProfile_eq_dec : EqDecision RenderProfile.
Proof. solve_decision. Defined.
#[export] Instance Locale_eq_dec : EqDecision Locale.
Proof. solve_decision. Defined.

Definition EncryptionProfile_persisted (self : EncryptionProfile) : Z :=
  match self with Unencrypted => 0 | Easy => 1 | Paranoid => 2 end.
Definition EncryptionProfile_from_persisted (value : Z) : option EncryptionProfile :=
  if value =? 0 then Some Unencrypted else if value =? 1 then Some Easy
  else if value =? 2 then Some Paranoid else None.
Definition EncryptionProfile_argon2_passes (self : EncryptionProfile) : Z :=
  match self with Paranoid => STORAGE_PARANOID_ARGON2_PASSES | _ => STORAGE_ARGON2_PASSES end.

Definition GraphicsProfile_as_u8 (self : GraphicsProfile) : Z :=
  match self with GfxAutomatic => 0 | GfxVirtioGpu => 1 | GfxCompatibleFramebuffer => 2 end.
Definition GraphicsProfile_from_persisted (value : Z) : option GraphicsProfile :=
  if value =? 0 then Some GfxAutomatic else if value =? 1 then Some GfxVirtioGpu
  else if value =? 2 then Some GfxCompatibleFramebuffer else None.

Definition RenderProfile_as_u8 (self : RenderProfile) : Z :=
  match self with Efficient => 0 | Balanced => 1 | Responsive => 2 end.
Definition RenderProfile_from_persisted (value : Z) : option RenderProfile :=
  if value =? 0 then Some Efficient else if value =? 1 then Some Balanced
  else if value =? 2 then Some Responsive else None.

Definition Locale_persisted (self : Locale) : Z :=
  match self with English => 0 | Russian => 1 | Hebrew => 2 | German => 3 | Esperanto => 4 end.
Definition Locale_from_persisted (value : Z) : Locale :=
  if value =? 1 then Russian else if value =? 2 then Hebrew else if value =? 3 then German
  else if value =? 4 then Esperanto else English.

(** [DisplayMode::from_persisted(value)?.persisted()] *)
Definition display_mode_checked (value : Z) : option Z :=
  if (0 <=? value) && (value <=? 2) then Some value else None.

Record GenesisDimension := MkGenDim { gd_fin : Fin; gd_name : Text }.

#[export] Instance GenesisDimension_eq_dec : EqDecision GenesisDimension.
Proof. solve_decision. Defined.

(** [session::StoredGenesisAccount] wraps the account. *)
Record GenesisPlan := MkPlan {
  gp_secondary_dimensions : slots GenesisDimension; gp_secondary_accounts : slots StoredAccount;
  gp_initial_apps : Z; gp_components : Z; gp_sdks : Z; gp_drivers : Z;
  gp_encryption : EncryptionProfile; gp_graphics : GraphicsProfile; gp_display_mode : Z;
  gp_render_profile : RenderProfile }.

#[export] Instance GenesisPlan_eq_dec : EqDecision GenesisPlan.
Proof. solve_decision. Defined.

Definition GenesisPlan_standard (encryption : EncryptionProfile) : GenesisPlan :=
  MkPlan (empty_slots GenesisDimension MAX_GENESIS_DIMENSIONS) (empty_slots StoredAccount MAX_GENESIS_USERS)
    0 (Z.lor COMPONENT_DESKTOP (Z.lor COMPONENT_BROWSER COMPONENT_PYTHON)) 0 DRIVER_NETWORK
    encryption GfxAutomatic 1 Balanced.

Definition has_bits (value mask : Z) : bool := negb (Z.land value mask =? 0).

Definition GenesisPlan_network_allowed (self : GenesisPlan) : bool :=
  has_bits (gp_drivers self) DRIVER_NETWORK && (gp_encryption self !=? Paranoid).
Definition GenesisPlan_python_allowed (self : GenesisPlan) : bool :=
  has_bits (gp_components self) COMPONENT_PYTHON && (gp_encryption self !=? Paranoid).
Definition GenesisPlan_browser_allowed (self : GenesisPlan) : bool :=
  has_bits (gp_components self) COMPONENT_BROWSER && (gp_encryption self !=? Paranoid).

Definition GenesisPlan_initial_preferences (self : GenesisPlan) : PersistentPreferences :=
  let d := PersistentPreferences_new in
  let responsive := gp_render_profile self ==? Responsive in
  MkPrefs (gp_display_mode self) (pp_theme d) (pp_wallpaper d) (pp_cursor_theme d) (pp_accent d)
    (pp_backdrop d) (pp_pointer_speed d)
    (if responsive then Z.lor (pp_flags d) PREF_RESPONSIVE_PRESENTATION else pp_flags d)
    (pp_refresh_rate d) (if responsive then false else pp_vsync d) (pp_font_face d) (pp_font_weight d)
    (pp_window_corner_radius d) (pp_window_border_width d) (pp_titlebar_density d)
    (pp_taskbar_placement d) (pp_taskbar_size d) (pp_taskbar_alignment d) (pp_taskbar_autohide d)
    (pp_taskbar_translucent d) (pp_taskbar_labels d) (pp_clock_seconds d)
    (pp_window_offscreen_allowance d) (pp_window_snap_distance d) (pp_window_snap d)
    (pp_menu_density d)
    (match gp_render_profile self with Efficient => 0 | Balanced | Responsive => 1 end)
    (pp_ui_scale d) (pp_scroll_speed d) (pp_focus_policy d) (pp_window_opacity d) (pp_tooltips d)
    (pp_cursor_shadow d) (pp_notification_animations d).

Record StorageEnvelope := MkEnvelope {
  se_salt : list Z; se_nonce : list Z; se_wrapped_key : list Z; se_tag : list Z;
  se_memory_kib : Z; se_passes : Z; se_lanes : Z }.

#[export] Instance StorageEnvelope_eq_dec : EqDecision StorageEnvelope.
Proof. solve_decision. Defined.

Record GenesisConfig := MkConfig {
  gc_cfc_fin : CfcFin; gc_cfc_name : Text; gc_primary_fin : Fin; gc_primary_name : Text;
  gc_operator : StoredAccount; gc_locale : Locale; gc_plan : GenesisPlan;
  gc_storage_key : option (list Z); gc_storage_envelope : option StorageEnvelope;
  gc_plan_required : bool }.

#[export] Instance GenesisConfig_eq_dec : EqDecision GenesisConfig.
Proof. solve_decision. Defined.

Definition GenesisConfig_eta (c : GenesisConfig) : GenesisConfig :=
  MkConfig (gc_cfc_fin c) (gc_cfc_name c) (gc_primary_fin c) (gc_primary_name c) (gc_operator c)
    (gc_locale c) (gc_plan c) (gc_storage_key c) (gc_storage_envelope c) (gc_plan_required c).
#[export] Instance set_gc_plan : Setter gc_plan := ltac:(build_setter GenesisConfig_eta).
#[export] Instance set_gc_storage_key : Setter gc_storage_key := ltac:(build_setter GenesisConfig_eta).

(** ** Fields of a sector *)

Definition sector_put_text (sector : list Z) (offset : nat) (text : Text) : list Z :=
  let bytes := Text_as_str text in
  splice (splice sector offset [Zlength bytes]) (offset + 1) bytes.

(** [Text::new] refuses every text that is not ASCII, whether or not it is UTF-8. *)
Definition sector_get_text (sector : list Z) (offset : nat) : option Text :=
  let len := byte_at sector offset in
  if (len =? 0) || (32 <? len) then None
  else match Text_new (slice sector (offset + 1) (Z.to_nat len)) with
       | Ok text => Some text
       | Err _ => None
       end.

Definition sealed_sector (sector : list Z) : list Z :=
  splice sector 508 (le_bytes 4 (crc32 (take 508 sector))).

(** ** The plan *)

Definition PLAN_DIMENSION_OFFSET : nat := 32.
Definition PLAN_DIMENSION_BYTES : nat := 49.
Definition PLAN_ACCOUNT_OFFSET : nat := 288.
Definition PLAN_ACCOUNT_BYTES : nat := 79.

Definition encode_plan_account (account : StoredAccount) : list Z :=
  [acc_name_len account] ++ acc_name account ++ acc_password_salt account ++ acc_password_hash account ++
  le_bytes 4 (acc_kdf_rounds account) ++ [acc_authority account; bool_byte (acc_occupied account)].

Fixpoint put_dimensions (sector : list Z) (index : nat) (dimensions : list GenesisDimension) : list Z :=
  match dimensions with
  | [] => sector
  | dimension :: rest =>
      let offset := (PLAN_DIMENSION_OFFSET + index * PLAN_DIMENSION_BYTES)%nat in
      let sector := splice sector offset (Fin_bytes (gd_fin dimension)) in
      put_dimensions (sector_put_text sector (offset + 16) (gd_name dimension)) (S index) rest
  end.

Fixpoint put_accounts (sector : list Z) (index : nat) (accounts : list StoredAccount) : list Z :=
  match accounts with
  | [] => sector
  | account :: rest =>
      let offset := (PLAN_ACCOUNT_OFFSET + index * PLAN_ACCOUNT_BYTES)%nat in
      put_accounts (splice sector offset (encode_plan_account account)) (S index) rest
  end.

Definition encode_plan (plan : GenesisPlan) : list Z :=
  let dimensions := flatten (gp_secondary_dimensions plan) in
  let accounts := flatten (gp_secondary_accounts plan) in
  let sector := replicate 512 0 in
  let sector := splice sector 0 PLAN_MAGIC in
  let sector := splice sector 8 (le_bytes 2 PLAN_VERSION) in
  let sector := splice sector 10 [EncryptionProfile_persisted (gp_encryption plan)] in
  let sector := splice sector 11 [gp_components plan] in
  let sector := splice sector 12 [gp_drivers plan] in
  let sector := splice sector 13 [gp_sdks plan] in
  let sector := splice sector 14 [Zlength dimensions] in
  let sector := splice sector 15 [Zlength accounts] in
  let sector := splice sector 16 (le_bytes 4 (gp_initial_apps plan)) in
  let sector := splice sector 20 [GraphicsProfile_as_u8 (gp_graphics plan)] in
  let sector := splice sector 21 [gp_display_mode plan] in
  let sector := splice sector 22 [RenderProfile_as_u8 (gp_render_profile plan)] in
  let sector := put_dimensions sector 0 dimensions in
  let sector := put_accounts sector 0 accounts in
  sealed_sector sector.

Definition account_name (account : StoredAccount) : list Z :=
  take (Z.to_nat (acc_name_len account)) (acc_name account).

Definition name_byte_ok (byte : Z) : bool :=
  ((97 <=? byte) && (byte <=? 122)) || ((48 <=? byte) && (byte <=? 57)) || (byte =? 45) || (byte =? 95).

Definition decode_plan_account (input : list Z) : option StoredAccount :=
  if (length input !=? PLAN_ACCOUNT_BYTES) then None
  else
    let name_len := byte_at input 0 in
    let name := slice input 1 (Z.to_nat (Z.min name_len 24)) in
    let kdf_rounds := get_u32 input 73 in
    if negb ((2 <=? name_len) && (name_len <=? 16)) || negb (forallb name_byte_ok name) ||
       (name ==? lit "operator") || negb ((1000 <=? kdf_rounds) && (kdf_rounds <=? 250000)) ||
       negb ((byte_at input 77 =? 1) || (byte_at input 77 =? 2)) || (byte_at input 78 !=? 1)
    then None
    else Some (MkAccount (slice input 1 24) name_len (slice input 25 16) (slice input 41 32) kdf_rounds
                 (byte_at input 77) true).

(** The two loops of [decode_plan]; [acc] holds what was read so far. *)
Fixpoint get_dimensions (sector : list Z) (index n : nat) (acc : list GenesisDimension)
    : option (list GenesisDimension) :=
  match n with
  | O => Some acc
  | S n' =>
      let offset := (PLAN_DIMENSION_OFFSET + index * PLAN_DIMENSION_BYTES)%nat in
      let fin := Fin_from_u128 (be_value (slice sector offset 16)) in
      if Fin_is_zero fin then None
      else match sector_get_text sector (offset + 16) with
      | None => None
      | Some name =>
          if existsb (λ dimension, (gd_fin dimension ==? fin) || (gd_name dimension ==? name)) acc then None
          else get_dimensions sector (S index) n' (acc ++ [MkGenDim fin name])
      end
  end.

Fixpoint get_accounts (sector : list Z) (index n : nat) (acc : list StoredAccount)
    : option (list StoredAccount) :=
  match n with
  | O => Some acc
  | S n' =>
      let start := (PLAN_ACCOUNT_OFFSET + index * PLAN_ACCOUNT_BYTES)%nat in
      match decode_plan_account (slice sector start PLAN_ACCOUNT_BYTES) with
      | None => None
      | Some account =>
          if existsb (λ existing, account_name existing ==? account_name account) acc then None
          else get_accounts sector (S index) n' (acc ++ [account])
      end
  end.

(** [array[..n]] filled from the front, the rest [None]. *)
Definition front_slots {A} (n : nat) (l : list A) : slots A := (Some <$> l) ++ replicate (n - length l) None.

(** [!mask] of a [u8]. *)
Definition u8_not (mask : Z) : Z := Z.lxor 255 mask.

Definition decode_plan (sector : list Z) : option GenesisPlan :=
  if (take 8 sector !=? PLAN_MAGIC) || (le_value [byte_at sector 8; byte_at sector 9] !=? PLAN_VERSION) ||
     (crc32 (take 508 sector) !=? get_u32 sector 508)
  then None
  else match EncryptionProfile_from_persisted (byte_at sector 10),
             GraphicsProfile_from_persisted (byte_at sector 20),
             display_mode_checked (byte_at sector 21),
             RenderProfile_from_persisted (byte_at sector 22) with
  | Some encryption, Some graphics, Some display_mode, Some render_profile =>
      let components := byte_at sector 11 in
      let drivers := byte_at sector 12 in
      let sdks := byte_at sector 13 in
      let dimension_count := byte_at sector 14 in
      let account_count := byte_at sector 15 in
      if (Z.of_nat MAX_GENESIS_DIMENSIONS <? dimension_count) ||
         (Z.of_nat MAX_GENESIS_USERS <? account_count) ||
         has_bits components (u8_not (Z.lor COMPONENT_DESKTOP (Z.lor COMPONENT_BROWSER COMPONENT_PYTHON))) ||
         has_bits drivers (u8_not DRIVER_NETWORK) ||
         has_bits sdks (u8_not (Z.lor SDK_RUST (Z.lor SDK_C (Z.lor SDK_GO SDK_PYTHON)))) ||
         ((encryption ==? Paranoid) &&
          (has_bits drivers DRIVER_NETWORK ||
           has_bits components (Z.lor COMPONENT_BROWSER COMPONENT_PYTHON)))
      then None
      else match get_dimensions sector 0 (Z.to_nat dimension_count) [] with
      | None => None
      | Some dimensions =>
          match get_accounts sector 0 (Z.to_nat account_count) [] with
          | None => None
          | Some accounts =>
              Some (MkPlan (front_slots MAX_GENESIS_DIMENSIONS dimensions)
                      (front_slots MAX_GENESIS_USERS accounts) (get_u32 sector 16) components sdks
                      drivers encryption graphics display_mode render_profile)
          end
      end
  | _, _, _, _ => None
  end.

(** ** The manifest *)

Definition put_account_fields (sector : list Z) (account : StoredAccount) : list Z :=
  let sector := splice sector 114 [acc_name_len account] in
  let sector := splice sector 115 (acc_name account) in
  let sector := splice sector 139 (acc_password_salt account) in
  let sector := splice sector 155 (acc_password_hash account) in
  let sector := splice sector 187 (le_bytes 4 (acc_kdf_rounds account)) in
  let sector := splice sector 191 [acc_authority account] in
  splice sector 192 [bool_byte (acc_occupied account)].

Definition put_envelope (sector : list Z) (envelope : StorageEnvelope) : list Z :=
  let sector := splice sector 193 (se_salt envelope) in
  let sector := splice sector 209 (se_nonce envelope) in
  let sector := splice sector 233 (se_wrapped_key envelope) in
  let sector := splice sector 265 (se_tag envelope) in
  let sector := splice sector 281 (le_bytes 4 (se_memory_kib envelope)) in
  let sector := splice sector 285 (le_bytes 4 (se_passes envelope)) in
  let sector := splice sector 289 [se_lanes envelope mod 256] in
  splice sector 290 [1].

Definition encode_manifest (config : GenesisConfig) : list Z :=
  let sector := replicate 512 0 in
  let sector := splice sector 0 MANIFEST_MAGIC in
  let sector := splice sector 8 (le_bytes 2 MANIFEST_VERSION) in
  let sector := splice sector 10 [if is_some (gc_storage_envelope config) then 1 else 2] in
  let sector := splice sector 11 [bool_byte (is_some (gc_storage_envelope config))] in
  let sector := splice sector 12 [Locale_persisted (gc_locale config)] in
  let sector := splice sector 13 [bool_byte (gc_plan_required config)] in
  let sector := splice sector 16 (CfcFin_bytes (gc_cfc_fin config)) in
  let sector := splice sector 32 (Fin_bytes (gc_primary_fin config)) in
  let sector := sector_put_text sector 48 (gc_cfc_name config) in
  let sector := sector_put_text sector 81 (gc_primary_name config) in
  let sector := put_account_fields sector (gc_operator config) in
  let sector := match gc_storage_envelope config with
                | Some envelope => put_envelope sector envelope
                | None => sector
                end in
  sealed_sector sector.

(** [Some None]: no envelope; [None]: the manifest is refused. *)
Definition decode_envelope (sector : list Z) (version : Z) : option (option StorageEnvelope) :=
  if (2 <=? version) && (byte_at sector 11 =? 1) then
    let memory_kib := get_u32 sector 281 in
    let passes := get_u32 sector 285 in
    let lanes := byte_at sector 289 in
    if (byte_at sector 10 !=? 1) || (memory_kib !=? STORAGE_ARGON2_MEMORY_KIB) ||
       negb ((passes =? STORAGE_ARGON2_PASSES) || (passes =? STORAGE_PARANOID_ARGON2_PASSES)) ||
       (lanes !=? STORAGE_ARGON2_LANES) || (byte_at sector 290 !=? 1)
    then None
    else Some (Some (MkEnvelope (slice sector 193 16) (slice sector 209 24) (slice sector 233 32)
                       (slice sector 265 16) memory_kib passes lanes))
  else if byte_at sector 11 =? 0 then Some None else None.

Definition decode_manifest (sector : list Z) : option GenesisConfig :=
  let version := le_value [byte_at sector 8; byte_at sector 9] in
  if (take 8 sector !=? MANIFEST_MAGIC) || negb ((1 <=? version) && (version <=? MANIFEST_VERSION)) ||
     (crc32 (take 508 sector) !=? get_u32 sector 508)
  then None
  else
    let cfc_fin := CfcFin_from_u128 (be_value (slice sector 16 16)) in
    let primary_fin := Fin_from_u128 (be_value (slice sector 32 16)) in
    if CfcFin_is_zero cfc_fin || Fin_is_zero primary_fin then None
    else match sector_get_text sector 48, sector_get_text sector 81 with
    | Some cfc_name, Some primary_name =>
        let account := MkAccount (slice sector 115 24) (byte_at sector 114) (slice sector 139 16)
                         (slice sector 155 32) (get_u32 sector 187) (byte_at sector 191)
                         (byte_at sector 192 =? 1) in
        match decode_envelope sector version with
        | None => None
        | Some storage_envelope =>
            Some (MkConfig cfc_fin cfc_name primary_fin primary_name account
                    (if 3 <=? version then Locale_from_persisted (byte_at sector 12) else English)
                    (GenesisPlan_standard (if is_some storage_envelope then Easy else Unencrypted))
                    None storage_envelope ((4 <=? version) && (byte_at sector 13 =? 1)))
        end
    | _, _ => None
    end.
