(* ===== verification/GenesisCodec.v ===== *)
(** * The installation records read back

    The plan and the manifest of kernel/src/genesis.rs are one sector each, written
    field by field and closed by a checksum.  A manifest that the installer
    can produce decodes to itself, and a plan does exactly when its Dimensions are
    distinct. *)

From stdpp Require Import prelude list strings.
From Stdlib Require Import ZArith Lia.
From S2P Require Import Prelude Identity Bytes Crypto StoreCodec StoreRoundtrip Records GenesisPlan.

Set Default Goal Selector "!".
Open Scope Z_scope.
Open Scope expos_scope.

(** ** Specification *)

Record plan_account_ok (a : StoredAccount) : Prop := {
  pa_name : length (acc_name a) = 24%nat ∧ Forall byte_range (acc_name a);
  pa_len : 2 ≤ acc_name_len a ≤ 16;
  pa_chars : forallb name_byte_ok (account_name a) = true;
  pa_not_operator : account_name a ≠ lit "operator";
  pa_salt : length (acc_password_salt a) = 16%nat ∧ Forall byte_range (acc_password_salt a);
  pa_hash : length (acc_password_hash a) = 32%nat ∧ Forall byte_range (acc_password_hash a);
  pa_rounds : 1000 ≤ acc_kdf_rounds a ≤ 250000;
  pa_authority : acc_authority a = 1 ∨ acc_authority a = 2;
  pa_occupied : acc_occupied a = true }.

Record plan_dimension_ok (d : GenesisDimension) : Prop := {
  pd_fin : fin_ok (gd_fin d);
  pd_nonzero : Fin_is_zero (gd_fin d) = false;
  pd_name : text_ok (gd_name d) }.

(** Dimensions a plan can be read back with; [prompt_dimensions] does not compare names. *)
Definition distinct (dimensions : list GenesisDimension) : Prop :=
  NoDup (gd_fin <$> dimensions) ∧ NoDup (gd_name <$> dimensions).
#[export] Instance distinct_dec dimensions : Decision (distinct dimensions).
Proof. unfold distinct. apply _. Defined.

(** The plans the installer can produce. *)
Record plan_ok (plan : GenesisPlan) (dimensions : list GenesisDimension) (accounts : list StoredAccount) : Prop := {
  pk_dimensions : gp_secondary_dimensions plan = front_slots MAX_GENESIS_DIMENSIONS dimensions;
  pk_dimension_count : (length dimensions ≤ MAX_GENESIS_DIMENSIONS)%nat;
  pk_dimension : ∀ d, d ∈ dimensions → plan_dimension_ok d;
  pk_accounts : gp_secondary_accounts plan = front_slots MAX_GENESIS_USERS accounts;
  pk_account_count : (length accounts ≤ MAX_GENESIS_USERS)%nat;
  pk_account : ∀ a, a ∈ accounts → plan_account_ok a;
  pk_account_names : NoDup (account_name <$> accounts);
  pk_apps : 0 ≤ gp_initial_apps plan < 2 ^ 32;
  pk_components : 0 ≤ gp_components plan < 8;
  pk_drivers : 0 ≤ gp_drivers plan < 2;
  pk_sdks : 0 ≤ gp_sdks plan < 16;
  pk_display : 0 ≤ gp_display_mode plan ≤ 2;
  pk_paranoid : gp_encryption plan = Paranoid →
    has_bits (gp_drivers plan) DRIVER_NETWORK = false ∧
    has_bits (gp_components plan) (Z.lor COMPONENT_BROWSER COMPONENT_PYTHON) = false }.

(** ** Lemmas: fields *)

(** A byte is a field of length one. *)
Lemma byte_at_head (l : list Z) i : byte_at l i = default 0 (head (slice l i 1)).
Proof.
  unfold slice, byte_at. pose proof (lookup_drop l i 0) as E. rewrite Nat.add_0_r in E. rewrite <- E.
  by destruct (drop i l).
Qed.

Lemma byte_at_slice (l l' : list Z) i : slice l i 1 = slice l' i 1 → byte_at l i = byte_at l' i.
Proof. intros E. by rewrite !byte_at_head, E. Qed.

Lemma byte_at_splice_before (l d : list Z) o i :
  (o ≤ length l)%nat → (i < o)%nat → byte_at (splice l o d) i = byte_at l i.
Proof. intros. apply byte_at_slice, slice_splice_before; lia. Qed.

Lemma byte_at_splice_after (l d : list Z) o i :
  (o + length d ≤ length l)%nat → (o + length d ≤ i)%nat → byte_at (splice l o d) i = byte_at l i.
Proof. intros. by apply byte_at_slice, slice_splice_after. Qed.

Lemma byte_at_splice_same (l : list Z) o b : (o < length l)%nat → byte_at (splice l o [b]) o = b.
Proof.
  intros Hl. unfold byte_at, splice. rewrite lookup_app_r by (rewrite length_take; lia).
  rewrite length_take, Nat.min_l, Nat.sub_diag by lia. done.
Qed.

(** The rest of the sector is as it was. *)
Definition untouched (l l' : list Z) (lo hi : nat) : Prop :=
  length l' = length l ∧ (∀ i n, (i + n ≤ lo)%nat ∨ (hi ≤ i)%nat → slice l' i n = slice l i n).

Lemma untouched_splice l o d : (o + length d ≤ length l)%nat → untouched l (splice l o d) o (o + length d).
Proof.
  intros Hl. split; [by apply length_splice|].
  intros i n [Hi|Hi]; [apply slice_splice_before; lia|by apply slice_splice_after].
Qed.

Lemma untouched_refl l lo hi : untouched l l lo hi.
Proof. done. Qed.

Lemma untouched_trans l1 l2 l3 lo hi lo1 hi1 lo2 hi2 :
  untouched l1 l2 lo1 hi1 → untouched l2 l3 lo2 hi2 →
  (lo ≤ lo1)%nat → (lo ≤ lo2)%nat → (hi1 ≤ hi)%nat → (hi2 ≤ hi)%nat → untouched l1 l3 lo hi.
Proof.
  intros [L1 H1] [L2 H2] ? ? ? ?. split; [congruence|]. intros i n Hi. rewrite H2, H1 by lia. done.
Qed.

Lemma untouched_byte l l' lo hi i : untouched l l' lo hi → (i < lo)%nat ∨ (hi ≤ i)%nat → byte_at l' i = byte_at l i.
Proof. intros [_ Hu] Hi. apply byte_at_slice, Hu. lia. Qed.

(** ** Lemmas: names *)

Lemma text_length t : text_ok t → (1 ≤ length (Text_as_str t) ≤ 32)%nat.
Proof.
  intros (s & _ & Hs). rewrite (Text_as_str_new _ _ Hs). apply Text_new_Ok in Hs as (Hne & Hl & _).
  unfold TEXT_CAPACITY in Hl. destruct s; [done|]. cbn [length] in *. lia.
Qed.

Lemma put_text_untouched l o t :
  text_ok t → (o + 33 ≤ length l)%nat → untouched l (sector_put_text l o t) o (o + 33).
Proof.
  intros Ht%text_length Hl. unfold sector_put_text.
  assert (length (splice l o [Zlength (Text_as_str t)]) = length l) as E by (apply length_splice; cbn; lia).
  pose proof (untouched_splice l o [Zlength (Text_as_str t)] ltac:(cbn [length]; lia)) as H1.
  pose proof (untouched_splice _ (o + 1) (Text_as_str t) (ltac:(rewrite E; lia) :
    (o + 1 + length (Text_as_str t) ≤ length (splice l o [Zlength (Text_as_str t)]))%nat)) as H2.
  apply (untouched_trans _ _ _ _ _ _ _ _ _ H1 H2); cbn [length]; lia.
Qed.

Lemma get_put_text l o t :
  text_ok t → (o + 33 ≤ length l)%nat → sector_get_text (sector_put_text l o t) o = Some t.
Proof.
  intros Ht Hl. pose proof (text_length t Ht) as Hn. unfold sector_get_text, sector_put_text.
  set (l1 := splice l o [Zlength (Text_as_str t)]).
  assert (length l1 = length l) as E by (apply length_splice; cbn; lia).
  rewrite byte_at_splice_before by lia. unfold l1 at 1 2 4. rewrite byte_at_splice_same by lia.
  unfold Zlength. rewrite (proj2 (Z.eqb_neq _ _)), (proj2 (Z.ltb_ge _ _)) by lia. cbn [orb].
  rewrite Nat2Z.id, slice_splice_same by (done || lia). by rewrite Text_new_as_str.
Qed.

(** Reading a name depends on its 33 bytes. *)
Lemma get_text_same l l' o : slice l o 33 = slice l' o 33 → sector_get_text l o = sector_get_text l' o.
Proof.
  intros E. unfold sector_get_text.
  assert (∀ i n, (i + n ≤ 33)%nat → slice l (o + i) n = slice l' (o + i) n) as Hs.
  { intros i n Hi. assert (∀ k : list Z, slice k (o + i) n = slice (slice k o 33) i n) as Hk.
    { intros k. unfold slice. rewrite skipn_firstn_comm, take_take, drop_drop. f_equal. lia. }
    by rewrite !Hk, E. }
  assert (byte_at l o = byte_at l' o) as ->.
  { apply byte_at_slice. rewrite <- (Nat.add_0_r o). apply Hs. lia. }
  destruct (Z.eqb_spec (byte_at l' o) 0); [done|]. destruct (Z.ltb_spec 32 (byte_at l' o)); [done|].
  cbn [orb]. rewrite Hs by lia. done.
Qed.

(** ** Lemmas: the tables of the plan *)

(** Two sectors agree between two offsets. *)
Definition same_between (l l' : list Z) (lo hi : nat) : Prop :=
  ∀ i n, (lo ≤ i)%nat → (i + n ≤ hi)%nat → slice l i n = slice l' i n.

Lemma same_after_untouched l l' lo hi a b :
  untouched l l' lo hi → (b ≤ lo)%nat ∨ (hi ≤ a)%nat → same_between l' l a b.
Proof. intros [_ Hu] Hb i n Hi Hn. apply Hu. lia. Qed.

Lemma same_trans l1 l2 l3 lo hi : same_between l1 l2 lo hi → same_between l2 l3 lo hi → same_between l1 l3 lo hi.
Proof. intros H1 H2 i n Hi Hn. by rewrite H1, H2. Qed.

Lemma same_shrink l l' lo hi lo' hi' :
  same_between l l' lo hi → (lo ≤ lo')%nat → (hi' ≤ hi)%nat → same_between l l' lo' hi'.
Proof. intros Hs ? ? i n Hi Hn. apply Hs; lia. Qed.

(** One dimension, at [o]. *)
Definition put_dimension_at (l : list Z) (o : nat) (d : GenesisDimension) : list Z :=
  sector_put_text (splice l o (Fin_bytes (gd_fin d))) (o + 16) (gd_name d).

Lemma put_dimension_untouched l o d :
  plan_dimension_ok d → (o + 49 ≤ length l)%nat → untouched l (put_dimension_at l o d) o (o + 49).
Proof.
  intros [[Hf _] _ Ht] Hl. unfold put_dimension_at.
  pose proof (untouched_splice l o (Fin_bytes (gd_fin d)) ltac:(lia)) as H1.
  assert (length (splice l o (Fin_bytes (gd_fin d))) = length l) as E by apply H1.
  pose proof (put_text_untouched (splice l o (Fin_bytes (gd_fin d))) (o + 16) (gd_name d) Ht ltac:(lia)) as H2.
  apply (untouched_trans _ _ _ _ _ _ _ _ _ H1 H2); lia.
Qed.

Lemma get_put_dimension l o d S :
  plan_dimension_ok d → (o + 49 ≤ length l)%nat → same_between S (put_dimension_at l o d) o (o + 49) →
  Fin_from_u128 (be_value (slice S o 16)) = gd_fin d ∧ sector_get_text S (o + 16) = Some (gd_name d).
Proof.
  intros [Hf _ Ht] Hl HS. pose proof Hf as [Hfl _].
  assert (length (splice l o (Fin_bytes (gd_fin d))) = length l) as E by (apply length_splice; lia).
  pose proof (put_text_untouched (splice l o (Fin_bytes (gd_fin d))) (o + 16) (gd_name d) Ht ltac:(lia)) as [_ Hu].
  split.
  - rewrite HS by lia. unfold put_dimension_at. rewrite Hu by lia.
    rewrite slice_splice_same by lia. by apply fin_bytes_value.
  - rewrite (get_text_same S (put_dimension_at l o d)) by (apply HS; lia). apply get_put_text; [done|lia].
Qed.

Lemma put_dimensions_untouched l k ds :
  (∀ d, d ∈ ds → plan_dimension_ok d) → (32 + (k + length ds) * 49 ≤ length l)%nat →
  untouched l (put_dimensions l k ds) (32 + k * 49) (32 + (k + length ds) * 49).
Proof.
  revert l k. induction ds as [|d ds IH]; intros l k Hd Hl; [apply untouched_refl|].
  cbn [put_dimensions length] in *. unfold PLAN_DIMENSION_OFFSET, PLAN_DIMENSION_BYTES.
  fold (put_dimension_at l (32 + k * 49) d).
  pose proof (put_dimension_untouched l (32 + k * 49) d (Hd d ltac:(by left)) ltac:(lia)) as H1.
  assert (length (put_dimension_at l (32 + k * 49) d) = length l) as E by apply H1.
  pose proof (IH (put_dimension_at l (32 + k * 49) d) (S k) ltac:(intros x Hx; apply Hd; by right) ltac:(lia)) as H2.
  apply (untouched_trans _ _ _ _ _ _ _ _ _ H1 H2); lia.
Qed.

Lemma existsb_none {X} (f : X → bool) l : (∀ x, x ∈ l → f x = false) → existsb f l = false.
Proof.
  induction l as [|x l IH]; intros Hf; [done|]. cbn. rewrite Hf by (by left). apply IH. intros y Hy.
  apply Hf. by right.
Qed.

(** The comparison with the Dimensions read before. *)
Lemma distinct_snoc acc d :
  distinct acc →
  distinct (acc ++ [d]) ↔
  existsb (λ dimension, (gd_fin dimension ==? gd_fin d) || (gd_name dimension ==? gd_name d)) acc = false.
Proof.
  intros [Hf Hn]. unfold distinct. rewrite !fmap_app, !NoDup_app. split.
  - intros ((_ & Df & _) & (_ & Dn & _)). apply existsb_none. intros x Hx. apply orb_false_iff.
    split; apply bool_decide_eq_false; intros Ex.
    + apply (Df (gd_fin x)); [by apply list_elem_of_fmap_2|]. rewrite Ex. by left.
    + apply (Dn (gd_name x)); [by apply list_elem_of_fmap_2|]. rewrite Ex. by left.
  - intros He. rewrite existsb_elem_false in He. split_and!; try done; try apply NoDup_singleton;
      intros y (x & -> & Hx)%list_elem_of_fmap Hy%list_elem_of_singleton; specialize (He x Hx);
      apply orb_false_iff in He as [H1%bool_decide_eq_false H2%bool_decide_eq_false]; done.
Qed.

Lemma distinct_prefix acc ds : distinct (acc ++ ds) → distinct acc.
Proof. unfold distinct. rewrite !fmap_app, !NoDup_app. tauto. Qed.

Lemma get_put_dimensions l k ds acc S :
  (∀ d, d ∈ ds → plan_dimension_ok d) → distinct acc →
  (32 + (k + length ds) * 49 ≤ length l)%nat →
  same_between S (put_dimensions l k ds) (32 + k * 49) (32 + (k + length ds) * 49) →
  get_dimensions S k (length ds) acc = if decide (distinct (acc ++ ds)) then Some (acc ++ ds) else None.
Proof.
  revert l k acc. induction ds as [|d ds IH]; intros l k acc Hd Hf Hl HS.
  { rewrite app_nil_r. by rewrite decide_True. }
  cbn [put_dimensions length get_dimensions] in *. unfold PLAN_DIMENSION_OFFSET, PLAN_DIMENSION_BYTES in *.
  set (o := (32 + k * 49)%nat) in *. fold (put_dimension_at l o d) in HS.
  assert (plan_dimension_ok d) as Hok by (apply Hd; by left).
  assert (∀ x, x ∈ ds → plan_dimension_ok x) as Hds by (intros x Hx; apply Hd; by right).
  assert (length (put_dimension_at l o d) = length l) as E by (apply (put_dimension_untouched l o d); [done|lia]).
  destruct (get_put_dimension l o d S Hok) as [E1 E2]; [lia| |].
  { eapply same_trans; [eapply same_shrink; [exact HS|lia|lia]|].
    eapply same_after_untouched; [apply put_dimensions_untouched; [done|lia]|]. lia. }
  rewrite E1, E2, (pd_nonzero d Hok). pose proof (distinct_snoc acc d Hf) as Hs.
  replace (acc ++ d :: ds) with ((acc ++ [d]) ++ ds) by (by rewrite <- app_assoc). destruct (existsb _ acc).
  - rewrite decide_False; [done|]. intros Hx%distinct_prefix%Hs. done.
  - replace (MkGenDim (gd_fin d) (gd_name d)) with d by (by destruct d).
    apply (IH (put_dimension_at l o d) (Datatypes.S k)); [done|by apply Hs|lia|].
    eapply same_shrink; [exact HS|lia|lia].
Qed.

(** One account, at [o]. *)
Lemma length_plan_account a : plan_account_ok a → length (encode_plan_account a) = 79%nat.
Proof.
  intros [[Hn _] _ _ _ [Hs _] [Hh _] _ _ _]. unfold encode_plan_account.
  rewrite !length_app, Hn, Hs, Hh, le_bytes_length. done.
Qed.

(** The fields of an encoded account. *)
Record account_fields (e : list Z) (a : StoredAccount) : Prop := {
  af_len : byte_at e 0 = acc_name_len a;
  af_name : ∀ n, (n ≤ 24)%nat → slice e 1 n = take n (acc_name a);
  af_salt : slice e 25 16 = acc_password_salt a;
  af_hash : slice e 41 32 = acc_password_hash a;
  af_rounds : get_u32 e 73 = acc_kdf_rounds a;
  af_authority : byte_at e 77 = acc_authority a;
  af_occupied : byte_at e 78 = bool_byte (acc_occupied a) }.

Lemma encode_account_fields a :
  length (acc_name a) = 24%nat → length (acc_password_salt a) = 16%nat →
  length (acc_password_hash a) = 32%nat → 0 ≤ acc_kdf_rounds a < 2 ^ 32 →
  account_fields (encode_plan_account a) a.
Proof.
  intros Hn Hs Hh Hr. unfold encode_plan_account. constructor.
  - done.
  - intros n Hle. unfold slice. rewrite drop_app_ge by (cbn; lia). cbn [length Nat.sub drop]. apply take_app_le. lia.
  - rewrite app_assoc. unfold slice. rewrite drop_app_length' by (rewrite length_app, Hn; done).
    rewrite <- Hs. apply take_app_length.
  - rewrite !app_assoc, <- !app_assoc, 2!app_assoc. unfold slice.
    rewrite drop_app_length' by (rewrite !length_app, Hn, Hs; done). rewrite <- Hh. apply take_app_length.
  - unfold get_u32. rewrite !app_assoc, <- (app_assoc _ (le_bytes 4 _)). unfold slice.
    rewrite drop_app_length' by (rewrite !length_app, Hn, Hs, Hh; done).
    replace 4%nat with (length (le_bytes 4 (acc_kdf_rounds a))) at 1 by apply le_bytes_length.
    rewrite take_app_length, le_value_bytes. apply Z.mod_small. exact Hr.
  - unfold byte_at. rewrite !app_assoc.
    rewrite lookup_app_r by (rewrite !length_app, Hn, Hs, Hh, le_bytes_length; cbn; lia).
    rewrite !length_app, Hn, Hs, Hh, le_bytes_length. done.
  - unfold byte_at. rewrite !app_assoc.
    rewrite lookup_app_r by (rewrite !length_app, Hn, Hs, Hh, le_bytes_length; cbn; lia).
    rewrite !length_app, Hn, Hs, Hh, le_bytes_length. done.
Qed.

Lemma plan_account_roundtrip a : plan_account_ok a → decode_plan_account (encode_plan_account a) = Some a.
Proof.
  intros Hok. pose proof (length_plan_account a Hok) as Hl. destruct Hok as [[Hn _] Hlen Hc Hop [Hs _] [Hh _] Hr Ha Ho].
  destruct (encode_account_fields a Hn Hs Hh ltac:(lia)) as [F1 F2 F3 F4 F5 F6 F7].
  unfold decode_plan_account. rewrite Hl, bool_decide_true by done. cbn [negb].
  rewrite F1, F3, F4, F5, F6, F7, !F2 by lia. rewrite (take_ge (acc_name a) 24), Z.min_l by lia.
  fold (account_name a). rewrite Hc, (bool_decide_false _ Hop).
  destruct (Z.leb_spec 2 (acc_name_len a)), (Z.leb_spec (acc_name_len a) 16); try lia.
  destruct (Z.leb_spec 1000 (acc_kdf_rounds a)), (Z.leb_spec (acc_kdf_rounds a) 250000); try lia.
  assert ((acc_authority a =? 1) || (acc_authority a =? 2) = true) as -> by lia.
  cbn. destruct a; cbn in *; by subst.
Qed.

Lemma put_accounts_untouched l k accounts :
  (∀ a, a ∈ accounts → plan_account_ok a) → (288 + (k + length accounts) * 79 ≤ length l)%nat →
  untouched l (put_accounts l k accounts) (288 + k * 79) (288 + (k + length accounts) * 79).
Proof.
  revert l k. induction accounts as [|a accounts IH]; intros l k Ha Hl; [apply untouched_refl|].
  cbn [put_accounts length] in *. unfold PLAN_ACCOUNT_OFFSET, PLAN_ACCOUNT_BYTES.
  pose proof (length_plan_account a (Ha a ltac:(by left))) as Ea.
  pose proof (untouched_splice l (288 + k * 79) (encode_plan_account a) ltac:(lia)) as H1.
  assert (length (splice l (288 + k * 79) (encode_plan_account a)) = length l) as E by apply H1.
  pose proof (IH (splice l (288 + k * 79) (encode_plan_account a)) (S k)
    ltac:(intros x Hx; apply Ha; by right) ltac:(lia)) as H2.
  apply (untouched_trans _ _ _ _ _ _ _ _ _ H1 H2); lia.
Qed.

Lemma get_put_accounts l k accounts acc S :
  (∀ a, a ∈ accounts → plan_account_ok a) → NoDup (account_name <$> acc ++ accounts) →
  (288 + (k + length accounts) * 79 ≤ length l)%nat →
  same_between S (put_accounts l k accounts) (288 + k * 79) (288 + (k + length accounts) * 79) →
  get_accounts S k (length accounts) acc = Some (acc ++ accounts).
Proof.
  revert l k acc. induction accounts as [|a accounts IH]; intros l k acc Ha Hn Hl HS.
  { by rewrite app_nil_r. }
  cbn [put_accounts length get_accounts] in *. unfold PLAN_ACCOUNT_OFFSET, PLAN_ACCOUNT_BYTES in *.
  set (o := (288 + k * 79)%nat) in *.
  assert (plan_account_ok a) as Hok by (apply Ha; by left).
  assert (∀ x, x ∈ accounts → plan_account_ok x) as Has by (intros x Hx; apply Ha; by right).
  pose proof (length_plan_account a Hok) as Ea.
  assert (length (splice l o (encode_plan_account a)) = length l) as E by (apply length_splice; lia).
  assert (slice S o 79 = encode_plan_account a) as ->.
  { rewrite HS by lia. destruct (put_accounts_untouched (splice l o (encode_plan_account a)) (Datatypes.S k) accounts
      Has ltac:(lia)) as [_ Hu]. rewrite Hu by lia. apply slice_splice_same; lia. }
  rewrite plan_account_roundtrip by done. rewrite existsb_none.
  - rewrite (IH (splice l o (encode_plan_account a)) (Datatypes.S k)); [by rewrite <- app_assoc|done|by rewrite <- app_assoc|lia|].
    eapply same_shrink; [exact HS|lia|lia].
  - intros x Hx. rewrite fmap_app in Hn. apply NoDup_app in Hn as (_ & Hn & _).
    apply bool_decide_eq_false. intros Ex. apply (Hn (account_name x)); [by apply list_elem_of_fmap_2|].
    rewrite Ex. cbn. by left.
Qed.

(** ** Lemmas: checksums and ranges *)

Lemma put_text_range l o t : text_ok t → Forall byte_range l → Forall byte_range (sector_put_text l o t).
Proof.
  intros Ht Hl. pose proof (text_range t Ht) as Hr. unfold text_bytes in Hr. apply Forall_cons in Hr as [H1 H2].
  unfold sector_put_text. apply splice_range; [apply splice_range; [done|by constructor]|].
  unfold filled in H2. by apply Forall_app in H2 as [H2 _].
Qed.

Lemma put_dimensions_range l k ds :
  (∀ d, d ∈ ds → plan_dimension_ok d) → Forall byte_range l → Forall byte_range (put_dimensions l k ds).
Proof.
  revert l k. induction ds as [|d ds IH]; intros l k Hd Hl; [done|]. cbn [put_dimensions].
  destruct (Hd d ltac:(by left)) as [[_ Hf] _ Ht].
  apply IH; [intros x Hx; apply Hd; by right|]. apply put_text_range; [done|by apply splice_range].
Qed.

Lemma plan_account_range a : plan_account_ok a → Forall byte_range (encode_plan_account a).
Proof.
  intros [[_ Hn] Hl _ _ [_ Hs] [_ Hh] _ Ha _]. unfold encode_plan_account.
  repeat (apply Forall_app; split); try done; [..|apply le_bytes_range|]; repeat constructor;
    unfold byte_range; try lia; apply bool_byte_range.
Qed.

Lemma put_accounts_range l k accounts :
  (∀ a, a ∈ accounts → plan_account_ok a) → Forall byte_range l → Forall byte_range (put_accounts l k accounts).
Proof.
  revert l k. induction accounts as [|a accounts IH]; intros l k Ha Hl; [done|]. cbn [put_accounts].
  apply IH; [intros x Hx; apply Ha; by right|]. apply splice_range; [done|]. apply plan_account_range, Ha. by left.
Qed.

(** A sealed sector passes its checksum and keeps its fields. *)
Lemma sealed_spec l :
  length l = 512%nat → Forall byte_range l →
  crc32 (take 508 (sealed_sector l)) = get_u32 (sealed_sector l) 508 ∧ untouched l (sealed_sector l) 508 512.
Proof.
  intros Hl Hr. unfold sealed_sector. set (c := le_bytes 4 (crc32 (take 508 l))).
  assert (length c = 4%nat) as Hc by apply le_bytes_length.
  pose proof (untouched_splice l 508 c ltac:(lia)) as Hu. rewrite Hc in Hu. split; [|exact Hu].
  unfold get_u32. rewrite slice_splice_same by lia. unfold c at 2. rewrite le_value_bytes, Z.mod_small.
  - f_equal. destruct Hu as [_ Hu]. specialize (Hu 0%nat 508%nat ltac:(lia)). unfold slice in Hu.
    by rewrite !drop_0 in Hu.
  - apply crc32_word. by apply Forall_take.
Qed.

Lemma flatten_front {X} n (l : list X) : flatten (front_slots n l) = l.
Proof.
  unfold front_slots. rewrite flatten_app. change (replicate _ None) with (empty_slots X (n - length l)).
  rewrite flatten_empty, app_nil_r. induction l as [|x l IH]; [done|]. cbn. by f_equal.
Qed.

(** ** The plan *)

(** The bytes before the tables. *)
Definition plan_head (plan : GenesisPlan) (dimensions accounts : Z) : list Z :=
  PLAN_MAGIC ++ le_bytes 2 PLAN_VERSION ++
  [EncryptionProfile_persisted (gp_encryption plan); gp_components plan; gp_drivers plan; gp_sdks plan;
   dimensions; accounts] ++ le_bytes 4 (gp_initial_apps plan) ++
  [GraphicsProfile_as_u8 (gp_graphics plan); gp_display_mode plan; RenderProfile_as_u8 (gp_render_profile plan)].

Lemma plan_head_eq plan n m :
  (let sector := replicate 512 0 in
   let sector := splice sector 0 PLAN_MAGIC in
   let sector := splice sector 8 (le_bytes 2 PLAN_VERSION) in
   let sector := splice sector 10 [EncryptionProfile_persisted (gp_encryption plan)] in
   let sector := splice sector 11 [gp_components plan] in
   let sector := splice sector 12 [gp_drivers plan] in
   let sector := splice sector 13 [gp_sdks plan] in
   let sector := splice sector 14 [n] in
   let sector := splice sector 15 [m] in
   let sector := splice sector 16 (le_bytes 4 (gp_initial_apps plan)) in
   let sector := splice sector 20 [GraphicsProfile_as_u8 (gp_graphics plan)] in
   let sector := splice sector 21 [gp_display_mode plan] in
   splice sector 22 [RenderProfile_as_u8 (gp_render_profile plan)]) =
  plan_head plan n m ++ replicate 489 0.
Proof. reflexivity. Qed.

Lemma encode_plan_eq plan dimensions accounts :
  plan_ok plan dimensions accounts →
  encode_plan plan = sealed_sector (put_accounts (put_dimensions
    (plan_head plan (Zlength dimensions) (Zlength accounts) ++ replicate 489 0) 0 dimensions) 0 accounts).
Proof.
  intros Hok. unfold encode_plan. rewrite (pk_dimensions _ _ _ Hok), (pk_accounts _ _ _ Hok), !flatten_front.
  cbv zeta. f_equal.
Qed.

Lemma plan_sector plan dimensions accounts :
  plan_ok plan dimensions accounts →
  let head := plan_head plan (Zlength dimensions) (Zlength accounts) ++ replicate 489 0 in
  let body := put_dimensions head 0 dimensions in
  let sector := encode_plan plan in
  length sector = 512%nat ∧ Forall byte_range sector ∧
  crc32 (take 508 sector) = get_u32 sector 508 ∧ same_between sector head 0 32 ∧
  same_between sector body 32 (32 + length dimensions * 49) ∧
  same_between sector (put_accounts body 0 accounts) 288 (288 + length accounts * 79).
Proof.
  intros Hok head body sector. unfold sector. rewrite (encode_plan_eq _ _ _ Hok). fold head body.
  pose proof (pk_dimension_count _ _ _ Hok) as Hd. pose proof (pk_account_count _ _ _ Hok) as Ha.
  unfold MAX_GENESIS_DIMENSIONS, MAX_GENESIS_USERS in *.
  assert (length head = 512%nat) as Lh by reflexivity.
  assert (Forall byte_range head) as Rh.
  { destruct Hok. unfold head, plan_head, Zlength.
    repeat (apply Forall_app; split); try apply le_bytes_range; try (by apply Forall_replicate);
      repeat constructor; unfold byte_range; try lia; destruct (gp_encryption plan), (gp_graphics plan),
        (gp_render_profile plan); cbn; lia. }
  pose proof (put_dimensions_untouched head 0 dimensions (pk_dimension _ _ _ Hok) ltac:(lia)) as U1. fold body in U1.
  assert (length body = 512%nat) as Lb by (rewrite <- Lh; apply U1).
  pose proof (put_accounts_untouched body 0 accounts (pk_account _ _ _ Hok) ltac:(lia)) as U2.
  set (full := put_accounts body 0 accounts) in *.
  assert (length full = 512%nat) as Lf by (rewrite <- Lb; apply U2).
  assert (Forall byte_range full) as Rf.
  { apply put_accounts_range; [apply Hok|]. apply put_dimensions_range; [apply Hok|done]. }
  destruct (sealed_spec full Lf Rf) as [Ec U3]. split_and!; [by rewrite <- Lf; apply U3| |done|..].
  - apply splice_range; [done|apply le_bytes_range].
  - eapply same_trans; [eapply same_after_untouched; [exact U3|lia]|].
    eapply same_trans; [eapply same_after_untouched; [exact U2|lia]|].
    eapply same_after_untouched; [exact U1|lia].
  - eapply same_trans; [eapply same_after_untouched; [exact U3|lia]|].
    eapply same_after_untouched; [exact U2|lia].
  - eapply same_after_untouched; [exact U3|lia].
Qed.

Lemma has_bits_small v mask n : 0 ≤ v < 2 ^ n → 0 ≤ n → Z.land (Z.ones n) mask = 0 → has_bits v mask = false.
Proof.
  intros Hv Hn Hm. unfold has_bits. rewrite <- (Z.mod_small v (2 ^ n)), <- Z.land_ones by lia.
  by rewrite <- Z.land_assoc, Hm, Z.land_0_r.
Qed.

Lemma plan_decodes plan dimensions accounts :
  plan_ok plan dimensions accounts →
  decode_plan (encode_plan plan) = if decide (distinct dimensions) then Some plan else None.
Proof.
  intros Hok. destruct (plan_sector _ _ _ Hok) as (_ & _ & Hc & Hh & Hd & Ha). cbv zeta in *.
  set (S := encode_plan plan) in *. set (head := plan_head _ _ _ ++ _) in *.
  assert (∀ i, (i < 32)%nat → byte_at S i = byte_at head i) as Hb by (intros i Hi; apply byte_at_slice, Hh; lia).
  assert (take 8 S = PLAN_MAGIC) as Em.
  { specialize (Hh 0%nat 8%nat ltac:(lia) ltac:(lia)). unfold slice in Hh. rewrite !drop_0 in Hh. exact Hh. }
  assert (get_u32 S 16 = gp_initial_apps plan) as Ea.
  { unfold get_u32. rewrite Hh by lia. change (slice head 16 4) with (le_bytes 4 (gp_initial_apps plan)).
    rewrite le_value_bytes. apply Z.mod_small, Hok. }
  pose proof (pk_dimension_count _ _ _ Hok) as Hdc. pose proof (pk_account_count _ _ _ Hok) as Hac.
  unfold MAX_GENESIS_DIMENSIONS, MAX_GENESIS_USERS in *.
  unfold decode_plan. rewrite Em, Hc, !Hb, !bool_decide_true by (done || lia). cbn [negb orb].
  change (byte_at head 10) with (EncryptionProfile_persisted (gp_encryption plan)).
  change (byte_at head 11) with (gp_components plan). change (byte_at head 12) with (gp_drivers plan).
  change (byte_at head 13) with (gp_sdks plan). change (byte_at head 14) with (Zlength dimensions).
  change (byte_at head 15) with (Zlength accounts).
  change (byte_at head 20) with (GraphicsProfile_as_u8 (gp_graphics plan)).
  change (byte_at head 21) with (gp_display_mode plan).
  change (byte_at head 22) with (RenderProfile_as_u8 (gp_render_profile plan)).
  assert (EncryptionProfile_from_persisted (EncryptionProfile_persisted (gp_encryption plan)) = Some (gp_encryption plan))
    as -> by (by destruct (gp_encryption plan)).
  assert (GraphicsProfile_from_persisted (GraphicsProfile_as_u8 (gp_graphics plan)) = Some (gp_graphics plan))
    as -> by (by destruct (gp_graphics plan)).
  assert (RenderProfile_from_persisted (RenderProfile_as_u8 (gp_render_profile plan)) = Some (gp_render_profile plan))
    as -> by (by destruct (gp_render_profile plan)).
  assert (display_mode_checked (gp_display_mode plan) = Some (gp_display_mode plan)) as ->.
  { unfold display_mode_checked. pose proof (pk_display _ _ _ Hok). destruct (_ && _) eqn:E; [done|lia]. }
  unfold Zlength, MAX_GENESIS_DIMENSIONS, MAX_GENESIS_USERS.
  rewrite (proj2 (Z.ltb_ge (Z.of_nat 5) _)), (proj2 (Z.ltb_ge (Z.of_nat 2) _)) by lia.
  rewrite (has_bits_small (gp_components plan) _ 3), (has_bits_small (gp_drivers plan) (u8_not _) 1),
    (has_bits_small (gp_sdks plan) _ 4) by (apply Hok || done || lia).
  assert ((gp_encryption plan ==? Paranoid) && (has_bits (gp_drivers plan) DRIVER_NETWORK ||
    has_bits (gp_components plan) (Z.lor COMPONENT_BROWSER COMPONENT_PYTHON)) = false) as ->.
  { case_bool_decide as Ep; [|done]. by destruct (pk_paranoid _ _ _ Hok Ep) as [-> ->]. }
  cbn [orb]. rewrite !Nat2Z.id.
  assert (length head = 512%nat) as Lh by reflexivity.
  rewrite (get_put_dimensions head 0 dimensions [] S); [|apply Hok|by split; constructor|lia|done].
  cbn [app]. case_decide; [|done]. rewrite (get_put_accounts (put_dimensions head 0 dimensions) 0 accounts [] S); [|apply Hok|apply Hok| |done].
  - rewrite Ea. cbn [app]. pose proof (pk_dimensions _ _ _ Hok) as E1. pose proof (pk_accounts _ _ _ Hok) as E2.
    unfold MAX_GENESIS_DIMENSIONS, MAX_GENESIS_USERS in *. rewrite <- E1, <- E2. by destruct plan.
  - destruct (put_dimensions_untouched head 0 dimensions (pk_dimension _ _ _ Hok) ltac:(lia)) as [-> _]. lia.
Qed.

(** ** The manifest *)

Record envelope_ok (e : StorageEnvelope) : Prop := {
  eo_salt : length (se_salt e) = 16%nat ∧ Forall byte_range (se_salt e);
  eo_nonce : length (se_nonce e) = 24%nat ∧ Forall byte_range (se_nonce e);
  eo_key : length (se_wrapped_key e) = 32%nat ∧ Forall byte_range (se_wrapped_key e);
  eo_tag : length (se_tag e) = 16%nat ∧ Forall byte_range (se_tag e);
  eo_memory : se_memory_kib e = STORAGE_ARGON2_MEMORY_KIB;
  eo_passes : se_passes e = STORAGE_ARGON2_PASSES ∨ se_passes e = STORAGE_PARANOID_ARGON2_PASSES;
  eo_lanes : se_lanes e = STORAGE_ARGON2_LANES }.

Record operator_ok (a : StoredAccount) : Prop := {
  op_name : length (acc_name a) = 24%nat ∧ Forall byte_range (acc_name a);
  op_len : byte_range (acc_name_len a);
  op_salt : length (acc_password_salt a) = 16%nat ∧ Forall byte_range (acc_password_salt a);
  op_hash : length (acc_password_hash a) = 32%nat ∧ Forall byte_range (acc_password_hash a);
  op_rounds : 0 ≤ acc_kdf_rounds a < 2 ^ 32;
  op_authority : byte_range (acc_authority a) }.

(** The configurations the installer writes. *)
Record config_ok (c : GenesisConfig) : Prop := {
  co_cfc : cfc_ok (gc_cfc_fin c);
  co_cfc_nonzero : CfcFin_is_zero (gc_cfc_fin c) = false;
  co_cfc_name : text_ok (gc_cfc_name c);
  co_primary : fin_ok (gc_primary_fin c);
  co_primary_nonzero : Fin_is_zero (gc_primary_fin c) = false;
  co_primary_name : text_ok (gc_primary_name c);
  co_operator : operator_ok (gc_operator c);
  co_envelope : ∀ e, gc_storage_envelope c = Some e → envelope_ok e }.

(** What the manifest alone says of a configuration: not the plan, not the key. *)
Definition manifest_of (c : GenesisConfig) : GenesisConfig :=
  c <| gc_plan := GenesisPlan_standard (if is_some (gc_storage_envelope c) then Easy else Unencrypted) |>
    <| gc_storage_key := None |>.

Definition envelope_bytes (e : StorageEnvelope) : list Z :=
  se_salt e ++ se_nonce e ++ se_wrapped_key e ++ se_tag e ++ le_bytes 4 (se_memory_kib e) ++
  le_bytes 4 (se_passes e) ++ [se_lanes e mod 256; 1].

Lemma put_account_fields_eq l a :
  operator_ok a → length l = 512%nat → put_account_fields l a = splice l 114 (encode_plan_account a).
Proof.
  intros [[Hn _] _ [Hs _] [Hh _] _ _] Hl. unfold put_account_fields, encode_plan_account.
  pose proof (le_bytes_length 4 (acc_kdf_rounds a)) as Hk.
  change [acc_authority a; bool_byte (acc_occupied a)] with ([acc_authority a] ++ [bool_byte (acc_occupied a)]).
  rewrite !app_assoc.
  rewrite <- !splice_splice by (rewrite ?length_app, ?Hn, ?Hs, ?Hh, ?Hk, Hl; cbn [length]; lia).
  rewrite !length_app, Hn, Hs, Hh, Hk. reflexivity.
Qed.

Lemma put_envelope_eq l e :
  envelope_ok e → length l = 512%nat → put_envelope l e = splice l 193 (envelope_bytes e).
Proof.
  intros [[Hs _] [Hn _] [Hk _] [Ht _] _ _ _] Hl. unfold put_envelope, envelope_bytes.
  pose proof (le_bytes_length 4 (se_memory_kib e)) as Hm. pose proof (le_bytes_length 4 (se_passes e)) as Hp.
  change [se_lanes e mod 256; 1] with ([se_lanes e mod 256] ++ [1]).
  rewrite !app_assoc.
  rewrite <- !splice_splice by (rewrite ?length_app, ?Hs, ?Hn, ?Hk, ?Ht, ?Hm, ?Hp, Hl; cbn [length]; lia).
  rewrite !length_app, Hs, Hn, Hk, Ht, Hm, Hp. reflexivity.
Qed.

(** The bytes before the names. *)
Definition manifest_head (c : GenesisConfig) : list Z :=
  MANIFEST_MAGIC ++ le_bytes 2 MANIFEST_VERSION ++
  [if is_some (gc_storage_envelope c) then 1 else 2; bool_byte (is_some (gc_storage_envelope c));
   Locale_persisted (gc_locale c); bool_byte (gc_plan_required c); 0; 0] ++
  CfcFin_bytes (gc_cfc_fin c) ++ Fin_bytes (gc_primary_fin c).

Definition manifest_body (c : GenesisConfig) : list Z :=
  splice (sector_put_text (sector_put_text (manifest_head c ++ replicate 464 0) 48 (gc_cfc_name c))
            81 (gc_primary_name c)) 114 (encode_plan_account (gc_operator c)).

Definition manifest_full (c : GenesisConfig) : list Z :=
  match gc_storage_envelope c with
  | Some e => splice (manifest_body c) 193 (envelope_bytes e)
  | None => manifest_body c
  end.

Lemma length_operator a : operator_ok a → length (encode_plan_account a) = 79%nat.
Proof.
  intros [[Hn _] _ [Hs _] [Hh _] _ _]. unfold encode_plan_account. rewrite !length_app, Hn, Hs, Hh, le_bytes_length. done.
Qed.

Lemma length_envelope e : envelope_ok e → length (envelope_bytes e) = 98%nat.
Proof.
  intros [[Hs _] [Hn _] [Hk _] [Ht _] _ _ _]. unfold envelope_bytes.
  rewrite !length_app, Hs, Hn, Hk, Ht, !le_bytes_length. done.
Qed.

(** The parts of the manifest, as far as they overlap nothing later. *)
Record manifest_parts (c : GenesisConfig) (S : list Z) : Prop := {
  mp_length : length S = 512%nat;
  mp_range : Forall byte_range S;
  mp_head : same_between S (manifest_head c ++ replicate 464 0) 0 48;
  mp_cfc_name : sector_get_text S 48 = Some (gc_cfc_name c);
  mp_primary_name : sector_get_text S 81 = Some (gc_primary_name c);
  mp_operator : slice S 114 79 = encode_plan_account (gc_operator c);
  mp_envelope : ∀ e, gc_storage_envelope c = Some e → slice S 193 98 = envelope_bytes e }.

Lemma manifest_head_ok c :
  config_ok c → length (manifest_head c) = 48%nat ∧ Forall byte_range (manifest_head c).
Proof.
  intros [[Lc Rc] _ _ [Lp Rp] _ _ _ _]. unfold manifest_head. rewrite !length_app, Lc, Lp. split; [done|].
  assert (Forall byte_range (MANIFEST_MAGIC ++ le_bytes 2 MANIFEST_VERSION)) by (by repeat constructor).
  rewrite app_assoc. apply Forall_app; split; [done|]. apply Forall_app; split; [|by apply Forall_app].
  destruct (is_some _), (gc_locale c), (gc_plan_required c); by repeat constructor.
Qed.

Lemma manifest_body_parts c :
  config_ok c →
  length (manifest_body c) = 512%nat ∧ Forall byte_range (manifest_body c) ∧
  same_between (manifest_body c) (manifest_head c ++ replicate 464 0) 0 48 ∧
  sector_get_text (manifest_body c) 48 = Some (gc_cfc_name c) ∧
  sector_get_text (manifest_body c) 81 = Some (gc_primary_name c) ∧
  slice (manifest_body c) 114 79 = encode_plan_account (gc_operator c).
Proof.
  intros Hok. destruct (manifest_head_ok c Hok) as [Lh Rh]. destruct Hok as [_ _ T1 _ _ T2 Hop _].
  unfold manifest_body. set (l0 := manifest_head c ++ replicate 464 0).
  assert (length l0 = 512%nat) as L0 by (unfold l0; rewrite length_app, length_replicate, Lh; lia).
  assert (Forall byte_range l0) as R0 by (apply Forall_app; split; [done|by apply Forall_replicate]).
  pose proof (put_text_untouched l0 48 _ T1 ltac:(lia)) as U1. pose proof (get_put_text l0 48 _ T1 ltac:(lia)) as G1.
  pose proof (put_text_range l0 48 _ T1 R0) as R1. set (l1 := sector_put_text l0 48 (gc_cfc_name c)) in *.
  assert (length l1 = 512%nat) as L1 by (rewrite <- L0; apply U1).
  pose proof (put_text_untouched l1 81 _ T2 ltac:(lia)) as U2. pose proof (get_put_text l1 81 _ T2 ltac:(lia)) as G2.
  pose proof (put_text_range l1 81 _ T2 R1) as R2. set (l2 := sector_put_text l1 81 (gc_primary_name c)) in *.
  assert (length l2 = 512%nat) as L2 by (rewrite <- L1; apply U2).
  pose proof (length_operator _ Hop) as La.
  pose proof (untouched_splice l2 114 (encode_plan_account (gc_operator c)) ltac:(lia)) as U3. rewrite La in U3.
  split_and!.
  - by rewrite <- L2; apply U3.
  - apply splice_range; [done|]. destruct Hop as [[_ Hn] Hl [_ Hs] [_ Hh] _ Ha]. unfold encode_plan_account.
    repeat (apply Forall_app; split); try done; [..|apply le_bytes_range|]; repeat constructor; try apply Hl;
      try apply Ha; apply bool_byte_range.
  - eapply same_trans; [eapply same_after_untouched; [exact U3|lia]|].
    eapply same_trans; [eapply same_after_untouched; [exact U2|lia]|].
    eapply same_after_untouched; [exact U1|lia].
  - rewrite <- G1. apply get_text_same. destruct U3 as [_ ->]; [|lia]. destruct U2 as [_ ->]; [done|lia].
  - rewrite <- G2. apply get_text_same. destruct U3 as [_ ->]; [done|lia].
  - apply slice_splice_same; lia.
Qed.

Lemma manifest_full_parts c : config_ok c → manifest_parts c (manifest_full c).
Proof.
  intros Hok. destruct (manifest_body_parts c Hok) as (Lb & Rb & Hh & G1 & G2 & Ho).
  unfold manifest_full. destruct (gc_storage_envelope c) as [e|] eqn:Ee; [|by constructor; try done; rewrite Ee].
  pose proof (co_envelope c Hok e Ee) as He. pose proof (length_envelope e He) as Le.
  pose proof (untouched_splice (manifest_body c) 193 (envelope_bytes e) ltac:(lia)) as U. rewrite Le in U.
  constructor.
  - by rewrite <- Lb; apply U.
  - apply splice_range; [done|]. destruct He as [[_ ?] [_ ?] [_ ?] [_ ?] _ _ El]. unfold envelope_bytes.
    repeat (apply Forall_app; split); try done; try apply le_bytes_range. rewrite El. by repeat constructor.
  - eapply same_trans; [|exact Hh]. eapply same_after_untouched; [exact U|lia].
  - rewrite <- G1. apply get_text_same. destruct U as [_ ->]; [done|lia].
  - rewrite <- G2. apply get_text_same. destruct U as [_ ->]; [done|lia].
  - rewrite <- Ho. destruct U as [_ ->]; [done|lia].
  - intros e' E'. rewrite Ee in E'. injection E' as <-. apply slice_splice_same; lia.
Qed.

Lemma encode_manifest_eq c : config_ok c → encode_manifest c = sealed_sector (manifest_full c).
Proof.
  intros Hok. pose proof Hok as [[Lc _] _ T1 [Lp _] _ T2 Hop He].
  assert (put_account_fields (sector_put_text (sector_put_text (manifest_head c ++ replicate 464 0) 48 (gc_cfc_name c))
    81 (gc_primary_name c)) (gc_operator c) = manifest_body c) as Hbody.
  { apply put_account_fields_eq; [done|]. destruct (manifest_head_ok c Hok) as [Lh _].
    assert (length (manifest_head c ++ replicate 464 0) = 512%nat) as L0 by (rewrite length_app, length_replicate, Lh; lia).
    set (l0 := manifest_head c ++ replicate 464 0) in *.
    destruct (put_text_untouched l0 48 _ T1 ltac:(lia)) as [L1 _].
    destruct (put_text_untouched (sector_put_text l0 48 (gc_cfc_name c)) 81 _ T2 ltac:(lia)) as [L2 _]. congruence. }
  unfold encode_manifest. cbv zeta.
  match goal with |- context [splice (splice ?l 16 ?x) 32 ?y] =>
    assert (splice (splice l 16 x) 32 y = manifest_head c ++ replicate 464 0) as -> end.
  { unfold manifest_head. destruct (CfcFin_bytes (gc_cfc_fin c)) as [|? k]; [done|].
    do 15 (destruct k as [|? k]; [done|]). destruct k; [|done].
    destruct (Fin_bytes (gc_primary_fin c)) as [|? k]; [done|].
    do 15 (destruct k as [|? k]; [done|]). destruct k; [|done]. reflexivity. }
  rewrite Hbody. f_equal. unfold manifest_full. destruct (gc_storage_envelope c) as [e|]; [|done].
  apply put_envelope_eq; [by apply He|]. by destruct (manifest_body_parts c Hok).
Qed.

Lemma manifest_sector c : config_ok c →
  manifest_parts c (encode_manifest c) ∧
  crc32 (take 508 (encode_manifest c)) = get_u32 (encode_manifest c) 508.
Proof.
  intros Hok. rewrite (encode_manifest_eq c Hok). destruct (manifest_full_parts c Hok) as [L R Hh G1 G2 Ho He].
  destruct (sealed_spec _ L R) as [Hc U]. split; [|done]. constructor.
  - by rewrite <- L; apply U.
  - apply splice_range; [done|apply le_bytes_range].
  - eapply same_trans; [|exact Hh]. eapply same_after_untouched; [exact U|lia].
  - rewrite <- G1. apply get_text_same. destruct U as [_ ->]; [done|lia].
  - rewrite <- G2. apply get_text_same. destruct U as [_ ->]; [done|lia].
  - rewrite <- Ho. destruct U as [_ ->]; [done|lia].
  - intros e Ee. rewrite <- (He e Ee). destruct U as [_ ->]; [done|lia].
Qed.

(** A field of a field. *)
Lemma slice_slice {X} (l : list X) o n i k : (i + k ≤ n)%nat → slice (slice l o n) i k = slice l (o + i) k.
Proof. intros Hi. unfold slice. rewrite skipn_firstn_comm, take_take, drop_drop. f_equal. lia. Qed.

Lemma byte_at_slice_of (l : list Z) o n i : (i < n)%nat → byte_at (slice l o n) i = byte_at l (o + i).
Proof. intros Hi. rewrite !byte_at_head, slice_slice by lia. done. Qed.

Lemma get_u32_slice_of l o n i : (i + 4 ≤ n)%nat → get_u32 (slice l o n) i = get_u32 l (o + i).
Proof. intros Hi. unfold get_u32. by rewrite slice_slice. Qed.

Lemma manifest_operator c S :
  operator_ok (gc_operator c) → slice S 114 79 = encode_plan_account (gc_operator c) →
  MkAccount (slice S 115 24) (byte_at S 114) (slice S 139 16) (slice S 155 32) (get_u32 S 187) (byte_at S 191)
    (byte_at S 192 =? 1) = gc_operator c.
Proof.
  intros [[Hn _] _ [Hs _] [Hh _] Hr _] HS.
  destruct (encode_account_fields _ Hn Hs Hh Hr) as [F1 F2 F3 F4 F5 F6 F7]. rewrite <- HS in *.
  rewrite byte_at_slice_of in F1, F6, F7 by lia. rewrite slice_slice in F3, F4 by lia.
  rewrite get_u32_slice_of in F5 by lia. specialize (F2 24%nat ltac:(lia)). rewrite slice_slice in F2 by lia.
  rewrite take_ge in F2 by lia. cbn [Nat.add] in *. rewrite F1, F2, F3, F4, F5, F6, F7.
  destruct (gc_operator c) as [? ? ? ? ? ? []]; done.
Qed.

Lemma envelope_fields e :
  envelope_ok e → let b := envelope_bytes e in
  slice b 0 16 = se_salt e ∧ slice b 16 24 = se_nonce e ∧ slice b 40 32 = se_wrapped_key e ∧
  slice b 72 16 = se_tag e ∧ get_u32 b 88 = se_memory_kib e ∧ get_u32 b 92 = se_passes e ∧
  byte_at b 96 = se_lanes e ∧ byte_at b 97 = 1.
Proof.
  intros [[Hs _] [Hn _] [Hk _] [Ht _] Em Ep El] b. unfold b, envelope_bytes. rewrite Em, El.
  assert (∀ x y z : list Z, ∀ o n, length x = o → length y = n → slice (x ++ y ++ z) o n = y) as Hf.
  { intros x y z o n <- <-. unfold slice. by rewrite drop_app_length, take_app_length. }
  split_and!.
  - apply (Hf []); done.
  - by apply Hf.
  - rewrite app_assoc. apply Hf; [by rewrite length_app, Hs, Hn|done].
  - rewrite app_assoc, app_assoc. apply Hf; [by rewrite !length_app, Hs, Hn, Hk|done].
  - unfold get_u32. rewrite app_assoc, app_assoc, app_assoc.
    rewrite Hf; [done|by rewrite !length_app, Hs, Hn, Hk, Ht|done].
  - unfold get_u32. rewrite app_assoc, app_assoc, app_assoc, app_assoc.
    rewrite Hf; [by destruct Ep as [-> | ->]|by rewrite !length_app, Hs, Hn, Hk, Ht|done].
  - unfold byte_at. rewrite !app_assoc.
    rewrite lookup_app_r by (rewrite !length_app, Hs, Hn, Hk, Ht, !le_bytes_length; cbn; lia).
    by rewrite !length_app, Hs, Hn, Hk, Ht, !le_bytes_length.
  - unfold byte_at. rewrite !app_assoc.
    rewrite lookup_app_r by (rewrite !length_app, Hs, Hn, Hk, Ht, !le_bytes_length; cbn; lia).
    by rewrite !length_app, Hs, Hn, Hk, Ht, !le_bytes_length.
Qed.

Lemma manifest_envelope c S :
  config_ok c → manifest_parts c S → decode_envelope S 4 = Some (gc_storage_envelope c).
Proof.
  intros Hok Hp. destruct (manifest_head_ok c Hok) as [Lh _].
  assert (∀ i, (i < 16)%nat → byte_at S i = byte_at (manifest_head c) i) as Hb.
  { intros i Hi. transitivity (byte_at (manifest_head c ++ replicate 464 0) i).
    - apply byte_at_slice. apply (mp_head _ _ Hp); lia.
    - unfold byte_at. by rewrite lookup_app_l by lia. }
  unfold decode_envelope. rewrite !Hb by lia.
  change (byte_at (manifest_head c) 11) with (bool_byte (is_some (gc_storage_envelope c))).
  change (byte_at (manifest_head c) 10) with (if is_some (gc_storage_envelope c) then 1 else 2).
  destruct (gc_storage_envelope c) as [e|] eqn:Ee; [|done]. cbn [is_some bool_byte].
  pose proof (co_envelope c Hok e Ee) as He. pose proof (mp_envelope _ _ Hp e Ee) as HS.
  destruct (envelope_fields e He) as (F1 & F2 & F3 & F4 & F5 & F6 & F7 & F8). cbv zeta in *. rewrite <- HS in *.
  rewrite slice_slice in F1, F2, F3, F4 by lia. rewrite get_u32_slice_of in F5, F6 by lia.
  rewrite byte_at_slice_of in F7, F8 by lia. cbn [Nat.add] in *.
  rewrite F1, F2, F3, F4, F5, F6, F7, F8. destruct He as [_ _ _ _ Em Hpass El]. rewrite Em, El.
  assert ((se_passes e =? STORAGE_ARGON2_PASSES) || (se_passes e =? STORAGE_PARANOID_ARGON2_PASSES) = true) as ->.
  { destruct Hpass as [-> | ->]; done. }
  cbn. destruct e. cbn in *. by subst.
Qed.

Lemma cfc_bytes_value f : cfc_ok f → CfcFin_from_u128 (be_value (CfcFin_bytes f)) = f.
Proof. intros [Hl Hb]. unfold CfcFin_from_u128. rewrite <- Hl, be_bytes_value by done. by destruct f. Qed.

Lemma manifest_decodes c : config_ok c → decode_manifest (encode_manifest c) = Some (manifest_of c).
Proof.
  intros Hok. destruct (manifest_sector c Hok) as [Hp Hc]. set (S := encode_manifest c) in *.
  pose proof Hok as [[Lc Rc] Zc _ [Lf Rf] Zf _ Hop _]. destruct (manifest_head_ok c Hok) as [Lh _].
  pose proof (mp_head _ _ Hp) as Hh.
  assert (∀ i, (i < 48)%nat → byte_at S i = byte_at (manifest_head c) i) as Hb.
  { intros i Hi. transitivity (byte_at (manifest_head c ++ replicate 464 0) i).
    - apply byte_at_slice, Hh; lia.
    - unfold byte_at. by rewrite lookup_app_l by lia. }
  assert (take 8 S = MANIFEST_MAGIC) as Em.
  { specialize (Hh 0%nat 8%nat ltac:(lia) ltac:(lia)). unfold slice in Hh. rewrite !drop_0 in Hh. exact Hh. }
  assert (slice S 16 16 = CfcFin_bytes (gc_cfc_fin c)) as E1.
  { rewrite Hh by lia. unfold manifest_head. rewrite <- !app_assoc, 2!app_assoc. unfold slice.
    rewrite drop_app_length' by done. rewrite <- Lc. apply take_app_length. }
  assert (slice S 32 16 = Fin_bytes (gc_primary_fin c)) as E2.
  { rewrite Hh by lia. unfold manifest_head. rewrite <- !app_assoc, 3!app_assoc. unfold slice.
    rewrite drop_app_length' by (rewrite !length_app, Lc; done). rewrite <- Lf. apply take_app_length. }
  unfold decode_manifest. rewrite Em, Hc, E1, E2, (Hb 8%nat), (Hb 9%nat), (Hb 12%nat), (Hb 13%nat), !bool_decide_true
    by (done || lia).
  change (le_value [byte_at (manifest_head c) 8; byte_at (manifest_head c) 9]) with 4.
  change (byte_at (manifest_head c) 12) with (Locale_persisted (gc_locale c)).
  change (byte_at (manifest_head c) 13) with (bool_byte (gc_plan_required c)).
  rewrite (fin_bytes_value _ (conj Lf Rf)), (cfc_bytes_value _ (conj Lc Rc)), Zc, Zf.
  rewrite (mp_cfc_name _ _ Hp), (mp_primary_name _ _ Hp), (manifest_envelope c S Hok Hp).
  rewrite (manifest_operator c S Hop (mp_operator _ _ Hp)). cbn.
  destruct c as [? ? ? ? ? [] ? ? ? []]; done.
Qed.

(** ** Properties *)

(** C25. The installation records read back: a plan of the installer decodes to itself,
    with its Dimensions, users and policy, exactly when its Dimensions have distinct
    names and identities, and is refused otherwise; the installer does not ask for
    distinct names.  A manifest decodes to the identity, names,
    operator, locale and key envelope of the configuration it was written from. *)
Theorem genesis_records_roundtrip plan dimensions accounts c :
  plan_ok plan dimensions accounts → config_ok c →
  decode_plan (encode_plan plan) = (if decide (distinct dimensions) then Some plan else None) ∧
  decode_manifest (encode_manifest c) = Some (manifest_of c).
Proof. intros Hp Hc. split; [by eapply plan_decodes|by apply manifest_decodes]. Qed.

Definition demo_account : StoredAccount :=
  MkAccount (lit "ada" ++ replicate 21 0) 3 (replicate 16 1) (replicate 32 2) 1000 1 true.

Definition demo_plan : GenesisPlan :=
  MkPlan (front_slots MAX_GENESIS_DIMENSIONS [MkGenDim (Fin_from_u128 9) demo_text])
    (front_slots MAX_GENESIS_USERS [demo_account]) 5 3 2 1 Easy GfxVirtioGpu 1 Responsive.

Definition demo_config : GenesisConfig :=
  MkConfig (CfcFin_from_u128 5) demo_text (Fin_from_u128 1) demo_text demo_account German demo_plan None
    (Some (MkEnvelope (replicate 16 3) (replicate 24 4) (replicate 32 5) (replicate 16 6)
             STORAGE_ARGON2_MEMORY_KIB STORAGE_ARGON2_PASSES STORAGE_ARGON2_LANES)) true.

Lemma demo_text_ok : text_ok demo_text.
Proof. exists (lit "ego"). split; [by repeat constructor|reflexivity]. Qed.

Lemma demo_plan_ok : plan_ok demo_plan [MkGenDim (Fin_from_u128 9) demo_text] [demo_account].
Proof.
  constructor; try done; unfold MAX_GENESIS_DIMENSIONS, MAX_GENESIS_USERS; cbn [length]; try lia;
    try (cbn; lia); try (cbn; apply NoDup_singleton).
  - intros d Hd. apply list_elem_of_singleton in Hd as ->. constructor; [|done|apply demo_text_ok].
    split; [apply be_bytes_length|apply be_bytes_range].
  - intros a Ha. apply list_elem_of_singleton in Ha as ->.
    constructor; try (split; [reflexivity|by repeat constructor]); try done; cbn; lia.
Qed.

Lemma demo_config_ok : config_ok demo_config.
Proof.
  constructor; try apply demo_text_ok; try done; try (split; [apply be_bytes_length|apply be_bytes_range]).
  - constructor; try (split; [reflexivity|by repeat constructor]); done.
  - intros e [= <-]. constructor; try (split; [reflexivity|by repeat constructor]); try done. by left.
Qed.

Lemma genesis_records_roundtrip_witness :
  decode_plan (encode_plan demo_plan) = Some demo_plan ∧
  decode_manifest (encode_manifest demo_config) = Some (manifest_of demo_config).
Proof.
  destruct (genesis_records_roundtrip _ _ _ _ demo_plan_ok demo_config_ok) as [Hp Hc]. split; [|exact Hc].
  rewrite decide_True in Hp; [exact Hp|]. split; apply NoDup_singleton.
Defined.
