(* ===== verification/FatGeometry.v ===== *)
(** * The geometry of the boot partition

    [FatGeometry] of kernel/src/genesis.rs: how the installer divides the disk
    into the database region, the FAT32 boot partition, its two allocation tables
    and its clusters.  The size of a table and the number of clusters depend on
    each other; the installer iterates until they agree.

    The theorem decides the result for every disk and payload, and with it when
    the iteration ends: it does so within seven rounds, or never. *)

From stdpp Require Import prelude list.
From Stdlib Require Import ZArith Lia.
From S2P Require Import Prelude StoreCodec.

Set Default Goal Selector "!".
Open Scope Z_scope.
Open Scope expos_scope.

(** ** Definitions *)

Definition EFI_PARTITION_START : Z := 2048.
Definition GPT_ENTRY_SECTORS : Z := 32.
Definition FAT_RESERVED_SECTORS : Z := 32.
Definition FAT_COUNT : Z := 2.
Definition FAT32_MIN_CLUSTERS : Z := 65525.
Definition DIRECTORY_CLUSTERS : Z := 3.

Inductive GenesisError :=
  | GenStorage (e : DeviceError) | GenDiskTooSmall | GenPayloadTooLarge | GenVerificationFailed.

Record FatGeometry := MkGeometry {
  fg_total_sectors : Z; fg_partition_start : Z; fg_partition_sectors : Z; fg_fat_sectors : Z;
  fg_clusters : Z; fg_file_clusters : Z }.

(** [a.div_ceil(b)] *)
Definition Zdiv_ceil (a b : Z) : Z := (a + (b - 1)) / b.

(** The loop of [new]; one unit of fuel per round. *)
Fixpoint geometry_loop (fuel : nat) (partition_sectors fat_sectors : Z)
    : outcome (result (Z * Z) GenesisError) :=
  match fuel with
  | O => OutOfFuel
  | S fuel' =>
      let reserved := FAT_RESERVED_SECTORS + FAT_COUNT * fat_sectors in
      if u32_max <? reserved then Panics
      else if partition_sectors <? reserved then Returns (Err GenDiskTooSmall)
      else
        let data := partition_sectors - reserved in
        if u32_max <? (data + 2) * 4 then Panics
        else
          let required := Zdiv_ceil ((data + 2) * 4) 512 in
          if required =? fat_sectors then Returns (Ok (data, fat_sectors))
          else geometry_loop fuel' partition_sectors required
  end.

Definition FatGeometry_new (fuel : nat) (total_sectors file_bytes : Z)
    : outcome (result FatGeometry GenesisError) :=
  if total_sectors <=? EFI_PARTITION_START + 34 then Returns (Err GenDiskTooSmall)
  else
    let partition_sectors := total_sectors - EFI_PARTITION_START - 33 in
    match geometry_loop fuel partition_sectors 1 with
    | Returns (Err e) => Returns (Err e)
    | Panics => Panics
    | OutOfFuel => OutOfFuel
    | Returns (Ok (clusters, fat_sectors)) =>
        if clusters <? FAT32_MIN_CLUSTERS then Returns (Err GenDiskTooSmall)
        else
          let file_clusters := Zdiv_ceil file_bytes 512 mod 2 ^ 32 in
          if u32_max <? file_clusters + DIRECTORY_CLUSTERS then Panics
          else if clusters <? file_clusters + DIRECTORY_CLUSTERS then Returns (Err GenPayloadTooLarge)
          else Returns (Ok (MkGeometry total_sectors EFI_PARTITION_START partition_sectors fat_sectors
                              clusters file_clusters))
    end.

Definition FatGeometry_data_start (self : FatGeometry) : Z :=
  fg_partition_start self + FAT_RESERVED_SECTORS + FAT_COUNT * fg_fat_sectors self.
Definition FatGeometry_cluster_lba (self : FatGeometry) (cluster : Z) : Z :=
  FatGeometry_data_start self + cluster - 2.

(** ** Specification *)

(** What is left of the partition in units of a table sector's two copies and the
    128 clusters it describes. *)
Definition table_span (partition_sectors : Z) : Z := partition_sectors - 30.

(** The loop has a fixed point. *)
Definition table_settles (partition_sectors : Z) : Prop :=
  table_span partition_sectors mod 130 ≠ 1 ∧ table_span partition_sectors mod 130 ≠ 2.

#[export] Instance table_settles_dec p : Decision (table_settles p).
Proof. unfold table_settles. apply _. Defined.

(** Every cluster has an entry, the entries use no sector too many, and the parts
    lie behind each other inside the partition. *)
Record geometry_ok (g : FatGeometry) : Prop := {
  go_entries : fg_clusters g + 2 ≤ 128 * fg_fat_sectors g;
  go_tight : 128 * (fg_fat_sectors g - 1) < fg_clusters g + 2;
  go_clusters : FAT32_MIN_CLUSTERS ≤ fg_clusters g;
  go_fits : FatGeometry_data_start g + fg_clusters g = fg_partition_start g + fg_partition_sectors g;
  go_backup : fg_partition_start g + fg_partition_sectors g = fg_total_sectors g - 33;
  go_file : fg_file_clusters g + DIRECTORY_CLUSTERS ≤ fg_clusters g }.

(** ** Lemmas *)

(** One round, for a partition of [d + 30] sectors. *)
Definition table_round (d n : Z) : Z := Zdiv_ceil ((d - 2 * n) * 4) 512.

Lemma table_round_spec d n m : table_round d n = m ↔ 128 * (m - 1) < d - 2 * n ≤ 128 * m.
Proof.
  unfold table_round, Zdiv_ceil. set (x := d - 2 * n).
  pose proof (Z.div_mod (x * 4 + (512 - 1)) 512 ltac:(lia)).
  pose proof (Z.mod_pos_bound (x * 4 + (512 - 1)) 512 ltac:(lia)). lia.
Qed.

(** A fixed point exists exactly for the remainders that settle, and is unique. *)
Lemma table_fixed d n : table_round d n = n ↔ 130 * n - 128 < d ≤ 130 * n.
Proof. rewrite table_round_spec. lia. Qed.

Lemma table_fixed_exists d :
  (d mod 130 ≠ 1 ∧ d mod 130 ≠ 2) ↔ table_round d (Zdiv_ceil d 130) = Zdiv_ceil d 130.
Proof.
  rewrite table_fixed. unfold Zdiv_ceil.
  pose proof (Z.div_mod d 130 ltac:(lia)). pose proof (Z.mod_pos_bound d 130 ltac:(lia)).
  pose proof (Z.div_mod (d + (130 - 1)) 130 ltac:(lia)). pose proof (Z.mod_pos_bound (d + (130 - 1)) 130 ltac:(lia)).
  lia.
Qed.

Lemma table_no_fixed d n : d mod 130 = 1 ∨ d mod 130 = 2 → table_round d n ≠ n.
Proof.
  intros Hd. rewrite table_fixed. pose proof (Z.div_mod d 130 ltac:(lia)). lia.
Qed.

(** Rounds are a contraction towards the fixed point. *)
Lemma table_contracts d f n m :
  table_round d f = f → 1 ≤ m → Z.abs (n - f) ≤ 64 * m → Z.abs (table_round d n - f) ≤ m.
Proof.
  intros Hf Hm Hn. apply table_round_spec in Hf. set (r := table_round d n).
  pose proof (proj1 (table_round_spec d n r) eq_refl). lia.
Qed.

Lemma table_settled d f n :
  table_round d f = f → Z.abs (n - f) ≤ 1 → table_round d (table_round d n) = f.
Proof.
  intros Hf Hn. apply table_round_spec in Hf. set (r := table_round d n).
  pose proof (proj1 (table_round_spec d n r) eq_refl). apply table_round_spec. lia.
Qed.

Definition round_ok (d n : Z) : Prop := 1 ≤ n ∧ 2 ≤ d - 2 * n.

Lemma round_ok_next d n : round_ok d n → round_ok d (table_round d n).
Proof.
  intros [H1 H2]. set (r := table_round d n). pose proof (proj1 (table_round_spec d n r) eq_refl).
  unfold round_ok. lia.
Qed.

Lemma geometry_loop_S fuel p n :
  round_ok (table_span p) n → p < 2 ^ 30 + 32 →
  geometry_loop (S fuel) p n =
  if table_round (table_span p) n =? n then Returns (Ok (p - 32 - 2 * n, n))
  else geometry_loop fuel p (table_round (table_span p) n).
Proof.
  unfold round_ok, table_span. intros [H1 H2] Hp. cbn [geometry_loop].
  unfold FAT_RESERVED_SECTORS, FAT_COUNT, u32_max.
  rewrite (proj2 (Z.ltb_ge _ _)), (proj2 (Z.ltb_ge p _)), (proj2 (Z.ltb_ge _ ((p - (32 + 2 * n) + 2) * 4))) by lia.
  unfold table_round. replace (p - (32 + 2 * n) + 2) with (p - 30 - 2 * n) by lia.
  replace (p - (32 + 2 * n)) with (p - 32 - 2 * n) by lia. done.
Qed.

Fixpoint rounds (k : nat) (d n : Z) : Z := match k with O => n | S k' => rounds k' d (table_round d n) end.

(** Once [k] rounds reach the fixed point, the loop finds it. *)
Lemma geometry_loop_settles k fuel p n f :
  (k < fuel)%nat → round_ok (table_span p) n → p < 2 ^ 30 + 32 →
  table_round (table_span p) f = f → rounds k (table_span p) n = f →
  geometry_loop fuel p n = Returns (Ok (p - 32 - 2 * f, f)).
Proof.
  revert fuel n. induction k as [|k IH]; intros fuel n Hk Hn Hp Hf Hr;
    (destruct fuel as [|fuel]; [lia|]); rewrite geometry_loop_S by done; cbn [rounds] in Hr.
  - rewrite Hr in *. by rewrite Hf, Z.eqb_refl.
  - destruct (Z.eqb_spec (table_round (table_span p) n) n) as [E|E].
    + assert (n = f) as ->; [|done]. apply table_fixed in E, Hf. lia.
    + apply IH; [lia|by apply round_ok_next|done|done|done].
Qed.

Lemma geometry_loop_diverges fuel p n :
  round_ok (table_span p) n → p < 2 ^ 30 + 32 → ¬ table_settles p → geometry_loop fuel p n = OutOfFuel.
Proof.
  intros Hn Hp Hs. revert n Hn. induction fuel as [|fuel IH]; intros n Hn; [done|].
  rewrite geometry_loop_S by done.
  rewrite (proj2 (Z.eqb_neq _ _)) by (apply table_no_fixed; unfold table_settles in Hs; lia).
  by apply IH, round_ok_next.
Qed.

Lemma six_rounds d f : table_round d f = f → 4 ≤ d < 2 ^ 30 + 2 → rounds 6 d 1 = f.
Proof.
  intros Hf Hd. pose proof (proj1 (table_fixed d f) Hf) as Hb. cbn [rounds].
  assert (Z.abs (1 - f) ≤ 64 * 262144) as H0 by lia. set (n1 := table_round d 1).
  assert (Z.abs (n1 - f) ≤ 64 * 4096) as H1 by (apply (table_contracts d f 1 262144) in H0; [lia|done|lia]).
  set (n2 := table_round d n1).
  assert (Z.abs (n2 - f) ≤ 64 * 64) as H2 by (apply (table_contracts d f n1 4096) in H1; [lia|done|lia]).
  set (n3 := table_round d n2).
  assert (Z.abs (n3 - f) ≤ 64 * 1) as H3 by (apply (table_contracts d f n2 64) in H2; [lia|done|lia]).
  set (n4 := table_round d n3).
  assert (Z.abs (n4 - f) ≤ 1) as H4 by (apply (table_contracts d f n3 1) in H3; [lia|done|lia]).
  by apply table_settled.
Qed.

Lemma geometry_loop_decides fuel p :
  (7 ≤ fuel)%nat → p ≤ u32_max →
  let n := Zdiv_ceil (table_span p) 130 in
  geometry_loop fuel p 1 =
  if p <? 34 then Returns (Err GenDiskTooSmall)
  else if 2 ^ 30 + 32 <=? p then Panics
  else if decide (table_settles p) then Returns (Ok (p - 32 - 2 * n, n))
  else OutOfFuel.
Proof.
  intros Hf Hp n. destruct (Z.ltb_spec p 34) as [Hs|Hs].
  { destruct fuel; [lia|]. cbn [geometry_loop]. unfold FAT_RESERVED_SECTORS, FAT_COUNT.
    change (u32_max <? 32 + 2 * 1) with false. by rewrite (proj2 (Z.ltb_lt p _)) by lia. }
  destruct (Z.leb_spec (2 ^ 30 + 32) p) as [Hl|Hl].
  { destruct fuel; [lia|]. cbn [geometry_loop]. unfold FAT_RESERVED_SECTORS, FAT_COUNT.
    change (u32_max <? 32 + 2 * 1) with false. rewrite (proj2 (Z.ltb_ge p _)) by lia.
    unfold u32_max. by rewrite (proj2 (Z.ltb_lt _ _)) by lia. }
  assert (round_ok (table_span p) 1) as Hr by (unfold round_ok, table_span; lia).
  case_decide as Hd; [|by apply geometry_loop_diverges].
  apply table_fixed_exists in Hd. fold n in Hd.
  apply (geometry_loop_settles 6); [lia|done|done|done|]. apply six_rounds; [done|]. unfold table_span. lia.
Qed.

(** ** Properties *)

(** C26. Choosing the geometry ends within seven rounds or never, and its result is
    decided by the size of the disk and of the payload: disks that are too small are
    refused, disks of 512 GiB and more overflow, disks whose table cannot settle
    never return, and every other disk gets a table that describes exactly the
    clusters that are left, with all parts inside the partition. *)
Theorem fat_geometry_decides fuel total file_bytes :
  0 ≤ total ≤ u32_max → 0 ≤ file_bytes → (7 ≤ fuel)%nat →
  let p := total - 2081 in
  let n := Zdiv_ceil (table_span p) 130 in
  let clusters := p - 32 - 2 * n in
  let file_clusters := Zdiv_ceil file_bytes 512 mod 2 ^ 32 in
  FatGeometry_new fuel total file_bytes =
    (if p <? 34 then Returns (Err GenDiskTooSmall)
     else if 2 ^ 30 + 32 <=? p then Panics
     else if decide (table_settles p) then
       if clusters <? 65525 then Returns (Err GenDiskTooSmall)
       else if u32_max <? file_clusters + 3 then Panics
       else if clusters <? file_clusters + 3 then Returns (Err GenPayloadTooLarge)
       else Returns (Ok (MkGeometry total 2048 p n clusters file_clusters))
     else OutOfFuel) ∧
  ∀ g, FatGeometry_new fuel total file_bytes = Returns (Ok g) → geometry_ok g.
Proof.
  intros Ht Hb Hf p n clusters file_clusters.
  assert (FatGeometry_new fuel total file_bytes =
    match geometry_loop fuel p 1 with
    | Returns (Err e) => Returns (Err e)
    | Panics => Panics
    | OutOfFuel => OutOfFuel
    | Returns (Ok (c, t)) =>
        if c <? 65525 then Returns (Err GenDiskTooSmall)
        else if u32_max <? file_clusters + 3 then Panics
        else if c <? file_clusters + 3 then Returns (Err GenPayloadTooLarge)
        else Returns (Ok (MkGeometry total 2048 p t c file_clusters))
    end) as ->.
  { unfold FatGeometry_new, EFI_PARTITION_START. replace (total - 2048 - 33) with p by lia.
    destruct (Z.leb_spec total (2048 + 34)); [|done].
    rewrite geometry_loop_decides by (done || lia). by rewrite (proj2 (Z.ltb_lt p 34)) by lia. }
  rewrite geometry_loop_decides by (done || lia). fold n clusters.
  destruct (Z.ltb_spec p 34); [done|]. destruct (2 ^ 30 + 32 <=? p); [done|].
  case_decide as Hd; [|done]. split; [done|]. intros g.
  destruct (Z.ltb_spec clusters 65525); [done|]. destruct (u32_max <? _); [done|].
  destruct (Z.ltb_spec clusters (file_clusters + 3)); [done|]. intros [= <-].
  apply table_fixed_exists, table_fixed in Hd. fold n in Hd. unfold table_span in Hd.
  constructor; unfold FatGeometry_data_start, FAT32_MIN_CLUSTERS, DIRECTORY_CLUSTERS, FAT_RESERVED_SECTORS, FAT_COUNT;
    cbn [fg_total_sectors fg_partition_start fg_partition_sectors fg_fat_sectors fg_clusters fg_file_clusters]; lia.
Qed.

(** A disk of 128 MiB settles; one of 64 MiB never does. *)
Lemma fat_geometry_decides_witness :
  FatGeometry_new 7 262144 1000 = Returns (Ok (MkGeometry 262144 2048 260063 2001 256029 2)) ∧
  ∀ fuel, (7 ≤ fuel)%nat → FatGeometry_new fuel 131072 1000 = OutOfFuel.
Proof.
  split.
  - rewrite (proj1 (fat_geometry_decides 7 262144 1000 ltac:(unfold u32_max; lia) ltac:(lia) ltac:(lia))).
    vm_compute. reflexivity.
  - intros fuel Hf.
    rewrite (proj1 (fat_geometry_decides fuel 131072 1000 ltac:(unfold u32_max; lia) ltac:(lia) Hf)).
    vm_compute. reflexivity.
Defined.
