(* ===== verification/StoreDisk.v ===== *)
(** * Slots on the block device

    The part of kernel/src/expfs_store.rs between the database and the disk:
    where the slots lie, how an encoded slot is written and verified, how a slot
    is read back, also from the older layout, and which of two slots wins.

    The device (kernel/src/storage.rs and its drivers) is an interface: a handle,
    the contents of the disk, and the two sector operations, with the laws a disk
    with atomic sectors satisfies. *)

From stdpp Require Import prelude list strings.
From Stdlib Require Import ZArith Lia.
From S2P Require Import Prelude Identity Bytes Blob Crypto StoreCodec.

Set Default Goal Selector "!".
Open Scope Z_scope.
Open Scope expos_scope.

(** ** Layout *)

Definition CHECKPOINT_CAPACITY : nat := 8.
Definition SLOT_A_LBA : Z := 64.
Definition SLOT_B_LBA : Z := SLOT_A_LBA + Z.of_nat SLOT_SECTORS.
Definition CHECKPOINT_LBA : Z := SLOT_B_LBA + Z.of_nat SLOT_SECTORS.
Definition BASELINE_LBA : Z := CHECKPOINT_LBA + Z.of_nat (CHECKPOINT_CAPACITY * SLOT_SECTORS).
Definition MINIMUM_DISK_SECTORS : Z := BASELINE_LBA + Z.of_nat SLOT_SECTORS.
Definition LEGACY_SLOT_B_LBA : Z := SLOT_A_LBA + Z.of_nat LEGACY_SLOT_SECTORS.
Definition LEGACY_CHECKPOINT_LBA : Z := LEGACY_SLOT_B_LBA + Z.of_nat LEGACY_SLOT_SECTORS.
Definition LEGACY_BASELINE_LBA : Z :=
  LEGACY_CHECKPOINT_LBA + Z.of_nat (CHECKPOINT_CAPACITY * LEGACY_SLOT_SECTORS).

Definition slot_lba (slot : Z) : Z := if slot =? 0 then SLOT_A_LBA else SLOT_B_LBA.
Definition checkpoint_lba (slot : nat) : Z := CHECKPOINT_LBA + Z.of_nat (slot * SLOT_SECTORS).

(** ** The device *)

Class BlockDevice (Device Disk : Type) := {
  device_sectors : Device → Z;
  storage_initialize : Disk → result Device DeviceError;
  read_sector : Device → Disk → Z → result (list Z) DeviceError;
  write_sector : Device → Disk → Z → list Z → Disk * result unit DeviceError }.

(** What one write may do to the disk, whether it is completed, refused or cut
    short: the sector has its old contents, has the new ones, or has become
    unreadable; no other sector changes. *)
Definition touches `{BlockDevice Device Disk} (device : Device) (disk : Disk) (lba : Z) (sector : list Z)
    (disk' : Disk) : Prop :=
  (∀ other, other ≠ lba → read_sector device disk' other = read_sector device disk other) ∧
  (read_sector device disk' lba = read_sector device disk lba ∨
   read_sector device disk' lba = Ok sector ∨ ∃ e, read_sector device disk' lba = Err e).

Class BlockDeviceLaws (Device Disk : Type) (B : BlockDevice Device Disk) := {
  read_sector_bytes : ∀ device disk lba sector,
    read_sector device disk lba = Ok sector → length sector = SECTOR_SIZE ∧ Forall byte_range sector;
  write_sector_touches : ∀ device disk lba sector disk' r,
    write_sector device disk lba sector = (disk', r) → touches device disk lba sector disk';
  write_sector_durable : ∀ device disk lba sector disk',
    length sector = SECTOR_SIZE → Forall byte_range sector →
    write_sector device disk lba sector = (disk', Ok tt) → read_sector device disk' lba = Ok sector }.

(** ** Writing *)

Section disk.
Context `{Aead} `{BlockDevice Device Disk}.

Fixpoint write_sectors (device : Device) (disk : Disk) (base : Z) (encoded : list Z) (sectors : nat)
    (indices : list nat) : Disk * result unit StoreError :=
  match indices with
  | [] => (disk, Ok tt)
  | write_index :: indices' =>
      let sector_index := ((write_index + 1) mod sectors)%nat in
      let sector := slice encoded (sector_index * SECTOR_SIZE) SECTOR_SIZE in
      match write_sector device disk (base + Z.of_nat sector_index) sector with
      | (disk, Ok _) => write_sectors device disk base encoded sectors indices'
      | (disk, Err e) => (disk, Err (StDisk e))
      end
  end.

(** Sector zero, with the header, is written last. *)
Definition write_at (device : Device) (disk : Disk) (base : Z) (encoded : list Z) (encoded_len : nat)
    : Disk * result unit StoreError :=
  let sectors := div_ceil encoded_len SECTOR_SIZE in
  if (sectors =? 0)%nat || (SLOT_SECTORS <? sectors)%nat then (disk, Err StInvalidSnapshot)
  else write_sectors device disk base encoded sectors (seq 0 sectors).

Fixpoint verify_sectors (device : Device) (disk : Disk) (base : Z) (expected : list Z) (encoded_len : nat)
    (indices : list nat) : result unit StoreError :=
  match indices with
  | [] => Ok tt
  | sector_index :: indices' =>
      match read_sector device disk (base + Z.of_nat sector_index) with
      | Err e => Err (StDisk e)
      | Ok sector =>
          let start := (sector_index * SECTOR_SIZE)%nat in
          let compared := ((encoded_len - start) `min` SECTOR_SIZE)%nat in
          if take compared sector !=? slice expected start compared then Err StVerificationFailed
          else verify_sectors device disk base expected encoded_len indices'
      end
  end.

Definition verify_write (device : Device) (disk : Disk) (base : Z) (expected : list Z) (encoded_len : nat)
    : result unit StoreError :=
  verify_sectors device disk base expected encoded_len (seq 0 (div_ceil encoded_len SECTOR_SIZE)).

(** ** Reading *)

Fixpoint read_sectors (device : Device) (disk : Disk) (base : Z) (encoded : list Z) (indices : list nat)
    : result (list Z) StoreError :=
  match indices with
  | [] => Ok encoded
  | sector_index :: indices' =>
      match read_sector device disk (base + Z.of_nat sector_index) with
      | Err e => Err (StDisk e)
      | Ok sector =>
          read_sectors device disk base (splice encoded (sector_index * SECTOR_SIZE) sector) indices'
      end
  end.

(** [decode_slot(..).ok_or(StoreError::VerificationFailed)] *)
Definition decode_or_fail (encoded : list Z) (slot : Z) (storage_key : option (list Z)) (base : Z)
    : outcome (result DecodedSlot StoreError) :=
  match decode_slot encoded slot storage_key base with
  | Returns (Some decoded) => Returns (Ok decoded)
  | Returns None => Returns (Err StVerificationFailed)
  | Panics => Panics
  | OutOfFuel => OutOfFuel
  end.

Definition read_legacy_at (device : Device) (disk : Disk) (base : Z) (slot : Z)
    (storage_key : option (list Z)) : outcome (result DecodedSlot StoreError) :=
  match read_sectors device disk base (replicate LEGACY_SLOT_LEN 0) (seq 0 LEGACY_SLOT_SECTORS) with
  | Err e => Returns (Err e)
  | Ok encoded => decode_or_fail encoded slot storage_key base
  end.

(** The header sector says how many sectors to read. *)
Definition header_refused (encoded : list Z) : bool :=
  (take 8 encoded !=? MAGIC) || (get_u16 encoded 10 !=? Z.of_nat HEADER_LEN) ||
  (Z.of_nat (SLOT_LEN - HEADER_LEN) <? get_u32 encoded 12).

Definition read_at (device : Device) (disk : Disk) (base : Z) (slot : Z)
    (storage_key : option (list Z)) : outcome (result DecodedSlot StoreError) :=
  match read_sector device disk base with
  | Err e => Returns (Err (StDisk e))
  | Ok header_sector =>
      let encoded := splice (replicate SLOT_LEN 0) 0 header_sector in
      if header_refused encoded then Returns (Err StVerificationFailed)
      else
        let encoded_len := (HEADER_LEN + Z.to_nat (get_u32 encoded 12))%nat in
        let sectors := div_ceil encoded_len SECTOR_SIZE in
        match read_sectors device disk base encoded (seq 1 (sectors - 1)) with
        | Err e => Returns (Err e)
        | Ok encoded => decode_or_fail (take encoded_len encoded) slot storage_key base
        end
  end.

Definition read_slot (device : Device) (disk : Disk) (slot : Z) (storage_key : option (list Z))
    : outcome (result DecodedSlot StoreError) :=
  read_at device disk (slot_lba slot) slot storage_key.

Definition read_legacy_slot (device : Device) (disk : Disk) (slot : Z) (storage_key : option (list Z))
    : outcome (result DecodedSlot StoreError) :=
  read_legacy_at device disk (if slot =? 0 then SLOT_A_LBA else LEGACY_SLOT_B_LBA) slot storage_key.

Definition region_is_blank (device : Device) (disk : Disk) (base : Z) : bool :=
  match read_sector device disk base with
  | Ok sector => forallb (λ byte, byte =? 0) sector
  | Err _ => false
  end.

(** ** Choosing a slot *)

(** Generations are compared modulo 2^64; the first slot wins a tie. *)
Definition newest (first second : option DecodedSlot) : option DecodedSlot :=
  match first, second with
  | Some first, Some second =>
      if (dsl_generation second !=? dsl_generation first) &&
         ((dsl_generation second - dsl_generation first) mod 2 ^ 64 <? 2 ^ 63)
      then Some second else Some first
  | Some slot, None | None, Some slot => Some slot
  | None, None => None
  end.

Definition owned_by (cfc : CfcFin) (primary_dimension : Fin) (snapshot : Snapshot) : bool :=
  (sn_cfc snapshot ==? cfc) && (sn_primary_dimension snapshot ==? primary_dimension).

(** [first.or_else(|_| second)] *)
Definition or_else {A} (first second : outcome (result A StoreError)) : outcome (result A StoreError) :=
  match first with
  | Returns (Err _) => second
  | _ => first
  end.

(** One of the two slots as [initialize] reads it. *)
Definition slot_candidate (device : Device) (disk : Disk) (cfc : CfcFin) (primary_dimension : Fin)
    (storage_key : option (list Z)) (slot : Z) : outcome (option DecodedSlot) :=
  match or_else (read_slot device disk slot storage_key)
                (read_legacy_slot device disk slot storage_key) with
  | Returns (Ok decoded) =>
      Returns (if owned_by cfc primary_dimension (dsl_snapshot decoded) then Some decoded else None)
  | Returns (Err _) => Returns None
  | Panics => Panics
  | OutOfFuel => OutOfFuel
  end.

(** [selected] of [initialize]. *)
Definition select_slot (device : Device) (disk : Disk) (cfc : CfcFin) (primary_dimension : Fin)
    (storage_key : option (list Z)) : outcome (option DecodedSlot) :=
  match slot_candidate device disk cfc primary_dimension storage_key 0 with
  | Returns first =>
      match slot_candidate device disk cfc primary_dimension storage_key 1 with
      | Returns second => Returns (newest first second)
      | Panics => Panics
      | OutOfFuel => OutOfFuel
      end
  | Panics => Panics
  | OutOfFuel => OutOfFuel
  end.
End disk.
