(* ===== verification/Store.v ===== *)
(** * The ExpFS store

    The state and the operations of kernel/src/expfs_store.rs: loading at boot,
    commits, checkpoints, the protected baseline, named Forms, system records and
    blob streams.  Every operation takes the world - the two locked tables, the
    stream counter and the disk - and returns the world it leaves behind, on
    every path.

    [boxed_slot] is taken to succeed: running out of memory is not modelled.
    Log output is left out. *)

From stdpp Require Import prelude list strings.
From Stdlib Require Import ZArith Lia.
From S2P Require Import Prelude Identity Bytes Capability Blob ExpFs Registry Relationship Pimp NativeImage.
From S2P Require Import Crypto StoreCodec Records GenesisPlan StoreDisk.

Set Default Goal Selector "!".
Open Scope Z_scope.
Open Scope expos_scope.

(** ** Data *)

Definition MAX_BLOB_STREAMS : nat := 8.

Record CheckpointInfo := MkCheckpoint {
  ci_state_id : Z; ci_journal_sequence : Z; ci_slot : Z; ci_legacy : bool }.

Record BaselineInfo := MkBaselineInfo { bi_generation : Z; bi_journal_sequence : Z }.

Inductive BaselineState := BaseMissing | BaseReady (info : BaselineInfo) | BaseDamaged.

#[export] Instance CheckpointInfo_eq_dec : EqDecision CheckpointInfo.
Proof. solve_decision. Defined.
#[export] Instance BaselineInfo_eq_dec : EqDecision BaselineInfo.
Proof. solve_decision. Defined.
#[export] Instance BaselineState_eq_dec : EqDecision BaselineState.
Proof. solve_decision. Defined.

Record BlobStream := MkStream {
  bs_id : Z; bs_cfc : CfcFin; bs_form : Fin; bs_writable : bool; bs_base_revision : Z;
  bs_content : ChunkedBlob }.

Definition BlobStream_eta (s : BlobStream) : BlobStream :=
  MkStream (bs_id s) (bs_cfc s) (bs_form s) (bs_writable s) (bs_base_revision s) (bs_content s).
#[export] Instance set_bs_content : Setter bs_content := ltac:(build_setter BlobStream_eta).

Record RuntimeStore (Device : Type) := MkStore {
  rs_device : option Device;
  rs_cfc : CfcFin; rs_cfc_name : Text; rs_primary_dimension : Fin;
  rs_snapshot : option Snapshot; rs_generation : Z; rs_active_slot : Z;
  rs_checkpoints : slots CheckpointInfo;
  rs_baseline : BaselineState; rs_baseline_lba : Z;
  rs_storage_key : option (list Z) }.
Arguments MkStore {Device} _ _ _ _ _ _ _ _ _ _ _.
Arguments rs_device {Device} _.
Arguments rs_cfc {Device} _.
Arguments rs_cfc_name {Device} _.
Arguments rs_primary_dimension {Device} _.
Arguments rs_snapshot {Device} _.
Arguments rs_generation {Device} _.
Arguments rs_active_slot {Device} _.
Arguments rs_checkpoints {Device} _.
Arguments rs_baseline {Device} _.
Arguments rs_baseline_lba {Device} _.
Arguments rs_storage_key {Device} _.

Section setters.
Context {Device : Type}.

Definition RuntimeStore_eta (s : RuntimeStore Device) : RuntimeStore Device :=
  MkStore (rs_device s) (rs_cfc s) (rs_cfc_name s) (rs_primary_dimension s) (rs_snapshot s)
    (rs_generation s) (rs_active_slot s) (rs_checkpoints s) (rs_baseline s) (rs_baseline_lba s)
    (rs_storage_key s).
#[export] Instance set_rs_snapshot : Setter (@rs_snapshot Device) := ltac:(build_setter RuntimeStore_eta).
#[export] Instance set_rs_generation : Setter (@rs_generation Device) := ltac:(build_setter RuntimeStore_eta).
#[export] Instance set_rs_active_slot : Setter (@rs_active_slot Device) := ltac:(build_setter RuntimeStore_eta).
#[export] Instance set_rs_checkpoints : Setter (@rs_checkpoints Device) := ltac:(build_setter RuntimeStore_eta).
#[export] Instance set_rs_baseline : Setter (@rs_baseline Device) := ltac:(build_setter RuntimeStore_eta).
#[export] Instance set_rs_baseline_lba : Setter (@rs_baseline_lba Device) := ltac:(build_setter RuntimeStore_eta).
End setters.

Definition RuntimeStore_new (Device : Type) : RuntimeStore Device :=
  MkStore None CfcFin_ZERO Text_empty Fin_ZERO None 0 1 (empty_slots CheckpointInfo CHECKPOINT_CAPACITY)
    BaseMissing BASELINE_LBA None.

(** [STORE], [STREAMS], [NEXT_STREAM_ID] and the disk. *)
Record World (Device Disk : Type) := MkWorld {
  w_store : RuntimeStore Device; w_streams : slots BlobStream; w_next_stream : Z; w_disk : Disk }.
Arguments MkWorld {Device Disk} _ _ _ _.
Arguments w_store {Device Disk} _.
Arguments w_streams {Device Disk} _.
Arguments w_next_stream {Device Disk} _.
Arguments w_disk {Device Disk} _.

Section world_setters.
Context {Device Disk : Type}.

Definition World_eta (w : World Device Disk) : World Device Disk :=
  MkWorld (w_store w) (w_streams w) (w_next_stream w) (w_disk w).
#[export] Instance set_w_store : Setter (@w_store Device Disk) := ltac:(build_setter World_eta).
#[export] Instance set_w_streams : Setter (@w_streams Device Disk) := ltac:(build_setter World_eta).
#[export] Instance set_w_next_stream : Setter (@w_next_stream Device Disk) := ltac:(build_setter World_eta).
#[export] Instance set_w_disk : Setter (@w_disk Device Disk) := ltac:(build_setter World_eta).
End world_setters.

Definition World_new (Device Disk : Type) (disk : Disk) : World Device Disk :=
  MkWorld (RuntimeStore_new Device) (empty_slots BlobStream MAX_BLOB_STREAMS) 1 disk.

(** ** Effects *)

Section store.
Context `{Aead} `{BlockDevice Device Disk}.

(** [?] keeps the state the failing call left behind. *)
Definition Op (A : Type) : Type := World Device Disk → outcome (World Device Disk * result A StoreError).

Definition op_ret {A} (a : A) : Op A := λ w, Returns (w, Ok a).
Definition op_fail {A} (e : StoreError) : Op A := λ w, Returns (w, Err e).
Definition op_panic {A} : Op A := λ _, Panics.

Definition op_bind {A B} (m : Op A) (k : A → Op B) : Op B := λ w,
  match m w with
  | Returns (w', Ok a) => k a w'
  | Returns (w', Err e) => Returns (w', Err e)
  | Panics => Panics
  | OutOfFuel => OutOfFuel
  end.

Definition op_result {A} (r : result A StoreError) : Op A := λ w, Returns (w, r).
Definition op_outcome {A} (r : outcome (result A StoreError)) : Op A := λ w,
  match r with
  | Returns r => Returns (w, r)
  | Panics => Panics
  | OutOfFuel => OutOfFuel
  end.
Definition op_some {A} (o : option A) (e : StoreError) : Op A :=
  match o with Some a => op_ret a | None => op_fail e end.
(** [.expect(..)] *)
Definition op_expect {A} (o : option A) : Op A := match o with Some a => op_ret a | None => op_panic end.

Definition op_get : Op (World Device Disk) := λ w, Returns (w, Ok w).
Definition op_store (f : RuntimeStore Device → RuntimeStore Device) : Op unit := λ w,
  Returns (w <| w_store := f (w_store w) |>, Ok tt).
Definition op_streams (f : slots BlobStream → slots BlobStream) : Op unit := λ w,
  Returns (w <| w_streams := f (w_streams w) |>, Ok tt).

#[export] Instance op_mbind : MBind Op := λ A B k m, op_bind m k.

(** [write_at] through the device of the store. *)
Definition op_write_at (device : Device) (base : Z) (encoded : list Z) (encoded_len : nat) : Op unit := λ w,
  let (disk, r) := write_at device (w_disk w) base encoded encoded_len in
  Returns (w <| w_disk := disk |>, r).

(** ** Loading *)

Definition checkpoint_at (device : Device) (disk : Disk) (cfc : CfcFin) (primary_dimension : Fin)
    (storage_key : option (list Z)) (index : nat) : outcome (option CheckpointInfo) :=
  let info legacy decoded :=
    if owned_by cfc primary_dimension (dsl_snapshot decoded)
    then Some (MkCheckpoint (dsl_generation decoded) (sn_journal_sequence (dsl_snapshot decoded))
                 (Z.of_nat index) legacy)
    else None in
  match read_at device disk (checkpoint_lba index) (Z.of_nat index) storage_key with
  | Returns (Ok decoded) => Returns (info false decoded)
  | Returns (Err _) =>
      match read_legacy_at device disk
              (LEGACY_CHECKPOINT_LBA + Z.of_nat (index * LEGACY_SLOT_SECTORS)) (Z.of_nat index)
              storage_key with
      | Returns (Ok decoded) => Returns (info true decoded)
      | Returns (Err _) => Returns None
      | Panics => Panics
      | OutOfFuel => OutOfFuel
      end
  | Panics => Panics
  | OutOfFuel => OutOfFuel
  end.

Fixpoint load_checkpoints (device : Device) (disk : Disk) (cfc : CfcFin) (primary_dimension : Fin)
    (storage_key : option (list Z)) (indices : list nat) : outcome (slots CheckpointInfo) :=
  match indices with
  | [] => Returns []
  | index :: indices' =>
      match checkpoint_at device disk cfc primary_dimension storage_key index with
      | Returns info =>
          match load_checkpoints device disk cfc primary_dimension storage_key indices' with
          | Returns infos => Returns (info :: infos)
          | Panics => Panics
          | OutOfFuel => OutOfFuel
          end
      | Panics => Panics
      | OutOfFuel => OutOfFuel
      end
  end.

(** The state of the baseline and the LBA it was looked for at last. *)
Definition load_baseline (device : Device) (disk : Disk) (cfc : CfcFin) (primary_dimension : Fin)
    (storage_key : option (list Z)) : outcome (BaselineState * Z) :=
  let state r :=
    match r with
    | Ok decoded =>
        if owned_by cfc primary_dimension (dsl_snapshot decoded)
        then BaseReady (MkBaselineInfo (dsl_generation decoded)
                          (sn_journal_sequence (dsl_snapshot decoded)))
        else if region_is_blank device disk BASELINE_LBA then BaseMissing else BaseDamaged
    | Err _ => if region_is_blank device disk BASELINE_LBA then BaseMissing else BaseDamaged
    end in
  match read_at device disk BASELINE_LBA u8_max storage_key with
  | Returns (Ok decoded) => Returns (state (Ok decoded), BASELINE_LBA)
  | Returns (Err _) =>
      match read_legacy_at device disk LEGACY_BASELINE_LBA u8_max storage_key with
      | Returns r => Returns (state r, LEGACY_BASELINE_LBA)
      | Panics => Panics
      | OutOfFuel => OutOfFuel
      end
  | Panics => Panics
  | OutOfFuel => OutOfFuel
  end.

Definition initialize (cfc : CfcFin) (cfc_name : Text) (primary_dimension : Fin)
    (storage_key : option (list Z)) (w : World Device Disk) : outcome (World Device Disk) :=
  match storage_initialize (w_disk w) with
  | Err _ => Returns w
  | Ok device =>
      if device_sectors device <? MINIMUM_DISK_SECTORS then Returns w
      else match select_slot device (w_disk w) cfc primary_dimension storage_key with
      | Returns selected =>
          match load_checkpoints device (w_disk w) cfc primary_dimension storage_key
                  (seq 0 CHECKPOINT_CAPACITY) with
          | Returns checkpoints =>
              match load_baseline device (w_disk w) cfc primary_dimension storage_key with
              | Returns (baseline, baseline_lba) =>
                  let store := w_store w in
                  let store := MkStore (Some device) cfc cfc_name primary_dimension (rs_snapshot store)
                                 (rs_generation store) (rs_active_slot store) checkpoints baseline
                                 baseline_lba storage_key in
                  Returns (w <| w_store :=
                    match selected with
                    | Some slot => store <| rs_snapshot := Some (dsl_snapshot slot) |>
                                         <| rs_generation := dsl_generation slot |>
                                         <| rs_active_slot := dsl_slot slot |>
                    | None => store
                    end |>)
              | Panics => Panics
              | OutOfFuel => OutOfFuel
              end
          | Panics => Panics
          | OutOfFuel => OutOfFuel
          end
      | Panics => Panics
      | OutOfFuel => OutOfFuel
      end
  end.

Definition current_snapshot (w : World Device Disk) (cfc : CfcFin) : option Snapshot :=
  if rs_cfc (w_store w) ==? cfc then rs_snapshot (w_store w) else None.

Definition loaded_snapshot (w : World Device Disk) (cfc : CfcFin) : option Snapshot :=
  match current_snapshot w cfc with
  | Some snapshot => if sn_form_graph_present snapshot then Some snapshot else None
  | None => None
  end.

Definition system_records (w : World Device Disk) : option (list Z) * option (list Z) :=
  match rs_snapshot (w_store w) with
  | Some snapshot => (sn_settings snapshot, sn_accounts snapshot)
  | None => (None, None)
  end.

Definition generation (w : World Device Disk) : option Z :=
  match rs_snapshot (w_store w) with Some _ => Some (rs_generation (w_store w)) | None => None end.

Definition available (w : World Device Disk) : bool := is_some (rs_device (w_store w)).

(** ** Commits *)

(** [n.wrapping_add(1).max(1)] *)
Definition next_sequence (max n : Z) : Z := Z.max (wrapping_add max n 1) 1.

(** [encode_slot], [write_at] and [verify_write] at one base. *)
Definition op_encode (snapshot : Snapshot) (generation base : Z) (storage_key : option (list Z))
    : Op (list Z * nat) := op_outcome (encode_slot snapshot generation storage_key base).

Definition op_verify (device : Device) (base : Z) (encoded : list Z) (encoded_len : nat) : Op unit := λ w,
  Returns (w, verify_write device (w_disk w) base encoded encoded_len).

Definition commit_locked (snapshot : Snapshot) : Op Z :=
  w ← op_get;
  let store := w_store w in
  device ← op_some (rs_device store) StUnavailable;
  let generation := next_sequence u64_max (rs_generation store) in
  let target_slot := Z.lxor (rs_active_slot store) 1 in
  let base := slot_lba target_slot in
  '(encoded, encoded_len) ← op_encode snapshot generation base (rs_storage_key store);
  _ ← op_write_at device base encoded encoded_len;
  _ ← op_verify device base encoded encoded_len;
  _ ← op_store (λ store, store <| rs_snapshot := Some snapshot |> <| rs_generation := generation |>
                              <| rs_active_slot := target_slot |>);
  op_ret generation.

Definition commit (snapshot : Snapshot) : Op Z :=
  w ← op_get;
  let store := w_store w in
  let snapshot := snapshot <| sn_form_graph_present := true |> in
  let snapshot :=
    match rs_snapshot store with
    | Some current =>
        let snapshot := snapshot <| sn_settings := sn_settings current |>
                                 <| sn_accounts := sn_accounts current |> in
        if sn_journal_sequence snapshot <=? sn_journal_sequence current
        then snapshot <| sn_journal_sequence := next_sequence u32_max (sn_journal_sequence current) |>
        else snapshot
    | None => snapshot
    end in
  _ ← op_result (validate_snapshot snapshot);
  if sn_cfc snapshot !=? rs_cfc store then op_fail StWrongCfc
  else
    _ ← commit_locked snapshot;
    op_ret (sn_journal_sequence snapshot).

(** The snapshot to edit: the current one or an empty one. *)
Definition snapshot_or_empty (store : RuntimeStore Device) : Snapshot :=
  default (Snapshot_empty (rs_cfc store) (rs_cfc_name store) (rs_primary_dimension store))
    (rs_snapshot store).

Definition advance_journal (snapshot : Snapshot) : Snapshot :=
  snapshot <| sn_journal_sequence := next_sequence u32_max (sn_journal_sequence snapshot) |>.

Definition commit_system_records (settings : list Z) (accounts : option (list Z)) : Op Z :=
  w ← op_get;
  let store := w_store w in
  if CfcFin_is_zero (rs_cfc store) || Fin_is_zero (rs_primary_dimension store) then op_fail StUnavailable
  else
    let snapshot := (snapshot_or_empty store) <| sn_settings := Some settings |>
                                            <| sn_accounts := accounts |> in
    let snapshot := advance_journal snapshot in
    _ ← op_result (validate_snapshot snapshot);
    commit_locked snapshot.

(** ** Baseline and checkpoints *)

Definition establish_baseline : Op BaselineInfo :=
  w ← op_get;
  let store := w_store w in
  match rs_baseline store with
  | BaseReady info => op_ret info
  | BaseDamaged => op_fail StBaselineDamaged
  | BaseMissing =>
      snapshot ← op_some (rs_snapshot store) StNoCurrentState;
      device ← op_some (rs_device store) StUnavailable;
      let generation := Z.max (rs_generation store) 1 in
      '(encoded, encoded_len) ← op_encode snapshot generation BASELINE_LBA (rs_storage_key store);
      _ ← op_write_at device BASELINE_LBA encoded encoded_len;
      w ← op_get;
      if negb (is_ok (verify_write device (w_disk w) BASELINE_LBA encoded encoded_len))
      then
        _ ← op_store (λ store, store <| rs_baseline := BaseDamaged |>);
        op_fail StVerificationFailed
      else
        let info := MkBaselineInfo generation (sn_journal_sequence snapshot) in
        _ ← op_store (λ store, store <| rs_baseline := BaseReady info |>
                                     <| rs_baseline_lba := BASELINE_LBA |>);
        op_ret info
  end.

(** The restored snapshot continues the journal. *)
Definition continue_journal (store : RuntimeStore Device) (snapshot : Snapshot) : Snapshot :=
  match rs_snapshot store with
  | Some current =>
      snapshot <| sn_journal_sequence := next_sequence u32_max (sn_journal_sequence current) |>
  | None => snapshot
  end.

Definition restore_baseline : Op Z :=
  w ← op_get;
  let store := w_store w in
  match rs_baseline store with
  | BaseMissing => op_fail StBaselineNotFound
  | BaseDamaged => op_fail StBaselineDamaged
  | BaseReady _ =>
      device ← op_some (rs_device store) StUnavailable;
      let lba := rs_baseline_lba store in
      decoded ← op_outcome (if lba =? LEGACY_BASELINE_LBA
                            then read_legacy_at device (w_disk w) lba u8_max (rs_storage_key store)
                            else read_at device (w_disk w) lba u8_max (rs_storage_key store));
      commit_locked (continue_journal store (dsl_snapshot decoded))
  end.

(** The first free checkpoint, or the one with the smallest state. *)
Definition indexed_checkpoints (checkpoints : slots CheckpointInfo) : list (nat * Z) :=
  omap (λ '(index, entry), (λ info, (index, ci_state_id info)) <$> entry)
    (zip (seq 0 (length checkpoints)) checkpoints).

Definition checkpoint_slot (checkpoints : slots CheckpointInfo) : option nat :=
  match position slot_is_none checkpoints with
  | Some index => Some index
  | None => fst <$> min_by_key snd (indexed_checkpoints checkpoints)
  end.

Definition next_state_id (checkpoints : slots CheckpointInfo) : Z :=
  next_sequence u64_max (fold_left Z.max (ci_state_id <$> flatten checkpoints) 0).

Definition record_checkpoint : Op CheckpointInfo :=
  w ← op_get;
  let store := w_store w in
  snapshot ← op_some (rs_snapshot store) StNoCurrentState;
  device ← op_some (rs_device store) StUnavailable;
  let state_id := next_state_id (rs_checkpoints store) in
  slot ← op_some (checkpoint_slot (rs_checkpoints store)) StVerificationFailed;
  let base := checkpoint_lba slot in
  '(encoded, encoded_len) ← op_encode snapshot state_id base (rs_storage_key store);
  _ ← op_write_at device base encoded encoded_len;
  _ ← op_verify device base encoded encoded_len;
  let checkpoint := MkCheckpoint state_id (sn_journal_sequence snapshot) (Z.of_nat slot) false in
  _ ← op_store (λ store, store <| rs_checkpoints := <[slot := Some checkpoint]> (rs_checkpoints store) |>);
  op_ret checkpoint.

Definition restore_checkpoint (state_id : Z) : Op Z :=
  w ← op_get;
  let store := w_store w in
  checkpoint ← op_some (find (λ checkpoint, ci_state_id checkpoint =? state_id)
                          (flatten (rs_checkpoints store))) StCheckpointNotFound;
  device ← op_some (rs_device store) StUnavailable;
  decoded ← op_outcome
    (if ci_legacy checkpoint
     then read_legacy_at device (w_disk w)
            (LEGACY_CHECKPOINT_LBA + ci_slot checkpoint * Z.of_nat LEGACY_SLOT_SECTORS)
            (ci_slot checkpoint) (rs_storage_key store)
     else read_at device (w_disk w) (checkpoint_lba (Z.to_nat (ci_slot checkpoint)))
            (ci_slot checkpoint) (rs_storage_key store));
  commit_locked (continue_journal store (dsl_snapshot decoded)).

(** ** Named Forms *)

Definition ends_with (name suffix : str) : bool :=
  (length suffix <=? length name)%nat && (drop (length name - length suffix) name ==? suffix).

Definition is_text_name (name : str) : bool :=
  existsb (ends_with name) [lit ".txt"; lit ".sys"; lit ".py"; lit ".rs"; lit ".go"; lit ".c"; lit ".h"].

(** [stored.bytes()] of the Form that is found, if any. *)
Definition with_bytes {A} (found : option StoredForm) (f : StoredForm → list Z → A) : outcome (option A) :=
  match found with
  | None => Returns None
  | Some stored =>
      match StoredForm_bytes stored with
      | Returns bytes => Returns (Some (f stored bytes))
      | Panics => Panics
      | OutOfFuel => OutOfFuel
      end
  end.

Definition active_data_form (p : str → bool) (stored : StoredForm) : bool :=
  (form_kind (sf_form stored) ==? KindData) && (form_lifecycle (sf_form stored) ==? LifeActive) &&
  p (Text_as_str (form_name (sf_form stored))).

Definition load_text_form (w : World Device Disk) (cfc : CfcFin)
    : outcome (option (Text * list Z * Z)) :=
  with_bytes (snapshot ← current_snapshot w cfc;
              find (active_data_form is_text_name) (flatten (sn_forms snapshot)))
    (λ stored bytes, (form_name (sf_form stored), bytes, StoredForm_content_len stored)).

Definition load_data_form (w : World Device Disk) (cfc : CfcFin) (name : str)
    : outcome (option (list Z * Z)) :=
  with_bytes (snapshot ← current_snapshot w cfc;
              find (active_data_form (λ n, n ==? name)) (flatten (sn_forms snapshot)))
    (λ stored bytes, (bytes, StoredForm_content_len stored)).

Definition form_named (name : Text) (entry : option StoredForm) : bool :=
  match entry with Some stored => form_name (sf_form stored) ==? name | None => false end.

Definition entry_kind (snapshot : Snapshot) (index : nat) : option FormKind :=
  (λ stored, form_kind (sf_form stored)) <$> mjoin (sn_forms snapshot !! index).

(** A new Form is contained in the root Form, if there is one and room for it. *)
Definition link_to_root (snapshot : Snapshot) (fin : Fin) : Snapshot :=
  match find (λ stored, form_kind (sf_form stored) ==? KindRoot) (flatten (sn_forms snapshot)) with
  | None => snapshot
  | Some root =>
      match fill_slot (MkRelationship (form_fin (sf_form root)) fin Contains
                         (Some (sn_primary_dimension snapshot))) (sn_relationships snapshot) with
      | Some relationships => snapshot <| sn_relationships := relationships |>
      | None => snapshot
      end
  end.

Definition save_named_form (cfc : CfcFin) (name : str) (kind : FormKind) (bytes : list Z)
    : Op (Fin * Z) :=
  if FORM_CONTENT_CAPACITY <? Zlength bytes then op_fail StInvalidSnapshot
  else
    name ← op_result (map_err (λ _, StInvalidSnapshot) (Text_new name));
    w ← op_get;
    let store := w_store w in
    if negb (is_some (rs_device store)) || (rs_cfc store !=? cfc) ||
       Fin_is_zero (rs_primary_dimension store)
    then op_fail StUnavailable
    else
      let snapshot := snapshot_or_empty store in
      let existing := position (form_named name) (sn_forms snapshot) in
      if match existing with
         | Some index => match entry_kind snapshot index with Some k => k !=? kind | None => false end
         | None => false
         end
      then op_fail StInvalidSnapshot
      else
        index ← op_some (match existing with
                         | Some index => Some index
                         | None => position slot_is_none (sn_forms snapshot)
                         end) StFull;
        let '(fin, revision, snapshot) :=
          match mjoin (sn_forms snapshot !! index) with
          | Some stored =>
              (form_fin (sf_form stored), next_sequence u32_max (form_revision (sf_form stored)), snapshot)
          | None =>
              (Fin_from_u128 (Z.lor 0x464F524D000000000000000000000000 (sn_next_fin snapshot)), 1,
               snapshot <| sn_next_fin := Z.max (wrapping_add u32_max (sn_next_fin snapshot) 1) 2 |>)
          end in
        form ← op_expect (Form_new fin (Text_as_str name) kind);
        let stored := MkStoredForm (form <| form_revision := revision |>) (ChunkedBlob_from_bytes bytes) in
        let snapshot := snapshot <| sn_forms := <[index := Some stored]> (sn_forms snapshot) |> in
        let snapshot := if is_some existing then snapshot else link_to_root snapshot fin in
        let snapshot := advance_journal snapshot in
        _ ← op_result (validate_snapshot snapshot);
        _ ← commit_locked snapshot;
        op_ret (fin, revision).

Definition save_data_form (cfc : CfcFin) (name : str) (bytes : list Z) : Op (Fin * Z) :=
  save_named_form cfc name KindData bytes.

Definition save_text_form (cfc : CfcFin) (name : str) (bytes : list Z) : Op (Fin * Z) :=
  if is_text_name name then save_data_form cfc name bytes else op_fail StInvalidSnapshot.

Definition save_executable_form (cfc : CfcFin) (name : str) (bytes : list Z) : Op (Fin * Z) :=
  _ ← op_result (map_err (λ _, StInvalidSnapshot) (NativeImage_parse bytes));
  save_named_form cfc name KindExecutable bytes.

(** ** Blob streams *)

Definition stream_is (cfc : CfcFin) (form : Fin) (id : Z) (stream : BlobStream) : bool :=
  (bs_id stream =? id) && (bs_cfc stream ==? cfc) && (bs_form stream ==? form).

Definition stream_slot_is (cfc : CfcFin) (form : Fin) (id : Z) (slot : option BlobStream) : bool :=
  match slot with Some stream => stream_is cfc form id stream | None => false end.

Definition form_is (form : Fin) (stored : StoredForm) : bool := form_fin (sf_form stored) ==? form.

Definition open_blob_stream (cfc : CfcFin) (form : Fin) (writable : bool) : Op (Z * Z) :=
  w ← op_get;
  snapshot ← op_some (current_snapshot w cfc) StUnavailable;
  stored ← op_some (find (form_is form) (flatten (sn_forms snapshot))) StStreamNotFound;
  index ← op_some (position slot_is_none (w_streams w)) StFull;
  let id := Z.max (w_next_stream w) 1 in
  let stream := MkStream id cfc form writable (form_revision (sf_form stored)) (sf_content stored) in
  _ ← (λ w, Returns (w <| w_next_stream := wrapping_add u32_max (w_next_stream w) 1 |>
                       <| w_streams := <[index := Some stream]> (w_streams w) |>, Ok tt));
  op_ret (id, StoredForm_content_len stored).

(** The filled output, the number of bytes read and the length of the blob. *)
Definition read_blob_stream (cfc : CfcFin) (form : Fin) (id : Z) (offset : nat) (output : list Z)
    : Op (list Z * nat * nat) :=
  w ← op_get;
  stream ← op_some (find (stream_is cfc form id) (flatten (w_streams w))) StStreamNotFound;
  '(output, count) ← op_outcome (match ChunkedBlob_read (bs_content stream) offset output with
                                 | Returns r => Returns (Ok r)
                                 | Panics => Panics
                                 | OutOfFuel => OutOfFuel
                                 end);
  op_ret (output, count, bl_len (bs_content stream)).

Definition write_blob_stream (cfc : CfcFin) (form : Fin) (id : Z) (offset : nat) (bytes : list Z) : Op Z :=
  w ← op_get;
  index ← op_some (position (stream_slot_is cfc form id) (w_streams w)) StStreamNotFound;
  stream ← op_expect (mjoin (w_streams w !! index));
  if negb (bs_writable stream) then op_fail StStreamMode
  else
    end_ ← op_some (match checked_add usize_max (Z.of_nat offset) (Zlength bytes) with
                    | Some end_ => if end_ <=? FORM_CONTENT_CAPACITY then Some end_ else None
                    | None => None
                    end) StFull;
    '(content, written) ← op_outcome (match ChunkedBlob_write (bs_content stream) offset bytes with
                                      | Returns r => Returns (Ok r)
                                      | Panics => Panics
                                      | OutOfFuel => OutOfFuel
                                      end);
    _ ← op_streams (<[index := Some (stream <| bs_content := content |>)]>);
    _ ← op_result (map_err (λ _, StInvalidSnapshot) written);
    op_ret end_.

Definition abort_blob_stream (cfc : CfcFin) (form : Fin) (id : Z) : Op unit :=
  w ← op_get;
  index ← op_some (position (stream_slot_is cfc form id) (w_streams w)) StStreamNotFound;
  op_streams (<[index := None]>).

(** The stream is gone whatever happens next. *)
Definition take_stream (cfc : CfcFin) (form : Fin) (id : Z) : Op BlobStream :=
  w ← op_get;
  index ← op_some (position (stream_slot_is cfc form id) (w_streams w)) StStreamNotFound;
  stream ← op_expect (mjoin (w_streams w !! index));
  _ ← op_streams (<[index := None]>);
  op_ret stream.

Definition revise_form (form : Fin) (content : ChunkedBlob) (snapshot : Snapshot) : Snapshot :=
  snapshot <| sn_forms := update_first (form_is form)
    (λ stored, MkStoredForm
       ((sf_form stored) <| form_revision := next_sequence u32_max (form_revision (sf_form stored)) |>)
       content) (sn_forms snapshot) |>.

Definition commit_blob_stream (cfc : CfcFin) (form : Fin) (id : Z) : Op (Z * Z) :=
  stream ← take_stream cfc form id;
  if negb (bs_writable stream) then op_fail StStreamMode
  else
    w ← op_get;
    snapshot ← op_some (rs_snapshot (w_store w)) StUnavailable;
    stored ← op_some (find (form_is form) (flatten (sn_forms snapshot))) StStreamNotFound;
    if form_revision (sf_form stored) !=? bs_base_revision stream then op_fail StStaleStream
    else
      let revision := next_sequence u32_max (form_revision (sf_form stored)) in
      let snapshot := advance_journal (revise_form form (bs_content stream) snapshot) in
      _ ← op_result (validate_snapshot snapshot);
      generation ← commit_locked snapshot;
      op_ret (revision, generation).

(** ** Seeding an installation *)

Definition PLAN_FIN : Fin := Fin_from_u128 0x47454E4553495350_4C414E0000000001.
Definition APPS_FIN : Fin := Fin_from_u128 0x41594F4150505353_5441544500000001.

(** [for (target, dimension) in dimensions.iter_mut().skip(1).zip(..)] *)
Fixpoint seed_dimensions (targets : slots Dimension) (dimensions : list GenesisDimension)
    : option (slots Dimension) :=
  match targets, dimensions with
  | _ :: targets', dimension :: dimensions' =>
      match Dimension_new (gd_fin dimension) (Text_as_str (gd_name dimension)) true,
            seed_dimensions targets' dimensions' with
      | Some d, Some rest => Some (Some d :: rest)
      | _, _ => None
      end
  | _, _ => Some targets
  end.

(** [u32::trailing_zeros] *)
Fixpoint trailing_zeros (fuel : nat) (n : Z) : Z :=
  match fuel with
  | O => 0
  | S fuel' => if Z.odd n then 0 else 1 + trailing_zeros fuel' (Z.shiftr n 1)
  end.

Definition plan_bytes (plan : GenesisPlan) : list Z :=
  lit "GNP3" ++ [gp_components plan; gp_sdks plan; gp_drivers plan;
    EncryptionProfile_persisted (gp_encryption plan)] ++ le_bytes 4 (gp_initial_apps plan) ++
  [GraphicsProfile_as_u8 (gp_graphics plan); gp_display_mode plan;
   RenderProfile_as_u8 (gp_render_profile plan); 0].

Definition app_bytes (plan : GenesisPlan) : list Z :=
  lit "AYO1" ++ le_bytes 4 (gp_initial_apps plan) ++
  [Z.min (trailing_zeros 32 (gp_initial_apps plan)) 29] ++ replicate 13 0.

Definition seed_genesis_plan (primary_name : Text) (plan : GenesisPlan) : Op Z :=
  w ← op_get;
  let store := w_store w in
  if negb (is_some (rs_device store)) || CfcFin_is_zero (rs_cfc store) ||
     Fin_is_zero (rs_primary_dimension store)
  then op_fail StUnavailable
  else if is_some (rs_snapshot store) then op_ret (rs_generation store)
  else
    let snapshot := Snapshot_empty (rs_cfc store) (rs_cfc_name store) (rs_primary_dimension store) in
    primary ← op_expect (Dimension_new (rs_primary_dimension store) (Text_as_str primary_name) true);
    secondary ← op_expect (seed_dimensions (drop 1 (sn_dimensions snapshot))
                             (flatten (gp_secondary_dimensions plan)));
    plan_form ← op_expect (Form_new PLAN_FIN (lit "GenesisPlan.state") KindPolicy);
    apps_form ← op_expect (Form_new APPS_FIN (lit "AyoApps.state") KindData);
    let forms := Some (MkStoredForm (plan_form <| form_revision := 1 |>)
                         (ChunkedBlob_from_bytes (plan_bytes plan))) ::
                 Some (MkStoredForm (apps_form <| form_revision := 1 |>)
                         (ChunkedBlob_from_bytes (app_bytes plan))) :: drop 2 (sn_forms snapshot) in
    let snapshot := snapshot <| sn_dimensions := Some primary :: secondary |>
      <| sn_network_policy := if GenesisPlan_network_allowed plan then NetRestricted else NetDisabled |>
      <| sn_forms := forms |> <| sn_journal_sequence := 2 |> in
    _ ← op_result (validate_snapshot snapshot);
    commit_locked snapshot.
End store.
