(* ===== verification/StoreReads.v ===== *)
(** * What reading a slot returns

    The link between the sectors of the disk and the decoder: a verified write is
    read back as the bytes that were written, and a slot that is read carries the
    generation and the CFC of its header sector.  Reading depends on the sectors
    of the slot only. *)

From stdpp Require Import prelude list strings.
From Stdlib Require Import ZArith Lia.
From S2P Require Import Prelude Identity Bytes Blob Registry Crypto StoreCodec StoreRoundtrip StoreTyped StoreDisk Store.

Set Default Goal Selector "!".
Open Scope Z_scope.
Open Scope expos_scope.

(** ** Lemmas: sectors *)

Lemma div_ceil_bounds a b : (0 < b)%nat → (a ≤ div_ceil a b * b)%nat ∧ (div_ceil a b * b < a + b)%nat.
Proof.
  intros Hb. unfold div_ceil. pose proof (Nat.div_mod_eq (a + (b - 1)) b) as H1.
  pose proof (Nat.mod_upper_bound (a + (b - 1)) b) as H2. rewrite Nat.mul_comm. lia.
Qed.

Section disk.
Context {A : Aead} {AL : AeadLaws A} {Device Disk : Type} {B : BlockDevice Device Disk}
  {BL : BlockDeviceLaws Device Disk B}.
Implicit Types (device : Device) (disk : Disk).

(** The first bytes of the disk at [base] are [image]. *)
Definition holds device disk (base : Z) (image : list Z) : Prop :=
  ∀ i, (i * SECTOR_SIZE < length image)%nat → ∃ sector,
    read_sector device disk (base + Z.of_nat i) = Ok sector ∧
    take ((length image - i * SECTOR_SIZE) `min` SECTOR_SIZE) sector =
    slice image (i * SECTOR_SIZE) ((length image - i * SECTOR_SIZE) `min` SECTOR_SIZE).

Lemma verify_sectors_ok device disk base image size n k :
  (length image ≤ size)%nat → (length image ≤ (k + n) * SECTOR_SIZE)%nat →
  verify_sectors device disk base (filled size image) (length image) (seq k n) = Ok tt →
  ∀ i, (k ≤ i)%nat → (i * SECTOR_SIZE < length image)%nat → ∃ sector,
    read_sector device disk (base + Z.of_nat i) = Ok sector ∧
    take ((length image - i * SECTOR_SIZE) `min` SECTOR_SIZE) sector =
    slice image (i * SECTOR_SIZE) ((length image - i * SECTOR_SIZE) `min` SECTOR_SIZE).
Proof.
  intros Hs. revert k. induction n as [|n IH]; intros k Hl Hv i Hk Hi; [unfold SECTOR_SIZE in *; lia|].
  cbn [seq verify_sectors] in Hv.
  destruct (read_sector device disk (base + Z.of_nat k)) as [sector|] eqn:E; [|done].
  destruct (_ !=? _) eqn:Ec; [done|]. apply negb_false_iff, bool_decide_eq_true in Ec.
  destruct (decide (i = k)) as [->|Hn].
  - exists sector. split; [done|]. rewrite Ec. unfold slice, filled.
    rewrite drop_app_le, take_app_le by (rewrite ?length_drop; lia). done.
  - apply (IH (S k)); [lia|done|lia|done].
Qed.

Lemma verify_write_holds device disk base image :
  (length image ≤ SLOT_LEN)%nat →
  verify_write device disk base (filled SLOT_LEN image) (length image) = Ok tt →
  holds device disk base image.
Proof.
  intros Hl Hv i Hi. refine (verify_sectors_ok device disk base image SLOT_LEN _ 0 Hl _ Hv i _ Hi); [|lia].
  apply div_ceil_bounds. unfold SECTOR_SIZE. lia.
Qed.

(** Reading sector after sector extends the part of the image in the buffer. *)
Lemma read_sectors_image device disk base image n k encoded :
  (∀ i, (k ≤ i < k + n)%nat → ∃ sector, read_sector device disk (base + Z.of_nat i) = Ok sector ∧
     take ((length image - i * SECTOR_SIZE) `min` SECTOR_SIZE) sector =
     slice image (i * SECTOR_SIZE) ((length image - i * SECTOR_SIZE) `min` SECTOR_SIZE)) →
  ((k + n) * SECTOR_SIZE ≤ length encoded)%nat →
  take (length image `min` (k * SECTOR_SIZE)) encoded = take (k * SECTOR_SIZE) image →
  ∃ encoded', read_sectors device disk base encoded (seq k n) = Ok encoded' ∧
    take (length image `min` ((k + n) * SECTOR_SIZE)) encoded' = take ((k + n) * SECTOR_SIZE) image.
Proof.
  revert k encoded. induction n as [|n IH]; intros k encoded Hd Hl Ht.
  { exists encoded. rewrite Nat.add_0_r. done. }
  cbn [seq read_sectors]. destruct (Hd k) as (sector & E & Hs); [lia|]. rewrite E.
  apply read_sector_bytes in E as [E _]. unfold SECTOR_SIZE in *.
  destruct (IH (S k) (splice encoded (k * 512) sector)) as (encoded' & E' & Ht').
  - intros i Hi. apply Hd. lia.
  - rewrite length_splice; lia.
  - unfold splice. destruct (decide (length image ≤ k * 512)%nat) as [Hle|Hgt].
    + replace (length image `min` (S k * 512))%nat with (length image) by lia.
      replace (length image `min` (k * 512))%nat with (length image) in Ht by lia.
      rewrite take_app_le by (rewrite length_take; lia). rewrite take_take, Nat.min_l by lia.
      rewrite Ht, !take_ge by lia. done.
    + replace (length image `min` (k * 512))%nat with (k * 512)%nat in Ht by lia.
      replace (length image `min` (S k * 512))%nat with (k * 512 + (length image - k * 512) `min` 512)%nat by lia.
      assert (length (take (k * 512) encoded) = (k * 512)%nat) as Hk by (rewrite length_take; lia).
      rewrite <- Hk at 1. rewrite take_app_add, take_app_le by lia. rewrite Hs, Ht. unfold slice.
      rewrite take_take_drop. destruct (decide (length image ≤ S k * 512)%nat).
      * rewrite !take_ge by lia. done.
      * f_equal. lia.
  - exists encoded'. replace (k + S n)%nat with (S k + n)%nat by lia. done.
Qed.
(** Fields at the start depend on the start only. *)
Lemma slice_take {X} (l : list X) i n m : (i + n ≤ m)%nat → slice (take m l) i n = slice l i n.
Proof. intros Hi. unfold slice. rewrite skipn_firstn_comm, take_take. f_equal. lia. Qed.

Lemma slice_same {X} (l l' : list X) i n m : (i + n ≤ m)%nat → take m l = take m l' → slice l i n = slice l' i n.
Proof. intros Hi E. by rewrite <- (slice_take l i n m), E, slice_take. Qed.

Record image_ok (image : list Z) : Prop := {
  io_length : (HEADER_LEN ≤ length image ≤ SLOT_LEN)%nat;
  io_magic : take 8 image = MAGIC;
  io_header_len : get_u16 image 10 = Z.of_nat HEADER_LEN;
  io_payload_len : get_u32 image 12 = Z.of_nat (length image - HEADER_LEN) }.

Lemma read_at_image device disk base image slot key :
  image_ok image → holds device disk base image →
  read_at device disk base slot key = decode_or_fail image slot key base.
Proof.
  intros [Hl Hm Hh Hp] Hd. unfold read_at.
  destruct (Hd 0%nat) as (h & Eh & Hs); [unfold HEADER_LEN in *; lia|].
  rewrite Z.add_0_r in Eh. rewrite Eh. destruct (read_sector_bytes _ _ _ _ Eh) as [Lh _].
  assert (∃ size, size = SLOT_LEN) as [size Esize] by eauto. rewrite <- Esize in *.
  assert (512 ≤ size)%nat as Hsize by (rewrite Esize; unfold SLOT_LEN, SLOT_SECTORS, SECTOR_SIZE; lia).
  set (encoded := splice (replicate size 0) 0 h).
  assert (length encoded = size) as Le.
  { unfold encoded. rewrite length_splice; rewrite length_replicate; unfold SECTOR_SIZE in *; lia. }
  assert (take (length image `min` (1 * SECTOR_SIZE)) encoded = take (1 * SECTOR_SIZE) image) as Ht.
  { unfold encoded, splice. rewrite take_0, app_nil_l, Nat.add_0_l. unfold SECTOR_SIZE in *.
    rewrite take_app_le by lia. rewrite Nat.sub_0_r in Hs. cbn in Hs. rewrite Nat.mul_1_l, Hs.
    unfold slice. rewrite drop_0. destruct (decide (length image ≤ 512)%nat); [|by f_equal; lia].
    rewrite !take_ge by lia. done. }
  assert (take 64 encoded = take 64 image) as H64.
  { unfold HEADER_LEN, SECTOR_SIZE in *. apply (f_equal (take 64)) in Ht.
    rewrite !take_take in Ht. rewrite !Nat.min_l in Ht by lia. done. }
  unfold header_refused, get_u16, get_u32.
  rewrite (slice_same encoded image 10 2 64), (slice_same encoded image 12 4 64) by (done || lia).
  fold (get_u16 image 10) (get_u32 image 12). rewrite Hh, Hp.
  assert (take 8 encoded = MAGIC) as ->.
  { rewrite <- Hm. change 8%nat with (8 `min` 64)%nat. by rewrite <- !take_take, H64. }
  rewrite !bool_decide_true by done. cbn [negb orb]. rewrite (proj2 (Z.ltb_ge _ _)) by lia.
  rewrite Nat2Z.id. replace (HEADER_LEN + (length image - HEADER_LEN))%nat with (length image) by lia.
  set (n := div_ceil (length image) SECTOR_SIZE).
  destruct (div_ceil_bounds (length image) SECTOR_SIZE) as [B1 B2]; [unfold SECTOR_SIZE; lia|]. fold n in B1, B2.
  assert (n * SECTOR_SIZE ≤ size)%nat as Hn.
  { rewrite Esize in *. unfold SLOT_LEN, SLOT_SECTORS, SECTOR_SIZE in *. lia. }
  destruct (read_sectors_image device disk base image (n - 1) 1 encoded) as (encoded' & -> & Ht').
  - intros i Hi. apply Hd. unfold SECTOR_SIZE in *. lia.
  - unfold SECTOR_SIZE, HEADER_LEN in *. lia.
  - done.
  - replace (1 + (n - 1))%nat with n in Ht' by (unfold SECTOR_SIZE, HEADER_LEN in *; lia).
    rewrite Nat.min_l in Ht' by lia. rewrite Ht', take_ge by lia. done.
Qed.
(** What the sectors that were read hold. *)
Record buffered device disk base (k n : nat) (encoded encoded' : list Z) : Prop := {
  bf_length : length encoded' = length encoded;
  bf_prefix : take (k * SECTOR_SIZE) encoded' = take (k * SECTOR_SIZE) encoded;
  bf_range : Forall byte_range encoded → Forall byte_range encoded';
  bf_sector : ∀ i, (k ≤ i < k + n)%nat →
    read_sector device disk (base + Z.of_nat i) = Ok (slice encoded' (i * SECTOR_SIZE) SECTOR_SIZE) }.

Lemma read_sectors_buffered device disk base n k encoded encoded' :
  ((k + n) * SECTOR_SIZE ≤ length encoded)%nat →
  read_sectors device disk base encoded (seq k n) = Ok encoded' →
  buffered device disk base k n encoded encoded'.
Proof.
  revert k encoded. induction n as [|n IH]; intros k encoded Hl E.
  { injection E as <-. constructor; try done. lia. }
  cbn [seq read_sectors] in E. destruct (read_sector _ _ _) as [sector|] eqn:Es; [|done].
  destruct (read_sector_bytes _ _ _ _ Es) as [Ls Rs]. unfold SECTOR_SIZE in *.
  assert (length (splice encoded (k * 512) sector) = length encoded) as Lsp by (apply length_splice; lia).
  destruct (IH (S k) _ ltac:(rewrite Lsp; lia) E) as [Hlen Hpre Hr Hsec]. unfold SECTOR_SIZE in *.
  constructor; unfold SECTOR_SIZE.
  - by rewrite Hlen.
  - apply (f_equal (take (k * 512))) in Hpre. rewrite !take_take, !Nat.min_l in Hpre by lia.
    rewrite Hpre. unfold splice. rewrite take_app_le by (rewrite length_take; lia).
    rewrite take_take, Nat.min_id. done.
  - intros Hb. by apply Hr, splice_range.
  - intros i Hi. destruct (decide (i = k)) as [->|Hn]; [|apply Hsec; lia].
    rewrite Es. f_equal. rewrite (slice_same encoded' _ (k * 512) 512 (S k * 512) ltac:(lia) Hpre).
    symmetry. by apply slice_splice_same; [lia|].
Qed.

Lemma buffered_holds device disk base n encoded encoded' len :
  buffered device disk base 0 n encoded encoded' →
  (len ≤ length encoded)%nat → (len ≤ n * SECTOR_SIZE)%nat →
  holds device disk base (take len encoded').
Proof.
  intros [Hl _ _ Hs] Hle Hn i. rewrite length_take, Nat.min_l by lia. intros Hi.
  exists (slice encoded' (i * SECTOR_SIZE) SECTOR_SIZE). split; [apply Hs; unfold SECTOR_SIZE in *; lia|].
  unfold slice. rewrite take_take, skipn_firstn_comm, take_take. f_equal. lia.
Qed.

Lemma take_take_le {X} (l : list X) i j : (i ≤ j)%nat → take i (take j l) = take i l.
Proof. intros. rewrite take_take. f_equal. lia. Qed.

Lemma decoded_from_prefix encoded h slot dec :
  take 64 encoded = take 64 h → decoded_from encoded slot dec → decoded_from h slot dec.
Proof.
  intros E [Hm Hg Hn Hc Hs Hv Ht]. unfold header_generation, header_cfc, get_u64 in *.
  constructor; try done; unfold header_generation, header_cfc, get_u64.
  - rewrite <- (take_take_le h 8 64) by lia. by rewrite <- E, take_take_le by lia.
  - by rewrite <- (slice_same encoded h 16 8 64) by (done || lia).
  - by rewrite <- (slice_same encoded h 24 16 64) by (done || lia).
Qed.

(** What [read] returned from the slot at [base]: a state described by the header
    sector, an error, or a panic on bytes that pass their check; a disk with the
    same bytes gives the same panic. *)
Definition read_spec device (read : Disk → outcome (result DecodedSlot StoreError)) disk base slot
    (key : option (list Z)) : Prop :=
  match read disk with
  | Returns (Ok dec) => ∃ h, read_sector device disk base = Ok h ∧ decoded_from h slot dec
  | Returns (Err _) => True
  | r => ∃ encoded input, (0 < length encoded)%nat ∧ holds device disk base encoded ∧
      open_slot encoded key base = Some input ∧ (∀ dec, decode_slot encoded slot key base ≠ Returns dec) ∧
      ∀ disk', holds device disk' base encoded → read disk' = r
  end.

Lemma decode_or_fail_spec device read disk base slot key h encoded :
  (64 ≤ length encoded)%nat → Forall byte_range encoded → holds device disk base encoded →
  read_sector device disk base = Ok h → take 64 encoded = take 64 h →
  (∀ disk', holds device disk' base encoded → read disk' = decode_or_fail encoded slot key base) →
  read_spec device read disk base slot key.
Proof.
  intros Hl Hb Hh Er E Hread. unfold read_spec. rewrite (Hread disk Hh). unfold decode_or_fail in *.
  pose proof (decode_slot_cases encoded slot key base) as Hc.
  destruct (decode_slot encoded slot key base) as [[dec|]| |] eqn:Ed; [|done|..].
  - exists h. split; [done|]. eapply decoded_from_prefix; [done|]. apply Hc; [lia|done].
  - destruct Hc as [input Hi]; [lia|done|]. exists encoded, input. rewrite Ed. split_and!; [lia|done..].
  - destruct Hc as [input Hi]; [lia|done|]. exists encoded, input. rewrite Ed. split_and!; [lia|done..].
Qed.

Lemma read_legacy_image device disk base image slot key :
  length image = LEGACY_SLOT_LEN → holds device disk base image →
  read_legacy_at device disk base slot key = decode_or_fail image slot key base.
Proof.
  intros Hl Hd. unfold read_legacy_at. rewrite <- Hl.
  assert (length image = (24 * 512)%nat) as Hsize by (rewrite Hl; reflexivity).
  destruct (read_sectors_image device disk base image LEGACY_SLOT_SECTORS 0 (replicate (length image) 0))
    as (encoded' & E & Ht).
  - intros i Hi. apply Hd. unfold LEGACY_SLOT_SECTORS, SECTOR_SIZE in *. lia.
  - rewrite length_replicate. unfold LEGACY_SLOT_SECTORS, SECTOR_SIZE. lia.
  - rewrite Nat.mul_0_l, Nat.min_0_r, !take_0. done.
  - rewrite E. f_equal. unfold LEGACY_SLOT_SECTORS, SECTOR_SIZE in *.
    apply read_sectors_buffered in E as [Le _ _ _]; [|rewrite length_replicate; unfold SECTOR_SIZE; lia].
    rewrite length_replicate in Le. rewrite !take_ge in Ht by lia. done.
Qed.

(** The bytes [read_at] hands to the decoder. *)
Lemma read_at_bytes device disk base slot key h :
  read_sector device disk base = Ok h →
  (∃ e, read_at device disk base slot key = Returns (Err e)) ∨
  ∃ image, image_ok image ∧ Forall byte_range image ∧ holds device disk base image ∧
    take 64 image = take 64 h.
Proof.
  intros Eh. unfold read_at. rewrite Eh. destruct (read_sector_bytes _ _ _ _ Eh) as [Lh Rh].
  assert (∃ size, size = SLOT_LEN) as [size Esize] by eauto. rewrite <- Esize.
  assert (size = (128 * 512)%nat) as Hsize by (rewrite Esize; reflexivity).
  set (encoded := splice (replicate size 0) 0 h).
  assert (length encoded = size) as Le.
  { unfold encoded. rewrite length_splice; rewrite length_replicate; unfold SECTOR_SIZE in *; lia. }
  assert (take 512 encoded = h) as Ht.
  { unfold encoded, splice. unfold SECTOR_SIZE in Lh. rewrite take_0, app_nil_l, <- Lh. apply take_app_length. }
  destruct (header_refused encoded) eqn:Er; [by eauto|]. unfold header_refused in Er.
  apply orb_false_iff in Er as [Er Ep]. apply orb_false_iff in Er as [Em Eu].
  apply negb_false_iff, bool_decide_eq_true in Em, Eu. apply Z.ltb_ge in Ep. rewrite <- Esize in Ep.
  set (len := (HEADER_LEN + Z.to_nat (get_u32 encoded 12))%nat).
  assert (64 ≤ len ≤ size)%nat as Hlen by (unfold len, HEADER_LEN in *; lia).
  destruct (div_ceil_bounds len SECTOR_SIZE) as [B1 B2]; [unfold SECTOR_SIZE; lia|].
  set (n := div_ceil len SECTOR_SIZE) in *.
  destruct (read_sectors _ _ _ _ _) as [encoded'|] eqn:E; [|by eauto].
  apply read_sectors_buffered in E as [Hl Hp Hr Hs]; [|unfold SECTOR_SIZE in *; lia].
  unfold SECTOR_SIZE in *. rewrite Nat.mul_1_l in Hp. right. exists (take len encoded').
  assert (take 64 (take len encoded') = take 64 encoded) as E64.
  { rewrite take_take_le, <- (take_take_le encoded' 64 512), Hp, take_take_le by lia. done. }
  split_and!.
  - constructor.
    + rewrite length_take. unfold HEADER_LEN. lia.
    + rewrite <- Em. rewrite <- (take_take_le (take len encoded') 8 64), E64, take_take_le by lia. done.
    + rewrite <- Eu. unfold get_u16. by rewrite (slice_same _ encoded 10 2 64 ltac:(lia) E64).
    + transitivity (get_u32 encoded 12); [unfold get_u32; by rewrite (slice_same _ encoded 12 4 64 ltac:(lia) E64)|].
      rewrite length_take. assert (0 ≤ get_u32 encoded 12); [|unfold len, HEADER_LEN in *; lia].
      apply le_value_range. by apply Forall_take, Forall_drop, splice_range; [apply Forall_replicate|].
  - apply Forall_take, Hr. apply splice_range; [by apply Forall_replicate|done].
  - apply (buffered_holds device disk base n encoded); [|lia|unfold SECTOR_SIZE; lia].
    constructor; [done|by rewrite !take_0|done|]. intros i Hi. unfold SECTOR_SIZE.
    destruct (decide (i = 0)%nat) as [->|Hi0]; [|apply Hs; lia].
    rewrite Z.add_0_r, Eh. f_equal. unfold slice. rewrite drop_0, Hp, Ht. done.
  - rewrite E64, <- (take_take_le encoded 64 512), Ht by lia. done.
Qed.

Lemma read_at_spec device disk base slot key :
  read_spec device (λ disk, read_at device disk base slot key) disk base slot key.
Proof.
  destruct (read_sector device disk base) as [h|e] eqn:Eh.
  2: { unfold read_spec, read_at. by rewrite Eh. }
  destruct (read_at_bytes device disk base slot key h Eh) as [[e E]|(image & Hi & Hr & Hh & E)].
  { unfold read_spec. by rewrite E. }
  pose proof (io_length _ Hi) as [Hl _].
  apply (decode_or_fail_spec _ _ _ _ _ _ h image); try done.
  intros disk' Hd. by apply read_at_image.
Qed.

Lemma read_legacy_at_spec device disk base slot key :
  read_spec device (λ disk, read_legacy_at device disk base slot key) disk base slot key.
Proof.
  destruct (read_sectors device disk base (replicate LEGACY_SLOT_LEN 0) (seq 0 LEGACY_SLOT_SECTORS))
    as [encoded|] eqn:E.
  2: { unfold read_spec, read_legacy_at. by rewrite E. }
  assert (∃ size, size = LEGACY_SLOT_LEN) as [size Esize] by eauto. rewrite <- Esize in *.
  assert (size = (24 * 512)%nat) as Hsize by (rewrite Esize; reflexivity).
  apply read_sectors_buffered in E as HB; [|rewrite length_replicate; unfold LEGACY_SLOT_SECTORS, SECTOR_SIZE; lia].
  pose proof HB as [Hl _ Hr Hs]. rewrite length_replicate in Hl. unfold LEGACY_SLOT_SECTORS, SECTOR_SIZE in *.
  pose proof (Hs 0%nat ltac:(lia)) as H0. rewrite Z.add_0_r in H0.
  apply (decode_or_fail_spec _ _ _ _ _ _ (slice encoded (0 * 512) 512) encoded).
  - lia.
  - by apply Hr, Forall_replicate.
  - rewrite <- (take_ge encoded size) by lia.
    apply (buffered_holds device disk base 24 (replicate size 0)); [done|rewrite length_replicate; lia|].
    unfold SECTOR_SIZE. lia.
  - done.
  - unfold slice. rewrite drop_0, take_take_le by lia. done.
  - intros disk' Hd. apply read_legacy_image; [by rewrite <- Esize|done].
Qed.

(** Reading depends on the sectors of the slot only. *)
Lemma read_sectors_frame device disk disk' base encoded l :
  (∀ i, i ∈ l → read_sector device disk' (base + Z.of_nat i) = read_sector device disk (base + Z.of_nat i)) →
  read_sectors device disk' base encoded l = read_sectors device disk base encoded l.
Proof.
  revert encoded. induction l as [|i l IH]; intros encoded Hl; [done|]. cbn [read_sectors].
  rewrite Hl by (apply elem_of_cons; by left). destruct (read_sector _ _ _); [|done].
  apply IH. intros j Hj. apply Hl, elem_of_cons. by right.
Qed.

Definition same_sectors device disk disk' (base : Z) (n : nat) : Prop :=
  ∀ i, (i < n)%nat → read_sector device disk' (base + Z.of_nat i) = read_sector device disk (base + Z.of_nat i).

Lemma read_at_frame device disk disk' base slot key :
  same_sectors device disk disk' base SLOT_SECTORS →
  read_at device disk' base slot key = read_at device disk base slot key.
Proof.
  intros Hs. unfold read_at. pose proof (Hs 0%nat ltac:(unfold SLOT_SECTORS; lia)) as H0.
  rewrite Z.add_0_r in H0. rewrite H0. destruct (read_sector device disk base) as [h|] eqn:Eh; [|done].
  set (encoded := splice _ _ h). destruct (header_refused encoded) eqn:Er; [done|].
  unfold header_refused in Er. apply orb_false_iff in Er as [_ Ep]. apply Z.ltb_ge in Ep.
  rewrite (read_sectors_frame device disk disk'); [done|]. intros i Hi. apply elem_of_seq in Hi. apply Hs.
  set (len := (HEADER_LEN + _)%nat) in *.
  assert (len ≤ 128 * 512)%nat as Hl.
  { assert (SLOT_LEN = (128 * 512)%nat) as E by reflexivity. rewrite E in Ep. unfold len, HEADER_LEN in *. lia. }
  destruct (div_ceil_bounds len SECTOR_SIZE) as [_ B2]; [unfold SECTOR_SIZE; lia|].
  unfold SECTOR_SIZE, SLOT_SECTORS in *. lia.
Qed.

Lemma read_legacy_at_frame device disk disk' base slot key :
  same_sectors device disk disk' base LEGACY_SLOT_SECTORS →
  read_legacy_at device disk' base slot key = read_legacy_at device disk base slot key.
Proof.
  intros Hs. unfold read_legacy_at. rewrite (read_sectors_frame device disk disk'); [done|].
  intros i Hi. apply elem_of_seq in Hi. apply Hs. lia.
Qed.
End disk.
