(* ===== verification/StoreCrash.v ===== *)
(** * Commits survive crashes

    A commit writes the inactive slot, payload first and header last.  Whatever
    sector write a power failure or a failing device interrupts, the next boot
    selects the state before the commit or the state after it.

    The check of a slot is a CRC or a tag, so the exception is stated with the
    theorem: a half-written slot below its old header whose bytes pass their check and
    make the decoder panic. *)

From stdpp Require Import prelude list strings.
From Stdlib Require Import ZArith Lia.
From S2P Require Import Prelude Identity Bytes Blob Registry Crypto StoreCodec StoreRoundtrip StoreTyped.
From S2P Require Import StoreDisk Store StoreReads.

Set Default Goal Selector "!".
Open Scope Z_scope.
Open Scope expos_scope.

Section crash.
Context {A : Aead} {AL : AeadLaws A} {Device Disk : Type} {B : BlockDevice Device Disk}
  {BL : BlockDeviceLaws Device Disk B}.
Implicit Types (device : Device) (disk : Disk) (w : World Device Disk).

(** ** Specification: interrupted writes *)

Definition sector_of (encoded : list Z) (i : nat) : list Z := slice encoded (i * SECTOR_SIZE) SECTOR_SIZE.

(** The disks a power failure can leave while [write_sectors] runs. *)
Inductive interrupted device (base : Z) (encoded : list Z) (sectors : nat) : Disk → list nat → Disk → Prop :=
  | interrupted_before disk indices :
      interrupted device base encoded sectors disk indices disk
  | interrupted_during disk i indices disk' :
      touches device disk (base + Z.of_nat ((i + 1) mod sectors)) (sector_of encoded ((i + 1) mod sectors)) disk' →
      interrupted device base encoded sectors disk (i :: indices) disk'
  | interrupted_later disk i indices disk1 disk' :
      write_sector device disk (base + Z.of_nat ((i + 1) mod sectors))
        (sector_of encoded ((i + 1) mod sectors)) = (disk1, Ok tt) →
      interrupted device base encoded sectors disk1 indices disk' →
      interrupted device base encoded sectors disk (i :: indices) disk'.

(** Those of a commit of [snapshot] by [store]. *)
Definition commit_interrupted device (store : RuntimeStore Device) (snapshot : Snapshot) disk disk' : Prop :=
  let base := slot_lba (Z.lxor (rs_active_slot store) 1) in
  match encode_slot snapshot (next_sequence u64_max (rs_generation store)) (rs_storage_key store) base with
  | Returns (Ok (encoded, encoded_len)) =>
      let sectors := div_ceil encoded_len SECTOR_SIZE in
      interrupted device base encoded sectors disk (seq 0 sectors) disk'
  | _ => disk' = disk
  end.

(** ** Specification: which slots can win *)

(** [g'] precedes [g] in the circular order of generations. *)
Definition older (g' g : Z) : Prop := 0 < (g - g') mod 2 ^ 64 < 2 ^ 63.

(** A header that no boot prefers to generation [g]. *)
Definition header_quiet (cfc : CfcFin) (g : Z) (h : list Z) : Prop :=
  take 8 h ≠ MAGIC ∨ header_cfc h ≠ cfc ∨ older (header_generation h) g.

Definition legacy_lba (slot : Z) : Z := if slot =? 0 then SLOT_A_LBA else LEGACY_SLOT_B_LBA.

(** The slot can be read in both layouts and wins in neither. *)
Record quiet_slot device disk (cfc : CfcFin) (key : option (list Z)) (slot g : Z) : Prop := {
  qs_header : ∀ h, read_sector device disk (slot_lba slot) = Ok h → header_quiet cfc g h;
  qs_legacy_header : ∀ h, read_sector device disk (legacy_lba slot) = Ok h → header_quiet cfc g h;
  qs_read : ∃ r, read_slot device disk slot key = Returns r;
  qs_read_legacy : ∃ r, read_legacy_slot device disk slot key = Returns r }.

(** The store agrees with the disk: its state is in the active slot. *)
Record synced device (store : RuntimeStore Device) disk (snapshot : Snapshot) : Prop := {
  sy_device : rs_device store = Some device;
  sy_slot : rs_active_slot store = 0 ∨ rs_active_slot store = 1;
  sy_snapshot : rs_snapshot store = Some snapshot;
  sy_generation : word 8 (rs_generation store);
  sy_owned : owned_by (rs_cfc store) (rs_primary_dimension store) snapshot = true;
  sy_active : read_slot device disk (rs_active_slot store) (rs_storage_key store) =
    Returns (Ok (MkDecoded snapshot (rs_generation store) (rs_active_slot store)));
  sy_quiet : quiet_slot device disk (rs_cfc store) (rs_storage_key store)
    (Z.lxor (rs_active_slot store) 1) (rs_generation store) }.

(** A half-written slot that stops the boot: below the header it had before lie bytes
    that were not there before, pass the check of the slot, and make the decoder panic. *)
Definition torn device disk disk' (base : Z) (key : option (list Z)) (encoded : list Z) : Prop :=
  read_sector device disk' base = read_sector device disk base ∧
  holds device disk' base encoded ∧ ¬ holds device disk base encoded ∧
  is_Some (open_slot encoded key base) ∧ ∃ slot, ∀ dec, decode_slot encoded slot key base ≠ Returns dec.

Definition boot_slot device (store : RuntimeStore Device) disk : outcome (option DecodedSlot) :=
  select_slot device disk (rs_cfc store) (rs_primary_dimension store) (rs_storage_key store).

(** ** Lemmas: the image of a slot *)

Lemma plain_header_range s generation flags tail_ :
  cfc_ok (sn_cfc s) → Forall byte_range flags → Forall byte_range tail_ →
  Forall byte_range (plain_header s generation flags tail_).
Proof.
  intros [_ Hc] Hf Ht. unfold plain_header, header.
  assert (Forall byte_range MAGIC) by (repeat constructor; cbv; lia || done).
  repeat (apply Forall_app; split); try done; apply le_bytes_range.
Qed.

Lemma slot_image_range s generation key domain image :
  snapshot_intact s → slot_image s generation key domain = Some image → Forall byte_range image.
Proof.
  intros Hs Hi. pose proof (st_cfc s Hs) as Hc. pose proof (payload_range s Hs) as Hp.
  assert (∀ n, Forall byte_range (replicate n 0)) as Hz by (intros; apply Forall_replicate; unfold byte_range; lia).
  unfold slot_image in Hi.
  destruct key as [k|]; [destruct (seal_storage _ _ _ _) as [[sealed tag]|] eqn:E; [|done]|];
    apply (inj Some) in Hi as <-; apply Forall_app; split; try done; try apply plain_header_range; try done.
  - repeat constructor; lia.
  - by apply (seal_range _ _ _ _ _ _ E).
  - by apply (seal_range _ _ _ _ _ _ E).
  - repeat (apply Forall_app; split); [apply le_bytes_range..|done].
Qed.

Lemma slot_image_ok s generation key domain image :
  snapshot_intact s → validate_snapshot s = Ok tt →
  slot_image s generation key domain = Some image → image_ok image.
Proof.
  intros Hs Hv Hi. pose proof (slot_image_length _ _ _ _ _ Hs Hv Hi) as Hl.
  pose proof (st_cfc s Hs) as [Hc _]. pose proof (payload_length_word s Hs Hv) as Hw.
  assert (∃ flags tail_ rest, length flags = 4%nat ∧ length tail_ = 16%nat ∧
    length rest = length (payload_bytes s) ∧ image = plain_header s generation flags tail_ ++ rest)
    as (flags & tail_ & rest & Hf & Ht & Hr & ->).
  { unfold slot_image in Hi.
    destruct key as [k|]; [destruct (seal_storage _ _ _ _) as [[sealed tag]|] eqn:E; [|done]|];
      apply (inj Some) in Hi as <-.
    - destruct (seal_shape _ _ _ _ _ _ E) as [? ?]. exists [1; 1; 0; 0], tag, sealed. done.
    - do 3 eexists. split; [|split; [|split; [|reflexivity]]]; [done| |done]. rewrite !length_app, !le_bytes_length. done. }
  destruct (header_spec generation (CfcFin_bytes (sn_cfc s)) (sn_journal_sequence s)
    (length (payload_bytes s)) flags tail_ rest Hc Hf Ht) as [Hl64 Hm _ Hh Hp _ _ _ _ _ _ _ _].
  fold (plain_header s generation flags tail_) in *. rewrite length_app, Hl64 in Hl.
  constructor.
  - rewrite length_app, Hl64. unfold HEADER_LEN. lia.
  - exact Hm.
  - unfold get_u16. rewrite Hh, le_value_bytes. reflexivity.
  - unfold get_u32. rewrite Hp, le_value_bytes, length_app, Hl64, Z.mod_small by exact Hw.
    unfold HEADER_LEN. lia.
Qed.

(** ** Lemmas: interrupted writes *)

Lemma write_sectors_interrupted device base encoded sectors disk indices disk' r :
  write_sectors device disk base encoded sectors indices = (disk', r) →
  interrupted device base encoded sectors disk indices disk'.
Proof.
  revert disk. induction indices as [|i indices IH]; intros disk E.
  { injection E as <- _. constructor. }
  cbn [write_sectors] in E. destruct (write_sector _ _ _ _) as [disk1 [[]|e]] eqn:Ew.
  - eapply interrupted_later; [exact Ew|]. by apply IH.
  - injection E as <- _. apply interrupted_during. by eapply write_sector_touches.
Qed.

Lemma interrupted_frame device base encoded sectors disk indices disk' lba :
  interrupted device base encoded sectors disk indices disk' →
  (∀ i, (i < sectors)%nat → lba ≠ base + Z.of_nat i) → (0 < sectors)%nat →
  read_sector device disk' lba = read_sector device disk lba.
Proof.
  intros Hi Hl Hs. induction Hi as [|disk i indices disk' [Ht _]|disk i indices disk1 disk' Hw _ IH]; [done|..].
  - apply Ht, Hl. apply Nat.mod_upper_bound. lia.
  - rewrite IH. apply write_sector_touches in Hw as [Ht _]. apply Ht, Hl, Nat.mod_upper_bound. lia.
Qed.

(** The header is old or unreadable, or every sector is new. *)
Definition header_last device disk disk' (base : Z) (encoded : list Z) (sectors : nat) : Prop :=
  read_sector device disk' base = read_sector device disk base ∨
  (∃ e, read_sector device disk' base = Err e) ∨
  ∀ i, (i < sectors)%nat → read_sector device disk' (base + Z.of_nat i) = Ok (sector_of encoded i).

Lemma interrupted_cases device base encoded sectors disk disk' k :
  (k < sectors)%nat → (sectors * SECTOR_SIZE ≤ length encoded)%nat → Forall byte_range encoded →
  (∀ i, (1 ≤ i ≤ k)%nat → read_sector device disk (base + Z.of_nat i) = Ok (sector_of encoded i)) →
  interrupted device base encoded sectors disk (seq k (sectors - k)) disk' →
  header_last device disk disk' base encoded sectors.
Proof.
  intros Hk Hl Hb Hw Hi. remember (sectors - k)%nat as n eqn:En. revert k disk Hk Hw En Hi.
  induction n as [|n IH]; intros k disk Hk Hw En Hi; [lia|]. cbn [seq] in Hi.
  destruct (decide (S k = sectors)) as [Hlast|Hmore].
  - assert ((k + 1) mod sectors = 0)%nat as E0 by (rewrite <- Hlast, Nat.add_1_r; apply Nat.Div0.mod_same).
    assert (n = 0%nat) as -> by lia. inversion Hi as [|? ? ? ? Ht|? ? ? disk1 ? Hw1 Hlater]; subst.
    + by left.
    + rewrite E0, Z.add_0_r in Ht. destruct Ht as [Hother [Hold|[Hnew|Herr]]]; [by left| |by right; left].
      right; right. intros [|i] Hi'; [by rewrite Z.add_0_r|]. rewrite Hother by lia. apply Hw. lia.
    + inversion Hlater; subst. right; right. pose proof (write_sector_touches _ _ _ _ _ _ Hw1) as [Hother _].
      rewrite E0, Z.add_0_r in Hw1, Hother. intros [|i] Hi'; [|rewrite Hother by lia; apply Hw; lia].
      rewrite Z.add_0_r. eapply write_sector_durable; [..|exact Hw1].
      * unfold sector_of, slice. rewrite length_take, length_drop. unfold SECTOR_SIZE in *. lia.
      * by apply Forall_take, Forall_drop.
  - assert ((k + 1) mod sectors = S k)%nat as E1 by (rewrite Nat.mod_small; lia).
    inversion Hi as [|? ? ? ? [Hother _]|? ? ? disk1 ? Hw1 Hlater]; subst.
    + by left.
    + left. apply Hother. lia.
    + pose proof (write_sector_touches _ _ _ _ _ _ Hw1) as [Hother _]. rewrite E1 in Hw1, Hother.
      assert (read_sector device disk1 base = read_sector device disk base) as E by (apply Hother; lia).
      destruct (IH (S k) disk1) as [H1|H2]; [lia| |lia|done| |by right].
      * intros i Hi'. destruct (decide (i = S k)) as [->|]; [|rewrite Hother by lia; apply Hw; lia].
        eapply write_sector_durable; [..|exact Hw1].
        -- unfold sector_of, slice. rewrite length_take, length_drop. unfold SECTOR_SIZE in *. lia.
        -- by apply Forall_take, Forall_drop.
      * left. by rewrite H1.
Qed.

Lemma written_holds device disk base image n :
  (length image ≤ n * SECTOR_SIZE)%nat → (n * SECTOR_SIZE ≤ SLOT_LEN)%nat →
  (∀ i, (i < n)%nat → read_sector device disk (base + Z.of_nat i) = Ok (sector_of (filled SLOT_LEN image) i)) →
  holds device disk base image.
Proof.
  intros Hl Hn Hs i Hi. exists (sector_of (filled SLOT_LEN image) i).
  split; [apply Hs; unfold SECTOR_SIZE in *; lia|]. unfold sector_of, slice, filled.
  rewrite take_take_le by lia. rewrite drop_app_le, take_app_le by (rewrite ?length_drop; lia). done.
Qed.

(** ** Lemmas: the choice between the slots *)

Definition outranked (c : option DecodedSlot) (g : Z) : Prop :=
  match c with Some dec => older (dsl_generation dec) g | None => True end.

Lemma older_flip g' g : older g' g → 2 ^ 63 < (g' - g) mod 2 ^ 64.
Proof.
  intros [H1 H2]. replace (g' - g) with (- (g - g')) by lia. rewrite Z.mod_opp_l_nz by lia. lia.
Qed.

Lemma newest_left dec c : outranked c (dsl_generation dec) → newest (Some dec) c = Some dec.
Proof.
  destruct c as [dec'|]; [|done]. intros Ho. pose proof (older_flip _ _ Ho). cbn [newest].
  rewrite (proj2 (Z.ltb_ge _ _)), andb_false_r by lia. done.
Qed.

Lemma newest_right dec c : outranked c (dsl_generation dec) → newest c (Some dec) = Some dec.
Proof.
  destruct c as [dec'|]; [|done]. intros Ho. cbn [newest outranked] in *. destruct Ho as [H1 H2].
  rewrite (proj2 (Z.ltb_lt _ _) H2). case_bool_decide as E; [|done].
  rewrite E, Z.sub_diag in H1. done.
Qed.

Lemma select_slot_at device disk cfc primary key slot dec c :
  slot = 0 ∨ slot = 1 →
  slot_candidate device disk cfc primary key slot = Returns (Some dec) →
  slot_candidate device disk cfc primary key (Z.lxor slot 1) = Returns c →
  outranked c (dsl_generation dec) →
  select_slot device disk cfc primary key = Returns (Some dec).
Proof.
  intros [-> | ->] H1 H2 Ho; unfold select_slot;
    [change (Z.lxor 0 1) with 1 in H2|change (Z.lxor 1 1) with 0 in H2]; rewrite H1, H2.
  - by rewrite newest_left.
  - by rewrite newest_right.
Qed.

Lemma candidate_read device disk cfc primary key slot dec :
  read_slot device disk slot key = Returns (Ok dec) → owned_by cfc primary (dsl_snapshot dec) = true →
  slot_candidate device disk cfc primary key slot = Returns (Some dec).
Proof. intros Hr Ho. unfold slot_candidate. by rewrite Hr; cbn; rewrite Ho. Qed.

(** What is read below a quiet header is not preferred. *)
Lemma quiet_read device read disk base slot key cfc primary g dec :
  read_spec device read disk base slot key →
  (∀ h, read_sector device disk base = Ok h → header_quiet cfc g h) →
  read disk = Returns (Ok dec) →
  outranked (if owned_by cfc primary (dsl_snapshot dec) then Some dec else None) g.
Proof.
  unfold read_spec. intros Hs Hq E. rewrite E in Hs. destruct Hs as (h & Eh & [Hm Hg _ Hc _ _ _]).
  destruct (owned_by cfc primary (dsl_snapshot dec)) eqn:Eo; [|done]. unfold owned_by in Eo. bools.
  cbn [outranked]. rewrite Hg. destruct (Hq h Eh) as [?|[?|?]]; [done| |done]. congruence.
Qed.

Lemma candidate_quiet device disk cfc primary key slot g :
  quiet_slot device disk cfc key slot g →
  ∃ c, slot_candidate device disk cfc primary key slot = Returns c ∧ outranked c g.
Proof.
  intros [Hh Hl [r Hr] [r' Hr']]. unfold slot_candidate. rewrite Hr, Hr'.
  destruct r as [dec|]; cbn [or_else].
  - eexists. split; [done|]. by eapply quiet_read; [apply read_at_spec|exact Hh|exact Hr].
  - destruct r' as [dec|]; [|by eexists]. eexists. split; [done|].
    by eapply quiet_read; [apply read_legacy_at_spec|exact Hl|exact Hr'].
Qed.

Lemma next_generation g : word 8 g → word 8 (next_sequence u64_max g) ∧ next_sequence u64_max g ≠ 0 ∧
  older g (next_sequence u64_max g).
Proof.
  unfold word, older, next_sequence, wrapping_add, u64_max. change (256 ^ Z.of_nat 8) with (2 ^ 64). intros Hg.
  destruct (decide (g = 2 ^ 64 - 1)) as [->|Hn]; [split_and!; vm_compute; done|].
  assert ((g + 1) mod (2 ^ 64 - 1 + 1) = g + 1) as -> by (apply Z.mod_small; lia).
  rewrite Z.max_l by lia. replace (g + 1 - g) with 1 by lia. rewrite Z.mod_small by lia. lia.
Qed.

Lemma next_journal n : word 4 n → word 4 (next_sequence u32_max n) ∧ next_sequence u32_max n ≠ 0.
Proof.
  unfold word, next_sequence, wrapping_add, u32_max. change (256 ^ Z.of_nat 4) with (2 ^ 32). intros Hn.
  pose proof (Z.mod_pos_bound (n + 1) (2 ^ 32 - 1 + 1)). lia.
Qed.

(** ** Lemmas: the disk after an interrupted commit *)

Lemma returns_or_torn device read disk disk' base slot key :
  read_spec device read disk' base slot key → (∃ r, read disk = Returns r) →
  (read_sector device disk' base = read_sector device disk base ∨ ∃ e, read_sector device disk' base = Err e) →
  (∃ r, read disk' = Returns r) ∨ ∃ encoded, torn device disk disk' base key encoded.
Proof.
  intros Hs [r Hr] Hh. unfold read_spec in Hs. destruct (read disk') as [r'| |] eqn:E; [by eauto|..];
    destruct Hs as (encoded & input & Hl & Hd & Ho & Hp & Hall); right; exists encoded;
    (split_and!; [|done|intros Hold; specialize (Hall _ Hold); congruence|by eexists|by eexists]);
    (destruct Hh as [Hh|[e He]]; [done|]; destruct (Hd 0%nat) as (sector & Es & _); [done|]; rewrite Z.add_0_r in Es; congruence).
Qed.

(** Slot 0 has the same first sector in both layouts; the older slot 1 lies in slot 0. *)
Lemma quiet_after device disk disk' cfc key slot g :
  slot = 0 ∨ slot = 1 → quiet_slot device disk cfc key slot g →
  (read_sector device disk' (slot_lba slot) = read_sector device disk (slot_lba slot) ∨
   ∃ e, read_sector device disk' (slot_lba slot) = Err e) →
  same_sectors device disk disk' (slot_lba (Z.lxor slot 1)) SLOT_SECTORS →
  quiet_slot device disk' cfc key slot g ∨ ∃ encoded, torn device disk disk' (slot_lba slot) key encoded.
Proof.
  intros Hslot [Hh Hl Hr Hr'] Hnew Hframe.
  assert (∀ h, read_sector device disk' (slot_lba slot) = Ok h → header_quiet cfc g h) as Hh'.
  { intros h E. apply Hh. destruct Hnew as [<-|[e E']]; [done|congruence]. }
  destruct (returns_or_torn device (λ disk, read_slot device disk slot key) disk disk' (slot_lba slot) slot key)
    as [Hread|]; [apply read_at_spec|done|done| |by right].
  destruct Hslot as [-> | ->].
  - destruct (returns_or_torn device (λ disk, read_legacy_slot device disk 0 key) disk disk' SLOT_A_LBA 0 key)
      as [Hlegacy|]; [apply read_legacy_at_spec|done|done| |by right].
    left. by constructor.
  - change (slot_lba (Z.lxor 1 1)) with 64 in Hframe. left. constructor; [done|..|done|].
    + intros h E. apply Hl. rewrite <- E. symmetry. apply (Hframe 24%nat). unfold SLOT_SECTORS. lia.
    + destruct Hr' as [r Hr']. exists r. rewrite <- Hr'. apply read_legacy_at_frame.
      intros j Hj. unfold LEGACY_SLOT_SECTORS in Hj. pose proof (Hframe (24 + j)%nat) as Hf.
      unfold SLOT_SECTORS in Hf. change (if 1 =? 0 then SLOT_A_LBA else LEGACY_SLOT_B_LBA) with 88.
      replace (88 + Z.of_nat j) with (64 + Z.of_nat (24 + j)) by lia. apply Hf. lia.
Qed.

Lemma other_slot_frame device base encoded sectors disk indices disk' slot :
  slot = 0 ∨ slot = 1 → base = slot_lba slot → (0 < sectors ≤ SLOT_SECTORS)%nat →
  interrupted device base encoded sectors disk indices disk' →
  same_sectors device disk disk' (slot_lba (Z.lxor slot 1)) SLOT_SECTORS.
Proof.
  intros Hslot -> Hs Hi j Hj. eapply interrupted_frame; [exact Hi| |lia]. intros i Hi'.
  unfold SLOT_SECTORS in *. destruct Hslot as [-> | ->].
  - change (slot_lba (Z.lxor 0 1)) with 192. change (slot_lba 0) with 64. lia.
  - change (slot_lba (Z.lxor 1 1)) with 64. change (slot_lba 1) with 192. lia.
Qed.

Lemma target_slot slot : slot = 0 ∨ slot = 1 → (Z.lxor slot 1 = 0 ∨ Z.lxor slot 1 = 1) ∧ Z.lxor (Z.lxor slot 1) 1 = slot.
Proof. intros [-> | ->]; cbn; auto. Qed.

Lemma boot_old device store disk disk' snapshot :
  synced device store disk snapshot →
  same_sectors device disk disk' (slot_lba (rs_active_slot store)) SLOT_SECTORS →
  quiet_slot device disk' (rs_cfc store) (rs_storage_key store) (Z.lxor (rs_active_slot store) 1) (rs_generation store) →
  boot_slot device store disk' = Returns (Some (MkDecoded snapshot (rs_generation store) (rs_active_slot store))).
Proof.
  intros Hsy Hf Hq. destruct (candidate_quiet _ _ _ (rs_primary_dimension store) _ _ _ Hq) as (c & Hc & Ho).
  eapply select_slot_at; [apply Hsy| |exact Hc|done]. apply candidate_read; [|apply Hsy].
  rewrite <- (sy_active _ _ _ _ Hsy). by apply read_at_frame.
Qed.

Lemma boot_new device store disk disk' snapshot snapshot' :
  let generation := next_sequence u64_max (rs_generation store) in
  let target := Z.lxor (rs_active_slot store) 1 in
  synced device store disk snapshot →
  owned_by (rs_cfc store) (rs_primary_dimension store) snapshot' = true →
  same_sectors device disk disk' (slot_lba (rs_active_slot store)) SLOT_SECTORS →
  read_slot device disk' target (rs_storage_key store) = Returns (Ok (MkDecoded snapshot' generation target)) →
  boot_slot device store disk' = Returns (Some (MkDecoded snapshot' generation target)).
Proof.
  intros generation target Hsy Ho Hf Hr. destruct (target_slot _ (sy_slot _ _ _ _ Hsy)) as [Ht Et].
  eapply (select_slot_at _ _ _ _ _ target); [done|by apply candidate_read|..].
  - unfold target. rewrite Et.
    apply (candidate_read _ _ _ _ _ _ (MkDecoded snapshot (rs_generation store) (rs_active_slot store)));
      [|exact (sy_owned _ _ _ _ Hsy)].
    etransitivity; [exact (read_at_frame _ _ _ _ _ _ Hf)|exact (sy_active _ _ _ _ Hsy)].
  - apply next_generation, Hsy.
Qed.

(** The write of a commit, with what the encoder returned. *)
Lemma commit_image device store disk disk' snapshot' :
  let generation := next_sequence u64_max (rs_generation store) in
  let target := Z.lxor (rs_active_slot store) 1 in
  snapshot_intact snapshot' → validate_snapshot snapshot' = Ok tt →
  commit_interrupted device store snapshot' disk disk' →
  disk' = disk ∨ ∃ image n, slot_image snapshot' generation (rs_storage_key store) (slot_lba target) = Some image ∧
    image_ok image ∧ (0 < n ≤ SLOT_SECTORS)%nat ∧ (length image ≤ n * SECTOR_SIZE)%nat ∧
    interrupted device (slot_lba target) (filled SLOT_LEN image) n disk (seq 0 n) disk'.
Proof.
  intros generation target Hs Hv Hi. unfold commit_interrupted in Hi. cbv zeta in Hi.
  fold generation target in Hi. rewrite encode_slot_spec in Hi by done.
  destruct (slot_image _ _ _ _) as [image|] eqn:E; [|by left]. right.
  pose proof (slot_image_ok _ _ _ _ _ Hs Hv E) as Hok. pose proof (io_length _ Hok) as Hl.
  destruct (div_ceil_bounds (length image) SECTOR_SIZE) as [B1 B2]; [unfold SECTOR_SIZE; lia|].
  assert (SLOT_LEN = (128 * 512)%nat) as El by reflexivity. rewrite El in Hl.
  exists image, (div_ceil (length image) SECTOR_SIZE).
  split; [reflexivity|]. split; [exact Hok|]. split; [|split; [exact B1|exact Hi]].
  unfold SECTOR_SIZE, SLOT_SECTORS, HEADER_LEN in *. lia.
Qed.

Lemma commit_locked_interrupted device w snapshot' w' r :
  rs_device (w_store w) = Some device → commit_locked snapshot' w = Returns (w', r) →
  commit_interrupted device (w_store w) snapshot' (w_disk w) (w_disk w').
Proof.
  intros Hd. unfold commit_locked, commit_interrupted, mbind, op_mbind, op_bind, op_get, op_some, op_ret.
  rewrite Hd. unfold op_encode, op_outcome. cbv zeta.
  set (base := slot_lba (Z.lxor (rs_active_slot (w_store w)) 1)).
  generalize (encode_slot snapshot' (next_sequence u64_max (rs_generation (w_store w)))
    (rs_storage_key (w_store w)) base).
  intros [[[encoded len]|e]| |]; [|by intros [= <- <-]|done..].
  unfold op_write_at, write_at. destruct (_ || _) eqn:Es.
  - intros [= <- <-]. constructor.
  - destruct (write_sectors _ _ _ _ _ _) as [disk1 [[]|e]] eqn:Ew; apply write_sectors_interrupted in Ew.
    + unfold op_verify. destruct (verify_write _ _ _ _ _) as [[]|e]; by intros [= <- <-].
    + by intros [= <- <-].
Qed.

Lemma commit_crash_cases device store disk disk' snapshot snapshot' :
  let generation := next_sequence u64_max (rs_generation store) in
  let target := Z.lxor (rs_active_slot store) 1 in
  synced device store disk snapshot → snapshot_intact snapshot' → validate_snapshot snapshot' = Ok tt →
  owned_by (rs_cfc store) (rs_primary_dimension store) snapshot' = true →
  commit_interrupted device store snapshot' disk disk' →
  boot_slot device store disk' = Returns (Some (MkDecoded snapshot (rs_generation store) (rs_active_slot store))) ∨
  boot_slot device store disk' = Returns (Some (MkDecoded snapshot' generation target)) ∨
  ∃ encoded, torn device disk disk' (slot_lba target) (rs_storage_key store) encoded.
Proof.
  intros generation target Hsy Hs Hv Ho Hi. destruct (target_slot _ (sy_slot _ _ _ _ Hsy)) as [Ht Et].
  fold target in Ht, Et. pose proof (next_generation _ (sy_generation _ _ _ _ Hsy)) as (Hg & Hg0 & _).
  destruct (commit_image _ _ _ _ _ Hs Hv Hi) as [->|(image & n & Ei & Hok & Hn & Hl & Hint)].
  { left. apply (boot_old _ _ disk); [done|by intros i Hi'|apply Hsy]. }
  fold generation target in Ei, Hint. pose proof (io_length _ Hok) as Hlen.
  pose proof (other_slot_frame _ _ _ _ _ _ _ target Ht eq_refl Hn Hint) as Hf. rewrite Et in Hf.
  assert (n * SECTOR_SIZE ≤ SLOT_LEN)%nat as Hfit.
  { change SLOT_LEN with (SLOT_SECTORS * SECTOR_SIZE)%nat. apply Nat.mul_le_mono_r. lia. }
  pose proof (slot_image_range _ _ _ _ _ Hs Ei) as Hr.
  destruct (interrupted_cases device (slot_lba target) (filled SLOT_LEN image) n disk disk' 0)
    as [Hold|[Hbad|Hnew]]; [lia|rewrite length_filled by apply Hlen; exact Hfit|by apply filled_range|lia
        |rewrite Nat.sub_0_r; exact Hint|..].
  3: { right; left. apply (boot_new device store disk disk' snapshot); try done.
    unfold read_slot. rewrite (read_at_image _ _ _ image) by (done || by eapply written_holds).
    unfold decode_or_fail. by rewrite (slot_image_decodes _ _ _ _ _ _ Hs Hv Hg Hg0 Ei). }
  all: destruct (quiet_after device disk disk' (rs_cfc store) (rs_storage_key store) target (rs_generation store))
      as [Hq|Htorn]; [done|apply Hsy|by eauto|by rewrite Et|left; by apply (boot_old _ _ disk)|by right; right].
Qed.

(** A verified write at [base] reads back. *)
Lemma verified_reads device disk base s g key image slot :
  snapshot_intact s → validate_snapshot s = Ok tt → word 8 g → g ≠ 0 →
  slot_image s g key base = Some image →
  verify_write device disk base (filled SLOT_LEN image) (length image) = Ok tt →
  read_at device disk base slot key = Returns (Ok (MkDecoded s g slot)).
Proof.
  intros Hs Hv Hg Hg0 Ei Ev. pose proof (slot_image_ok _ _ _ _ _ Hs Hv Ei) as Hok.
  pose proof (io_length _ Hok) as [_ Hl].
  rewrite (read_at_image _ _ _ image); [|done|by apply verify_write_holds].
  unfold decode_or_fail. by rewrite (slot_image_decodes _ _ _ _ _ _ Hs Hv Hg Hg0 Ei).
Qed.

(** A commit that is acknowledged is the one the next boot selects. *)
Lemma commit_locked_ok device w snapshot' w' g :
  rs_device (w_store w) = Some device →
  snapshot_intact snapshot' → validate_snapshot snapshot' = Ok tt → word 8 (rs_generation (w_store w)) →
  commit_locked snapshot' w = Returns (w', Ok g) →
  let target := Z.lxor (rs_active_slot (w_store w)) 1 in
  g = next_sequence u64_max (rs_generation (w_store w)) ∧
  w_store w' = (w_store w) <| rs_snapshot := Some snapshot' |> <| rs_generation := g |> <| rs_active_slot := target |> ∧
  read_slot device (w_disk w') target (rs_storage_key (w_store w)) = Returns (Ok (MkDecoded snapshot' g target)).
Proof.
  intros Hd Hs Hv Hg E target. destruct (next_generation _ Hg) as (Hg' & Hg0 & _). revert E.
  unfold commit_locked, mbind, op_mbind, op_bind, op_get, op_some, op_ret.
  rewrite Hd. unfold op_encode, op_outcome. fold target. rewrite encode_slot_spec by done.
  destruct (slot_image _ _ _ _) as [image|] eqn:Ei; [|done].
  unfold op_write_at. destruct (write_at _ _ _ _ _) as [disk1 [[]|e]]; [|done].
  unfold op_verify. destruct (verify_write _ _ _ _ _) as [[]|e] eqn:Ev; [|done].
  unfold op_store. intros [= <- <-]. split_and!; [done|done|].
  by eapply verified_reads.
Qed.

Lemma commit_locked_returns w snapshot' :
  snapshot_intact snapshot' → validate_snapshot snapshot' = Ok tt →
  ∃ w' r, commit_locked snapshot' w = Returns (w', r) ∧
    match r with Ok _ => True | Err _ => w_store w' = w_store w end.
Proof.
  intros Hs Hv. unfold commit_locked, mbind, op_mbind, op_bind, op_get, op_some, op_ret, op_fail.
  assert (∀ w' (e : StoreError), w_store w' = w_store w → ∃ w'' (r : result Z StoreError),
    Returns (w', Err e) = Returns (w'', r) ∧ match r with Ok _ => True | Err _ => w_store w'' = w_store w end)
    as Hfail by (intros w' e E; by eexists _, _).
  destruct (rs_device (w_store w)) as [device|]; [|by apply Hfail]. unfold op_encode, op_outcome.
  rewrite encode_slot_spec by done. destruct (slot_image _ _ _ _) as [image|]; [|by apply Hfail].
  unfold op_write_at. destruct (write_at _ _ _ _ _) as [disk1 [[]|e]]; [|by apply Hfail].
  unfold op_verify. destruct (verify_write _ _ _ _ _) as [[]|e]; [|by apply Hfail].
  by eexists _, _.
Qed.

Lemma commit_frame device w snapshot' w' g :
  rs_device (w_store w) = Some device → (rs_active_slot (w_store w) = 0 ∨ rs_active_slot (w_store w) = 1) →
  snapshot_intact snapshot' → validate_snapshot snapshot' = Ok tt →
  commit_locked snapshot' w = Returns (w', g) →
  same_sectors device (w_disk w) (w_disk w') (slot_lba (rs_active_slot (w_store w))) SLOT_SECTORS.
Proof.
  intros Hd Hslot Hs Hv E. destruct (target_slot _ Hslot) as [Ht Et].
  pose proof (commit_locked_interrupted _ _ _ _ _ Hd E) as Hi.
  destruct (commit_image _ _ _ _ _ Hs Hv Hi) as [->|(image & n & _ & _ & Hn & _ & Hint)]; [by intros i|].
  rewrite <- Et. by eapply (other_slot_frame _ _ _ _ _ _ _ (Z.lxor (rs_active_slot (w_store w)) 1)).
Qed.

(** The slot that was active is quiet under the next generation. *)
Lemma active_becomes_quiet device store disk disk' snapshot :
  let g := next_sequence u64_max (rs_generation store) in
  synced device store disk snapshot →
  same_sectors device disk disk' (slot_lba (rs_active_slot store)) SLOT_SECTORS →
  (∀ h, read_sector device disk' (legacy_lba (rs_active_slot store)) = Ok h → header_quiet (rs_cfc store) g h) →
  (∃ r, read_legacy_slot device disk' (rs_active_slot store) (rs_storage_key store) = Returns r) →
  quiet_slot device disk' (rs_cfc store) (rs_storage_key store) (rs_active_slot store) g.
Proof.
  intros g Hsy Hf Hl Hr.
  assert (read_slot device disk' (rs_active_slot store) (rs_storage_key store) =
    Returns (Ok (MkDecoded snapshot (rs_generation store) (rs_active_slot store)))) as E.
  { etransitivity; [exact (read_at_frame _ _ _ _ _ _ Hf)|exact (sy_active _ _ _ _ Hsy)]. }
  constructor; [|done|by eexists|done]. intros h Eh.
  pose proof (read_at_spec device disk' (slot_lba (rs_active_slot store)) (rs_active_slot store)
    (rs_storage_key store)) as Hspec. unfold read_spec in Hspec. unfold read_slot in E. rewrite E in Hspec.
  destruct Hspec as (h' & Eh' & [_ Hg _ _ _ _ _]). rewrite Eh in Eh'. injection Eh' as <-.
  right; right. cbn [dsl_generation] in Hg. rewrite <- Hg. apply next_generation, Hsy.
Qed.

End crash.

Section power.
Context {A : Aead} {AL : AeadLaws A} {Device Disk : Type} {B : BlockDevice Device Disk}
  {BL : BlockDeviceLaws Device Disk B}.
Implicit Types (device : Device) (disk : Disk) (w : World Device Disk).

(** ** Specification: power failure *)

(** The device with a fuse: it serves [fuse] writes; during the next one power
    fails, which leaves what [tear] says and stops the system. *)
Definition power_cut (tear : Device → Disk → Z → list Z → Disk) : BlockDevice Device (Disk * nat) := {|
  device_sectors := device_sectors;
  storage_initialize := λ cd, storage_initialize cd.1;
  read_sector := λ device cd lba, read_sector device cd.1 lba;
  write_sector := λ device cd lba sector,
    match cd.2 with
    | O => ((tear device cd.1 lba sector, O), Err DevTimeout)
    | S fuse => let (disk', r) := write_sector device cd.1 lba sector in ((disk', fuse), r)
    end |}.

(** An interrupted sector has its old or its new contents or cannot be read. *)
Definition tears (tear : Device → Disk → Z → list Z → Disk) : Prop :=
  ∀ device disk lba sector, touches device disk lba sector (tear device disk lba sector).

Definition cut_world w (fuse : nat) : World Device (Disk * nat) :=
  MkWorld (w_store w) (w_streams w) (w_next_stream w) (w_disk w, fuse).

(** ** Lemmas: power failure *)

Lemma power_cut_laws tear : tears tear → BlockDeviceLaws Device (Disk * nat) (power_cut tear).
Proof.
  intros Ht. constructor.
  - intros device [disk fuse] lba sector. exact (@read_sector_bytes Device Disk B BL device disk lba sector).
  - intros device [disk [|fuse]] lba sector disk' r; cbn [write_sector power_cut fst snd].
    + intros [= <- <-]. exact (Ht device disk lba sector).
    + destruct (write_sector device disk lba sector) as [disk1 r1] eqn:E. intros [= <- <-].
      exact (@write_sector_touches Device Disk B BL _ _ _ _ _ _ E).
  - intros device [disk [|fuse]] lba sector disk' Hl Hb; cbn [write_sector power_cut fst snd]; [done|].
    destruct (write_sector device disk lba sector) as [disk1 r1] eqn:E. intros [= <- ->].
    exact (@write_sector_durable Device Disk B BL _ _ _ _ _ Hl Hb E).
Qed.

(** Reading is as before. *)
Lemma read_sectors_cut tear device (cd : Disk * nat) base encoded l :
  @read_sectors Device (Disk * nat) (power_cut tear) device cd base encoded l =
  read_sectors device cd.1 base encoded l.
Proof.
  revert encoded. induction l as [|i l IH]; intros encoded; [done|]. cbn [read_sectors].
  change (@read_sector Device (Disk * nat) (power_cut tear) device cd (base + Z.of_nat i)) with
    (read_sector device cd.1 (base + Z.of_nat i)).
  destruct (read_sector device cd.1 _); [apply IH|done].
Qed.

Lemma read_at_cut tear device (cd : Disk * nat) base slot key :
  @read_at A Device (Disk * nat) (power_cut tear) device cd base slot key =
  read_at device cd.1 base slot key.
Proof.
  unfold read_at. change (@read_sector Device (Disk * nat) (power_cut tear) device cd base) with
    (read_sector device cd.1 base).
  destruct (read_sector device cd.1 base); [|done]. destruct (header_refused _); [done|].
  by rewrite read_sectors_cut.
Qed.

Lemma read_legacy_at_cut tear device (cd : Disk * nat) base slot key :
  @read_legacy_at A Device (Disk * nat) (power_cut tear) device cd base slot key =
  read_legacy_at device cd.1 base slot key.
Proof. unfold read_legacy_at. by rewrite read_sectors_cut. Qed.

Lemma synced_cut tear device store disk fuse snapshot :
  synced device store disk snapshot →
  @synced A Device (Disk * nat) (power_cut tear) device store (disk, fuse) snapshot.
Proof.
  intros [H1 H2 H3 H4 H5 H6 [Q1 Q2 [r Q3] [r' Q4]]].
  constructor; [exact H1|exact H2|exact H3|exact H4|exact H5|..].
  - unfold read_slot. rewrite read_at_cut. exact H6.
  - constructor; [exact Q1|exact Q2|exists r|exists r'].
    + unfold read_slot. rewrite read_at_cut. exact Q3.
    + unfold read_legacy_slot. rewrite read_legacy_at_cut. exact Q4.
Qed.

Lemma boot_slot_cut tear device store (cd : Disk * nat) :
  @boot_slot A Device (Disk * nat) (power_cut tear) device store cd = boot_slot device store cd.1.
Proof.
  unfold boot_slot, select_slot, slot_candidate, read_slot, read_legacy_slot.
  rewrite !read_at_cut, !read_legacy_at_cut. reflexivity.
Qed.

Lemma boot_acknowledged device w snapshot snapshot' tear fuse (cw : World Device (Disk * nat)) g :
  let store := w_store w in
  synced device store (w_disk w) snapshot → snapshot_intact snapshot' → validate_snapshot snapshot' = Ok tt →
  owned_by (rs_cfc store) (rs_primary_dimension store) snapshot' = true → tears tear →
  @commit_locked A Device (Disk * nat) (power_cut tear) snapshot' (cut_world w fuse) = Returns (cw, Ok g) →
  boot_slot device store (w_disk cw).1 =
    Returns (Some (MkDecoded snapshot' (next_sequence u64_max (rs_generation store)) (Z.lxor (rs_active_slot store) 1))).
Proof.
  intros store Hsy Hs Hv Ho Ht E. pose proof (power_cut_laws tear Ht) as HL. rewrite <- (boot_slot_cut tear).
  pose proof (synced_cut tear device store (w_disk w) fuse snapshot Hsy) as Hsy'.
  destruct (@commit_locked_ok A AL Device (Disk * nat) (power_cut tear) HL device (cut_world w fuse) snapshot' cw g
    (sy_device _ _ _ _ Hsy) Hs Hv (sy_generation _ _ _ _ Hsy) E) as (Eg & _ & Er).
  pose proof (@commit_frame A AL Device (Disk * nat) (power_cut tear) HL device (cut_world w fuse) snapshot' cw (Ok g)
    (sy_device _ _ _ _ Hsy) (sy_slot _ _ _ _ Hsy) Hs Hv E) as Hf.
  cbn [cut_world w_store w_disk] in *. rewrite Eg in Er.
  exact (@boot_new A Device (Disk * nat) (power_cut tear) device store (w_disk w, fuse) (w_disk cw) snapshot snapshot' Hsy' Ho Hf Er).
Qed.

Lemma commit_cut device w snapshot snapshot' tear fuse :
  let store := w_store w in
  synced device store (w_disk w) snapshot → snapshot_intact snapshot' → validate_snapshot snapshot' = Ok tt →
  owned_by (rs_cfc store) (rs_primary_dimension store) snapshot' = true → tears tear →
  let target := Z.lxor (rs_active_slot store) 1 in
  ∃ (cw : World Device (Disk * nat)) r,
    @commit_locked A Device (Disk * nat) (power_cut tear) snapshot' (cut_world w fuse) = Returns (cw, r) ∧
    let disk' := (w_disk cw).1 in
    (boot_slot device store disk' =
       Returns (Some (MkDecoded snapshot (rs_generation store) (rs_active_slot store))) ∨
     boot_slot device store disk' =
       Returns (Some (MkDecoded snapshot' (next_sequence u64_max (rs_generation store)) target)) ∨
     ∃ encoded, torn device (w_disk w) disk' (slot_lba target) (rs_storage_key store) encoded) ∧
    (is_ok r = true → boot_slot device store disk' =
       Returns (Some (MkDecoded snapshot' (next_sequence u64_max (rs_generation store)) target))).
Proof.
  intros store Hsy Hs Hv Ho Ht target. pose proof (power_cut_laws tear Ht) as HL.
  destruct (@commit_locked_returns A AL Device (Disk * nat) (power_cut tear) (cut_world w fuse) snapshot' Hs Hv)
    as (cw & r & E & _).
  exists cw, r. split; [exact E|]. split.
  2: { destruct r as [g|]; [intros _|done]. exact (boot_acknowledged device w snapshot snapshot' tear fuse cw g Hsy Hs Hv Ho Ht E). }
  pose proof (synced_cut tear device store (w_disk w) fuse snapshot Hsy) as Hsy'.
  pose proof (@commit_locked_interrupted A Device (Disk * nat) (power_cut tear) HL device (cut_world w fuse)
    snapshot' cw r (sy_device _ _ _ _ Hsy) E) as Hi.
  destruct (@commit_crash_cases A AL Device (Disk * nat) (power_cut tear) HL device store (w_disk w, fuse) (w_disk cw)
    snapshot snapshot' Hsy' Hs Hv Ho Hi) as [Hb|[Hb|Htorn]]; [rewrite boot_slot_cut in Hb..|].
  - by left.
  - by right; left.
  - by right; right.
Qed.

(** ** Properties *)

(** C2. A commit of an intact snapshot, on a device whose power fails at any write and
    tears the sector it writes, leaves a disk from which the next boot selects the state
    before the commit or the state of the commit, whole, and the latter whenever the
    commit was acknowledged.  The only exception is a half-written slot, still below its
    old header, whose mixed bytes pass the CRC or the authentication tag and make the
    decoder panic. *)
Theorem store_commit_crash_safe device w snapshot snapshot' tear fuse :
  let store := w_store w in
  synced device store (w_disk w) snapshot → snapshot_intact snapshot' → validate_snapshot snapshot' = Ok tt →
  owned_by (rs_cfc store) (rs_primary_dimension store) snapshot' = true → tears tear →
  let target := Z.lxor (rs_active_slot store) 1 in
  ∃ (cw : World Device (Disk * nat)) r,
    @commit_locked A Device (Disk * nat) (power_cut tear) snapshot' (cut_world w fuse) = Returns (cw, r) ∧
    let disk' := (w_disk cw).1 in
    (boot_slot device store disk' =
       Returns (Some (MkDecoded snapshot (rs_generation store) (rs_active_slot store))) ∨
     boot_slot device store disk' =
       Returns (Some (MkDecoded snapshot' (next_sequence u64_max (rs_generation store)) target)) ∨
     ∃ encoded, torn device (w_disk w) disk' (slot_lba target) (rs_storage_key store) encoded) ∧
    (is_ok r = true → boot_slot device store disk' =
       Returns (Some (MkDecoded snapshot' (next_sequence u64_max (rs_generation store)) target))).
Proof. intros store Hsy Hs Hv Ho Ht. exact (commit_cut device w snapshot snapshot' tear fuse Hsy Hs Hv Ho Ht). Qed.

(** C7. A commit of an intact snapshot returns.  If it is acknowledged, the store holds the new state, the
    next boot selects it, and the store agrees with the disk again unless the
    older layout finds a newer state inside slot A; if it fails, the store is
    unchanged and the next boot still finds the old or the new state, unless the slot
    is left half-written with mixed bytes that pass their check and make the decoder
    panic. *)
Theorem store_commit_durable device w snapshot snapshot' :
  let store := w_store w in
  synced device store (w_disk w) snapshot → snapshot_intact snapshot' → validate_snapshot snapshot' = Ok tt →
  owned_by (rs_cfc store) (rs_primary_dimension store) snapshot' = true →
  let target := Z.lxor (rs_active_slot store) 1 in
  ∃ w' r, commit_locked snapshot' w = Returns (w', r) ∧
    match r with
    | Ok g =>
        g = next_sequence u64_max (rs_generation store) ∧ current_snapshot w' (rs_cfc store) = Some snapshot' ∧
        boot_slot device store (w_disk w') = Returns (Some (MkDecoded snapshot' g target)) ∧
        ((∀ h, read_sector device (w_disk w') (legacy_lba (rs_active_slot store)) = Ok h →
            header_quiet (rs_cfc store) g h) →
         (∃ r, read_legacy_slot device (w_disk w') (rs_active_slot store) (rs_storage_key store) = Returns r) →
         synced device (w_store w') (w_disk w') snapshot')
    | Err _ =>
        w_store w' = store ∧
        (boot_slot device store (w_disk w') =
           Returns (Some (MkDecoded snapshot (rs_generation store) (rs_active_slot store))) ∨
         boot_slot device store (w_disk w') =
           Returns (Some (MkDecoded snapshot' (next_sequence u64_max (rs_generation store)) target)) ∨
         ∃ encoded, torn device (w_disk w) (w_disk w') (slot_lba target) (rs_storage_key store) encoded)
    end.
Proof.
  intros store Hsy Hs Hv Ho target. destruct (commit_locked_returns w snapshot' Hs Hv) as (w' & r & E & Hr).
  exists w', r. split; [done|]. pose proof (sy_device _ _ _ _ Hsy) as Hd. destruct r as [g|e].
  - destruct (commit_locked_ok _ _ _ _ _ Hd Hs Hv (sy_generation _ _ _ _ Hsy) E) as (Eg & Ew & Er).
    destruct (target_slot _ (sy_slot _ _ _ _ Hsy)) as [Ht Et].
    pose proof (commit_frame _ _ _ _ _ Hd (sy_slot _ _ _ _ Hsy) Hs Hv E) as Hf.
    fold store in Eg, Ew, Er, Ht, Et, Hf. fold target in Ew, Er, Ht, Et.
    split_and!; [done| | |].
    + unfold current_snapshot. rewrite Ew. cbn. by rewrite bool_decide_true.
    + rewrite Eg in *. by eapply boot_new.
    + intros Hl Hr'. rewrite Ew. constructor; cbn; try done.
      * rewrite Eg. apply next_generation, Hsy.
      * rewrite Et, Eg in *. by eapply active_becomes_quiet.
  - split; [done|]. apply commit_crash_cases; try done. by apply (commit_locked_interrupted _ _ _ _ (Err e)).
Qed.
End power.

(** ** A disk *)

(** Sectors by address; one that is not 512 bytes is unreadable. *)
Definition demo_readable (sector : list Z) : bool :=
  (length sector =? SECTOR_SIZE)%nat && forallb (λ b, (0 <=? b) && (b <? 256)) sector.

Definition demo_write (disk : Z → list Z) (lba : Z) (sector : list Z) : Z → list Z :=
  λ other, if other =? lba then sector else disk other.

#[export] Instance demo_device : BlockDevice unit (Z → list Z) := {
  device_sectors _ := 2048;
  storage_initialize _ := Ok tt;
  read_sector _ disk lba := if demo_readable (disk lba) then Ok (disk lba) else Err DevTimeout;
  write_sector _ disk lba sector := (demo_write disk lba sector, Ok tt) }.

Lemma demo_readable_spec sector :
  demo_readable sector = true ↔ length sector = SECTOR_SIZE ∧ Forall byte_range sector.
Proof.
  unfold demo_readable. rewrite andb_true_iff, Nat.eqb_eq, forallb_forall, Forall_forall. unfold byte_range.
  split; (intros [Hl Hb]; split; [done|]); intros x Hx; specialize (Hb x);
    rewrite list_elem_of_In in *; specialize (Hb Hx); lia.
Qed.

Lemma demo_touches disk lba sector : touches tt disk lba sector (demo_write disk lba sector).
Proof.
  unfold touches, demo_write. cbn. rewrite Z.eqb_refl. split.
  - intros other Ho. by rewrite (proj2 (Z.eqb_neq _ _) Ho).
  - right. destruct (demo_readable sector); eauto.
Qed.

#[export] Instance demo_device_laws : BlockDeviceLaws unit (Z → list Z) demo_device.
Proof.
  constructor.
  - intros [] disk lba sector. cbn. destruct (demo_readable (disk lba)) eqn:E; [|done]. intros [= <-].
    by apply demo_readable_spec.
  - intros [] disk lba sector disk' r [= <- <-]. apply demo_touches.
  - intros [] disk lba sector disk' Hl Hb [= <-]. cbn. unfold demo_write. rewrite Z.eqb_refl.
    by rewrite (proj2 (demo_readable_spec sector)).
Qed.

#[local] Existing Instance demo_aead.
#[local] Existing Instance demo_aead_laws.

(** Generation 5 of the snapshot in slot A, nothing else. *)
Definition demo_image : list Z :=
  Eval vm_compute in default [] (slot_image demo_snapshot 5 None SLOT_A_LBA).

Definition demo_disk : Z → list Z := λ lba,
  if (64 <=? lba) && (lba <? 67) then sector_of (filled 1536 demo_image) (Z.to_nat (lba - 64))
  else replicate 512 0.

Definition demo_store : RuntimeStore unit :=
  MkStore (Some tt) (CfcFin_from_u128 5) demo_text (Fin_from_u128 1) (Some demo_snapshot) 5 0
    (empty_slots CheckpointInfo CHECKPOINT_CAPACITY) BaseMissing BASELINE_LBA None.

Definition demo_world : World unit (Z → list Z) := MkWorld demo_store (empty_slots BlobStream 8) 1 demo_disk.

Lemma demo_synced : synced tt demo_store demo_disk demo_snapshot.
Proof.
  constructor; [done|by left|done|by unfold word; cbn; lia|by vm_compute|by vm_compute|].
  constructor.
  - intros h [= <-]. left. by vm_compute.
  - intros h [= <-]. left. by vm_compute.
  - exists (Err StVerificationFailed). by vm_compute.
  - exists (Err StVerificationFailed). by vm_compute.
Qed.

(** Power fails during the second sector write of the next commit. *)
Definition demo_next : Snapshot := demo_snapshot <| sn_journal_sequence := 10 |>.

Lemma demo_next_intact : snapshot_intact demo_next.
Proof. destruct demo_snapshot_intact. by constructor. Qed.

Lemma demo_tears : tears (Device := unit) (Disk := Z → list Z) (λ _ disk lba _, demo_write disk lba []).
Proof.
  intros [] disk lba sector. unfold touches, demo_write. cbn. rewrite Z.eqb_refl. split; [|by eauto].
  intros other Ho. by rewrite (proj2 (Z.eqb_neq _ _) Ho).
Qed.

Lemma store_commit_crash_safe_witness :
  ∃ w' r, @commit_locked demo_aead unit _ (power_cut (λ _ disk lba _, demo_write disk lba [])) demo_next
      (cut_world demo_world 1) = Returns (w', r) ∧
    let disk' := (w_disk w').1 in
    (boot_slot tt demo_store disk' = Returns (Some (MkDecoded demo_snapshot 5 0)) ∨
     boot_slot tt demo_store disk' = Returns (Some (MkDecoded demo_next (next_sequence u64_max 5) 1)) ∨
     ∃ encoded, torn tt demo_disk disk' SLOT_B_LBA None encoded) ∧
    (is_ok r = true → boot_slot tt demo_store disk' = Returns (Some (MkDecoded demo_next (next_sequence u64_max 5) 1))).
Proof.
  refine (store_commit_crash_safe tt demo_world demo_snapshot demo_next _ 1
    demo_synced demo_next_intact _ _ demo_tears); by vm_compute.
Defined.

Lemma store_commit_durable_witness :
  ∃ w' r, commit_locked demo_next demo_world = Returns (w', r) ∧
    match r with
    | Ok g => g = 6 ∧ boot_slot tt demo_store (w_disk w') = Returns (Some (MkDecoded demo_next g 1))
    | Err _ => w_store w' = demo_store
    end.
Proof.
  destruct (store_commit_durable tt demo_world demo_snapshot demo_next demo_synced demo_next_intact)
    as (w' & r & E & Hr); [by vm_compute..|].
  exists w', r. split; [exact E|]. destruct r as [g|e]; [|by destruct Hr].
  destruct Hr as (Hg & _ & Hb & _). split; [exact Hg|exact Hb].
Defined.
