(* ===== verification/StoreArchive.v ===== *)
(** * Checkpoints and the protected baseline

    The recovery points of kernel/src/expfs_store.rs against what they are for.
    The archive is the list of checkpoints that were recorded, newest first, and
    the baseline of the installation.  The table of eight checkpoints and the
    baseline region implement it: through any sequence of calls, failed ones
    included, exactly the newest eight checkpoints are listed, each restores to the
    state it was recorded from, except that a failed recording may have written over
    the oldest, and the baseline stays the state it was established from. *)

From stdpp Require Import prelude list strings sorting.
From Stdlib Require Import ZArith Lia.
From S2P Require Import Prelude Identity Bytes Blob Registry Crypto StoreCodec StoreRoundtrip StoreTyped.
From S2P Require Import StoreDisk Store StoreReads StoreCrash.

Set Default Goal Selector "!".
Open Scope Z_scope.
Open Scope expos_scope.

(** ** Lemmas: the ring of identifiers *)

Lemma fold_max_spec (l : list Z) m : m ≤ fold_left Z.max l m ∧ ∀ x, x ∈ l → x ≤ fold_left Z.max l m.
Proof.
  revert m. induction l as [|y l IH]; intros m; cbn [fold_left]; [split; [lia|by intros x ?%elem_of_nil]|].
  destruct (IH (Z.max m y)) as [H1 H2]. split; [lia|]. intros x [->|Hx]%elem_of_cons; [lia|by apply H2].
Qed.

Lemma fold_max_bound (l : list Z) m b : m ≤ b → (∀ x, x ∈ l → x ≤ b) → fold_left Z.max l m ≤ b.
Proof.
  revert m. induction l as [|y l IH]; intros m Hm Hl; cbn [fold_left]; [done|].
  apply IH; [|intros x Hx; apply Hl; by right]. assert (y ≤ b) by (apply Hl; by left). lia.
Qed.

(** Replacing the smallest of the newest [n] by a larger one keeps the newest [n]. *)
Lemma newest_replace (ids rest : list Z) (z new : Z) (n : nat) :
  StronglySorted Z.gt ids → z :: rest ≡ₚ take (S n) ids → length (take (S n) ids) = S n →
  (∀ y, y ∈ take (S n) ids → z ≤ y) → new :: rest ≡ₚ take (S n) (new :: ids).
Proof.
  intros Hs Hp Hl Hmin. cbn [take]. f_equiv.
  assert (n < length ids)%nat as Hn by (rewrite length_take in Hl; lia).
  destruct (lookup_lt_is_Some_2 ids n Hn) as [x Hx]. rewrite (take_S_r _ _ _ Hx) in Hp, Hmin.
  assert (x = z) as ->.
  { assert (z ∈ take n ids ++ [x]) as Hz by (rewrite <- Hp; by left).
    apply elem_of_app in Hz as [Hz| ->%list_elem_of_singleton]; [|done].
    assert (z ≤ x) by (apply Hmin, elem_of_app; right; by left).
    rewrite <- (take_drop n ids) in Hs. apply StronglySorted_app in Hs as (Hgt & _ & _).
    specialize (Hgt z x Hz). assert (x ∈ drop n ids) as Hd by (rewrite (drop_S _ _ _ Hx); by left).
    specialize (Hgt Hd). lia. }
  rewrite <- Permutation_cons_append in Hp. by apply Permutation_cons_inv in Hp.
Qed.

Lemma sorted_NoDup (l : list Z) : StronglySorted Z.gt l → NoDup l.
Proof.
  induction 1 as [|x l _ IH Hx]; constructor; [|done]. intros Hin. rewrite Forall_forall in Hx. specialize (Hx x Hin). lia.
Qed.

Section archive.
Context {A : Aead} {AL : AeadLaws A} {Device Disk : Type} {B : BlockDevice Device Disk}
  {BL : BlockDeviceLaws Device Disk B}.
Implicit Types (device : Device) (disk : Disk) (w : World Device Disk).

(** ** Specification *)

(** Checkpoints, newest first, the baseline, and whether the oldest of the eight that are
    kept is still whole: recording writes over it before the new one is verified. *)
Record Archive := MkArchive { ar_log : list (Z * Snapshot); ar_baseline : option Snapshot; ar_whole : bool }.

(** The calls on the recovery points, whatever they return. *)
Inductive archive_step : World Device Disk → Archive → World Device Disk → Archive → Prop :=
  | archive_commit w a snapshot w' r :
      snapshot_intact snapshot → validate_snapshot snapshot = Ok tt →
      commit_locked snapshot w = Returns (w', r) →
      archive_step w a w' a
  | archive_record w a snapshot w' info :
      rs_snapshot (w_store w) = Some snapshot →
      record_checkpoint w = Returns (w', Ok info) →
      archive_step w a w' (MkArchive ((ci_state_id info, snapshot) :: ar_log a) (ar_baseline a) true)
  | archive_record_fails w a w' e :
      record_checkpoint w = Returns (w', Err e) →
      archive_step w a w' (MkArchive (ar_log a) (ar_baseline a) (length (ar_log a) <? CHECKPOINT_CAPACITY)%nat)
  | archive_establish w a w' info :
      establish_baseline w = Returns (w', Ok info) →
      archive_step w a w'
        (MkArchive (ar_log a) (match ar_baseline a with Some s => Some s | None => rs_snapshot (w_store w) end) (ar_whole a))
  | archive_establish_fails w a w' e :
      establish_baseline w = Returns (w', Err e) → archive_step w a w' a
  | archive_restore w a id w' r :
      restore_checkpoint id w = Returns (w', r) → archive_step w a w' a
  | archive_restore_baseline w a w' r :
      restore_baseline w = Returns (w', r) → archive_step w a w' a.

(** The checkpoint is whole: a younger one than the oldest always is. *)
Definition certain (a : Archive) (id : Z) : Prop :=
  ar_whole a = true ∨ ∃ other, other ∈ take CHECKPOINT_CAPACITY (ar_log a).*1 ∧ other < id.

(** Sequences of [n] calls. *)
Inductive archive_run : nat → World Device Disk → Archive → World Device Disk → Archive → Prop :=
  | archive_done w a : archive_run 0 w a w a
  | archive_then n w a w1 a1 w' a' :
      archive_step w a w1 a1 → archive_run n w1 a1 w' a' → archive_run (S n) w a w' a'.

(** What the table and the disk hold for the checkpoint in slot [k]. *)
Record stored device w (a : Archive) (k : nat) (info : CheckpointInfo) (snapshot : Snapshot) : Prop := {
  sd_legacy : ci_legacy info = false;
  sd_slot : ci_slot info = Z.of_nat k;
  sd_read : certain a (ci_state_id info) → read_at device (w_disk w) (checkpoint_lba k) (Z.of_nat k) (rs_storage_key (w_store w)) =
    Returns (Ok (MkDecoded snapshot (ci_state_id info) (Z.of_nat k))) }.

Definition baseline_ok device w (baseline : option Snapshot) : Prop :=
  match rs_baseline (w_store w) with
  | BaseReady _ => ∃ s g, baseline = Some s ∧ rs_baseline_lba (w_store w) = BASELINE_LBA ∧
      read_at device (w_disk w) BASELINE_LBA u8_max (rs_storage_key (w_store w)) = Returns (Ok (MkDecoded s g u8_max))
  | _ => baseline = None
  end.

(** The table and the disk implement the archive, whose identifiers are at most [top]. *)
Record archive_ok device w (a : Archive) (top : Z) : Prop := {
  ao_device : rs_device (w_store w) = Some device;
  ao_generation : word 8 (rs_generation (w_store w));
  ao_current : ∀ s, rs_snapshot (w_store w) = Some s → snapshot_intact s ∧ validate_snapshot s = Ok tt;
  ao_length : length (rs_checkpoints (w_store w)) = CHECKPOINT_CAPACITY;
  ao_sorted : StronglySorted Z.gt (ar_log a).*1;
  ao_range : ∀ id, id ∈ (ar_log a).*1 → 0 < id ≤ top;
  ao_ids : ci_state_id <$> flatten (rs_checkpoints (w_store w)) ≡ₚ take CHECKPOINT_CAPACITY (ar_log a).*1;
  ao_stored : ∀ k info, rs_checkpoints (w_store w) !! k = Some (Some info) →
    ∃ s, (ci_state_id info, s) ∈ ar_log a ∧ stored device w a k info s;
  ao_whole : ar_whole a = false → (CHECKPOINT_CAPACITY ≤ length (ar_log a))%nat;
  ao_baseline : baseline_ok device w (ar_baseline a) }.

(** ** Lemmas: where the calls write *)

Lemma write_at_frame device disk base encoded len disk' r lba :
  write_at device disk base encoded len = (disk', r) →
  lba < base ∨ base + Z.of_nat SLOT_SECTORS ≤ lba →
  read_sector device disk' lba = read_sector device disk lba.
Proof.
  unfold write_at. set (sectors := div_ceil _ _). intros E Hl.
  destruct ((sectors =? 0)%nat || (SLOT_SECTORS <? sectors)%nat) eqn:Es; [by injection E as <- _|].
  apply orb_false_iff in Es as [E1 E2]. apply Nat.eqb_neq in E1. apply Nat.ltb_ge in E2.
  apply write_sectors_interrupted in E. eapply interrupted_frame; [exact E| |lia]. intros i Hi. lia.
Qed.

Definition outside device w w' (lo hi : Z) : Prop :=
  ∀ lba, lba < lo ∨ hi ≤ lba → read_sector device (w_disk w') lba = read_sector device (w_disk w) lba.

Lemma outside_read device w w' lo hi base slot key :
  outside device w w' lo hi → base + Z.of_nat SLOT_SECTORS ≤ lo ∨ hi ≤ base →
  read_at device (w_disk w') base slot key = read_at device (w_disk w) base slot key.
Proof. intros Ho Hb. apply read_at_frame. intros i Hi. apply Ho. lia. Qed.

Lemma checkpoint_lba_eq k : checkpoint_lba k = 320 + 128 * Z.of_nat k.
Proof. unfold checkpoint_lba. change CHECKPOINT_LBA with 320. unfold SLOT_SECTORS. lia. Qed.

Ltac run_op :=
  unfold mbind, op_mbind, op_bind, op_get, op_some, op_ret, op_fail, op_encode, op_outcome, op_write_at,
    op_verify, op_store.

Lemma commit_effect device snapshot w w' r :
  rs_device (w_store w) = Some device → commit_locked snapshot w = Returns (w', r) →
  outside device w w' SLOT_A_LBA CHECKPOINT_LBA ∧
  (w_store w' = w_store w ∨
   w_store w' = (w_store w) <| rs_snapshot := Some snapshot |>
     <| rs_generation := next_sequence u64_max (rs_generation (w_store w)) |>
     <| rs_active_slot := Z.lxor (rs_active_slot (w_store w)) 1 |>).
Proof.
  intros Hd. unfold commit_locked. run_op. rewrite Hd. cbv zeta.
  destruct (encode_slot _ _ _ _) as [[[encoded len]|e]| |]; [|intros [= <- <-]; split; [by intros ?|by left]|done..].
  destruct (write_at _ _ _ _ _) as [disk1 r1] eqn:Ew.
  assert (∀ lba, lba < SLOT_A_LBA ∨ CHECKPOINT_LBA ≤ lba →
    read_sector device disk1 lba = read_sector device (w_disk w) lba) as Ho.
  { intros lba Hl. eapply write_at_frame; [exact Ew|]. change CHECKPOINT_LBA with 320 in Hl.
    change SLOT_A_LBA with 64 in Hl. unfold slot_lba, SLOT_SECTORS.
    destruct (_ =? 0); [change SLOT_A_LBA with 64|change SLOT_B_LBA with 192]; lia. }
  destruct r1 as [[]|e]; [|intros [= <- <-]; split; [exact Ho|by left]].
  destruct (verify_write _ _ _ _ _) as [[]|e]; intros [= <- <-]; (split; [exact Ho|]); [by right|by left].
Qed.

Lemma record_effect device snapshot w w' info :
  rs_device (w_store w) = Some device → rs_snapshot (w_store w) = Some snapshot →
  snapshot_intact snapshot → validate_snapshot snapshot = Ok tt →
  word 8 (next_state_id (rs_checkpoints (w_store w))) → next_state_id (rs_checkpoints (w_store w)) ≠ 0 →
  record_checkpoint w = Returns (w', Ok info) →
  ∃ k, checkpoint_slot (rs_checkpoints (w_store w)) = Some k ∧
    info = MkCheckpoint (next_state_id (rs_checkpoints (w_store w))) (sn_journal_sequence snapshot) (Z.of_nat k) false ∧
    w_store w' = (w_store w) <| rs_checkpoints := <[k := Some info]> (rs_checkpoints (w_store w)) |> ∧
    outside device w w' (checkpoint_lba k) (checkpoint_lba k + Z.of_nat SLOT_SECTORS) ∧
    read_at device (w_disk w') (checkpoint_lba k) (Z.of_nat k) (rs_storage_key (w_store w)) =
      Returns (Ok (MkDecoded snapshot (ci_state_id info) (Z.of_nat k))).
Proof.
  intros Hd Hsn Hs Hv Hg Hg0. unfold record_checkpoint. run_op. rewrite Hd, Hsn.
  destruct (checkpoint_slot _) as [k|]; [|done]. rewrite encode_slot_spec by done.
  destruct (slot_image _ _ _ _) as [image|] eqn:Ei; [|done].
  destruct (write_at _ _ _ _ _) as [disk1 [[]|e]] eqn:Ew; [|done].
  destruct (verify_write _ _ _ _ _) as [[]|e] eqn:Ev; [|done]. intros [= <- <-].
  exists k. split_and!; [done|done|done| |].
  - intros lba Hl. by eapply write_at_frame.
  - by eapply verified_reads.
Qed.

Lemma record_failure device w w' e :
  rs_device (w_store w) = Some device → record_checkpoint w = Returns (w', Err e) →
  w_store w' = w_store w ∧ (w_disk w' = w_disk w ∨
    ∃ k, checkpoint_slot (rs_checkpoints (w_store w)) = Some k ∧
      outside device w w' (checkpoint_lba k) (checkpoint_lba k + Z.of_nat SLOT_SECTORS)).
Proof.
  intros Hd. unfold record_checkpoint. run_op. destruct (rs_snapshot (w_store w)); [|intros [= <- _]; by auto]. rewrite Hd.
  destruct (checkpoint_slot _) as [k|]; [|intros [= <- _]; by auto].
  destruct (encode_slot _ _ _ _) as [[[encoded len]|e']| |]; [|intros [= <- _]; by auto|done..].
  destruct (write_at _ _ _ _ _) as [disk1 r1] eqn:Ew.
  assert (outside device w (w <| w_disk := disk1 |>) (checkpoint_lba k) (checkpoint_lba k + Z.of_nat SLOT_SECTORS)) as Ho
    by (intros lba Hl; by eapply write_at_frame).
  destruct r1 as [[]|e']; [|intros [= <- _]; by eauto].
  destruct (verify_write _ _ _ _ _) as [[]|e']; [done|]. intros [= <- _]. eauto.
Qed.

Lemma establish_failure device w w' e :
  rs_device (w_store w) = Some device → establish_baseline w = Returns (w', Err e) →
  (∀ info, rs_baseline (w_store w) ≠ BaseReady info) ∧
  (w_store w' = w_store w ∨ w_store w' = (w_store w) <| rs_baseline := BaseDamaged |>) ∧
  outside device w w' BASELINE_LBA (BASELINE_LBA + Z.of_nat SLOT_SECTORS).
Proof.
  intros Hd. assert (outside device w w BASELINE_LBA (BASELINE_LBA + Z.of_nat SLOT_SECTORS)) as Hw by (by intros ?).
  unfold establish_baseline. run_op.
  destruct (rs_baseline (w_store w)) as [|info'|]; [|done|intros [= <- _]; by auto].
  destruct (rs_snapshot (w_store w)) as [s|]; [|intros [= <- _]; by auto]. rewrite Hd.
  destruct (encode_slot _ _ _ _) as [[[encoded len]|e']| |]; [|intros [= <- _]; by auto|done..].
  destruct (write_at _ _ _ _ _) as [disk1 r1] eqn:Ew.
  assert (outside device w (w <| w_disk := disk1 |>) BASELINE_LBA (BASELINE_LBA + Z.of_nat SLOT_SECTORS)) as Ho
    by (intros lba Hl; by eapply write_at_frame).
  destruct r1 as [[]|e']; [|intros [= <- _]; by auto]. cbn [w_disk].
  destruct (negb _); [|done]. intros [= <- _]. auto.
Qed.

Lemma establish_effect device w w' info :
  rs_device (w_store w) = Some device → word 8 (rs_generation (w_store w)) →
  (∀ s, rs_snapshot (w_store w) = Some s → snapshot_intact s ∧ validate_snapshot s = Ok tt) →
  establish_baseline w = Returns (w', Ok info) →
  w' = w ∧ rs_baseline (w_store w) = BaseReady info ∨
  ∃ s g, rs_baseline (w_store w) = BaseMissing ∧ rs_snapshot (w_store w) = Some s ∧
    w_store w' = (w_store w) <| rs_baseline := BaseReady info |> <| rs_baseline_lba := BASELINE_LBA |> ∧
    outside device w w' BASELINE_LBA (BASELINE_LBA + Z.of_nat SLOT_SECTORS) ∧
    read_at device (w_disk w') BASELINE_LBA u8_max (rs_storage_key (w_store w)) =
      Returns (Ok (MkDecoded s g u8_max)).
Proof.
  intros Hd Hg Hcur. unfold establish_baseline. run_op.
  destruct (rs_baseline (w_store w)) as [|info'|]; [|intros [= <- <-]; by left|done].
  destruct (rs_snapshot (w_store w)) as [s|]; [|done]. destruct (Hcur s eq_refl) as [Hs Hv]. rewrite Hd.
  rewrite encode_slot_spec by done. destruct (slot_image _ _ _ _) as [image|] eqn:Ei; [|done].
  destruct (write_at _ _ _ _ _) as [disk1 [[]|e]] eqn:Ew; [|done].
  cbn [w_disk]. destruct (verify_write _ _ _ _ _) as [[]|e] eqn:Ev; [|done]. intros [= <- <-].
  right. do 2 eexists. split_and!; [done|done|done| |].
  - intros lba Hl. by eapply write_at_frame.
  - eapply verified_reads; [done|done| | |exact Ei|exact Ev]; [|lia]. unfold word in *. lia.
Qed.

(** ** Lemmas: the invariant *)

Lemma stored_frame device w w' a a' lo hi k info s :
  stored device w a k info s → (certain a' (ci_state_id info) → certain a (ci_state_id info)) →
  rs_storage_key (w_store w') = rs_storage_key (w_store w) → outside device w w' lo hi →
  checkpoint_lba k + Z.of_nat SLOT_SECTORS ≤ lo ∨ hi ≤ checkpoint_lba k →
  stored device w' a' k info s.
Proof.
  intros [Hl Hs Hr] Hc Ekey Ho Hb. constructor; [done|done|]. intros Ha. rewrite Ekey, <- Hr by auto.
  by eapply outside_read.
Qed.

Lemma baseline_frame device w w' lo hi baseline :
  baseline_ok device w baseline → rs_storage_key (w_store w') = rs_storage_key (w_store w) →
  rs_baseline (w_store w') = rs_baseline (w_store w) →
  rs_baseline_lba (w_store w') = rs_baseline_lba (w_store w) →
  outside device w w' lo hi → hi ≤ BASELINE_LBA → baseline_ok device w' baseline.
Proof.
  unfold baseline_ok. intros Hb Ek E1 E2 Ho Hh. rewrite E1, E2, Ek.
  destruct (rs_baseline (w_store w)); try done. destruct Hb as (s & g & -> & El & Hr).
  exists s, g. split_and!; [done|done|]. rewrite <- Hr. eapply outside_read; [done|by right].
Qed.

Lemma archive_ok_commit device w a top snapshot w' r :
  archive_ok device w a top → snapshot_intact snapshot → validate_snapshot snapshot = Ok tt →
  commit_locked snapshot w = Returns (w', r) → archive_ok device w' a top.
Proof.
  intros [Hd Hg Hc Hl Hs Hp Hi Hst Hfull Hb] Ht Hv E. destruct (commit_effect _ _ _ _ _ Hd E) as [Ho Hw].
  assert (rs_checkpoints (w_store w') = rs_checkpoints (w_store w) ∧
    rs_storage_key (w_store w') = rs_storage_key (w_store w) ∧ rs_device (w_store w') = rs_device (w_store w) ∧
    rs_baseline (w_store w') = rs_baseline (w_store w) ∧
    rs_baseline_lba (w_store w') = rs_baseline_lba (w_store w)) as (Ec & Ek & Ed & Eb & El)
    by (destruct Hw as [-> | ->]; done).
  constructor; rewrite ?Ec, ?Ed; try done.
  - destruct Hw as [-> | ->]; [done|]. by apply next_generation.
  - destruct Hw as [-> | ->]; [done|]. cbn. by intros s [= <-].
  - intros k info Hin. destruct (Hst k info Hin) as (s & Hlog & Hstored). exists s. split; [done|].
    eapply stored_frame; [done|done|done|done|]. right. rewrite checkpoint_lba_eq.
    change CHECKPOINT_LBA with 320. lia.
  - by eapply baseline_frame.
Qed.

Lemma archive_ok_establish device w a top w' info :
  archive_ok device w a top → establish_baseline w = Returns (w', Ok info) →
  archive_ok device w' (MkArchive (ar_log a)
    (match ar_baseline a with Some s => Some s | None => rs_snapshot (w_store w) end) (ar_whole a)) top.
Proof.
  intros [Hd Hg Hc Hl Hs Hp Hi Hst Hfull Hb] E.
  destruct (establish_effect _ _ _ _ Hd Hg Hc E) as [[-> Er]|(s & g & Em & Es & Ew & Ho & Hread)].
  - constructor; try done.
    + intros k c Hin. destruct (Hst k c Hin) as (s' & Hlog & []). by exists s'.
    + unfold baseline_ok in *. rewrite Er in *. destruct Hb as (s & g & -> & Hb). by exists s, g.
  - constructor; rewrite ?Ew; try done.
    + intros k c Hin. destruct (Hst k c Hin) as (s' & Hlog & Hstored). exists s'. split; [done|].
      eapply stored_frame; [done|done|by rewrite Ew|done|]. left. rewrite checkpoint_lba_eq.
      apply (lookup_lt_Some (rs_checkpoints (w_store w))) in Hin. change BASELINE_LBA with 1344. unfold CHECKPOINT_CAPACITY, SLOT_SECTORS in *. lia.
    + unfold baseline_ok in *. rewrite Em in Hb. rewrite Ew. cbn. rewrite Hb, Es. by exists s, g.
Qed.

Lemma archive_ok_establish_fails device w a top w' e :
  archive_ok device w a top → establish_baseline w = Returns (w', Err e) → archive_ok device w' a top.
Proof.
  intros [Hd Hg Hc Hl Hs Hp Hi Hst Hfull Hb] E. destruct (establish_failure _ _ _ _ Hd E) as (Hn & Hw & Ho).
  assert (rs_checkpoints (w_store w') = rs_checkpoints (w_store w) ∧
    rs_storage_key (w_store w') = rs_storage_key (w_store w) ∧ rs_device (w_store w') = rs_device (w_store w) ∧
    rs_snapshot (w_store w') = rs_snapshot (w_store w) ∧ rs_generation (w_store w') = rs_generation (w_store w))
    as (Ec & Ek & Ed & Es & Eg) by (destruct Hw as [-> | ->]; done).
  constructor; rewrite ?Ec, ?Ed, ?Es, ?Eg; try done.
  - intros k c Hin. destruct (Hst k c Hin) as (s' & Hlog & Hstored). exists s'. split; [done|].
    eapply stored_frame; [done|done|done|done|]. left. rewrite checkpoint_lba_eq.
    apply (lookup_lt_Some (rs_checkpoints (w_store w))) in Hin. change BASELINE_LBA with 1344. unfold CHECKPOINT_CAPACITY, SLOT_SECTORS in *. lia.
  - unfold baseline_ok in *. assert (ar_baseline a = None) as ->.
    { destruct (rs_baseline (w_store w)) as [|info|]; [done| |done]. by destruct (Hn info). }
    destruct Hw as [-> | ->]; [|done]. destruct (rs_baseline (w_store w)) as [|info|]; [done| |done]. by destruct (Hn info).
Qed.

Lemma indexed_spec (t : slots CheckpointInfo) k id :
  (k, id) ∈ indexed_checkpoints t ↔ ∃ info, t !! k = Some (Some info) ∧ id = ci_state_id info.
Proof.
  unfold indexed_checkpoints. rewrite list_elem_of_omap. split.
  - intros ([i entry] & Hin & E). apply list_elem_of_lookup in Hin as [j Hj].
    apply lookup_zip_Some in Hj as [H1 H2]. apply lookup_seq in H1 as [-> _]. destruct entry as [info|]; [|done].
    injection E as <- <-. by exists info.
  - intros (info & Hk & ->). exists (k, Some info). split; [|done]. apply list_elem_of_lookup. exists k.
    apply lookup_zip_Some. split; [|done]. apply lookup_seq. apply lookup_lt_Some in Hk. lia.
Qed.

(** Recording writes a free slot, or the one with the smallest identifier. *)
Lemma checkpoint_slot_ring (t : slots CheckpointInfo) (ids : list Z) k info :
  length t = CHECKPOINT_CAPACITY → StronglySorted Z.gt ids →
  ci_state_id <$> flatten t ≡ₚ take CHECKPOINT_CAPACITY ids → checkpoint_slot t = Some k →
  (k < CHECKPOINT_CAPACITY)%nat ∧
  ci_state_id <$> flatten (<[k := Some info]> t) ≡ₚ take CHECKPOINT_CAPACITY (ci_state_id info :: ids).
Proof.
  intros Hl Hs Hp. unfold checkpoint_slot. pose proof (position_fill_slot info t) as Hf.
  assert (length (flatten t) = length (take CHECKPOINT_CAPACITY ids)) as Hlen
    by (rewrite <- Hp; by rewrite length_fmap).
  destruct (position slot_is_none t) as [i|] eqn:Ep.
  - intros [= <-]. cbn in Hf. apply position_Some in Ep as (x & Hx & _). apply lookup_lt_Some in Hx.
    split; [lia|]. pose proof (fill_slot_count _ _ _ Hf) as Hn.
    rewrite (fill_slot_perm _ _ _ Hf). cbn [fmap list_fmap]. rewrite Hp.
    pose proof (length_flatten (<[i:=Some info]> t)) as Hb. rewrite length_insert in Hb.
    rewrite length_take in Hlen. rewrite !take_ge by (cbn [length]; lia). done.
  - destruct (min_by_key _ _) as [[j id]|] eqn:Em; [|done]. intros [= <-].
    apply min_by_key_Some in Em as [Hin Hmin]. apply indexed_spec in Hin as (old & Hj & ->).
    pose proof (lookup_lt_Some _ _ _ Hj) as Hjl. split; [lia|].
    apply fill_slot_None in Hf. destruct (flatten_write t j old Hj) as (rest & Hr & _ & Hw).
    rewrite Hw. cbn [fmap list_fmap]. rewrite Hr in Hp. cbn [fmap list_fmap] in Hp.
    apply (newest_replace _ _ (ci_state_id old) _ 7); [done|done|unfold CHECKPOINT_CAPACITY in *; lia|].
    intros y Hy. change (S 7) with CHECKPOINT_CAPACITY in Hy. rewrite <- Hp in Hy.
    change (ci_state_id old :: (ci_state_id <$> rest)) with (ci_state_id <$> (old :: rest)) in Hy.
    rewrite <- Hr in Hy. apply list_elem_of_fmap in Hy as (c & -> & Hc).
    apply elem_of_flatten_lookup in Hc as [i Hi]. apply (Hmin (i, ci_state_id c)). apply indexed_spec. by exists c.
Qed.

Lemma next_state_id_spec (t : slots CheckpointInfo) (ids : list Z) top :
  StronglySorted Z.gt ids → (∀ id, id ∈ ids → 0 < id ≤ top) → 0 ≤ top < u64_max →
  ci_state_id <$> flatten t ≡ₚ take CHECKPOINT_CAPACITY ids →
  0 < next_state_id t ≤ top + 1 ∧ ∀ id, id ∈ ids → id < next_state_id t.
Proof.
  intros Hs Hr Ht Hp. unfold next_state_id. set (m := fold_left _ _ _).
  assert (∀ x, x ∈ ci_state_id <$> flatten t → x ∈ ids) as Hsub.
  { intros x Hx. rewrite Hp in Hx. apply elem_of_take in Hx as (i & Hx & _). by apply list_elem_of_lookup_2 in Hx. }
  destruct (fold_max_spec (ci_state_id <$> flatten t) 0) as [Hm0 Hm]. fold m in Hm0, Hm.
  assert (m ≤ top) as Hmt.
  { apply fold_max_bound; [lia|]. intros x Hx. by apply Hr, Hsub. }
  assert (next_sequence u64_max m = m + 1) as ->.
  { unfold next_sequence, wrapping_add. rewrite Z.mod_small by lia. lia. }
  split; [lia|]. intros id Hid. destruct ids as [|h ids]; [by apply elem_of_nil in Hid|].
  assert (h ≤ m) by (apply Hm; rewrite Hp; by left).
  apply StronglySorted_inv in Hs as [_ Hs]. apply elem_of_cons in Hid as [->|Hid]; [lia|].
  rewrite Forall_forall in Hs. specialize (Hs id Hid). lia.
Qed.

(** The slot that recording writes is free, or the oldest, and then all eight are taken. *)
Lemma checkpoint_slot_oldest device w a top k j c :
  archive_ok device w a top → checkpoint_slot (rs_checkpoints (w_store w)) = Some k → j ≠ k →
  rs_checkpoints (w_store w) !! j = Some (Some c) →
  ((length (ar_log a) < CHECKPOINT_CAPACITY)%nat ∧ ar_whole a = true) ∨ certain a (ci_state_id c).
Proof.
  intros [Hd Hg Hc Hl Hs Hp Hi Hst Hfull Hb] Hk Hne Hj. set (t := rs_checkpoints (w_store w)) in *. unfold checkpoint_slot in Hk.
  destruct (position slot_is_none t) as [i|] eqn:Ep.
  - left. pose proof (position_fill_slot c t) as Hf. rewrite Ep in Hf. cbn in Hf.
    pose proof (fill_slot_count _ _ _ Hf) as Hcount.
    pose proof (length_flatten (<[i:=Some c]> t)) as Hb'. rewrite length_insert, Hl in Hb'.
    apply Permutation_length in Hi. rewrite length_fmap, length_take, length_fmap in Hi.
    assert (length (ar_log a) < CHECKPOINT_CAPACITY)%nat as Hlt by lia.
    split; [done|]. destruct (ar_whole a); [done|]. specialize (Hfull eq_refl). lia.
  - right. destruct (min_by_key _ _) as [[i id]|] eqn:Em; [|done]. injection Hk as <-.
    apply min_by_key_Some in Em as [Hin Hmin]. apply indexed_spec in Hin as (old & Hold & ->).
    right. exists (ci_state_id old). split.
    + rewrite <- Hi. apply list_elem_of_fmap. exists old. split; [done|]. by eapply flatten_lookup.
    + assert (ci_state_id old ≤ ci_state_id c) as Hle by (apply (Hmin (j, ci_state_id c)), indexed_spec; by exists c).
      enough (ci_state_id old ≠ ci_state_id c) by lia. intros E. apply Hne.
      assert (NoDup (ci_state_id <$> flatten t)) as Hnd.
      { rewrite Hi. rewrite <- (take_drop CHECKPOINT_CAPACITY (ar_log a).*1) in Hs.
        apply StronglySorted_app in Hs as (_ & Hs & _). by apply sorted_NoDup. }
      by eapply (flatten_inj ci_state_id t).
Qed.

Lemma slot_is_oldest device w a top k c :
  archive_ok device w a top → checkpoint_slot (rs_checkpoints (w_store w)) = Some k →
  rs_checkpoints (w_store w) !! k = Some (Some c) →
  (CHECKPOINT_CAPACITY ≤ length (ar_log a))%nat ∧
  ∀ other, other ∈ take CHECKPOINT_CAPACITY (ar_log a).*1 → ci_state_id c ≤ other.
Proof.
  intros [Hd Hg Hc Hl Hs Hp Hi Hst Hfull Hb] Hk Hj. set (t := rs_checkpoints (w_store w)) in *. unfold checkpoint_slot in Hk.
  destruct (position slot_is_none t) as [i|] eqn:Ep.
  - injection Hk as <-. apply position_Some in Ep as (x & Hx & Hn). rewrite Hx in Hj. by injection Hj as ->.
  - destruct (min_by_key _ _) as [[i id]|] eqn:Em; [|done]. injection Hk as ->.
    apply min_by_key_Some in Em as [Hin Hmin]. apply indexed_spec in Hin as (old & Hold & ->).
    assert (old = c) as -> by congruence. split.
    + pose proof (position_fill_slot c t) as Hf. rewrite Ep in Hf. apply fill_slot_None in Hf.
      apply Permutation_length in Hi. rewrite length_fmap, length_take, length_fmap in Hi. lia.
    + intros other Ho. rewrite <- Hi in Ho. apply list_elem_of_fmap in Ho as (o & -> & Ho).
      apply elem_of_flatten_lookup in Ho as [i Hi']. apply (Hmin (i, ci_state_id o)), indexed_spec. by exists o.
Qed.

Lemma archive_ok_record device w a top snapshot w' info :
  archive_ok device w a top → 0 ≤ top < u64_max → rs_snapshot (w_store w) = Some snapshot →
  record_checkpoint w = Returns (w', Ok info) →
  archive_ok device w' (MkArchive ((ci_state_id info, snapshot) :: ar_log a) (ar_baseline a) true) (top + 1).
Proof.
  intros Hok Htop Hsn E. pose proof Hok as [Hd Hg Hc Hl Hs Hp Hi Hst Hfull Hb]. destruct (Hc _ Hsn) as [Ht Hv].
  destruct (next_state_id_spec _ _ _ Hs Hp Htop Hi) as [Hn Hnew].
  assert (word 8 (next_state_id (rs_checkpoints (w_store w)))) as Hw.
  { unfold word. change (256 ^ Z.of_nat 8) with (u64_max + 1). lia. }
  destruct (record_effect device snapshot w w' info Hd Hsn Ht Hv Hw ltac:(lia) E) as (k & Ek & Einfo & Ew & Ho & Hread).
  destruct (checkpoint_slot_ring _ _ k info Hl Hs Hi Ek) as [Hk Hring].
  assert (ci_state_id info = next_state_id (rs_checkpoints (w_store w))) as Eid by (by rewrite Einfo).
  constructor; rewrite ?Ew; cbn [ar_log ar_baseline fmap list_fmap fst]; try done.
  - cbn. by rewrite length_insert.
  - constructor; [done|]. apply Forall_forall. intros id Hid. rewrite Eid. specialize (Hnew id Hid). lia.
  - intros id [->|Hid]%elem_of_cons; [rewrite Eid; lia|]. specialize (Hp id Hid). lia.
  - intros j c Hj. cbn in Hj. destruct (decide (j = k)) as [->|Hne].
    + rewrite list_lookup_insert_eq in Hj by lia. injection Hj as <-. exists snapshot. split; [by left|].
      constructor; [by rewrite Einfo|by rewrite Einfo|]. intros _. rewrite Ew. exact Hread.
    + rewrite list_lookup_insert_ne in Hj by done. destruct (Hst j c Hj) as (s & Hlog & Hstored).
      exists s. split; [by right|]. eapply stored_frame; [done| |by rewrite Ew|done|].
      * intros _. destruct (checkpoint_slot_oldest _ _ _ _ _ _ _ Hok Ek Hne Hj) as [[_ ?]|?]; [by left|done].
      * rewrite !checkpoint_lba_eq. unfold SLOT_SECTORS. lia.
  - eapply baseline_frame; [done|by rewrite Ew|by rewrite Ew|by rewrite Ew|done|].
    rewrite checkpoint_lba_eq. change BASELINE_LBA with 1344. unfold SLOT_SECTORS, CHECKPOINT_CAPACITY in *. lia.
Qed.

(** A failed call writes over the oldest checkpoint only. *)
Lemma archive_ok_record_fails device w a top w' e :
  archive_ok device w a top → record_checkpoint w = Returns (w', Err e) →
  archive_ok device w' (MkArchive (ar_log a) (ar_baseline a) (length (ar_log a) <? CHECKPOINT_CAPACITY)%nat) top.
Proof.
  intros Hok E. pose proof Hok as [Hd Hg Hc Hl Hs Hp Hi Hst Hfull Hb].
  destruct (record_failure _ _ _ _ Hd E) as [Ew Hw].
  assert (∀ id, certain (MkArchive (ar_log a) (ar_baseline a) (length (ar_log a) <? CHECKPOINT_CAPACITY)%nat) id →
    certain a id) as Hcert.
  { intros id [Hlt|Ho]; [|by right]. cbn [ar_whole] in Hlt. apply Nat.ltb_lt in Hlt. left.
    destruct (ar_whole a); [done|]. specialize (Hfull eq_refl). lia. }
  constructor; rewrite ?Ew; try done.
  - intros j c Hj. destruct (Hst j c Hj) as (s & Hlog & Hstored). exists s. split; [done|].
    destruct Hw as [Ed|(k & Ek & Ho)].
    { destruct Hstored as [H1 H2 H3]. constructor; [done|done|]. intros Ha. rewrite Ed, Ew. auto. }
    destruct (decide (j = k)) as [->|Hne].
    + destruct Hstored as [H1 H2 H3]. constructor; [done|done|]. intros Ha. exfalso.
      destruct (slot_is_oldest _ _ _ _ _ _ Hok Ek Hj) as [Hlen Hmin]. destruct Ha as [Ha|(other & Hin & Hlt)].
      * cbn [ar_whole] in Ha. apply Nat.ltb_lt in Ha. lia.
      * specialize (Hmin other Hin). lia.
    + eapply stored_frame; [done|apply Hcert|by rewrite Ew|done|]. rewrite !checkpoint_lba_eq. unfold SLOT_SECTORS. lia.
  - cbn [ar_whole]. intros ?%Nat.ltb_ge. done.
  - destruct Hw as [Ed|(k & Ek & Ho)].
    + unfold baseline_ok in *. rewrite Ew, Ed. done.
    + destruct (checkpoint_slot_ring _ _ k (MkCheckpoint 0 0 0 false) Hl Hs Hi Ek) as [Hk _].
      eapply baseline_frame; [done|by rewrite Ew|by rewrite Ew|by rewrite Ew|done|].
      rewrite checkpoint_lba_eq. change BASELINE_LBA with 1344. unfold SLOT_SECTORS, CHECKPOINT_CAPACITY in *. lia.
Qed.

(** A restored state can be committed. *)
Lemma continue_ok (store : RuntimeStore Device) s :
  (∀ c, rs_snapshot store = Some c → snapshot_intact c ∧ validate_snapshot c = Ok tt) →
  snapshot_intact s → validate_snapshot s = Ok tt →
  snapshot_intact (continue_journal store s) ∧ validate_snapshot (continue_journal store s) = Ok tt.
Proof.
  intros Hc Ht Hv. unfold continue_journal. destruct (rs_snapshot store) as [c|]; [|done].
  destruct (Hc c eq_refl) as [Hct _]. destruct (next_journal _ (st_journal _ _ _ Hct)) as [Hj Hj0]. split.
  - destruct Ht. by constructor.
  - unfold validate_snapshot in *. cbn in *. rewrite (proj2 (Z.eqb_neq _ 0) Hj0).
    destruct (sn_journal_sequence s =? 0); [|done]. by rewrite !orb_true_r in Hv.
Qed.

Lemma read_spec_intact device read disk base slot key dec :
  read_spec device read disk base slot key → read disk = Returns (Ok dec) →
  snapshot_intact (dsl_snapshot dec) ∧ validate_snapshot (dsl_snapshot dec) = Ok tt.
Proof. unfold read_spec. intros Hs E. rewrite E in Hs. by destruct Hs as (h & _ & []). Qed.

(** Restoring changes nothing or commits. *)
Lemma archive_ok_restore device w a top w' r :
  archive_ok device w a top →
  (∃ id, restore_checkpoint id w = Returns (w', r)) ∨ restore_baseline w = Returns (w', r) →
  archive_ok device w' a top.
Proof.
  intros Hok E. pose proof (ao_current _ _ _ _ Hok) as Hc.
  assert (∀ (o : outcome (result DecodedSlot StoreError)) (r' : result Z StoreError),
    (∀ dec, o = Returns (Ok dec) → snapshot_intact (dsl_snapshot dec) ∧ validate_snapshot (dsl_snapshot dec) = Ok tt) →
    (decoded ← op_outcome o; commit_locked (continue_journal (w_store w) (dsl_snapshot decoded))) w = Returns (w', r') →
    archive_ok device w' a top) as Hgo.
  { intros o r' Ho. run_op. destruct o as [[dec|e]| |]; [|by intros [= <- _]|done..]. intros Hcommit.
    destruct (Ho dec eq_refl) as [Ht Hv]. destruct (continue_ok _ _ Hc Ht Hv) as [Ht' Hv']. by eapply archive_ok_commit. }
  destruct E as [[id E]|E]; revert E; [unfold restore_checkpoint|unfold restore_baseline];
    unfold mbind at 1, op_mbind at 1, op_bind at 1, op_get at 1.
  - unfold mbind at 1, op_mbind at 1, op_bind at 1, op_some at 1. destruct (find _ _) as [c|]; [|by intros [= <- _]].
    cbn [op_ret]. unfold mbind at 1, op_mbind at 1, op_bind at 1, op_some at 1. rewrite (ao_device _ _ _ _ Hok).
    cbn [op_ret]. apply Hgo. intros dec. destruct (ci_legacy c).
    + intros Hr. exact (read_spec_intact _ (λ disk, read_legacy_at device disk _ _ _) _ _ _ _ _ (read_legacy_at_spec _ _ _ _ _) Hr).
    + intros Hr. exact (read_spec_intact _ (λ disk, read_at device disk _ _ _) _ _ _ _ _ (read_at_spec _ _ _ _ _) Hr).
  - destruct (rs_baseline (w_store w)) as [|info|]; [by intros [= <- _]| |by intros [= <- _]].
    unfold mbind at 1, op_mbind at 1, op_bind at 1, op_some at 1. rewrite (ao_device _ _ _ _ Hok). cbn [op_ret].
    apply Hgo. intros dec. destruct (_ =? _).
    + intros Hr. exact (read_spec_intact _ (λ disk, read_legacy_at device disk _ _ _) _ _ _ _ _ (read_legacy_at_spec _ _ _ _ _) Hr).
    + intros Hr. exact (read_spec_intact _ (λ disk, read_at device disk _ _ _) _ _ _ _ _ (read_at_spec _ _ _ _ _) Hr).
Qed.

Lemma archive_ok_weaken device w a top top' : archive_ok device w a top → top ≤ top' → archive_ok device w a top'.
Proof. intros [] Hle. constructor; try done. intros id Hid. specialize (ao_range0 id Hid). lia. Qed.

Lemma archive_run_ok device n w a w' a' top :
  archive_run n w a w' a' → archive_ok device w a top → 0 ≤ top → top + Z.of_nat n ≤ u64_max →
  archive_ok device w' a' (top + Z.of_nat n).
Proof.
  intros Hr. revert top. induction Hr as [|n w a w1 a1 w' a' Hstep _ IH]; intros top Hok H0 Hb.
  { by rewrite Z.add_0_r. }
  replace (top + Z.of_nat (S n)) with ((top + 1) + Z.of_nat n) by lia. apply IH; [|lia|lia].
  destruct Hstep; [|by apply (archive_ok_record device w); [done|lia|..]|..];
    (eapply archive_ok_weaken; [|shelve]).
  - by eapply archive_ok_commit.
  - by eapply archive_ok_record_fails.
  - by eapply archive_ok_establish.
  - by eapply archive_ok_establish_fails.
  - eapply archive_ok_restore; eauto.
  - eapply archive_ok_restore; eauto.
  Unshelve. all: lia.
Qed.

Lemma log_functional (log : list (Z * Snapshot)) id s s' :
  StronglySorted Z.gt log.*1 → (id, s) ∈ log → (id, s') ∈ log → s = s'.
Proof.
  induction log as [|[i x] log IH]; [by intros _ ?%elem_of_nil|]. cbn [fmap list_fmap fst].
  intros [Hs Hf]%StronglySorted_inv. rewrite Forall_forall in Hf.
  assert (∀ y, (i, y) ∈ log → False) as Hn.
  { intros y Hy. assert (Z.gt i i); [|lia]. apply Hf. apply list_elem_of_fmap. by exists (i, y). }
  intros [E1|H1]%elem_of_cons [E2|H2]%elem_of_cons; [congruence|..|by apply IH].
  - injection E1 as -> ->. by apply Hn in H2.
  - injection E2 as -> ->. by apply Hn in H1.
Qed.

Definition recorded (a : Archive) (id : Z) : option Snapshot :=
  snd <$> find (λ entry, fst entry =? id) (take CHECKPOINT_CAPACITY (ar_log a)).

Lemma restore_checkpoint_spec device w a top id :
  archive_ok device w a top →
  match recorded a id with
  | Some s => certain a id → restore_checkpoint id w = commit_locked (continue_journal (w_store w) s) w
  | None => restore_checkpoint id w = Returns (w, Err StCheckpointNotFound)
  end.
Proof.
  intros [Hd _ _ _ Hs _ Hi Hst _ _]. unfold restore_checkpoint, recorded. run_op.
  rewrite <- fmap_take in Hi.
  destruct (find _ (flatten _)) as [c|] eqn:Ec.
  - apply List.find_some in Ec as [Hin Eid]. apply list_elem_of_In, elem_of_flatten_lookup in Hin as [k Hk].
    destruct (Hst k c Hk) as (s & Hlog & [-> -> Hread]). apply Z.eqb_eq in Eid. subst id.
    destruct (find _ (take _ _)) as [[id' s']|] eqn:Ef.
    + apply List.find_some in Ef as [Hin' E']. cbn in E'. apply Z.eqb_eq in E'. subst id'.
      apply list_elem_of_In, elem_of_take in Hin' as (j & Hj & _). apply list_elem_of_lookup_2 in Hj.
      intros Ha. cbn [snd]. rewrite (log_functional _ _ _ _ Hs Hj Hlog). rewrite Hd, Nat2Z.id, (Hread Ha). done.
    + exfalso. assert (ci_state_id c ∈ (take CHECKPOINT_CAPACITY (ar_log a)).*1) as Hid.
      { rewrite <- Hi. apply list_elem_of_fmap. exists c. split; [done|]. by eapply flatten_lookup. }
      apply list_elem_of_fmap in Hid as (e & Ee & He). apply list_elem_of_In in He.
      apply (List.find_none _ _ Ef) in He. apply Z.eqb_neq in He. congruence.
  - destruct (find _ (take _ _)) as [[id' s']|] eqn:Ef; [|done].
    apply List.find_some in Ef as [Hin' E']. cbn in E'. apply Z.eqb_eq in E'. subst id'.
    assert (id ∈ ci_state_id <$> flatten (rs_checkpoints (w_store w))) as Hid.
    { rewrite Hi. apply list_elem_of_fmap. exists (id, s'). split; [done|]. by apply list_elem_of_In. }
    apply list_elem_of_fmap in Hid as (c & -> & Hc). apply list_elem_of_In in Hc.
    apply (List.find_none _ _ Ec) in Hc. by rewrite Z.eqb_refl in Hc.
Qed.

Lemma restore_baseline_spec device w a top :
  archive_ok device w a top →
  match ar_baseline a with
  | Some s => restore_baseline w = commit_locked (continue_journal (w_store w) s) w
  | None => ∃ e, restore_baseline w = Returns (w, Err e)
  end.
Proof.
  intros [Hd _ _ _ _ _ _ _ _ Hb]. unfold baseline_ok in Hb. unfold restore_baseline. run_op.
  destruct (rs_baseline (w_store w)) as [|info|]; [rewrite Hb; by eexists| |rewrite Hb; by eexists].
  destruct Hb as (s & g & -> & El & Hread). rewrite Hd, El. change (BASELINE_LBA =? LEGACY_BASELINE_LBA) with false.
  cbn [andb]. rewrite Hread. done.
Qed.

Lemma archive_grows n w a w' a' :
  archive_run n w a w' a' →
  (∃ new, ar_log a' = new ++ ar_log a) ∧ (∀ s, ar_baseline a = Some s → ar_baseline a' = Some s).
Proof.
  induction 1 as [|n w a w1 a1 w' a' Hstep _ [[new IH] IHb]]; [by split; [exists []|]|].
  destruct Hstep; cbn [ar_log ar_baseline] in *; try (by split; [exists new|]).
  - split; [|done]. eexists (new ++ [_]). rewrite <- app_assoc. exact IH.
  - split; [by exists new|]. intros s Es. apply IHb. by rewrite Es.
Qed.

(** ** Properties *)

End archive.

#[local] Existing Instance demo_aead.
#[local] Existing Instance demo_aead_laws.

Lemma demo_archive_ok : archive_ok tt demo_world (MkArchive [] None true) 0.
Proof.
  constructor; try done; cbn [ar_log fmap list_fmap].
  - intros s [= <-]. split; [apply demo_snapshot_intact|by vm_compute].
  - constructor.
  - intros id Hid. by apply elem_of_nil in Hid.
  - intros k info Hk. by apply lookup_replicate in Hk as [? _].
Qed.

