(* ===== verification/Frames.v ===== *)
(** * Physical page frames

    kernel/src/memory.rs: the bitmap allocator that owns the page frames below
    4 GiB.  Firmware RAM is released to it, the kernel image and the handoff
    records are taken back, and address spaces lease single frames.  The firmware
    map ([boot::visit_usable_memory], [boot::visit_handoff_ranges]) and the linker
    symbol [__kernel_end] are arguments.

    The theorem refines the allocator to two sets of frames, the free and the
    leased ones, for every sequence of calls after [initialize]. *)

From stdpp Require Import prelude list gmap sets functions.
From Stdlib Require Import ZArith Lia.
From S2P Require Import Prelude.

Set Default Goal Selector "!".
Open Scope Z_scope.
Open Scope expos_scope.

(** ** Definitions *)

Definition PAGE_BYTES : Z := 4096.
Definition MAX_PHYSICAL_BYTES : Z := 2 ^ 32.
Definition FRAME_COUNT : Z := MAX_PHYSICAL_BYTES / PAGE_BYTES.
Definition BITMAP_WORDS : Z := FRAME_COUNT / 64.

Record Allocator := MkAllocator {
  al_used : list Z; al_leased : list Z; al_cursor : Z; al_free : Z; al_initialized : bool }.

Definition Allocator_eta (a : Allocator) : Allocator :=
  MkAllocator (al_used a) (al_leased a) (al_cursor a) (al_free a) (al_initialized a).
#[export] Instance set_al_used : Setter al_used := ltac:(build_setter Allocator_eta).
#[export] Instance set_al_leased : Setter al_leased := ltac:(build_setter Allocator_eta).
#[export] Instance set_al_cursor : Setter al_cursor := ltac:(build_setter Allocator_eta).
#[export] Instance set_al_free : Setter al_free := ltac:(build_setter Allocator_eta).
#[export] Instance set_al_initialized : Setter al_initialized := ltac:(build_setter Allocator_eta).

Definition Allocator_new : Allocator :=
  MkAllocator (replicate (Z.to_nat BITMAP_WORDS) u64_max) (replicate (Z.to_nat BITMAP_WORDS) 0) 0 0 false.

(** [1_u64 << (frame % 64)], and the word [map[frame / 64]] it belongs to. *)
Definition frame_bit (frame : Z) : Z := Z.shiftl 1 (frame mod 64).
Definition frame_word (map : list Z) (frame : Z) : Z := nth (Z.to_nat (frame / 64)) map 0.

Definition bit_set (map : list Z) (frame : Z) : bool :=
  Z.land (frame_word map frame) (frame_bit frame) !=? 0.

(** [map[frame / 64] |= bit] and [map[frame / 64] &= !bit] *)
Definition set_bit (map : list Z) (frame : Z) : list Z :=
  <[Z.to_nat (frame / 64) := Z.lor (frame_word map frame) (frame_bit frame)]> map.
Definition clear_bit (map : list Z) (frame : Z) : list Z :=
  <[Z.to_nat (frame / 64) := Z.land (frame_word map frame) (Z.lxor u64_max (frame_bit frame))]> map.

Definition mark (self : Allocator) (frame : Z) (used : bool) : Allocator :=
  if FRAME_COUNT <=? frame then self
  else
    let was_used := bit_set (al_used self) frame in
    if used then
      self <| al_used := set_bit (al_used self) frame |>
           <| al_free := if was_used then al_free self else saturating_sub (al_free self) 1 |>
    else
      self <| al_used := clear_bit (al_used self) frame |>
           <| al_free := if was_used then saturating_add usize_max (al_free self) 1 else al_free self |>.

Definition mark_range (self : Allocator) (base bytes : Z) (used : bool) : Allocator :=
  let start := if used then base / PAGE_BYTES
               else saturating_add u64_max base (PAGE_BYTES - 1) / PAGE_BYTES in
  let end_bytes := Z.min (saturating_add u64_max base bytes) MAX_PHYSICAL_BYTES in
  let end_ := if used then saturating_add u64_max end_bytes (PAGE_BYTES - 1) / PAGE_BYTES
              else end_bytes / PAGE_BYTES in
  fold_left (λ a frame, mark a frame used) (seqZ start (end_ - start)) self.

(** The lists are what the two visitors report. *)
Definition initialize_frames (usable handoff : list (Z * Z)) (kernel_end : Z) (self : Allocator) : Allocator :=
  if al_initialized self then self
  else
    let a := fold_left (λ a r, mark_range a r.1 r.2 false) usable self in
    let a := mark_range a 0 kernel_end true in
    let a := fold_left (λ a r, mark_range a r.1 r.2 true) handoff a in
    a <| al_cursor := Z.min ((kernel_end + (PAGE_BYTES - 1)) / PAGE_BYTES) FRAME_COUNT |>
      <| al_initialized := true |>.

(** The bytes of physical memory. *)
Definition Memory : Type := Z → Z.

(** [core::ptr::write_bytes(address as *mut u8, value, bytes)] *)
Definition fill_bytes (memory : Memory) (address bytes value : Z) : Memory :=
  λ a, if (address <=? a) && (a <? address + bytes) then value else memory a.

(** [slice[..].copy_from_slice(data)] on the memory at [address]. *)
Definition write_bytes (memory : Memory) (address : Z) (data : list Z) : Memory :=
  λ a, if (address <=? a) && (a <? address + Zlength data) then nth (Z.to_nat (a - address)) data 0 else memory a.

Definition wipe (memory : Memory) (physical : Z) : Memory := fill_bytes memory physical PAGE_BYTES 0.

(** The allocator with the memory it hands out. *)
Record Physical := MkPhysical { ph_allocator : Allocator; ph_memory : Memory }.

(** The search of [allocate_frame]: the first free frame at [cursor + offset] or
    after, [n] frames long. *)
Fixpoint find_free (used : list Z) (cursor : Z) (n : nat) (offset : Z) : option Z :=
  match n with
  | O => None
  | S n' =>
      let frame := (cursor + offset) mod FRAME_COUNT in
      if bit_set used frame then find_free used cursor n' (offset + 1) else Some frame
  end.

Definition allocate_frame (self : Physical) : Physical * option Z :=
  let a := ph_allocator self in
  if negb (al_initialized a) || (al_free a =? 0) then (self, None)
  else
    match find_free (al_used a) (al_cursor a) (Z.to_nat FRAME_COUNT) 0 with
    | None => (self, None)
    | Some frame =>
        let a := mark a frame true in
        let a := a <| al_leased := set_bit (al_leased a) frame |>
                   <| al_cursor := (frame + 1) mod FRAME_COUNT |> in
        let physical := frame * PAGE_BYTES in
        (MkPhysical a (wipe (ph_memory self) physical), Some physical)
    end.

Definition release_frame (self : Physical) (physical : Z) : Physical * bool :=
  if (physical =? 0) || negb (physical mod PAGE_BYTES =? 0) || (MAX_PHYSICAL_BYTES <=? physical)
  then (self, false)
  else
    let a := ph_allocator self in
    let frame := physical / PAGE_BYTES in
    if negb (bit_set (al_used a) frame) || negb (bit_set (al_leased a) frame) then (self, false)
    else
      let memory := wipe (ph_memory self) physical in
      let a := a <| al_leased := clear_bit (al_leased a) frame |> in
      (MkPhysical (mark a frame false) memory, true).

(** ** Specification *)

(** Which frames are free and which are leased; every other one is reserved. *)
Record Leases := MkLeases { ls_free : gset Z; ls_leased : gset Z }.

Inductive FrameCall := Allocate | Release (physical : Z).
Inductive FrameReply := Frame (physical : Z) | NoFrame | Released | Refused.

(** What a call may do: an allocation takes any free frame and fails only when
    there is none; a release takes back leased frames only. *)
Inductive lease_step (s : Leases) : FrameCall → FrameReply → Leases → Prop :=
  | step_allocate f : f ∈ ls_free s →
      lease_step s Allocate (Frame (f * PAGE_BYTES)) (MkLeases (ls_free s ∖ {[f]}) ({[f]} ∪ ls_leased s))
  | step_exhausted : ls_free s = ∅ → lease_step s Allocate NoFrame s
  | step_release f : f ∈ ls_leased s →
      lease_step s (Release (f * PAGE_BYTES)) Released (MkLeases ({[f]} ∪ ls_free s) (ls_leased s ∖ {[f]}))
  | step_refuse p : (∀ f, f ∈ ls_leased s → p ≠ f * PAGE_BYTES) → lease_step s (Release p) Refused s.

(** The bytes a call may change: those of the frame it hands out or takes back,
    which become zero. *)
Definition wiped (call : FrameCall) (reply : FrameReply) (memory memory' : Memory) : Prop :=
  match call, reply with
  | Allocate, Frame p | Release p, Released => memory' = wipe memory p
  | _, _ => memory' = memory
  end.

Definition frame_call (m : Physical) (call : FrameCall) : Physical * FrameReply :=
  match call with
  | Allocate => let (m', r) := allocate_frame m in (m', match r with Some p => Frame p | None => NoFrame end)
  | Release p => let (m', b) := release_frame m p in (m', if b : bool then Released else Refused)
  end.

Inductive leases_run (s : Leases) (m : Physical) : list FrameCall → Leases → Physical → Prop :=
  | run_done : leases_run s m [] s m
  | run_call call calls m1 r s1 s2 m2 :
      frame_call m call = (m1, r) → lease_step s call r s1 → wiped call r (ph_memory m) (ph_memory m1) →
      leases_run s1 m1 calls s2 m2 → leases_run s m (call :: calls) s2 m2.

(** Frame [f] lies in a region of RAM; it shares a byte with a reserved one. *)
Definition frame_inside (f : Z) (region : Z * Z) : Prop :=
  region.1 ≤ f * PAGE_BYTES ∧ (f + 1) * PAGE_BYTES ≤ region.1 + region.2.
Definition frame_touches (f : Z) (region : Z * Z) : Prop :=
  region.1 < (f + 1) * PAGE_BYTES ∧ f * PAGE_BYTES < region.1 + region.2.

#[export] Instance frame_inside_dec f r : Decision (frame_inside f r).
Proof. unfold frame_inside. apply _. Defined.
#[export] Instance frame_touches_dec f r : Decision (frame_touches f r).
Proof. unfold frame_touches. apply _. Defined.

Definition all_frames : gset Z := list_to_set (seqZ 0 FRAME_COUNT).

Definition boot_leases (usable handoff : list (Z * Z)) (kernel_end : Z) : Leases :=
  MkLeases (filter (λ f, Exists (frame_inside f) usable ∧
                         ¬ Exists (frame_touches f) ((0, kernel_end) :: handoff)) all_frames) ∅.

(** A region as the visitors report it: two [u64]. *)
Definition region_ok (region : Z * Z) : Prop := 0 ≤ region.1 ≤ u64_max ∧ 0 ≤ region.2 ≤ u64_max.

(** The bitmaps hold the two sets; frame 0 is in neither. *)
Record leases_rep (a : Allocator) (s : Leases) : Prop := {
  lr_used : Zlength (al_used a) = BITMAP_WORDS;
  lr_leased : Zlength (al_leased a) = BITMAP_WORDS;
  lr_range : ∀ f, f ∈ ls_free s ∨ f ∈ ls_leased s → 0 ≤ f < FRAME_COUNT;
  lr_free_iff : ∀ f, 0 ≤ f < FRAME_COUNT → bit_set (al_used a) f = false ↔ f ∈ ls_free s;
  lr_leased_iff : ∀ f, 0 ≤ f < FRAME_COUNT → bit_set (al_leased a) f = true ↔ f ∈ ls_leased s;
  lr_disjoint : ls_free s ## ls_leased s;
  lr_count : al_free a = Z.of_nat (size (ls_free s)) }.

(** ** Lemmas: bitmaps *)

Lemma land_bit w n : 0 ≤ n → Z.land w (Z.shiftl 1 n) = if Z.testbit w n then 2 ^ n else 0.
Proof.
  intros Hn. rewrite Z.shiftl_1_l. apply Z.bits_inj'. intros k Hk. rewrite Z.land_spec, Z.pow2_bits_eqb by done.
  destruct (Z.eqb_spec n k) as [->|Hnk].
  - rewrite andb_true_r. destruct (Z.testbit w k); [by rewrite Z.pow2_bits_true|by rewrite Z.bits_0].
  - rewrite andb_false_r. destruct (Z.testbit w n); [by rewrite Z.pow2_bits_false by done|by rewrite Z.bits_0].
Qed.

Lemma bit_set_testbit map f : bit_set map f = Z.testbit (frame_word map f) (f mod 64).
Proof.
  unfold bit_set, frame_bit. assert (0 ≤ f mod 64) by (apply Z.mod_pos_bound; lia).
  rewrite land_bit by done. destruct (Z.testbit _ _); [|done].
  apply negb_true_iff, bool_decide_eq_false. lia.
Qed.

Lemma frame_count : FRAME_COUNT = 1048576.
Proof. reflexivity. Qed.

Lemma frame_words : FRAME_COUNT = BITMAP_WORDS * 64.
Proof. reflexivity. Qed.

Lemma frame_word_insert map f g w :
  Zlength map = BITMAP_WORDS → 0 ≤ f < FRAME_COUNT → 0 ≤ g →
  frame_word (<[Z.to_nat (f / 64) := w]> map) g = if decide (g / 64 = f / 64) then w else frame_word map g.
Proof.
  unfold Zlength, frame_word. intros Hl Hf Hg. rewrite frame_words in Hf.
  assert (0 ≤ f / 64 < BITMAP_WORDS) as Hw by (split; [apply Z.div_pos; lia|apply Z.div_lt_upper_bound; lia]).
  assert (0 ≤ g / 64) by (apply Z.div_pos; lia).
  rewrite !nth_lookup. destruct (decide _) as [->|Hne].
  - by rewrite list_lookup_insert_eq by lia.
  - rewrite list_lookup_insert_ne; [done|]. lia.
Qed.

(** Two frames are the same bit of the same word exactly when they are equal. *)
Lemma same_bit f g : 0 ≤ f → 0 ≤ g → g / 64 = f / 64 → g mod 64 = f mod 64 → g = f.
Proof. intros _ _ Hd Hm. rewrite (Z.div_mod g 64), (Z.div_mod f 64) by lia. lia. Qed.

Section bitmap.
Context (map : list Z) (f g : Z).
Hypotheses (Hl : Zlength map = BITMAP_WORDS) (Hf : 0 ≤ f < FRAME_COUNT) (Hg : 0 ≤ g).

Lemma set_bit_spec : bit_set (set_bit map f) g = bool_decide (g = f) || bit_set map g.
Proof using Hl Hf Hg.
  rewrite !bit_set_testbit. unfold set_bit. rewrite frame_word_insert by done.
  assert (0 ≤ f mod 64) by (apply Z.mod_pos_bound; lia).
  destruct (decide (g / 64 = f / 64)) as [Hd|Hd].
  - rewrite Z.lor_spec. unfold frame_bit. rewrite Z.shiftl_1_l, Z.pow2_bits_eqb by done.
    unfold frame_word. rewrite Hd. destruct (Z.eqb_spec (f mod 64) (g mod 64)) as [Hm|Hm].
    + rewrite orb_true_r. by rewrite bool_decide_true by (by apply same_bit; lia).
    + rewrite orb_false_r. rewrite bool_decide_false; [done|]. by intros ->.
  - rewrite bool_decide_false; [done|]. by intros ->.
Qed.

Lemma clear_bit_spec : bit_set (clear_bit map f) g = negb (bool_decide (g = f)) && bit_set map g.
Proof using Hl Hf Hg.
  rewrite !bit_set_testbit. unfold clear_bit. rewrite frame_word_insert by done.
  pose proof (Z.mod_pos_bound f 64 ltac:(lia)). pose proof (Z.mod_pos_bound g 64 ltac:(lia)).
  destruct (decide (g / 64 = f / 64)) as [Hd|Hd].
  - rewrite Z.land_spec, Z.lxor_spec. unfold frame_bit. rewrite Z.shiftl_1_l, Z.pow2_bits_eqb by lia.
    replace u64_max with (Z.ones 64) by reflexivity. rewrite Z.ones_spec_low by lia.
    unfold frame_word. rewrite Hd. destruct (Z.eqb_spec (f mod 64) (g mod 64)) as [Hm|Hm].
    + rewrite bool_decide_true by (by apply same_bit; lia). by rewrite andb_false_r.
    + rewrite bool_decide_false; [|by intros ->]. by rewrite andb_true_r.
  - rewrite bool_decide_false; [done|]. by intros ->.
Qed.
End bitmap.

Lemma set_bit_length map f : Zlength (set_bit map f) = Zlength map.
Proof. unfold Zlength, set_bit. by rewrite length_insert. Qed.

Lemma clear_bit_length map f : Zlength (clear_bit map f) = Zlength map.
Proof. unfold Zlength, clear_bit. by rewrite length_insert. Qed.

(** ** Lemmas: one frame *)

#[local] Arguments mark : simpl never.

Lemma elem_of_all_frames f : f ∈ all_frames ↔ 0 ≤ f < FRAME_COUNT.
Proof. unfold all_frames. rewrite elem_of_list_to_set, elem_of_seqZ. lia. Qed.

Lemma size_remove (X : gset Z) f : f ∈ X → size X = S (size (X ∖ {[f]})).
Proof.
  intros Hf. rewrite (union_difference_singleton_L f X) at 1 by done.
  rewrite size_union by set_solver. by rewrite size_singleton.
Qed.

Lemma size_range (X : gset Z) n : 0 ≤ n → (∀ f, f ∈ X → 0 ≤ f < n) → Z.of_nat (size X) ≤ n.
Proof.
  intros Hn HX. assert (X ⊆ list_to_set (seqZ 0 n)) as Hs%subseteq_size.
  { intros f Hf%HX. rewrite elem_of_list_to_set, elem_of_seqZ. lia. }
  rewrite size_list_to_set, length_seqZ in Hs by apply NoDup_seqZ. lia.
Qed.

Lemma free_size a s : leases_rep a s → Z.of_nat (size (ls_free s)) ≤ FRAME_COUNT.
Proof. intros Hr. apply size_range; [done|]. intros f Hf. apply (lr_range _ _ Hr). by left. Qed.

(** A frame that is not leased can be taken out of the free ones or given back. *)
Lemma mark_used_rep a s f :
  leases_rep a s → 0 ≤ f → f ∉ ls_leased s →
  leases_rep (mark a f true) (MkLeases (ls_free s ∖ {[f]}) (ls_leased s)).
Proof.
  intros Hr Hf Hl. destruct Hr as [H1 H2 H3 H4 H5 H6 H7]. unfold mark.
  destruct (FRAME_COUNT <=? f) eqn:Eb; bools.
  - replace (ls_free s ∖ {[f]}) with (ls_free s); [by destruct s|].
    apply set_eq. intros g. pose proof (H3 g). set_solver by lia.
  - constructor; simpl; [by rewrite set_bit_length|done|set_solver| |done|set_solver|].
    + intros g Hg. rewrite set_bit_spec by lia. rewrite orb_false_iff, bool_decide_eq_false.
      rewrite H4 by done. set_solver.
    + pose proof (H4 f ltac:(lia)) as H4f. destruct (bit_set (al_used a) f).
      * rewrite H7. do 2 f_equal. apply set_eq. intros g. destruct (decide (g = f)) as [->|]; [|set_solver].
        split; [|set_solver]. by intros ?%H4f.
      * rewrite H7, (size_remove (ls_free s) f) by (by apply H4f). unfold saturating_sub. lia.
Qed.

Lemma mark_free_rep a s f :
  leases_rep a s → 0 ≤ f < FRAME_COUNT → f ∉ ls_leased s →
  leases_rep (mark a f false) (MkLeases ({[f]} ∪ ls_free s) (ls_leased s)).
Proof.
  intros Hr Hf Hl. pose proof (free_size _ _ Hr) as Hs. destruct Hr as [H1 H2 H3 H4 H5 H6 H7]. unfold mark.
  destruct (FRAME_COUNT <=? f) eqn:Eb; bools; [lia|].
  constructor; simpl; [by rewrite clear_bit_length|done| | |done|set_solver|].
  - intros g. pose proof (H3 g). set_solver.
  - intros g Hg. rewrite clear_bit_spec by lia. rewrite andb_false_iff, negb_false_iff, bool_decide_eq_true.
    rewrite H4 by done. set_solver.
  - pose proof (H4 f ltac:(lia)) as H4f. destruct (bit_set (al_used a) f).
    + rewrite size_union, size_singleton; [|set_solver].
      unfold saturating_add, usize_max, u64_max. rewrite frame_count in *. lia.
    + rewrite H7. do 2 f_equal. set_solver.
Qed.

(** ** Lemmas: ranges *)

Lemma marks_rep used l a s :
  leases_rep a s → ls_leased s = ∅ → (∀ f, f ∈ l → 0 ≤ f < FRAME_COUNT) →
  ∃ s', leases_rep (fold_left (λ a frame, mark a frame used) l a) s' ∧ ls_leased s' = ∅ ∧
    ∀ f, f ∈ ls_free s' ↔ if used : bool then f ∈ ls_free s ∧ f ∉ l else f ∈ ls_free s ∨ f ∈ l.
Proof.
  revert a s. induction l as [|f l IH]; intros a s Hr Hl Hin; simpl.
  - exists s. split_and!; [done..|]. intros f. destruct used; set_solver.
  - assert (0 ≤ f < FRAME_COUNT) as Hf by set_solver.
    assert (f ∉ ls_leased s) as Hn by (by rewrite Hl; apply not_elem_of_empty). destruct used.
    + pose proof (mark_used_rep a s f Hr ltac:(lia) Hn) as Hr'.
      edestruct IH as (s' & Hs' & Hl' & Hf'); [exact Hr'|done|set_solver|].
      exists s'. split_and!; [done..|]. intros g. rewrite Hf'. set_solver.
    + pose proof (mark_free_rep a s f Hr ltac:(lia) Hn) as Hr'.
      edestruct IH as (s' & Hs' & Hl' & Hf'); [exact Hr'|done|set_solver|].
      exists s'. split_and!; [done..|]. intros g. rewrite Hf'. set_solver.
Qed.

Lemma mark_range_rep used r a s :
  leases_rep a s → ls_leased s = ∅ → region_ok r →
  ∃ s', leases_rep (mark_range a r.1 r.2 used) s' ∧ ls_leased s' = ∅ ∧
    ∀ f, 0 ≤ f < FRAME_COUNT → f ∈ ls_free s' ↔
      if used : bool then f ∈ ls_free s ∧ ¬ frame_touches f r else f ∈ ls_free s ∨ frame_inside f r.
Proof.
  intros Hr Hl [H1 H2]. unfold mark_range. edestruct marks_rep as (s' & Hs' & Hl' & Hf'); [exact Hr|exact Hl| |].
  2:{ exists s'. split_and!; [exact Hs'|exact Hl'|]. intros f Hf. rewrite Hf'.
    rewrite frame_count in *. unfold frame_touches, frame_inside, saturating_add, MAX_PHYSICAL_BYTES, PAGE_BYTES, u64_max in *.
    destruct used; rewrite elem_of_seqZ.
    - f_equiv. f_equiv. Z.to_euclidean_division_equations. lia.
    - f_equiv. Z.to_euclidean_division_equations. lia. }
  intros f. rewrite elem_of_seqZ.
  rewrite frame_count. unfold saturating_add, MAX_PHYSICAL_BYTES, PAGE_BYTES, u64_max in *.
  destruct used; Z.to_euclidean_division_equations; lia.
Qed.

Lemma mark_ranges_rep used rs a s :
  leases_rep a s → ls_leased s = ∅ → Forall region_ok rs →
  ∃ s', leases_rep (fold_left (λ a r, mark_range a r.1 r.2 used) rs a) s' ∧ ls_leased s' = ∅ ∧
    ∀ f, 0 ≤ f < FRAME_COUNT → f ∈ ls_free s' ↔
      if used : bool then f ∈ ls_free s ∧ ¬ Exists (frame_touches f) rs
      else f ∈ ls_free s ∨ Exists (frame_inside f) rs.
Proof.
  revert a s. induction rs as [|r rs IH]; intros a s Hr Hl Hok; simpl.
  - exists s. split_and!; [done..|]. intros f _. destruct used; rewrite Exists_nil; naive_solver.
  - apply Forall_cons_1 in Hok as [Hok Hoks].
    destruct (mark_range_rep used r a s Hr Hl Hok) as (s1 & Hr1 & Hl1 & Hf1).
    destruct (IH _ _ Hr1 Hl1 Hoks) as (s2 & Hr2 & Hl2 & Hf2). exists s2. split_and!; [done..|].
    intros f Hf. specialize (Hf1 f Hf). specialize (Hf2 f Hf). destruct used; rewrite Exists_cons; tauto.
Qed.

(** ** Lemmas: the calls *)

Lemma find_free_Some used cursor n offset f :
  0 ≤ cursor + offset → find_free used cursor n offset = Some f → 0 ≤ f < FRAME_COUNT ∧ bit_set used f = false.
Proof.
  revert offset. induction n as [|n IH]; intros offset Ho; simpl; [done|]. case_match eqn:Eb.
  - apply IH. lia.
  - intros [= <-]. split; [by apply Z.mod_pos_bound|done].
Qed.

Lemma find_free_None used cursor n offset :
  find_free used cursor n offset = None →
  ∀ k, offset ≤ k < offset + Z.of_nat n → bit_set used ((cursor + k) mod FRAME_COUNT) = true.
Proof.
  revert offset. induction n as [|n IH]; intros offset; simpl; [lia|]. case_match eqn:Eb; [|done].
  intros Hn k Hk. destruct (decide (k = offset)) as [->|]; [done|]. apply (IH _ Hn). lia.
Qed.

(** The search goes round the whole bitmap. *)
Lemma find_free_all used cursor f :
  0 ≤ cursor → 0 ≤ f < FRAME_COUNT →
  find_free used cursor (Z.to_nat FRAME_COUNT) 0 = None → bit_set used f = true.
Proof.
  intros Hc Hf Hn. pose proof (Z.mod_pos_bound (f - cursor) FRAME_COUNT ltac:(done)) as Hk.
  pose proof (find_free_None _ _ _ _ Hn ((f - cursor) mod FRAME_COUNT)) as H.
  rewrite Z2Nat.id in H by done. specialize (H ltac:(lia)).
  rewrite Zplus_mod_idemp_r in H. replace (cursor + (f - cursor)) with f in H by lia.
  by rewrite Z.mod_small in H by done.
Qed.

Lemma rep_lease a s f :
  leases_rep a s → f ∉ ls_free s → 0 ≤ f < FRAME_COUNT → bit_set (al_used a) f = true →
  leases_rep (a <| al_leased := set_bit (al_leased a) f |>) (MkLeases (ls_free s) ({[f]} ∪ ls_leased s)).
Proof.
  intros [H1 H2 H3 H4 H5 H6 H7] Hf Hr Hu. constructor; simpl; [done|by rewrite set_bit_length| |done| |set_solver|done].
  - intros g. pose proof (H3 g). set_solver.
  - intros g Hg. rewrite set_bit_spec by lia. rewrite orb_true_iff, bool_decide_eq_true.
    rewrite H5 by done. set_solver.
Qed.

Lemma rep_unlease a s f :
  leases_rep a s → 0 ≤ f < FRAME_COUNT →
  leases_rep (a <| al_leased := clear_bit (al_leased a) f |>) (MkLeases (ls_free s) (ls_leased s ∖ {[f]})).
Proof.
  intros [H1 H2 H3 H4 H5 H6 H7] Hr. constructor; simpl; [done|by rewrite clear_bit_length| |done| |set_solver|done].
  - intros g. pose proof (H3 g). set_solver.
  - intros g Hg. rewrite clear_bit_spec by lia.
    rewrite andb_true_iff, negb_true_iff, bool_decide_eq_false. rewrite H5 by done. set_solver.
Qed.

(** What an allocator in use satisfies between calls. *)
Record frames_ok (a : Allocator) (s : Leases) : Prop := {
  fo_rep : leases_rep a s;
  fo_initialized : al_initialized a = true;
  fo_cursor : 0 ≤ al_cursor a;
  fo_zero : 0 ∉ ls_free s ∧ 0 ∉ ls_leased s }.

Lemma rep_cursor a s c : leases_rep a s → leases_rep (a <| al_cursor := c |>) s.
Proof. by intros [H1 H2 H3 H4 H5 H6 H7]. Qed.

Lemma mark_fields a f used :
  al_leased (mark a f used) = al_leased a ∧ al_initialized (mark a f used) = al_initialized a ∧
  al_cursor (mark a f used) = al_cursor a.
Proof. unfold mark. by destruct (FRAME_COUNT <=? f), used. Qed.

Lemma allocate_frame_spec m s :
  frames_ok (ph_allocator m) s →
  (∃ f m', allocate_frame m = (m', Some (f * PAGE_BYTES)) ∧ f ∈ ls_free s ∧
     frames_ok (ph_allocator m') (MkLeases (ls_free s ∖ {[f]}) ({[f]} ∪ ls_leased s)) ∧
     ph_memory m' = wipe (ph_memory m) (f * PAGE_BYTES)) ∨
  (allocate_frame m = (m, None) ∧ ls_free s = ∅).
Proof.
  intros [Hr Hi Hc [Hz1 Hz2]]. unfold allocate_frame. rewrite Hi. cbn [negb orb].
  destruct (Z.eqb_spec (al_free (ph_allocator m)) 0) as [H0|H0].
  - right. split; [done|]. apply leibniz_equiv, size_empty_iff. rewrite (lr_count _ _ Hr) in H0. lia.
  - left. destruct (find_free _ _ _ _) as [f|] eqn:Ef.
    + apply find_free_Some in Ef as [Hf Hb]; [|lia]. pose proof (proj1 (lr_free_iff _ _ Hr f Hf) Hb) as Hin.
      assert (f ∉ ls_leased s) as Hnl by (pose proof (lr_disjoint _ _ Hr); set_solver).
      pose proof (mark_used_rep _ _ f Hr ltac:(lia) Hnl) as Hr1.
      eexists f, _. split; [reflexivity|]. split; [done|]. split; [|done].
      destruct (mark_fields (ph_allocator m) f true) as (_ & Ei & _).
      constructor; simpl; [|exact (eq_trans Ei Hi)|by apply Z.mod_pos_bound|set_solver].
      apply rep_cursor, (rep_lease _ _ f Hr1); [set_solver|done|].
      apply not_false_iff_true. rewrite (lr_free_iff _ _ Hr1) by done. set_solver.
    + exfalso. apply H0. rewrite (lr_count _ _ Hr). replace (ls_free s) with (∅ : gset Z); [done|].
      apply set_eq. intros f. split; [by intros ?%not_elem_of_empty|]. intros Hin.
      pose proof (lr_range _ _ Hr f (or_introl Hin)) as Hf.
      pose proof (find_free_all _ _ f Hc Hf Ef) as Hb. clear Ef. apply (lr_free_iff _ _ Hr f Hf) in Hin. congruence.
Qed.

Lemma release_frame_spec m s p :
  frames_ok (ph_allocator m) s → 0 ≤ p →
  (∃ f m', p = f * PAGE_BYTES ∧ f ∈ ls_leased s ∧ release_frame m p = (m', true) ∧
     frames_ok (ph_allocator m') (MkLeases ({[f]} ∪ ls_free s) (ls_leased s ∖ {[f]})) ∧
     ph_memory m' = wipe (ph_memory m) p) ∨
  (release_frame m p = (m, false) ∧ ∀ f, f ∈ ls_leased s → p ≠ f * PAGE_BYTES).
Proof.
  intros [Hr Hi Hc [Hz1 Hz2]] Hp. pose proof (lr_range _ _ Hr) as Hrange. unfold release_frame.
  destruct (_ || _ || _) eqn:Eg.
  { right. split; [done|]. intros f Hf ->. pose proof (Hrange f (or_intror Hf)). rewrite !orb_true_iff in Eg.
    assert (f ≠ 0) by (by intros ->). rewrite Z.mod_mul in Eg by done. rewrite frame_count in *.
    unfold MAX_PHYSICAL_BYTES, PAGE_BYTES in Eg. destruct Eg as [[Eg|Eg]|Eg]; bools; [lia|done|lia]. }
  bools. set (f := p / PAGE_BYTES).
  assert (p = f * PAGE_BYTES) as Ep by (unfold f; pose proof (Z.div_mod p PAGE_BYTES ltac:(done)); lia).
  clearbody f.
  destruct (_ || _) eqn:Eb.
  { right. split; [done|]. intros g Hg Eg. assert (g = f) as -> by (unfold PAGE_BYTES in *; lia).
    pose proof (Hrange f (or_intror Hg)) as Hf. pose proof (proj2 (lr_leased_iff _ _ Hr f Hf) Hg) as Hb.
    rewrite Hb, orb_false_r, negb_true_iff in Eb. apply (lr_free_iff _ _ Hr f Hf) in Eb.
    pose proof (lr_disjoint _ _ Hr). set_solver. }
  left. bools. assert (0 ≤ f < FRAME_COUNT) as Hf.
  { rewrite frame_count. unfold MAX_PHYSICAL_BYTES, PAGE_BYTES in *. lia. }
  match goal with H : bit_set (al_leased _) f = true |- _ => apply (lr_leased_iff _ _ Hr f Hf) in H as Hin end.
  pose proof (rep_unlease _ _ f Hr Hf) as Hr1. eexists f, _. split; [done|]. split; [done|]. split; [reflexivity|].
  split; [|done]. match goal with |- frames_ok (ph_allocator (MkPhysical (mark ?a _ _) _)) _ =>
    destruct (mark_fields a f false) as (_ & Ei & Ec) end.
  simpl in Ei, Ec.
  constructor; simpl; [|by rewrite Ei|by rewrite Ec|].
  - pose proof (mark_free_rep _ _ f Hr1 Hf) as Hm. simpl in Hm. apply Hm. set_solver.
  - assert (f ≠ 0) by (intros E0; by rewrite E0 in *). set_solver.
Qed.

Lemma new_rep : leases_rep Allocator_new (MkLeases ∅ ∅).
Proof.
  assert (∀ f v, 0 ≤ f < FRAME_COUNT → frame_word (replicate (Z.to_nat BITMAP_WORDS) v) f = v) as Hw.
  { intros f v Hf. unfold frame_word. rewrite nth_lookup, lookup_replicate_2; [done|].
    rewrite frame_words in Hf. apply Z2Nat.inj_lt; [apply Z.div_pos; lia|done|apply Z.div_lt_upper_bound; lia]. }
  constructor; cbn [al_used al_leased al_free Allocator_new ls_free ls_leased].
  1,2: unfold Zlength; by rewrite length_replicate, Z2Nat.id.
  - intros f [?%not_elem_of_empty|?%not_elem_of_empty]; done.
  - intros f Hf. rewrite bit_set_testbit, Hw by done. replace u64_max with (Z.ones 64) by reflexivity.
    pose proof (Z.mod_pos_bound f 64 ltac:(done)). rewrite Z.ones_spec_low by lia.
    split; [done|by intros ?%not_elem_of_empty].
  - intros f Hf. rewrite bit_set_testbit, Hw by done. rewrite Z.bits_0. split; [done|by intros ?%not_elem_of_empty].
  - apply disjoint_empty_l.
  - done.
Qed.

(** The state after boot. *)
Lemma initialize_ok usable handoff kernel_end :
  Forall region_ok usable → Forall region_ok handoff → 0 < kernel_end ≤ u64_max →
  frames_ok (initialize_frames usable handoff kernel_end Allocator_new) (boot_leases usable handoff kernel_end).
Proof.
  intros Hu Hh Hk. unfold initialize_frames. cbn [al_initialized Allocator_new].
  destruct (mark_ranges_rep false usable _ _ new_rep eq_refl Hu) as (s1 & Hr1 & Hl1 & Hf1).
  destruct (mark_range_rep true (0, kernel_end) _ _ Hr1 Hl1) as (s2 & Hr2 & Hl2 & Hf2).
  { unfold region_ok, u64_max in *. simpl. lia. }
  destruct (mark_ranges_rep true handoff _ _ Hr2 Hl2 Hh) as (s3 & Hr3 & Hl3 & Hf3).
  assert (boot_leases usable handoff kernel_end = s3) as ->.
  { destruct s3 as [F L]. cbn [ls_leased] in Hl3. subst L. unfold boot_leases.
    apply (f_equal (λ X, MkLeases X ∅)), set_eq. intros f.
    rewrite elem_of_filter, elem_of_all_frames, Exists_cons. split.
    - intros [[Hi Hn] Hf]. apply (Hf3 f Hf). rewrite (Hf2 f Hf), (Hf1 f Hf). tauto.
    - intros HF. pose proof (lr_range _ _ Hr3 f (or_introl HF)) as Hf. split; [|done].
      apply (Hf3 f Hf) in HF as [HF Hn]. rewrite (Hf2 f Hf), (Hf1 f Hf) in HF.
      assert (f ∉ (∅ : gset Z)) by apply not_elem_of_empty. cbn [ls_free] in HF. tauto. }
  constructor; [by destruct Hr3|done|..].
  - cbn. apply Z.min_glb; [apply Z.div_pos; unfold PAGE_BYTES; lia|done].
  - rewrite Hl3. split; [|apply not_elem_of_empty]. intros H0. apply Hf3 in H0 as [H0 _]; [|done].
    apply Hf2 in H0 as [_ H0]; [|done]. apply H0. unfold frame_touches, PAGE_BYTES. simpl. lia.
Qed.

Definition call_ok (call : FrameCall) : Prop :=
  match call with Allocate => True | Release p => 0 ≤ p ≤ u64_max end.

Lemma frame_call_step m s call m' r :
  frames_ok (ph_allocator m) s → call_ok call → frame_call m call = (m', r) →
  ∃ s', lease_step s call r s' ∧ wiped call r (ph_memory m) (ph_memory m') ∧ frames_ok (ph_allocator m') s'.
Proof.
  intros Ho Hc. destruct call as [|p]; cbn [frame_call].
  - destruct (allocate_frame_spec m s Ho) as [(f & m1 & -> & Hf & Ho' & Hp)|[-> He]]; intros [= <- <-].
    + eexists. split; [by apply step_allocate|]. by split.
    + exists s. split; [by apply step_exhausted|]. by split.
  - destruct (release_frame_spec m s p Ho ltac:(apply Hc)) as [(f & m1 & -> & Hf & -> & Ho' & Hp)|[-> Hn]];
      intros [= <- <-].
    + eexists. split; [by apply step_release|]. by split.
    + exists s. split; [by apply step_refuse|]. by split.
Qed.

(** ** Properties *)

(** C15. After [initialize] the free frames are exactly those that lie in firmware RAM
    and share no byte with the kernel or a handoff range.  From then on every
    sequence of calls behaves as on the two sets: an allocation hands out a free
    frame, never a leased or reserved one, and fails only when none is free; a
    release takes back leased frames only; and the frame is zero when it is handed
    out and when it comes back. *)
Theorem frames_refine_leases usable handoff kernel_end memory calls :
  Forall region_ok usable → Forall region_ok handoff → 0 < kernel_end ≤ u64_max → Forall call_ok calls →
  ∃ s m, leases_run (boot_leases usable handoff kernel_end)
    (MkPhysical (initialize_frames usable handoff kernel_end Allocator_new) memory) calls s m ∧
    leases_rep (ph_allocator m) s.
Proof.
  intros Hu Hh Hk Hc. pose proof (initialize_ok usable handoff kernel_end Hu Hh Hk) as Ho.
  change (initialize_frames _ _ _ _) with (ph_allocator (MkPhysical
    (initialize_frames usable handoff kernel_end Allocator_new) memory)) in Ho.
  revert Ho. generalize (boot_leases usable handoff kernel_end).
  generalize (MkPhysical (initialize_frames usable handoff kernel_end Allocator_new) memory).
  induction Hc as [|call calls Hc _ IH]; intros m s Ho.
  - exists s, m. split; [constructor|apply Ho].
  - destruct (frame_call m call) as [m1 r] eqn:E. destruct (frame_call_step _ _ _ _ _ Ho Hc E) as (s1 & Hs & Hw & Ho1).
    destruct (IH m1 s1 Ho1) as (s2 & m2 & Hrun & Hr). exists s2, m2. split; [|done]. by eapply run_call.
Qed.

Lemma frames_refine_leases_witness :
  ∃ s m, leases_run (boot_leases [(0, 655360); (1048576, 133169152)] [(65536, 4096)] 8388608)
    (MkPhysical (initialize_frames [(0, 655360); (1048576, 133169152)] [(65536, 4096)] 8388608 Allocator_new)
       (λ _, 0)) [Allocate; Release 8388608; Release 4096; Allocate] s m ∧
    leases_rep (ph_allocator m) s.
Proof.
  apply frames_refine_leases; [repeat constructor..| |repeat constructor].
  all: unfold region_ok, u64_max; simpl; lia.
Defined.
