(* ===== verification/Paging.v ===== *)
(** * The kernel's identity map

    kernel/src/paging.rs: the page tables under which the kernel runs.  The first
    4 GiB are mapped to themselves by 2 MiB pages; [initialize] splits those that
    hold the null page, kernel code or read-only data into 4 KiB pages, and
    [seal_form_code_frame] and [unseal_form_frame] change one page afterwards.

    Page tables are words of memory, [Tables].  [walk] is the translation the
    processor performs on them; it is the specification the code is measured
    against, not a part of it.  The addresses of the static tables, of the tables
    the boot code left and of the linker's sections are section variables.

    The theorem refines the tables to a permission per page, over [initialize] and
    every later sequence of calls. *)

From stdpp Require Import prelude list functions.
From Stdlib Require Import ZArith Lia.
From S2P Require Import Prelude Frames.

Set Default Goal Selector "!".
Open Scope Z_scope.
Open Scope expos_scope.

(** ** Definitions *)

Definition PAGE : Z := 4096.
Definition HUGE : Z := 2 * 1024 * 1024.
Definition PRESENT : Z := 1.
Definition WRITE : Z := 2.
Definition LARGE : Z := Z.shiftl 1 7.
Definition NX : Z := Z.shiftl 1 63.
Definition ADDRESS : Z := 0x000ffffffffff000.
Definition SPLIT_CAPACITY : nat := 64.
Definition DYNAMIC_SPLIT_CAPACITY : nat := 64.

(** The 512 entries of the page table at an address. *)
Definition Tables : Type := Z → Z → Z.

Definition write_entry (t : Tables) (table index value : Z) : Tables :=
  λ a i, if (a =? table) && (i =? index) then value else t a i.

(** A [Table] assigned as a whole. *)
Definition write_table (t : Tables) (table : Z) (entries : Z → Z) : Tables :=
  λ a i, if a =? table then entries i else t a i.

Record Layout := MkLayout { ly_text_start : Z; ly_text_end : Z; ly_rodata_start : Z; ly_rodata_end : Z }.

(** [(from..to).contains(&address)] *)
Definition range_contains (from to address : Z) : bool := (from <=? address) && (address <? to).

Definition Layout_flags (self : Layout) (address nx : Z) : Z :=
  if address =? 0 then 0
  else if range_contains (ly_text_start self) (ly_text_end self) address then PRESENT
  else if range_contains (ly_rodata_start self) (ly_rodata_end self) address then Z.lor PRESENT nx
  else Z.lor (Z.lor PRESENT WRITE) nx.

Definition Layout_split (self : Layout) (base : Z) : bool :=
  (base =? 0) || ((base <? ly_text_end self) && (ly_text_start self <? base + HUGE)) ||
  ((base <? ly_rodata_end self) && (ly_rodata_start self <? base + HUGE)).

(** The assertions of [initialize]. *)
Definition layout_checked (self : Layout) : bool :=
  (0 <? ly_text_start self) && (ly_text_start self <? ly_text_end self) &&
  (ly_text_end self <=? ly_rodata_start self) && (ly_rodata_start self <? ly_rodata_end self) &&
  (ly_rodata_end self <? 2 ^ 32) &&
  forallb (λ boundary, boundary mod PAGE =? 0)
    [ly_text_start self; ly_text_end self; ly_rodata_start self; ly_rodata_end self].

(** Where the tables are: the root in CR3, and the statics [TABLES] and
    [DYNAMIC_TABLES]. *)
Class KernelTables := { kt_root : Z; kt_static : nat → Z; kt_dynamic : nat → Z }.

Section code.
Context `{KernelTables}.

(** One round of the loop of [initialize]; [used] tables are taken. *)
Definition map_region (layout : Layout) (nx : Z) (index : nat) (t : Tables) (used : nat)
    : outcome (Tables * nat) :=
  let base := Z.of_nat index * HUGE in
  let pdpt := Z.land (t kt_root 0) ADDRESS in
  let directory := Z.land (t pdpt (Z.of_nat index / 512)) ADDRESS in
  if Layout_split layout base then
    if negb (used <? SPLIT_CAPACITY)%nat then Panics
    else
      let table := kt_static used in
      let t := write_table t table (λ page, let address := base + page * PAGE in
                 Z.lor address (Layout_flags layout address nx)) in
      Returns (write_entry t directory (Z.of_nat index mod 512) (Z.lor (Z.lor table PRESENT) WRITE), S used)
  else
    Returns (write_entry t directory (Z.of_nat index mod 512)
      (Z.lor (Z.lor (Z.lor (Z.lor base PRESENT) WRITE) LARGE) nx), used).

(** [n] rounds from [index]. *)
Fixpoint map_regions (layout : Layout) (nx : Z) (n index : nat) (t : Tables) (used : nat)
    : outcome (Tables * nat) :=
  match n with
  | O => Returns (t, used)
  | S n' =>
      match map_region layout nx index t used with
      | Returns (t', used') => map_regions layout nx n' (S index) t' used'
      | Panics => Panics
      | OutOfFuel => OutOfFuel
      end
  end.

Definition initialize_paging (layout : Layout) (nx : Z) (t : Tables) : outcome (Tables * nat) :=
  if negb (layout_checked layout) then Panics else map_regions layout nx 2048 0 t 0.

(** [dynamic_used] is [DYNAMIC_USED]. *)
Definition set_identity_frame (t : Tables) (dynamic_used : nat) (physical flags : Z) : Tables * nat * bool :=
  if (physical =? 0) || (2 ^ 32 <=? physical) || negb (physical mod PAGE =? 0) then (t, dynamic_used, false)
  else
    let pdpt := Z.land (t kt_root 0) ADDRESS in
    let directory_entry := t pdpt (physical / (512 * HUGE)) in
    if Z.land directory_entry PRESENT =? 0 then (t, dynamic_used, false)
    else
      let directory := Z.land directory_entry ADDRESS in
      let pd_index := (physical / HUGE) mod 512 in
      let value := t directory pd_index in
      let page_index := (physical / PAGE) mod 512 in
      if negb (Z.land value LARGE =? 0) then
        if negb (dynamic_used <? DYNAMIC_SPLIT_CAPACITY)%nat then (t, dynamic_used, false)
        else
          let table := kt_dynamic dynamic_used in
          let base := Z.land value ADDRESS in
          let inherited := Z.land value (Z.lor (Z.lor PRESENT WRITE) NX) in
          let t := write_table t table (λ page, Z.lor (base + page * PAGE) inherited) in
          let t := write_entry t directory pd_index (Z.lor (Z.lor table PRESENT) WRITE) in
          (write_entry t table page_index (Z.lor physical flags), S dynamic_used, true)
      else
        let table := Z.land value ADDRESS in
        (write_entry t table page_index (Z.lor physical flags), dynamic_used, true).

Definition seal_form_code_frame (t : Tables) (dynamic_used : nat) (nx physical : Z) : Tables * nat * bool :=
  set_identity_frame t dynamic_used physical (Z.lor PRESENT nx).

Definition unseal_form_frame (t : Tables) (dynamic_used : nat) (nx physical : Z) : Tables * nat * bool :=
  set_identity_frame t dynamic_used physical (Z.lor (Z.lor PRESENT WRITE) nx).

(** The page the other processors start in becomes read-only. *)
Definition seal_ap_trampoline (t : Tables) : Tables :=
  let pdpt := Z.land (t kt_root 0) ADDRESS in
  let pd := Z.land (t pdpt 0) ADDRESS in
  let pt := Z.land (t pd 0) ADDRESS in
  write_entry t pt 8 (Z.lor 0x8000 PRESENT).
End code.

(** ** Specification: the processor *)

(** What an access to a virtual address finds: the 4 KiB page of physical memory
    and the rights on it. *)
Record Access := MkAccess { ac_page : Z; ac_write : bool; ac_user : bool; ac_execute : bool }.

(** The rights are those every level grants. *)
Definition rights (entries : list Z) (page : Z) : Access :=
  MkAccess page (forallb (λ e, Z.testbit e 1) entries) (forallb (λ e, Z.testbit e 2) entries)
    (forallb (λ e, negb (Z.testbit e 63)) entries).

(** The four-level walk of x86_64 for a virtual address below 2^47. *)
Definition walk (t : Tables) (root address : Z) : option Access :=
  let e4 := t root (address / 2 ^ 39 mod 512) in
  if negb (Z.testbit e4 0) then None
  else
    let e3 := t (Z.land e4 ADDRESS) (address / 2 ^ 30 mod 512) in
    if negb (Z.testbit e3 0) then None
    else if Z.testbit e3 7 then
      Some (rights [e4; e3] (Z.land e3 ADDRESS / 2 ^ 30 * 2 ^ 30 + address mod 2 ^ 30 / PAGE * PAGE))
    else
      let e2 := t (Z.land e3 ADDRESS) (address / 2 ^ 21 mod 512) in
      if negb (Z.testbit e2 0) then None
      else if Z.testbit e2 7 then
        Some (rights [e4; e3; e2] (Z.land e2 ADDRESS / HUGE * HUGE + address mod HUGE / PAGE * PAGE))
      else
        let e1 := t (Z.land e2 ADDRESS) (address / 2 ^ 12 mod 512) in
        if negb (Z.testbit e1 0) then None
        else Some (rights [e4; e3; e2; e1] (Z.land e1 ADDRESS)).

(** ** Specification: the map *)

(** Flags of the identity map. *)
Definition FLAGS : Z := Z.lor (Z.lor PRESENT WRITE) NX.
Definition flags_ok (f : Z) : Prop := Z.land f FLAGS = f.

(** An address a page-table entry can hold. *)
Definition page_address (p : Z) : Prop := 0 ≤ p < 2 ^ 52 ∧ p mod PAGE = 0.

(** What the processor finds at page [n] of an identity map with the flags
    [perm]. *)
Definition identity_access (perm : Z → Z) (n : Z) : option Access :=
  if Z.testbit (perm n) 0
  then Some (MkAccess (n * PAGE) (Z.testbit (perm n) 1) false (negb (Z.testbit (perm n) 63))) else None.

Definition identity_map `{KernelTables} (t : Tables) (perm : Z → Z) : Prop :=
  ∀ address, 0 ≤ address < 2 ^ 32 → walk t kt_root address = identity_access perm (address / PAGE).

(** What the boot code leaves: a root whose first entry and the four directories
    under it are present and writable, and tables at different addresses. *)
Section boot.
Context `{KernelTables} (t : Tables).

Definition kt_pdpt : Z := Z.land (t kt_root 0) ADDRESS.
Definition kt_directory (k : Z) : Z := Z.land (t kt_pdpt k) ADDRESS.

Definition table_entry (e : Z) : Prop :=
  Z.testbit e 0 = true ∧ Z.testbit e 1 = true ∧ Z.testbit e 7 = false ∧ Z.testbit e 63 = false.

Definition kernel_pages : list Z :=
  kt_root :: kt_pdpt :: (kt_directory <$> [0; 1; 2; 3]) ++
  (kt_static <$> seq 0 SPLIT_CAPACITY) ++ (kt_dynamic <$> seq 0 DYNAMIC_SPLIT_CAPACITY).

Record boot_tables : Prop := {
  bt_root : table_entry (t kt_root 0);
  bt_pdpt : ∀ k, 0 ≤ k < 4 → table_entry (t kt_pdpt k);
  bt_distinct : NoDup kernel_pages;
  bt_address : Forall page_address kernel_pages }.
End boot.

(** Page [n] lies in the kernel's code, or in its read-only data. *)
Definition text_page (layout : Layout) (n : Z) : Prop :=
  ly_text_start layout ≤ n * 4096 < ly_text_end layout.
Definition rodata_page (layout : Layout) (n : Z) : Prop :=
  ly_rodata_start layout ≤ n * 4096 < ly_rodata_end layout.

(** The flags a page begins with: none for the null page; else present,
    writable (2) outside code and read-only data, and not executable outside
    code. *)
Definition initial_flags (layout : Layout) (nx : Z) (n : Z) : Z :=
  if decide (n = 0) then 0
  else 1 + (if decide (text_page layout n ∨ rodata_page layout n) then 0 else 2) +
           (if decide (text_page layout n) then 0 else nx).

(** Calls after [initialize]. *)
Inductive SealCall := Seal (physical : Z) | Unseal (physical : Z) | Trampoline.

Definition seal_flags (call : SealCall) (nx : Z) : Z :=
  match call with Seal _ => Z.lor PRESENT nx | Unseal _ => Z.lor (Z.lor PRESENT WRITE) nx | Trampoline => PRESENT end.
Definition seal_page (call : SealCall) : Z := match call with Seal p | Unseal p => p | Trampoline => 0x8000 end.

Definition seal_call `{KernelTables} (nx : Z) (call : SealCall) (m : Tables * nat) : Tables * nat * bool :=
  match call with
  | Seal p => seal_form_code_frame m.1 m.2 nx p
  | Unseal p => unseal_form_frame m.1 m.2 nx p
  | Trampoline => (seal_ap_trampoline m.1, m.2, true)
  end.

(** A page a call can change: one of the 4 GiB, not the null page. *)
Definition sealable (p : Z) : Prop := 0 < p < 2 ^ 32 ∧ p mod PAGE = 0.

(** A call that succeeds changes the flags of its page; one that fails changes
    nothing, and fails for a page out of range or when all tables are taken. *)
Inductive seal_step (nx : Z) (used : nat) (perm : Z → Z) : SealCall → bool → (Z → Z) → Prop :=
  | step_sealed call : sealable (seal_page call) →
      seal_step nx used perm call true (<[seal_page call / PAGE := seal_flags call nx]> perm)
  | step_refused call : ¬ sealable (seal_page call) ∨ used = DYNAMIC_SPLIT_CAPACITY →
      seal_step nx used perm call false perm.

(** A run of calls: before and after each one the processor finds the pages with
    the flags of the specification. *)
Inductive seal_run `{KernelTables} (nx : Z) (perm : Z → Z) (m : Tables * nat)
    : list SealCall → (Z → Z) → Prop :=
  | seal_done : identity_map m.1 perm → seal_run nx perm m [] perm
  | seal_next call calls t' used' b perm1 perm2 :
      identity_map m.1 perm → seal_call nx call m = (t', used', b) → seal_step nx m.2 perm call b perm1 →
      seal_run nx perm1 (t', used') calls perm2 → seal_run nx perm m (call :: calls) perm2.

(** ** Lemmas: page-table entries *)

Lemma page_address_bits p b : page_address p → 0 ≤ b < 12 ∨ 52 ≤ b → Z.testbit p b = false.
Proof.
  intros [Hp Ha] Hb. rewrite (Z.div_mod p PAGE), Ha, Z.add_0_r by done.
  rewrite Z.mul_comm. change PAGE with (2 ^ 12). destruct Hb as [Hb|Hb].
  - apply Z.mul_pow2_bits_low. lia.
  - rewrite Z.mul_pow2_bits by lia. apply Z.testbit_false; [lia|]. rewrite Z.div_small; [done|].
    assert (p / 2 ^ 12 < 2 ^ 40) by (apply Z.div_lt_upper_bound; lia).
    assert (2 ^ 40 ≤ 2 ^ (b - 12)) by (apply Z.pow_le_mono_r; lia).
    split; [apply Z.div_pos; lia|lia].
Qed.

Lemma address_bits b : 0 ≤ b → Z.testbit ADDRESS b = (12 <=? b) && (b <? 52).
Proof.
  intros Hb. replace ADDRESS with (Z.shiftl (Z.ones 40) 12) by reflexivity.
  rewrite Z.shiftl_spec by done. rewrite Z.testbit_ones by done.
  destruct (Z.leb_spec 12 b), (Z.ltb_spec b 52), (Z.leb_spec 0 (b - 12)), (Z.ltb_spec (b - 12) 40); simpl; try reflexivity; exfalso; lia.
Qed.

Lemma land_address p f : page_address p → Z.land f ADDRESS = 0 → Z.land (Z.lor p f) ADDRESS = p.
Proof.
  intros Hp Hf. rewrite Z.land_lor_distr_l, Hf, Z.lor_0_r. apply Z.bits_inj'. intros b Hb.
  rewrite Z.land_spec, address_bits by done.
  destruct (Z.leb_spec 12 b), (Z.ltb_spec b 52); rewrite ?andb_true_r, ?andb_false_r; [done|..];
    symmetry; (apply page_address_bits; [done|lia]).
Qed.

Lemma flags_testbit f b : flags_ok f → 0 ≤ b → b ≠ 0 → b ≠ 1 → b ≠ 63 → Z.testbit f b = false.
Proof.
  intros <- Hb H0 H1 H63. unfold FLAGS, PRESENT, WRITE, NX. rewrite Z.land_spec, !Z.lor_spec, Z.shiftl_1_l.
  change 1 with (2 ^ 0) at 1. change 2 with (2 ^ 1) at 2. rewrite !Z.pow2_bits_eqb by lia.
  destruct (Z.eqb_spec 0 b), (Z.eqb_spec 1 b), (Z.eqb_spec 63 b); lia.
Qed.

Lemma flags_address f : flags_ok f → Z.land f ADDRESS = 0.
Proof. intros <-. rewrite <- Z.land_assoc. replace (Z.land FLAGS ADDRESS) with 0 by reflexivity. apply Z.land_0_r. Qed.

(** The flags the code writes. *)
Lemma write_flags_ok nx : nx = 0 ∨ nx = NX → flags_ok (Z.lor (Z.lor PRESENT WRITE) nx).
Proof. by intros [-> | ->]. Qed.

Lemma read_flags_ok nx : nx = 0 ∨ nx = NX → flags_ok (Z.lor PRESENT nx).
Proof. by intros [-> | ->]. Qed.

(** The code gives every page these flags. *)
Lemma initial_flags_layout layout nx n :
  nx = 0 ∨ nx = NX → initial_flags layout nx n = Layout_flags layout (n * PAGE) nx.
Proof.
  intros Hn. unfold initial_flags, Layout_flags, range_contains, PAGE.
  destruct (Z.eqb_spec (n * 4096) 0), (decide (n = 0)); try lia.
  unfold text_page, rodata_page.
  destruct (Z.leb_spec (ly_text_start layout) (n * 4096)), (Z.ltb_spec (n * 4096) (ly_text_end layout)),
    (Z.leb_spec (ly_rodata_start layout) (n * 4096)), (Z.ltb_spec (n * 4096) (ly_rodata_end layout));
    cbn [andb]; repeat first [rewrite decide_True by lia|rewrite decide_False by lia];
    by destruct Hn as [->| ->].
Qed.

Lemma layout_flags_ok layout a nx : nx = 0 ∨ nx = NX → flags_ok (Layout_flags layout a nx).
Proof.
  intros Hn. unfold Layout_flags. repeat case_match; [done|done|by apply read_flags_ok|by apply write_flags_ok].
Qed.

(** An entry with flags and the bits the walk reads from it. *)
Lemma entry_bit p f b :
  page_address p → 0 ≤ b < 12 ∨ 52 ≤ b → Z.testbit (Z.lor p f) b = Z.testbit f b.
Proof. intros Hp Hb. rewrite Z.lor_spec, page_address_bits by done. apply orb_false_l. Qed.

Lemma large_bit b : Z.testbit LARGE b = (b =? 7).
Proof.
  unfold LARGE. rewrite Z.shiftl_1_l. destruct (Z.leb_spec 0 b).
  - rewrite Z.pow2_bits_eqb by done. apply Z.eqb_sym.
  - rewrite Z.testbit_neg_r by done. symmetry. apply Z.eqb_neq. lia.
Qed.

Lemma land_nonzero e n : 0 ≤ n → (Z.land e (Z.shiftl 1 n) =? 0) = negb (Z.testbit e n).
Proof.
  intros Hn. rewrite land_bit by done. destruct (Z.testbit e n); [|done].
  apply Z.eqb_neq. pose proof (Z.pow_pos_nonneg 2 n). lia.
Qed.

Lemma large_test e : (Z.land e LARGE =? 0) = negb (Z.testbit e 7).
Proof. by apply land_nonzero. Qed.

Lemma present_test e : (Z.land e PRESENT =? 0) = negb (Z.testbit e 0).
Proof. by apply (land_nonzero e 0). Qed.

(** The four entries of a walk that ends at a 4 KiB page, and of one that ends at
    a large page. *)
Lemma table_pointer p : page_address p → let e := Z.lor (Z.lor p PRESENT) WRITE in
  table_entry e ∧ Z.land e ADDRESS = p.
Proof.
  intros Hp e. unfold e. rewrite <- Z.lor_assoc. split; [|by apply land_address].
  split_and!; (rewrite entry_bit; [reflexivity|done|lia]).
Qed.

Lemma large_entry p f : page_address p → flags_ok f → let e := Z.lor (Z.lor p f) LARGE in
  Z.testbit e 7 = true ∧ Z.land e ADDRESS = p ∧ Z.land e FLAGS = f ∧
  ∀ b, b = 0 ∨ b = 1 ∨ b = 2 ∨ b = 63 → Z.testbit e b = Z.testbit f b.
Proof.
  intros Hp Hf e. unfold e. rewrite <- Z.lor_assoc. split_and!.
  - rewrite entry_bit, Z.lor_spec, large_bit by (done || lia). apply orb_true_r.
  - apply land_address; [done|]. rewrite Z.land_lor_distr_l, flags_address by done. reflexivity.
  - rewrite !Z.land_lor_distr_l, Hf. replace (Z.land LARGE FLAGS) with 0 by reflexivity. rewrite Z.lor_0_r.
    replace (Z.land p FLAGS) with 0; [done|]. symmetry. apply Z.bits_inj'. intros b Hb.
    rewrite Z.land_spec, Z.bits_0. destruct (decide (0 ≤ b < 12 ∨ 52 ≤ b)).
    + by rewrite page_address_bits.
    + rewrite (flags_testbit FLAGS); [apply andb_false_r|done|lia..].
  - intros b Hb. rewrite entry_bit, Z.lor_spec, large_bit by (done || lia).
    destruct (Z.eqb_spec b 7); [lia|]. apply orb_false_r.
Qed.

(** What every page has that holds neither code nor read-only data. *)
Definition data_flags (nx : Z) : Z := Z.lor (Z.lor PRESENT WRITE) nx.

(** ** Lemmas: the map in memory *)

Section map.
Context `{KernelTables} (t0 : Tables) (BT : boot_tables t0) (nx : Z).
Abbreviation pdpt := (kt_pdpt t0).
Abbreviation dir := (kt_directory t0).

(** The tables that can replace a large page, static ones first. *)
Definition split_table (k : nat) : Z :=
  if (k <? SPLIT_CAPACITY)%nat then kt_static k else kt_dynamic (k - SPLIT_CAPACITY).
Definition in_use (ns nd k : nat) : Prop := (k < ns)%nat ∨ (SPLIT_CAPACITY ≤ k < SPLIT_CAPACITY + nd)%nat.

(** 2 MiB region [i], mapped by a large page or by a table of its own. *)
Definition region (t : Tables) (own : nat → Z) (ns nd : nat) (perm : Z → Z) (i : Z) : Prop :=
  let e := t (dir (i / 512)) (i mod 512) in
  (e = Z.lor (Z.lor (i * HUGE) (data_flags nx)) LARGE ∧ ∀ j, 0 ≤ j < 512 → perm (i * 512 + j) = data_flags nx) ∨
  (∃ k, in_use ns nd k ∧ own k = i ∧ e = Z.lor (Z.lor (split_table k) PRESENT) WRITE ∧
     ∀ j, 0 ≤ j < 512 → t (split_table k) j = Z.lor ((i * 512 + j) * PAGE) (perm (i * 512 + j))).

Record map_rep (done : Z) (ns nd : nat) (t : Tables) (perm : Z → Z) : Prop := {
  mr_static : (ns ≤ SPLIT_CAPACITY)%nat;
  mr_dynamic : (nd ≤ DYNAMIC_SPLIT_CAPACITY)%nat;
  mr_root : t kt_root 0 = t0 kt_root 0;
  mr_pdpt : ∀ k, 0 ≤ k < 4 → t pdpt k = t0 pdpt k;
  mr_flags : ∀ n, flags_ok (perm n);
  mr_regions : ∃ own, ∀ i, 0 ≤ i < done → region t own ns nd perm i }.

Lemma kernel_pages_split k : (k < SPLIT_CAPACITY + DYNAMIC_SPLIT_CAPACITY)%nat →
  kernel_pages t0 !! (6 + k)%nat = Some (split_table k).
Proof.
  intros Hk. change (kernel_pages t0 !! (6 + k)%nat) with
    (((kt_static <$> seq 0 SPLIT_CAPACITY) ++ (kt_dynamic <$> seq 0 DYNAMIC_SPLIT_CAPACITY)) !! k).
  unfold split_table, SPLIT_CAPACITY, DYNAMIC_SPLIT_CAPACITY in *.
  destruct (Nat.ltb_spec k 64).
  - rewrite lookup_app_l by (rewrite length_fmap, length_seq; lia).
    by rewrite list_lookup_fmap, lookup_seq_lt by lia.
  - rewrite lookup_app_r by (rewrite length_fmap, length_seq; lia).
    rewrite length_fmap, length_seq, list_lookup_fmap. by rewrite lookup_seq_lt by lia.
Qed.

Lemma kernel_pages_dir d : 0 ≤ d < 4 → kernel_pages t0 !! (2 + Z.to_nat d)%nat = Some (dir d).
Proof.
  intros Hd. assert (d = 0 ∨ d = 1 ∨ d = 2 ∨ d = 3) as [-> |[-> |[-> | ->]]] by lia; reflexivity.
Qed.

Lemma kernel_pages_inj i j a b :
  kernel_pages t0 !! i = Some a → kernel_pages t0 !! j = Some b → i ≠ j → a ≠ b.
Proof. intros Ha Hb Hij ->. by apply Hij, (NoDup_lookup _ _ _ _ (bt_distinct _ BT) Ha Hb). Qed.

Lemma in_use_bound ns nd k :
  (ns ≤ SPLIT_CAPACITY)%nat → (nd ≤ DYNAMIC_SPLIT_CAPACITY)%nat → in_use ns nd k →
  (k < SPLIT_CAPACITY + DYNAMIC_SPLIT_CAPACITY)%nat.
Proof. unfold in_use. lia. Qed.

(** The kernel's tables have different addresses. *)
Abbreviation table_index k := (k < SPLIT_CAPACITY + DYNAMIC_SPLIT_CAPACITY)%nat.

Lemma split_table_inj k k' : table_index k → table_index k' → k ≠ k' → split_table k ≠ split_table k'.
Proof. intros Hk Hk' Hne. eapply kernel_pages_inj; [by apply kernel_pages_split..|lia]. Qed.

Lemma split_table_dir k d : table_index k → 0 ≤ d < 4 → split_table k ≠ dir d.
Proof. intros Hk Hd. eapply kernel_pages_inj; [by apply kernel_pages_split|by apply kernel_pages_dir|lia]. Qed.

Lemma split_table_root k : table_index k → split_table k ≠ kt_root.
Proof. intros Hk. by eapply (kernel_pages_inj (6 + k) 0); [apply kernel_pages_split|..]. Qed.

Lemma split_table_pdpt k : table_index k → split_table k ≠ pdpt.
Proof. intros Hk. by eapply (kernel_pages_inj (6 + k) 1); [apply kernel_pages_split|..]. Qed.

Lemma dir_root d : 0 ≤ d < 4 → dir d ≠ kt_root.
Proof. intros Hd. by eapply (kernel_pages_inj (2 + Z.to_nat d) 0); [apply kernel_pages_dir|..]. Qed.

Lemma dir_pdpt d : 0 ≤ d < 4 → dir d ≠ pdpt.
Proof. intros Hd. by eapply (kernel_pages_inj (2 + Z.to_nat d) 1); [apply kernel_pages_dir|..]. Qed.

Lemma dir_inj d d' : 0 ≤ d < 4 → 0 ≤ d' < 4 → d ≠ d' → dir d ≠ dir d'.
Proof. intros Hd Hd' Hne. eapply kernel_pages_inj; [by apply kernel_pages_dir..|lia]. Qed.

Lemma split_table_address k : table_index k → page_address (split_table k).
Proof. intros Hk. apply (Forall_lookup_1 _ _ _ _ (bt_address _ BT) (kernel_pages_split k Hk)). Qed.

(** The processor on a region. *)
Lemma region_walk t own ns nd perm done i j :
  map_rep done ns nd t perm → region t own ns nd perm i → 0 ≤ i < 2048 → 0 ≤ j < 512 →
  ∀ a, 0 ≤ a < 2 ^ 32 → a / PAGE = i * 512 + j → walk t kt_root a = identity_access perm (i * 512 + j).
Proof.
  intros [Hs Hn Hroot Hpdpt Hf _] Hr Hi Hj a Ha Ea. pose proof (Hf (i * 512 + j)) as Hp.
  assert (0 ≤ i / 512 < 4) as Hk by (Z.to_euclidean_division_equations; lia).
  assert (a / 2 ^ 39 mod 512 = 0 ∧ a / 2 ^ 30 mod 512 = i / 512 ∧ a / 2 ^ 21 mod 512 = i mod 512 ∧
    a / 2 ^ 12 mod 512 = j) as (E4 & E3 & E2 & E1).
  { unfold PAGE in Ea. Z.to_euclidean_division_equations. lia. }
  unfold walk. rewrite E4, E3, E2, E1, Hroot. change (Z.land (t0 kt_root 0) ADDRESS) with pdpt.
  rewrite Hpdpt by done. change (Z.land (t0 pdpt (i / 512)) ADDRESS) with (dir (i / 512)).
  destruct (bt_root _ BT) as (R0 & R1 & R7 & R63). destruct (bt_pdpt _ BT _ Hk) as (P0 & P1 & P7 & P63).
  rewrite R0, P0, P7. cbn [negb]. assert (page_address (i * HUGE)) as Hb.
  { unfold page_address, HUGE, PAGE. split; [lia|]. Z.to_euclidean_division_equations. lia. }
  destruct Hr as [[-> Hfj]|(k & Hk' & _ & -> & Ht)].
  - assert (Z.testbit (perm (i * 512 + j)) 0 = true) as Hf0.
    { rewrite (Hfj j Hj). unfold data_flags. by rewrite !Z.lor_spec. }
    rewrite <- (Hfj j Hj). destruct (large_entry _ _ Hb Hp) as (L7 & LA & _ & Lb).
    rewrite Lb, Hf0, L7, LA by tauto. cbn [negb]. unfold identity_access. rewrite Hf0. unfold rights. cbn [forallb].
    rewrite R1, P1, R63, P63, !Lb by tauto. rewrite (flags_testbit (perm (i * 512 + j)) 2) by (done || lia). f_equal.
    cbn [andb negb]. rewrite !andb_true_r, !andb_false_r. f_equal.
    unfold HUGE, PAGE in *. Z.to_euclidean_division_equations. lia.
  - pose proof (split_table_address k (in_use_bound _ _ _ Hs Hn Hk')) as Hkp.
    destruct (table_pointer _ Hkp) as [(K0 & K1 & K7 & K63) KA]. rewrite K0, K7, KA, Ht by done. cbn [negb].
    assert (page_address ((i * 512 + j) * PAGE)) as Hq.
    { unfold page_address, PAGE. split; [lia|]. Z.to_euclidean_division_equations. lia. }
    rewrite entry_bit by (done || lia). unfold identity_access. destruct (Z.testbit (perm (i * 512 + j)) 0) eqn:E0; [|done].
    cbn [negb]. unfold rights. cbn [forallb]. rewrite R1, P1, K1, R63, P63, K63. cbn [andb negb].
    rewrite land_address by (done || by apply flags_address). rewrite !andb_true_r.
    rewrite !(entry_bit ((i * 512 + j) * PAGE) _ 1), !(entry_bit ((i * 512 + j) * PAGE) _ 63),
      !(entry_bit ((i * 512 + j) * PAGE) _ 2) by (done || lia).
    rewrite (flags_testbit (perm (i * 512 + j)) 2) by (done || lia). by rewrite !andb_false_r.
Qed.

Lemma map_rep_identity ns nd t perm : map_rep 2048 ns nd t perm → identity_map t perm.
Proof.
  intros Hm a Ha. destruct (mr_regions _ _ _ _ _ Hm) as [own Hr].
  assert (0 ≤ a / PAGE < 2048 * 512) by (unfold PAGE; Z.to_euclidean_division_equations; lia).
  rewrite (Z.div_mod (a / PAGE) 512), (Z.mul_comm 512) by done.
  assert (0 ≤ a / PAGE / 512 < 2048) by (Z.to_euclidean_division_equations; lia).
  eapply region_walk; [exact Hm|by apply Hr|done|by apply Z.mod_pos_bound|done|].
  rewrite (Z.div_mod (a / PAGE) 512) at 1 by done. lia.
Qed.

(** The indices of a page in the tables. *)
Lemma page_split p : sealable p → ∃ i j, p = (i * 512 + j) * PAGE ∧ 0 ≤ i < 2048 ∧ 0 ≤ j < 512 ∧
  p / (512 * HUGE) = i / 512 ∧ (p / HUGE) mod 512 = i mod 512 ∧ (p / PAGE) mod 512 = j ∧ p / PAGE = i * 512 + j.
Proof.
  intros [Hp Hm]. exists (p / PAGE / 512), (p / PAGE mod 512). unfold HUGE, PAGE in *.
  Z.to_euclidean_division_equations. lia.
Qed.

(** A region whose entry and table a write leaves alone. *)
Lemma region_frame t t' own own' ns nd ns' nd' perm perm' i :
  region t own ns nd perm i →
  t' (dir (i / 512)) (i mod 512) = t (dir (i / 512)) (i mod 512) →
  (∀ k, in_use ns nd k → own k = i →
     in_use ns' nd' k ∧ own' k = i ∧ ∀ j, 0 ≤ j < 512 → t' (split_table k) j = t (split_table k) j) →
  (∀ j, 0 ≤ j < 512 → perm' (i * 512 + j) = perm (i * 512 + j)) →
  region t' own' ns' nd' perm' i.
Proof.
  unfold region. intros [[Ee Hj]|(k & Hk & Ho & Ee & Hj)] He Ht Hp.
  - left. rewrite He. split; [done|]. intros j Hj'. rewrite Hp by done. by apply Hj.
  - right. destruct (Ht k Hk Ho) as (Hk' & Ho' & Ht'). exists k. rewrite He. split_and!; [done..|].
    intros j Hj'. rewrite Ht', Hp by done. by apply Hj.
Qed.

Lemma write_entry_same t a i v : write_entry t a i v a i = v.
Proof. unfold write_entry. by rewrite !Z.eqb_refl. Qed.

Lemma write_entry_other t a i v b j : b ≠ a ∨ j ≠ i → write_entry t a i v b j = t b j.
Proof.
  unfold write_entry. destruct (Z.eqb_spec b a), (Z.eqb_spec j i); simpl; try done. intros [?|?]; done.
Qed.

Lemma write_table_same t a f i : write_table t a f a i = f i.
Proof. unfold write_table. by rewrite Z.eqb_refl. Qed.

Lemma write_table_other t a f b i : b ≠ a → write_table t a f b i = t b i.
Proof. unfold write_table. by destruct (Z.eqb_spec b a). Qed.

(** Directory entries of different regions are different words. *)
Lemma region_entry i i' : 0 ≤ i < 2048 → 0 ≤ i' < 2048 → i ≠ i' →
  dir (i / 512) ≠ dir (i' / 512) ∨ i mod 512 ≠ i' mod 512.
Proof.
  intros Hi Hi' Hne. destruct (decide (i / 512 = i' / 512)) as [Hd|Hd].
  - right. intros Hm. apply Hne. rewrite (Z.div_mod i 512), (Z.div_mod i' 512) by done. lia.
  - left. apply dir_inj; [Z.to_euclidean_division_equations; lia..|done].
Qed.

Lemma dir_range i : 0 ≤ i < 2048 → 0 ≤ i / 512 < 4.
Proof. intros Hi. Z.to_euclidean_division_equations. lia. Qed.

(** A fresh table [k] takes over region [i]. *)
Lemma region_split t own ns nd ns' nd' perm k i v entries :
  table_index k → ¬ in_use ns nd k → in_use ns' nd' k →
  (∀ k', in_use ns nd k' → in_use ns' nd' k') → (ns ≤ SPLIT_CAPACITY)%nat → (nd ≤ DYNAMIC_SPLIT_CAPACITY)%nat →
  0 ≤ i < 2048 → v = Z.lor (Z.lor (split_table k) PRESENT) WRITE →
  (∀ j, 0 ≤ j < 512 → entries j = Z.lor ((i * 512 + j) * PAGE) (perm (i * 512 + j))) →
  let t' := write_entry (write_table t (split_table k) entries) (dir (i / 512)) (i mod 512) v in
  region t' (<[k := i]> own) ns' nd' perm i ∧
  ∀ i', 0 ≤ i' < 2048 → i' ≠ i → region t own ns nd perm i' → region t' (<[k := i]> own) ns' nd' perm i'.
Proof.
  intros Hk Hfresh Huse Hmono Hs Hn Hi -> He t'.
  assert (∀ d, 0 ≤ d < 4 → split_table k ≠ dir d) as Hkd by (intros d Hd; by apply split_table_dir).
  split.
  - right. exists k. unfold t'. rewrite write_entry_same, fn_lookup_insert. split_and!; [done..|].
    intros j Hj. rewrite write_entry_other, write_table_same by (left; apply Hkd, dir_range, Hi). by apply He.
  - intros i' Hi' Hne Hr. eapply region_frame; [exact Hr| | |done]; unfold t'.
    + rewrite write_entry_other, write_table_other; [done| |].
      * intros E. by apply (Hkd (i' / 512) (dir_range _ Hi')).
      * by apply region_entry.
    + intros k' Hk' Ho. pose proof (in_use_bound _ _ _ Hs Hn Hk') as Hb. assert (k' ≠ k) by (by intros ->).
      split_and!; [by apply Hmono|by rewrite fn_lookup_insert_ne|]. intros j Hj.
      rewrite write_entry_other, write_table_other; [done|by apply split_table_inj|].
      left. by apply split_table_dir; [|apply dir_range].
Qed.

Lemma upper_directory done ns nd t perm d :
  map_rep done ns nd t perm → 0 ≤ d < 4 →
  Z.land (t (Z.land (t kt_root 0) ADDRESS) d) ADDRESS = dir d ∧ t (Z.land (t kt_root 0) ADDRESS) d = t0 pdpt d.
Proof.
  intros Hm Hd. rewrite (mr_root _ _ _ _ _ Hm). change (Z.land (t0 kt_root 0) ADDRESS) with pdpt.
  by rewrite (mr_pdpt _ _ _ _ _ Hm) by done.
Qed.

(** Writes to a directory or to a split table leave the two upper levels alone. *)
Lemma upper_write done ns nd t perm t' :
  map_rep done ns nd t perm →
  (∀ a j, (∀ d, 0 ≤ d < 4 → a ≠ dir d) → (∀ k, table_index k → a ≠ split_table k) → t' a j = t a j) →
  t' kt_root 0 = t0 kt_root 0 ∧ ∀ k, 0 ≤ k < 4 → t' pdpt k = t0 pdpt k.
Proof.
  intros Hm Ht. split.
  - rewrite Ht, (mr_root _ _ _ _ _ Hm); [done|..].
    + intros d Hd. apply not_eq_sym, dir_root, Hd.
    + intros k Hk. apply not_eq_sym, split_table_root, Hk.
  - intros k Hk. rewrite Ht, (mr_pdpt _ _ _ _ _ Hm); [done|done|..].
    + intros d Hd. apply not_eq_sym, dir_pdpt, Hd.
    + intros k' Hk'. apply not_eq_sym, split_table_pdpt, Hk'.
Qed.

Section initialize.
Context (layout : Layout) (Hnx : nx = 0 ∨ nx = NX).

Lemma whole_region_flags i j :
  0 ≤ i < 2048 → 0 ≤ j < 512 → Layout_split layout (i * HUGE) = false →
  initial_flags layout nx (i * 512 + j) = Z.lor (Z.lor PRESENT WRITE) nx.
Proof.
  intros Hi Hj Hs. rewrite initial_flags_layout by done.
  unfold Layout_split, Layout_flags, range_contains, HUGE, PAGE in *.
  rewrite !orb_false_iff, !andb_false_iff in Hs. destruct Hs as [[H0 H1] H2].
  destruct (Z.eqb_spec ((i * 512 + j) * 4096) 0); [bools; lia|].
  destruct (Z.leb_spec (ly_text_start layout) ((i * 512 + j) * 4096)), (Z.ltb_spec ((i * 512 + j) * 4096) (ly_text_end layout)),
    (Z.leb_spec (ly_rodata_start layout) ((i * 512 + j) * 4096)),
    (Z.ltb_spec ((i * 512 + j) * 4096) (ly_rodata_end layout)); simpl; try done;
    exfalso; destruct H1, H2; bools; lia.
Qed.

Lemma map_region_rep index t used :
  map_rep (Z.of_nat index) used 0 t (initial_flags layout nx) → (index < 2048)%nat →
  match map_region layout nx index t used with
  | Returns (t', used') =>
      map_rep (Z.of_nat (S index)) used' 0 t' (initial_flags layout nx) ∧
      used' = (used + if Layout_split layout (Z.of_nat index * HUGE) then 1 else 0)%nat
  | Panics => Layout_split layout (Z.of_nat index * HUGE) = true ∧ used = SPLIT_CAPACITY
  | OutOfFuel => False
  end.
Proof.
  intros Hm Hi. set (i := Z.of_nat index) in *. assert (0 ≤ i < 2048) as Hi' by lia.
  pose proof (dir_range _ Hi') as Hd. destruct (upper_directory _ _ _ _ _ _ Hm Hd) as [Ed _].
  unfold map_region. fold i. rewrite Ed. destruct (mr_regions _ _ _ _ _ Hm) as [own Hr].
  pose proof (mr_static _ _ _ _ _ Hm) as Hsn. replace (Z.of_nat (S index)) with (i + 1) by lia.
  destruct (Layout_split layout (i * HUGE)) eqn:Es.
  - destruct (Nat.ltb_spec used SPLIT_CAPACITY) as [Hu|Hu]; cbn [negb]; [|by split; [|lia]].
    assert (kt_static used = split_table used) as -> by (unfold split_table; by rewrite (proj2 (Nat.ltb_lt _ _) Hu)).
    split; [|lia]. assert (table_index used) as Hk by lia.
    edestruct (region_split t own used 0 (S used) 0 (initial_flags layout nx) used i) as [Hnew Hold];
      [exact Hk|unfold in_use; lia|left; lia|unfold in_use; lia|lia|lia|exact Hi'|reflexivity| |].
    { intros j Hj. cbv beta. rewrite (initial_flags_layout layout nx (i * 512 + j)) by done. replace ((i * 512 + j) * PAGE) with (i * HUGE + j * PAGE);
        [reflexivity|unfold HUGE, PAGE; lia]. }
    edestruct upper_write as [U1 U2]; [exact Hm| |constructor; [lia|lia|exact U1|exact U2|apply Hm|]].
    { intros a j Ha1 Ha2. rewrite write_entry_other, write_table_other; [done|by apply Ha2|left; by apply Ha1]. }
    eexists. intros i' Hlt. destruct (decide (i' = i)) as [->|Hne]; [exact Hnew|].
    apply Hold; [lia|done|]. apply Hr. lia.
  - split; [|lia]. edestruct upper_write as [U1 U2]; [exact Hm| |constructor; [lia|lia|exact U1|exact U2|apply Hm|]].
    { intros a j Ha1 Ha2. rewrite write_entry_other; [done|left; by apply Ha1]. }
    exists own. intros i' Hlt. destruct (decide (i' = i)) as [->|Hne].
    + left. rewrite write_entry_same. split.
      * unfold data_flags. by rewrite <- !Z.lor_assoc, (Z.lor_comm nx LARGE).
      * intros j Hj. by apply whole_region_flags.
    + eapply region_frame; [apply Hr; lia| | |done].
      * rewrite write_entry_other; [done|]. apply region_entry; [lia|done|done].
      * intros k Hk Ho. split_and!; [done..|]. intros j Hj. rewrite write_entry_other; [done|].
        left. apply split_table_dir; [by eapply in_use_bound; [..|exact Hk]; lia|done].
Qed.

(** The regions among [n] from [index] that need a table. *)
Definition splits (n index : nat) : nat :=
  length (filter (λ i, Layout_split layout (Z.of_nat i * HUGE) = true) (seq index n)).

Lemma map_regions_rep n index t used :
  map_rep (Z.of_nat index) used 0 t (initial_flags layout nx) → (index + n ≤ 2048)%nat →
  match map_regions layout nx n index t used with
  | Returns (t', used') =>
      map_rep (Z.of_nat (index + n)) used' 0 t' (initial_flags layout nx) ∧ (used + splits n index ≤ SPLIT_CAPACITY)%nat
  | Panics => (SPLIT_CAPACITY < used + splits n index)%nat
  | OutOfFuel => False
  end.
Proof.
  revert index t used. induction n as [|n IH]; intros index t used Hm Hn; cbn [map_regions].
  - rewrite !Nat.add_0_r. split; [done|]. apply Hm.
  - pose proof (map_region_rep index t used Hm ltac:(lia)) as H1.
    assert (splits (S n) index = ((if Layout_split layout (Z.of_nat index * HUGE) then 1 else 0) + splits n (S index))%nat)
      as ->.
    { unfold splits. cbn [seq]. rewrite filter_cons. by destruct (Layout_split _ _), (decide _). }
    destruct (map_region layout nx index t used) as [[t1 used1]| |]; [|destruct H1 as [E1 E2]; rewrite E1; lia|done].
    destruct H1 as [Hm1 ->]. specialize (IH _ _ _ Hm1 ltac:(lia)). rewrite Nat.add_assoc, <- Nat.add_succ_comm.
    exact IH.
Qed.
End initialize.

(** Writing the entry of one page of a split region. *)
Lemma region_poke t own ns nd perm k i j flags :
  (ns ≤ SPLIT_CAPACITY)%nat → (nd ≤ DYNAMIC_SPLIT_CAPACITY)%nat → in_use ns nd k → own k = i →
  0 ≤ i < 2048 → 0 ≤ j < 512 →
  t (dir (i / 512)) (i mod 512) = Z.lor (Z.lor (split_table k) PRESENT) WRITE →
  (∀ j', 0 ≤ j' < 512 → t (split_table k) j' = Z.lor ((i * 512 + j') * PAGE) (perm (i * 512 + j'))) →
  (∀ i', 0 ≤ i' < 2048 → i' ≠ i → region t own ns nd perm i') →
  let t' := write_entry t (split_table k) j (Z.lor ((i * 512 + j) * PAGE) flags) in
  ∀ i', 0 ≤ i' < 2048 → region t' own ns nd (<[i * 512 + j := flags]> perm) i'.
Proof.
  intros Hs Hn Hk Ho Hi Hj He Ht Hr t' i' Hi'. pose proof (in_use_bound _ _ _ Hs Hn Hk) as Hb.
  destruct (decide (i' = i)) as [->|Hne].
  - right. exists k. unfold t'. rewrite write_entry_other by (left; apply not_eq_sym, split_table_dir; [done|by apply dir_range]).
    split_and!; [done..|]. intros j' Hj'. destruct (decide (j' = j)) as [->|Hjj].
    + by rewrite write_entry_same, fn_lookup_insert.
    + rewrite write_entry_other by (by right). rewrite fn_lookup_insert_ne by lia. by apply Ht.
  - eapply region_frame; [by apply Hr| | |].
    + apply write_entry_other. left. apply not_eq_sym, split_table_dir; [done|by apply dir_range].
    + intros k' Hk' Ho'. split_and!; [done..|]. intros j' _. apply write_entry_other. left.
      apply split_table_inj; [exact (in_use_bound _ _ _ Hs Hn Hk')|done|]. intros ->. congruence.
    + intros j' Hj'. apply fn_lookup_insert_ne. lia.
Qed.

(** Changing one page. *)
Lemma set_identity_frame_rep ns nd t perm p flags :
  map_rep 2048 ns nd t perm → 0 ≤ p → flags_ok flags →
  match set_identity_frame t nd p flags with
  | (t', nd', true) => sealable p ∧ map_rep 2048 ns nd' t' (<[p / PAGE := flags]> perm)
  | (t', nd', false) => t' = t ∧ nd' = nd ∧
      (¬ sealable p ∨ (nd = DYNAMIC_SPLIT_CAPACITY ∧ perm (p / PAGE) = data_flags nx))
  end.
Proof.
  intros Hm Hp Hfl. unfold set_identity_frame. destruct (_ || _ || _) eqn:Eg.
  { split_and!; [done..|]. left. unfold sealable. intros [Hs1 Hs2]. rewrite !orb_true_iff in Eg.
    destruct Eg as [[Eg|Eg]|Eg]; bools; [lia|lia|done]. }
  bools. assert (sealable p) as Hs by (unfold sealable; lia).
  destruct (page_split p Hs) as (i & j & Ei & Hi & Hj & -> & -> & -> & ->).
  destruct (upper_directory _ _ _ _ _ _ Hm (dir_range _ Hi)) as [Ed Ee].
  rewrite Ee. destruct (bt_pdpt _ BT _ (dir_range _ Hi)) as (P0 & _).
  rewrite present_test, P0. cbn [negb].
  rewrite <- Ee, Ed. destruct (mr_regions _ _ _ _ _ Hm) as [own Hr]. pose proof (mr_static _ _ _ _ _ Hm) as Hns.
  pose proof (mr_dynamic _ _ _ _ _ Hm) as Hnd. assert (∀ n, flags_ok (<[i * 512 + j := flags]> perm n)) as Hfl'.
  { intros n. destruct (decide (n = i * 512 + j)) as [->|]; [by rewrite fn_lookup_insert|].
    rewrite fn_lookup_insert_ne by done. apply Hm. }
  destruct (Hr i Hi) as [[Ev Hfj]|(k & Hk & Ho & Ev & Ht)]; rewrite Ev, large_test, negb_involutive.
  - assert (page_address (i * HUGE)) as Hb by (unfold page_address, HUGE, PAGE; split; [lia|Z.to_euclidean_division_equations; lia]).
    set (f := data_flags nx) in *. assert (flags_ok f) as Hff by (rewrite <- (Hfj j Hj); apply Hm).
    destruct (large_entry _ _ Hb Hff) as (L7 & LA & LF & _). rewrite L7, LA.
    destruct (Nat.ltb_spec nd DYNAMIC_SPLIT_CAPACITY) as [Hu|Hu]; cbn [negb]; [|split_and!; [done..|right; split; [lia|by apply Hfj]]].
    split; [done|]. change (Z.lor (Z.lor PRESENT WRITE) NX) with FLAGS. rewrite LF.
    set (k := (SPLIT_CAPACITY + nd)%nat). assert (kt_dynamic nd = split_table k) as ->.
    { unfold split_table, k. rewrite (proj2 (Nat.ltb_ge _ _)) by lia. f_equal. lia. }
    edestruct (region_split t own ns nd ns (S nd) perm k i (Z.lor (Z.lor (split_table k) PRESENT) WRITE)
      (λ page, Z.lor (i * HUGE + page * PAGE) f)) as [Hnew Hold];
      [unfold k; lia|unfold in_use, k; lia|right; unfold k; lia|unfold in_use; lia|lia|lia|exact Hi|reflexivity| |].
    { intros j' Hj'. cbv beta. rewrite Hfj by done. replace ((i * 512 + j') * PAGE) with (i * HUGE + j' * PAGE);
        [reflexivity|unfold HUGE, PAGE; lia]. }
    edestruct upper_write as [U1 U2]; [exact Hm| |constructor; [lia|lia|exact U1|exact U2|exact Hfl'|]].
    { intros a j' Ha1 Ha2. rewrite !write_entry_other, write_table_other; [done|apply Ha2; unfold k; lia|left; by apply Ha1, dir_range|].
      left. apply Ha2. unfold k. lia. }
    exists (<[k := i]> own). rewrite Ei. eapply (region_poke _ (<[k := i]> own)); [lia|lia|right; unfold k; lia|apply fn_lookup_insert|done|done| | |].
    + apply write_entry_same.
    + intros j' Hj'. rewrite write_entry_other, write_table_same; [|left; apply split_table_dir; [unfold k; lia|by apply dir_range]].
      rewrite Hfj by done. f_equal. unfold HUGE, PAGE. lia.
    + intros i' Hi' Hne. by apply Hold; [..|apply Hr].
  - pose proof (in_use_bound _ _ _ Hns Hnd Hk) as Hkb. pose proof (split_table_address k Hkb) as Hka.
    destruct (table_pointer _ Hka) as [(_ & _ & K7 & _) KA]. rewrite K7, KA. split; [done|].
    edestruct upper_write as [U1 U2]; [exact Hm| |constructor; [lia|lia|exact U1|exact U2|exact Hfl'|]].
    { intros a j' Ha1 Ha2. rewrite write_entry_other; [done|]. left. by apply Ha2. }
    exists own. rewrite Ei. by eapply (region_poke _ own); [..|intros i' Hi' _; apply Hr].
Qed.

(** The map lives in the kernel's pages: writes elsewhere keep it, and its own
    calls write nowhere else. *)
Lemma kernel_pages_elem :
  kt_root ∈ kernel_pages t0 ∧ pdpt ∈ kernel_pages t0 ∧ (∀ d, 0 ≤ d < 4 → dir d ∈ kernel_pages t0) ∧
  ∀ k, table_index k → split_table k ∈ kernel_pages t0.
Proof.
  split_and!.
  - by apply (list_elem_of_lookup_2 _ 0).
  - by apply (list_elem_of_lookup_2 _ 1).
  - intros d Hd. eapply list_elem_of_lookup_2, kernel_pages_dir, Hd.
  - intros k Hk. eapply list_elem_of_lookup_2, kernel_pages_split, Hk.
Qed.

Lemma map_rep_agree done ns nd t t' perm :
  (∀ a j, a ∈ kernel_pages t0 → t' a j = t a j) → done ≤ 2048 → map_rep done ns nd t perm → map_rep done ns nd t' perm.
Proof.
  intros Ha Hd [H1 H2 H3 H4 H5 [own H6]]. destruct kernel_pages_elem as (E1 & E2 & E3 & E4).
  constructor; [done|done|by rewrite Ha|intros k Hk; by rewrite Ha; [apply H4|]|done|].
  exists own. intros i Hi. eapply region_frame; [by apply H6| | |done].
  - apply Ha, E3, dir_range. lia.
  - intros k Hk Ho. split_and!; [done..|]. intros j _. apply Ha, E4. exact (in_use_bound _ _ _ H1 H2 Hk).
Qed.

Lemma set_identity_frame_local ns nd t perm p flags a j :
  map_rep 2048 ns nd t perm → 0 ≤ p → a ∉ kernel_pages t0 → (set_identity_frame t nd p flags).1.1 a j = t a j.
Proof.
  intros Hm Hp Ha. unfold set_identity_frame. destruct (_ || _ || _) eqn:Eg; [done|]. bools.
  assert (sealable p) as Hs by (unfold sealable; lia).
  destruct (page_split p Hs) as (i & j' & Ei & Hi & Hj & -> & -> & -> & _).
  destruct (upper_directory _ _ _ _ _ _ Hm (dir_range _ Hi)) as [Ed Ee]. rewrite Ee.
  destruct (Z.land _ PRESENT =? 0); [done|]. rewrite <- Ee, Ed.
  pose proof (mr_dynamic _ _ _ _ _ Hm) as Hnd. pose proof (mr_static _ _ _ _ _ Hm) as Hns.
  destruct kernel_pages_elem as (_ & _ & E3 & E4). pose proof (E3 _ (dir_range _ Hi)) as Hdir.
  assert (∀ b, b ∈ kernel_pages t0 → a ≠ b) as Hne by (intros b Hb ->; done).
  destruct (mr_regions _ _ _ _ _ Hm) as [own Hr].
  destruct (Hr i Hi) as [[Ev _]|(k & Hk & _ & Ev & _)]; rewrite Ev, large_test, negb_involutive.
  - assert (page_address (i * HUGE)) as Hb by (unfold page_address, HUGE, PAGE; split; [lia|Z.to_euclidean_division_equations; lia]).
    rewrite <- Z.lor_assoc, entry_bit, Z.lor_spec, large_bit by (done || lia). rewrite orb_true_r.
    destruct (Nat.ltb_spec nd DYNAMIC_SPLIT_CAPACITY) as [Hu|Hu]; cbn [negb]; [|done]. cbn [fst].
    assert (kt_dynamic nd = split_table (SPLIT_CAPACITY + nd)) as ->.
    { unfold split_table. rewrite (proj2 (Nat.ltb_ge _ _)) by lia. f_equal. lia. }
    assert (a ≠ split_table (SPLIT_CAPACITY + nd)) by (apply Hne, E4; lia).
    rewrite !write_entry_other, write_table_other by (done || (left; by apply Hne) || by left). done.
  - pose proof (in_use_bound _ _ _ Hns Hnd Hk) as Hkb. destruct (table_pointer _ (split_table_address k Hkb)) as [(_ & _ & K7 & _) KA].
    rewrite K7, KA. cbn [fst]. apply write_entry_other. left. by apply Hne, E4.
Qed.

(** No page is writable and executable, and the null page is not mapped. *)
Definition guarded (perm : Z → Z) : Prop :=
  perm 0 = 0 ∧ (nx = NX → ∀ n, Z.testbit (perm n) 1 = true → Z.testbit (perm n) 63 = true).

Lemma initial_guarded layout : guarded (initial_flags layout nx).
Proof.
  split; [done|]. intros E n. rewrite E. unfold initial_flags.
  destruct (decide (n = 0)), (decide (text_page layout n)), (decide (text_page layout n ∨ rodata_page layout n));
    first [done|exfalso; tauto].
Qed.

Lemma sealed_guarded perm call :
  guarded perm → sealable (seal_page call) →
  guarded (<[seal_page call / PAGE := seal_flags call nx]> perm).
Proof.
  intros [H0 Hwx] [Hp Hm]. split.
  - rewrite fn_lookup_insert_ne; [done|]. intros E. unfold PAGE in *. Z.to_euclidean_division_equations. lia.
  - intros E n. destruct (decide (n = seal_page call / PAGE)) as [->|].
    + rewrite fn_lookup_insert, E. by destruct call.
    + rewrite fn_lookup_insert_ne by done. by apply Hwx.
Qed.

(** The first region is always split, because the null page is not mapped. *)
Lemma trampoline_call ns nd t perm :
  nx = 0 ∨ nx = NX → map_rep 2048 ns nd t perm → guarded perm →
  set_identity_frame t nd 0x8000 PRESENT = (seal_ap_trampoline t, nd, true).
Proof.
  intros Hnx Hm [H0 _]. destruct (upper_directory _ _ _ _ _ 0 Hm ltac:(lia)) as [Ed Ee].
  destruct (mr_regions _ _ _ _ _ Hm) as [own Hr]. destruct (Hr 0 ltac:(lia)) as [[_ Hf]|(k & Hk & _ & Ev & _)].
  { specialize (Hf 0 ltac:(lia)). change (perm 0 = data_flags nx) in Hf. rewrite H0 in Hf. by destruct Hnx as [->| ->]. }
  pose proof (in_use_bound _ _ _ (mr_static _ _ _ _ _ Hm) (mr_dynamic _ _ _ _ _ Hm) Hk) as Hkb.
  destruct (table_pointer _ (split_table_address k Hkb)) as [(_ & _ & K7 & _) KA].
  unfold set_identity_frame, seal_ap_trampoline. cbn [Z.eqb orb].
  change (0x8000 / (512 * HUGE)) with 0. change ((0x8000 / HUGE) mod 512) with 0. change ((0x8000 / PAGE) mod 512) with 8.
  change (2 ^ 32 <=? 0x8000) with false. change (negb (0x8000 mod PAGE =? 0)) with false. cbn [orb].
  destruct (bt_pdpt _ BT 0 ltac:(lia)) as (P0 & _). rewrite Ee, present_test, P0. cbn [negb].
  rewrite <- Ee, Ed. change (0 / 512) with 0 in Ev. change (0 mod 512) with 0 in Ev. rewrite Ev, large_test, K7. done.
Qed.

Lemma seal_calls_run ns nd t perm calls :
  nx = 0 ∨ nx = NX → map_rep 2048 ns nd t perm → guarded perm → Forall (λ call, 0 ≤ seal_page call) calls →
  ∃ perm', seal_run nx perm (t, nd) calls perm' ∧ guarded perm'.
Proof.
  intros Hnx. revert nd t perm. induction calls as [|call calls IH]; intros nd t perm Hm Hg Hc.
  - exists perm. split; [|done]. constructor. by eapply map_rep_identity.
  - apply Forall_cons_1 in Hc as [Hc Hcs].
    assert (seal_call nx call (t, nd) = set_identity_frame t nd (seal_page call) (seal_flags call nx)) as Ec
      by (destruct call; [done|done|symmetry; by eapply trampoline_call]).
    assert (flags_ok (seal_flags call nx)) as Hf by (destruct call; [by apply read_flags_ok|by apply write_flags_ok|done]).
    pose proof (set_identity_frame_rep ns nd t perm _ _ Hm Hc Hf) as Hs. rewrite <- Ec in Hs.
    destruct (seal_call nx call (t, nd)) as [[t' nd'] b] eqn:E. destruct b.
    + destruct Hs as [Hs Hm']. destruct (IH _ _ _ Hm' (sealed_guarded _ _ Hg Hs) Hcs) as (perm' & Hr & Hg').
      exists perm'. split; [|done]. eapply seal_next; [by eapply map_rep_identity|exact E|by apply step_sealed|done].
    + destruct Hs as (-> & -> & Hs). destruct (IH _ _ _ Hm Hg Hcs) as (perm' & Hr & Hg').
      exists perm'. split; [|done]. eapply seal_next; [by eapply map_rep_identity|exact E|apply step_refused; tauto|done].
Qed.

Lemma initialize_rep layout :
  nx = 0 ∨ nx = NX →
  match initialize_paging layout nx t0 with
  | Returns (t, used) =>
      map_rep 2048 used 0 t (initial_flags layout nx) ∧
      layout_checked layout = true ∧ (splits layout 2048 0 ≤ SPLIT_CAPACITY)%nat
  | Panics => layout_checked layout = false ∨ (SPLIT_CAPACITY < splits layout 2048 0)%nat
  | OutOfFuel => False
  end.
Proof.
  intros Hnx. unfold initialize_paging. destruct (layout_checked layout); cbn [negb]; [|by left].
  assert (map_rep 0 0 0 t0 (initial_flags layout nx)) as H0.
  { constructor; [unfold SPLIT_CAPACITY; lia|lia|done|done| |].
    - intros n. rewrite initial_flags_layout by done. by apply layout_flags_ok.
    - exists (λ _, 0). lia. }
  pose proof (map_regions_rep layout Hnx 2048 0 t0 0 H0 ltac:(done)) as Hm.
  destruct (map_regions layout nx 2048 0 t0 0) as [[t used]| |]; [|by right|done].
  by destruct Hm.
Qed.
End map.

(** ** Properties *)

(** C14. [initialize] maps the first 4 GiB to themselves: the processor finds every
    page at its own address, never for user mode, kernel text read-only and
    executable, read-only data read-only, everything else writable, and the null
    page not at all.  Sealing and unsealing frames, and sealing the start-up page of
    the other processors, changes the flags of that page and of no other, and is refused only for an address outside the map or when
    the pool of tables is used up.  With NX no page is ever writable and executable.
    [initialize] stops the machine exactly when the sections are misplaced or span
    more tables than the pool holds. *)
Theorem kernel_map_refines `{KernelTables} t0 layout nx calls :
  boot_tables t0 → nx = 0 ∨ nx = NX → Forall (λ call, 0 ≤ seal_page call) calls →
  match initialize_paging layout nx t0 with
  | Returns (t, _) =>
      layout_checked layout = true ∧ (splits layout 2048 0 ≤ SPLIT_CAPACITY)%nat ∧
      ∃ perm, seal_run nx (initial_flags layout nx) (t, O) calls perm ∧ guarded nx perm
  | Panics => layout_checked layout = false ∨ (SPLIT_CAPACITY < splits layout 2048 0)%nat
  | OutOfFuel => False
  end.
Proof.
  intros Hb Hnx Hc. pose proof (initialize_rep t0 Hb nx layout Hnx) as Hi.
  destruct (initialize_paging layout nx t0) as [[t used]| |]; [|done..].
  destruct Hi as (Hm & Hl & Hs). split_and!; [done..|]. by eapply seal_calls_run; [..|apply initial_guarded|].
Qed.

Definition demo_tables : KernelTables :=
  {| kt_root := 4096; kt_static := λ k, 1048576 + 4096 * Z.of_nat k; kt_dynamic := λ k, 2097152 + 4096 * Z.of_nat k |}.
#[local] Existing Instance demo_tables.

Definition demo_boot : Tables := λ a i,
  if a =? 4096 then Z.lor 8192 3 else if a =? 8192 then Z.lor (12288 + 4096 * i) 3 else 0.

Lemma demo_boot_tables : boot_tables demo_boot.
Proof.
  constructor.
  - by repeat split.
  - intros k Hk. assert (k = 0 ∨ k = 1 ∨ k = 2 ∨ k = 3) as [-> |[-> |[-> | ->]]] by lia; by repeat split.
  - apply (bool_decide_unpack _). by vm_compute.
  - rewrite Forall_forall. intros p Hp.
    assert (forallb (λ p, (0 <=? p) && (p <? 2 ^ 52) && (p mod PAGE =? 0)) (kernel_pages demo_boot) = true) as Ha
      by (by vm_compute).
    rewrite forallb_forall in Ha. specialize (Ha p). specialize (Ha Hp). bools.
    unfold page_address. lia.
Qed.

Lemma kernel_map_refines_witness :
  ∃ t used perm, initialize_paging (MkLayout 3145728 4194304 4194304 5242880) NX demo_boot = Returns (t, used) ∧
    seal_run NX (initial_flags (MkLayout 3145728 4194304 4194304 5242880) NX) (t, O)
      [Seal 8388608; Trampoline; Seal 12288; Unseal 8388608; Seal 5] perm ∧ guarded NX perm.
Proof.
  pose proof (kernel_map_refines demo_boot (MkLayout 3145728 4194304 4194304 5242880) NX
    [Seal 8388608; Trampoline; Seal 12288; Unseal 8388608; Seal 5] demo_boot_tables (or_intror eq_refl)
    ltac:(by repeat constructor)) as H.
  destruct (initialize_paging _ _ _) as [[t used]| |]; [|exfalso|done].
  - destruct H as (_ & _ & perm & H). by exists t, used, perm.
  - destruct H as [H|H]; [by vm_compute in H|]. apply Nat.ltb_lt in H. by vm_compute in H.
Defined.
