(* ===== verification/ServiceImage.v ===== *)
(** * Service workers: the image and its memory

    kernel/src/service.rs: the ELF images of the Ring 3 services ([Image::parse]),
    the arena they run in ([Memory::load], [Memory::map]) and the two translations
    of a worker's addresses to kernel addresses.

    An arena is one heap object: a page table at [pointer] followed by 2 MiB of
    bytes.  [alloc_zeroed] is an argument, the address it returned.

    The theorems decide which images are accepted, give every page of a loaded
    arena its content and rights, and bound the ranges the kernel lends out. *)

From stdpp Require Import prelude list.
From Stdlib Require Import ZArith Lia.
From S2P Require Import Prelude Identity Bytes Frames Paging.

Set Default Goal Selector "!".
Open Scope Z_scope.
Open Scope expos_scope.

(** ** Definitions *)

Definition BASE : Z := 0x400000200000.
Definition MEMORY_BYTES : Z := 2 * 1024 * 1024.
Definition INPUT_OFFSET : Z := 0x180000.
Definition INPUT_BYTES : Z := 64 * 1024.
Definition STACK_OFFSET : Z := 0x1a0000.
Definition STACK_BYTES : Z := 256 * 1024.
Definition OUTPUT_BYTES : Z := 64 * 1024.

Inductive ServiceError :=
  | SvBusy | SvUnsupported | SvInvalidImage | SvInputTooLarge | SvNoMemory | SvAdmission
  | SvFault (vector : Z) | SvBudget.

Record Segment := MkSegment {
  sg_address : Z; sg_offset : Z; sg_file_size : Z; sg_memory_size : Z; sg_flags : Z }.

Record ServiceImage := MkServiceImage { si_entry : Z; si_segments : slots Segment }.

(** [from_le_bytes(bytes[at..at + n])]; every use is within the file. *)
Definition le_at (n : nat) (bytes : list Z) (at_ : Z) : Z := le_value (slice bytes (Z.to_nat at_) n).

(** [\x7fELF], 64-bit, little-endian, version 1; and an executable for x86_64. *)
Definition ELF_IDENT : list Z := [127; 69; 76; 70; 2; 1; 1].
Definition ELF_TYPE : list Z := [2; 0; 62; 0].

(** [n.div_ceil(4096)] *)
Definition pages_of (n : Z) : Z := (n + 4095) / 4096.

(** The overlap test against the segments already read. *)
Definition overlaps (address end_ : Z) (previous : Segment) : bool :=
  let previous_end := sg_address previous + pages_of (sg_memory_size previous) * 4096 in
  (address <? previous_end) && (sg_address previous <? pages_of end_ * 4096).

(** One program header, at [at_]; [executable] is [executable_entry]. *)
Definition parse_header (bytes : list Z) (entry at_ : Z) (i : nat) (segments : slots Segment) (executable : bool)
    : result (slots Segment * bool) ServiceError :=
  if slice bytes (Z.to_nat at_) 4 !=? [1; 0; 0; 0] then Ok (segments, executable)
  else
    let flags := le_at 4 bytes (at_ + 4) in
    let offset := le_at 8 bytes (at_ + 8) in
    let address := le_at 8 bytes (at_ + 16) in
    let file_size := le_at 8 bytes (at_ + 32) in
    let memory_size := le_at 8 bytes (at_ + 40) in
    if memory_size =? 0 then Ok (segments, executable)
    else
      match checked_add u64_max address memory_size with
      | None => Err SvInvalidImage
      | Some end_ =>
          if negb ((flags =? 4) || (flags =? 5) || (flags =? 6)) || (address <? BASE) ||
             negb (address mod 4096 =? 0) || (BASE + INPUT_OFFSET <? end_) || (memory_size <? file_size) ||
             match checked_add usize_max offset file_size with
             | None => true
             | Some file_end => Zlength bytes <? file_end
             end
          then Err SvInvalidImage
          else if existsb (overlaps address end_) (flatten segments) then Err SvInvalidImage
          else
            let executable := executable ||
              ((flags =? 5) && range_contains address (address + file_size) entry) in
            Ok (<[i := Some (MkSegment address offset file_size memory_size flags)]> segments, executable)
      end.

Fixpoint parse_headers (bytes : list Z) (entry ph : Z) (n i : nat) (segments : slots Segment) (executable : bool)
    : result (slots Segment * bool) ServiceError :=
  match n with
  | O => Ok (segments, executable)
  | S n' =>
      let? (segments, executable) := parse_header bytes entry (ph + Z.of_nat i * 56) i segments executable in
      parse_headers bytes entry ph n' (S i) segments executable
  end.

Definition ServiceImage_parse (bytes : list Z) : result ServiceImage ServiceError :=
  if (Zlength bytes <? 64) || (take 7 bytes !=? ELF_IDENT) || (slice bytes 16 4 !=? ELF_TYPE)
  then Err SvInvalidImage
  else
    let ph := le_at 8 bytes 32 in
    let count := le_at 2 bytes 56 in
    if negb (le_at 2 bytes 54 =? 56) || (count =? 0) || (8 <? count) ||
       match checked_add usize_max ph (count * 56) with
       | None => true
       | Some end_ => Zlength bytes <? end_
       end
    then Err SvInvalidImage
    else
      let entry := le_at 8 bytes 24 in
      let? (segments, executable) := parse_headers bytes entry ph (Z.to_nat count) 0 (empty_slots Segment 8) false in
      if negb executable then Err SvInvalidImage else Ok (MkServiceImage entry segments).

(** [bytes.as_ptr()] of the arena at [pointer]: the table takes the first page. *)
Definition arena_bytes (pointer : Z) : Z := pointer + 4096.

Definition Memory_map (t : Tables) (pointer offset length flags : Z) : Tables :=
  let first := offset / 4096 in
  fold_left (λ t page, write_entry t pointer page (Z.lor (arena_bytes pointer + page * 4096) flags))
    (seqZ first (pages_of (offset + length) - first)) t.

(** The flags of a segment's pages. *)
Definition segment_flags (flags : Z) : Z :=
  Z.lor (Z.lor (Z.lor 1 4) (if negb (Z.land flags 2 =? 0) then 2 else 0))
    (if Z.land flags 1 =? 0 then NX else 0).

Definition load_segment (elf : list Z) (pointer : Z) (m : Tables * Memory) (segment : Segment) : Tables * Memory :=
  let start := sg_address segment - BASE in
  (Memory_map m.1 pointer start (sg_memory_size segment) (segment_flags (sg_flags segment)),
   write_bytes m.2 (arena_bytes pointer + start)
     (slice elf (Z.to_nat (sg_offset segment)) (Z.to_nat (sg_file_size segment)))).

Definition Memory_load (elf input : list Z) (pointer : option Z) (t : Tables) (memory : Memory)
    : result (Z * Z * (Tables * Memory)) ServiceError :=
  if INPUT_BYTES <? Zlength input then Err SvInputTooLarge
  else
    let? image := ServiceImage_parse elf in
    match pointer with
    | None => Err SvNoMemory
    | Some pointer =>
        let m := (write_table t pointer (λ _, 0), fill_bytes memory (arena_bytes pointer) MEMORY_BYTES 0) in
        let m := fold_left (load_segment elf pointer) (flatten (si_segments image)) m in
        let memory := write_bytes m.2 (arena_bytes pointer + INPUT_OFFSET) input in
        let t := Memory_map m.1 pointer INPUT_OFFSET INPUT_BYTES (Z.lor (Z.lor 1 4) NX) in
        let t := Memory_map t pointer STACK_OFFSET STACK_BYTES (Z.lor (Z.lor (Z.lor 1 2) 4) NX) in
        Ok (pointer, si_entry image, (t, memory))
    end.

(** [1 | 2 | 4 | (1 << 63)] *)
Definition USER_DATA_FLAGS : Z := Z.lor (Z.lor (Z.lor 1 2) 4) NX.

(** The loop both translations share; [limit] is where they differ. *)
Definition writable_range (limit : Z) (t : Tables) (pointer user_address length : Z) : option Z :=
  match checked_sub user_address BASE with
  | None => None
  | Some offset =>
      match checked_add usize_max offset length with
      | None => None
      | Some end_ =>
          if (length =? 0) || (limit <? end_) then None
          else
            let first := offset / 4096 in
            if existsb (λ page, negb (Z.land (t pointer page) USER_DATA_FLAGS =? USER_DATA_FLAGS))
                 (seqZ first (pages_of end_ - first))
            then None else Some (arena_bytes pointer + offset)
      end
  end.

Definition writable_physical_range : Tables → Z → Z → Z → option Z := writable_range INPUT_OFFSET.
Definition writable_alias_range : Tables → Z → Z → Z → option Z := writable_range MEMORY_BYTES.

(** ** Specification: the images *)

Section elf.
Context (bytes : list Z).

Definition elf_entry : Z := le_at 8 bytes 24.
Definition elf_count : Z := le_at 2 bytes 56.
Definition header_at (i : nat) : Z := le_at 8 bytes 32 + Z.of_nat i * 56.

(** Program header [i] asks for memory, and what it asks for. *)
Definition loads (i : nat) : bool :=
  (slice bytes (Z.to_nat (header_at i)) 4 ==? [1; 0; 0; 0]) && (le_at 8 bytes (header_at i + 40) !=? 0).

Definition segment_at (i : nat) : Segment :=
  MkSegment (le_at 8 bytes (header_at i + 16)) (le_at 8 bytes (header_at i + 8)) (le_at 8 bytes (header_at i + 32))
    (le_at 8 bytes (header_at i + 40)) (le_at 4 bytes (header_at i + 4)).

Definition slot_at (i : nat) : option Segment := if loads i then Some (segment_at i) else None.

(** The segment is readable, maybe writable or executable but not both, starts on
    a page of the arena, ends before the input, and its file part is in the file. *)
Record segment_fits (s : Segment) : Prop := {
  sf_flags : sg_flags s = 4 ∨ sg_flags s = 5 ∨ sg_flags s = 6;
  sf_start : BASE ≤ sg_address s;
  sf_align : sg_address s mod 4096 = 0;
  sf_end : sg_address s + sg_memory_size s ≤ BASE + INPUT_OFFSET;
  sf_size : sg_file_size s ≤ sg_memory_size s;
  sf_file : sg_offset s + sg_file_size s ≤ Zlength bytes }.

(** No page belongs to both. *)
Definition segments_apart (s s' : Segment) : Prop :=
  sg_address s + pages_of (sg_memory_size s) * 4096 ≤ sg_address s' ∨
  sg_address s' + pages_of (sg_memory_size s') * 4096 ≤ sg_address s.

(** The entry point is in the file part of an executable segment. *)
Definition enters (s : Segment) : Prop :=
  sg_flags s = 5 ∧ sg_address s ≤ elf_entry < sg_address s + sg_file_size s.

Record elf_valid : Prop := {
  ev_length : 64 ≤ Zlength bytes;
  ev_ident : take 7 bytes = ELF_IDENT;
  ev_type : slice bytes 16 4 = ELF_TYPE;
  ev_header_size : le_at 2 bytes 54 = 56;
  ev_count : elf_count ≠ 0 ∧ elf_count ≤ 8;
  ev_headers : le_at 8 bytes 32 + elf_count * 56 ≤ Zlength bytes;
  ev_fits : ∀ i, (i < Z.to_nat elf_count)%nat → loads i = true → segment_fits (segment_at i);
  ev_apart : ∀ i j, (i < j < Z.to_nat elf_count)%nat → loads i = true → loads j = true →
    segments_apart (segment_at i) (segment_at j);
  ev_entry : ∃ i, (i < Z.to_nat elf_count)%nat ∧ loads i = true ∧ enters (segment_at i) }.

(** The image of a valid file. *)
Definition elf_image : ServiceImage :=
  MkServiceImage elf_entry ((slot_at <$> seq 0 (Z.to_nat elf_count)) ++ empty_slots Segment (8 - Z.to_nat elf_count)).
End elf.

(** ** Lemmas: the image *)

Section parse.
Context (bytes : list Z) (Hlen : Zlength bytes ≤ usize_max).

Definition slots_upto (i : nat) : slots Segment := (slot_at bytes <$> seq 0 i) ++ empty_slots Segment (8 - i).

Lemma flatten_upto i s : s ∈ flatten (slots_upto i) ↔ ∃ k, (k < i)%nat ∧ loads bytes k = true ∧ s = segment_at bytes k.
Proof.
  unfold slots_upto. rewrite flatten_app, flatten_empty, app_nil_r, elem_of_flatten, list_elem_of_fmap.
  unfold slot_at. split.
  - intros (k & Es & Hk). apply elem_of_seq in Hk. destruct (loads bytes k) eqn:El; simplify_eq. exists k. split_and!; [lia|done..].
  - intros (k & Hk & El & ->). exists k. rewrite El, elem_of_seq. split; [done|lia].
Qed.

Lemma slots_upto_S i : (i < 8)%nat →
  slots_upto (S i) = if loads bytes i then <[i := Some (segment_at bytes i)]> (slots_upto i) else slots_upto i.
Proof.
  intros Hi. unfold slots_upto. rewrite seq_S, fmap_app, <- app_assoc. cbn [fmap list_fmap app].
  replace (8 - i)%nat with (S (8 - S i)) by lia. unfold empty_slots. cbn [replicate].
  unfold slot_at at 2. rewrite Nat.add_0_l. destruct (loads bytes i); [|done].
  rewrite insert_app_r_alt by (rewrite length_fmap, length_seq; lia).
  by rewrite length_fmap, length_seq, Nat.sub_diag.
Qed.

(** What the loop requires of header [i]. *)
Definition header_fine (i : nat) : Prop :=
  loads bytes i = true → segment_fits bytes (segment_at bytes i) ∧
  ∀ k, (k < i)%nat → loads bytes k = true → segments_apart (segment_at bytes k) (segment_at bytes i).

Lemma pages_of_aligned a n : a mod 4096 = 0 → pages_of (a + n) * 4096 = a + pages_of n * 4096.
Proof. unfold pages_of. intros Ha. Z.to_euclidean_division_equations. lia. Qed.

Lemma overlaps_apart s s' : sg_address s' mod 4096 = 0 →
  overlaps (sg_address s') (sg_address s' + sg_memory_size s') s = false ↔ segments_apart s s'.
Proof.
  intros Ha. unfold overlaps, segments_apart. rewrite pages_of_aligned by done.
  rewrite andb_false_iff, !Z.ltb_ge. tauto.
Qed.

(** The guard of the loop is [segment_fits]. *)
Lemma guard_fits s :
  match checked_add u64_max (sg_address s) (sg_memory_size s) with
  | None => true
  | Some end_ =>
      negb ((sg_flags s =? 4) || (sg_flags s =? 5) || (sg_flags s =? 6)) || (sg_address s <? BASE) ||
      negb (sg_address s mod 4096 =? 0) || (BASE + INPUT_OFFSET <? end_) || (sg_memory_size s <? sg_file_size s) ||
      match checked_add usize_max (sg_offset s) (sg_file_size s) with
      | None => true
      | Some file_end => Zlength bytes <? file_end
      end
  end = false ↔ segment_fits bytes s.
Proof.
  unfold checked_add. split.
  - destruct (Z.leb_spec (sg_address s + sg_memory_size s) u64_max) as [H1|H1]; [|done].
    destruct (Z.leb_spec (sg_offset s + sg_file_size s) usize_max) as [H2|H2]; [|by rewrite orb_true_r].
    rewrite !orb_false_iff, !negb_false_iff, !orb_true_iff. intros [[[[[Hf Ha] Hm] He] Hs] Ho]. bools.
    constructor; lia.
  - intros [Hf Ha Hm He Hs Ho].
    rewrite (proj2 (Z.leb_le (sg_address s + sg_memory_size s) u64_max)) by (unfold BASE, INPUT_OFFSET, u64_max in *; lia).
    rewrite (proj2 (Z.leb_le (sg_offset s + sg_file_size s) usize_max)) by lia.
    rewrite !orb_false_iff, !negb_false_iff, !orb_true_iff, !Z.eqb_eq, !Z.ltb_ge. split_and!; try lia; tauto.
Qed.

Lemma parse_header_spec i executable :
  (i < 8)%nat →
  (header_fine i ∧ parse_header bytes (elf_entry bytes) (header_at bytes i) i (slots_upto i) executable =
     Ok (slots_upto (S i), executable || (loads bytes i && bool_decide (enters bytes (segment_at bytes i))))) ∨
  (¬ header_fine i ∧
   parse_header bytes (elf_entry bytes) (header_at bytes i) i (slots_upto i) executable = Err SvInvalidImage).
Proof.
  intros Hi. unfold header_fine, parse_header. rewrite slots_upto_S by done.
  pose proof (guard_fits (segment_at bytes i)) as Hg. cbn [segment_at sg_address sg_offset sg_file_size sg_memory_size sg_flags] in Hg.
  destruct (loads bytes i) eqn:El; unfold loads in El.
  - bools. rewrite bool_decide_true by done. cbn [negb].
    rewrite (proj2 (Z.eqb_neq _ _)) by done. destruct (checked_add u64_max _ _) as [end_|] eqn:Ec.
    + destruct (_ || _ || _ || _ || _ || _) eqn:Eg.
      { right. split; [|done]. intros Hh. destruct (Hh eq_refl) as [Hf _]. apply Hg in Hf. done. }
      pose proof (proj1 Hg eq_refl) as Hf. unfold checked_add in Ec. destruct (_ <=? u64_max); [|done]. injection Ec as <-.
      destruct (existsb _ _) eqn:Ex.
      * right. split; [|done]. intros Hh. destruct (Hh eq_refl) as [_ Ha]. apply existsb_exists in Ex as (s & Hs & Ho).
        apply list_elem_of_In, flatten_upto in Hs as (k & Hk & Elk & ->). specialize (Ha k Hk Elk).
        apply overlaps_apart in Ha; [|apply Hf]. simpl in Ha. congruence.
      * left. split.
        { intros _. split; [done|]. intros k Hk Elk. apply overlaps_apart; [apply Hf|].
          apply not_true_iff_false. intros Ho. apply not_true_iff_false in Ex. apply Ex, existsb_exists.
          exists (segment_at bytes k). split; [|done]. apply list_elem_of_In, flatten_upto. by exists k. }
        do 3 f_equal. apply eq_true_iff_eq. unfold range_contains.
        by rewrite andb_true_l, bool_decide_eq_true, !andb_true_iff, Z.eqb_eq, Z.leb_le, Z.ltb_lt.
    + right. split; [|done]. intros Hh. destruct (Hh eq_refl) as [Hf _]. apply Hg in Hf. done.
  - left. split; [done|]. rewrite orb_false_r. apply andb_false_iff in El as [El|El]; bools.
    + by rewrite bool_decide_false.
    + destruct (bool_decide _); [|done]. cbn [negb]. by rewrite (proj2 (Z.eqb_eq _ _)).
Qed.

Lemma parse_headers_spec n i executable :
  (i + n ≤ 8)%nat →
  ((∀ k, (i ≤ k < i + n)%nat → header_fine k) ∧
   parse_headers bytes (elf_entry bytes) (le_at 8 bytes 32) n i (slots_upto i) executable =
     Ok (slots_upto (i + n), executable ||
       existsb (λ k, loads bytes k && bool_decide (enters bytes (segment_at bytes k))) (seq i n))) ∨
  (¬ (∀ k, (i ≤ k < i + n)%nat → header_fine k) ∧
   parse_headers bytes (elf_entry bytes) (le_at 8 bytes 32) n i (slots_upto i) executable = Err SvInvalidImage).
Proof.
  revert i executable. induction n as [|n IH]; intros i executable Hn; cbn [parse_headers seq existsb].
  - left. split; [lia|]. by rewrite orb_false_r, Nat.add_0_r.
  - destruct (parse_header_spec i executable) as [[Hh E]|[Hh E]]; [lia|..]; unfold header_at in E; rewrite E.
    + edestruct (IH (S i)) as [[Hs E']|[Hs E']]; [lia|..]; rewrite E'.
      * left. split; [|by rewrite orb_assoc, Nat.add_succ_r]. intros k Hk.
        destruct (decide (k = i)) as [->|]; [done|]. apply Hs. lia.
      * right. split; [|done]. intros Ha. apply Hs. intros k Hk. apply Ha. lia.
    + right. split; [|done]. intros Ha. apply Hh, Ha. lia.
Qed.
End parse.

Lemma parse_valid (bytes : list Z) (image : ServiceImage) :
  Zlength bytes ≤ usize_max →
  ServiceImage_parse bytes = Ok image ↔ elf_valid bytes ∧ image = elf_image bytes.
Proof.
  intros Hlen. unfold ServiceImage_parse. change (le_at 2 bytes 56) with (elf_count bytes).
  change (le_at 8 bytes 24) with (elf_entry bytes).
  destruct (_ || _ || _) eqn:Eh.
  { split; [done|]. intros [[H1 H2 H3 _ _ _ _ _ _] _]. rewrite H2, H3, !bool_decide_true, !orb_false_r in Eh by done.
    bools. lia. }
  bools. destruct (_ || _ || _ || _) eqn:Ec.
  { split; [done|]. intros [[_ _ _ H4 H5 H6 _ _ _] _]. unfold checked_add in Ec.
    rewrite (proj2 (Z.leb_le _ _)) in Ec by lia. rewrite !orb_true_iff in Ec. destruct Ec as [[[Ec|Ec]|Ec]|Ec]; bools; lia. }
  bools. unfold checked_add in *. destruct (Z.leb_spec (le_at 8 bytes 32 + elf_count bytes * 56) usize_max); [|done].
  bools. assert (Z.to_nat (elf_count bytes) ≤ 8)%nat as Hn by lia.
  pose proof (parse_headers_spec bytes Hlen (Z.to_nat (elf_count bytes)) 0 false Hn) as Hp.
  change (slots_upto bytes 0) with (empty_slots Segment 8) in Hp.
  destruct Hp as [[Hf ->]|[Hf ->]].
  - rewrite orb_false_l. destruct (existsb _ _) eqn:Ee; cbn [negb]; split; [intros [= <-]|intros [_ ->]; done|done|].
    + split; [|done]. apply existsb_exists in Ee as (k & Hk & Hl). apply list_elem_of_In, elem_of_seq in Hk. bools.
      constructor; [lia|done|done|lia|split; lia|lia|..].
      * intros i Hi Hli. exact (proj1 (Hf i ltac:(lia) Hli)).
      * intros i j Hij Hli Hlj. exact (proj2 (Hf j ltac:(lia) Hlj) i ltac:(lia) Hli).
      * exists k. split_and!; [lia|done..].
    + intros [[_ _ _ _ _ _ _ _ (k & Hk & Hl & He)] _]. exfalso. apply not_true_iff_false in Ee. apply Ee, existsb_exists.
      exists k. rewrite Hl, bool_decide_true by done. split; [|done]. apply list_elem_of_In, elem_of_seq. lia.
  - split; [done|]. intros [[_ _ _ _ _ _ H7 H8 _] _]. exfalso. apply Hf. intros k Hk Hl. split; [apply H7; [lia|done]|].
    intros k' Hk' Hl'. apply H8; [lia|done..].
Qed.

(** There is one error. *)
Lemma parse_error bytes e : ServiceImage_parse bytes = Err e → e = SvInvalidImage.
Proof.
  assert (∀ i entry at_ segs x e, parse_header bytes entry at_ i segs x = Err e → e = SvInvalidImage) as H1.
  { intros i entry at_ segs x e'. unfold parse_header. repeat case_match; congruence. }
  assert (∀ n i entry ph segs x e, parse_headers bytes entry ph n i segs x = Err e → e = SvInvalidImage) as H2.
  { induction n as [|n IH]; intros i entry ph segs x e'; cbn [parse_headers]; [done|].
    destruct (parse_header _ _ _ _ _ _) as [[segs' x']|e1] eqn:E; [apply IH|]. intros [= <-]. by eapply H1. }
  unfold ServiceImage_parse. destruct (_ || _ || _); [congruence|]. destruct (_ || _ || _ || _); [congruence|].
  destruct (parse_headers _ _ _ _ _ _ _) as [[segs x]|e1] eqn:E; [destruct (negb x); congruence|].
  intros [= <-]. by eapply H2.
Qed.

(** ** Specification: the arena *)

(** The pages of a segment, and its bytes that come from the file. *)
Definition covers (s : Segment) (page : Z) : Prop :=
  (sg_address s - BASE) / 4096 ≤ page < pages_of (sg_address s - BASE + sg_memory_size s).
Definition in_file (s : Segment) (offset : Z) : Prop :=
  sg_address s - BASE ≤ offset < sg_address s - BASE + sg_file_size s.

Definition INPUT_FLAGS : Z := Z.lor (Z.lor 1 4) NX.

Definition input_page (page : Z) : Prop := 384 ≤ page < 400.
Definition stack_page (page : Z) : Prop := 416 ≤ page < 480.

(** The flags of a page a worker may read: writable (2), and executable unless
    the top bit is set. *)
Definition worker_rights (writable executable : bool) : Z :=
  5 + (if writable then 2 else 0) + (if executable then 0 else 2 ^ 63).

(** An arena with the segments [l] and the input [input] in it: the entry of every
    page and the value of every byte; nothing outside it has changed. *)
Record arena_loaded (elf input : list Z) (l : list Segment) (pointer : Z) (t t' : Tables) (memory memory' : Memory)
    : Prop := {
  ar_segment : ∀ s page, s ∈ l → covers s page →
    t' pointer page = Z.lor (arena_bytes pointer + page * 4096)
      (worker_rights (Z.testbit (sg_flags s) 1) (Z.testbit (sg_flags s) 0));
  ar_input : ∀ page, input_page page →
    t' pointer page = Z.lor (arena_bytes pointer + page * 4096) (worker_rights false false);
  ar_stack : ∀ page, stack_page page →
    t' pointer page = Z.lor (arena_bytes pointer + page * 4096) (worker_rights true false);
  ar_unmapped : ∀ page, (∀ s, s ∈ l → ¬ covers s page) → ¬ input_page page → ¬ stack_page page → t' pointer page = 0;
  ar_tables : ∀ a page, a ≠ pointer → t' a page = t a page;
  ar_file : ∀ s o, s ∈ l → in_file s o →
    memory' (arena_bytes pointer + o) = nth (Z.to_nat (sg_offset s + (o - (sg_address s - BASE)))) elf 0;
  ar_argument : ∀ o, INPUT_OFFSET ≤ o < INPUT_OFFSET + Zlength input →
    memory' (arena_bytes pointer + o) = nth (Z.to_nat (o - INPUT_OFFSET)) input 0;
  ar_zero : ∀ o, 0 ≤ o < MEMORY_BYTES → (∀ s, s ∈ l → ¬ in_file s o) →
    ¬ (INPUT_OFFSET ≤ o < INPUT_OFFSET + Zlength input) → memory' (arena_bytes pointer + o) = 0;
  ar_memory : ∀ a, a < arena_bytes pointer ∨ arena_bytes pointer + MEMORY_BYTES ≤ a → memory' a = memory a }.

#[export] Instance covers_dec s page : Decision (covers s page).
Proof. unfold covers. apply _. Defined.
#[export] Instance in_file_dec s o : Decision (in_file s o).
Proof. unfold in_file. apply _. Defined.

#[export] Instance input_page_dec page : Decision (input_page page).
Proof. unfold input_page. apply _. Defined.
#[export] Instance stack_page_dec page : Decision (stack_page page).
Proof. unfold stack_page. apply _. Defined.

(** ** Lemmas: the arena *)

(** Bit 1 of a segment's flags makes its pages writable, bit 0 executable. *)
Lemma segment_flags_rights f : f = 4 ∨ f = 5 ∨ f = 6 →
  segment_flags f = worker_rights (Z.testbit f 1) (Z.testbit f 0).
Proof. intros [-> |[-> | ->]]; done. Qed.

Lemma Memory_map_spec t pointer offset length flags a page :
  Memory_map t pointer offset length flags a page =
    if (a =? pointer) && (offset / 4096 <=? page) && (page <? pages_of (offset + length))
    then Z.lor (arena_bytes pointer + page * 4096) flags else t a page.
Proof.
  unfold Memory_map. set (n := pages_of (offset + length)). generalize (offset / 4096). intros first.
  remember (Z.to_nat (n - first)) as k eqn:Ek. revert t first Ek. induction k as [|k IH]; intros t first Ek.
  - rewrite seqZ_nil by lia. cbn [fold_left]. destruct (Z.leb_spec first page), (Z.ltb_spec page n); try lia;
      by rewrite ?andb_false_r.
  - rewrite seqZ_cons by lia. cbn [fold_left]. replace (Z.pred (n - first)) with (n - Z.succ first) by lia.
    rewrite IH by lia. destruct (Z.eqb_spec a pointer) as [->|Hne]; cbn [andb]; [|by apply write_entry_other; left].
    destruct (decide (page = first)) as [->|Hp].
    + rewrite write_entry_same. destruct (Z.leb_spec (Z.succ first) first), (Z.leb_spec first first), (Z.ltb_spec first n);
        try lia; done.
    + rewrite write_entry_other by (by right).
      destruct (Z.leb_spec (Z.succ first) page), (Z.leb_spec first page), (Z.ltb_spec page n); try lia; done.
Qed.

Lemma write_bytes_in memory address data a :
  address ≤ a < address + Zlength data → write_bytes memory address data a = nth (Z.to_nat (a - address)) data 0.
Proof. intros Ha. unfold write_bytes. rewrite (proj2 (Z.leb_le _ _)), (proj2 (Z.ltb_lt _ _)) by lia. done. Qed.

Lemma write_bytes_out memory address data a :
  a < address ∨ address + Zlength data ≤ a → write_bytes memory address data a = memory a.
Proof.
  intros Ha. unfold write_bytes. destruct (Z.leb_spec address a), (Z.ltb_spec a (address + Zlength data)); try done; lia.
Qed.

(** Two segments that share a page are the same. *)
Definition separated (l : list Segment) : Prop := ∀ s s', s ∈ l → s' ∈ l → s = s' ∨ segments_apart s s'.

Lemma apart_covers s s' page :
  sg_address s mod 4096 = 0 → sg_address s' mod 4096 = 0 → segments_apart s s' → covers s page → ¬ covers s' page.
Proof.
  unfold segments_apart, covers, pages_of, BASE. intros Ha Ha' Hs Hc Hc'. Z.to_euclidean_division_equations. lia.
Qed.

Lemma in_file_covers elf s o : segment_fits elf s → in_file s o → covers s (o / 4096).
Proof.
  intros [_ Hs Ha _ Hf _] Ho. unfold in_file, covers, pages_of, BASE in *. Z.to_euclidean_division_equations. lia.
Qed.

Lemma slice_nth (l : list Z) from n k :
  (k < n)%nat → (from + n ≤ length l)%nat → nth k (slice l from n) 0 = nth (from + k) l 0.
Proof. intros Hk Hl. unfold slice. by rewrite !nth_lookup, lookup_take_lt, lookup_drop by lia. Qed.

Lemma Zlength_slice (l : list Z) from n :
  0 ≤ from → 0 ≤ n → from + n ≤ Zlength l → Zlength (slice l (Z.to_nat from) (Z.to_nat n)) = n.
Proof. unfold Zlength, slice. intros Hf Hn Hl. rewrite length_take, length_drop. lia. Qed.

(** The page table and the bytes once the segments are in. *)
Lemma load_segments elf l pointer t memory :
  (∀ s, s ∈ l → segment_fits elf s ∧ 0 ≤ sg_offset s ∧ 0 ≤ sg_file_size s) → separated l →
  let m := fold_left (load_segment elf pointer) l (t, memory) in
  (∀ s page, s ∈ l → covers s page →
     m.1 pointer page = Z.lor (arena_bytes pointer + page * 4096) (segment_flags (sg_flags s))) ∧
  (∀ page, (∀ s, s ∈ l → ¬ covers s page) → m.1 pointer page = t pointer page) ∧
  (∀ a page, a ≠ pointer → m.1 a page = t a page) ∧
  (∀ s o, s ∈ l → in_file s o →
     m.2 (arena_bytes pointer + o) = nth (Z.to_nat (sg_offset s + (o - (sg_address s - BASE)))) elf 0) ∧
  (∀ a, (∀ s, s ∈ l → ¬ in_file s (a - arena_bytes pointer)) → m.2 a = memory a).
Proof.
  induction l as [|x l IH] using rev_ind; intros Hf Hs m; [unfold m; set_solver|].
  unfold m. rewrite fold_left_app. cbn [fold_left].
  destruct IH as (I1 & I2 & I3 & I4 & I5); [set_solver|intros s s' H1 H2; apply Hs; set_solver|].
  set (m0 := fold_left _ _ _) in *. destruct (Hf x ltac:(set_solver)) as ([Xf Xs Xa Xe Xz Xo] & Hx0 & Hx1).
  unfold load_segment. cbn [fst snd].
  assert (∀ page, covers x page ↔ ((sg_address x - BASE) / 4096 <=? page) &&
    (page <? pages_of (sg_address x - BASE + sg_memory_size x)) = true) as Hcov.
  { intros page. unfold covers. rewrite andb_true_iff, Z.leb_le, Z.ltb_lt. done. }
  assert (∀ s page, s ∈ l → covers s page → covers x page → s = x) as Hsame.
  { intros s page Hin Hc Hc'. destruct (Hs s x) as [|Ha]; [set_solver..|done|]. exfalso.
    eapply apart_covers; [|exact Xa|exact Ha|exact Hc|exact Hc']. apply (Hf s). set_solver. }
  pose proof (Zlength_slice elf _ _ Hx0 Hx1 Xo) as Hl. split_and!.
  - intros s page Hin Hc. rewrite Memory_map_spec, Z.eqb_refl. cbn [andb].
    destruct ((_ <=? _) && (_ <? _)) eqn:E.
    + apply elem_of_app in Hin as [Hin|Hin%list_elem_of_singleton]; [|by subst].
      by rewrite (Hsame s page Hin Hc) by (by apply Hcov).
    + apply elem_of_app in Hin as [Hin|Hin%list_elem_of_singleton]; [by apply I1|]. subst. apply Hcov in Hc. congruence.
  - intros page Hn. rewrite Memory_map_spec, Z.eqb_refl. cbn [andb].
    destruct ((_ <=? _) && (_ <? _)) eqn:E; [|apply I2; set_solver].
    exfalso. apply (Hn x); [set_solver|]. by apply Hcov.
  - intros a page Ha. rewrite Memory_map_spec, (proj2 (Z.eqb_neq _ _)) by done. cbn [andb]. by apply I3.
  - intros s o Hin Ho. destruct (decide (in_file x o)) as [Hox|Hox].
    + assert (s = x) as ->.
      { apply elem_of_app in Hin as [Hin|Hin%list_elem_of_singleton]; [|done].
        apply (Hsame s (o / 4096)); [done|eapply in_file_covers; [|done]..]; apply Hf; set_solver. }
      unfold in_file in Hox. rewrite write_bytes_in by lia. rewrite slice_nth by (unfold Zlength in *; lia). f_equal. lia.
    + apply elem_of_app in Hin as [Hin|Hin%list_elem_of_singleton]; [|by subst].
      unfold in_file in Hox. rewrite write_bytes_out by lia. by apply I4.
  - intros a Hn. assert (¬ in_file x (a - arena_bytes pointer)) as Hox by (apply Hn; set_solver).
    unfold in_file in Hox. rewrite write_bytes_out by lia. apply I5. set_solver.
Qed.

Lemma le_value_nonneg l : Forall byte_range l → 0 ≤ le_value l.
Proof. induction 1 as [|b l Hb _ IH]; unfold le_value in *; cbn [fold_right]; [done|]. unfold byte_range in Hb. lia. Qed.

Lemma le_at_nonneg n bytes a : Forall byte_range bytes → 0 ≤ le_at n bytes a.
Proof. intros Hb. by apply le_value_nonneg, Forall_take, Forall_drop. Qed.

(** The segments of a valid image. *)
Definition elf_segments (elf : list Z) : list Segment := flatten (si_segments (elf_image elf)).

Lemma elem_of_segments elf s :
  s ∈ elf_segments elf ↔ ∃ k, (k < Z.to_nat (elf_count elf))%nat ∧ loads elf k = true ∧ s = segment_at elf k.
Proof. apply flatten_upto. Qed.

Lemma valid_segments elf :
  Forall byte_range elf → elf_valid elf →
  (∀ s, s ∈ elf_segments elf → segment_fits elf s ∧ 0 ≤ sg_offset s ∧ 0 ≤ sg_file_size s) ∧ separated (elf_segments elf).
Proof.
  intros Hb Hv. split.
  - intros s (k & Hk & Hl & ->)%elem_of_segments. split; [by apply (ev_fits _ Hv)|]. split; by apply le_at_nonneg.
  - intros s s' (k & Hk & Hl & ->)%elem_of_segments (k' & Hk' & Hl' & ->)%elem_of_segments.
    destruct (lt_eq_lt_dec k k') as [[Hlt| ->]|Hlt]; [right; by apply (ev_apart _ Hv)|by left|right].
    destruct (ev_apart _ Hv k' k) as [H|H]; [done..|by right|by left].
Qed.

(** The segments end below the input. *)
Lemma segment_below elf s page : segment_fits elf s → covers s page → 0 ≤ page < 384.
Proof.
  intros [_ Hs Ha He _ _] Hc. unfold covers, pages_of, BASE, INPUT_OFFSET in *. Z.to_euclidean_division_equations. lia.
Qed.

Lemma arena_page first bytes page :
  first mod 4096 = 0 → bytes mod 4096 = 0 →
  (first / 4096 <=? page) && (page <? pages_of (first + bytes)) = true ↔ first / 4096 ≤ page < first / 4096 + bytes / 4096.
Proof.
  intros Hf Hb. rewrite andb_true_iff, Z.leb_le, Z.ltb_lt. unfold pages_of. Z.to_euclidean_division_equations. lia.
Qed.

Lemma in_file_below elf s o : segment_fits elf s → in_file s o → 0 ≤ o < INPUT_OFFSET.
Proof.
  intros Hf Ho. pose proof (segment_below _ _ _ Hf (in_file_covers _ _ _ Hf Ho)). unfold INPUT_OFFSET.
  Z.to_euclidean_division_equations. lia.
Qed.

(** Mapping whole pages. *)
Lemma Memory_map_pages t pointer first bytes flags page :
  first mod 4096 = 0 → bytes mod 4096 = 0 →
  Memory_map t pointer first bytes flags pointer page =
    if decide (first / 4096 ≤ page < first / 4096 + bytes / 4096)
    then Z.lor (arena_bytes pointer + page * 4096) flags else t pointer page.
Proof.
  intros Hf Hb. rewrite Memory_map_spec, Z.eqb_refl. cbn [andb]. pose proof (arena_page first bytes page Hf Hb) as Hp.
  destruct (decide _) as [Hd|Hd], (_ && _); try done; [by apply Hp in Hd|]. exfalso. by apply Hd, Hp.
Qed.

Lemma Memory_load_valid elf input pointer t memory :
  Forall byte_range elf → Zlength elf ≤ usize_max → elf_valid elf → Zlength input ≤ INPUT_BYTES →
  ∃ t' memory', Memory_load elf input (Some pointer) t memory = Ok (pointer, elf_entry elf, (t', memory')) ∧
    arena_loaded elf input (elf_segments elf) pointer t t' memory memory'.
Proof.
  intros Hb Hl Hv Hi. unfold Memory_load. rewrite (proj2 (Z.ltb_ge _ _)) by done.
  rewrite (proj2 (parse_valid elf _ Hl) (conj Hv eq_refl)). cbv beta iota.
  destruct (valid_segments elf Hb Hv) as [Hf Hs].
  destruct (load_segments elf (elf_segments elf) pointer (write_table t pointer (λ _, 0))
    (fill_bytes memory (arena_bytes pointer) MEMORY_BYTES 0) Hf Hs) as (I1 & I2 & I3 & I4 & I5).
  change (flatten (si_segments (elf_image elf))) with (elf_segments elf).
  set (m := fold_left _ _ _) in *. do 2 eexists. split; [reflexivity|].
  set (t1 := Memory_map m.1 pointer INPUT_OFFSET INPUT_BYTES INPUT_FLAGS).
  change (Memory_map m.1 pointer INPUT_OFFSET INPUT_BYTES (Z.lor (Z.lor 1 4) NX)) with t1.
  change (Z.lor (Z.lor (Z.lor 1 2) 4) NX) with USER_DATA_FLAGS.
  assert (∀ page, t1 pointer page = if decide (input_page page)
    then Z.lor (arena_bytes pointer + page * 4096) INPUT_FLAGS else m.1 pointer page) as Ht1.
  { intros page. by apply Memory_map_pages. }
  assert (∀ page, Memory_map t1 pointer STACK_OFFSET STACK_BYTES USER_DATA_FLAGS pointer page =
    if decide (stack_page page) then Z.lor (arena_bytes pointer + page * 4096) USER_DATA_FLAGS else t1 pointer page) as Ht2.
  { intros page. by apply Memory_map_pages. }
  constructor.
  - intros s page Hs' Hc. pose proof (segment_below _ _ _ (proj1 (Hf s Hs')) Hc).
    rewrite Ht2, decide_False by (unfold stack_page; lia). rewrite Ht1, decide_False by (unfold input_page; lia).
    rewrite <- segment_flags_rights by (apply (Hf s Hs')). by apply I1.
  - intros page Hp. rewrite Ht2, decide_False by (unfold stack_page, input_page in *; lia). by rewrite Ht1, decide_True.
  - intros page Hp. by rewrite Ht2, decide_True.
  - intros page Hn Hni Hns. rewrite Ht2, decide_False, Ht1, decide_False by done. rewrite I2 by done. apply write_table_same.
  - intros a page Ha. rewrite Memory_map_spec, (proj2 (Z.eqb_neq _ _)) by done. cbn [andb]. unfold t1.
    rewrite Memory_map_spec, (proj2 (Z.eqb_neq _ _)) by done. cbn [andb]. rewrite I3 by done. by apply write_table_other.
  - intros s o Hs' Ho. pose proof (in_file_below _ _ _ (proj1 (Hf s Hs')) Ho). rewrite write_bytes_out by lia. by apply I4.
  - intros o Ho. rewrite write_bytes_in by lia. f_equal. lia.
  - intros o Ho Hn Hni. rewrite write_bytes_out by lia. rewrite I5.
    + unfold fill_bytes. rewrite (proj2 (Z.leb_le _ _)), (proj2 (Z.ltb_lt _ _)) by lia. done.
    + intros s Hs' Hin. apply (Hn s Hs'). replace o with (arena_bytes pointer + o - arena_bytes pointer) by lia. done.
  - intros a Ha. rewrite write_bytes_out by (unfold INPUT_OFFSET, INPUT_BYTES, MEMORY_BYTES in *; lia). rewrite I5.
    + unfold fill_bytes. destruct (Z.leb_spec (arena_bytes pointer) a), (Z.ltb_spec a (arena_bytes pointer + MEMORY_BYTES)); try done; lia.
    + intros s Hs' Hin. pose proof (in_file_below _ _ _ (proj1 (Hf s Hs')) Hin). unfold MEMORY_BYTES, INPUT_OFFSET in *. lia.
Qed.

Lemma Memory_load_loaded elf input pointer t memory p entry m :
  Forall byte_range elf → Zlength elf ≤ usize_max → Memory_load elf input (Some pointer) t memory = Ok (p, entry, m) →
  p = pointer ∧ entry = elf_entry elf ∧ elf_valid elf ∧
  arena_loaded elf input (elf_segments elf) pointer t m.1 memory m.2.
Proof.
  intros Hb Hl E. assert (Zlength input ≤ INPUT_BYTES ∧ elf_valid elf) as [Hi Hv].
  { unfold Memory_load in E. destruct (Z.ltb_spec INPUT_BYTES (Zlength input)); [done|]. split; [done|].
    destruct (ServiceImage_parse elf) as [image|e] eqn:Ep; [|done]. by apply parse_valid in Ep as [Hv ->]. }
  destruct (Memory_load_valid elf input pointer t memory Hb Hl Hv Hi) as (t2 & m2 & E2 & Ha).
  rewrite E in E2. simplify_eq. done.
Qed.

(** ** Lemmas: lending *)

Lemma land_lor_address p f : page_address p → Z.land (Z.lor p f) USER_DATA_FLAGS = Z.land f USER_DATA_FLAGS.
Proof.
  intros Hp. rewrite Z.land_lor_distr_l. replace (Z.land p USER_DATA_FLAGS) with 0; [done|]. symmetry.
  apply Z.bits_inj'. intros b Hb. rewrite Z.land_spec, Z.bits_0. destruct (decide (0 ≤ b < 12 ∨ 52 ≤ b)).
  - by rewrite page_address_bits.
  - replace USER_DATA_FLAGS with (Z.lor (Z.ones 3) (Z.shiftl 1 63)) by reflexivity.
    rewrite Z.lor_spec, Z.ones_spec_high, Z.shiftl_1_l, Z.pow2_bits_false by lia. apply andb_false_r.
Qed.

Lemma segment_flags_writable f : f = 4 ∨ f = 5 ∨ f = 6 →
  Z.land (segment_flags f) USER_DATA_FLAGS = USER_DATA_FLAGS ↔ f = 6.
Proof. intros [-> |[-> | ->]]; done. Qed.

(** The pages the kernel may lend: those of writable segments, and the stack. *)
Lemma lent_pages elf input l pointer t t' memory memory' page :
  arena_loaded elf input l pointer t t' memory memory' → (∀ s, s ∈ l → segment_fits elf s) →
  page_address pointer → pointer < 2 ^ 40 → 0 ≤ page < 512 →
  Z.land (t' pointer page) USER_DATA_FLAGS = USER_DATA_FLAGS ↔
    (∃ s, s ∈ l ∧ sg_flags s = 6 ∧ covers s page) ∨ stack_page page.
Proof.
  intros [H0 H2 H3 H4 _ _ _ _ _] Hf [Hp Hm] Hlt Hpage.
  assert (∀ s page, s ∈ l → covers s page →
    t' pointer page = Z.lor (arena_bytes pointer + page * 4096) (segment_flags (sg_flags s))) as H1.
  { intros s q Hs Hc. rewrite segment_flags_rights by (apply (Hf s Hs)). by apply H0. }
  assert (page_address (arena_bytes pointer + page * 4096)) as Ha.
  { unfold page_address, arena_bytes, PAGE in *. split; [lia|]. Z.to_euclidean_division_equations. lia. }
  destruct (decide (Exists (λ s, covers s page) l)) as [Hc|Hc].
  - apply Exists_exists in Hc as (s & Hs & Hc). rewrite (H1 s page) by done. rewrite land_lor_address by done.
    pose proof (segment_below _ _ _ (Hf s Hs) Hc). rewrite segment_flags_writable by (apply (Hf s Hs)). split.
    + intros Hw. left. by exists s.
    + intros [(s' & Hs' & Hw & Hc')|Hst]; [|unfold stack_page in Hst; lia].
      pose proof (H1 s' page Hs' Hc') as E'. rewrite (H1 s page Hs Hc) in E'.
      apply (f_equal (λ e, Z.land e USER_DATA_FLAGS)) in E'. rewrite !land_lor_address, Hw in E' by done.
      apply segment_flags_writable; [apply (Hf s Hs)|exact E'].
  - assert (∀ s, s ∈ l → ¬ covers s page) as Hn by (intros s Hs Hcs; apply Hc, Exists_exists; by exists s).
    destruct (decide (stack_page page)) as [Hst|Hst].
    { rewrite H3, land_lor_address by done. split; [by right|done]. }
    destruct (decide (input_page page)) as [Hin|Hin].
    { rewrite H2, land_lor_address by done. split; [done|]. intros [(s & Hs & _ & Hcs)|?]; [by destruct (Hn s)|done]. }
    rewrite H4 by done. split; [done|]. intros [(s & Hs & _ & Hcs)|?]; [by destruct (Hn s)|done].
Qed.

Lemma writable_range_spec limit t pointer address length p :
  limit ≤ MEMORY_BYTES → 0 ≤ length →
  writable_range limit t pointer address length = Some p ↔
    BASE ≤ address ∧ 0 < length ∧ address - BASE + length ≤ limit ∧ p = arena_bytes pointer + (address - BASE) ∧
    ∀ o, address - BASE ≤ o < address - BASE + length → Z.land (t pointer (o / 4096)) USER_DATA_FLAGS = USER_DATA_FLAGS.
Proof.
  intros Hm Hl. unfold writable_range, checked_sub, checked_add.
  destruct (Z.leb_spec BASE address) as [Hb|Hb]; [|split; [done|lia]].
  destruct (Z.leb_spec (address - BASE + length) usize_max) as [Hu|Hu];
    [|split; [done|unfold MEMORY_BYTES, usize_max, u64_max in *; lia]].
  destruct (_ || _) eqn:Eg; [split; [done|]; rewrite orb_true_iff in Eg; destruct Eg; bools; lia|]. bools.
  set (off := address - BASE) in *. destruct (existsb _ _) eqn:Ex.
  - split; [done|]. intros (_ & Hl0 & _ & _ & Ho). apply existsb_exists in Ex as (page & Hp & Hn).
    apply list_elem_of_In, elem_of_seqZ in Hp. exfalso.
    assert (∃ o, off ≤ o < off + length ∧ o / 4096 = page) as (o & Hoo & Ep).
    { unfold pages_of in Hp. exists (Z.max off (page * 4096)). Z.to_euclidean_division_equations. lia. }
    specialize (Ho o Hoo). rewrite Ep in Ho. bools. done.
  - split.
    + intros [= <-]. split_and!; [done|lia|done|done|]. intros o Ho. apply not_true_iff_false in Ex.
      destruct (Z.eqb_spec (Z.land (t pointer (o / 4096)) USER_DATA_FLAGS) USER_DATA_FLAGS) as [|Hne]; [done|].
      exfalso. apply Ex, existsb_exists. exists (o / 4096). split; [|by apply negb_true_iff, Z.eqb_neq].
      apply list_elem_of_In, elem_of_seqZ. unfold pages_of. Z.to_euclidean_division_equations. lia.
    + intros (_ & _ & _ & -> & _). done.
Qed.

(** ** Properties *)

(** C34. [Image::parse] accepts exactly the valid images: a well-formed header, every
    loaded segment inside the arena below the input, never writable and executable,
    no page in two segments, and the entry point in the file part of an executable
    segment; the result is the table of those segments. *)
Theorem service_image_decides (bytes : list Z) (image : ServiceImage) :
  Zlength bytes ≤ usize_max →
  ServiceImage_parse bytes = Ok image ↔ elf_valid bytes ∧ image = elf_image bytes.
Proof. apply parse_valid. Qed.

(** C35. Loading a valid image into a fresh arena maps every page of its segments for
    the worker to read, writable when bit 1 and executable when bit 0 of the
    segment's flags is set, the input read-only, the stack writable, and nothing
    else; the bytes are those of the file and of the input, zero elsewhere; nothing
    outside the arena changes.  Any other image or too long an input is refused. *)
Theorem service_arena_loads (elf input : list Z) (pointer : option Z) (t : Tables) (memory : Memory) :
  Forall byte_range elf → Zlength elf ≤ usize_max →
  (∃ p t' memory', pointer = Some p ∧ Zlength input ≤ INPUT_BYTES ∧ elf_valid elf ∧
     Memory_load elf input pointer t memory = Ok (p, elf_entry elf, (t', memory')) ∧
     arena_loaded elf input (elf_segments elf) p t t' memory memory') ∨
  (Memory_load elf input pointer t memory = Err SvInputTooLarge ∧ INPUT_BYTES < Zlength input) ∨
  (Memory_load elf input pointer t memory = Err SvInvalidImage ∧ ¬ elf_valid elf) ∨
  (Memory_load elf input pointer t memory = Err SvNoMemory ∧ pointer = None).
Proof.
  intros Hb Hl. destruct (Z.ltb_spec INPUT_BYTES (Zlength input)) as [Hi|Hi].
  { right; left. unfold Memory_load. by rewrite (proj2 (Z.ltb_lt _ _)). }
  destruct (ServiceImage_parse elf) as [image|e] eqn:Ep.
  - apply parse_valid in Ep as [Hv ->]; [|done]. destruct pointer as [p|].
    + left. destruct (Memory_load_valid elf input p t memory Hb Hl Hv Hi) as (t' & memory' & E & Ha).
      by exists p, t', memory'.
    + do 3 right. unfold Memory_load. rewrite (proj2 (Z.ltb_ge _ _)) by done.
      by rewrite (proj2 (parse_valid elf _ Hl) (conj Hv eq_refl)).
  - do 2 right; left. assert (¬ elf_valid elf) as Hv.
    { intros Hv. rewrite (proj2 (parse_valid elf _ Hl) (conj Hv eq_refl)) in Ep. done. }
    split; [|done]. unfold Memory_load. rewrite (proj2 (Z.ltb_ge _ _)), Ep by done. by rewrite (parse_error elf e).
Qed.

(** C36. The kernel lends a worker's memory for DMA exactly when every byte of the range
    lies in a writable segment below the input, and for a copy exactly when it lies
    in a writable segment or the stack; the address it uses is the byte's place in
    the arena. *)
Theorem service_lends_writable (elf input : list Z) (pointer : Z) (t t' : Tables) (memory memory' : Memory)
    (address length p : Z) :
  Forall byte_range elf → Zlength elf ≤ usize_max → page_address pointer → pointer < 2 ^ 40 → 0 ≤ length →
  Memory_load elf input (Some pointer) t memory = Ok (pointer, elf_entry elf, (t', memory')) →
  let offset := address - BASE in
  let writable page := ∃ s, s ∈ elf_segments elf ∧ sg_flags s = 6 ∧ covers s page in
  let lent limit (P : Z → Prop) := BASE ≤ address ∧ 0 < length ∧ offset + length ≤ limit ∧
    p = arena_bytes pointer + offset ∧ ∀ o, offset ≤ o < offset + length → P (o / 4096) in
  (writable_physical_range t' pointer address length = Some p ↔ lent INPUT_OFFSET writable) ∧
  (writable_alias_range t' pointer address length = Some p ↔ lent MEMORY_BYTES (λ page, writable page ∨ stack_page page)).
Proof.
  intros Hb Hl Hp Hlt Hlen E offset writable lent.
  destruct (Memory_load_loaded _ _ _ _ _ _ _ _ Hb Hl E) as (_ & _ & Hv & Ha).
  destruct (valid_segments elf Hb Hv) as [Hf _].
  assert (∀ page, 0 ≤ page < 512 → Z.land (t' pointer page) USER_DATA_FLAGS = USER_DATA_FLAGS ↔
    writable page ∨ stack_page page) as Hlent.
  { intros page Hpage. eapply lent_pages; [exact Ha|intros s Hs; by apply Hf|done..]. }
  unfold writable_physical_range, writable_alias_range. rewrite !writable_range_spec by (done || lia). unfold lent.
  assert (∀ o, 0 ≤ o < MEMORY_BYTES → 0 ≤ o / 4096 < 512) as Hpage.
  { unfold MEMORY_BYTES. intros o Ho. Z.to_euclidean_division_equations. lia. }
  split; (split; intros (H1 & H2 & H3 & H4 & H5); refine (conj H1 (conj H2 (conj H3 (conj H4 _))));
    intros o Ho; specialize (H5 o Ho)).
  - apply Hlent in H5 as [H5|H5]; [done| |]; [exfalso|apply Hpage; unfold MEMORY_BYTES, INPUT_OFFSET in *; lia].
    unfold stack_page, INPUT_OFFSET in *. Z.to_euclidean_division_equations. lia.
  - apply Hlent; [apply Hpage; unfold MEMORY_BYTES, INPUT_OFFSET in *; lia|by left].
  - apply Hlent; [apply Hpage; lia|done].
  - apply Hlent; [apply Hpage; lia|done].
Qed.

(** ** Witnesses *)

(** A program header at [at_]. *)
Definition demo_header (at_ flags offset address file memory : Z) (bytes : list Z) : list Z :=
  fold_left (λ l f, splice l (Z.to_nat (at_ + f.1)) f.2)
    [(0, le_bytes 4 1); (4, le_bytes 4 flags); (8, le_bytes 8 offset); (16, le_bytes 8 address);
     (32, le_bytes 8 file); (40, le_bytes 8 memory)] bytes.

(** Code at the start of the arena and a writable segment behind it. *)
Definition demo_elf : list Z :=
  demo_header 120 6 0 (BASE + 4096) 0 8192
    (demo_header 64 5 176 BASE 8 8
      (fold_left (λ l f, splice l (Z.to_nat f.1) f.2)
         [(0, ELF_IDENT); (16, ELF_TYPE); (24, le_bytes 8 BASE); (32, le_bytes 8 64); (54, le_bytes 2 56);
          (56, le_bytes 2 2)] (replicate 184 0))).

Lemma demo_elf_bytes : Forall byte_range demo_elf ∧ Zlength demo_elf ≤ usize_max.
Proof.
  split; [|by vm_compute]. apply Forall_forall. intros b Hb.
  assert (forallb (λ b, (0 <=? b) && (b <? 256)) demo_elf = true) as Ha by (by vm_compute).
  rewrite forallb_forall in Ha. apply list_elem_of_In in Hb. specialize (Ha b Hb). bools. unfold byte_range. lia.
Qed.

Lemma service_image_decides_witness :
  is_ok (ServiceImage_parse demo_elf) = true ∧
  (ServiceImage_parse demo_elf = Ok (elf_image demo_elf) ↔ elf_valid demo_elf ∧ elf_image demo_elf = elf_image demo_elf).
Proof. split; [by vm_compute|]. apply (service_image_decides demo_elf (elf_image demo_elf)), demo_elf_bytes. Defined.

Lemma demo_elf_valid : elf_valid demo_elf.
Proof.
  apply (parse_valid demo_elf (elf_image demo_elf)); [apply demo_elf_bytes|]. by vm_compute.
Qed.

Lemma service_arena_loads_witness :
  is_ok (Memory_load demo_elf [1; 2; 3] (Some 8192) (λ _ _, 0) (λ _, 0)) = true ∧
  ∃ p t' memory', Memory_load demo_elf [1; 2; 3] (Some 8192) (λ _ _, 0) (λ _, 0) = Ok (p, elf_entry demo_elf, (t', memory')) ∧
    arena_loaded demo_elf [1; 2; 3] (elf_segments demo_elf) p (λ _ _, 0) t' (λ _, 0) memory'.
Proof.
  split; [by vm_compute|]. destruct demo_elf_bytes as [Hb Hl].
  destruct (service_arena_loads demo_elf [1; 2; 3] (Some 8192) (λ _ _, 0) (λ _, 0) Hb Hl)
    as [(p & t' & m' & _ & _ & _ & E & Ha)|[[_ H]|[[_ H]|[_ H]]]]; [exists p, t', m'; exact (conj E Ha)|..].
  - by vm_compute in H.
  - exfalso. apply H, demo_elf_valid.
  - discriminate H.
Defined.

Lemma service_lends_writable_witness :
  ∃ t' memory', Memory_load demo_elf [] (Some 8192) (λ _ _, 0) (λ _, 0) = Ok (8192, elf_entry demo_elf, (t', memory')) ∧
    (writable_physical_range t' 8192 (BASE + 8000) 512 = Some (arena_bytes 8192 + 8000) ↔
      BASE ≤ BASE + 8000 ∧ 0 < 512 ∧ BASE + 8000 - BASE + 512 ≤ INPUT_OFFSET ∧
      arena_bytes 8192 + 8000 = arena_bytes 8192 + (BASE + 8000 - BASE) ∧
      ∀ o, BASE + 8000 - BASE ≤ o < BASE + 8000 - BASE + 512 →
        ∃ s, s ∈ elf_segments demo_elf ∧ sg_flags s = 6 ∧ covers s (o / 4096)).
Proof.
  destruct demo_elf_bytes as [Hb Hl].
  destruct (Memory_load_valid demo_elf [] 8192 (λ _ _, 0) (λ _, 0) Hb Hl demo_elf_valid) as (t' & m' & E & _); [by vm_compute|].
  exists t', m'. split; [exact E|].
  refine (proj1 (service_lends_writable demo_elf [] 8192 (λ _ _, 0) t' (λ _, 0) m' (BASE + 8000) 512
    (arena_bytes 8192 + 8000) Hb Hl _ _ _ E)); [|reflexivity|discriminate].
  split; [split; [discriminate|reflexivity]|reflexivity].
Defined.
