(* ===== verification/FormSpace.v ===== *)
(** * Native address spaces

    The part of kernel/src/form_runtime.rs that builds and takes down the address
    space of an executable Form: [prepare], [prepare_service], [finish] and what
    they call.  The state is the machine: physical memory with its frame allocator
    (Frames.v), the page tables as memory with the kernel's identity map (Paging.v),
    and the eight [NATIVE_SPACES].

    The addresses of the statics are the interface [NativeStatics].  [nx] is
    [security::nx_active()].  The heap's answer to [alloc_zeroed] is an argument. *)

From stdpp Require Import prelude list strings.
From Stdlib Require Import ZArith Lia.
From S2P Require Import Prelude Identity Bytes Capability Context Abi NativeImage Frames Paging ServiceImage.

Set Default Goal Selector "!".
Open Scope Z_scope.
Open Scope expos_scope.

(** ** Data *)

Definition MAX_NATIVE_SPACES : nat := 8.
Definition USER_CODE : Z := 0x400000000000.
Definition RT_USER_DATA : Z := USER_CODE + PAGE_BYTES.
Definition USER_STACK : Z := RT_USER_DATA + 2 * PAGE_BYTES.
Definition USER_END : Z := USER_STACK + PAGE_BYTES.
Definition USER_STACK_TOP : Z := USER_END - 16.
Definition V2_CODE_PAGES : Z := 8.
Definition V2_DATA_INDEX : Z := 9.
Definition V2_DATA_PAGES : Z := 6.
Definition V2_HEAP_INDEX : Z := 16.
Definition V2_HEAP_PAGES : Z := 16.
Definition V2_STACK_INDEX : Z := 33.
Definition V2_STACK_PAGES : Z := 4.
Definition V2_END_INDEX : Z := 38.
Definition MAX_DYNAMIC_FRAMES : Z := V2_CODE_PAGES + V2_DATA_PAGES + V2_HEAP_PAGES + V2_STACK_PAGES.
Definition ABI_RESPONSE_OFFSET : Z := 80.
Definition ABI_PAYLOAD_OFFSET : Z := 256.
Definition RT_ABI_MAGIC : Z := 0x4558504f53414249.
Definition PAGE_PRESENT : Z := Z.shiftl 1 0.
Definition PAGE_WRITE : Z := Z.shiftl 1 1.
Definition PAGE_USER : Z := Z.shiftl 1 2.
Definition page_table_flags : Z := Z.lor (Z.lor PAGE_PRESENT PAGE_WRITE) PAGE_USER.

(** The pages of a [NativeSpace]: four tables and three pages of bytes. *)
Inductive SpacePage := Pml4 | UserPdpt | UserPd | UserPt | CodePage | DataPage | StackPage.

(** Where the linker put them, for each slot. *)
Class NativeStatics := { nst_kernel :: KernelTables; nst_page : nat → SpacePage → Z }.

Record Output := MkOutput { out_bytes : list Z; out_length : Z }.

(** The fields of a [NativeSpace] besides its pages; [service] is the address of
    the arena. *)
Record NativeSpace := MkSpace {
  ns_dynamic_frames : list Z; ns_dynamic_len : nat; ns_dynamic_code_len : nat;
  ns_data_physical : Z; ns_data_virtual : Z; ns_form : Fin; ns_assigned : bool; ns_active : bool;
  ns_service : option Z; ns_output : option Output }.

Definition NativeSpace_eta (s : NativeSpace) : NativeSpace :=
  MkSpace (ns_dynamic_frames s) (ns_dynamic_len s) (ns_dynamic_code_len s) (ns_data_physical s)
    (ns_data_virtual s) (ns_form s) (ns_assigned s) (ns_active s) (ns_service s) (ns_output s).
#[export] Instance set_ns_dynamic_frames : Setter ns_dynamic_frames := ltac:(build_setter NativeSpace_eta).
#[export] Instance set_ns_dynamic_len : Setter ns_dynamic_len := ltac:(build_setter NativeSpace_eta).
#[export] Instance set_ns_dynamic_code_len : Setter ns_dynamic_code_len := ltac:(build_setter NativeSpace_eta).
#[export] Instance set_ns_data_physical : Setter ns_data_physical := ltac:(build_setter NativeSpace_eta).
#[export] Instance set_ns_data_virtual : Setter ns_data_virtual := ltac:(build_setter NativeSpace_eta).
#[export] Instance set_ns_form : Setter ns_form := ltac:(build_setter NativeSpace_eta).
#[export] Instance set_ns_assigned : Setter ns_assigned := ltac:(build_setter NativeSpace_eta).
#[export] Instance set_ns_active : Setter ns_active := ltac:(build_setter NativeSpace_eta).
#[export] Instance set_ns_service : Setter ns_service := ltac:(build_setter NativeSpace_eta).
#[export] Instance set_ns_output : Setter ns_output := ltac:(build_setter NativeSpace_eta).

Definition NativeSpace_empty : NativeSpace :=
  MkSpace (replicate (Z.to_nat MAX_DYNAMIC_FRAMES) 0) 0 0 0 RT_USER_DATA Fin_ZERO false false None None.

Record Machine := MkMachine {
  mc_physical : Physical; mc_tables : Tables; mc_dynamic_used : nat; mc_spaces : list NativeSpace }.

Definition Machine_eta (m : Machine) : Machine :=
  MkMachine (mc_physical m) (mc_tables m) (mc_dynamic_used m) (mc_spaces m).
#[export] Instance set_mc_physical : Setter mc_physical := ltac:(build_setter Machine_eta).
#[export] Instance set_mc_tables : Setter mc_tables := ltac:(build_setter Machine_eta).
#[export] Instance set_mc_dynamic_used : Setter mc_dynamic_used := ltac:(build_setter Machine_eta).
#[export] Instance set_mc_spaces : Setter mc_spaces := ltac:(build_setter Machine_eta).

(** The registers [prepare] and [prepare_service] set; the others start at zero. *)
Record TrapFrame := MkTrapFrame {
  tf_r15 : Z; tf_r14 : Z; tf_r13 : Z; tf_r12 : Z; tf_r11 : Z; tf_r10 : Z; tf_r9 : Z; tf_r8 : Z; tf_rsi : Z; tf_rdi : Z;
  tf_rbp : Z; tf_rdx : Z; tf_rcx : Z; tf_rbx : Z; tf_rax : Z; tf_rip : Z; tf_cs : Z; tf_rflags : Z; tf_rsp : Z; tf_ss : Z }.

Definition TrapFrame_EMPTY : TrapFrame := MkTrapFrame 0 0 0 0 0 0 0 0 0 0 0 0 0 0 0 0 0 0 0 0.

Definition TrapFrame_eta (f : TrapFrame) : TrapFrame :=
  MkTrapFrame (tf_r15 f) (tf_r14 f) (tf_r13 f) (tf_r12 f) (tf_r11 f) (tf_r10 f) (tf_r9 f) (tf_r8 f) (tf_rsi f)
    (tf_rdi f) (tf_rbp f) (tf_rdx f) (tf_rcx f) (tf_rbx f) (tf_rax f) (tf_rip f) (tf_cs f) (tf_rflags f) (tf_rsp f)
    (tf_ss f).
#[export] Instance set_tf_rip : Setter tf_rip := ltac:(build_setter TrapFrame_eta).
#[export] Instance set_tf_rdi : Setter tf_rdi := ltac:(build_setter TrapFrame_eta).
#[export] Instance set_tf_rsi : Setter tf_rsi := ltac:(build_setter TrapFrame_eta).
#[export] Instance set_tf_rdx : Setter tf_rdx := ltac:(build_setter TrapFrame_eta).
#[export] Instance set_tf_rcx : Setter tf_rcx := ltac:(build_setter TrapFrame_eta).
#[export] Instance set_tf_rflags : Setter tf_rflags := ltac:(build_setter TrapFrame_eta).
#[export] Instance set_tf_rsp : Setter tf_rsp := ltac:(build_setter TrapFrame_eta).
#[export] Instance set_tf_r8 : Setter tf_r8 := ltac:(build_setter TrapFrame_eta).
#[export] Instance set_tf_r9 : Setter tf_r9 := ltac:(build_setter TrapFrame_eta).
#[export] Instance set_tf_r10 : Setter tf_r10 := ltac:(build_setter TrapFrame_eta).
#[export] Instance set_tf_rax : Setter tf_rax := ltac:(build_setter TrapFrame_eta).

Record PreparedForm := MkPrepared { pf_slot : nat; pf_address_space : AddressSpace; pf_frame : TrapFrame }.

Definition PreparedForm_eta (p : PreparedForm) : PreparedForm :=
  MkPrepared (pf_slot p) (pf_address_space p) (pf_frame p).
#[export] Instance set_pf_address_space : Setter pf_address_space := ltac:(build_setter PreparedForm_eta).
#[export] Instance set_pf_frame : Setter pf_frame := ltac:(build_setter PreparedForm_eta).

Inductive PrepareError :=
  | PrepInvalidImage (e : NativeImageError) | PrepNxRequired | PrepNoSlot | PrepOutOfMemory | PrepWxSeal.

(** [PreparedForm::heap]: the heap window of a format 2 Form. *)
Definition PreparedForm_heap (self : PreparedForm) : option ContextHeap :=
  if as_upper (pf_address_space self) !=? USER_CODE + V2_END_INDEX * PAGE_BYTES then None
  else
    match ContextHeap_new (USER_CODE + V2_HEAP_INDEX * PAGE_BYTES) V2_HEAP_PAGES with
    | None => None
    | Some heap =>
        match ContextHeap_grow heap V2_HEAP_PAGES with
        | (heap, Ok _) => Some heap
        | (_, Err _) => None
        end
    end.

(** ** Bytes *)

(** [write_unaligned] of a [repr(C)] [AbiRequest]. *)
Definition AbiRequest_bytes (r : AbiRequest) : list Z :=
  le_bytes 2 (ar_version r) ++ le_bytes 2 (ar_call r) ++ Fin_bytes (ar_caller r) ++ le_bytes 4 (ar_handle_id r) ++
  mjoin (le_bytes 8 <$> ar_arguments r).

(** [u8::is_ascii_graphic] and [u8::is_ascii_whitespace] *)
Definition is_graphic (b : Z) : bool := (33 <=? b) && (b <=? 126).
Definition is_space (b : Z) : bool := (b =? 32) || (b =? 9) || (b =? 10) || (b =? 12) || (b =? 13).

(** Content that is not plain text must be an image. *)
Definition names_image (content : list Z) : bool :=
  str_starts_with (lit "EXF") content || existsb (λ b, negb (is_graphic b) && negb (is_space b)) content.

(** [content.ends_with(suffix)] *)
Definition bytes_end_with (suffix content : list Z) : bool :=
  (length suffix <=? length content)%nat && (drop (length content - length suffix) content ==? suffix).

(** The quoted argument of [print("..")] or [print('..')]. *)
Definition native_payload (content : list Z) : list Z :=
  if str_starts_with (lit "native:log ") content then drop 11 content
  else if (9 <=? length content)%nat && str_starts_with (lit "print(" ++ [34]) content &&
          bytes_end_with (34 :: lit ")") content
  then slice content 7 (length content - 2 - 7)
  else if (9 <=? length content)%nat && str_starts_with (lit "print('") content && bytes_end_with (lit "')") content
  then slice content 7 (length content - 2 - 7)
  else if is_empty content then lit "Form entered Ring 3" else content.

Definition emit_log_and_exit (execute_handle : Z) : list Z :=
  [72; 187] ++ le_bytes 8 RT_USER_DATA ++ [72; 137; 223] ++ [72; 141; 115; ABI_RESPONSE_OFFSET] ++
  [72; 184] ++ le_bytes 8 RT_ABI_MAGIC ++ [205; 128] ++ [102; 199; 67; 2] ++
  le_bytes 2 (AbiCall_as_u16 Call_ExecutionExit) ++ [199; 67; 20] ++ le_bytes 4 execute_handle ++
  [72; 199; 67; 24; 0; 0; 0; 0] ++ [72; 137; 223] ++ [72; 141; 115; ABI_RESPONSE_OFFSET] ++
  [72; 184] ++ le_bytes 8 RT_ABI_MAGIC ++ [205; 128; 15; 11].

(** The built-in programs of text capsules, at the start of the code page. *)
Definition capsule_code (content : list Z) (execute_handle : Z) : list Z :=
  if str_starts_with (lit "native:spin") content then [243; 144; 235; 252]
  else if str_starts_with (lit "native:escape") content
  then [72; 161; 0; 0; 16; 0; 0; 0; 0; 0; 235; 254]
  else if content ==? lit "native:write-code"
  then [72; 184] ++ le_bytes 8 USER_CODE ++ [198; 0; 144; 15; 11]
  else if content ==? lit "native:exec-data" then [72; 184] ++ le_bytes 8 RT_USER_DATA ++ [255; 224]
  else if content ==? lit "native:divide-zero" then [49; 210; 49; 201; 247; 241; 15; 11]
  else if content ==? lit "native:invalid-opcode" then [15; 11]
  else if str_starts_with (lit "native:ac-log ") content
  then [156; 129; 12; 36; 0; 0; 4; 0; 157; 144] ++ emit_log_and_exit execute_handle
  else emit_log_and_exit execute_handle.

(** ** Operations *)

Section operations.
Context `{NativeStatics} (nx : bool).

Definition no_execute : Z := if nx then NX else 0.

Definition space_at (m : Machine) (slot : nat) : NativeSpace := default NativeSpace_empty (mc_spaces m !! slot).
Definition update_space (m : Machine) (slot : nat) (f : NativeSpace → NativeSpace) : Machine :=
  m <| mc_spaces := alter f slot (mc_spaces m) |>.

Definition with_memory (m : Machine) (f : Memory → Memory) : Machine :=
  m <| mc_physical := MkPhysical (ph_allocator (mc_physical m)) (f (ph_memory (mc_physical m))) |>.
Definition poke (m : Machine) (address : Z) (data : list Z) : Machine :=
  with_memory m (λ memory, write_bytes memory address data).

(** The choice of a slot: the Form's own, then a new one, then an idle one. *)
Definition find_space (spaces : list NativeSpace) (form : Fin) : option nat :=
  match position (λ space, ns_assigned space && (ns_form space ==? form) && negb (ns_active space)) spaces with
  | Some i => Some i
  | None =>
      match position (λ space, negb (ns_assigned space)) spaces with
      | Some i => Some i
      | None => position (λ space, negb (ns_active space)) spaces
      end
  end.

(** Claiming the slot and clearing its pages. *)
Definition reset_space (slot : nat) (form : Fin) (m : Machine) : Machine :=
  let page := nst_page slot in
  let m := update_space m slot (λ space, space <| ns_assigned := true |> <| ns_active := true |> <| ns_form := form |>) in
  let t := write_table (mc_tables m) (page Pml4) (λ _, 0) in
  let t := write_table t (page UserPdpt) (λ _, 0) in
  let t := write_table t (page UserPd) (λ _, 0) in
  let t := write_table t (page UserPt) (λ _, 0) in
  let m := m <| mc_tables := t |> in
  let m := with_memory m (λ memory,
    fill_bytes (fill_bytes (fill_bytes memory (page CodePage) PAGE_BYTES 204) (page DataPage) PAGE_BYTES 0)
      (page StackPage) PAGE_BYTES 0) in
  update_space m slot (λ space,
    space <| ns_dynamic_frames := replicate (Z.to_nat MAX_DYNAMIC_FRAMES) 0 |> <| ns_dynamic_len := O |>
          <| ns_dynamic_code_len := O |> <| ns_data_physical := page DataPage |> <| ns_data_virtual := RT_USER_DATA |>).

(** The upper levels: the kernel's first entry, and the user range. *)
Definition link_space (slot : nat) (m : Machine) : Machine :=
  let page := nst_page slot in
  let pml4_index := Z.land (Z.shiftr USER_CODE 39) 511 in
  let t := mc_tables m in
  let t := write_entry t (page Pml4) 0 (t kt_root 0) in
  let t := write_entry t (page Pml4) pml4_index (Z.lor (page UserPdpt) page_table_flags) in
  let t := write_entry t (page UserPdpt) 0 (Z.lor (page UserPd) page_table_flags) in
  let t := write_entry t (page UserPd) 0 (Z.lor (page UserPt) page_table_flags) in
  m <| mc_tables := t |>.

Definition release_dynamic_frame (slot : nat) (m : Machine) (index : nat) : Machine :=
  let space := space_at m slot in
  let frame := nth index (ns_dynamic_frames space) 0 in
  let m := if (index <? ns_dynamic_code_len space)%nat
           then let '(t, used, _) := unseal_form_frame (mc_tables m) (mc_dynamic_used m) no_execute frame in
                m <| mc_tables := t |> <| mc_dynamic_used := used |>
           else m in
  let m := m <| mc_physical := (release_frame (mc_physical m) frame).1 |> in
  update_space m slot (λ space, space <| ns_dynamic_frames := <[index := 0]> (ns_dynamic_frames space) |>).

Definition release_dynamic_frames (slot : nat) (m : Machine) : Machine :=
  let m := fold_left (release_dynamic_frame slot) (seq 0 (ns_dynamic_len (space_at m slot))) m in
  update_space m slot (λ space,
    space <| ns_dynamic_len := O |> <| ns_dynamic_code_len := O |> <| ns_data_physical := nst_page slot DataPage |>
          <| ns_data_virtual := RT_USER_DATA |>).

Definition reject_preparation {A} (slot : nat) (m : Machine) (error : PrepareError) : Machine * result A PrepareError :=
  let page := nst_page slot in
  let m := release_dynamic_frames slot m in
  let t := write_table (mc_tables m) (page UserPt) (λ _, 0) in
  let t := write_table t (page UserPd) (λ _, 0) in
  let t := write_table t (page UserPdpt) (λ _, 0) in
  let t := write_table t (page Pml4) (λ _, 0) in
  (update_space (m <| mc_tables := t |>) slot (λ space, space <| ns_active := false |>), Err error).

(** Leasing [n] frames into [dynamic_frames] from [index]. *)
Fixpoint lease_frames (slot : nat) (n index : nat) (m : Machine) : Machine * bool :=
  match n with
  | O => (m, true)
  | S n' =>
      let (physical, r) := allocate_frame (mc_physical m) in
      let m := m <| mc_physical := physical |> in
      match r with
      | None => (m, false)
      | Some frame =>
          lease_frames slot n' (S index)
            (update_space m slot (λ space,
               space <| ns_dynamic_frames := <[index := frame]> (ns_dynamic_frames space) |>
                     <| ns_dynamic_len := S (ns_dynamic_len space) |>))
      end
  end.

(** One page of code: its bytes and its entry. *)
Definition load_code_page (slot : nat) (code : list Z) (frames : list Z) (m : Machine) (page : nat) : Machine :=
  let frame := nth page frames 0 in
  let start := Z.of_nat page * PAGE_BYTES in
  let end_ := Z.min (start + PAGE_BYTES) (Zlength code) in
  let m := poke m frame (slice code (Z.to_nat start) (Z.to_nat (end_ - start))) in
  m <| mc_tables := write_entry (mc_tables m) (nst_page slot UserPt) (Z.of_nat page)
         (Z.lor (Z.lor frame PAGE_PRESENT) PAGE_USER) |>.

(** [n] writable pages at table index [index] from the frames at [first]. *)
Definition map_data_pages (slot : nat) (frames : list Z) (index first n : Z) (m : Machine) : Machine :=
  fold_left (λ m page,
    m <| mc_tables := write_entry (mc_tables m) (nst_page slot UserPt) (index + page)
           (Z.lor (Z.lor (Z.lor (Z.lor (nth (Z.to_nat (first + page)) frames 0) PAGE_PRESENT) PAGE_WRITE) PAGE_USER)
              no_execute) |>) (seqZ 0 n) m.

(** The loop of [copy_to_frames]; every round copies a byte at least. *)
Fixpoint copy_loop (fuel : nat) (frames : list Z) (offset : Z) (bytes : list Z) (copied : Z) (memory : Memory) : Memory :=
  match fuel with
  | O => memory
  | S fuel' =>
      if Zlength bytes <=? copied then memory
      else
        let position := offset + copied in
        let page := position / PAGE_BYTES in
        let within := position mod PAGE_BYTES in
        let count := Z.min (PAGE_BYTES - within) (Zlength bytes - copied) in
        copy_loop fuel' frames offset bytes (copied + count)
          (write_bytes memory (nth (Z.to_nat page) frames 0 + within) (slice bytes (Z.to_nat copied) (Z.to_nat count)))
  end.

Definition copy_to_frames (frames : list Z) (offset : Z) (bytes : list Z) (memory : Memory) : Memory :=
  copy_loop (length bytes) frames offset bytes 0 memory.

Fixpoint seal_frames (frames : list Z) (m : Machine) : Machine * bool :=
  match frames with
  | [] => (m, true)
  | frame :: frames' =>
      let '(t, used, sealed) := seal_form_code_frame (mc_tables m) (mc_dynamic_used m) no_execute frame in
      let m := m <| mc_tables := t |> <| mc_dynamic_used := used |> in
      if sealed : bool then seal_frames frames' m else (m, false)
  end.

(** [n.div_ceil(PAGE_BYTES)] *)
Definition div_ceil_page (n : Z) : Z := (n + (PAGE_BYTES - 1)) / PAGE_BYTES.

(** The branch of [prepare] for format 2: the start of the data, the stack pointer
    and the end of the user range. *)
Definition prepare_v2 (slot : nat) (image : NativeImage) (m : Machine) : Machine * result (Z * Z * Z) PrepareError :=
  let code_pages := div_ceil_page (Zlength (img_code image)) in
  let data_bytes := ABI_PAYLOAD_OFFSET + Zlength (img_data image) + img_zero_bytes image in
  let data_pages := div_ceil_page data_bytes in
  let total := code_pages + data_pages + V2_HEAP_PAGES + V2_STACK_PAGES in
  if (V2_CODE_PAGES <? code_pages) || (V2_DATA_PAGES <? data_pages) || (MAX_DYNAMIC_FRAMES <? total)
  then reject_preparation slot m (PrepInvalidImage ImgLength)
  else
    let (m, leased) := lease_frames slot (Z.to_nat total) 0 m in
    if negb leased then reject_preparation slot m PrepOutOfMemory
    else
      let m := update_space m slot (λ space, space <| ns_dynamic_code_len := Z.to_nat code_pages |>) in
      let frames := ns_dynamic_frames (space_at m slot) in
      let m := fold_left (load_code_page slot (img_code image) frames) (seq 0 (Z.to_nat code_pages)) m in
      let data_start := code_pages in
      let m := map_data_pages slot frames V2_DATA_INDEX data_start data_pages m in
      let heap_start := code_pages + data_pages in
      let m := map_data_pages slot frames V2_HEAP_INDEX heap_start V2_HEAP_PAGES m in
      let stack_start := heap_start + V2_HEAP_PAGES in
      let m := map_data_pages slot frames V2_STACK_INDEX stack_start V2_STACK_PAGES m in
      let data_virtual := USER_CODE + V2_DATA_INDEX * PAGE_BYTES in
      let m := update_space m slot (λ space,
        space <| ns_data_physical := nth (Z.to_nat data_start) frames 0 |> <| ns_data_virtual := data_virtual |>) in
      let m := with_memory m (copy_to_frames (slice frames (Z.to_nat data_start) (Z.to_nat data_pages))
                                ABI_PAYLOAD_OFFSET (img_data image)) in
      let (m, sealed) := seal_frames (take (Z.to_nat code_pages) frames) m in
      if negb sealed then reject_preparation slot m PrepWxSeal
      else (m, Ok (data_virtual, USER_CODE + (V2_STACK_INDEX + V2_STACK_PAGES) * PAGE_BYTES - 16,
                   USER_CODE + V2_END_INDEX * PAGE_BYTES)).

(** The payload of a format 1 image or a text capsule, cut to the data page. *)
Definition payload_of (image : option NativeImage) (content : list Z) : list Z :=
  match image with Some image => img_data image | None => native_payload content end.
Definition payload_len (image : option NativeImage) (content : list Z) : Z :=
  Z.min (Zlength (payload_of image content)) (PAGE_BYTES - ABI_PAYLOAD_OFFSET).

(** The other branch: the three static pages, with a hole before the stack. *)
Definition prepare_v1 (slot : nat) (image : option NativeImage) (content : list Z) (m : Machine) : Machine :=
  let page := nst_page slot in
  let t := mc_tables m in
  let t := write_entry t (page UserPt) 0 (Z.lor (Z.lor (page CodePage) PAGE_PRESENT) PAGE_USER) in
  let t := write_entry t (page UserPt) 1
             (Z.lor (Z.lor (Z.lor (Z.lor (page DataPage) PAGE_PRESENT) PAGE_WRITE) PAGE_USER) no_execute) in
  let t := write_entry t (page UserPt) 3
             (Z.lor (Z.lor (Z.lor (Z.lor (page StackPage) PAGE_PRESENT) PAGE_WRITE) PAGE_USER) no_execute) in
  poke (m <| mc_tables := t |>) (page DataPage + ABI_PAYLOAD_OFFSET)
    (take (Z.to_nat (payload_len image content)) (payload_of image content)).

(** The first part of [prepare]: what the content is. *)
Definition classify (content : list Z) : result (option NativeImage) PrepareError :=
  if names_image content then
    match NativeImage_parse content with
    | Err e => Err (PrepInvalidImage e)
    | Ok image => if negb nx then Err PrepNxRequired else Ok (Some image)
    end
  else Ok None.

(** The code page of format 1 and of capsules. *)
Definition write_code (slot : nat) (image : option NativeImage) (content : list Z) (execute_handle : Z) (m : Machine)
    : Machine :=
  match image with
  | Some image => if img_format_version image =? 1 then poke m (nst_page slot CodePage) (img_code image) else m
  | None => poke m (nst_page slot CodePage) (capsule_code content execute_handle)
  end.

(** [AddressSpace::confined(..).expect(..)] with the bounds of a space; that it
    accepts them is [confined_accepts]. *)
Definition confined_space (slot : nat) (address_end : Z) : AddressSpace :=
  MkAddressSpace (nst_page slot Pml4) USER_CODE address_end.

Definition prepare (form : Fin) (execute_handle log_handle : FormHandle) (content : list Z) (m : Machine)
    : Machine * result PreparedForm PrepareError :=
  match classify content with
  | Err e => (m, Err e)
  | Ok image =>
      match find_space (mc_spaces m) form with
      | None => (m, Err PrepNoSlot)
      | Some slot =>
          let m := link_space slot (reset_space slot form m) in
          let (m, r) :=
            match image with
            | Some image' =>
                if img_format_version image' =? 2 then prepare_v2 slot image' m
                else (prepare_v1 slot image content m, Ok (RT_USER_DATA, USER_STACK_TOP, USER_END))
            | None => (prepare_v1 slot image content m, Ok (RT_USER_DATA, USER_STACK_TOP, USER_END))
            end in
          match r with
          | Err e => (m, Err e)
          | Ok (data_virtual, stack_top, address_end) =>
              let request := MkAbiRequest FORM_ABI_VERSION (AbiCall_as_u16 Call_Log) form (fh_id log_handle)
                               [ABI_PAYLOAD_OFFSET; payload_len image content; 0; 0; 0; 0] in
              let m := poke m (ns_data_physical (space_at m slot)) (AbiRequest_bytes request) in
              let m := write_code slot image content (fh_id execute_handle) m in
              let entry := match image with Some image => img_entry image | None => 0 end in
              (m, Ok (MkPrepared slot (confined_space slot address_end)
                 (TrapFrame_EMPTY <| tf_rip := USER_CODE + entry |> <| tf_rdi := data_virtual |>
                    <| tf_rsi := data_virtual + ABI_RESPONSE_OFFSET |> <| tf_rdx := fh_id execute_handle |>
                    <| tf_rcx := fh_id log_handle |> <| tf_rflags := 514 |> <| tf_rsp := stack_top |>)))
          end
      end
  end.

Definition empty_output : Output := MkOutput (replicate (Z.to_nat OUTPUT_BYTES) 0) 0.

(** [pointer] is the answer of [alloc_zeroed]. *)
Definition prepare_service (form : Fin) (execute reply : FormHandle) (elf input : list Z)
    (network_handle : option FormHandle) (pointer : option Z) (m : Machine)
    : Machine * result PreparedForm ServiceError :=
  match Memory_load elf input pointer (mc_tables m) (ph_memory (mc_physical m)) with
  | Err e => (m, Err e)
  | Ok (pointer, entry, (t, memory)) =>
      let m := with_memory (m <| mc_tables := t |>) (λ _, memory) in
      let stack_top := STACK_OFFSET + STACK_BYTES in
      let m := match network_handle with
               | Some handle => poke m (arena_bytes pointer + stack_top - 16) (le_bytes 8 (fh_id handle))
               | None => m
               end in
      match prepare form execute reply (lit "native:spin") m with
      | (m, Err _) => (m, Err SvAdmission)
      | (m, Ok prepared) =>
          let slot := pf_slot prepared in
          let page := nst_page slot in
          let t := write_entry (mc_tables m) (page UserPd) 1 (Z.lor pointer page_table_flags) in
          let t := write_entry t (page UserPt) 0 0 in
          let t := write_entry t (page UserPt) 2 0 in
          let m := update_space (m <| mc_tables := t |>) slot (λ space,
            space <| ns_service := Some pointer |> <| ns_output := Some empty_output |>) in
          let frame := (pf_frame prepared) <| tf_rip := entry |> <| tf_r8 := BASE + INPUT_OFFSET |>
            <| tf_r9 := Zlength input |> <| tf_r10 := match network_handle with Some h => fh_id h | None => 0 end |>
            <| tf_rsp := BASE + stack_top - match network_handle with Some _ => 24 | None => 8 end |> in
          (m, Ok (MkPrepared slot (confined_space slot (BASE + MEMORY_BYTES)) frame))
      end
  end.

Definition capture_output (prepared : PreparedForm) (m : Machine) : Machine :=
  update_space m (pf_slot prepared) (λ space, space <| ns_output := Some empty_output |>).

Definition take_service_output (prepared : PreparedForm) (m : Machine) : Machine * option Output :=
  (update_space m (pf_slot prepared) (λ space, space <| ns_output := None |>),
   ns_output (space_at m (pf_slot prepared))).

Definition finish (prepared : PreparedForm) (m : Machine) : Machine :=
  let slot := pf_slot prepared in
  let m := update_space m slot (λ space, space <| ns_service := None |> <| ns_output := None |>) in
  update_space (release_dynamic_frames slot m) slot (λ space, space <| ns_active := false |>).
End operations.
