(* ===== verification/FormLoad.v ===== *)
(** * Loading a native image

    What the loaders of kernel/src/form_runtime.rs write: the entries of the user
    page table and the bytes of the leased frames, position by position. *)

From stdpp Require Import prelude list.
From Stdlib Require Import ZArith Lia.
From S2P Require Import Prelude NativeImage Frames Paging ServiceImage FormSpace.

Set Default Goal Selector "!".
Open Scope Z_scope.
Open Scope expos_scope.

(** ** Specification *)

(** The entries of code and of data pages. *)
Definition exec_entry (p : Z) : Z := Z.lor (Z.lor p PAGE_PRESENT) PAGE_USER.
Definition data_entry (nx : bool) (p : Z) : Z :=
  Z.lor (Z.lor (Z.lor (Z.lor p PAGE_PRESENT) PAGE_WRITE) PAGE_USER) (no_execute nx).

Section view.
Context (frames : list Z).

(** The byte at position [pos] of the memory the frames make up. *)
Definition byte_address (pos : Z) : Z := nth (Z.to_nat (pos / PAGE_BYTES)) frames 0 + pos mod PAGE_BYTES.
Definition view (memory : Memory) (pos : Z) : Z := memory (byte_address pos).

(** The frames do not overlap; an address in none of them. *)
Definition frames_apart : Prop :=
  ∀ i j f g, frames !! i = Some f → frames !! j = Some g → i ≠ j → f + PAGE_BYTES ≤ g ∨ g + PAGE_BYTES ≤ f.
Definition elsewhere (a : Z) : Prop := ∀ f, f ∈ frames → a < f ∨ f + PAGE_BYTES ≤ a.

Definition view_bytes : Z := Z.of_nat (length frames) * PAGE_BYTES.

(** [memory'] is [memory] with [data] at position [q]. *)
Definition loaded_at (q : Z) (data : list Z) (memory memory' : Memory) : Prop :=
  (∀ pos, 0 ≤ pos < view_bytes →
     view memory' pos = if decide (q ≤ pos < q + Zlength data) then nth (Z.to_nat (pos - q)) data 0 else view memory pos) ∧
  ∀ a, elsewhere a → memory' a = memory a.
End view.

(** ** Lemmas: bytes *)

Section bytes.
Context (frames : list Z) (Hap : frames_apart frames).

Lemma position_frame pos : 0 ≤ pos < view_bytes frames →
  ∃ f, frames !! Z.to_nat (pos / PAGE_BYTES) = Some f ∧ byte_address frames pos = f + pos mod PAGE_BYTES.
Proof.
  intros Hp. unfold view_bytes, PAGE_BYTES in *. destruct (lookup_lt_is_Some_2 frames (Z.to_nat (pos / 4096))) as [f Hf].
  { assert (pos / 4096 < Z.of_nat (length frames)) by (apply Z.div_lt_upper_bound; lia). lia. }
  exists f. split; [done|]. unfold byte_address, PAGE_BYTES. by rewrite (nth_lookup_Some _ _ _ _ Hf).
Qed.

(** A write within one page. *)
Lemma frame_write q data memory :
  0 ≤ q < view_bytes frames → q mod PAGE_BYTES + Zlength data ≤ PAGE_BYTES →
  loaded_at frames q data memory (write_bytes memory (byte_address frames q) data).
Proof.
  intros Hq Hd. destruct (position_frame q Hq) as (f & Hf & ->). pose proof (Z.mod_pos_bound q PAGE_BYTES ltac:(done)).
  split.
  - intros pos Hp. unfold view. destruct (position_frame pos Hp) as (g & Hg & ->).
    pose proof (Z.mod_pos_bound pos PAGE_BYTES ltac:(done)). pose proof (Z.div_mod pos PAGE_BYTES ltac:(done)) as Ep.
    pose proof (Z.div_mod q PAGE_BYTES ltac:(done)) as Eq. destruct (decide (pos / PAGE_BYTES = q / PAGE_BYTES)) as [E|E].
    + rewrite E in Hg, Ep. assert (g = f) as -> by congruence. destruct (decide _) as [Hin|Hout].
      * rewrite write_bytes_in by lia. f_equal. f_equal. lia.
      * apply write_bytes_out. lia.
    + assert (Z.to_nat (pos / PAGE_BYTES) ≠ Z.to_nat (q / PAGE_BYTES)) as Hne.
      { pose proof (Z.div_pos pos PAGE_BYTES ltac:(lia) ltac:(done)). pose proof (Z.div_pos q PAGE_BYTES ltac:(lia) ltac:(done)). lia. }
      pose proof (Hap _ _ _ _ Hg Hf Hne). rewrite write_bytes_out by lia. rewrite decide_False; [done|]. unfold PAGE_BYTES in *. lia.
  - intros a Ha. apply write_bytes_out. destruct (Ha f); [by eapply list_elem_of_lookup_2|lia..].
Qed.

(** Two writes next to each other. *)
Lemma loaded_next q l1 l2 memory m1 m2 :
  loaded_at frames q l1 memory m1 → loaded_at frames (q + Zlength l1) l2 m1 m2 → loaded_at frames q (l1 ++ l2) memory m2.
Proof.
  intros [A1 A2] [B1 B2]. split; [|intros a Ha; by rewrite B2, A2]. intros pos Hp. rewrite B1, A1 by done.
  unfold Zlength. rewrite length_app, Nat2Z.inj_add.
  repeat destruct (decide _); try lia; try done.
  - rewrite app_nth2 by lia. f_equal. lia.
  - by rewrite app_nth1 by lia.
Qed.

Lemma loaded_nil q memory : loaded_at frames q [] memory memory.
Proof. split; [|done]. intros pos _. rewrite decide_False; [done|]. unfold Zlength. cbn. lia. Qed.

Lemma copy_loop_loaded fuel : ∀ offset bytes copied memory,
  0 ≤ offset → 0 ≤ copied ≤ Zlength bytes → offset + Zlength bytes ≤ view_bytes frames →
  Zlength bytes - copied ≤ Z.of_nat fuel →
  loaded_at frames (offset + copied) (drop (Z.to_nat copied) bytes) memory (copy_loop fuel frames offset bytes copied memory).
Proof.
  induction fuel as [|fuel IH]; intros offset bytes copied memory Ho Hc Hv Hf; cbn [copy_loop].
  { rewrite drop_ge by (unfold Zlength in *; lia). apply loaded_nil. }
  destruct (Z.leb_spec (Zlength bytes) copied).
  { rewrite drop_ge by (unfold Zlength in *; lia). apply loaded_nil. }
  set (q := offset + copied). set (count := Z.min (PAGE_BYTES - q mod PAGE_BYTES) (Zlength bytes - copied)).
  pose proof (Z.mod_pos_bound q PAGE_BYTES ltac:(done)).
  set (l := slice bytes (Z.to_nat copied) (Z.to_nat count)).
  assert (Zlength l = count) as El by (apply Zlength_slice; lia).
  assert (drop (Z.to_nat copied) bytes = l ++ drop (Z.to_nat (copied + count)) bytes) as ->.
  { unfold l, slice. rewrite Z2Nat.inj_add by lia. by rewrite <- drop_drop, take_drop. }
  eapply loaded_next; [apply frame_write; [unfold q; lia|rewrite El; lia]|].
  rewrite El. unfold q. rewrite <- Z.add_assoc. apply IH; lia.
Qed.

Lemma copy_to_frames_loaded offset bytes memory :
  0 ≤ offset → offset + Zlength bytes ≤ view_bytes frames →
  loaded_at frames offset bytes memory (copy_to_frames frames offset bytes memory).
Proof.
  intros Ho Hv. rewrite <- (Z.add_0_r offset) at 1. apply (copy_loop_loaded _ _ _ 0); unfold Zlength in *; lia.
Qed.
End bytes.

(** ** Lemmas: entries *)

Section entries.
Context `{NativeStatics} (nx : bool).

(** Entries in the user page table. *)
Lemma map_data_pages_tables b frames index first n m :
  ∃ t, map_data_pages nx b frames index first n m = m <| mc_tables := t |> ∧ ∀ a k,
    t a k = if (a =? nst_page b UserPt) && ((index <=? k) && (k <? index + n))
            then data_entry nx (nth (Z.to_nat (first + (k - index))) frames 0) else mc_tables m a k.
Proof.
  unfold map_data_pages.
  enough (∀ l m, ∃ t, fold_left (λ m page, m <| mc_tables := write_entry (mc_tables m) (nst_page b UserPt) (index + page)
      (data_entry nx (nth (Z.to_nat (first + page)) frames 0)) |>) l m = m <| mc_tables := t |> ∧ ∀ a k,
    t a k = if (a =? nst_page b UserPt) && bool_decide (k - index ∈ l)
            then data_entry nx (nth (Z.to_nat (first + (k - index))) frames 0) else mc_tables m a k) as Hl.
  { destruct (Hl (seqZ 0 n) m) as (t & E & Ht). exists t. split; [exact E|]. intros a k. rewrite Ht.
    replace (bool_decide _) with ((index <=? k) && (k <? index + n)); [done|]. symmetry.
    destruct (bool_decide_reflect (k - index ∈ seqZ 0 n)) as [Hk|Hk]; rewrite elem_of_seqZ in Hk; guards; done || lia. }
  intros l. induction l as [|page l IH]; intros m'; cbn [fold_left].
  { exists (mc_tables m'). split; [by destruct m'|]. intros a k. rewrite bool_decide_false by set_solver. by rewrite andb_false_r. }
  destruct (IH (m' <| mc_tables := write_entry (mc_tables m') (nst_page b UserPt) (index + page)
      (data_entry nx (nth (Z.to_nat (first + page)) frames 0)) |>)) as (t & E & Ht).
  exists t. split; [by rewrite E; destruct m'|]. intros a k. rewrite Ht. cbn. unfold write_entry.
  destruct (Z.eqb_spec a (nst_page b UserPt)) as [->|Ha]; [|done]. cbn [andb].
  destruct (bool_decide_reflect (k - index ∈ l)), (bool_decide_reflect (k - index ∈ page :: l)) as [Hk|Hk],
    (Z.eqb_spec k (index + page)) as [->|Hne]; try done; rewrite ?elem_of_cons in Hk; try (exfalso; naive_solver lia).
  by replace (index + page - index) with page by lia.
Qed.

(** The number of pages is the least that is enough. *)
Lemma div_ceil_page_spec n : 0 ≤ n → n ≤ div_ceil_page n * PAGE_BYTES < n + PAGE_BYTES.
Proof.
  unfold div_ceil_page, PAGE_BYTES. intros Hn. pose proof (Z.div_mod (n + (4096 - 1)) 4096 ltac:(done)).
  pose proof (Z.mod_pos_bound (n + (4096 - 1)) 4096 ltac:(done)). lia.
Qed.

(** One page of it. *)
Lemma load_code_page_loaded b code frames cp k m :
  Z.of_nat cp = div_ceil_page (Zlength code) → (cp ≤ length frames)%nat → frames_apart (take cp frames) → (k < cp)%nat →
  let q := Z.of_nat k * PAGE_BYTES in let n := Z.min (q + PAGE_BYTES) (Zlength code) - q in
  loaded_at (take cp frames) q (slice code (Z.to_nat q) (Z.to_nat n)) (ph_memory (mc_physical m))
    (ph_memory (mc_physical (load_code_page b code frames m k))) ∧
  Zlength (slice code (Z.to_nat q) (Z.to_nat n)) = n ∧ 0 ≤ n.
Proof.
  intros Ecp Hlen Hap Hk q n. pose proof (div_ceil_page_spec (Zlength code) ltac:(unfold Zlength; lia)) as Hd.
  rewrite <- Ecp in Hd. assert (0 ≤ n) as Hn by (unfold n, q, PAGE_BYTES in *; lia).
  assert (Zlength (slice code (Z.to_nat q) (Z.to_nat n)) = n) as El.
  { apply Zlength_slice; [unfold q, PAGE_BYTES; lia|done|unfold n; lia]. }
  assert (q mod PAGE_BYTES = 0) as Hq by (by apply Z.mod_mul).
  split_and!; [|done|done].
  replace (ph_memory (mc_physical (load_code_page b code frames m k))) with
    (write_bytes (ph_memory (mc_physical m)) (byte_address (take cp frames) q) (slice code (Z.to_nat q) (Z.to_nat n))).
  - apply frame_write; [done| |rewrite Hq, El; unfold n; lia]. unfold view_bytes. rewrite length_take, Nat.min_l by done.
    unfold q, PAGE_BYTES. lia.
  - unfold byte_address. rewrite Hq, Z.add_0_r. unfold q at 1. rewrite Z.div_mul, Nat2Z.id by done.
    rewrite !nth_lookup, lookup_take_lt by done. by rewrite <- nth_lookup.
Qed.

(** The code: its entries and its bytes. *)
Lemma load_code_fold b code frames cp n : ∀ k m,
  Z.of_nat cp = div_ceil_page (Zlength code) → (cp ≤ length frames)%nat → frames_apart (take cp frames) → (k + n = cp)%nat →
  ∃ t memory, fold_left (load_code_page b code frames) (seq k n) m =
      m <| mc_physical := MkPhysical (ph_allocator (mc_physical m)) memory |> <| mc_tables := t |> ∧
    (∀ a j, t a j = if (a =? nst_page b UserPt) && ((Z.of_nat k <=? j) && (j <? Z.of_nat (k + n)))
                    then exec_entry (nth (Z.to_nat j) frames 0) else mc_tables m a j) ∧
    loaded_at (take cp frames) (Z.of_nat k * PAGE_BYTES) (drop (Z.to_nat (Z.of_nat k * PAGE_BYTES)) code)
      (ph_memory (mc_physical m)) memory.
Proof.
  induction n as [|n IH]; intros k m Ecp Hlen Hap Hk; cbn [seq fold_left].
  - exists (mc_tables m), (ph_memory (mc_physical m)). split_and!; [by destruct m as [[] ? ? ?]| |].
    + intros a j. destruct (Z.leb_spec (Z.of_nat k) j), (Z.ltb_spec j (Z.of_nat (k + 0))); try lia; by rewrite andb_false_r.
    + pose proof (div_ceil_page_spec (Zlength code) ltac:(unfold Zlength; lia)).
      rewrite drop_ge; [apply loaded_nil|]. unfold PAGE_BYTES, Zlength in *. lia.
  - destruct (IH (S k) (load_code_page b code frames m k)) as (t & memory & E & Ht & Hm); [done..|lia|].
    exists t, memory. split_and!; [by rewrite E| |].
    + intros a j. rewrite Ht. cbn. unfold write_entry. 
      destruct (Z.eqb_spec a (nst_page b UserPt)); [|done]. cbn [andb].
      destruct (Z.eqb_spec j (Z.of_nat k)) as [->|]; [rewrite Nat2Z.id|];
        repeat match goal with |- context [?x <=? ?y] => destruct (Z.leb_spec x y) | |- context [?x <? ?y] => destruct (Z.ltb_spec x y) end;
        cbn; done || lia.
    + destruct (load_code_page_loaded b code frames cp k m Ecp Hlen Hap ltac:(lia)) as (H1 & H2 & H3).
      set (q := Z.of_nat k * PAGE_BYTES) in *. set (c := Z.min (q + PAGE_BYTES) (Zlength code) - q) in *.
      assert (0 ≤ q) by (unfold q, PAGE_BYTES; lia).
      assert (Z.of_nat (S k) * PAGE_BYTES = q + PAGE_BYTES) as Eq by (unfold q; lia). rewrite Eq in Hm.
      replace (drop (Z.to_nat q) code) with (slice code (Z.to_nat q) (Z.to_nat c) ++ drop (Z.to_nat (q + PAGE_BYTES)) code).
      * eapply loaded_next; [exact H1|]. rewrite H2. destruct (decide (c = PAGE_BYTES)) as [->|Hc]; [exact Hm|].
        rewrite drop_ge in Hm |- * by (unfold Zlength in *; lia). destruct Hm as [Hm1 Hm2]. split; [|done].
        intros pos Hp. rewrite Hm1 by done. by rewrite !decide_False by (unfold Zlength; cbn; lia).
      * unfold slice. rewrite <- (take_drop (Z.to_nat c) (drop (Z.to_nat q) code)) at 2. f_equal. rewrite drop_drop.
        destruct (decide (c = PAGE_BYTES)) as [->|Hc]; [f_equal; lia|]. by rewrite !drop_ge by (unfold Zlength in *; lia).
Qed.
End entries.

(** ** Lemmas: what the processor reads from an entry *)

(** The rights an entry grants to user mode on a page. *)
Definition user_entry (e p : Z) (writable executable : bool) : Prop :=
  Z.testbit e 0 = true ∧ Z.testbit e 1 = writable ∧ Z.testbit e 2 = true ∧ Z.testbit e 63 = negb executable ∧
  Z.land e ADDRESS = p.

Lemma flags_entry p f w x :
  page_address p → Z.land f ADDRESS = 0 → Z.testbit f 0 = true → Z.testbit f 1 = w → Z.testbit f 2 = true →
  Z.testbit f 63 = negb x → user_entry (Z.lor p f) p w x.
Proof.
  intros Hp Hf H0 H1 H2 H63.
  split_and!; [rewrite (entry_bit p) by (done || lia)..|by apply land_address]; done.
Qed.

Lemma exec_entry_user p : page_address p → user_entry (exec_entry p) p false true.
Proof. intros Hp. unfold exec_entry. rewrite <- Z.lor_assoc. by apply flags_entry. Qed.

Lemma data_entry_user nx p : page_address p → user_entry (data_entry nx p) p true (negb nx).
Proof. intros Hp. unfold data_entry. rewrite <- !Z.lor_assoc. apply flags_entry; [done|by destruct nx..]. Qed.

Lemma table_entry_user p : page_address p →
  user_entry (Z.lor p page_table_flags) p true true ∧ Z.testbit (Z.lor p page_table_flags) 7 = false.
Proof. intros Hp. split; [by apply flags_entry|]. by rewrite (entry_bit p) by (done || lia). Qed.

Lemma segment_entry_user p flags : page_address p → flags = 4 ∨ flags = 5 ∨ flags = 6 →
  user_entry (Z.lor p (segment_flags flags)) p (flags =? 6) (flags =? 5).
Proof. by intros Hp [->|[->| ->]]; apply flags_entry. Qed.
