(* ===== verification/FormMachine.v ===== *)
(** * The machine with its address spaces

    The invariant of the machine of FormSpace.v: which frames each space holds, what
    its page tables may contain, which of its frames are sealed in the kernel's map,
    and that no frame is lost.  The lemmas take it through each step of [prepare],
    [reject_preparation] and [finish]. *)

From stdpp Require Import prelude list gmap sets functions.
From Stdlib Require Import ZArith Lia.
From S2P Require Import Prelude Identity Capability NativeImage Frames Paging ServiceImage FormSpace FormLoad.

Set Default Goal Selector "!".
Open Scope Z_scope.
Open Scope expos_scope.

(** ** Specification: where things are *)

Section statics.
Context `{NativeStatics} (t0 : Tables) (kernel_end : Z) (heap : Z * Z).

Definition static_page (a : Z) : Prop :=
  a ∈ kernel_pages t0 ∨ ∃ i p, (i < MAX_NATIVE_SPACES)%nat ∧ a = nst_page i p.

(** What the linker and the boot code provide: the statics are pages of the kernel
    image at different addresses, the heap lies in the image apart from them, and
    the boot tables give user mode nothing. *)
Record statics_ok : Prop := {
  so_boot : boot_tables t0;
  so_user : Z.testbit (t0 kt_root 0) 2 = false;
  so_inj : ∀ i j p q, (i < MAX_NATIVE_SPACES)%nat → (j < MAX_NATIVE_SPACES)%nat →
    nst_page i p = nst_page j q → i = j ∧ p = q;
  so_kernel : ∀ i p, (i < MAX_NATIVE_SPACES)%nat → nst_page i p ∉ kernel_pages t0;
  so_image : ∀ a, static_page a → page_address a ∧ 0 < a ∧ a + PAGE_BYTES ≤ kernel_end;
  so_heap : ∀ a, static_page a → a + PAGE_BYTES ≤ heap.1 ∨ heap.2 ≤ a;
  so_end : 0 ≤ heap.1 ∧ heap.2 ≤ kernel_end ≤ MAX_PHYSICAL_BYTES }.

(** The memory of an arena: a page of table and the bytes. *)
Definition ARENA_BYTES : Z := PAGE_BYTES + MEMORY_BYTES.

Definition arena_in_heap (b : Z) : Prop := page_address b ∧ heap.1 ≤ b ∧ b + ARENA_BYTES ≤ heap.2.
Definition arenas_apart (b b' : Z) : Prop := b + ARENA_BYTES ≤ b' ∨ b' + ARENA_BYTES ≤ b.

(** What [alloc_zeroed] returns: memory of the heap no live arena uses. *)
Definition heap_fresh (m : Machine) (b : Z) : Prop :=
  arena_in_heap b ∧ ∀ i b', ns_service (space_at m i) = Some b' → arenas_apart b b'.
End statics.

(** ** Specification: what belongs to a space *)

(** The pages of a slot that hold page tables. *)
Definition is_table (p : SpacePage) : Prop := p = Pml4 ∨ p = UserPdpt ∨ p = UserPd ∨ p = UserPt.

Section owned.
Context `{NativeStatics} (m : Machine) (i : nat).

(** Frame [f] is leased to the slot at [index]. *)
Definition holds (index : nat) (f : Z) : Prop :=
  (index < ns_dynamic_len (space_at m i))%nat ∧ ns_dynamic_frames (space_at m i) !! index = Some f ∧ f ≠ 0.

Definition code_owned (p : Z) : Prop :=
  p = nst_page i CodePage ∨ ∃ index, (index < ns_dynamic_code_len (space_at m i))%nat ∧ holds index p.

Definition data_owned (p : Z) : Prop :=
  p = nst_page i DataPage ∨ p = nst_page i StackPage ∨
  ∃ index, (ns_dynamic_code_len (space_at m i) ≤ index)%nat ∧ holds index p.

Definition arena_owned (p : Z) : Prop :=
  ∃ b k, ns_service (space_at m i) = Some b ∧ 0 ≤ k < 512 ∧ p = arena_bytes b + k * PAGE_BYTES.

Definition owned (p : Z) : Prop := code_owned p ∨ data_owned p ∨ arena_owned p.
End owned.

(** ** Specification: the invariant *)

Section invariant.
Context `{NativeStatics} (nx : bool) (t0 : Tables) (kernel_end : Z) (heap : Z * Z).
Abbreviation nxf := (no_execute nx).

(** The flags of a sealed frame. *)
Definition code_flags : Z := Z.lor PRESENT nxf.

(** An entry of the user page table, and one of an arena's. *)
Definition leaf_ok (m : Machine) (i : nat) (e : Z) : Prop :=
  e = 0 ∨ (∃ p, code_owned m i p ∧ e = exec_entry p) ∨ (∃ p, data_owned m i p ∧ e = data_entry nx p).

Definition arena_leaf (b k e : Z) : Prop :=
  e = 0 ∨ ∃ f, (f = segment_flags 4 ∨ f = segment_flags 5 ∨ f = segment_flags 6) ∧
    e = Z.lor (arena_bytes b + k * PAGE_BYTES) f.

(** The page a Form shares with the kernel: where the kernel and where the Form find it. *)
Definition data_linked (m : Machine) (i : nat) : Prop :=
  data_owned m i (ns_data_physical (space_at m i)) ∧
  ∃ k, (k = 1 ∨ k = V2_DATA_INDEX) ∧ ns_data_virtual (space_at m i) = USER_CODE + k * PAGE_BYTES ∧
    mc_tables m (nst_page i UserPt) k = data_entry nx (ns_data_physical (space_at m i)).

(** The tables of a space in use. *)
Record space_tables (m : Machine) (i : nat) : Prop := {
  st_pml4 : ∀ k, 0 ≤ k < 512 → mc_tables m (nst_page i Pml4) k =
    if k =? 0 then t0 kt_root 0 else if k =? 128 then Z.lor (nst_page i UserPdpt) page_table_flags else 0;
  st_pdpt : ∀ k, 0 ≤ k < 512 → mc_tables m (nst_page i UserPdpt) k =
    if k =? 0 then Z.lor (nst_page i UserPd) page_table_flags else 0;
  st_pd : ∀ k, 0 ≤ k < 512 → mc_tables m (nst_page i UserPd) k =
    if k =? 0 then Z.lor (nst_page i UserPt) page_table_flags
    else if k =? 1 then match ns_service (space_at m i) with Some b => Z.lor b page_table_flags | None => 0 end
    else 0;
  st_pt : ∀ k, 0 ≤ k < 512 → leaf_ok m i (mc_tables m (nst_page i UserPt) k);
  st_arena : ∀ b k, ns_service (space_at m i) = Some b → 0 ≤ k < 512 → arena_leaf b k (mc_tables m b k);
  st_data : data_linked m i }.

Record slot_ok (m : Machine) (i : nat) : Prop := {
  sk_frames : length (ns_dynamic_frames (space_at m i)) = Z.to_nat MAX_DYNAMIC_FRAMES;
  sk_len : (ns_dynamic_len (space_at m i) ≤ Z.to_nat MAX_DYNAMIC_FRAMES)%nat;
  sk_code : (ns_dynamic_code_len (space_at m i) ≤ ns_dynamic_len (space_at m i))%nat;
  sk_idle : ns_active (space_at m i) = false →
    ns_dynamic_len (space_at m i) = O ∧ ns_service (space_at m i) = None;
  sk_assigned : ns_active (space_at m i) = true → ns_assigned (space_at m i) = true }.

(** How many frames of a slot are sealed: all of its code, except in the slot that
    is being built, [Some (slot, count)]. *)
Definition sealed (m : Machine) (building : option (nat * nat)) (i : nat) : nat :=
  match building with
  | Some (b, c) => if decide (i = b) then c else ns_dynamic_code_len (space_at m i)
  | None => ns_dynamic_code_len (space_at m i)
  end.

Definition built (building : option (nat * nat)) (i : nat) : Prop :=
  match building with Some (b, _) => i ≠ b | None => True end.

Record machine_inv (m : Machine) (s : Leases) (ns : nat) (perm : Z → Z) (building : option (nat * nat)) : Prop := {
  mi_map : map_rep t0 nxf 2048 ns (mc_dynamic_used m) (mc_tables m) perm;
  mi_frames : frames_ok (ph_allocator (mc_physical m)) s;
  mi_above : ∀ n, n ∈ ls_free s ∨ n ∈ ls_leased s → kernel_end ≤ n * PAGE_BYTES;
  mi_spaces : length (mc_spaces m) = MAX_NATIVE_SPACES;
  mi_slot : ∀ i, slot_ok m i;
  mi_leased : ∀ i index f, holds m i index f → ∃ n, f = n * PAGE_BYTES ∧ n ∈ ls_leased s;
  mi_once : ∀ i j index index' f, holds m i index f → holds m j index' f → i = j ∧ index = index';
  mi_kept : ∀ n, n ∈ ls_leased s → ∃ i index, holds m i index (n * PAGE_BYTES);
  mi_free : ∀ n, n ∈ ls_free s → perm n = data_flags nxf;
  mi_held : ∀ i index f, holds m i index f →
    perm (f / PAGE) = if (index <? sealed m building i)%nat then code_flags else data_flags nxf;
  mi_tables : ∀ i, ns_active (space_at m i) = true → built building i → space_tables m i;
  mi_arena : ∀ i b, ns_service (space_at m i) = Some b → arena_in_heap heap b;
  mi_apart : ∀ i j b b', i ≠ j → ns_service (space_at m i) = Some b → ns_service (space_at m j) = Some b' →
    arenas_apart b b' }.
End invariant.

(** ** Lemmas: updates *)

Lemma space_at_update m b f i :
  (b < length (mc_spaces m))%nat →
  space_at (update_space m b f) i = if decide (i = b) then f (space_at m b) else space_at m i.
Proof.
  intros Hb. unfold space_at, update_space. cbn. destruct (decide (i = b)) as [->|Hne].
  - rewrite list_lookup_alter_eq. destruct (lookup_lt_is_Some_2 _ _ Hb) as [x ->]. done.
  - by rewrite list_lookup_alter_ne.
Qed.

Section updates.
Context `{NativeStatics} (nx : bool) (t0 : Tables) (kernel_end : Z) (heap : Z * Z).
Abbreviation machine_inv := (machine_inv nx t0 kernel_end heap).
Implicit Types (m : Machine) (s : Leases) (perm : Z → Z).

Lemma holds_ext m m' i index f : space_at m' i = space_at m i → holds m' i index f ↔ holds m i index f.
Proof. unfold holds. by intros ->. Qed.

Lemma slot_ok_ext m m' i : space_at m' i = space_at m i → slot_ok m i → slot_ok m' i.
Proof. intros E [H1 H2 H3 H4 H5]. by constructor; rewrite E. Qed.

(** The tables of a space depend on its record and on the words of its table pages. *)
Lemma space_tables_ext m m' i :
  space_at m' i = space_at m i →
  (∀ p k, is_table p → mc_tables m' (nst_page i p) k = mc_tables m (nst_page i p) k) →
  (∀ b k, ns_service (space_at m i) = Some b → mc_tables m' b k = mc_tables m b k) →
  space_tables nx t0 m i → space_tables nx t0 m' i.
Proof.
  intros Es Ht Ha [H1 H2 H3 H4 H5 H6].
  constructor.
  - intros k Hk. rewrite Ht by (unfold is_table; auto). by apply H1.
  - intros k Hk. rewrite Ht by (unfold is_table; auto). by apply H2.
  - intros k Hk. rewrite Ht, Es by (unfold is_table; auto). by apply H3.
  - intros k Hk. rewrite Ht by (unfold is_table; auto). unfold leaf_ok, code_owned, data_owned, holds in *. rewrite Es. by apply H4.
  - intros b k Hb Hk. rewrite Es in Hb. rewrite Ha by done. by apply H5.
  - unfold data_linked, data_owned, holds in *. rewrite Es. destruct H6 as [Ho (k & Hk & Hv & Et)]. split; [done|].
    exists k. by rewrite Ht by (unfold is_table; auto).
Qed.

(** A change of the page tables alone. *)
Lemma inv_tables m s ns perm building t' :
  boot_tables t0 → machine_inv m s ns perm building →
  (∀ a k, a ∈ kernel_pages t0 → t' a k = mc_tables m a k) →
  (∀ i p k, ns_active (space_at m i) = true → built building i → is_table p → t' (nst_page i p) k = mc_tables m (nst_page i p) k) →
  (∀ i b k, ns_active (space_at m i) = true → built building i → ns_service (space_at m i) = Some b →
     t' b k = mc_tables m b k) →
  machine_inv (m <| mc_tables := t' |>) s ns perm building.
Proof.
  intros HB [H1 H2 H3 H4 H5 H6 H7 H8 H9 H10 H11 H12 H13] Hk Hp Ha.
  constructor; cbn; try done.
  - by eapply map_rep_agree.
  - intros i. by apply (slot_ok_ext m).
  - intros i Hi Hb. eapply (space_tables_ext m);
      [done|intros p k; by apply Hp|intros b k E; by apply (Ha i)|by apply H11].
Qed.

(** A change of the bytes alone. *)
Lemma inv_memory m s ns perm building f :
  machine_inv m s ns perm building → machine_inv (with_memory m f) s ns perm building.
Proof.
  intros [H1 H2 H3 H4 H5 H6 H7 H8 H9 H10 H11 H12 H13]. constructor; cbn; try done.
  - intros i. by apply (slot_ok_ext m).
  - intros i Hi Hb. by eapply (space_tables_ext m); [| | |apply H11].
Qed.

(** A change of the record of the slot that is being built. *)
Lemma inv_update m m' s ns perm b c :
  machine_inv m s ns perm (Some (b, c)) →
  mc_tables m' = mc_tables m → mc_dynamic_used m' = mc_dynamic_used m →
  ph_allocator (mc_physical m') = ph_allocator (mc_physical m) → length (mc_spaces m') = MAX_NATIVE_SPACES →
  (∀ i, i ≠ b → space_at m' i = space_at m i) →
  (∀ index f, holds m' b index f ↔ holds m b index f) → slot_ok m' b →
  (∀ p, ns_service (space_at m' b) = Some p → arena_in_heap heap p ∧
     ∀ i p', i ≠ b → ns_service (space_at m i) = Some p' → arenas_apart p p') →
  machine_inv m' s ns perm (Some (b, c)).
Proof.
  intros [H1 H2 H3 H4 H5 H6 H7 H8 H9 H10 H11 H12 H13] Et Eu Ea El He Hh Hs Hsv.
  assert (∀ i index f, holds m' i index f ↔ holds m i index f) as Hh'.
  { intros i index f. destruct (decide (i = b)) as [->|Hi]; [apply Hh|by apply holds_ext, He]. }
  constructor; try done.
  - by rewrite Et, Eu.
  - by rewrite Ea.
  - intros i. destruct (decide (i = b)) as [->|Hi]; [done|]. by apply (slot_ok_ext m); [apply He|].
  - intros i index f Hf. by apply (H6 i index), Hh'.
  - intros i j index index' f Hf Hf'. by apply (H7 i j index index' f); apply Hh'.
  - intros n Hn. destruct (H8 n Hn) as (i & index & Hi). exists i, index. by apply Hh'.
  - intros i index f Hf%Hh'. rewrite (H10 i index f Hf). unfold sealed.
    destruct (decide (i = b)); [done|]. by rewrite He.
  - intros i Ha Hbt. cbn in Hbt. rewrite He in Ha by done.
    eapply (space_tables_ext m); [by apply He|by rewrite Et|by rewrite Et|by apply H11].
  - intros i b' Hb'. destruct (decide (i = b)) as [->|Hi]; [by apply Hsv|]. rewrite He in Hb' by done. by eapply H12.
  - intros i j b1 b2 Hij E1 E2. destruct (decide (i = b)) as [->|Hi], (decide (j = b)) as [->|Hj]; [done|..].
    + rewrite He in E2 by done. by eapply Hsv.
    + rewrite He in E1 by done. destruct (Hsv _ E2) as [_ Ha]. destruct (Ha _ _ Hi E1); [by right|by left].
    + rewrite He in E1, E2 by done. by apply (H13 i j).
Qed.

Lemma same_service m s ns perm building b p :
  machine_inv m s ns perm building → ns_service (space_at m b) = Some p →
  arena_in_heap heap p ∧ ∀ i p', i ≠ b → ns_service (space_at m i) = Some p' → arenas_apart p p'.
Proof.
  intros Hm Hp. split; [by eapply mi_arena|]. intros i p' Hi Hp'. by apply (mi_apart _ _ _ _ _ _ _ _ _ Hm b i).
Qed.
End updates.

(** ** Lemmas: building a space *)

Section building.
Context `{NativeStatics} (nx : bool) (t0 : Tables) (kernel_end : Z) (heap : Z * Z)
  (SO : statics_ok t0 kernel_end heap).
Abbreviation machine_inv := (machine_inv nx t0 kernel_end heap).
Abbreviation nxf := (no_execute nx).
Implicit Types (m : Machine) (s : Leases) (perm : Z → Z).

Lemma active_slot m i : length (mc_spaces m) = MAX_NATIVE_SPACES → ns_active (space_at m i) = true → (i < MAX_NATIVE_SPACES)%nat.
Proof.
  intros Hl Ha. destruct (decide (i < MAX_NATIVE_SPACES)%nat) as [|Hn]; [done|]. unfold space_at in Ha.
  rewrite lookup_ge_None_2 in Ha by lia. done.
Qed.

Lemma static_slot i p : (i < MAX_NATIVE_SPACES)%nat → static_page t0 (nst_page i p).
Proof. intros Hi. right. by exists i, p. Qed.

(** Nothing static is in an arena. *)
Lemma arena_static b a k : arena_in_heap heap b → static_page t0 a → 0 ≤ k < ARENA_BYTES → a ≠ b + k.
Proof. intros (_ & Hb1 & Hb2) Ha Hk ->. destruct (so_heap _ _ _ SO _ Ha); unfold PAGE_BYTES in *; lia. Qed.

Lemma arena_not_static b a : arena_in_heap heap b → static_page t0 a → a ≠ b.
Proof. intros Hb Ha. rewrite <- (Z.add_0_r b). by apply arena_static. Qed.

(** Writes to the tables of the slot that is being built. *)
Lemma inv_slot_tables m s ns perm b c t' :
  machine_inv m s ns perm (Some (b, c)) → (b < MAX_NATIVE_SPACES)%nat →
  (∀ a k, (∀ p, a ≠ nst_page b p) → t' a k = mc_tables m a k) →
  machine_inv (m <| mc_tables := t' |>) s ns perm (Some (b, c)).
Proof.
  intros Hm Hb Ht. pose proof (mi_spaces _ _ _ _ _ _ _ _ _ Hm) as Hl. apply inv_tables; [apply SO|done|..].
  - intros a k Ha. apply Ht. intros p ->. by apply (so_kernel _ _ _ SO b p).
  - intros i p k Hi Hne _. apply Ht. intros q E. apply (so_inj _ _ _ SO) in E as [E _]; [|by eapply active_slot|done].
    by apply Hne.
  - intros i b' k Hi Hne Hb'. apply Ht. intros p. apply not_eq_sym, arena_not_static; [|by apply static_slot].
    by eapply mi_arena.
Qed.

(** Opening an idle slot. *)
Lemma inv_open m s ns perm b :
  machine_inv m s ns perm None → ns_active (space_at m b) = false → machine_inv m s ns perm (Some (b, O)).
Proof.
  intros [H1 H2 H3 H4 H5 H6 H7 H8 H9 H10 H11 H12 H13] Hb. destruct (sk_idle _ _ (H5 b) Hb) as [Hl _].
  constructor; try done.
  - intros i index f Hf. rewrite (H10 i index f Hf). unfold sealed. destruct (decide (i = b)) as [->|]; [|done].
    destruct Hf as [Hf _]. lia.
  - intros i Hi _. by apply H11.
Qed.

(** The upper levels of a space without an arena. *)
Record linked (t : Tables) (b : nat) : Prop := {
  lk_pml4 : ∀ k, 0 ≤ k < 512 → t (nst_page b Pml4) k =
    if k =? 0 then t0 kt_root 0 else if k =? 128 then Z.lor (nst_page b UserPdpt) page_table_flags else 0;
  lk_pdpt : ∀ k, 0 ≤ k < 512 → t (nst_page b UserPdpt) k =
    if k =? 0 then Z.lor (nst_page b UserPd) page_table_flags else 0;
  lk_pd : ∀ k, 0 ≤ k < 512 → t (nst_page b UserPd) k =
    if k =? 0 then Z.lor (nst_page b UserPt) page_table_flags else 0 }.

Lemma nst_page_ne b p q : (b < MAX_NATIVE_SPACES)%nat → p ≠ q → nst_page b p ≠ nst_page b q.
Proof. intros Hb Hpq E. by apply (so_inj _ _ _ SO) in E as [_ ?]. Qed.

(** The words of a slot's pages after a series of writes to them. *)
Ltac page_words b :=
  unfold write_entry, write_table;
  repeat match goal with
    | |- context [nst_page b ?p =? nst_page b ?q] =>
        first [rewrite (Z.eqb_refl (nst_page b p))
              |rewrite (proj2 (Z.eqb_neq (nst_page b p) (nst_page b q))) by (by apply nst_page_ne)]
    end; cbn [andb].

Lemma link_space_tables m s ns perm b c form :
  machine_inv m s ns perm (Some (b, c)) → (b < MAX_NATIVE_SPACES)%nat →
  let t := mc_tables (link_space b (reset_space b form m)) in
  linked t b ∧ (∀ k, t (nst_page b UserPt) k = 0) ∧
  ∀ a k, (∀ p, a ≠ nst_page b p) → t a k = mc_tables m a k.
Proof.
  intros Hm Hb t.
  assert (mc_tables m kt_root 0 = t0 kt_root 0) as Hr by apply (mi_map _ _ _ _ _ _ _ _ _ Hm).
  assert (∀ p, nst_page b p ≠ kt_root) as Hroot.
  { intros p E. apply (so_kernel _ _ _ SO b p Hb). rewrite E. apply kernel_pages_elem. }
  assert (t = write_entry (write_entry (write_entry (write_entry
    (write_table (write_table (write_table (write_table (mc_tables m) (nst_page b Pml4) (λ _, 0)) (nst_page b UserPdpt) (λ _, 0))
      (nst_page b UserPd) (λ _, 0)) (nst_page b UserPt) (λ _, 0))
    (nst_page b Pml4) 0 (t0 kt_root 0)) (nst_page b Pml4) 128 (Z.lor (nst_page b UserPdpt) page_table_flags))
    (nst_page b UserPdpt) 0 (Z.lor (nst_page b UserPd) page_table_flags))
    (nst_page b UserPd) 0 (Z.lor (nst_page b UserPt) page_table_flags)) as ->.
  { unfold t, link_space, reset_space, update_space, with_memory. cbn. 
    rewrite !write_table_other by (apply not_eq_sym, Hroot). by rewrite Hr. }
  split; [constructor|split].
  - intros k _. page_words b. destruct (Z.eqb_spec k 128), (Z.eqb_spec k 0); simpl; try done; lia.
  - intros k _. page_words b. by destruct (Z.eqb_spec k 0).
  - intros k _. page_words b. by destruct (Z.eqb_spec k 0).
  - intros k. by page_words b.
  - intros a k Ha. by rewrite !write_entry_other, !write_table_other by (try left; apply Ha).
Qed.

(** Claiming an idle slot. *)
Lemma open_space m s ns perm b form :
  machine_inv m s ns perm None → ns_active (space_at m b) = false → (b < MAX_NATIVE_SPACES)%nat →
  let m' := link_space b (reset_space b form m) in
  machine_inv m' s ns perm (Some (b, O)) ∧ linked (mc_tables m') b ∧
  (∀ k, mc_tables m' (nst_page b UserPt) k = 0) ∧
  ns_dynamic_len (space_at m' b) = O ∧ ns_dynamic_code_len (space_at m' b) = O ∧
  ns_dynamic_frames (space_at m' b) = replicate (Z.to_nat MAX_DYNAMIC_FRAMES) 0 ∧
  ns_active (space_at m' b) = true ∧ ns_service (space_at m' b) = None ∧
  ns_data_physical (space_at m' b) = nst_page b DataPage ∧ ns_data_virtual (space_at m' b) = RT_USER_DATA ∧
  (∀ i, i ≠ b → space_at m' i = space_at m i) ∧
  mc_dynamic_used m' = mc_dynamic_used m ∧ ph_allocator (mc_physical m') = ph_allocator (mc_physical m).
Proof.
  intros Hm Hi Hb m'. pose proof (inv_open _ _ _ _ _ Hm Hi) as Ho. pose proof (mi_spaces _ _ _ _ _ _ _ _ _ Hm) as Hl.
  destruct (link_space_tables _ _ _ _ _ _ form Ho Hb) as (Hlk & Hpt & Hfr).
  destruct (sk_idle _ _ (mi_slot _ _ _ _ _ _ _ _ _ Hm b) Hi) as [Hd Hsv].
  set (f1 := λ space : NativeSpace, space <| ns_assigned := true |> <| ns_active := true |> <| ns_form := form |>).
  set (f2 := λ space : NativeSpace, space <| ns_dynamic_frames := replicate (Z.to_nat MAX_DYNAMIC_FRAMES) 0 |>
    <| ns_dynamic_len := O |> <| ns_dynamic_code_len := O |> <| ns_data_physical := nst_page b DataPage |>
    <| ns_data_virtual := RT_USER_DATA |>).
  assert (∀ i, space_at m' i = if decide (i = b) then f2 (f1 (space_at m b)) else space_at m i) as Es.
  { intros i. change (space_at m' i) with (space_at (update_space (update_space m b f1) b f2) i).
    rewrite !space_at_update by (unfold update_space; cbn; rewrite ?length_alter; lia). by destruct (decide (i = b)), (decide (b = b)). }
  split; [|split; [done|split; [done|]]].
  - change (machine_inv (m' <| mc_tables := mc_tables m |> <| mc_tables := mc_tables m' |>) s ns perm (Some (b, 0%nat))).
    apply inv_slot_tables; [|done|exact Hfr].
    apply (inv_update nx t0 kernel_end heap m); try done.
    + change (mc_spaces (m' <| mc_tables := mc_tables m |>)) with (mc_spaces (update_space (update_space m b f1) b f2)).
      unfold update_space. cbn. by rewrite !length_alter.
    + intros i Hib. change (space_at m' i = space_at m i). by rewrite Es, decide_False.
    + intros index f. unfold holds. change (space_at (m' <| mc_tables := mc_tables m |>) b) with (space_at m' b).
      rewrite Es, decide_True, Hd by done. cbn. split; intros [? _]; lia.
    + apply (slot_ok_ext m'); [done|]. constructor; rewrite Es, decide_True by done; cbn; try done; lia.
    + intros p. change (space_at (m' <| mc_tables := mc_tables m |>) b) with (space_at m' b).
      rewrite Es, decide_True by done. by eapply same_service.
  - rewrite Es, decide_True by done. split_and!; try done. intros i Hib. by rewrite Es, decide_False.
Qed.

(** What the steps of a preparation leave alone. *)
Record kept (b : nat) m m' : Prop := {
  kp_others : ∀ i, i ≠ b → space_at m' i = space_at m i;
  kp_active : ns_active (space_at m' b) = ns_active (space_at m b);
  kp_service : ns_service (space_at m' b) = ns_service (space_at m b);
  kp_tables : ∀ a k, a ∉ kernel_pages t0 → mc_tables m' a k = mc_tables m a k }.

Lemma kept_refl b m : kept b m m.
Proof. done. Qed.

Lemma kept_trans b m1 m2 m3 : kept b m1 m2 → kept b m2 m3 → kept b m1 m3.
Proof.
  intros [A1 A2 A3 A4] [B1 B2 B3 B4]. constructor; [|by rewrite B2|by rewrite B3|].
  - intros i Hi. by rewrite B1, A1.
  - intros a k Ha. by rewrite B4, A4.
Qed.

(** One more frame in the slot that is being built. *)
Lemma inv_lease m m' s s' ns perm b n :
  machine_inv m s ns perm (Some (b, O)) → n ∈ ls_free s →
  frames_ok (ph_allocator (mc_physical m')) s' → s' = MkLeases (ls_free s ∖ {[n]}) ({[n]} ∪ ls_leased s) →
  mc_tables m' = mc_tables m → mc_dynamic_used m' = mc_dynamic_used m → length (mc_spaces m') = MAX_NATIVE_SPACES →
  kept b m m' → slot_ok m' b →
  (∀ index f, holds m' b index f ↔ holds m b index f ∨ (index = ns_dynamic_len (space_at m b) ∧ f = n * PAGE_BYTES)) →
  machine_inv m' s' ns perm (Some (b, O)).
Proof.
  intros [H1 H2 H3 H4 H5 H6 H7 H8 H9 H10 H11 H12 H13] Hn Hf' Es' Et Eu Hl [Ho Ha Hsv _] Hs Hh.
  pose proof (lr_disjoint _ _ (fo_rep _ _ H2)) as Hdis. subst s'.
  assert (∀ i index f, holds m' i index f → holds m i index f ∨
    (i = b ∧ index = ns_dynamic_len (space_at m b) ∧ f = n * PAGE_BYTES)) as Hh'.
  { intros i index f Hf. destruct (decide (i = b)) as [->|Hi]; [apply Hh in Hf; naive_solver|].
    left. by apply (holds_ext m m' i), Hf; apply Ho. }
  assert (∀ i index f, holds m i index f → holds m' i index f) as Hh''.
  { intros i index f Hf. destruct (decide (i = b)) as [->|Hi]; [apply Hh; by left|]. by apply (holds_ext m), Hf; apply Ho. }
  assert (∀ i index, ¬ holds m i index (n * PAGE_BYTES)) as Hfresh.
  { intros i index Hf. destruct (H6 _ _ _ Hf) as (n' & E & Hn'). unfold PAGE_BYTES in E. assert (n = n') as -> by lia.
    by apply (Hdis n'). }
  assert (∀ i, ns_service (space_at m' i) = ns_service (space_at m i)) as Hsv'.
  { intros i. destruct (decide (i = b)) as [->|Hi]; [done|by rewrite Ho]. }
  constructor; try done; cbn [ls_free ls_leased].
  - by rewrite Et, Eu.
  - intros x Hx. apply H3. set_solver.
  - intros i. destruct (decide (i = b)) as [->|Hi]; [done|]. apply (slot_ok_ext m); [by apply Ho|done].
  - intros i index f [Hf|(-> & -> & ->)]%Hh'; [|exists n; set_solver].
    destruct (H6 _ _ _ Hf) as (x & ? & ?). exists x. set_solver.
  - intros i j index index' f [Hf|(-> & -> & ->)]%Hh' [Hg|(-> & -> & E)]%Hh'; [by eapply H7|..|done].
    + subst f. by apply Hfresh in Hf.
    + by apply Hfresh in Hg.
  - intros x [->%elem_of_singleton|Hx]%elem_of_union.
    + exists b, (ns_dynamic_len (space_at m b)). apply Hh. by right.
    + destruct (H8 x Hx) as (i & index & Hi). exists i, index. by apply Hh''.
  - intros x Hx. apply H9. set_solver.
  - intros i index f [Hf|(-> & -> & ->)]%Hh'.
    + rewrite (H10 _ _ _ Hf). unfold sealed. destruct (decide (i = b)); [done|]. by rewrite Ho.
    + unfold sealed. rewrite decide_True by done. change PAGE with PAGE_BYTES. rewrite Z.div_mul by done. by apply H9.
  - intros i Hi Hb. cbn in Hb. rewrite Ho in Hi by done.
    eapply (space_tables_ext nx t0 m); [by apply Ho|by rewrite Et|by rewrite Et|by apply H11].
  - intros i p Hp. rewrite Hsv' in Hp. by eapply H12.
  - intros i j p p' Hij Hp Hp'. rewrite Hsv' in Hp, Hp'. by apply (H13 i j).
Qed.

(** Every leased position of the slot holds a frame. *)
Definition full m (b : nat) : Prop := ∀ k, (k < ns_dynamic_len (space_at m b))%nat → ∃ f, holds m b k f.

(** The frames of the slot are zero. *)
Definition zeroed m (b : nat) : Prop :=
  ∀ k f o, holds m b k f → 0 ≤ o < PAGE_BYTES → ph_memory (mc_physical m) (f + o) = 0.

Lemma lease_holds m m' b index f :
  ns_dynamic_len (space_at m b) = index → length (ns_dynamic_frames (space_at m b)) = Z.to_nat MAX_DYNAMIC_FRAMES →
  (index < Z.to_nat MAX_DYNAMIC_FRAMES)%nat → f ≠ 0 →
  ns_dynamic_frames (space_at m' b) = <[index := f]> (ns_dynamic_frames (space_at m b)) →
  ns_dynamic_len (space_at m' b) = S (ns_dynamic_len (space_at m b)) →
  ∀ k x, holds m' b k x ↔ holds m b k x ∨ (k = index ∧ x = f).
Proof.
  intros Hi Hl Hlt Hf E1 E2 k x. unfold holds. rewrite E1, E2. destruct (decide (k = index)) as [->|Hk].
  - rewrite list_lookup_insert_eq by lia. split; [intros (_ & [= ->] & _); by right|].
    intros [(? & _)|[_ ->]]; [lia|]. split_and!; [lia|done|done].
  - rewrite list_lookup_insert_ne by done. split; [intros (? & ? & ?); left; split_and!; [lia|done|done]|].
    intros [(? & ? & ?)|[? _]]; [split_and!; [lia|done|done]|done].
Qed.

Lemma lease_frames_inv b n : (b < MAX_NATIVE_SPACES)%nat → ∀ index m s ns perm,
  machine_inv m s ns perm (Some (b, O)) → ns_active (space_at m b) = true →
  ns_dynamic_code_len (space_at m b) = O → ns_dynamic_len (space_at m b) = index →
  (index + n ≤ Z.to_nat MAX_DYNAMIC_FRAMES)%nat → full m b → zeroed m b →
  let m' := (lease_frames b n index m).1 in
  ∃ s', machine_inv m' s' ns perm (Some (b, O)) ∧ kept b m m' ∧ mc_tables m' = mc_tables m ∧
    ns_dynamic_code_len (space_at m' b) = O ∧
    full m' b ∧ zeroed m' b ∧ ((lease_frames b n index m).2 = true → ns_dynamic_len (space_at m' b) = (index + n)%nat).
Proof.
  intros Hb. induction n as [|n IH]; intros index m s ns perm Hm Ha Hc Hi Hle Hfl Hz; cbn.
  { exists s. split_and!; try done. lia. }
  pose proof (mi_spaces _ _ _ _ _ _ _ _ _ Hm) as Hl. pose proof (mi_slot _ _ _ _ _ _ _ _ _ Hm b) as Hs.
  destruct (allocate_frame_spec _ _ (mi_frames _ _ _ _ _ _ _ _ _ Hm)) as [(f & ph & -> & Hf & Hok & Hw)|[-> _]]; cbn.
  2: { exists s. replace (m <| mc_physical := mc_physical m |>) with m by by destruct m. by split_and!. }
  match goal with |- context [lease_frames b n (S index) ?x] => set (m1 := x) end.
  set (g := λ space : NativeSpace, space <| ns_dynamic_frames := <[index := f * PAGE_BYTES]> (ns_dynamic_frames space) |>
                     <| ns_dynamic_len := S (ns_dynamic_len space) |>).
  assert (∀ i, space_at m1 i = if decide (i = b) then g (space_at m b) else space_at m i) as E1.
  { intros i. change (space_at m1 i) with (space_at (update_space m b g) i). rewrite space_at_update by lia. done. }
  assert (space_at m1 b = g (space_at m b)) as Eb by by rewrite E1, decide_True.
  assert (kept b m m1) as Hk.
  { constructor; [intros i Hne; by rewrite E1, decide_False|by rewrite Eb|by rewrite Eb|done]. }
  assert (∀ k x, holds m1 b k x ↔ holds m b k x ∨ (k = index ∧ x = f * PAGE_BYTES)) as Hh.
  { apply lease_holds; try done; try (by rewrite Eb); try apply Hs; try lia. intros E.
    assert (f = 0) as -> by (unfold PAGE_BYTES in E; lia). by destruct (fo_zero _ _ (mi_frames _ _ _ _ _ _ _ _ _ Hm)). }
  destruct (IH (S index) m1 (MkLeases (ls_free s ∖ {[f]}) ({[f]} ∪ ls_leased s)) ns perm) as (s' & H1 & H2 & H3 & H4 & H5 & H6 & H7).
  - eapply (inv_lease m m1 s); try done.
    + unfold m1, update_space. cbn. by rewrite length_alter.
    + destruct Hs as [S1 S2 S3 S4 S5]. constructor; rewrite Eb; cbn; [by rewrite length_insert|lia|lia|by rewrite Ha|done].
    + by rewrite Hi.
  - by rewrite Eb.
  - by rewrite Eb.
  - rewrite Eb. cbn. by rewrite Hi.
  - lia.
  - intros k Hk'. rewrite Eb in Hk'. cbn in Hk'. destruct (decide (k = index)) as [->|Hne].
    + exists (f * PAGE_BYTES). apply Hh. by right.
    + destruct (Hfl k) as [x Hx]; [lia|]. exists x. apply Hh. by left.
  - intros k x o Hx Ho. change (mc_physical m1) with ph. rewrite Hw. unfold wipe, fill_bytes.
    destruct (_ && _) eqn:Ein; [done|]. apply Hh in Hx as [Hx|[_ ->]]; [by eapply Hz|]. bools. exfalso.
    apply andb_false_iff in Ein as [?|?]; bools; lia.
  - exists s'. split_and!; try done; [by eapply kept_trans|]. intros Ht. rewrite (H7 Ht). lia.
Qed.

Lemma nxf_flags : nxf = 0 ∨ nxf = NX.
Proof. unfold no_execute. destruct nx; [by right|by left]. Qed.

Lemma held_frame m s ns perm building i k f :
  machine_inv m s ns perm building → holds m i k f →
  ∃ n, f = n * PAGE_BYTES ∧ n ∈ ls_leased s ∧ f / PAGE = n ∧ sealable f ∧ kernel_end ≤ f.
Proof.
  intros Hm Hf. destruct (mi_leased _ _ _ _ _ _ _ _ _ Hm _ _ _ Hf) as (n & -> & Hn). exists n.
  pose proof (mi_frames _ _ _ _ _ _ _ _ _ Hm) as Hok. pose proof (lr_range _ _ (fo_rep _ _ Hok) n (or_intror Hn)) as Hr.
  rewrite frame_count in Hr. destruct Hf as (_ & _ & Hz). unfold sealable. change PAGE with PAGE_BYTES.
  split_and!; [done|done|by rewrite Z.div_mul|unfold PAGE_BYTES in *; lia|unfold PAGE_BYTES in *; lia|by rewrite Z.mod_mul|].
  apply (mi_above _ _ _ _ _ _ _ _ _ Hm). by right.
Qed.

(** A static page is no frame. *)
Lemma held_not_static m s ns perm building i k f a :
  machine_inv m s ns perm building → holds m i k f → static_page t0 a → a ≠ f.
Proof.
  intros Hm Hf Ha ->. destruct (held_frame _ _ _ _ _ _ _ _ Hm Hf) as (_ & _ & _ & _ & _ & Hk).
  destruct (so_image _ _ _ SO _ Ha) as (_ & _ & He). unfold PAGE_BYTES in He. lia.
Qed.

(** The calls on the identity map leave the pages of the spaces alone. *)
Lemma identity_others m s ns perm building p flags a k :
  machine_inv m s ns perm building → 0 ≤ p → a ∉ kernel_pages t0 →
  (set_identity_frame (mc_tables m) (mc_dynamic_used m) p flags).1.1 a k = mc_tables m a k.
Proof. intros Hm Hp Ha. eapply set_identity_frame_local; [apply SO|apply Hm|done|done]. Qed.

Lemma space_not_kernel m s ns perm building i :
  machine_inv m s ns perm building → ns_active (space_at m i) = true →
  (∀ p, nst_page i p ∉ kernel_pages t0) ∧ (∀ p, ns_service (space_at m i) = Some p → p ∉ kernel_pages t0).
Proof.
  intros Hm Hi. split.
  - intros p. eapply so_kernel; [exact SO|]. eapply active_slot; [by eapply mi_spaces|done].
  - intros p Hp Hk. eapply (arena_not_static p p); [by eapply mi_arena|by left|done].
Qed.

(** Sealing the next frame. *)
Lemma inv_seal m s ns perm b c f t used :
  machine_inv m s ns perm (Some (b, c)) → holds m b c f →
  seal_form_code_frame (mc_tables m) (mc_dynamic_used m) nxf f = (t, used, true) →
  machine_inv (m <| mc_tables := t |> <| mc_dynamic_used := used |>) s ns
    (<[f / PAGE := code_flags nx]> perm) (Some (b, S c)).
Proof.
  intros Hm Hf E. destruct (held_frame _ _ _ _ _ _ _ _ Hm Hf) as (n & -> & Hn & Hd & Hs & Hk).
  pose proof (λ i k, identity_others _ _ _ _ _ (n * PAGE_BYTES) (Z.lor PRESENT nxf) i k Hm ltac:(destruct Hs; lia)) as Ho.
  pose proof (λ i, space_not_kernel _ _ _ _ _ i Hm) as Hnk.
  pose proof Hm as [H1 H2 H3 H4 H5 H6 H7 H8 H9 H10 H11 H12 H13].
  pose proof (set_identity_frame_rep t0 (so_boot _ _ _ SO) nxf _ _ _ _ (n * PAGE_BYTES) (Z.lor PRESENT nxf) H1
    ltac:(destruct Hs; lia) (read_flags_ok _ nxf_flags)) as Hr.
  unfold seal_form_code_frame in E. rewrite E in Hr, Ho. cbn in Hr, Ho. destruct Hr as [_ Hr].
  pose proof (lr_disjoint _ _ (fo_rep _ _ H2)) as Hdis. rewrite Hd in *.
  constructor; try done.
  - intros i. by apply (slot_ok_ext m).
  - intros x Hx. rewrite fn_lookup_insert_ne; [by apply H9|]. intros ->. by apply (Hdis x).
  - intros i k x Hx. change (holds m i k x) in Hx. destruct (decide (x = n * PAGE_BYTES)) as [->|Hne].
    + destruct (H7 _ _ _ _ _ Hx Hf) as [-> ->]. rewrite Hd, fn_lookup_insert. unfold sealed. rewrite decide_True by done.
      by rewrite (proj2 (Nat.ltb_lt _ _)) by lia.
    + destruct (held_frame _ _ _ _ _ _ _ _ Hm Hx) as (n' & -> & _ & Hd' & _). rewrite Hd', fn_lookup_insert_ne by congruence.
      pose proof (H10 _ _ _ Hx) as Hp. rewrite Hd' in Hp. rewrite Hp. unfold sealed.
      destruct (decide (i = b)) as [->|]; [|done]. assert (k ≠ c).
      { intros ->. destruct Hx as (_ & Hx & _), Hf as (_ & Hf & _). congruence. }
      destruct (Nat.ltb_spec k c), (Nat.ltb_spec k (S c)); done || lia.
  - intros i Hi Hb. destruct (Hnk i Hi) as [K1 K2].
    eapply (space_tables_ext nx t0 m); [done|intros p k _; by apply Ho|intros p k Hp; by apply Ho, K2|by apply H11].
Qed.

Lemma seal_frames_inv b l : ∀ m s ns perm c,
  machine_inv m s ns perm (Some (b, c)) → (∀ k f, l !! k = Some f → holds m b (c + k) f) →
  let m' := (seal_frames nx l m).1 in
  ∃ perm' c', machine_inv m' s ns perm' (Some (b, c')) ∧ (c' ≤ c + length l)%nat ∧
    (∀ i, space_at m' i = space_at m i) ∧ (∀ a k, a ∉ kernel_pages t0 → mc_tables m' a k = mc_tables m a k) ∧
    mc_physical m' = mc_physical m ∧ ((seal_frames nx l m).2 = true → c' = (c + length l)%nat).
Proof.
  induction l as [|f l IH]; intros m s ns perm c Hm Hl; cbn.
  { exists perm, c. split_and!; try done; lia. }
  assert (holds m b c f) as Hf by (rewrite <- (Nat.add_0_r c); by apply Hl).
  destruct (held_frame _ _ _ _ _ _ _ _ Hm Hf) as (n & _ & _ & _ & [Hs _] & _).
  destruct (seal_form_code_frame (mc_tables m) (mc_dynamic_used m) nxf f) as [[t used] ok] eqn:E.
  pose proof (λ a k, identity_others _ _ _ _ _ f (Z.lor PRESENT nxf) a k Hm ltac:(lia)) as Ho.
  change (set_identity_frame _ _ _ _) with (seal_form_code_frame (mc_tables m) (mc_dynamic_used m) nxf f) in Ho.
  rewrite E in Ho. cbn in Ho. destruct ok.
  - destruct (IH _ _ _ _ _ (inv_seal _ _ _ _ _ _ _ _ _ Hm Hf E)) as (perm' & c' & H1 & H2 & H3 & H4 & H5 & H6).
    { intros k x Hx. replace (S c + k)%nat with (c + S k)%nat by lia. by apply Hl. }
    exists perm', c'. split_and!; try done; [lia| |intros Hok; rewrite (H6 Hok); lia].
    intros a k Ha. by rewrite H4 by done; apply Ho.
  - exists perm, c. split_and!; try done; [|lia]. pose proof (mi_map _ _ _ _ _ _ _ _ _ Hm) as H1.
    pose proof (set_identity_frame_rep t0 (so_boot _ _ _ SO) nxf _ _ _ _ f (Z.lor PRESENT nxf) H1
      ltac:(lia) (read_flags_ok _ nxf_flags)) as Hr.
    unfold seal_form_code_frame in E. rewrite E in Hr. destruct Hr as (-> & -> & _).
    by destruct m.
Qed.

(** Giving back a frame of the slot, whose page is data again. *)
Lemma inv_release m m' s s' ns perm perm' b c n :
  machine_inv m s ns perm (Some (b, c)) → n ∈ ls_leased s →
  frames_ok (ph_allocator (mc_physical m')) s' → s' = MkLeases ({[n]} ∪ ls_free s) (ls_leased s ∖ {[n]}) →
  map_rep t0 nxf 2048 ns (mc_dynamic_used m') (mc_tables m') perm' →
  perm' n = data_flags nxf → (∀ x, x ≠ n → perm' x = perm x) →
  length (mc_spaces m') = MAX_NATIVE_SPACES → kept b m m' → slot_ok m' b →
  (∀ index f, holds m' b index f ↔ holds m b index f ∧ f ≠ n * PAGE_BYTES) →
  (∃ index, holds m b index (n * PAGE_BYTES)) →
  machine_inv m' s' ns perm' (Some (b, c)).
Proof.
  intros Hm Hn Hf' Es' Hmap' Hpn Hpo Hl [Ho Ha Hsv Ht] Hs Hh [index0 H0].
  pose proof (λ i, space_not_kernel _ _ _ _ _ i Hm) as Hnk.
  pose proof (λ i k f, held_frame _ _ _ _ _ i k f Hm) as Hheld.
  destruct Hm as [H1 H2 H3 H4 H5 H6 H7 H8 H9 H10 H11 H12 H13]. subst s'.
  assert (∀ i index f, holds m' i index f ↔ holds m i index f ∧ f ≠ n * PAGE_BYTES) as Hh'.
  { intros i index f. destruct (decide (i = b)) as [->|Hi]; [apply Hh|].
    rewrite (holds_ext m m' i) by by apply Ho. split; [|by intros []]. intros Hf. split; [done|]. intros ->.
    by destruct (H7 _ _ _ _ _ Hf H0). }
  assert (∀ i, ns_service (space_at m' i) = ns_service (space_at m i)) as Hsv'.
  { intros i. destruct (decide (i = b)) as [->|Hi]; [done|by rewrite Ho]. }
  assert (∀ i, sealed m' (Some (b, c)) i = sealed m (Some (b, c)) i) as Hsl.
  { intros i. unfold sealed. destruct (decide (i = b)); [done|by rewrite Ho]. }
  constructor; try done; cbn [ls_free ls_leased].
  - intros x Hx. apply H3. set_solver +Hx Hn.
  - intros i. destruct (decide (i = b)) as [->|Hi]; [done|]. apply (slot_ok_ext m); [by apply Ho|done].
  - intros i index f [Hf Hne]%Hh'. destruct (H6 _ _ _ Hf) as (x & -> & Hx). exists x. split; [done|].
    apply elem_of_difference. split; [done|]. by intros ->%elem_of_singleton.
  - intros i j index index' f [Hf _]%Hh' [Hg _]%Hh'. by eapply H7.
  - intros x [Hx Hxn]%elem_of_difference. destruct (H8 x Hx) as (i & index & Hi). exists i, index. apply Hh'.
    split; [done|]. unfold PAGE_BYTES. apply not_elem_of_singleton in Hxn. lia.
  - intros x Hx. destruct (decide (x = n)) as [->|Hxn]; [done|]. rewrite Hpo by done. apply H9. set_solver +Hx Hxn.
  - intros i index f [Hf Hne]%Hh'. destruct (Hheld _ _ _ Hf) as (x & -> & _ & Hx & _).
    rewrite Hsl, Hx, Hpo by congruence. rewrite <- Hx. by rewrite (H10 _ _ _ Hf).
  - intros i Hi Hb. cbn in Hb. rewrite Ho in Hi by done. destruct (Hnk i Hi) as [K1 K2].
    eapply (space_tables_ext nx t0 m); [by apply Ho|intros p k _; by apply Ht|intros p k Hp; by apply Ht, K2|by apply H11].
  - intros i p Hp. rewrite Hsv' in Hp. by eapply H12.
  - intros i j p p' Hij Hp Hp'. rewrite Hsv' in Hp, Hp'. by apply (H13 i j).
Qed.

(** The kernel's page of a frame on release: data again, if it was sealed. *)
Lemma unseal_inv m s ns perm b c k f :
  machine_inv m s ns perm (Some (b, c)) → holds m b k f → (c ≤ ns_dynamic_code_len (space_at m b))%nat →
  let r := if (k <? ns_dynamic_code_len (space_at m b))%nat
           then unseal_form_frame (mc_tables m) (mc_dynamic_used m) nxf f
           else (mc_tables m, mc_dynamic_used m, true) in
  ∃ perm', map_rep t0 nxf 2048 ns r.1.2 r.1.1 perm' ∧ perm' (f / PAGE) = data_flags nxf ∧
    (∀ x, x ≠ f / PAGE → perm' x = perm x) ∧ ∀ a j, a ∉ kernel_pages t0 → r.1.1 a j = mc_tables m a j.
Proof.
  intros Hm Hf Hc r. destruct (held_frame _ _ _ _ _ _ _ _ Hm Hf) as (n & _ & _ & _ & Hs & _).
  pose proof (mi_map _ _ _ _ _ _ _ _ _ Hm) as H1.
  pose proof (λ a k, identity_others _ _ _ _ _ f (data_flags nxf) a k Hm ltac:(destruct Hs; lia)) as Ho.
  pose proof (set_identity_frame_rep t0 (so_boot _ _ _ SO) nxf _ _ _ _ f (data_flags nxf) H1
      ltac:(destruct Hs; lia) (write_flags_ok _ nxf_flags)) as Hr.
  unfold r, unseal_form_frame. change (Z.lor (Z.lor PRESENT WRITE) nxf) with (data_flags nxf).
  destruct (Nat.ltb_spec k (ns_dynamic_code_len (space_at m b))) as [Hk|Hk].
  - destruct (set_identity_frame (mc_tables m) (mc_dynamic_used m) f (data_flags nxf)) as [[t used] [|]]; cbn in *.
    + destruct Hr as [_ Hr]. exists (<[f / PAGE := data_flags nxf]> perm). split_and!; [done|by rewrite fn_lookup_insert| |done].
      intros x Hx. by rewrite fn_lookup_insert_ne by congruence.
    + destruct Hr as (-> & -> & [?|[_ Hp]]); [done|]. by exists perm.
  - exists perm. split_and!; try done. rewrite (mi_held _ _ _ _ _ _ _ _ _ Hm _ _ _ Hf). unfold sealed.
    rewrite decide_True by done. by rewrite (proj2 (Nat.ltb_ge _ _)) by lia.
Qed.

(** The record of the slot after a release, and the rest of the machine. *)
Lemma release_dynamic_frame_record m b k f :
  length (mc_spaces m) = MAX_NATIVE_SPACES → (b < MAX_NATIVE_SPACES)%nat → slot_ok m b →
  ns_dynamic_frames (space_at m b) !! k = Some f →
  let r := if (k <? ns_dynamic_code_len (space_at m b))%nat
           then unseal_form_frame (mc_tables m) (mc_dynamic_used m) nxf f
           else (mc_tables m, mc_dynamic_used m, true) in
  let g := λ space : NativeSpace, space <| ns_dynamic_frames := <[k := 0]> (ns_dynamic_frames space) |> in
  let m' := release_dynamic_frame nx b m k in
  m' = MkMachine (release_frame (mc_physical m) f).1 r.1.1 r.1.2 (alter g b (mc_spaces m)) ∧
  (∀ i, i ≠ b → space_at m' i = space_at m i) ∧ space_at m' b = g (space_at m b) ∧
  length (mc_spaces m') = MAX_NATIVE_SPACES ∧ slot_ok m' b ∧ ∀ j f, holds m' b j f ↔ holds m b j f ∧ j ≠ k.
Proof.
  intros Hl Hb [S1 S2 S3 S4 S5] Hf r g m'. pose proof (lookup_lt_Some _ _ _ Hf).
  assert (m' = MkMachine (release_frame (mc_physical m) f).1 r.1.1 r.1.2 (alter g b (mc_spaces m))) as Em.
  { unfold m', release_dynamic_frame, r. rewrite (nth_lookup_Some _ _ _ _ Hf).
    by destruct (k <? _)%nat; [destruct (unseal_form_frame _ _ _ _) as [[? ?] ?]|]. }
  assert (∀ i, space_at m' i = if decide (i = b) then g (space_at m b) else space_at m i) as Es.
  { intros i. rewrite Em. change (space_at _ i) with (space_at (update_space m b g) i) at 1.
    by rewrite space_at_update by lia. }
  assert (space_at m' b = g (space_at m b)) as Eb by by rewrite Es, decide_True.
  split_and!; [done|intros i Hi; by rewrite Es, decide_False|done|rewrite Em; cbn; by rewrite length_alter|..].
  { constructor; rewrite Eb; cbn; [by rewrite length_insert|done..]. }
  intros j x. unfold holds. rewrite Eb. cbn. destruct (decide (j = k)) as [->|Hjk].
  - rewrite list_lookup_insert_eq by done. naive_solver.
  - rewrite list_lookup_insert_ne by done. naive_solver.
Qed.

Lemma release_dynamic_frame_inv m s ns perm b c k :
  machine_inv m s ns perm (Some (b, c)) → (b < MAX_NATIVE_SPACES)%nat →
  (c ≤ ns_dynamic_code_len (space_at m b))%nat → (k < ns_dynamic_len (space_at m b))%nat →
  let m' := release_dynamic_frame nx b m k in
  ∃ s' perm', machine_inv m' s' ns perm' (Some (b, c)) ∧ kept b m m' ∧
    ns_dynamic_code_len (space_at m' b) = ns_dynamic_code_len (space_at m b) ∧
    ns_dynamic_len (space_at m' b) = ns_dynamic_len (space_at m b) ∧
    ∀ j f, holds m' b j f ↔ holds m b j f ∧ j ≠ k.
Proof.
  intros Hm Hb Hc Hk m'. pose proof (mi_slot _ _ _ _ _ _ _ _ _ Hm b) as Hs.
  destruct (lookup_lt_is_Some_2 (ns_dynamic_frames (space_at m b)) k) as [f Hf]; [destruct Hs; lia|].
  destruct (release_dynamic_frame_record m b k f (mi_spaces _ _ _ _ _ _ _ _ _ Hm) Hb Hs Hf) as (Em & Ho & Eb & Hl' & Hs' & Hh).
  fold m' in Em, Ho, Eb, Hl', Hs', Hh. destruct (decide (f = 0)) as [->|Hf0].
  - exists s, perm. assert (m' = update_space m b (λ space, space <| ns_dynamic_frames := <[k := 0]> (ns_dynamic_frames space) |>)) as Em'.
    { rewrite Em. by destruct (k <? _)%nat. }
    split_and!; [|constructor; [done|by rewrite Eb|by rewrite Eb|by rewrite Em']|by rewrite Eb|by rewrite Eb|done].
    apply (inv_update nx t0 kernel_end heap m); try done; [by rewrite Em'|by rewrite Em'|by rewrite Em'| |].
    + intros j x. rewrite Hh. split; [by intros []|]. intros Hx. split; [done|]. intros ->.
      destruct Hx as (_ & Hx & Hx0). congruence.
    + intros p. rewrite Eb. by eapply same_service.
  - assert (holds m b k f) as Hhk by done.
    destruct (held_frame _ _ _ _ _ _ _ _ Hm Hhk) as (n & -> & Hn & Hd & [Hp _] & _).
    destruct (unseal_inv _ _ _ _ _ _ _ _ Hm Hhk Hc) as (perm' & P1 & P2 & P3 & P4). rewrite Hd in P2, P3.
    destruct (release_frame_spec _ _ (n * PAGE_BYTES) (mi_frames _ _ _ _ _ _ _ _ _ Hm) ltac:(lia))
      as [(n' & ph & E & _ & Er & Hok & _)|[_ Hno]]; [|by destruct (Hno n Hn)].
    assert (n' = n) as -> by (unfold PAGE_BYTES in E; lia). rewrite Er in Em.
    assert (kept b m m') as Hkept by (constructor; [done|by rewrite Eb|by rewrite Eb|by rewrite Em]).
    exists (MkLeases ({[n]} ∪ ls_free s) (ls_leased s ∖ {[n]})), perm'.
    split_and!; [|done|by rewrite Eb|by rewrite Eb|done].
    eapply (inv_release m m' s); try done; [by rewrite Em|by rewrite Em| |by exists k].
    intros j x. rewrite Hh. split; intros [Hx Hne]; (split; [done|]).
    + intros ->. by destruct (mi_once _ _ _ _ _ _ _ _ _ Hm _ _ _ _ _ Hx Hhk).
    + intros ->. apply Hne. destruct Hx as (_ & Hx & _). congruence.
Qed.

Lemma release_fold_inv b c l : (b < MAX_NATIVE_SPACES)%nat → ∀ m s ns perm,
  machine_inv m s ns perm (Some (b, c)) → (c ≤ ns_dynamic_code_len (space_at m b))%nat →
  (∀ k, k ∈ l → (k < ns_dynamic_len (space_at m b))%nat) →
  let m' := fold_left (release_dynamic_frame nx b) l m in
  ∃ s' perm', machine_inv m' s' ns perm' (Some (b, c)) ∧ kept b m m' ∧
    ns_dynamic_len (space_at m' b) = ns_dynamic_len (space_at m b) ∧
    ∀ j f, holds m' b j f ↔ holds m b j f ∧ j ∉ l.
Proof.
  intros Hb. induction l as [|k l IH]; intros m s ns perm Hm Hc Hl; cbn.
  { exists s, perm. split_and!; [done|done|done|]. intros j f. set_solver. }
  destruct (release_dynamic_frame_inv _ _ _ _ _ _ k Hm Hb Hc) as (s1 & perm1 & H1 & H2 & H3 & H4 & H5); [apply Hl; left|].
  destruct (IH _ _ _ _ H1) as (s' & perm' & J1 & J2 & J3 & J4); [by rewrite H3|intros j Hj; rewrite H4; apply Hl; by right|].
  exists s', perm'. split_and!; [done|by eapply kept_trans|by rewrite J3|].
  intros j f. rewrite J4, H5, not_elem_of_cons. naive_solver.
Qed.

(** A change of the slot's record that keeps what it holds. *)
Lemma inv_record m s ns perm b c g :
  machine_inv m s ns perm (Some (b, c)) → (b < MAX_NATIVE_SPACES)%nat →
  let m' := update_space m b g in let r := g (space_at m b) in
  length (ns_dynamic_frames r) = Z.to_nat MAX_DYNAMIC_FRAMES →
  (ns_dynamic_code_len r ≤ ns_dynamic_len r ≤ Z.to_nat MAX_DYNAMIC_FRAMES)%nat →
  (ns_active r = false → ns_dynamic_len r = O ∧ ns_service r = None) → (ns_active r = true → ns_assigned r = true) →
  (∀ k f, holds m' b k f ↔ holds m b k f) → ns_service r = ns_service (space_at m b) ∨ ns_service r = None →
  machine_inv m' s ns perm (Some (b, c)) ∧ space_at m' b = r ∧ ∀ i, i ≠ b → space_at m' i = space_at m i.
Proof.
  intros Hm Hb m' r R1 R2 R3 R4 Hh Hsv. pose proof (mi_spaces _ _ _ _ _ _ _ _ _ Hm) as Hl.
  assert (space_at m' b = r) as Eb by (unfold m'; rewrite space_at_update by lia; by rewrite decide_True).
  assert (∀ i, i ≠ b → space_at m' i = space_at m i) as Ho.
  { intros i Hi. unfold m'. rewrite space_at_update by lia. by rewrite decide_False. }
  split_and!; [|done|done]. apply (inv_update nx t0 kernel_end heap m); try done.
  - unfold m', update_space. cbn. by rewrite length_alter.
  - constructor; rewrite Eb; try done; lia.
  - intros p. rewrite Eb. destruct Hsv as [->| ->]; [by eapply same_service|done].
Qed.

Lemma release_dynamic_frames_inv m s ns perm b c :
  machine_inv m s ns perm (Some (b, c)) → (b < MAX_NATIVE_SPACES)%nat → ns_service (space_at m b) = None →
  (c ≤ ns_dynamic_code_len (space_at m b))%nat →
  let m' := release_dynamic_frames nx b m in
  ∃ s' perm', machine_inv m' s' ns perm' (Some (b, c)) ∧ kept b m m' ∧ ns_dynamic_len (space_at m' b) = O ∧
    ns_dynamic_code_len (space_at m' b) = O.
Proof.
  intros Hm Hb Hsv Hc m'.
  destruct (release_fold_inv b c (seq 0 (ns_dynamic_len (space_at m b))) Hb _ _ _ _ Hm Hc) as (s' & perm' & H1 & H2 & H3 & H4).
  { intros k Hk%elem_of_seq. lia. }
  unfold release_dynamic_frames in m'.
  match type of m' with _ => match eval unfold m' in m' with update_space ?x b ?g => set (m1 := x) in *; set (g' := g) in * end end.
  assert (∀ k f, ¬ holds m1 b k f) as Hno.
  { intros k f [Hf Hk]%H4. apply Hk, elem_of_seq. destruct Hf as [Hf _]. lia. }
  assert (∀ k f, holds m' b k f ↔ holds m1 b k f) as Hh.
  { intros k f. split; [|by intros Hf%Hno]. intros [Hf _]. unfold m' in Hf. rewrite space_at_update in Hf;
      [|by rewrite (mi_spaces _ _ _ _ _ _ _ _ _ H1)]. rewrite decide_True in Hf by done. cbn in Hf. lia. }
  destruct (inv_record m1 s' ns perm' b c g') as (J1 & J2 & J3); try done.
  - apply (mi_slot _ _ _ _ _ _ _ _ _ H1 b).
  - cbn. lia.
  - cbn. by rewrite (kp_service _ _ _ H2), Hsv.
  - apply (mi_slot _ _ _ _ _ _ _ _ _ H1 b).
  - by left.
  - exists s', perm'. split_and!; [done| |by unfold m'; rewrite J2..].
    constructor; [|by unfold m'; rewrite J2; apply H2|by unfold m'; rewrite J2; apply H2|apply H2].
    intros i Hi. unfold m'. by rewrite J3, (kp_others _ _ _ H2).
Qed.

(** A slot that is idle again. *)
Lemma inv_close_idle m s ns perm b c :
  machine_inv m s ns perm (Some (b, c)) → ns_active (space_at m b) = false → machine_inv m s ns perm None.
Proof.
  intros [H1 H2 H3 H4 H5 H6 H7 H8 H9 H10 H11 H12 H13] Ha. destruct (sk_idle _ _ (H5 b) Ha) as [Hl _].
  constructor; try done.
  - intros i k f Hf. rewrite (H10 i k f Hf). unfold sealed. destruct (decide (i = b)) as [->|]; [|done].
    destruct Hf as [Hf _]. lia.
  - intros i Hi _. apply H11; [done|]. intros ->. congruence.
Qed.

Lemma deactivate_inv m s ns perm b c :
  machine_inv m s ns perm (Some (b, c)) → (b < MAX_NATIVE_SPACES)%nat → ns_dynamic_len (space_at m b) = O →
  ns_service (space_at m b) = None →
  let m' := update_space m b (λ space, space <| ns_active := false |>) in
  machine_inv m' s ns perm None ∧ ∀ i, i ≠ b → space_at m' i = space_at m i.
Proof.
  intros Hm Hb Hd Hsv m'.
  destruct (inv_record m s ns perm b c (λ space, space <| ns_active := false |>)) as (J1 & J2 & J3); try done.
  - apply (mi_slot _ _ _ _ _ _ _ _ _ Hm b).
  - cbn. pose proof (sk_code _ _ (mi_slot _ _ _ _ _ _ _ _ _ Hm b)). lia.
  - intros k f. unfold holds. rewrite space_at_update by by rewrite (mi_spaces _ _ _ _ _ _ _ _ _ Hm).
    by rewrite decide_True by done.
  - by left.
  - split; [|done]. eapply inv_close_idle; [done|]. unfold m'. by rewrite J2.
Qed.

Lemma reject_inv {A} m s ns perm b c error :
  machine_inv m s ns perm (Some (b, c)) → (b < MAX_NATIVE_SPACES)%nat → ns_service (space_at m b) = None →
  (c ≤ ns_dynamic_code_len (space_at m b))%nat →
  let m' := (reject_preparation (A := A) nx b m error).1 in
  ∃ s' perm', machine_inv m' s' ns perm' None ∧ ∀ i, i ≠ b → space_at m' i = space_at m i.
Proof.
  intros Hm Hb Hsv Hc m'.
  destruct (release_dynamic_frames_inv _ _ _ _ _ _ Hm Hb Hsv Hc) as (s' & perm' & H1 & H2 & H3 & _).
  unfold m', reject_preparation. cbn.
  exists s', perm'.
  match goal with |- context [update_space (?x <| mc_tables := ?t |>) b _] => set (m1 := x) in *; set (t' := t) end.
  assert (machine_inv (m1 <| mc_tables := t' |>) s' ns perm' (Some (b, c))) as H4.
  { apply inv_slot_tables; [done|done|]. intros a k Hp. unfold t'. by rewrite !write_table_other by apply Hp. }
  destruct (deactivate_inv _ _ _ _ _ _ H4 Hb) as [J1 J2]; [done|by rewrite <- Hsv; apply H2|].
  split; [done|]. intros i Hi. rewrite J2 by done. by apply H2.
Qed.

(** Reopening a space in use, to take it down. *)
Lemma inv_reopen m s ns perm b :
  machine_inv m s ns perm None → machine_inv m s ns perm (Some (b, ns_dynamic_code_len (space_at m b))).
Proof.
  intros [H1 H2 H3 H4 H5 H6 H7 H8 H9 H10 H11 H12 H13]. constructor; try done.
  - intros i k f Hf. rewrite (H10 i k f Hf). unfold sealed. by destruct (decide (i = b)) as [->|].
  - intros i Hi _. by apply H11.
Qed.

Lemma finish_inv m s ns perm prepared :
  machine_inv m s ns perm None → (pf_slot prepared < MAX_NATIVE_SPACES)%nat →
  ∃ s' perm', machine_inv (finish nx prepared m) s' ns perm' None.
Proof.
  intros Hm Hb. unfold finish. set (b := pf_slot prepared) in *.
  pose proof (inv_reopen _ _ _ _ b Hm) as Ho. pose proof (mi_slot _ _ _ _ _ _ _ _ _ Hm b) as [S1 S2 S3 S4 S5].
  set (c := ns_dynamic_code_len (space_at m b)) in *.
  destruct (inv_record m s ns perm b c (λ space, space <| ns_service := None |> <| ns_output := None |>)) as (J1 & J2 & J3);
    try done.
  - intros Ha. cbn in *. by destruct S4.
  - intros k f. unfold holds. rewrite space_at_update by by rewrite (mi_spaces _ _ _ _ _ _ _ _ _ Hm).
    by rewrite decide_True by done.
  - by right.
  - set (m1 := update_space m b _) in *.
    destruct (release_dynamic_frames_inv m1 s ns perm b c) as (s' & perm' & H1 & H2 & H3 & _); [done|done|by rewrite J2..|].
    exists s', perm'. apply (deactivate_inv _ _ _ _ _ _ H1); [done|done|]. rewrite (kp_service _ _ _ H2). by rewrite J2.
Qed.

End building.

(** ** Lemmas: the processor on the tables of a space *)

Section walk.
Context `{NativeStatics} (nx : bool) (t0 : Tables) (kernel_end : Z) (heap : Z * Z)
  (SO : statics_ok t0 kernel_end heap).

(** The last entry of the walk for a user address. *)
Definition user_leaf (m : Machine) (i : nat) (a : Z) : option Z :=
  if (a / 2 ^ 39 mod 512 =? 128) && (a / 2 ^ 30 mod 512 =? 0) then
    if a / 2 ^ 21 mod 512 =? 0 then Some (mc_tables m (nst_page i UserPt) (a / 2 ^ 12 mod 512))
    else if a / 2 ^ 21 mod 512 =? 1 then
      match ns_service (space_at m i) with Some b => Some (mc_tables m b (a / 2 ^ 12 mod 512)) | None => None end
    else None
  else None.

Definition leaf_access (e : Z) : option Access :=
  if Z.testbit e 0 then Some (MkAccess (Z.land e ADDRESS) (Z.testbit e 1) (Z.testbit e 2) (negb (Z.testbit e 63))) else None.

Lemma walk_kernel_half t root a acc :
  Z.testbit (t root (a / 2 ^ 39 mod 512)) 2 = false → walk t root a = Some acc → ac_user acc = false.
Proof. unfold walk. intros Hu E. repeat case_match; simplify_eq; unfold rights; cbn [ac_user forallb]; by rewrite Hu. Qed.

(** A walk over tables open to user mode is decided by its last entry. *)
Lemma walk_tables t root p3 p2 p1 a :
  page_address p3 → page_address p2 → page_address p1 →
  t root (a / 2 ^ 39 mod 512) = Z.lor p3 page_table_flags →
  t p3 (a / 2 ^ 30 mod 512) = Z.lor p2 page_table_flags →
  t p2 (a / 2 ^ 21 mod 512) = Z.lor p1 page_table_flags →
  walk t root a = leaf_access (t p1 (a / 2 ^ 12 mod 512)).
Proof.
  intros H3 H2 H1 E3 E2 E1. destruct (table_entry_user _ H3) as [(A0 & A1 & A2 & A63 & Aa) A7].
  destruct (table_entry_user _ H2) as [(B0 & B1 & B2 & B63 & Ba) B7].
  destruct (table_entry_user _ H1) as [(C0 & C1 & C2 & C63 & Ca) C7].
  unfold walk. rewrite E3, A0, Aa, E2, B0, B7, Ba, E1, C0, C7, Ca. cbn [negb]. unfold leaf_access.
  set (e := t p1 _). destruct (Z.testbit e 0); [|done]. unfold rights. cbn [forallb negb].
  rewrite A1, A2, A63, B1, B2, B63, C1, C2, C63. cbn [andb negb]. by rewrite !andb_true_r.
Qed.

Lemma walk_absent4 t root a : t root (a / 2 ^ 39 mod 512) = 0 → walk t root a = None.
Proof. intros E. unfold walk. by rewrite E. Qed.

Lemma walk_absent3 t root p3 a : page_address p3 →
  t root (a / 2 ^ 39 mod 512) = Z.lor p3 page_table_flags → t p3 (a / 2 ^ 30 mod 512) = 0 → walk t root a = None.
Proof. intros H3 E3 E2. destruct (table_entry_user _ H3) as [(A0 & _ & _ & _ & Aa) A7]. unfold walk. by rewrite E3, A0, Aa, E2. Qed.

Lemma walk_absent2 t root p3 p2 a : page_address p3 → page_address p2 →
  t root (a / 2 ^ 39 mod 512) = Z.lor p3 page_table_flags → t p3 (a / 2 ^ 30 mod 512) = Z.lor p2 page_table_flags →
  t p2 (a / 2 ^ 21 mod 512) = 0 → walk t root a = None.
Proof.
  intros H3 H2 E3 E2 E1. destruct (table_entry_user _ H3) as [(A0 & _ & _ & _ & Aa) A7].
  destruct (table_entry_user _ H2) as [(B0 & _ & _ & _ & Ba) B7]. unfold walk. by rewrite E3, A0, Aa, E2, B0, B7, Ba, E1.
Qed.

Lemma user_walk m i a :
  (i < MAX_NATIVE_SPACES)%nat → space_tables nx t0 m i →
  (∀ b, ns_service (space_at m i) = Some b → arena_in_heap heap b) → a / 2 ^ 39 mod 512 ≠ 0 →
  walk (mc_tables m) (nst_page i Pml4) a = match user_leaf m i a with Some e => leaf_access e | None => None end.
Proof.
  intros Hi [T4 T3 T2 _ _ _] Harena Hne. assert (∀ p, page_address (nst_page i p)) as Hpa.
  { intros p. apply (so_image _ _ _ SO). right. by exists i, p. }
  assert (∀ x, 0 ≤ x mod 512 < 512) as Hr by (intros x; by apply Z.mod_pos_bound).
  pose proof (T4 _ (Hr (a / 2 ^ 39))) as E4. pose proof (T3 _ (Hr (a / 2 ^ 30))) as E3. pose proof (T2 _ (Hr (a / 2 ^ 21))) as E2.
  rewrite (proj2 (Z.eqb_neq _ _) Hne) in E4. unfold user_leaf.
  destruct (_ / _ ^ 39 mod _ =? 128); [|by apply walk_absent4].
  destruct (_ / _ ^ 30 mod _ =? 0); [|by eapply walk_absent3]. cbn [andb].
  destruct (_ / _ ^ 21 mod _ =? 0); [by eapply walk_tables|].
  destruct (_ / _ ^ 21 mod _ =? 1); [|by eapply walk_absent2].
  destruct (ns_service (space_at m i)) as [b|]; [|by eapply walk_absent2].
  destruct (Harena b eq_refl) as [Hb _]. by apply (walk_tables _ _ (nst_page i UserPdpt) (nst_page i UserPd) b).
Qed.
End walk.
