(* ===== verification/FormPrepare.v ===== *)
(** * Preparing an address space

    [prepare] and [prepare_service] keep the invariant of the machine, and what the
    Form finds in its pages. *)

From stdpp Require Import prelude list gmap sets functions strings.
From Stdlib Require Import ZArith Lia.
From S2P Require Import Prelude Identity Bytes Capability Context Abi NativeImage Frames Paging ServiceImage FormSpace FormLoad FormMachine.

Set Default Goal Selector "!".
Open Scope Z_scope.
Open Scope expos_scope.

Section prepare.
Context `{NativeStatics} (nx : bool) (t0 : Tables) (kernel_end : Z) (heap : Z * Z)
  (SO : statics_ok t0 kernel_end heap).
Abbreviation machine_inv := (machine_inv nx t0 kernel_end heap).
Abbreviation nxf := (no_execute nx).
Implicit Types (m : Machine) (s : Leases) (perm : Z → Z).

(** A slot that has been claimed, with an empty user range. *)
Record opened (b : nat) m : Prop := {
  op_slot : (b < MAX_NATIVE_SPACES)%nat;
  op_linked : linked t0 (mc_tables m) b;
  op_pt : ∀ k, mc_tables m (nst_page b UserPt) k = 0;
  op_len : ns_dynamic_len (space_at m b) = O;
  op_code : ns_dynamic_code_len (space_at m b) = O;
  op_active : ns_active (space_at m b) = true;
  op_service : ns_service (space_at m b) = None;
  op_data : ns_data_physical (space_at m b) = nst_page b DataPage;
  op_virtual : ns_data_virtual (space_at m b) = RT_USER_DATA }.

(** A finished slot. *)
Lemma inv_close m s ns perm b :
  machine_inv m s ns perm (Some (b, ns_dynamic_code_len (space_at m b))) → space_tables nx t0 m b →
  machine_inv m s ns perm None.
Proof.
  intros [H1 H2 H3 H4 H5 H6 H7 H8 H9 H10 H11 H12 H13] Ht. constructor; try done.
  - intros i k f Hf. rewrite (H10 i k f Hf). unfold sealed. by destruct (decide (i = b)) as [->|].
  - intros i Hi _. destruct (decide (i = b)) as [->|]; [done|by apply H11].
Qed.

(** Bytes and entries of the slot's own table. *)
Lemma inv_load m s ns perm b c memory t :
  machine_inv m s ns perm (Some (b, c)) → (b < MAX_NATIVE_SPACES)%nat →
  (∀ a k, a ≠ nst_page b UserPt → t a k = mc_tables m a k) →
  machine_inv (m <| mc_physical := MkPhysical (ph_allocator (mc_physical m)) memory |> <| mc_tables := t |>) s ns perm (Some (b, c)).
Proof.
  intros Hm Hb Ht. apply (inv_slot_tables nx t0 kernel_end heap SO); [|done|by intros a k Ha; apply Ht].
  by apply (inv_memory nx t0 kernel_end heap m s ns perm _ (λ _, memory)).
Qed.

(** The user page table of a format 2 image. *)
Definition v2_entry (cp dp : Z) (frames : list Z) (k : Z) : Z :=
  if (V2_STACK_INDEX <=? k) && (k <? V2_STACK_INDEX + V2_STACK_PAGES)
  then data_entry nx (nth (Z.to_nat (cp + dp + V2_HEAP_PAGES + (k - V2_STACK_INDEX))) frames 0)
  else if (V2_HEAP_INDEX <=? k) && (k <? V2_HEAP_INDEX + V2_HEAP_PAGES)
  then data_entry nx (nth (Z.to_nat (cp + dp + (k - V2_HEAP_INDEX))) frames 0)
  else if (V2_DATA_INDEX <=? k) && (k <? V2_DATA_INDEX + dp)
  then data_entry nx (nth (Z.to_nat (cp + (k - V2_DATA_INDEX))) frames 0)
  else if (0 <=? k) && (k <? cp) then exec_entry (nth (Z.to_nat k) frames 0) else 0.

(** What the loading of a format 2 image writes. *)
Lemma v2_load b image m cp dp :
  Z.of_nat cp = div_ceil_page (Zlength (img_code image)) → (cp ≤ length (ns_dynamic_frames (space_at m b)))%nat →
  frames_apart (take cp (ns_dynamic_frames (space_at m b))) →
  let frames := ns_dynamic_frames (space_at m b) in
  let m3 := fold_left (load_code_page b (img_code image) frames) (seq 0 cp) m in
  let m4 := map_data_pages nx b frames V2_DATA_INDEX (Z.of_nat cp) dp m3 in
  let m5 := map_data_pages nx b frames V2_HEAP_INDEX (Z.of_nat cp + dp) V2_HEAP_PAGES m4 in
  let m6 := map_data_pages nx b frames V2_STACK_INDEX (Z.of_nat cp + dp + V2_HEAP_PAGES) V2_STACK_PAGES m5 in
  ∃ t memory, m6 = m <| mc_physical := MkPhysical (ph_allocator (mc_physical m)) memory |> <| mc_tables := t |> ∧
    (∀ a k, a ≠ nst_page b UserPt → t a k = mc_tables m a k) ∧
    (∀ k, mc_tables m (nst_page b UserPt) k = 0 → t (nst_page b UserPt) k = v2_entry (Z.of_nat cp) dp frames k) ∧
    loaded_at (take cp frames) 0 (img_code image) (ph_memory (mc_physical m)) memory.
Proof.
  intros Ecp Hle Hap frames m3 m4 m5 m6.
  destruct (load_code_fold b (img_code image) frames cp cp 0 m Ecp Hle Hap ltac:(lia)) as (t3 & memory & E3 & T3 & M3).
  destruct (map_data_pages_tables nx b frames V2_DATA_INDEX (Z.of_nat cp) dp m3) as (t4 & E4 & T4).
  destruct (map_data_pages_tables nx b frames V2_HEAP_INDEX (Z.of_nat cp + dp) V2_HEAP_PAGES m4) as (t5 & E5 & T5).
  destruct (map_data_pages_tables nx b frames V2_STACK_INDEX (Z.of_nat cp + dp + V2_HEAP_PAGES) V2_STACK_PAGES m5) as (t6 & E6 & T6).
  fold m3 in E3. fold m4 in E4. fold m5 in E5. fold m6 in E6. rewrite E5, E4, E3 in E6.
  rewrite E5 in T6. rewrite E4 in T5. rewrite E3 in T4. cbn in T4, T5, T6.
  exists t6, memory. split_and!; [by rewrite E6| | |done].
  - intros a k Ha. rewrite T6, T5, T4, T3. by rewrite (proj2 (Z.eqb_neq _ _) Ha).
  - intros k Hk. rewrite T6, T5, T4, T3, Z.eqb_refl, Hk. done.
Qed.

(** Frames that are held do not overlap. *)
Lemma held_apart m s ns perm building b j l :
  machine_inv m s ns perm building → (∀ k f, l !! k = Some f → holds m b (j + k) f) → frames_apart l.
Proof.
  intros Hm Hl i k f g Hf Hg Hne. destruct (held_frame nx t0 kernel_end heap _ _ _ _ _ _ _ _ Hm (Hl _ _ Hf)) as (n & -> & _).
  destruct (held_frame nx t0 kernel_end heap _ _ _ _ _ _ _ _ Hm (Hl _ _ Hg)) as (n' & -> & _).
  destruct (decide (n = n')) as [->|]; [|unfold PAGE_BYTES; lia].
  destruct (mi_once _ _ _ _ _ _ _ _ _ Hm _ _ _ _ _ (Hl _ _ Hf) (Hl _ _ Hg)). lia.
Qed.

(** A position of a slot whose frames are all there. *)
Lemma full_holds m b k f : full m b → (k < ns_dynamic_len (space_at m b))%nat →
  ns_dynamic_frames (space_at m b) !! k = Some f → holds m b k f.
Proof. intros Hfl Hk Hf. destruct (Hfl k Hk) as (g & Hg & E & Hz). split_and!; [done|done|congruence]. Qed.

Lemma full_nth m b k : full m b → (k < ns_dynamic_len (space_at m b))%nat →
  holds m b k (nth k (ns_dynamic_frames (space_at m b)) 0).
Proof. intros Hfl Hk. destruct (Hfl k Hk) as (g & Hg). pose proof Hg as (_ & E & _). by rewrite (nth_lookup_Some _ _ _ _ E). Qed.

(** The space of a format 2 image. *)
Section space.
Context (image : NativeImage).
Abbreviation cp := (Z.to_nat (div_ceil_page (Zlength (img_code image)))).
Abbreviation dp := (div_ceil_page (ABI_PAYLOAD_OFFSET + Zlength (img_data image) + img_zero_bytes image)).

Record v2_space (b : nat) m : Prop := {
  vs_linked : linked t0 (mc_tables m) b;
  vs_entry : ∀ k, mc_tables m (nst_page b UserPt) k = v2_entry (Z.of_nat cp) dp (ns_dynamic_frames (space_at m b)) k;
  vs_code_len : ns_dynamic_code_len (space_at m b) = cp;
  vs_len : Z.of_nat (ns_dynamic_len (space_at m b)) = Z.of_nat cp + dp + V2_HEAP_PAGES + V2_STACK_PAGES;
  vs_full : full m b;
  vs_service : ns_service (space_at m b) = None;
  vs_active : ns_active (space_at m b) = true;
  vs_data : ns_data_physical (space_at m b) = nth cp (ns_dynamic_frames (space_at m b)) 0;
  vs_virtual : ns_data_virtual (space_at m b) = USER_CODE + V2_DATA_INDEX * PAGE_BYTES;
  vs_code : ∀ pos, 0 ≤ pos < Z.of_nat cp * PAGE_BYTES →
    view (slice (ns_dynamic_frames (space_at m b)) 0 cp) (ph_memory (mc_physical m)) pos = nth (Z.to_nat pos) (img_code image) 0;
  vs_bytes : ∀ pos, 0 ≤ pos < dp * PAGE_BYTES →
    view (slice (ns_dynamic_frames (space_at m b)) cp (Z.to_nat dp)) (ph_memory (mc_physical m)) pos =
    if decide (ABI_PAYLOAD_OFFSET ≤ pos) then nth (Z.to_nat (pos - ABI_PAYLOAD_OFFSET)) (img_data image) 0 else 0;
  vs_zero : ∀ k o, (Z.to_nat (Z.of_nat cp + dp) ≤ k < ns_dynamic_len (space_at m b))%nat → 0 ≤ o < PAGE_BYTES →
    ph_memory (mc_physical m) (nth k (ns_dynamic_frames (space_at m b)) 0 + o) = 0 }.

(** Bytes of a held frame are outside the frames of other positions. *)
Lemma held_elsewhere m s ns perm building b j l k f o :
  machine_inv m s ns perm building → (∀ i g, l !! i = Some g → holds m b (j + i) g) → holds m b k f →
  ¬ (j ≤ k < j + length l)%nat → 0 ≤ o < PAGE_BYTES → elsewhere l (f + o).
Proof.
  intros Hm Hl Hf Hk Ho g [i Hg]%list_elem_of_lookup_1. pose proof (lookup_lt_Some _ _ _ Hg) as Hi.
  destruct (held_frame nx t0 kernel_end heap _ _ _ _ _ _ _ _ Hm Hf) as (n & -> & _).
  destruct (held_frame nx t0 kernel_end heap _ _ _ _ _ _ _ _ Hm (Hl _ _ Hg)) as (n' & -> & _).
  destruct (decide (n = n')) as [->|]; [|unfold PAGE_BYTES in *; lia].
  destruct (mi_once _ _ _ _ _ _ _ _ _ Hm _ _ _ _ _ Hf (Hl _ _ Hg)). lia.
Qed.

(** A stretch of the slot's frames. *)
Lemma stretch_holds m b j n i g : full m b → (j + n ≤ ns_dynamic_len (space_at m b))%nat →
  slice (ns_dynamic_frames (space_at m b)) j n !! i = Some g → holds m b (j + i) g.
Proof.
  intros Hfl Hn Hg. unfold slice in Hg. apply lookup_take_Some in Hg as [Hg Hi]. rewrite lookup_drop in Hg.
  apply full_holds; [done|lia|done].
Qed.

Lemma stretch_address m b j n pos : full m b → (j + n ≤ ns_dynamic_len (space_at m b))%nat → 0 ≤ pos < Z.of_nat n * PAGE_BYTES →
  byte_address (slice (ns_dynamic_frames (space_at m b)) j n) pos =
    nth (j + Z.to_nat (pos / PAGE_BYTES)) (ns_dynamic_frames (space_at m b)) 0 + pos mod PAGE_BYTES ∧
  (j ≤ j + Z.to_nat (pos / PAGE_BYTES) < j + n)%nat ∧ 0 ≤ pos mod PAGE_BYTES < PAGE_BYTES.
Proof.
  intros Hfl Hn Hp. assert (0 ≤ pos / PAGE_BYTES < Z.of_nat n) as Hd.
  { split; [apply Z.div_pos; [lia|done]|]. apply Z.div_lt_upper_bound; [done|]. unfold PAGE_BYTES in *. lia. }
  split_and!; [|lia|lia|by apply Z.mod_pos_bound..]. unfold byte_address. f_equal.
  unfold slice. rewrite !nth_lookup, lookup_take_lt, lookup_drop by lia. done.
Qed.

(** The machine once the leased frames are filled. *)
Definition v2_filled (b : nat) m : Machine :=
  let m := update_space m b (λ space, space <| ns_dynamic_code_len := cp |>) in
  let frames := ns_dynamic_frames (space_at m b) in
  let m := fold_left (load_code_page b (img_code image) frames) (seq 0 cp) m in
  let m := map_data_pages nx b frames V2_DATA_INDEX (Z.of_nat cp) dp m in
  let m := map_data_pages nx b frames V2_HEAP_INDEX (Z.of_nat cp + dp) V2_HEAP_PAGES m in
  let m := map_data_pages nx b frames V2_STACK_INDEX (Z.of_nat cp + dp + V2_HEAP_PAGES) V2_STACK_PAGES m in
  let m := update_space m b (λ space,
    space <| ns_data_physical := nth cp frames 0 |> <| ns_data_virtual := USER_CODE + V2_DATA_INDEX * PAGE_BYTES |>) in
  with_memory m (copy_to_frames (slice frames cp (Z.to_nat dp)) ABI_PAYLOAD_OFFSET (img_data image)).

Hypothesis Hz : 0 ≤ img_zero_bytes image.

Lemma pages_nonneg : 0 ≤ dp ∧ Z.of_nat cp = div_ceil_page (Zlength (img_code image)) ∧
  ABI_PAYLOAD_OFFSET + Zlength (img_data image) ≤ dp * PAGE_BYTES ∧ (0 < Z.to_nat dp)%nat.
Proof.
  pose proof (div_ceil_page_spec (ABI_PAYLOAD_OFFSET + Zlength (img_data image) + img_zero_bytes image)) as H1.
  pose proof (div_ceil_page_spec (Zlength (img_code image))) as H2. unfold Zlength, PAGE_BYTES, ABI_PAYLOAD_OFFSET in *. lia.
Qed.

(** The steps are changes of the record, of the slot's page table and of bytes. *)
Lemma v2_filled_inv b m s ns perm :
  machine_inv m s ns perm (Some (b, O)) → (b < MAX_NATIVE_SPACES)%nat → ns_active (space_at m b) = true →
  full m b → Z.of_nat (ns_dynamic_len (space_at m b)) = Z.of_nat cp + dp + V2_HEAP_PAGES + V2_STACK_PAGES →
  let m' := v2_filled b m in let frames := ns_dynamic_frames (space_at m b) in
  machine_inv m' s ns perm (Some (b, O)) ∧ (∀ i, i ≠ b → space_at m' i = space_at m i) ∧
  space_at m' b = (space_at m b) <| ns_dynamic_code_len := cp |> <| ns_data_physical := nth cp frames 0 |>
    <| ns_data_virtual := USER_CODE + V2_DATA_INDEX * PAGE_BYTES |> ∧
  (∀ a k, a ≠ nst_page b UserPt → mc_tables m' a k = mc_tables m a k) ∧
  (∀ k, mc_tables m (nst_page b UserPt) k = 0 →
     mc_tables m' (nst_page b UserPt) k = v2_entry (Z.of_nat cp) dp frames k) ∧
  ∃ memory, loaded_at (slice frames 0 cp) 0 (img_code image) (ph_memory (mc_physical m)) memory ∧
    ph_memory (mc_physical m') = copy_to_frames (slice frames cp (Z.to_nat dp)) ABI_PAYLOAD_OFFSET (img_data image) memory.
Proof.
  intros Hm Hb Ha Hfl Hlen. destruct pages_nonneg as (Hdp & Hcp & _).
  pose proof (mi_slot _ _ _ _ _ _ _ _ _ Hm b) as [S1 S2 S3 S4 S5]. pose proof (mi_spaces _ _ _ _ _ _ _ _ _ Hm) as Hl.
  unfold v2_filled.
  set (g := λ space : NativeSpace, space <| ns_dynamic_code_len := cp |>). set (m2 := update_space m b g).
  destruct (inv_record nx t0 kernel_end heap m s ns perm b O g) as (J1 & J2 & J3); try done.
  { cbn. unfold V2_HEAP_PAGES, V2_STACK_PAGES in *. lia. }
  { intros k f. unfold holds. rewrite space_at_update by lia. by rewrite decide_True. }
  { by left. }
  fold m2 in J1, J2, J3. rewrite J2. change (ns_dynamic_frames (g (space_at m b))) with (ns_dynamic_frames (space_at m b)).
  set (frames := ns_dynamic_frames (space_at m b)).
  destruct (v2_load b image m2 cp dp Hcp) as (t & memory & E & T1 & T2 & M).
  { rewrite J2. cbn. unfold V2_HEAP_PAGES, V2_STACK_PAGES in *. lia. }
  { rewrite J2. eapply (held_apart m _ _ _ _ b 0); [done|]. intros i f Hf.
    apply (stretch_holds m b 0 cp); [done|unfold V2_HEAP_PAGES, V2_STACK_PAGES in *; lia|done]. }
  rewrite J2 in E, T2, M. change (ns_dynamic_frames (g (space_at m b))) with frames in E, T2, M. cbn zeta in E.
  rewrite E. clear E.
  pose proof (inv_load m2 s ns perm b O memory t J1 Hb T1) as J4. set (m6 := m2 <| mc_physical := _ |> <| mc_tables := t |>) in *.
  set (h := λ space : NativeSpace, space <| ns_data_physical := nth cp frames 0 |> <| ns_data_virtual := _ |>).
  assert (∀ i, space_at m6 i = space_at m2 i) as E6 by done.
  destruct (inv_record nx t0 kernel_end heap m6 s ns perm b O h) as (K1 & K2 & K3); try done.
  { rewrite E6, J2. exact S1. }
  { rewrite E6, J2. cbn. unfold V2_HEAP_PAGES, V2_STACK_PAGES in *. lia. }
  { rewrite E6, J2. cbn. by rewrite Ha. }
  { rewrite E6, J2. exact S5. }
  { intros k f. unfold holds. rewrite space_at_update by (rewrite (mi_spaces _ _ _ _ _ _ _ _ _ J4); lia). by rewrite decide_True. }
  { by left. }
  split_and!.
  - by apply inv_memory.
  - intros i Hi. etransitivity; [by apply K3|]. rewrite E6. by apply J3.
  - etransitivity; [exact K2|]. by rewrite E6, J2.
  - exact T1.
  - exact T2.
  - by exists memory.
Qed.

Lemma linked_ext t t' b : (∀ p k, p ≠ UserPt → t' (nst_page b p) k = t (nst_page b p) k) → linked t0 t b → linked t0 t' b.
Proof. intros Ht [L1 L2 L3]. constructor; intros k Hk; rewrite Ht by done; [by apply L1|by apply L2|by apply L3]. Qed.

(** The bytes of the three parts of the frames. *)
Lemma v2_filled_bytes b m s ns perm memory memory' :
  machine_inv m s ns perm (Some (b, O)) → full m b → zeroed m b →
  Z.of_nat (ns_dynamic_len (space_at m b)) = Z.of_nat cp + dp + V2_HEAP_PAGES + V2_STACK_PAGES →
  let frames := ns_dynamic_frames (space_at m b) in
  loaded_at (slice frames 0 cp) 0 (img_code image) (ph_memory (mc_physical m)) memory →
  loaded_at (slice frames cp (Z.to_nat dp)) ABI_PAYLOAD_OFFSET (img_data image) memory memory' →
  (∀ pos, 0 ≤ pos < Z.of_nat cp * PAGE_BYTES → view (slice frames 0 cp) memory' pos = nth (Z.to_nat pos) (img_code image) 0) ∧
  (∀ pos, 0 ≤ pos < dp * PAGE_BYTES → view (slice frames cp (Z.to_nat dp)) memory' pos =
     if decide (ABI_PAYLOAD_OFFSET ≤ pos) then nth (Z.to_nat (pos - ABI_PAYLOAD_OFFSET)) (img_data image) 0 else 0) ∧
  (∀ k o, (Z.to_nat (Z.of_nat cp + dp) ≤ k < ns_dynamic_len (space_at m b))%nat → 0 ≤ o < PAGE_BYTES →
     memory' (nth k frames 0 + o) = 0).
Proof.
  intros Hm Hfl Hzero Hlen frames [C1 C2] [D1 D2]. destruct pages_nonneg as (Hdp & _ & _).
  unfold V2_HEAP_PAGES, V2_STACK_PAGES in Hlen.
  assert (length (slice frames 0 cp) = cp) as Lc.
  { unfold slice. rewrite length_take, length_drop. pose proof (mi_slot _ _ _ _ _ _ _ _ _ Hm b) as [S1 S2 S3 S4 S5]. unfold frames. lia. }
  assert (length (slice frames cp (Z.to_nat dp)) = Z.to_nat dp) as Ld.
  { unfold slice. rewrite length_take, length_drop. pose proof (mi_slot _ _ _ _ _ _ _ _ _ Hm b) as [S1 S2 S3 S4 S5]. unfold frames. lia. }
  assert (∀ k o, (k < ns_dynamic_len (space_at m b))%nat → ¬ (cp ≤ k < cp + Z.to_nat dp)%nat → 0 ≤ o < PAGE_BYTES →
    memory' (nth k frames 0 + o) = memory (nth k frames 0 + o)) as F1.
  { intros k o Hk Hn Ho. apply D2. eapply (held_elsewhere m _ _ _ _ b cp); [done| |by apply full_nth|by rewrite Ld|done].
    intros i g Hg. eapply (stretch_holds m b cp (Z.to_nat dp)); [done|lia|done]. }
  assert (∀ k o, (cp ≤ k < ns_dynamic_len (space_at m b))%nat → 0 ≤ o < PAGE_BYTES → memory (nth k frames 0 + o) = 0) as F2.
  { intros k o Hk Ho. rewrite C2; [eapply Hzero; [apply full_nth; [done|lia]|done]|].
    eapply (held_elsewhere m _ _ _ _ b 0); [done| |apply full_nth; [done|lia]|rewrite Lc; lia|done].
    intros i g Hg. eapply (stretch_holds m b 0 cp); [done|lia|done]. }
  split_and!.
  - intros pos Hp. destruct (stretch_address m b 0 cp pos Hfl ltac:(lia) Hp) as (Ea & Hk & Ho). fold frames in Ea.
    specialize (C1 pos). unfold view in *. rewrite Ea in *. rewrite F1 by lia. rewrite C1.
    + rewrite Z.sub_0_r, Z.add_0_l. destruct (decide (0 ≤ pos < Zlength (img_code image))) as [|Hout]; [done|].
      rewrite (nth_overflow (img_code image)); [|unfold Zlength in Hout; lia]. eapply Hzero; [apply full_nth; [done|lia]|done].
    + unfold view_bytes. by rewrite Lc.
  - intros pos Hp. destruct (stretch_address m b cp (Z.to_nat dp) pos Hfl ltac:(lia)) as (Ea & Hk & Ho); [by rewrite Z2Nat.id|].
    fold frames in Ea. specialize (D1 pos). unfold view in *. rewrite Ea in *. rewrite D1.
    + rewrite F2 by lia. repeat destruct (decide _); try lia; try done. by rewrite (nth_overflow (img_data image)) by (unfold Zlength in *; lia).
    + unfold view_bytes. by rewrite Ld, Z2Nat.id.
  - intros k o Hk Ho. rewrite F1, F2 by lia. done.
Qed.

Lemma v2_filled_space b m s ns perm :
  machine_inv m s ns perm (Some (b, O)) → (b < MAX_NATIVE_SPACES)%nat → ns_active (space_at m b) = true →
  ns_service (space_at m b) = None → linked t0 (mc_tables m) b → (∀ k, mc_tables m (nst_page b UserPt) k = 0) →
  full m b → zeroed m b →
  Z.of_nat (ns_dynamic_len (space_at m b)) = Z.of_nat cp + dp + V2_HEAP_PAGES + V2_STACK_PAGES →
  v2_space b (v2_filled b m).
Proof.
  intros Hm Hb Ha Hsv Hlk Hpt Hfl Hzero Hlen.
  destruct (v2_filled_inv b m s ns perm Hm Hb Ha Hfl Hlen) as (_ & _ & Eb & T1 & T2 & memory & M1 & M2).
  destruct pages_nonneg as (Hdp & _ & Hd & _).
  assert (frames_apart (slice (ns_dynamic_frames (space_at m b)) cp (Z.to_nat dp))) as Hap.
  { eapply (held_apart m _ _ _ _ b cp); [done|]. intros i f Hf. eapply stretch_holds; [done| |done].
    unfold V2_HEAP_PAGES, V2_STACK_PAGES in Hlen. lia. }
  destruct (v2_filled_bytes b m s ns perm memory (ph_memory (mc_physical (v2_filled b m))) Hm Hfl Hzero Hlen M1) as (B1 & B2 & B3).
  { rewrite M2. apply copy_to_frames_loaded; [done|done|]. unfold view_bytes, slice. rewrite length_take, length_drop.
    pose proof (mi_slot _ _ _ _ _ _ _ _ _ Hm b) as [S1 S2 S3 S4 S5]. unfold V2_HEAP_PAGES, V2_STACK_PAGES in Hlen.
    rewrite Nat.min_l by lia. rewrite Z2Nat.id by done. exact Hd. }
  constructor; rewrite ?Eb; try done.
  - apply (linked_ext (mc_tables m)); [|done]. intros p k Hp. apply T1. intros E.
    by apply (so_inj _ _ _ SO) in E as [_ ?].
  - intros k. by rewrite T2.
  - intros k Hk. rewrite Eb in Hk. destruct (Hfl k Hk) as [f Hf]. exists f. unfold holds. by rewrite Eb.
Qed.

(** What a format 2 image gets is its own. *)
Lemma v2_space_tables b m : v2_space b m → space_tables nx t0 m b.
Proof.
  intros [[L1 L2 L3] E Ec El Hfl Hsv Ha Hd Hv _ _ _]. destruct pages_nonneg as (Hdp & _ & _ & Hdp'). unfold V2_HEAP_PAGES, V2_STACK_PAGES in El.
  assert (∀ k, Z.of_nat cp ≤ k < Z.of_nat (ns_dynamic_len (space_at m b)) →
    leaf_ok nx m b (data_entry nx (nth (Z.to_nat k) (ns_dynamic_frames (space_at m b)) 0))) as Hleaf.
  { intros k Hk. right. right. eexists. split; [|done]. right. right. exists (Z.to_nat k). split; [rewrite Ec; lia|].
    apply full_nth; [done|lia]. }
  assert (∀ k, 0 ≤ k < Z.of_nat cp → leaf_ok nx m b (exec_entry (nth (Z.to_nat k) (ns_dynamic_frames (space_at m b)) 0))) as Hcode.
  { intros k Hk. right. left. eexists. split; [|done]. right. exists (Z.to_nat k). split; [rewrite Ec; lia|].
    apply full_nth; [done|lia]. }
  constructor; [done|done| | |by rewrite Hsv|].
  - intros k Hk. rewrite L3, Hsv by done. by destruct (k =? 0), (k =? 1).
  - intros k Hk. rewrite E. unfold v2_entry.
    repeat match goal with |- context [if (?x <=? ?y) && (?z <? ?w) then _ else _] =>
      destruct (Z.leb_spec x y), (Z.ltb_spec z w); cbn [andb] end;
    unfold V2_STACK_INDEX, V2_STACK_PAGES, V2_HEAP_PAGES, V2_HEAP_INDEX, V2_DATA_INDEX in *;
    first [apply Hleaf; lia|apply Hcode; lia|by left].
  - split.
    + rewrite Hd. right. right. exists cp. split; [lia|]. apply full_nth; [done|lia].
    + exists V2_DATA_INDEX. rewrite Hd, Hv, E. split_and!; [by right|done|]. unfold v2_entry.
      rewrite (proj2 (Z.ltb_lt V2_DATA_INDEX (V2_DATA_INDEX + dp))) by lia.
      change (V2_STACK_INDEX <=? V2_DATA_INDEX) with false. change (V2_HEAP_INDEX <=? V2_DATA_INDEX) with false.
      change (V2_DATA_INDEX <=? V2_DATA_INDEX) with true. cbn [andb].
      by replace (Z.to_nat (Z.of_nat cp + (V2_DATA_INDEX - V2_DATA_INDEX))) with cp by lia.
Qed.

Abbreviation total := (Z.of_nat cp + dp + V2_HEAP_PAGES + V2_STACK_PAGES).

Lemma prepare_v2_eq b m :
  prepare_v2 nx b image m =
    if (V2_CODE_PAGES <? Z.of_nat cp) || (V2_DATA_PAGES <? dp) || (MAX_DYNAMIC_FRAMES <? total)
    then reject_preparation nx b m (PrepInvalidImage ImgLength)
    else
      let (m, leased) := lease_frames b (Z.to_nat total) 0 m in
      if negb leased then reject_preparation nx b m PrepOutOfMemory
      else
        let frames := ns_dynamic_frames (space_at (update_space m b (λ space, space <| ns_dynamic_code_len := cp |>)) b) in
        let (m, sealed) := seal_frames nx (take cp frames) (v2_filled b m) in
        if negb sealed then reject_preparation nx b m PrepWxSeal
        else (m, Ok (USER_CODE + V2_DATA_INDEX * PAGE_BYTES,
                     USER_CODE + (V2_STACK_INDEX + V2_STACK_PAGES) * PAGE_BYTES - 16,
                     USER_CODE + V2_END_INDEX * PAGE_BYTES)).
Proof.
  destruct pages_nonneg as (_ & Hcp & _). unfold prepare_v2, v2_filled. set (n := cp) in *. rewrite <- Hcp.
  destruct (_ || _); [done|]. by destruct (lease_frames _ _ _ _) as [? []].
Qed.

(** The space depends on its record, its words and the memory. *)
Lemma v2_space_ext b m m' :
  space_at m' b = space_at m b → mc_physical m' = mc_physical m →
  (∀ p k, mc_tables m' (nst_page b p) k = mc_tables m (nst_page b p) k) → v2_space b m → v2_space b m'.
Proof.
  intros Es Ep Ht [V1 V2 V3 V4 V5 V6 V7 V8 V9 V10 V11]. constructor; rewrite ?Es, ?Ep; try done.
  - apply (linked_ext (mc_tables m)); [|done]. intros p k _. apply Ht.
  - intros k. by rewrite Ht.
  - intros k Hk. rewrite Es in Hk. destruct (V5 k Hk) as [f Hf]. exists f. by apply (holds_ext m).
Qed.

Definition v2_result (b : nat) m (r : result (Z * Z * Z) PrepareError) : Prop :=
  match r with
  | Ok v => v = (USER_CODE + V2_DATA_INDEX * PAGE_BYTES, USER_CODE + (V2_STACK_INDEX + V2_STACK_PAGES) * PAGE_BYTES - 16,
                 USER_CODE + V2_END_INDEX * PAGE_BYTES) ∧ v2_space b m
  | Err _ => True
  end.

Definition v2_outcome (b : nat) ns m (x : Machine * result (Z * Z * Z) PrepareError) : Prop :=
  ∃ s' perm', machine_inv x.1 s' ns perm' None ∧ (∀ i, i ≠ b → space_at x.1 i = space_at m i) ∧ v2_result b x.1 x.2.

Lemma v2_reject b m m1 s ns perm c error :
  machine_inv m1 s ns perm (Some (b, c)) → (b < MAX_NATIVE_SPACES)%nat → (c ≤ ns_dynamic_code_len (space_at m1 b))%nat →
  ns_service (space_at m1 b) = None → (∀ i, i ≠ b → space_at m1 i = space_at m i) →
  v2_outcome b ns m (reject_preparation nx b m1 error).
Proof.
  intros Hm1 Hb Hc Hs1 Ho.
  destruct (reject_inv nx t0 kernel_end heap SO (A := Z * Z * Z) m1 s ns perm b c error Hm1 Hb Hs1 Hc) as (s' & perm' & R1 & R2).
  exists s', perm'. split_and!; [done| |done]. intros i Hi. etransitivity; [by apply R2|by apply Ho].
Qed.

Lemma v2_seal b m m8 s ns perm :
  machine_inv m8 s ns perm (Some (b, O)) → (b < MAX_NATIVE_SPACES)%nat → v2_space b m8 →
  (∀ i, i ≠ b → space_at m8 i = space_at m i) →
  v2_outcome b ns m (let (m, sealed) := seal_frames nx (take cp (ns_dynamic_frames (space_at m8 b))) m8 in
    if negb sealed then reject_preparation nx b m PrepWxSeal
    else (m, Ok (USER_CODE + V2_DATA_INDEX * PAGE_BYTES,
                 USER_CODE + (V2_STACK_INDEX + V2_STACK_PAGES) * PAGE_BYTES - 16,
                 USER_CODE + V2_END_INDEX * PAGE_BYTES))).
Proof.
  intros Hm Hb Hv Ho. destruct (pages_nonneg) as (Hdp & _). pose proof (vs_len _ _ Hv) as Hlen.
  unfold V2_HEAP_PAGES, V2_STACK_PAGES in Hlen. set (l := take cp (ns_dynamic_frames (space_at m8 b))).
  assert (length l = cp) as El.
  { unfold l. rewrite length_take. pose proof (mi_slot _ _ _ _ _ _ _ _ _ Hm b) as [S1 S2 S3 S4 S5]. lia. }
  destruct (seal_frames_inv nx t0 kernel_end heap SO b l m8 s ns perm O Hm) as (perm' & c' & Q1 & Q2 & Q3 & Q4 & Q5 & Q6).
  { intros k f Hf. apply (stretch_holds m8 b 0 cp); [apply Hv|lia|exact Hf]. }
  destruct (seal_frames nx l m8) as [m9 [|]]; cbn [fst snd negb] in *; rewrite El in *.
  - assert (v2_space b m9) as Hv9.
    { apply (v2_space_ext b m8); [done|done| |done]. intros p k. apply Q4. by apply (so_kernel _ _ _ SO). }
    exists s, perm'. split_and!; [|intros i Hi; cbn; rewrite Q3; by apply Ho|done].
    apply (inv_close m9 s ns perm' b); [|by apply v2_space_tables]. rewrite (vs_code_len _ _ Hv9). by rewrite (Q6 eq_refl) in Q1.
  - eapply (v2_reject b m m9); [done|done|by rewrite Q3, (vs_code_len _ _ Hv)|by rewrite Q3, (vs_service _ _ Hv)|].
    intros i Hi. rewrite Q3. by apply Ho.
Qed.

Lemma prepare_v2_inv b m s ns perm :
  machine_inv m s ns perm (Some (b, O)) → opened b m → v2_outcome b ns m (prepare_v2 nx b image m).
Proof.
  intros Hm [Hb Hlk Hpt Hlen Hcode Ha Hsv Hdata]. destruct pages_nonneg as (Hdp & Hcp & _). rewrite prepare_v2_eq.
  destruct (_ || _) eqn:Eg; [by eapply (v2_reject b m m); [done|done|lia|done|done]|]. bools.
  destruct (lease_frames_inv nx t0 kernel_end heap SO b (Z.to_nat total) Hb 0 m s ns perm)
    as (s1 & L1 & L2 & L3 & L4 & L5 & L6 & L7); try done.
  { cbn. unfold MAX_DYNAMIC_FRAMES, V2_CODE_PAGES, V2_DATA_PAGES, V2_HEAP_PAGES, V2_STACK_PAGES in *. lia. }
  { intros k Hk. lia. }
  { intros k f o [Hk _]. lia. }
  destruct (lease_frames b (Z.to_nat total) 0 m) as [m1 [|]]; cbn [fst snd] in *.
  2: { eapply (v2_reject b m m1); [done|done|lia|by rewrite (kp_service _ _ _ _ L2)|apply L2]. }
  specialize (L7 eq_refl). cbn [negb].
  assert (ns_active (space_at m1 b) = true) as Ha1 by by rewrite (kp_active _ _ _ _ L2).
  assert (Z.of_nat (ns_dynamic_len (space_at m1 b)) = total) as Hlen1 by (rewrite L7; unfold V2_HEAP_PAGES, V2_STACK_PAGES; lia).
  destruct (v2_filled_inv b m1 s1 ns perm L1 Hb Ha1 L5 Hlen1) as (F1 & F2 & F3 & _).
  assert (v2_space b (v2_filled b m1)) as F4.
  { eapply v2_filled_space; try done; [by rewrite (kp_service _ _ _ _ L2)|by rewrite L3..]. }
  assert (ns_dynamic_frames (space_at (update_space m1 b (λ space, space <| ns_dynamic_code_len := cp |>)) b) =
    ns_dynamic_frames (space_at (v2_filled b m1) b)) as ->.
  { rewrite F3, space_at_update by by rewrite (mi_spaces _ _ _ _ _ _ _ _ _ L1). by rewrite decide_True. }
  eapply v2_seal; [done|done|done|]. intros i Hi. rewrite F2 by done. by apply L2.
Qed.
End space.

(** Pages at different addresses do not overlap. *)
Lemma pages_apart p q : page_address p → page_address q → p ≠ q → p + PAGE_BYTES ≤ q ∨ q + PAGE_BYTES ≤ p.
Proof.
  intros [_ Hp] [_ Hq] Hne. pose proof (Z.div_mod p PAGE ltac:(done)). pose proof (Z.div_mod q PAGE ltac:(done)).
  unfold PAGE, PAGE_BYTES in *. lia.
Qed.

Lemma slot_page_address i p : (i < MAX_NATIVE_SPACES)%nat → page_address (nst_page i p).
Proof. intros Hi. apply (so_image _ _ _ SO). right. by exists i, p. Qed.

Lemma slot_pages_apart b p q : (b < MAX_NATIVE_SPACES)%nat → p ≠ q →
  nst_page b p + PAGE_BYTES ≤ nst_page b q ∨ nst_page b q + PAGE_BYTES ≤ nst_page b p.
Proof.
  intros Hb Hpq. apply pages_apart; [by apply slot_page_address..|]. intros E. by apply (so_inj _ _ _ SO) in E as [_ ?].
Qed.

(** The static pages of a slot: breakpoints and zeros. *)
Definition fresh_pages (b : nat) (memory : Memory) : Prop :=
  ∀ o, 0 ≤ o < PAGE_BYTES → memory (nst_page b CodePage + o) = 204 ∧ memory (nst_page b DataPage + o) = 0 ∧
    memory (nst_page b StackPage + o) = 0.

Lemma fill_bytes_in memory a n v o : 0 ≤ o < n → fill_bytes memory a n v (a + o) = v.
Proof. intros Ho. unfold fill_bytes. by rewrite (proj2 (Z.leb_le _ _)), (proj2 (Z.ltb_lt _ _)) by lia. Qed.

Lemma fill_bytes_out memory a n v x : x < a ∨ a + n ≤ x → fill_bytes memory a n v x = memory x.
Proof. intros Hx. unfold fill_bytes. destruct (Z.leb_spec a x), (Z.ltb_spec x (a + n)); cbn; done || lia. Qed.

Lemma reset_fresh b form m : (b < MAX_NATIVE_SPACES)%nat →
  fresh_pages b (ph_memory (mc_physical (link_space b (reset_space b form m)))).
Proof.
  intros Hb o Ho. cbn. pose proof (slot_pages_apart b CodePage DataPage Hb ltac:(done)).
  pose proof (slot_pages_apart b CodePage StackPage Hb ltac:(done)). pose proof (slot_pages_apart b DataPage StackPage Hb ltac:(done)).
  split_and!.
  - rewrite !(fill_bytes_out _ (nst_page b StackPage)), (fill_bytes_out _ (nst_page b DataPage)) by lia. by apply fill_bytes_in.
  - rewrite !(fill_bytes_out _ (nst_page b StackPage)) by lia. by apply fill_bytes_in.
  - by apply fill_bytes_in.
Qed.

(** The slot that is chosen is idle. *)
Lemma find_space_idle m s ns perm building form b :
  machine_inv m s ns perm building → find_space (mc_spaces m) form = Some b →
  (b < MAX_NATIVE_SPACES)%nat ∧ ns_active (space_at m b) = false.
Proof.
  intros Hm E. pose proof (mi_spaces _ _ _ _ _ _ _ _ _ Hm) as Hl.
  assert (∃ x, mc_spaces m !! b = Some x ∧ (ns_active x = false ∨ ns_assigned x = false)) as (x & Hx & Hi).
  { unfold find_space in E. repeat case_match; simplify_eq;
      (match goal with Hp : position _ _ = Some _ |- _ => apply position_Some in Hp as (x & Hx & Ht) end); bools; eauto. }
  split; [rewrite <- Hl; by eapply lookup_lt_Some|].
  assert (space_at m b = x) as <- by (unfold space_at; by rewrite Hx). destruct Hi as [|Hi]; [done|].
  destruct (ns_active (space_at m b)) eqn:Ea; [|done]. pose proof (sk_assigned _ _ (mi_slot _ _ _ _ _ _ _ _ _ Hm b) Ea). congruence.
Qed.

Lemma claim_space m s ns perm form b :
  machine_inv m s ns perm None → find_space (mc_spaces m) form = Some b →
  let m' := link_space b (reset_space b form m) in
  machine_inv m' s ns perm (Some (b, O)) ∧ opened b m' ∧ (∀ i, i ≠ b → space_at m' i = space_at m i) ∧
  fresh_pages b (ph_memory (mc_physical m')) ∧ ns_active (space_at m b) = false.
Proof.
  intros Hm E m'. destruct (find_space_idle _ _ _ _ _ _ _ Hm E) as [Hb Hi].
  destruct (open_space nx t0 kernel_end heap SO m s ns perm b form Hm Hi Hb) as (O1 & O2 & O3 & O4 & O5 & _ & O6 & O7 & O8 & O9 & O10 & _).
  split_and!; [done|by constructor|done|by apply reset_fresh|done].
Qed.

(** The space of a format 1 image or a capsule. *)
Definition v1_entry (b : nat) (k : Z) : Z :=
  if k =? 3 then data_entry nx (nst_page b StackPage)
  else if k =? 1 then data_entry nx (nst_page b DataPage)
  else if k =? 0 then exec_entry (nst_page b CodePage) else 0.

Definition v1_payload (image : option NativeImage) (content : list Z) : list Z :=
  take (Z.to_nat (payload_len image content)) (payload_of image content).

Record v1_space (b : nat) (payload : list Z) m : Prop := {
  w1_linked : linked t0 (mc_tables m) b;
  w1_entry : ∀ k, mc_tables m (nst_page b UserPt) k = v1_entry b k;
  w1_code_len : ns_dynamic_code_len (space_at m b) = O;
  w1_service : ns_service (space_at m b) = None;
  w1_active : ns_active (space_at m b) = true;
  w1_data : ns_data_physical (space_at m b) = nst_page b DataPage;
  w1_virtual : ns_data_virtual (space_at m b) = RT_USER_DATA;
  w1_bytes : ∀ o, 0 ≤ o < PAGE_BYTES →
    ph_memory (mc_physical m) (nst_page b CodePage + o) = 204 ∧
    ph_memory (mc_physical m) (nst_page b DataPage + o) =
      (if decide (ABI_PAYLOAD_OFFSET ≤ o) then nth (Z.to_nat (o - ABI_PAYLOAD_OFFSET)) payload 0 else 0) ∧
    ph_memory (mc_physical m) (nst_page b StackPage + o) = 0 }.

Lemma v1_space_tables b payload m : v1_space b payload m → space_tables nx t0 m b.
Proof.
  intros [[L1 L2 L3] E Ec Hsv Ha Hd Hv _]. constructor; [done|done| | |by rewrite Hsv|].
  - intros k Hk. rewrite L3, Hsv by done. by destruct (k =? 0), (k =? 1).
  - intros k Hk. rewrite E. unfold v1_entry. destruct (k =? 3); [|destruct (k =? 1); [|destruct (k =? 0); [|by left]]].
    + right. right. eexists. split; [|done]. right. by left.
    + right. right. eexists. split; [|done]. by left.
    + right. left. eexists. split; [|done]. by left.
  - split; [rewrite Hd; by left|]. exists 1. rewrite Hd, Hv, E. auto.
Qed.

(** A short payload fits the data page. *)
Lemma v1_payload_length image content : Zlength (v1_payload image content) ≤ PAGE_BYTES - ABI_PAYLOAD_OFFSET.
Proof. unfold v1_payload, payload_len, Zlength, PAGE_BYTES, ABI_PAYLOAD_OFFSET. rewrite length_take. lia. Qed.

Lemma v1_poke_bytes b image content memory o :
  (b < MAX_NATIVE_SPACES)%nat → fresh_pages b memory → 0 ≤ o < PAGE_BYTES →
  let memory' := write_bytes memory (nst_page b DataPage + ABI_PAYLOAD_OFFSET) (v1_payload image content) in
  memory' (nst_page b CodePage + o) = 204 ∧
  memory' (nst_page b DataPage + o) =
    (if decide (ABI_PAYLOAD_OFFSET ≤ o) then nth (Z.to_nat (o - ABI_PAYLOAD_OFFSET)) (v1_payload image content) 0 else 0) ∧
  memory' (nst_page b StackPage + o) = 0.
Proof.
  intros Hb Hfr Ho memory'. destruct (Hfr o Ho) as (H1 & H2 & H3). pose proof (v1_payload_length image content) as Hl.
  pose proof (slot_pages_apart b CodePage DataPage Hb ltac:(done)). pose proof (slot_pages_apart b DataPage StackPage Hb ltac:(done)).
  unfold memory', ABI_PAYLOAD_OFFSET, PAGE_BYTES in *. split_and!; [by rewrite write_bytes_out by lia| |by rewrite write_bytes_out by lia].
  destruct (decide (256 ≤ o < 256 + Zlength (v1_payload image content))) as [Hin|Hout].
  - rewrite write_bytes_in, decide_True by lia. f_equal. lia.
  - rewrite write_bytes_out, H2 by lia. destruct (decide _); [|done]. rewrite nth_overflow; [done|]. unfold Zlength in *. lia.
Qed.

Lemma prepare_v1_inv b image content m s ns perm :
  machine_inv m s ns perm (Some (b, O)) → opened b m → fresh_pages b (ph_memory (mc_physical m)) →
  let m' := prepare_v1 nx b image content m in
  machine_inv m' s ns perm None ∧ v1_space b (v1_payload image content) m' ∧ ∀ i, space_at m' i = space_at m i.
Proof.
  intros Hm [Hb Hlk Hpt Hlen Hcode Ha Hsv Hdata Hvirt] Hfr m'.
  assert (v1_space b (v1_payload image content) m') as Hv.
  { constructor; try done.
    - apply (linked_ext (mc_tables m)); [|done]. intros p k Hp. cbn. rewrite !write_entry_other; [done|left..];
        intros E; by apply (so_inj _ _ _ SO) in E as [_ ?].
    - intros k. cbn. unfold write_entry, v1_entry, data_entry, exec_entry. rewrite Z.eqb_refl, Hpt. done.
    - intros o Ho. exact (v1_poke_bytes b image content _ o Hb Hfr Ho). }
  split_and!; [|done|done]. apply (inv_close m' s ns perm b); [|by eapply v1_space_tables].
  rewrite (w1_code_len _ _ _ Hv).
  refine (inv_load m s ns perm b O _ (mc_tables m') Hm Hb _). intros a k Hne. cbn. by rewrite !write_entry_other by (by left).
Qed.

(** What [classify] accepts. *)
Lemma classify_image content img :
  Forall byte_range content → classify nx content = Ok (Some img) → image_ok img ∧ nx = true.
Proof.
  unfold classify. intros Hc E. destruct (names_image content); [|done].
  destruct (NativeImage_parse content) as [i|e] eqn:Ei; [|done]. destruct nx; [|done]. cbn in E. simplify_eq.
  split; [by eapply parse_Ok_encode|done].
Qed.

(** A space that has been prepared, before the last bytes. *)
Definition prepared_space (b : nat) (image : option NativeImage) (content : list Z) m : Prop :=
  match image with
  | Some img => if img_format_version img =? 2 then v2_space img b m else v1_space b (v1_payload image content) m
  | None => v1_space b (v1_payload image content) m
  end.

Lemma prepared_service b image content m : prepared_space b image content m →
  ns_service (space_at m b) = None ∧ ns_active (space_at m b) = true.
Proof. unfold prepared_space. intros Hp. repeat case_match; split; apply Hp. Qed.

(** The request in the data page. *)
Definition log_request (form : Fin) (log_handle : FormHandle) (image : option NativeImage) (content : list Z) : list Z :=
  AbiRequest_bytes (MkAbiRequest FORM_ABI_VERSION (AbiCall_as_u16 Call_Log) form (fh_id log_handle)
    [ABI_PAYLOAD_OFFSET; payload_len image content; 0; 0; 0; 0]).

Lemma write_code_memory b image content handle m :
  ∃ f, write_code b image content handle m = with_memory m f.
Proof.
  assert (m = with_memory m id) as E by by destruct m as [[] ? ? ?].
  unfold write_code. destruct image as [img|]; [destruct (img_format_version img =? 1)|]; eexists; [done|exact E|done].
Qed.

(** The bounds are accepted, so the [expect] of [prepare] never fires. *)
Lemma confined_accepts b address_end : (b < MAX_NATIVE_SPACES)%nat → USER_CODE < address_end →
  AddressSpace_confined (nst_page b Pml4) USER_CODE address_end = Some (confined_space b address_end).
Proof.
  intros Hb He. unfold AddressSpace_confined. destruct (so_image _ _ _ SO (nst_page b Pml4)) as (_ & Hp & _); [right; eauto|].
  by rewrite (proj2 (Z.eqb_neq _ _)), (proj2 (Z.leb_gt _ _)) by lia.
Qed.

(** Where the data starts, the stack ends and the range ends. *)
Definition form_bounds (image : option NativeImage) : Z * Z * Z :=
  match image with
  | Some img =>
      if img_format_version img =? 2
      then (USER_CODE + V2_DATA_INDEX * PAGE_BYTES, USER_CODE + (V2_STACK_INDEX + V2_STACK_PAGES) * PAGE_BYTES - 16,
            USER_CODE + V2_END_INDEX * PAGE_BYTES)
      else (RT_USER_DATA, USER_STACK_TOP, USER_END)
  | None => (RT_USER_DATA, USER_STACK_TOP, USER_END)
  end.

(** The registers the Form starts with. *)
Definition start_frame (image : option NativeImage) (execute log : FormHandle) : TrapFrame :=
  let '(data, stack, _) := form_bounds image in
  TrapFrame_EMPTY <| tf_rip := USER_CODE + match image with Some img => img_entry img | None => 0 end |> <| tf_rdi := data |>
    <| tf_rsi := data + ABI_RESPONSE_OFFSET |> <| tf_rdx := fh_id execute |> <| tf_rcx := fh_id log |>
    <| tf_rflags := 514 |> <| tf_rsp := stack |>.

Lemma prepare_branch b image content m s ns perm :
  machine_inv m s ns perm (Some (b, O)) → opened b m → fresh_pages b (ph_memory (mc_physical m)) →
  (∀ img, image = Some img → image_ok img) →
  let (m1, r) :=
    match image with
    | Some img => if img_format_version img =? 2 then prepare_v2 nx b img m
                  else (prepare_v1 nx b image content m, Ok (RT_USER_DATA, USER_STACK_TOP, USER_END))
    | None => (prepare_v1 nx b image content m, Ok (RT_USER_DATA, USER_STACK_TOP, USER_END))
    end in
  ∃ s' perm', machine_inv m1 s' ns perm' None ∧ (∀ i, i ≠ b → space_at m1 i = space_at m i) ∧
    match r with Ok v => v = form_bounds image ∧ prepared_space b image content m1 | Err _ => True end.
Proof.
  intros Hm Ho Hfr Hok. destruct (prepare_v1_inv b image content m s ns perm Hm Ho Hfr) as (V1 & V2 & V3).
  unfold form_bounds, prepared_space. destruct image as [img|]; [destruct (img_format_version img =? 2)|].
  - destruct (prepare_v2_inv img (io_zero _ (Hok _ eq_refl)) b m s ns perm Hm Ho) as (s' & perm' & H1 & H2 & H3).
    destruct (prepare_v2 nx b img m) as [m1 r]. exists s', perm'. split_and!; [done|done|]. unfold v2_result in H3. by destruct r.
  - by exists s, perm.
  - by exists s, perm.
Qed.

Lemma prepare_spec form execute log content m s ns perm m' r :
  machine_inv m s ns perm None → Forall byte_range content → prepare nx form execute log content m = (m', r) →
  ∃ s' perm', machine_inv m' s' ns perm' None ∧
    match r with
    | Ok p => ∃ image m1, classify nx content = Ok image ∧ machine_inv m1 s' ns perm' None ∧
        (pf_slot p < MAX_NATIVE_SPACES)%nat ∧ prepared_space (pf_slot p) image content m1 ∧
        ns_active (space_at m (pf_slot p)) = false ∧ (∀ i, i ≠ pf_slot p → space_at m1 i = space_at m i) ∧
        p = MkPrepared (pf_slot p) (confined_space (pf_slot p) (form_bounds image).2) (start_frame image execute log) ∧
        m' = write_code (pf_slot p) image content (fh_id execute)
               (poke m1 (ns_data_physical (space_at m1 (pf_slot p))) (log_request form log image content))
    | Err _ => True
    end.
Proof.
  intros Hm Hc. unfold prepare. destruct (classify nx content) as [image|e] eqn:Ei; [|intros [= <- <-]; eauto].
  destruct (find_space (mc_spaces m) form) as [b|] eqn:Eb; [|intros [= <- <-]; eauto].
  destruct (claim_space m s ns perm form b Hm Eb) as (O1 & O2 & O3 & O4 & O5). set (m0 := link_space b (reset_space b form m)) in *.
  pose proof (op_slot _ _ O2) as Hb.
  assert (∀ img, image = Some img → image_ok img) as Hok by (intros img ->; by eapply classify_image).
  pose proof (prepare_branch b image content m0 s ns perm O1 O2 O4 Hok) as Hbr.
  destruct (match image with Some _ => _ | None => _ end) as [m1 [[[dv st] ae]|e]].
  2: { intros [= <- <-]. destruct Hbr as (s' & perm' & B1 & _). by exists s', perm'. }
  intros [= <- <-]. destruct Hbr as (s' & perm' & B1 & B2 & [Ev B3]). exists s', perm'. split.
  - destruct (write_code_memory b image content (fh_id execute)
      (poke m1 (ns_data_physical (space_at m1 b)) (log_request form log image content))) as [f Ef].
    refine (eq_ind_r (λ x, machine_inv x s' ns perm' None) _ Ef). by apply inv_memory, inv_memory.
  - exists image, m1. cbn [pf_slot]. split_and!; try done.
    + intros i Hi. rewrite B2 by done. by apply O3.
    + unfold start_frame. by rewrite <- Ev.
Qed.

(** ** Services *)

(** Every entry of a loaded arena maps a page of the arena. *)
Lemma arena_leaves elf input pointer t t' memory memory' k :
  Forall byte_range elf → elf_valid elf → arena_loaded elf input (elf_segments elf) pointer t t' memory memory' →
  arena_leaf pointer k (t' pointer k).
Proof.
  intros Hr Hv Hl. destruct (decide (Exists (λ sg, covers sg k) (elf_segments elf))) as [He|Hne].
  - apply Exists_exists in He as (sg & Hsg & Hcov). rewrite (ar_segment _ _ _ _ _ _ _ _ Hl _ _ Hsg Hcov). right. eexists.
    split; [|done]. destruct (valid_segments _ Hr Hv) as [Hf _]. destruct (Hf _ Hsg) as [[[->|[->| ->]]] _]; auto.
  - destruct (decide (input_page k)) as [Hi|Hi]; [|destruct (decide (stack_page k)) as [Hs|Hs]].
    + rewrite (ar_input _ _ _ _ _ _ _ _ Hl _ Hi). right. exists (segment_flags 4). auto.
    + rewrite (ar_stack _ _ _ _ _ _ _ _ Hl _ Hs). right. exists (segment_flags 6). auto.
    + left. apply (ar_unmapped _ _ _ _ _ _ _ _ Hl); [|done|done]. intros sg Hsg Hcov. apply Hne, Exists_exists. eauto.
Qed.

(** Loading an arena leaves the spaces alone. *)
Lemma load_inv m s ns perm pointer t memory :
  machine_inv m s ns perm None → heap_fresh heap m pointer →
  (∀ a k, a ≠ pointer → t a k = mc_tables m a k) →
  machine_inv (with_memory (m <| mc_tables := t |>) (λ _, memory)) s ns perm None.
Proof.
  intros Hm [Hh Hf] Ht. apply inv_memory. apply inv_tables; [apply SO|done|..].
  - intros a k Ha. apply Ht. eapply arena_not_static; [done|done|by left].
  - intros i p k Hi _ _. apply Ht. eapply arena_not_static; [done|done|]. apply static_slot.
    eapply active_slot; [by eapply mi_spaces|done].
  - intros i b k Hi _ Hb. apply Ht. intros ->. destruct (Hf _ _ Hb) as [?|?]; unfold ARENA_BYTES, PAGE_BYTES, MEMORY_BYTES in *; lia.
Qed.

(** The kernel admits a service as the capsule [native:spin]. *)
Lemma prepare_spin form execute log m :
  let content := lit "native:spin" in
  prepare nx form execute log content m =
    match find_space (mc_spaces m) form with
    | None => (m, Err PrepNoSlot)
    | Some b =>
        let m1 := prepare_v1 nx b None content (link_space b (reset_space b form m)) in
        (poke (poke m1 (ns_data_physical (space_at m1 b)) (log_request form log None content)) (nst_page b CodePage)
           (capsule_code content (fh_id execute)),
         Ok (MkPrepared b (confined_space b USER_END)
           (TrapFrame_EMPTY <| tf_rip := USER_CODE + 0 |> <| tf_rdi := RT_USER_DATA |>
              <| tf_rsi := RT_USER_DATA + ABI_RESPONSE_OFFSET |> <| tf_rdx := fh_id execute |>
              <| tf_rcx := fh_id log |> <| tf_rflags := 514 |> <| tf_rsp := USER_STACK_TOP |>)))
    end.
Proof. unfold prepare. replace (classify nx (lit "native:spin")) with (@Ok (option NativeImage) PrepareError None) by done. done. Qed.

Lemma attach_arena m s ns perm b pointer :
  machine_inv m s ns perm None → (b < MAX_NATIVE_SPACES)%nat → ns_active (space_at m b) = true →
  linked t0 (mc_tables m) b → heap_fresh heap m pointer →
  (∀ k, arena_leaf pointer k (mc_tables m pointer k)) →
  let t := write_entry (mc_tables m) (nst_page b UserPd) 1 (Z.lor pointer page_table_flags) in
  let t := write_entry t (nst_page b UserPt) 0 0 in
  let t := write_entry t (nst_page b UserPt) 2 0 in
  machine_inv (update_space (m <| mc_tables := t |>) b (λ space,
    space <| ns_service := Some pointer |> <| ns_output := Some empty_output |>)) s ns perm None.
Proof.
  intros Hm Hb Ha [L1 L2 L3] [Hh Hf] Hleaf t1 t2 t3.
  pose proof (st_pt _ _ _ _ (mi_tables _ _ _ _ _ _ _ _ _ Hm b Ha I)) as Hpt.
  pose proof (st_data _ _ _ _ (mi_tables _ _ _ _ _ _ _ _ _ Hm b Ha I)) as [Hdo (kd & Hkd & Hdv & Hde)]. pose proof (mi_spaces _ _ _ _ _ _ _ _ _ Hm) as Hl.
  set (g := λ space : NativeSpace, _). set (m1 := m <| mc_tables := t3 |>). set (m' := update_space m1 b g).
  assert (∀ a k, (∀ p, a ≠ nst_page b p) → mc_tables m1 a k = mc_tables m a k) as Ht.
  { intros a k Hp. cbn. unfold t3, t2, t1. by rewrite !write_entry_other by (left; apply Hp). }
  assert (∀ i, space_at m' i = if decide (i = b) then g (space_at m b) else space_at m i) as Es.
  { intros i. unfold m'. rewrite space_at_update by (cbn; lia). done. }
  assert (space_at m' b = g (space_at m b)) as Eb by by rewrite Es, decide_True.
  assert (∀ p, pointer ≠ nst_page b p) as Hptr.
  { intros p. apply not_eq_sym. eapply arena_not_static; [done|done|]. by apply static_slot. }
  assert (∀ p q, p ≠ q → nst_page b p ≠ nst_page b q) as Hpq by (intros p q; by apply (nst_page_ne t0 kernel_end heap SO)).
  assert (machine_inv m' s ns perm (Some (b, ns_dynamic_code_len (space_at m b)))) as Hi.
  { apply (inv_update nx t0 kernel_end heap m1); try done.
    - apply (inv_slot_tables nx t0 kernel_end heap SO m); [by apply inv_reopen|done|done].
    - unfold m', update_space. cbn. by rewrite length_alter.
    - intros i Hi. by rewrite Es, decide_False.
    - intros k f. unfold holds. by rewrite Eb.
    - destruct (mi_slot _ _ _ _ _ _ _ _ _ Hm b) as [S1 S2 S3 S4 S5]. constructor; rewrite Eb; try done. cbn. by rewrite Ha.
    - intros p. rewrite Eb. cbn. intros [= <-]. split; [done|]. intros i p' _. apply Hf. }
  assert (ns_dynamic_code_len (space_at m b) = ns_dynamic_code_len (space_at m' b)) as Ec' by by rewrite Eb.
  rewrite Ec' in Hi. apply (inv_close m' s ns perm b Hi).
  constructor; rewrite ?Eb; cbn [g ns_service].
  - intros k Hk. cbn. unfold t3, t2, t1. rewrite !write_entry_other by (left; by apply Hpq). by apply L1.
  - intros k Hk. cbn. unfold t3, t2, t1. rewrite !write_entry_other by (left; by apply Hpq). by apply L2.
  - intros k Hk. cbn. unfold t3, t2, t1. rewrite !(write_entry_other _ (nst_page b UserPt)) by (left; by apply Hpq).
    unfold write_entry. rewrite Z.eqb_refl. cbn [andb]. destruct (Z.eqb_spec k 1) as [->|]; [done|]. by apply L3.
  - intros k Hk. assert (leaf_ok nx m' b (mc_tables m (nst_page b UserPt) k)) as Hok.
    { unfold leaf_ok, code_owned, data_owned, holds in *. rewrite Eb. by apply Hpt. }
    cbn. unfold t3, t2, t1, write_entry. rewrite Z.eqb_refl, (proj2 (Z.eqb_neq _ _) (Hpq UserPt UserPd ltac:(done))). cbn [andb].
    destruct (k =? 2); [by left|]. destruct (k =? 0); [by left|done].
  - intros p k [= <-] Hk. change (mc_tables m') with (mc_tables m1). rewrite Ht by done. apply Hleaf.
  - unfold data_linked, data_owned, holds. rewrite Eb. split; [exact Hdo|]. exists kd. split_and!; [done|exact Hdv|].
    cbn. unfold t3, t2, t1, write_entry. rewrite Z.eqb_refl, (proj2 (Z.eqb_neq _ _) (Hpq UserPt UserPd ltac:(done))). cbn [andb].
    destruct Hkd as [->| ->]; exact Hde.
Qed.

(** The capsule of a service touches no tables but its slot's. *)
Lemma spin_inv form execute log m s ns perm b :
  machine_inv m s ns perm None → find_space (mc_spaces m) form = Some b →
  let content := lit "native:spin" in
  let m1 := prepare_v1 nx b None content (link_space b (reset_space b form m)) in
  let m2 := poke (poke m1 (ns_data_physical (space_at m1 b)) (log_request form log None content)) (nst_page b CodePage)
              (capsule_code content (fh_id execute)) in
  machine_inv m2 s ns perm None ∧ (b < MAX_NATIVE_SPACES)%nat ∧ v1_space b (v1_payload None content) m1 ∧
  (∀ i, space_at m2 i = space_at m1 i) ∧ mc_tables m2 = mc_tables m1 ∧ (∀ i, i ≠ b → space_at m1 i = space_at m i) ∧
  ∀ a k, (∀ p, a ≠ nst_page b p) → mc_tables m1 a k = mc_tables m a k.
Proof.
  intros Hm Eb content m1 m2. destruct (claim_space m s ns perm form b Hm Eb) as (O1 & O2 & O3 & O4 & O5).
  destruct (prepare_v1_inv b None content _ s ns perm O1 O2 O4) as (V1 & V2 & V3). pose proof (op_slot _ _ O2) as Hb.
  split_and!; try done.
  - by apply inv_memory, inv_memory.
  - intros a k Ha.
    destruct (link_space_tables nx t0 kernel_end heap SO m s ns perm b O form) as (_ & _ & Hfr); [|done|].
    { apply inv_open; [done|by eapply find_space_idle]. }
    rewrite <- Hfr by done. cbn -[link_space reset_space]. by rewrite !write_entry_other by (left; apply Ha).
Qed.

Lemma prepare_service_inv form execute log elf input network pointer m s ns perm m' r :
  machine_inv m s ns perm None → Forall byte_range elf → Zlength elf ≤ usize_max →
  (∀ p, pointer = Some p → heap_fresh heap m p) →
  prepare_service nx form execute log elf input network pointer m = (m', r) →
  ∃ s' perm', machine_inv m' s' ns perm' None ∧ match r with Ok p => (pf_slot p < MAX_NATIVE_SPACES)%nat | Err _ => True end.
Proof.
  intros Hm Hr Hl Hfresh. unfold prepare_service.
  destruct (Memory_load elf input pointer (mc_tables m) (ph_memory (mc_physical m))) as [[[q entry] [t memory]]|e] eqn:Eload;
    [|intros [= <- <-]; eauto].
  destruct pointer as [q'|]; [|unfold Memory_load in Eload; repeat case_match; simplify_eq].
  apply Memory_load_loaded in Eload as (-> & -> & Hv & Hload); [|done|done]. cbn [fst snd] in Hload.
  specialize (Hfresh _ eq_refl). pose proof (load_inv m s ns perm q' t memory Hm Hfresh (ar_tables _ _ _ _ _ _ _ _ Hload)) as H1.
  set (m1 := with_memory (m <| mc_tables := t |>) (λ _, memory)) in *.
  set (m2 := match network with Some _ => _ | None => _ end).
  assert (machine_inv m2 s ns perm None ∧ mc_tables m2 = t ∧ mc_spaces m2 = mc_spaces m) as (H2 & Et & Es).
  { unfold m2. destruct network as [h|]; [|done]. split_and!; [by apply inv_memory|done|done]. }
  rewrite prepare_spin. destruct (find_space (mc_spaces m2) form) as [b|] eqn:Eb.
  2: { intros [= <- <-]. eauto. }
  destruct (spin_inv form execute log m2 s ns perm b H2 Eb) as (P1 & P2 & P3 & P4 & P5 & P6 & P7).
  intros [= <- <-]. exists s, perm. split; [|done]. set (m4 := poke _ _ _) in *.
  apply (attach_arena m4 s ns perm b q'); try done.
  - rewrite P4. apply P3.
  - rewrite P5. apply P3.
  - destruct Hfresh as [F1 F2]. split; [done|]. intros i p Hp. rewrite P4 in Hp. destruct (decide (i = b)) as [->|Hi].
    + rewrite (w1_service _ _ _ P3) in Hp. done.
    + rewrite P6 in Hp by done. unfold space_at in Hp. rewrite Es in Hp. by eapply F2.
  - intros k. rewrite P5, P7, Et; [by eapply arena_leaves|]. intros p. apply not_eq_sym.
    eapply arena_not_static; [done|apply Hfresh|]. by apply static_slot.
Qed.
End prepare.
