(* ===== verification/FormIsolation.v ===== *)
(** * Isolation of native address spaces

    The machine from boot on: Forms and services are prepared, run, and are finished
    in any order.  A running Form may store to any address the processor lets it
    write, and a store into a page table would change the translation.

    The theorem is that it never can: what a Form reaches from Ring 3 is its own,
    writable or executable but not both, no page table, and no frame is lost. *)

From stdpp Require Import prelude list gmap sets functions strings.
From Stdlib Require Import ZArith Lia.
From S2P Require Import Prelude Identity Bytes Capability Context Abi NativeImage Frames Paging ServiceImage FormSpace FormLoad FormMachine FormPrepare.

Set Default Goal Selector "!".
Open Scope Z_scope.
Open Scope expos_scope.

(** ** Specification: runs of the machine *)

Section runs.
Context `{NativeStatics} (nx : bool) (t0 : Tables) (kernel_end : Z) (heap : Z * Z).

(** The kernel after [memory::initialize] and [paging::initialize], and after the
    other processors have been started if there are any. *)
Record boots (layout : Layout) (usable handoff : list (Z * Z)) (m : Machine) : Prop := {
  bo_usable : Forall region_ok usable;
  bo_handoff : Forall region_ok handoff;
  bo_sections : 0x9000 ≤ kernel_end ∧ ly_text_end layout ≤ kernel_end ∧ ly_rodata_end layout ≤ kernel_end;
  bo_frames : ph_allocator (mc_physical m) = initialize_frames usable handoff kernel_end Allocator_new;
  bo_tables : ∃ t used, initialize_paging layout (no_execute nx) t0 = Returns (t, used) ∧
    (mc_tables m = t ∨ mc_tables m = seal_ap_trampoline t);
  bo_unused : mc_dynamic_used m = O;
  bo_spaces : mc_spaces m = replicate MAX_NATIVE_SPACES NativeSpace_empty }.

(** An access from Ring 3 in the space of slot [i]. *)
Definition user_access (m : Machine) (i : nat) (a : Z) (acc : Access) : Prop :=
  ns_active (space_at m i) = true ∧ 0 ≤ a ∧ walk (mc_tables m) (nst_page i Pml4) a = Some acc ∧ ac_user acc = true.

(** The kernel's operations, the bytes and replies it writes for a running Form, and
    stores of running Forms: those change bytes, and every word of a table the page
    might be. *)
Inductive machine_step (m : Machine) : Machine → Prop :=
  | step_prepare form execute log content m' r :
      Forall byte_range content → prepare nx form execute log content m = (m', r) → machine_step m m'
  | step_service form execute reply elf input network pointer m' r :
      Forall byte_range elf → Zlength elf ≤ usize_max → (∀ p, pointer = Some p → heap_fresh heap m p) →
      prepare_service nx form execute reply elf input network pointer m = (m', r) → machine_step m m'
  | step_finish prepared : (pf_slot prepared < MAX_NATIVE_SPACES)%nat → machine_step m (finish nx prepared m)
  | step_capture prepared : machine_step m (capture_output prepared m)
  | step_output prepared : machine_step m (take_service_output prepared m).1
  | step_reply i output : machine_step m (update_space m i (λ space, space <| ns_output := output |>))
  | step_bytes f : machine_step m (with_memory m f)
  | step_store i a acc f t :
      user_access m i a acc → ac_write acc = true → (∀ b k, b ≠ ac_page acc → t b k = mc_tables m b k) →
      machine_step m (with_memory (m <| mc_tables := t |>) f).

(** The pages that hold page tables. *)
Definition table_page (m : Machine) (p : Z) : Prop :=
  p ∈ kernel_pages t0 ∨ (∃ i q, (i < MAX_NATIVE_SPACES)%nat ∧ is_table q ∧ p = nst_page i q) ∨
  ∃ i, ns_service (space_at m i) = Some p.

(** What keeps the spaces apart. *)
Record isolated (m : Machine) : Prop := {
  is_owned : ∀ i a acc, user_access m i a acc → owned m i (ac_page acc);
  is_private : ∀ i j a a' acc acc', user_access m i a acc → user_access m j a' acc' → i ≠ j → ac_page acc ≠ ac_page acc';
  is_tables : ∀ i a acc, user_access m i a acc → ¬ table_page m (ac_page acc);
  is_wx : ∀ i a acc, user_access m i a acc → nx = true → ac_write acc = true → ac_execute acc = false;
  is_sealed : ∀ i k f, holds m i k f → (k < ns_dynamic_code_len (space_at m i))%nat →
    ∃ acc, walk (mc_tables m) kt_root f = Some acc ∧ ac_page acc = f ∧ ac_write acc = false;
  is_frames : ∀ n, 0 ≤ n < FRAME_COUNT →
    bit_set (al_leased (ph_allocator (mc_physical m))) n = true ↔
    ∃ i k, ns_active (space_at m i) = true ∧ holds m i k (n * PAGE_BYTES) }.
End runs.

(** ** Lemmas: what a space owns *)

Section isolation.
Context `{NativeStatics} (nx : bool) (t0 : Tables) (kernel_end : Z) (heap : Z * Z)
  (SO : statics_ok t0 kernel_end heap).
Abbreviation machine_inv := (machine_inv nx t0 kernel_end heap).
Abbreviation nxf := (no_execute nx).
Implicit Types (m : Machine) (s : Leases) (perm : Z → Z).

(** The three kinds of pages. *)
Lemma owned_kinds m i p : owned m i p →
  (∃ q, ¬ is_table q ∧ p = nst_page i q) ∨ (∃ k, holds m i k p) ∨ arena_owned m i p.
Proof.
  intros [[->|(k & _ & Hk)]|[[->|[->|(k & _ & Hk)]]|Ha]].
  - left. exists CodePage. split; [|done]. unfold is_table. naive_solver.
  - right. left. by exists k.
  - left. exists DataPage. split; [|done]. unfold is_table. naive_solver.
  - left. exists StackPage. split; [|done]. unfold is_table. naive_solver.
  - right. left. by exists k.
  - by right; right.
Qed.

Section inv.
Context m s ns perm (Hm : machine_inv m s ns perm None).

Lemma held_slot i k f : holds m i k f → (i < MAX_NATIVE_SPACES)%nat ∧ ns_active (space_at m i) = true.
Proof.
  intros Hf. destruct (ns_active (space_at m i)) eqn:Ea.
  - split; [|done]. eapply active_slot; [apply Hm|done].
  - destruct (sk_idle _ _ (mi_slot _ _ _ _ _ _ _ _ _ Hm i) Ea) as [Hl _]. destruct Hf as [Hf _]. lia.
Qed.

(** Frames lie above the kernel, arenas inside it. *)
Lemma held_above i k f : holds m i k f → kernel_end ≤ f.
Proof. intros Hf. by destruct (held_frame _ _ _ _ _ _ _ _ _ _ _ _ Hm Hf) as (_ & _ & _ & _ & _ & ?). Qed.

Lemma arena_page_below i p : arena_owned m i p → ∃ b k, ns_service (space_at m i) = Some b ∧ arena_in_heap heap b ∧
  0 ≤ k < 512 ∧ p = b + (k + 1) * PAGE_BYTES ∧ p + PAGE_BYTES ≤ kernel_end.
Proof.
  intros (b & k & Hb & Hk & ->). exists b, k. pose proof (mi_arena _ _ _ _ _ _ _ _ _ Hm _ _ Hb) as Ha.
  split_and!; [done|done|lia|lia|unfold arena_bytes, PAGE_BYTES; lia|]. destruct Ha as (_ & _ & Ha).
  pose proof (so_end _ _ _ SO). unfold arena_bytes, ARENA_BYTES, PAGE_BYTES, MEMORY_BYTES in *. lia.
Qed.

Lemma held_static i k a : holds m i k a → ¬ static_page t0 a.
Proof. intros Hk Ha. by apply (held_not_static nx t0 kernel_end heap SO m s ns perm None i k a a Hm). Qed.

Lemma arena_page_static i a : arena_owned m i a → ¬ static_page t0 a.
Proof.
  intros (b & k & _ & Hb & Hk & -> & _)%arena_page_below Ha.
  apply (arena_static t0 kernel_end heap SO b _ ((k + 1) * PAGE_BYTES) Hb Ha); [|done].
  unfold ARENA_BYTES, PAGE_BYTES, MEMORY_BYTES. lia.
Qed.

Lemma held_not_arena i k j p : holds m i k p → ¬ arena_owned m j p.
Proof. intros Hk%held_above (b & k' & _ & _ & _ & _ & Hp)%arena_page_below. unfold PAGE_BYTES in *. lia. Qed.

Lemma owned_apart i j p : (i < MAX_NATIVE_SPACES)%nat → (j < MAX_NATIVE_SPACES)%nat → i ≠ j → owned m i p → ¬ owned m j p.
Proof.
  intros Hi Hj Hij Hp Hp'.
  apply owned_kinds in Hp as [(q & _ & ->)|[(k & Hk)|Ha]]; apply owned_kinds in Hp' as [(q' & _ & E)|[(k' & Hk')|Ha']].
  - by apply (so_inj _ _ _ SO) in E as [? _].
  - by eapply held_static, static_slot.
  - by eapply arena_page_static, static_slot.
  - subst p. by eapply (held_static i), (static_slot t0 j).
  - by destruct (mi_once _ _ _ _ _ _ _ _ _ Hm _ _ _ _ _ Hk Hk').
  - by eapply held_not_arena.
  - subst p. by eapply (arena_page_static i), (static_slot t0 j).
  - by eapply held_not_arena.
  - apply arena_page_below in Ha as (b & k & Hb & _ & Hk & -> & _). apply arena_page_below in Ha' as (b' & k' & Hb' & _ & Hk' & E & _).
    destruct (mi_apart _ _ _ _ _ _ _ _ _ Hm i j b b' Hij Hb Hb'); unfold ARENA_BYTES, PAGE_BYTES, MEMORY_BYTES in *; lia.
Qed.

Lemma owned_not_table i p : (i < MAX_NATIVE_SPACES)%nat → owned m i p → ¬ table_page t0 m p.
Proof.
  intros Hi Hp Ht.
  apply owned_kinds in Hp as [(q & Hq & ->)|Hp].
  - destruct Ht as [Ht|[(j & q' & Hj & Hq' & E)|(j & Hj)]].
    + by eapply so_kernel.
    + by apply (so_inj _ _ _ SO) in E as [_ ->].
    + by eapply (arena_not_static t0 kernel_end heap SO (nst_page i q)); [eapply mi_arena|apply static_slot|].
  - assert (¬ static_page t0 p) as Hs by (destruct Hp as [(k & Hk)|Ha]; [by eapply held_static|by eapply arena_page_static]).
    destruct Ht as [Ht|[(j & q' & Hj & Hq' & ->)|(j & Hj)]]; [by apply Hs; left|by apply Hs, static_slot|].
    pose proof (mi_arena _ _ _ _ _ _ _ _ _ Hm _ _ Hj) as (_ & _ & Hje). pose proof (so_end _ _ _ SO).
    destruct Hp as [(k & Hk%held_above)|(b & k & Hb & Hh & Hk & -> & _)%arena_page_below].
    + unfold ARENA_BYTES, PAGE_BYTES, MEMORY_BYTES in *. lia.
    + destruct (decide (i = j)) as [->|Hij].
      * rewrite Hj in Hb. simplify_eq. unfold PAGE_BYTES in *. lia.
      * destruct (mi_apart _ _ _ _ _ _ _ _ _ Hm _ _ _ _ Hij Hb Hj); unfold ARENA_BYTES, PAGE_BYTES, MEMORY_BYTES in *; lia.
Qed.

(** Addresses an entry can hold. *)
Lemma owned_address i p : (i < MAX_NATIVE_SPACES)%nat → owned m i p → page_address p.
Proof.
  intros Hi [(q & _ & ->)|[(k & Hk)|Ha]]%owned_kinds.
  - by eapply slot_page_address.
  - destruct (held_frame _ _ _ _ _ _ _ _ _ _ _ _ Hm Hk) as (_ & _ & _ & _ & [? ?] & _). split; [lia|done].
  - apply arena_page_below in Ha as (b & k & _ & ([Hb1 Hb2] & _ & _) & Hk & -> & Hbe). pose proof (so_end _ _ _ SO) as He.
    split; [unfold MAX_PHYSICAL_BYTES, PAGE_BYTES in *; lia|]. change PAGE_BYTES with PAGE. rewrite Z.mod_add by done. done.
Qed.

(** The leaves a space can have. *)
Lemma leaf_user i a e acc :
  ns_active (space_at m i) = true → user_leaf m i a = Some e → leaf_access e = Some acc →
  ∃ p w x, owned m i p ∧ acc = MkAccess p w true x ∧ (nx = true → w = true → x = false).
Proof.
  intros Ha El Eacc. pose proof (active_slot m i (mi_spaces _ _ _ _ _ _ _ _ _ Hm) Ha) as Hi.
  pose proof (mi_tables _ _ _ _ _ _ _ _ _ Hm i Ha I) as Ht.
  assert (∀ p w x, owned m i p → (nx = true → w = true → x = false) → user_entry e p w x →
    ∃ p w x, owned m i p ∧ acc = MkAccess p w true x ∧ (nx = true → w = true → x = false)) as Huser.
  { intros p w x Ho Hwx (E0 & E1 & E2 & E63 & Ep). exists p, w, x. split_and!; [done| |done].
    unfold leaf_access in Eacc. rewrite E0, E1, E2, E63, Ep, negb_involutive in Eacc. congruence. }
  assert (∀ k, 0 ≤ k mod 512 < 512) as Hr by (intros k; by apply Z.mod_pos_bound).
  unfold user_leaf in El. destruct (_ && _); [|done]. destruct (_ =? 0).
  - injection El as El. destruct (st_pt _ _ _ _ Ht _ (Hr (a / 2 ^ 12))) as [E|[(p & Hp & E)|(p & Hp & E)]]; rewrite El in E; clear El; subst e.
    + done.
    + assert (owned m i p) as Ho by (by left). apply (Huser p false true Ho); [done|]. by apply exec_entry_user, (owned_address i).
    + assert (owned m i p) as Ho by (right; by left). apply (Huser p true (negb nx) Ho); [by intros ->|].
      by apply data_entry_user, (owned_address i).
  - destruct (_ =? 1); [|done]. destruct (ns_service (space_at m i)) as [b|] eqn:Eb; [|done]. injection El as El.
    destruct (st_arena _ _ _ _ Ht _ _ Eb (Hr (a / 2 ^ 12))) as [E|(f & Hf & E)]; rewrite El in E; clear El; subst e; [done|].
    set (p := arena_bytes b + (a / 2 ^ 12) mod 512 * PAGE_BYTES) in *. assert (owned m i p) as Ho by (right; right; by exists b, ((a / 2 ^ 12) mod 512)).
    pose proof (owned_address _ _ Hi Ho) as Hpa.
    destruct Hf as [->|[->| ->]]; [apply (Huser p false false Ho)|apply (Huser p false true Ho)|apply (Huser p true false Ho)];
      done || (apply segment_entry_user; auto).
Qed.

Lemma access_user i a acc : user_access m i a acc →
  (i < MAX_NATIVE_SPACES)%nat ∧
  ∃ p w x, owned m i p ∧ acc = MkAccess p w true x ∧ (nx = true → w = true → x = false).
Proof.
  intros (Ha & H0 & Ew & Eu). pose proof (active_slot m i (mi_spaces _ _ _ _ _ _ _ _ _ Hm) Ha) as Hi. split; [done|].
  pose proof (mi_tables _ _ _ _ _ _ _ _ _ Hm i Ha I) as Ht.
  destruct (decide (a / 2 ^ 39 mod 512 = 0)) as [Ez|Enz].
  - pose proof (walk_kernel_half _ _ _ _ ltac:(rewrite Ez, (st_pml4 _ _ _ _ Ht 0) by lia; apply (so_user _ _ _ SO)) Ew). congruence.
  - rewrite (user_walk nx t0 kernel_end heap SO m i a Hi Ht) in Ew; [|intros b; by eapply mi_arena|done].
    destruct (user_leaf m i a) as [e|] eqn:El; [|done]. by eapply leaf_user.
Qed.

Lemma inv_isolated : isolated nx t0 m.
Proof.
  constructor.
  - intros i a acc (_ & p & w & x & Ho & -> & _)%access_user. done.
  - intros i j a a' acc acc' (Hi & p & w & x & Ho & -> & _)%access_user (Hj & p' & w' & x' & Ho' & -> & _)%access_user Hij. cbn.
    intros ->. by apply (owned_apart i j p').
  - intros i a acc (Hi & p & w & x & Ho & -> & _)%access_user. by eapply owned_not_table.
  - intros i a acc (_ & p & w & x & _ & -> & Hwx)%access_user. exact Hwx.
  - intros i k f Hf Hk. destruct (held_frame _ _ _ _ _ _ _ _ _ _ _ _ Hm Hf) as (n & -> & _ & Hd & [Hs _] & _).
    pose proof (map_rep_identity t0 (so_boot _ _ _ SO) _ _ _ _ _ (mi_map _ _ _ _ _ _ _ _ _ Hm) (n * PAGE_BYTES) ltac:(lia)) as Ew.
    rewrite Hd in Ew. pose proof (mi_held _ _ _ _ _ _ _ _ _ Hm _ _ _ Hf) as Hp. rewrite Hd in Hp. cbn [sealed] in Hp.
    rewrite (proj2 (Nat.ltb_lt _ _) Hk) in Hp. unfold identity_access in Ew. rewrite Hp in Ew.
    exists (MkAccess (n * PAGE_BYTES) false false (negb (Z.testbit (code_flags nx) 63))). split_and!; [|done|done].
    rewrite Ew. unfold code_flags. by destruct nx.
  - intros n Hn. rewrite (lr_leased_iff _ _ (fo_rep _ _ (mi_frames _ _ _ _ _ _ _ _ _ Hm)) n Hn). split.
    + intros (i & k & Hk)%(mi_kept _ _ _ _ _ _ _ _ _ Hm). exists i, k. split; [|done]. by eapply held_slot.
    + intros (i & k & _ & Hk). destruct (mi_leased _ _ _ _ _ _ _ _ _ Hm _ _ _ Hk) as (n' & E & Hn').
      by replace n with n' by (unfold PAGE_BYTES in E; lia).
Qed.
End inv.

(** ** Lemmas: steps *)

(** The output buffer of a space is in no statement of the invariant. *)
Lemma output_inv m s ns perm b o :
  machine_inv m s ns perm None → machine_inv (update_space m b (λ space, space <| ns_output := o |>)) s ns perm None.
Proof.
  intros Hm. pose proof (mi_spaces _ _ _ _ _ _ _ _ _ Hm) as Hl. destruct (decide (b < MAX_NATIVE_SPACES)%nat) as [Hb|Hb].
  - set (g := λ space : NativeSpace, space <| ns_output := o |>). set (m' := update_space m b g).
    pose proof (mi_slot _ _ _ _ _ _ _ _ _ Hm b) as [S1 S2 S3 S4 S5].
    assert (∀ i, space_at m' i = if decide (i = b) then g (space_at m b) else space_at m i) as Es.
    { intros i. unfold m'. by rewrite space_at_update by lia. }
    assert (space_at m' b = g (space_at m b)) as Eb by by rewrite Es, decide_True.
    destruct (inv_record nx t0 kernel_end heap m s ns perm b _ g (inv_reopen nx t0 kernel_end heap _ _ _ _ b Hm) Hb)
      as (J1 & J2 & J3); try done.
    + intros k f. unfold holds. fold m'. by rewrite Eb.
    + by left.
    + assert (ns_dynamic_code_len (space_at m b) = ns_dynamic_code_len (space_at m' b)) as Ec by by rewrite Eb.
      fold m' in J1. rewrite Ec in J1. destruct (ns_active (space_at m b)) eqn:Ea.
      * apply (inv_close _ _ _ _ m' s ns perm b J1). destruct (mi_tables _ _ _ _ _ _ _ _ _ Hm b Ea I) as [T4 T3 T2 T1 T0 Td].
        constructor; unfold data_linked, leaf_ok, code_owned, data_owned, holds in *; rewrite ?Eb; done.
      * apply (inv_close_idle nx t0 kernel_end heap m' s ns perm b _ J1). by rewrite Eb.
  - assert (update_space m b (λ space, space <| ns_output := o |>) = m) as ->; [|done].
    destruct m as [ph t u sp]. cbn in Hl.
    enough (∀ g : NativeSpace → NativeSpace, alter g b sp = sp) as Ealt by exact (f_equal (MkMachine ph t u) (Ealt _)).
    intros g. apply list_eq. intros k. destruct (decide (k = b)) as [->|Hk]; [|by rewrite list_lookup_alter_ne].
    by rewrite list_lookup_alter_eq, lookup_ge_None_2 by lia.
Qed.

(** A store through a page of a space's own. *)
Lemma store_inv m s ns perm i a acc f t :
  machine_inv m s ns perm None → user_access m i a acc → (∀ b k, b ≠ ac_page acc → t b k = mc_tables m b k) →
  machine_inv (with_memory (m <| mc_tables := t |>) f) s ns perm None.
Proof.
  intros Hm Hu Ht. apply inv_memory. destruct (access_user m s ns perm Hm _ _ _ Hu) as (Hi & p & w & x & Ho & -> & _).
  cbn in Ht. assert (∀ b k, table_page t0 m b → t b k = mc_tables m b k) as Ht'.
  { intros b k Hb. apply Ht. intros ->. by eapply (owned_not_table m s ns perm Hm). }
  apply inv_tables; [apply SO|done|..].
  - intros b k Hb. apply Ht'. by left.
  - intros j q k Hj _ Hq. apply Ht'. right. left. exists j, q. split_and!; [|done|done].
    eapply active_slot; [by eapply mi_spaces|done].
  - intros j b k Hj _ Hb. apply Ht'. right. right. by exists j.
Qed.

Lemma step_inv m m' s ns perm :
  machine_inv m s ns perm None → machine_step nx heap m m' → ∃ s' perm', machine_inv m' s' ns perm' None.
Proof.
  intros Hm [form execute log content m1 r Hc E|form execute reply elf input network pointer m1 r He Hl Hp E|
             prepared Hb|prepared|prepared|i output|f|i a acc f t Hu _ Ht].
  - destruct (prepare_spec nx t0 kernel_end heap SO _ _ _ _ _ _ _ _ _ _ Hm Hc E) as (s' & perm' & H' & _). eauto.
  - destruct (prepare_service_inv nx t0 kernel_end heap SO _ _ _ _ _ _ _ _ _ _ _ _ _ Hm He Hl Hp E) as (s' & perm' & H' & _). eauto.
  - by eapply finish_inv.
  - exists s, perm. by apply output_inv.
  - exists s, perm. by apply output_inv.
  - exists s, perm. by apply output_inv.
  - exists s, perm. by apply inv_memory.
  - exists s, perm. by eapply store_inv.
Qed.

Lemma boot_frame usable handoff n : n ∈ ls_free (boot_leases usable handoff kernel_end) → kernel_end ≤ n * PAGE_BYTES.
Proof.
  unfold boot_leases. cbn [ls_free]. intros [[_ Hno] Hall]%elem_of_filter. apply elem_of_all_frames in Hall.
  destruct (decide (kernel_end ≤ n * PAGE_BYTES)) as [|Hlt]; [done|]. exfalso. apply Hno. apply Exists_cons_hd.
  unfold frame_touches, PAGE_BYTES in *. cbn. lia.
Qed.

Lemma boot_map layout m :
  (∃ t used, initialize_paging layout nxf t0 = Returns (t, used) ∧ (mc_tables m = t ∨ mc_tables m = seal_ap_trampoline t)) →
  ∃ ns perm, map_rep t0 nxf 2048 ns 0 (mc_tables m) perm ∧ ∀ n, n ≠ 8 → perm n = initial_flags layout nxf n.
Proof.
  intros (t & used & Et & Em). pose proof (initialize_rep t0 (so_boot _ _ _ SO) nxf layout (nxf_flags nx)) as Hmap.
  rewrite Et in Hmap. destruct Hmap as [Hmap _]. destruct Em as [->| ->]; [by exists used, (initial_flags layout nxf)|].
  pose proof (set_identity_frame_rep t0 (so_boot _ _ _ SO) nxf _ _ _ _ 0x8000 PRESENT Hmap ltac:(done) ltac:(done)) as Hs.
  rewrite (trampoline_call t0 (so_boot _ _ _ SO) nxf _ _ _ _ (nxf_flags nx) Hmap (initial_guarded nxf layout)) in Hs.
  destruct Hs as [_ Hs]. exists used, (<[0x8000 / PAGE := PRESENT]> (initial_flags layout nxf)). split; [done|].
  intros n Hn. by rewrite fn_lookup_insert_ne.
Qed.

Lemma boot_inv layout usable handoff m :
  boots nx t0 kernel_end layout usable handoff m → ∃ s ns perm, machine_inv m s ns perm None.
Proof.
  intros [Hu Hh (Hk & Ht & Hr) Ef (ns & perm & Hmap & Hperm)%boot_map Eu Es].
  pose proof (so_end _ _ _ SO) as He.
  assert (∀ i, space_at m i = NativeSpace_empty) as Esp.
  { intros i. unfold space_at. rewrite Es. destruct (replicate _ _ !! i) eqn:E; [|done]. by apply lookup_replicate_1 in E as [-> _]. }
  assert (∀ i k f, ¬ holds m i k f) as Hno.
  { intros i k f [Hf _]. rewrite Esp in Hf. cbn in Hf. lia. }
  exists (boot_leases usable handoff kernel_end), ns, perm.
  constructor.
  - by rewrite Eu.
  - rewrite Ef. apply initialize_ok; [done|done|]. unfold MAX_PHYSICAL_BYTES, u64_max in *. lia.
  - intros n [Hn|Hn]; [by eapply boot_frame|]. by apply not_elem_of_empty in Hn.
  - rewrite Es. apply length_replicate.
  - intros i. constructor; rewrite Esp; try done. cbn. lia.
  - intros i k f Hf. by apply Hno in Hf.
  - intros i j k k' f Hf. by apply Hno in Hf.
  - intros n Hn. by apply not_elem_of_empty in Hn.
  - intros n Hn%boot_frame. rewrite Hperm by (unfold PAGE_BYTES in *; lia).
    rewrite initial_flags_layout by apply nxf_flags. unfold Layout_flags, range_contains, PAGE, PAGE_BYTES in *.
    rewrite (proj2 (Z.eqb_neq _ _)), (proj2 (Z.ltb_ge _ (ly_text_end layout))), (proj2 (Z.ltb_ge _ (ly_rodata_end layout))), !andb_false_r by lia.
    done.
  - intros i k f Hf. by apply Hno in Hf.
  - intros i Hi. by rewrite Esp in Hi.
  - intros i b Hb. by rewrite Esp in Hb.
  - intros i j b b' _ Hb. by rewrite Esp in Hb.
Qed.

(** Every state of a run satisfies the invariant. *)
Lemma run_inv layout usable handoff m m' :
  boots nx t0 kernel_end layout usable handoff m → rtc (machine_step nx heap) m m' →
  ∃ s ns perm, machine_inv m' s ns perm None.
Proof.
  intros Hboot Hrun. destruct (boot_inv _ _ _ _ Hboot) as (s & ns & perm & Hm).
  clear Hboot. revert s perm Hm. induction Hrun as [m|m m1 m2 Hs _ IH]; intros s perm Hm.
  - by exists s, ns, perm.
  - destruct (step_inv _ _ _ _ _ Hm Hs) as (s' & perm' & Hm'). by eapply IH.
Qed.
End isolation.

(** ** Properties *)

(** C3. Address spaces are isolated, in every state the machine reaches from boot by
    preparing Forms and services, finishing them in any order and letting them store
    wherever the processor lets them.  What a Form reaches from Ring 3 is its own and
    no other active space's, and is no page table; with NX nothing it can write is
    executable; the kernel cannot write its sealed code either; and the frames the
    allocator counts as leased are exactly those active spaces hold, so none leaks. *)
Theorem form_isolation `{NativeStatics} nx t0 kernel_end heap layout usable handoff m m' :
  statics_ok t0 kernel_end heap → boots nx t0 kernel_end layout usable handoff m →
  rtc (machine_step nx heap) m m' → isolated nx t0 m'.
Proof.
  intros SO Hboot Hrun. destruct (run_inv nx t0 kernel_end heap SO _ _ _ _ _ Hboot Hrun) as (s & ns & perm & Hm).
  by eapply inv_isolated.
Qed.

(** A kernel of ten megabytes, with its heap at the end. *)
Definition page_number (p : SpacePage) : Z :=
  match p with Pml4 => 0 | UserPdpt => 1 | UserPd => 2 | UserPt => 3 | CodePage => 4 | DataPage => 5 | StackPage => 6 end.

Definition demo_statics : NativeStatics :=
  {| nst_kernel := demo_tables; nst_page := λ i p, 5242880 + 4096 * (8 * Z.of_nat i + page_number p) |}.
#[local] Existing Instance demo_statics.

Definition demo_layout : Layout := MkLayout 3145728 4194304 4194304 5242880.

Lemma demo_kernel_page a : a ∈ kernel_pages demo_boot → a mod 4096 = 0 ∧ 0 < a ∧ a < 4194304.
Proof.
  intros Ha. assert (forallb (λ p, (0 <? p) && (p <? 4194304) && (p mod 4096 =? 0)) (kernel_pages demo_boot) = true) as Hf
    by (by vm_compute).
  rewrite forallb_forall in Hf. specialize (Hf a (proj1 (list_elem_of_In _ _) Ha)). bools. lia.
Qed.

Lemma demo_statics_ok : statics_ok demo_boot 10485760 (6291456, 10485760).
Proof.
  assert (∀ p, 0 ≤ page_number p ≤ 6) as Hp by (by intros []).
  assert (∀ a, static_page demo_boot a → a mod 4096 = 0 ∧ 0 < a ∧ a + 4096 ≤ 6291456) as Hs.
  { intros a [Ha%demo_kernel_page|(i & p & Hi & ->)]; [lia|]. cbn. unfold MAX_NATIVE_SPACES in Hi. specialize (Hp p).
    split; [|lia]. apply Z.mod_divide; [done|]. exists (1280 + (8 * Z.of_nat i + page_number p)). lia. }
  constructor.
  - apply demo_boot_tables.
  - done.
  - intros i j p q Hi Hj E. cbn in E. pose proof (Hp p). pose proof (Hp q). assert (i = j) as -> by lia. split; [done|].
    assert (page_number p = page_number q) as En by lia. by destruct p, q.
  - intros i p Hi Hk%demo_kernel_page. cbn in Hk. specialize (Hp p). lia.
  - intros a Ha. apply Hs in Ha. unfold page_address, PAGE, PAGE_BYTES in *. lia.
  - intros a Ha. apply Hs in Ha. unfold PAGE_BYTES. cbn. lia.
  - unfold MAX_PHYSICAL_BYTES. cbn. lia.
Qed.

Lemma demo_boots : ∃ m, boots true demo_boot 10485760 demo_layout [(10485760, 33554432)] [] m.
Proof.
  pose proof (initialize_rep demo_boot demo_boot_tables NX demo_layout (or_intror eq_refl)) as Hm.
  destruct (initialize_paging demo_layout NX demo_boot) as [[t used]| |] eqn:E; [|exfalso; clear E|destruct Hm].
  - exists (MkMachine (MkPhysical (initialize_frames [(10485760, 33554432)] [] 10485760 Allocator_new) (λ _, 0)) t O
      (replicate MAX_NATIVE_SPACES NativeSpace_empty)).
    constructor; cbn [mc_physical ph_allocator mc_tables mc_dynamic_used mc_spaces].
    + repeat constructor; unfold u64_max; cbn; lia.
    + constructor.
    + cbn. lia.
    + reflexivity.
    + exists t, used. change (no_execute true) with NX. split; [exact E|by left].
    + reflexivity.
    + reflexivity.
  - destruct Hm as [Hm|Hm]; [by vm_compute in Hm|]. apply Nat.ltb_lt in Hm. by vm_compute in Hm.
Qed.

Definition demo_handle : FormHandle :=
  MkHandle 7 0 CfcFin_ZERO Fin_ZERO Fin_ZERO Fin_ZERO Ops_NONE 0 false.

Lemma form_isolation_witness :
  ∃ m m', boots true demo_boot 10485760 demo_layout [(10485760, 33554432)] [] m ∧
    rtc (machine_step true (6291456, 10485760)) m m' ∧
    (ns_active <$> mc_spaces m') = [false; true; false; false; false; false; false; false] ∧ isolated true demo_boot m'.
Proof.
  destruct demo_boots as [m Hm]. pose proof (bo_spaces _ _ _ _ _ _ _ Hm) as Es.
  set (m1 := (prepare_service true Fin_ZERO demo_handle demo_handle demo_elf [1; 2; 3] None (Some 6291456) m).1).
  set (m2 := (prepare true (MkFin (replicate 16 1)) demo_handle demo_handle (lit "print('hi')") m1).1).
  set (m3 := finish true (MkPrepared 0 (confined_space 0 USER_END) TrapFrame_EMPTY) m2).
  assert (rtc (machine_step true (6291456, 10485760)) m m3) as Hrun.
  { eapply rtc_l; [eapply (step_service true _ _ Fin_ZERO demo_handle demo_handle demo_elf [1; 2; 3] None (Some 6291456) m1);
      [apply demo_elf_bytes..| |by apply surjective_pairing]|].
    { intros p [= <-]. split; [unfold arena_in_heap, page_address, ARENA_BYTES; vm_compute; intuition congruence|].
      intros i b Hb. unfold space_at in Hb. rewrite Es in Hb. destruct (replicate _ _ !! i) eqn:E; [|done].
      by apply lookup_replicate_1 in E as [-> _]. }
    eapply rtc_l; [eapply (step_prepare true _ _ _ _ _ (lit "print('hi')") m2); [|by apply surjective_pairing]|].
    { repeat constructor; by vm_compute. }
    eapply rtc_once. apply step_finish. cbn. unfold MAX_NATIVE_SPACES. lia. }
  exists m, m3. split_and!; [done|done| |].
  - clear -Es. destruct m as [ph t u sp]. cbn in Es. subst sp. by vm_compute.
  - by eapply (form_isolation true demo_boot 10485760 (6291456, 10485760) demo_layout [(10485760, 33554432)] [] m m3 demo_statics_ok).
Defined.
