(* ===== verification/FormView.v ===== *)
(** * What a Form finds in its address space

    The pages a Form can reach once [prepare] has returned, with their rights and
    every byte of them: the image or the capsule, the first request and zeros. *)

From stdpp Require Import prelude list gmap sets functions strings.
From Stdlib Require Import ZArith Lia.
From S2P Require Import Prelude Identity Bytes Capability Context Abi NativeImage Frames Paging ServiceImage FormSpace FormLoad FormMachine FormPrepare FormIsolation.

Set Default Goal Selector "!".
Open Scope Z_scope.
Open Scope expos_scope.

(** ** Specification *)

(** The data pages: the request, a gap, the payload. *)
Definition data_byte (request payload : list Z) (pos : Z) : Z :=
  if pos <? Zlength request then nth (Z.to_nat pos) request 0
  else if ABI_PAYLOAD_OFFSET <=? pos then nth (Z.to_nat (pos - ABI_PAYLOAD_OFFSET)) payload 0 else 0.

(** Page [page] of the user range: whether it is writable, and its bytes. *)
Definition v1_view (code payload request : list Z) (page : Z) : option (bool * (Z → Z)) :=
  if page =? 0 then Some (false, λ o, nth (Z.to_nat o) code 204)
  else if page =? 1 then Some (true, data_byte request payload)
  else if page =? 3 then Some (true, λ _, 0) else None.

Definition v2_view (img : NativeImage) (request : list Z) (page : Z) : option (bool * (Z → Z)) :=
  let code_pages := div_ceil_page (Zlength (img_code img)) in
  let data_pages := div_ceil_page (ABI_PAYLOAD_OFFSET + Zlength (img_data img) + img_zero_bytes img) in
  if (V2_STACK_INDEX <=? page) && (page <? V2_STACK_INDEX + V2_STACK_PAGES) then Some (true, λ _, 0)
  else if (V2_HEAP_INDEX <=? page) && (page <? V2_HEAP_INDEX + V2_HEAP_PAGES) then Some (true, λ _, 0)
  else if (V2_DATA_INDEX <=? page) && (page <? V2_DATA_INDEX + data_pages)
  then Some (true, λ o, data_byte request (img_data img) ((page - V2_DATA_INDEX) * PAGE_BYTES + o))
  else if (0 <=? page) && (page <? code_pages)
  then Some (false, λ o, nth (Z.to_nat (page * PAGE_BYTES + o)) (img_code img) 0) else None.

Definition form_view (image : option NativeImage) (content request : list Z) (handle page : Z) : option (bool * (Z → Z)) :=
  match image with
  | Some img => if img_format_version img =? 2 then v2_view img request page
                else v1_view (img_code img) (v1_payload image content) request page
  | None => v1_view (capsule_code content handle) (v1_payload image content) request page
  end.

(** ** Lemmas *)

Lemma log_request_length form log image content : length (Fin_bytes form) = 16%nat → Zlength (log_request form log image content) = 72.
Proof.
  intros Hf. unfold log_request, AbiRequest_bytes, Zlength. cbn [ar_version ar_call ar_caller ar_handle_id ar_arguments].
  cbn [fmap list_fmap mjoin list_join]. rewrite !length_app, !le_bytes_length, Hf. done.
Qed.

Lemma capsule_code_length content handle : Zlength (capsule_code content handle) ≤ PAGE_BYTES.
Proof.
  unfold capsule_code, emit_log_and_exit, Zlength, PAGE_BYTES.
  repeat case_match; rewrite ?length_app, ?le_bytes_length; cbn [length]; lia.
Qed.

(** The indices of a page of the user range. *)
Lemma user_page_index page : 0 ≤ page < 2 ^ 27 →
  let a := USER_CODE + page * PAGE_BYTES in
  a / 2 ^ 39 mod 512 = 128 ∧ a / 2 ^ 30 mod 512 = page / 2 ^ 18 ∧ a / 2 ^ 21 mod 512 = page / 512 mod 512 ∧
  a / 2 ^ 12 mod 512 = page mod 512.
Proof.
  intros Hp a. unfold a. replace (USER_CODE + page * PAGE_BYTES) with ((2 ^ 34 + page) * 2 ^ 12) by (unfold USER_CODE, PAGE_BYTES; lia).
  assert (∀ n, 12 ≤ n → (2 ^ 34 + page) * 2 ^ 12 / 2 ^ n = (2 ^ 34 + page) / 2 ^ (n - 12)) as E.
  { intros n Hn. replace n with ((n - 12) + 12) at 1 by lia. rewrite Z.pow_add_r by lia. rewrite Z.mul_comm, (Z.mul_comm (2 ^ (n - 12))).
    apply Z.div_mul_cancel_l; [|done]. apply Z.pow_nonzero; lia. }
  rewrite !E by lia. cbn [Z.sub Z.add Z.opp Z.pos_sub Pos.pred_double Pos.pred Z.succ_double Z.pred_double Z.double].
  change (2 ^ 34) with 17179869184. change (2 ^ (39 - 12)) with 134217728. change (2 ^ (30 - 12)) with 262144.
  change (2 ^ (21 - 12)) with 512. change (2 ^ (12 - 12)) with 1. change (2 ^ 18) with 262144. change (2 ^ 27) with 134217728 in Hp.
  rewrite Z.div_1_r.
  replace (17179869184 + page) with (page + 128 * 134217728) at 1 by lia. rewrite Z.div_add, Z.div_small by lia.
  replace (17179869184 + page) with (page + 65536 * 262144) at 1 by lia. rewrite Z.div_add by lia.
  replace (17179869184 + page) with (page + 33554432 * 512) by lia. rewrite Z.div_add, Z.mod_add by lia.
  assert (0 ≤ page / 262144 < 512) by (split; [apply Z.div_pos; lia|apply Z.div_lt_upper_bound; lia]).
  split_and!; [done| | |done].
  - replace (page / 262144 + 65536) with (page / 262144 + 128 * 512) by lia. rewrite Z.mod_add by lia. by apply Z.mod_small.
  - replace (page / 512 + 33554432) with (page / 512 + 65536 * 512) by lia. by rewrite Z.mod_add by lia.
Qed.

Section view.
Context `{NativeStatics} (nx : bool) (t0 : Tables) (kernel_end : Z) (heap : Z * Z)
  (SO : statics_ok t0 kernel_end heap).
Abbreviation machine_inv := (machine_inv nx t0 kernel_end heap).
Implicit Types (m : Machine) (s : Leases) (perm : Z → Z).

(** The processor finds page [page] of slot [b] as the view says. *)
Definition shows m (b : nat) (page : Z) (v : option (bool * (Z → Z))) : Prop :=
  let r := walk (mc_tables m) (nst_page b Pml4) (USER_CODE + page * PAGE_BYTES) in
  match v with
  | Some (w, byte) => ∃ q, r = Some (MkAccess q w true (negb (w && nx))) ∧
      ∀ o, 0 ≤ o < PAGE_BYTES → ph_memory (mc_physical m) (q + o) = byte o
  | None => r = None
  end.

Section space.
Context m s ns perm (b : nat) (Hm : machine_inv m s ns perm None) (Hb : (b < MAX_NATIVE_SPACES)%nat)
  (Ha : ns_active (space_at m b) = true) (Hsv : ns_service (space_at m b) = None).

Lemma page_walk page : 0 ≤ page < 2 ^ 27 →
  walk (mc_tables m) (nst_page b Pml4) (USER_CODE + page * PAGE_BYTES) =
  if page <? 512 then leaf_access (mc_tables m (nst_page b UserPt) page) else None.
Proof.
  intros Hp. destruct (user_page_index page Hp) as (I4 & I3 & I2 & I1). change (2 ^ 27) with 134217728 in Hp.
  rewrite (user_walk nx t0 kernel_end heap SO m b _ Hb (mi_tables _ _ _ _ _ _ _ _ _ Hm b Ha I)) by (rewrite ?Hsv, ?I4; done).
  unfold user_leaf. rewrite I4, I3, I2, I1, Hsv. change (2 ^ 18) with 262144. change (128 =? 128) with true. cbn [andb].
  destruct (Z.ltb_spec page 512) as [Hlt|Hge].
  - rewrite (Z.div_small page 262144), (Z.div_small page 512), (Z.mod_small page 512) by lia. done.
  - destruct (Z.eqb_spec (page / 262144) 0) as [Hz|]; [|done]. assert (page < 262144).
    { destruct (decide (page < 262144)) as [|Hn]; [done|]. assert (1 ≤ page / 262144) by (apply Z.div_le_lower_bound; lia). lia. }
    assert (1 ≤ page / 512 < 512) by (split; [apply Z.div_le_lower_bound; lia|apply Z.div_lt_upper_bound; lia]).
    rewrite (Z.mod_small (page / 512)) by lia. rewrite (proj2 (Z.eqb_neq (page / 512) 0)) by lia. by destruct (_ =? 1).
Qed.

Lemma shows_code page q byte :
  0 ≤ page < 512 → mc_tables m (nst_page b UserPt) page = exec_entry q → page_address q →
  (∀ o, 0 ≤ o < PAGE_BYTES → ph_memory (mc_physical m) (q + o) = byte o) → shows m b page (Some (false, byte)).
Proof.
  intros Hp E Hq Hbyte. exists q. split; [|done]. rewrite page_walk by lia. rewrite (proj2 (Z.ltb_lt _ _)), E by lia.
  destruct (exec_entry_user q Hq) as (E0 & E1 & E2 & E63 & Ep). unfold leaf_access. by rewrite E0, E1, E2, E63, Ep.
Qed.

Lemma shows_data page q byte :
  0 ≤ page < 512 → mc_tables m (nst_page b UserPt) page = data_entry nx q → page_address q →
  (∀ o, 0 ≤ o < PAGE_BYTES → ph_memory (mc_physical m) (q + o) = byte o) → shows m b page (Some (true, byte)).
Proof.
  intros Hp E Hq Hbyte. exists q. split; [|done]. rewrite page_walk by lia. rewrite (proj2 (Z.ltb_lt _ _)), E by lia.
  destruct (data_entry_user nx q Hq) as (E0 & E1 & E2 & E63 & Ep). unfold leaf_access. rewrite E0, E1, E2, E63, Ep.
  by destruct nx.
Qed.

Lemma shows_hole page : 0 ≤ page < 2 ^ 27 → (page < 512 → mc_tables m (nst_page b UserPt) page = 0) → shows m b page None.
Proof. intros Hp E. unfold shows. rewrite page_walk by done. destruct (Z.ltb_spec page 512); [by rewrite E|done]. Qed.
End space.

(** Format 1 images and capsules. *)
Lemma v1_shows m s ns perm b payload request code page :
  machine_inv m s ns perm None → (b < MAX_NATIVE_SPACES)%nat → v1_space nx t0 b payload m →
  Zlength request ≤ ABI_PAYLOAD_OFFSET → Zlength code ≤ PAGE_BYTES → 0 ≤ page < 2 ^ 27 →
  shows (poke (poke m (nst_page b DataPage) request) (nst_page b CodePage) code) b page (v1_view code payload request page).
Proof.
  intros Hm Hb Hv Hr Hc Hp. set (m' := poke _ _ _).
  assert (machine_inv m' s ns perm None) as Hm' by (by apply inv_memory, inv_memory).
  pose proof (λ p q, slot_pages_apart t0 kernel_end heap SO b p q Hb) as Hap.
  pose proof (λ p, slot_page_address t0 kernel_end heap SO b p Hb) as Hpa.
  destruct Hv as [_ E _ Hsv Ha _ _ Hbytes]. change (mc_tables m) with (mc_tables m') in E.
  unfold ABI_PAYLOAD_OFFSET, PAGE_BYTES in Hr, Hc.
  assert (∀ p, p ≠ CodePage → p ≠ DataPage → ∀ o, 0 ≤ o < PAGE_BYTES →
    ph_memory (mc_physical m') (nst_page b p + o) = ph_memory (mc_physical m) (nst_page b p + o)) as Hout.
  { intros p Hpc Hpd o Ho. destruct (Hap p CodePage Hpc), (Hap p DataPage Hpd); cbn; unfold PAGE_BYTES in *;
      rewrite !write_bytes_out by lia; done. }
  unfold v1_view, v1_entry in *. specialize (E page). destruct (Z.eqb_spec page 0) as [->|]; [|destruct (Z.eqb_spec page 1) as [->|];
    [|destruct (Z.eqb_spec page 3) as [->|]]].
  - apply (shows_code m' s ns perm b Hm' Hb Ha Hsv _ (nst_page b CodePage)); [lia|done|done|]. intros o Ho. destruct (Hbytes o Ho) as (B1 & _).
    destruct (Hap CodePage DataPage ltac:(done)); cbn; unfold PAGE_BYTES in *;
    (destruct (decide (o < Zlength code)) as [Hin|Hin];
     [rewrite write_bytes_in by lia; unfold Zlength in *; rewrite (nth_indep _ 0 204) by lia; f_equal; lia
     |rewrite !write_bytes_out, B1 by lia; rewrite nth_overflow; [done|unfold Zlength in *; lia]]).
  - apply (shows_data m' s ns perm b Hm' Hb Ha Hsv _ (nst_page b DataPage)); [lia|done|done|]. intros o Ho. destruct (Hbytes o Ho) as (_ & B2 & _).
    unfold data_byte. destruct (Hap CodePage DataPage ltac:(done)); cbn; unfold PAGE_BYTES in *;
    rewrite (write_bytes_out _ (nst_page b CodePage)) by lia;
    (destruct (Z.ltb_spec o (Zlength request));
     [rewrite write_bytes_in by lia; f_equal; lia
     |rewrite write_bytes_out, B2 by lia; destruct (decide _), (Z.leb_spec ABI_PAYLOAD_OFFSET o); done || lia]).
  - apply (shows_data m' s ns perm b Hm' Hb Ha Hsv _ (nst_page b StackPage)); [lia|done|done|]. intros o Ho. rewrite Hout by done. by apply (Hbytes o).
  - apply (shows_hole m' s ns perm b Hm' Hb Ha Hsv); [done|]. intros _. rewrite E. destruct (Z.eqb_spec page 3); [lia|].
    destruct (Z.eqb_spec page 1); [lia|]. by destruct (Z.eqb_spec page 0).
Qed.

Lemma page_position k o : 0 ≤ o < PAGE_BYTES → (k * PAGE_BYTES + o) / PAGE_BYTES = k ∧ (k * PAGE_BYTES + o) mod PAGE_BYTES = o.
Proof.
  intros Ho. rewrite (Z.add_comm (k * PAGE_BYTES)), Z.div_add, Z.mod_add by done. rewrite Z.div_small, Z.mod_small by done. lia.
Qed.

(** A byte of a stretch of the slot's frames. *)
Lemma stretch_byte m b j n k o memory :
  full m b → (j + n ≤ ns_dynamic_len (space_at m b))%nat → 0 ≤ k < Z.of_nat n → 0 ≤ o < PAGE_BYTES →
  memory (nth (j + Z.to_nat k) (ns_dynamic_frames (space_at m b)) 0 + o) =
  view (slice (ns_dynamic_frames (space_at m b)) j n) memory (k * PAGE_BYTES + o).
Proof.
  intros Hfl Hn Hk Ho. unfold view. destruct (stretch_address m b j n (k * PAGE_BYTES + o) Hfl Hn) as (-> & _).
  { unfold PAGE_BYTES in *. lia. }
  by destruct (page_position k o Ho) as [-> ->].
Qed.

(** Format 2 images: the bytes after the request is written. *)
Lemma v2_bytes img m s ns perm b request :
  machine_inv m s ns perm None → v2_space nx t0 img b m → 0 ≤ img_zero_bytes img → Zlength request ≤ ABI_PAYLOAD_OFFSET →
  let cp := div_ceil_page (Zlength (img_code img)) in
  let dp := div_ceil_page (ABI_PAYLOAD_OFFSET + Zlength (img_data img) + img_zero_bytes img) in
  let frames := ns_dynamic_frames (space_at m b) in
  let memory := write_bytes (ph_memory (mc_physical m)) (nth (Z.to_nat cp) frames 0) request in
  (∀ k o, 0 ≤ k < cp → 0 ≤ o < PAGE_BYTES →
     memory (nth (Z.to_nat k) frames 0 + o) = nth (Z.to_nat (k * PAGE_BYTES + o)) (img_code img) 0) ∧
  (∀ k o, 0 ≤ k < dp → 0 ≤ o < PAGE_BYTES →
     memory (nth (Z.to_nat (cp + k)) frames 0 + o) = data_byte request (img_data img) (k * PAGE_BYTES + o)) ∧
  (∀ k o, cp + dp ≤ k < cp + dp + V2_HEAP_PAGES + V2_STACK_PAGES → 0 ≤ o < PAGE_BYTES → memory (nth (Z.to_nat k) frames 0 + o) = 0).
Proof.
  intros Hm Hv Hz Hr cp dp frames memory. destruct (pages_nonneg img Hz) as (Hdp & Hcp & _ & Hdp0). fold cp dp in Hdp, Hcp, Hdp0.
  pose proof (vs_len _ _ _ _ _ Hv) as Hlen. pose proof (vs_full _ _ _ _ _ Hv) as Hfl. fold cp dp in Hlen.
  unfold V2_HEAP_PAGES, V2_STACK_PAGES in Hlen.
  set (l := slice frames (Z.to_nat cp) (Z.to_nat dp)).
  assert (∀ i g, l !! i = Some g → holds m b (Z.to_nat cp + i) g) as Hl.
  { intros i g Hg. eapply stretch_holds; [done| |exact Hg]. lia. }
  assert (length l = Z.to_nat dp) as El.
  { unfold l, slice. rewrite length_take, length_drop. pose proof (mi_slot _ _ _ _ _ _ _ _ _ Hm b) as [S1 S2 S3 S4 S5]. unfold frames. lia. }
  assert (loaded_at l 0 request (ph_memory (mc_physical m)) memory) as [L1 L2].
  { unfold memory. replace (nth (Z.to_nat cp) frames 0) with (byte_address l 0).
    - apply frame_write; [by eapply (held_apart nx t0 kernel_end heap m)|unfold view_bytes; rewrite El; unfold PAGE_BYTES; lia|].
      rewrite Z.mod_0_l by done. unfold ABI_PAYLOAD_OFFSET in Hr. unfold PAGE_BYTES. lia.
    - unfold byte_address. rewrite Z.div_0_l, Z.mod_0_l, Z.add_0_r by done. change (Z.to_nat 0) with O. unfold l, slice.
      by rewrite !nth_lookup, lookup_take_lt, lookup_drop, Nat.add_0_r by lia. }
  assert (∀ k o, (k < ns_dynamic_len (space_at m b))%nat → ¬ (Z.to_nat cp ≤ k < Z.to_nat cp + Z.to_nat dp)%nat → 0 ≤ o < PAGE_BYTES →
    memory (nth k frames 0 + o) = ph_memory (mc_physical m) (nth k frames 0 + o)) as Hold.
  { intros k o Hk Hn Ho. apply L2. eapply (held_elsewhere nx t0 kernel_end heap m _ _ _ _ b (Z.to_nat cp));
      [done|done|by apply full_nth|by rewrite El|done]. }
  split_and!.
  - intros k o Hk Ho. rewrite Hold by lia. rewrite <- (Nat.add_0_l (Z.to_nat k)).
    rewrite (stretch_byte m b 0 (Z.to_nat cp)) by (done || lia). apply (vs_code _ _ _ _ _ Hv). fold cp. unfold PAGE_BYTES in *. lia.
  - intros k o Hk Ho. rewrite Z2Nat.inj_add by lia. rewrite (stretch_byte m b (Z.to_nat cp) (Z.to_nat dp)) by (done || lia).
    assert (0 ≤ k * PAGE_BYTES + o < dp * PAGE_BYTES) as Hpos by (unfold PAGE_BYTES in *; lia).
    fold frames l. rewrite L1 by (unfold view_bytes; rewrite El, Z2Nat.id by lia; done).
    pose proof (vs_bytes _ _ _ _ _ Hv _ Hpos) as Hb. fold cp dp frames l in Hb. rewrite Hb. unfold data_byte.
    set (pos := k * PAGE_BYTES + o) in *. rewrite Z.sub_0_r, Z.add_0_l.
    destruct (decide (0 ≤ pos < Zlength request)), (Z.ltb_spec pos (Zlength request)); try lia.
    destruct (decide (ABI_PAYLOAD_OFFSET ≤ pos)), (Z.leb_spec ABI_PAYLOAD_OFFSET pos); done || lia.
  - intros k o Hk Ho. unfold V2_HEAP_PAGES, V2_STACK_PAGES in Hk. rewrite Hold by lia.
    apply (vs_zero _ _ _ _ _ Hv); [|done]. fold cp dp. lia.
Qed.

Lemma v2_shows img m s ns perm b request page :
  machine_inv m s ns perm None → (b < MAX_NATIVE_SPACES)%nat → v2_space nx t0 img b m → image_ok img →
  img_format_version img = 2 → Zlength request ≤ ABI_PAYLOAD_OFFSET → 0 ≤ page < 2 ^ 27 →
  shows (poke m (ns_data_physical (space_at m b)) request) b page (v2_view img request page).
Proof.
  intros Hm Hb Hv Hok Hver Hr Hp. pose proof (io_zero _ Hok) as Hz. destruct (pages_nonneg img Hz) as (Hdp & Hcp & _).
  destruct (v2_bytes img m s ns perm b request Hm Hv Hz Hr) as (B1 & B2 & B3).
  assert (div_ceil_page (Zlength (img_code img)) ≤ 8) as Hcp8.
  { pose proof (io_code _ Hok) as Hc. rewrite Hver in Hc. cbn in Hc. pose proof (div_ceil_page_spec (Zlength (img_code img)) ltac:(unfold Zlength; lia)).
    unfold PAGE_BYTES in *. lia. }
  assert (div_ceil_page (ABI_PAYLOAD_OFFSET + Zlength (img_data img) + img_zero_bytes img) ≤ 6) as Hdp6.
  { pose proof (io_data _ Hok) as Hc. rewrite Hver in Hc. cbn in Hc. unfold ABI_PAYLOAD_OFFSET in *.
    pose proof (div_ceil_page_spec (256 + Zlength (img_data img) + img_zero_bytes img) ltac:(unfold Zlength; lia)). unfold PAGE_BYTES in *. lia. }
  pose proof (vs_len _ _ _ _ _ Hv) as Hlen. unfold v2_view.
  pose proof (vs_entry _ _ _ _ _ Hv page) as E. unfold v2_entry in E.
  rewrite (vs_data _ _ _ _ _ Hv). rewrite Hcp in E, Hlen. set (m' := poke m _ request).
  set (cp := div_ceil_page (Zlength (img_code img))) in *.
  set (dp := div_ceil_page (ABI_PAYLOAD_OFFSET + Zlength (img_data img) + img_zero_bytes img)) in *.
  assert (machine_inv m' s ns perm None) as Hm' by (by apply inv_memory).
  assert (∀ k, 0 ≤ k < cp + dp + V2_HEAP_PAGES + V2_STACK_PAGES →
    page_address (nth (Z.to_nat k) (ns_dynamic_frames (space_at m b)) 0)) as Haddr.
  { intros k Hk. destruct (held_frame nx t0 kernel_end heap m s ns perm None b (Z.to_nat k)
      (nth (Z.to_nat k) (ns_dynamic_frames (space_at m b)) 0) Hm) as (_ & _ & _ & _ & [Hs1 Hs2] & _).
    - apply full_nth; [by eapply vs_full|lia].
    - split; [lia|done]. }
  pose proof (vs_active _ _ _ _ _ Hv) as Ha. pose proof (vs_service _ _ _ _ _ Hv) as Hsv.
  unfold V2_STACK_INDEX, V2_STACK_PAGES, V2_HEAP_INDEX, V2_HEAP_PAGES, V2_DATA_INDEX in *.
  destruct ((33 <=? page) && (page <? 33 + 4)) eqn:E1; [|destruct ((16 <=? page) && (page <? 16 + 16)) eqn:E2;
    [|destruct ((9 <=? page) && (page <? 9 + dp)) eqn:E3; [|destruct ((0 <=? page) && (page <? cp)) eqn:E4]]]; bools.
  - eapply (shows_data m' s ns perm b Hm' Hb Ha Hsv); [lia|exact E|apply Haddr; lia|]. intros o Ho. apply B3; lia.
  - eapply (shows_data m' s ns perm b Hm' Hb Ha Hsv); [lia|exact E|apply Haddr; lia|]. intros o Ho. apply B3; lia.
  - eapply (shows_data m' s ns perm b Hm' Hb Ha Hsv); [lia|exact E|apply Haddr; lia|]. intros o Ho. apply B2; lia.
  - eapply (shows_code m' s ns perm b Hm' Hb Ha Hsv); [lia|exact E|apply Haddr; lia|]. intros o Ho. apply B1; lia.
  - apply (shows_hole m' s ns perm b Hm' Hb Ha Hsv); [done|]. intros _. exact E.
Qed.
End view.

(** ** Properties *)

(** C4. A Form that has been prepared finds exactly its image.  In every state of the
    machine, when [prepare] returns a Form, the processor finds at every page of the
    user range what the view of the image says: code executable and not writable,
    data, heap and stack writable and, with NX, not executable, nothing at the guard
    pages and beyond; and every byte of those pages is the image's, the first
    request's, or the filler.  The registers point at the entry, the request and the
    top of the stack, and the confined range is accepted. *)
Theorem prepare_loads_form `{NativeStatics} nx t0 kernel_end heap layout usable handoff m0 m form execute log content m' p page :
  statics_ok t0 kernel_end heap → boots nx t0 kernel_end layout usable handoff m0 → rtc (machine_step nx heap) m0 m →
  Forall byte_range content → length (Fin_bytes form) = 16%nat → prepare nx form execute log content m = (m', Ok p) →
  0 ≤ page < 2 ^ 27 →
  ∃ image, classify nx content = Ok image ∧
    shows nx m' (pf_slot p) page (form_view image content (log_request form log image content) (fh_id execute) page) ∧
    pf_frame p = start_frame image execute log ∧
    AddressSpace_confined (nst_page (pf_slot p) Pml4) USER_CODE (form_bounds image).2 = Some (pf_address_space p).
Proof.
  intros SO Hboot Hrun Hc Hf E Hp. destruct (run_inv nx t0 kernel_end heap SO _ _ _ _ _ Hboot Hrun) as (s & ns & perm & Hm).
  destruct (prepare_spec nx t0 kernel_end heap SO _ _ _ _ _ _ _ _ _ _ Hm Hc E) as (s' & perm' & _ & image & m1 & Ei & Hm1 & Hb & Hsp & _ & _ & Ep & ->).
  exists image. split; [done|]. pose proof (log_request_length form log image content Hf) as Hr.
  assert (Zlength (log_request form log image content) ≤ ABI_PAYLOAD_OFFSET) as Hr' by (rewrite Hr; done).
  split; [|rewrite Ep; cbn [pf_slot pf_frame pf_address_space]; split; [done|]; apply (confined_accepts t0 kernel_end heap SO); [done|];
    unfold form_bounds; repeat case_match; done].
  unfold prepared_space in Hsp. unfold form_view, write_code. destruct image as [img|].
  - destruct (classify_image nx content img Hc Ei) as [Hok _]. destruct (Z.eqb_spec (img_format_version img) 2) as [E2|E2].
    + rewrite E2. change (2 =? 1) with false. cbn iota. by eapply (v2_shows nx t0 kernel_end heap SO).
    + assert (img_format_version img = 1) as E1 by (destruct (io_version _ Hok); [done|lia]). rewrite E1, (w1_data _ _ _ _ _ Hsp).
      change (1 =? 1) with true. cbn iota. eapply (v1_shows nx t0 kernel_end heap SO); try done.
      pose proof (io_code _ Hok) as Hcode. rewrite E1 in Hcode. exact Hcode.
  - rewrite (w1_data _ _ _ _ _ Hsp). eapply (v1_shows nx t0 kernel_end heap SO); try done. apply capsule_code_length.
Qed.

#[local] Existing Instance demo_statics.

Lemma prepare_loads_form_witness :
  ∃ m m' p image, boots true demo_boot 10485760 demo_layout [(10485760, 33554432)] [] m ∧
    prepare true (MkFin (replicate 16 1)) demo_handle demo_handle (lit "print('hi')") m = (m', Ok p) ∧
    classify true (lit "print('hi')") = Ok image ∧
    shows true m' (pf_slot p) 1
      (form_view image (lit "print('hi')") (log_request (MkFin (replicate 16 1)) demo_handle image (lit "print('hi')")) 7 1).
Proof.
  destruct demo_boots as [m Hm]. pose proof (bo_spaces _ _ _ _ _ _ _ Hm) as Es.
  assert (prepare true (MkFin (replicate 16 1)) demo_handle demo_handle (lit "print('hi')") m =
    ((prepare true (MkFin (replicate 16 1)) demo_handle demo_handle (lit "print('hi')") m).1,
     Ok (MkPrepared 0 (confined_space 0 USER_END) (start_frame None demo_handle demo_handle)))) as E.
  { rewrite (surjective_pairing (prepare _ _ _ _ _ _)) at 1. f_equal. unfold prepare. rewrite Es. by vm_compute. }
  destruct (prepare_loads_form true demo_boot 10485760 (6291456, 10485760) demo_layout [(10485760, 33554432)] [] m m
    (MkFin (replicate 16 1)) demo_handle demo_handle (lit "print('hi')") _ _ 1 demo_statics_ok Hm (rtc_refl _ _)
    ltac:(repeat constructor; by vm_compute) eq_refl E ltac:(lia)) as (image & Ei & Hs & _).
  by eexists m, _, _, image.
Defined.
