(* ===== verification/NetPortal.v ===== *)
(** * The network driver portal

    The part of kernel/src/network.rs through which a worker in Ring 3 drives the
    network card: leasing its memory for DMA, reading and writing allowlisted
    registers, giving the lease back, and the copying of frames through the drivers
    inside the kernel.

    The state is the static [NETWORK] (the fields of the release build), the static
    [DRIVER_PORTAL], and the card: the last value written to each of its ports, and
    the command word in PCI configuration space.  What the hardware answers is an
    argument, [Hardware]: the ports, the links and the two drivers in the kernel. *)

From stdpp Require Import prelude list functions.
From Stdlib Require Import ZArith Lia.
From S2P Require Import Prelude.

Set Default Goal Selector "!".
Open Scope Z_scope.
Open Scope expos_scope.

(** ** Data *)

Definition IDR0 : Z := 0x00.
Definition TSD0 : Z := 0x10.
Definition TSAD0 : Z := 0x20.
Definition RBSTART : Z := 0x30.
Definition COMMAND : Z := 0x37.
Definition CAPR : Z := 0x38.
Definition IMR : Z := 0x3C.
Definition ISR : Z := 0x3E.
Definition TCR : Z := 0x40.
Definition RCR : Z := 0x44.
Definition CONFIG1 : Z := 0x52.
Definition MEDIA_STATUS : Z := 0x58.
Definition COMMAND_TX_ENABLE : Z := Z.shiftl 1 2.
Definition COMMAND_RX_ENABLE : Z := Z.shiftl 1 3.
Definition COMMAND_RESET : Z := Z.shiftl 1 4.
Definition RX_RING_SIZE : Z := 8 * 1024.
Definition MAX_FRAME_SIZE : Z := 1536.
Definition RX_BUFFER_SIZE : Z := RX_RING_SIZE + 16 + MAX_FRAME_SIZE.
Definition TX_BUFFER_COUNT : nat := 4.

Inductive NetworkError :=
  | NetCapabilityDenied | NetPolicyDisabled | NetBadAddress | NetBadHostname | NetBadUrl | NetUnsupportedScheme
  | NetNoDevice | NetLinkDown | NetArpTimeout | NetTransmitFailed | NetReceiveFailed | NetPacketTooLarge
  | NetReplyTimeout | NetDnsTimeout | NetMalformedDns | NetDhcpTimeout | NetMalformedDhcp | NetTcpTimeout
  | NetTcpReset | NetEntropyUnavailable | NetTlsHandshake | NetTlsCertificate | NetTlsProtocol
  | NetEndpointDenied | NetMalformedHttp.

Inductive Backend := Unavailable | Rtl8139 | E1000 | Virtio.
#[export] Instance Backend_eq_dec : EqDecision Backend.
Proof. solve_decision. Defined.

Definition Backend_code (self : Backend) : Z :=
  match self with Unavailable => 0 | Rtl8139 => 1 | E1000 => 2 | Virtio => 3 end.

(** The fields of [Ipv4Configuration] the portal reports. *)
Record Ipv4Configuration := MkIpv4 {
  ip_address : list Z; ip_netmask : list Z; ip_gateway : list Z; ip_dns_server : list Z }.

Record NetworkStack := MkNetworkStack {
  nw_initialized : bool; nw_backend : Backend; nw_io_base : Z; nw_pci_bus : Z; nw_pci_slot : Z; nw_mac : list Z;
  nw_transmitted_packets : Z; nw_received_packets : Z; nw_dropped_packets : Z; nw_configuration : Ipv4Configuration }.

Definition NetworkStack_eta (n : NetworkStack) : NetworkStack :=
  MkNetworkStack (nw_initialized n) (nw_backend n) (nw_io_base n) (nw_pci_bus n) (nw_pci_slot n) (nw_mac n)
    (nw_transmitted_packets n) (nw_received_packets n) (nw_dropped_packets n) (nw_configuration n).
#[export] Instance set_nw_transmitted_packets : Setter nw_transmitted_packets := ltac:(build_setter NetworkStack_eta).
#[export] Instance set_nw_received_packets : Setter nw_received_packets := ltac:(build_setter NetworkStack_eta).
#[export] Instance set_nw_dropped_packets : Setter nw_dropped_packets := ltac:(build_setter NetworkStack_eta).

Record DriverPortal := MkPortal {
  po_active : bool; po_io_base : Z; po_pci_bus : Z; po_pci_slot : Z; po_receive_physical : Z;
  po_transmit_physical : list Z }.

Definition DriverPortal_empty : DriverPortal := MkPortal false 0 0 0 0 (replicate TX_BUFFER_COUNT 0).

(** The card as the processor sees it. *)
Record Nic := MkNic { nic_out : Z → option Z; nic_command : Z → Z → Z }.

Definition Nic_eta (n : Nic) : Nic := MkNic (nic_out n) (nic_command n).
#[export] Instance set_nic_out : Setter nic_out := ltac:(build_setter Nic_eta).
#[export] Instance set_nic_command : Setter nic_command := ltac:(build_setter Nic_eta).

Record Net := MkNet { net_stack : NetworkStack; net_portal : DriverPortal; net_nic : Nic }.

Definition Net_eta (n : Net) : Net := MkNet (net_stack n) (net_portal n) (net_nic n).
#[export] Instance set_net_stack : Setter net_stack := ltac:(build_setter Net_eta).
#[export] Instance set_net_portal : Setter net_portal := ltac:(build_setter Net_eta).
#[export] Instance set_net_nic : Setter net_nic := ltac:(build_setter Net_eta).

(** What the hardware answers at one moment: a port read with a width, the state of
    a link, and the results of the drivers inside the kernel.  [hw_receive] also
    gives the buffer as the driver leaves it. *)
Record Hardware := MkHardware {
  hw_in : Z → Z → Z; hw_link : Backend → bool; hw_send : Backend → list Z → result unit NetworkError;
  hw_receive : Backend → list Z → list Z * result Z NetworkError; hw_now : Z; hw_later : Z }.

(** ** Operations *)

(** [port::out*]; the I/O window of the card is 256 ports. *)
Definition port_out (nic : Nic) (port value : Z) : Nic := nic <| nic_out := <[port := Some value]> (nic_out nic) |>.

(** [pci_write] of the command word, offset 4 of function 0. *)
Definition pci_command (nic : Nic) (bus slot value : Z) : Nic :=
  nic <| nic_command := <[bus := <[slot := value]> (nic_command nic bus)]> (nic_command nic) |>.

Definition service_driver_acquire (physical aperture_bytes receive_bytes transmit_bytes transmit_count : Z) (net : Net)
    : Net * result unit NetworkError :=
  if negb (physical mod 256 =? 0) || (receive_bytes !=? RX_BUFFER_SIZE) || (transmit_bytes !=? MAX_FRAME_SIZE) ||
     (transmit_count !=? Z.of_nat TX_BUFFER_COUNT) || (aperture_bytes <? receive_bytes + transmit_bytes * transmit_count) ||
     match checked_add usize_max physical aperture_bytes with None => true | Some end_ => u32_max <? end_ end
  then (net, Err NetEndpointDenied)
  else
    let network := net_stack net in
    if negb (nw_initialized network) || (nw_backend network !=? Rtl8139) || (nw_io_base network =? 0)
    then (net, Err NetNoDevice)
    else if po_active (net_portal net) then (net, Err NetTransmitFailed)
    else
      let transmit_physical :=
        (λ index, (physical + receive_bytes + Z.of_nat index * transmit_bytes) mod 2 ^ 32) <$> seq 0 TX_BUFFER_COUNT in
      let command := nic_command (net_nic net) (nw_pci_bus network) (nw_pci_slot network) in
      (net <| net_nic := pci_command (net_nic net) (nw_pci_bus network) (nw_pci_slot network) (Z.lor command 5) |>
           <| net_portal := MkPortal true (nw_io_base network) (nw_pci_bus network) (nw_pci_slot network)
                              (physical mod 2 ^ 32) transmit_physical |>, Ok tt).

(** [(base..base + TX_BUFFER_COUNT as u16 * 4).contains(&register)] and a multiple of four from it *)
Definition descriptor (base register : Z) : bool :=
  (base <=? register) && (register <? base + Z.of_nat TX_BUFFER_COUNT * 4).
Definition descriptor_start (base register : Z) : bool := descriptor base register && ((register - base) mod 4 =? 0).

Definition service_driver_read (hw : Hardware) (register width : Z) (net : Net) : result Z NetworkError :=
  let portal := net_portal net in
  if negb (po_active portal) then Err NetNoDevice
  else
    let allowed :=
      match width with
      | 1 => ((IDR0 <=? register) && (register <? IDR0 + 6)) || (register =? COMMAND) || (register =? MEDIA_STATUS)
      | 2 => register =? ISR
      | 4 => descriptor_start TSD0 register
      | _ => false
      end in
    if negb allowed then Err NetEndpointDenied else Ok (hw_in hw (po_io_base portal + register) width).

Definition driver_write_value (portal : DriverPortal) (register width requested : Z) : option Z :=
  if (register =? CONFIG1) && (width =? 1) && (requested =? 0) then Some 0
  else if (register =? COMMAND) && (width =? 1) &&
    existsb (Z.eqb (requested mod 256))
      [0; COMMAND_RESET; COMMAND_RX_ENABLE; COMMAND_TX_ENABLE; Z.lor COMMAND_RX_ENABLE COMMAND_TX_ENABLE]
  then Some requested
  else if (register =? RBSTART) && (width =? 4) && (requested =? 0) then Some (po_receive_physical portal)
  else if (width =? 4) && descriptor_start TSAD0 register && (requested =? 0)
  then po_transmit_physical portal !! Z.to_nat ((register - TSAD0) / 4)
  else if (register =? IMR) && (width =? 2) && (requested =? 0) then Some 0
  else if (register =? ISR) && (width =? 2) && (requested =? 0xFFFF) then Some 0xFFFF
  else if (register =? TCR) && (width =? 4) && (requested =? 0x03000000) then Some requested
  else if (register =? RCR) && (width =? 4) &&
    (requested =? Z.lor (Z.lor (Z.lor (Z.shiftl 7 13) (Z.shiftl 7 8)) (Z.shiftl 1 3)) (Z.shiftl 1 1))
  then Some requested
  else if (register =? CAPR) && (width =? 2) && ((requested =? 0xFFF0) || (requested <? RX_RING_SIZE)) then Some requested
  else if (width =? 4) && descriptor_start TSD0 register && (Z.land requested 0xFFFF0000 =? Z.shiftl 32 16) &&
    ((60 <=? Z.land requested 0x1FFF) && (Z.land requested 0x1FFF <=? MAX_FRAME_SIZE))
  then Some requested
  else None.

Definition service_driver_write (register width requested : Z) (net : Net) : Net * result unit NetworkError :=
  let portal := net_portal net in
  if negb (po_active portal) then (net, Err NetNoDevice)
  else
    match driver_write_value portal register width requested with
    | None => (net, Err NetEndpointDenied)
    | Some value =>
        let value := match width with 1 => value mod 2 ^ 8 | 2 => value mod 2 ^ 16 | _ => value end in
        let net := net <| net_nic := port_out (net_nic net) (po_io_base portal + register) value |> in
        let network := net_stack net in
        let network :=
          if (width =? 4) && descriptor TSD0 register
          then network <| nw_transmitted_packets := saturating_add u64_max (nw_transmitted_packets network) 1 |>
          else if register =? CAPR
          then network <| nw_received_packets := saturating_add u64_max (nw_received_packets network) 1 |>
          else network in
        (net <| net_stack := network |>, Ok tt)
    end.

Definition service_driver_release (net : Net) : Net :=
  let portal := net_portal net in
  if negb (po_active portal) then net
  else
    let nic := port_out (net_nic net) (po_io_base portal + IMR) 0 in
    let nic := port_out nic (po_io_base portal + COMMAND) 0 in
    let command := nic_command nic (po_pci_bus portal) (po_pci_slot portal) in
    let nic := pci_command nic (po_pci_bus portal) (po_pci_slot portal) (Z.land command (u32_max - 4)) in
    net <| net_nic := nic |> <| net_portal := DriverPortal_empty |>.

Definition NetworkStack_link_up (hw : Hardware) (self : NetworkStack) : bool :=
  nw_initialized self &&
  match nw_backend self with
  | Rtl8139 => Z.land (hw_in hw (nw_io_base self + MEDIA_STATUS) 1) (Z.shiftl 1 2) =? 0
  | E1000 => hw_link hw E1000
  | Virtio => hw_link hw Virtio
  | Unavailable => false
  end.

(** [pack]: the bytes from the least significant one on *)
Fixpoint pack (bytes : list Z) (index : Z) (value : Z) : Z :=
  match bytes with
  | [] => value
  | byte :: bytes => pack bytes (index + 1) (Z.lor value (Z.shiftl byte (index * 8)))
  end.

Definition service_configuration (hw : Hardware) (net : Net) : result (list Z) NetworkError :=
  let network := net_stack net in
  if negb (nw_initialized network) then Err NetNoDevice
  else
    let configuration := nw_configuration network in
    Ok [pack (nw_mac network) 0 0;
        Z.lor (pack (ip_address configuration) 0 0) (Z.shiftl (pack (ip_netmask configuration) 0 0) 32);
        Z.lor (pack (ip_gateway configuration) 0 0) (Z.shiftl (pack (ip_dns_server configuration) 0 0) 32);
        Z.lor (Z.b2z (NetworkStack_link_up hw network)) (Z.shiftl (Backend_code (nw_backend network)) 8)].

Definition service_frame_send (hw : Hardware) (frame : list Z) (net : Net) : Net * result unit NetworkError :=
  if MAX_FRAME_SIZE <? Zlength frame then (net, Err NetPacketTooLarge)
  else
    let result :=
      match nw_backend (net_stack net) with
      | E1000 => hw_send hw E1000 frame
      | Virtio => hw_send hw Virtio frame
      | _ => Err NetNoDevice
      end in
    let network := net_stack net in
    let network :=
      match result with
      | Ok _ => network <| nw_transmitted_packets := saturating_add u64_max (nw_transmitted_packets network) 1 |>
      | Err _ => network <| nw_dropped_packets := saturating_add u64_max (nw_dropped_packets network) 1 |>
      end in
    (net <| net_stack := network |>, result).

(** The buffer afterwards comes with the result. *)
Definition service_frame_receive (hw : Hardware) (frame : list Z) (net : Net)
    : Net * list Z * result Z NetworkError :=
  if MAX_FRAME_SIZE <? Zlength frame then (net, frame, Err NetPacketTooLarge)
  else
    let '(frame, result) :=
      match nw_backend (net_stack net) with
      | E1000 => hw_receive hw E1000 frame
      | Virtio => hw_receive hw Virtio frame
      | _ => (frame, Err NetNoDevice)
      end in
    let network := net_stack net in
    let network :=
      match result with
      | Ok length =>
          if negb (length =? 0)
          then network <| nw_received_packets := saturating_add u64_max (nw_received_packets network) 1 |>
          else network
      | Err _ => network <| nw_dropped_packets := saturating_add u64_max (nw_dropped_packets network) 1 |>
      end in
    (net <| net_stack := network |>, frame, result).

(** ** Specification *)

Inductive PortalCall :=
  | Acquire (physical aperture receive transmit count : Z) | Write (register width requested : Z) | Release
  | Send (hw : Hardware) (frame : list Z) | Receive (hw : Hardware) (frame : list Z).

Definition portal_step (net : Net) (call : PortalCall) : Net :=
  match call with
  | Acquire physical aperture receive transmit count =>
      (service_driver_acquire physical aperture receive transmit count net).1
  | Write register width requested => (service_driver_write register width requested net).1
  | Release => service_driver_release net
  | Send hw frame => (service_frame_send hw frame net).1
  | Receive hw frame => (service_frame_receive hw frame net).1.1
  end.

(** The memory that is lent: the range of the last lease granted and not given back. *)
Definition lease_after (net : Net) (lease : option (Z * Z)) (call : PortalCall) : option (Z * Z) :=
  match call with
  | Acquire physical aperture receive transmit count =>
      if (service_driver_acquire physical aperture receive transmit count net).2 is Ok _
      then Some (physical, aperture) else lease
  | Release => None
  | _ => lease
  end.

Definition portal_after (state : Net * option (Z * Z)) (call : PortalCall) : Net * option (Z * Z) :=
  (portal_step state.1 call, lease_after state.1 state.2 call).

(** The registers that hold a bus address: where the buffer of each lies in a lease,
    and how many bytes the card uses there. *)
Inductive dma_register : Z → Z → Z → Prop :=
  | dma_receive : dma_register RBSTART 0 RX_BUFFER_SIZE
  | dma_transmit i : 0 ≤ i < 4 → dma_register (TSAD0 + 4 * i) (RX_BUFFER_SIZE + i * MAX_FRAME_SIZE) MAX_FRAME_SIZE.

(** The other registers a worker may write. *)
Definition plain_register (register : Z) : Prop :=
  register ∈ [CONFIG1; COMMAND; IMR; ISR; TCR; RCR; CAPR] ∨ ∃ i, 0 ≤ i < 4 ∧ register = TSD0 + 4 * i.

(** The card is told to leave memory alone. *)
Definition quiet (net : Net) : Prop :=
  let network := net_stack net in
  nic_out (net_nic net) (nw_io_base network + COMMAND) = Some 0 ∧
  nic_out (net_nic net) (nw_io_base network + IMR) = Some 0 ∧
  Z.testbit (nic_command (net_nic net) (nw_pci_bus network) (nw_pci_slot network)) 2 = false.

(** What a call may do to the card while [lease] is lent. *)
Record card_step (lease : option (Z * Z)) (net net' : Net) : Prop := {
  cs_ports : ∀ port, nic_out (net_nic net') port ≠ nic_out (net_nic net) port →
    is_Some lease ∧ ∃ register, port = nw_io_base (net_stack net) + register ∧
      (plain_register register ∨ ∃ offset bytes, dma_register register offset bytes);
  cs_address : ∀ register offset bytes, dma_register register offset bytes →
    let port := nw_io_base (net_stack net) + register in
    nic_out (net_nic net') port ≠ nic_out (net_nic net) port →
    ∃ start length, lease = Some (start, length) ∧ nic_out (net_nic net') port = Some (start + offset) ∧
      offset + bytes ≤ length ∧ start + length < 2 ^ 32;
  cs_transmit : ∀ i, 0 ≤ i < 4 → let port := nw_io_base (net_stack net) + TSD0 + 4 * i in
    nic_out (net_nic net') port ≠ nic_out (net_nic net) port →
    ∃ value, nic_out (net_nic net') port = Some value ∧ 60 ≤ Z.land value 0x1FFF ≤ MAX_FRAME_SIZE }.

(** ** Lemmas *)

Lemma stack_fixed net call : let stack := net_stack net in let stack' := net_stack (portal_step net call) in
  nw_io_base stack' = nw_io_base stack ∧ nw_pci_bus stack' = nw_pci_bus stack ∧ nw_pci_slot stack' = nw_pci_slot stack.
Proof.
  destruct call; cbn; unfold service_driver_acquire, service_driver_write, service_driver_release, service_frame_send,
    service_frame_receive; repeat (case_match || case_match; simplify_eq); done.
Qed.

(** The arguments as the widths of the ABI leave them. *)
Definition portal_call_ok (call : PortalCall) : Prop :=
  match call with Acquire physical aperture _ _ _ => 0 ≤ physical ∧ 0 ≤ aperture | _ => True end.

(** The portal has the addresses of the lease. *)
Record portal_inv (net0 net : Net) (lease : option (Z * Z)) : Prop := {
  pi_active : po_active (net_portal net) = true ↔ is_Some lease;
  pi_lease : ∀ start length, lease = Some (start, length) →
    let portal := net_portal net in let network := net_stack net in
    po_io_base portal = nw_io_base network ∧ po_pci_bus portal = nw_pci_bus network ∧
    po_pci_slot portal = nw_pci_slot network ∧ po_receive_physical portal = start ∧
    (∀ i, 0 ≤ i < 4 → po_transmit_physical portal !! Z.to_nat i = Some (start + RX_BUFFER_SIZE + i * MAX_FRAME_SIZE)) ∧
    RX_BUFFER_SIZE + 4 * MAX_FRAME_SIZE ≤ length ∧ start + length < 2 ^ 32;
  pi_idle : lease = None → net_nic net = net_nic net0 ∨ quiet net }.

Lemma acquire_inv net0 net lease physical aperture receive transmit count :
  portal_inv net0 net lease → 0 ≤ physical → 0 ≤ aperture →
  let call := Acquire physical aperture receive transmit count in
  portal_inv net0 (portal_step net call) (lease_after net lease call).
Proof.
  intros Hi Hp Ha. cbn. unfold service_driver_acquire.
  match goal with |- context [if ?c then (net, Err NetEndpointDenied) else _] => destruct c eqn:Eg end; [exact Hi|].
  match goal with |- context [if ?c then (net, Err NetNoDevice) else _] => destruct c end; [exact Hi|]. destruct (po_active (net_portal net)); [exact Hi|]. cbn. bools.
  subst receive transmit count. unfold checked_add in *. change u32_max with (2 ^ 32 - 1) in *. case_match; [|done]. bools. destruct (_ <=? usize_max); [|done]. simplify_eq.
  assert (RX_BUFFER_SIZE + MAX_FRAME_SIZE * 4 ≤ aperture) as Hl by (unfold TX_BUFFER_COUNT in *; cbn in *; lia).
  assert (physical + aperture < 2 ^ 32) as He by lia.
  constructor; cbn; [by split; [eexists|]| |done].
  intros start length [= <- <-]. split_and!; [done..|by apply Z.mod_small; lia| |unfold RX_BUFFER_SIZE, MAX_FRAME_SIZE, RX_RING_SIZE in *; lia|done].
  intros i Hi4. assert (i = 0 ∨ i = 1 ∨ i = 2 ∨ i = 3) as Hc by lia.
  unfold RX_BUFFER_SIZE, MAX_FRAME_SIZE, RX_RING_SIZE in *.
  destruct Hc as [->|[->|[->| ->]]]; cbn -[Z.modulo Z.pow Z.mul Z.add]; apply (f_equal Some); rewrite Z.mod_small; lia.
Qed.

(** What the portal writes, for each register it accepts. *)
Lemma write_value portal register width requested value :
  driver_write_value portal register width requested = Some value →
  (plain_register register ∧
    ∀ i, 0 ≤ i < 4 → register = TSD0 + 4 * i → width = 4 ∧ value = requested ∧ 60 ≤ Z.land value 0x1FFF ≤ MAX_FRAME_SIZE) ∨
  (width = 4 ∧ register = RBSTART ∧ value = po_receive_physical portal) ∨
  (width = 4 ∧ ∃ i, 0 ≤ i < 4 ∧ register = TSAD0 + 4 * i ∧ po_transmit_physical portal !! Z.to_nat i = Some value).
Proof.
  unfold driver_write_value, descriptor_start, descriptor, TX_BUFFER_COUNT, plain_register.
  assert (∀ base, base <= register < base + 16 → (register - base) mod 4 = 0 →
    ∃ i, 0 ≤ i < 4 ∧ register = base + 4 * i ∧ (register - base) / 4 = i) as Hd.
  { intros base H1 H2. exists ((register - base) / 4). pose proof (Z.div_mod (register - base) 4). lia. }
  repeat match goal with |- (if ?c then _ else _) = _ → _ => destruct c eqn:E; [intros Ev|clear E] end; [..|done]; bools; simplify_eq;
    try (left; split; [left; rewrite !elem_of_cons; tauto|]; unfold TSD0; intros i Hi Hr;
         unfold CONFIG1, COMMAND, IMR, ISR, TCR, RCR, CAPR in Hr; lia).
  - by right; left.
  - right; right. split; [done|]. destruct (Hd TSAD0) as (i & Hi & Hr & Hq); [cbn in *; lia|done|]. exists i.
    rewrite Hq in Ev. done.
  - left. destruct (Hd TSD0) as (i & Hi & Hr & Hq); [cbn in *; lia|done|]. split; [right; by exists i|].
    intros _ _ _. split_and!; [done|done|lia|lia].
Qed.

(** The ports of different registers are different ports. *)
Lemma dma_not_plain register offset bytes : dma_register register offset bytes → ¬ plain_register register.
Proof.
  unfold plain_register. rewrite !elem_of_cons, elem_of_nil.
  unfold CONFIG1, COMMAND, IMR, ISR, TCR, RCR, CAPR, TSD0.
  intros [|i Hi] [H|(j & Hj & H)]; unfold RBSTART, TSAD0 in *; naive_solver lia.
Qed.

Lemma dma_inj register register' offset offset' bytes bytes' :
  dma_register register offset bytes → dma_register register' offset' bytes' → register = register' →
  offset = offset' ∧ bytes = bytes'.
Proof. unfold RBSTART, TSAD0. intros [|i Hi] [|j Hj]; unfold RBSTART, TSAD0; intros E; by first [lia|replace j with i by lia]. Qed.

Lemma write_card net0 net lease register width requested :
  portal_inv net0 net lease →
  let net' := (service_driver_write register width requested net).1 in
  portal_inv net0 net' lease ∧ card_step lease net net'.
Proof.
  intros Hi. cbn. unfold service_driver_write.
  assert (card_step lease net net) as Hid by by constructor.
  destruct (po_active (net_portal net)) eqn:Ea; cbn [negb]; [|done].
  destruct (driver_write_value _ _ _ _) as [value|] eqn:Ev; cbn [fst]; [|done].
  assert (is_Some lease) as [[start length] ->] by by apply (pi_active _ _ _ Hi).
  pose proof (pi_lease _ _ _ Hi _ _ eq_refl) as (E1 & E2 & E3 & E4 & E5 & E6 & E7).
  match goal with |- context [port_out _ _ ?v0] => set (v := v0) end.
  match goal with |- context [if ?c then ?a else ?b] => set (network := if c then a else b) end.
  assert (nw_io_base network = nw_io_base (net_stack net) ∧ nw_pci_bus network = nw_pci_bus (net_stack net) ∧
    nw_pci_slot network = nw_pci_slot (net_stack net)) as (F1 & F2 & F3) by (unfold network; repeat case_match; done).
  split.
  - constructor; [apply Hi| |done]. intros ? ? [= <- <-]. cbn. rewrite F1, F2, F3. done.
  - rewrite E1. apply write_value in Ev.
    assert (∀ port, nic_out (port_out (net_nic net) (nw_io_base (net_stack net) + register) v) port ≠ nic_out (net_nic net) port →
      port = nw_io_base (net_stack net) + register) as Hport.
    { intros port Hne. cbn in Hne. destruct (decide (port = nw_io_base (net_stack net) + register)) as [|Hn]; [done|].
      by rewrite fn_lookup_insert_ne in Hne. }
    constructor; cbn [net_nic nic_out] in *.
    + intros port Hne%Hport. split; [done|]. exists register. split; [done|].
      destruct Ev as [[? _]|[(_ & -> & _)|(_ & i & ? & -> & _)]]; [by left|right; eexists _, _; constructor; done..].
    + intros r offset bytes Hr Hne. pose proof (Hport _ Hne) as Ep. assert (r = register) as -> by lia.
      exists start, length. split; [done|]. cbn. rewrite fn_lookup_insert.
      destruct Ev as [[? _]|[(-> & -> & ->)|(-> & i & Hi4 & -> & Ei)]]; [by apply dma_not_plain in Hr| |].
      * destruct (dma_inj _ _ _ _ _ _ Hr dma_receive eq_refl) as [-> ->]. unfold v. rewrite E4.
        split_and!; [f_equal; lia|unfold MAX_FRAME_SIZE in *; lia|lia].
      * destruct (dma_inj _ _ _ _ _ _ Hr (dma_transmit i Hi4) eq_refl) as [-> ->]. unfold v.
        rewrite E5 in Ei by done. simplify_eq. split_and!; [f_equal; lia|unfold MAX_FRAME_SIZE in *; lia|lia].
    + intros i Hi4 Hne. pose proof (Hport _ Hne) as Ep. assert (register = TSD0 + 4 * i) as Er by lia.
      rewrite <- Z.add_assoc, <- Er. cbn. rewrite fn_lookup_insert. exists v. split; [done|].
      destruct Ev as [[_ Hv]|[(_ & Hr & _)|(_ & j & Hj & Hr & _)]]; [|unfold TSD0, RBSTART, TSAD0 in *; lia..].
      destruct (Hv i Hi4 Er) as (-> & -> & Hb). done.
Qed.

Lemma release_card net0 net lease :
  portal_inv net0 net lease →
  let net' := service_driver_release net in portal_inv net0 net' None ∧ card_step lease net net'.
Proof.
  intros Hi. cbn. unfold service_driver_release. destruct (po_active (net_portal net)) eqn:Ea; cbn [negb].
  - assert (is_Some lease) as [[start length] ->] by by apply (pi_active _ _ _ Hi).
    pose proof (pi_lease _ _ _ Hi _ _ eq_refl) as (E1 & E2 & E3 & _). rewrite E1, E2, E3. split.
    + constructor; cbn; [by split; [|intros []]|done|]. intros _. right. unfold quiet. cbn -[Z.testbit].
      rewrite !fn_lookup_insert. rewrite (fn_lookup_insert_ne _ (nw_io_base (net_stack net) + COMMAND)), fn_lookup_insert
        by (unfold COMMAND, IMR; lia).
      split_and!; [done|done|]. rewrite Z.land_spec. apply andb_false_intro2. reflexivity.
    + constructor; cbn.
      * intros port Hne. split; [done|]. destruct (decide (port = nw_io_base (net_stack net) + COMMAND)) as [->|H1].
        -- exists COMMAND. split; [done|]. left. left. rewrite !elem_of_cons. tauto.
        -- destruct (decide (port = nw_io_base (net_stack net) + IMR)) as [->|H2]; [|by rewrite !fn_lookup_insert_ne in Hne].
           exists IMR. split; [done|]. left. left. rewrite !elem_of_cons. tauto.
      * intros r offset bytes Hr Hne. rewrite !fn_lookup_insert_ne in Hne; [done|..];
          intros E; apply (dma_not_plain _ _ _ Hr); left; assert (r = COMMAND ∨ r = IMR) as [->| ->] by lia;
          rewrite !elem_of_cons; tauto.
      * intros i Hi4 Hne. rewrite !fn_lookup_insert_ne in Hne by (unfold TSD0, COMMAND, IMR; lia). done.
  - destruct lease as [p|]; [|by split; [|constructor]].
    by rewrite (proj2 (pi_active _ _ _ Hi) ltac:(by eexists)) in Ea.
Qed.

Lemma portal_step_inv net0 net lease call :
  portal_inv net0 net lease → portal_call_ok call →
  portal_inv net0 (portal_step net call) (lease_after net lease call) ∧ card_step lease net (portal_step net call).
Proof.
  intros Hi Hc. destruct call as [p a r t c|register width requested| |hw frame|hw frame]; cbn [portal_step lease_after].
  - split; [by apply acquire_inv; [|apply Hc..]|]. unfold service_driver_acquire. repeat case_match; by constructor.
  - by apply write_card.
  - by eapply release_card.
  - unfold service_frame_send. repeat case_match; (split; [destruct Hi as [I1 I2 I3]; by constructor|by constructor]).
  - unfold service_frame_receive. repeat case_match; (split; [destruct Hi as [I1 I2 I3]; by constructor|by constructor]).
Qed.

Lemma portal_run_inv net0 calls :
  po_active (net_portal net0) = false → Forall portal_call_ok calls →
  let state := fold_left portal_after calls (net0, None) in portal_inv net0 state.1 state.2.
Proof.
  intros Ha. assert (portal_inv net0 (net0, None : option (Z * Z)).1 (net0, None : option (Z * Z)).2) as Hi.
  { constructor; cbn; [|done|by left]. rewrite Ha. by split; [|intros []]. }
  revert Hi. generalize (net0, None : option (Z * Z)). induction calls as [|call calls IH]; intros [net lease] Hi Hc; [done|].
  inversion Hc as [|? ? Hc1 Hcs]; subst. apply IH; [|done]. by apply portal_step_inv.
Qed.

(** ** Properties *)

(** C37. The portal programs only addresses that are lent.  Through any sequence of
    portal calls, a port changes only while a lease is held and only at an allowlisted register;
    a register that holds a bus address is given the address of its own buffer,
    inside the lease and below 4 GiB, and a transmission is at most as long as its
    buffer; the five buffers are apart.  When no lease is held, the card is as it was
    before the first one or has its transfers and bus mastering switched off. *)
Theorem portal_confines_dma net0 calls call :
  po_active (net_portal net0) = false → Forall portal_call_ok (calls ++ [call]) →
  let '(net, lease) := fold_left portal_after calls (net0, None) in
  card_step lease net (portal_step net call) ∧
  (lease = None → net_nic net = net_nic net0 ∨ quiet net) ∧
  (∀ register offset bytes register' offset' bytes', dma_register register offset bytes →
     dma_register register' offset' bytes' → register ≠ register' → offset + bytes ≤ offset' ∨ offset' + bytes' ≤ offset).
Proof.
  intros Ha [Hc Hcall]%Forall_app. pose proof (portal_run_inv net0 calls Ha Hc) as Hi.
  destruct (fold_left _ _ _) as [net lease]. cbn in Hi. split_and!.
  - apply (portal_step_inv net0 _ _ _ Hi). by apply Forall_singleton.
  - apply Hi.
  - intros r o b r' o' b' [|i Hi4] [|j Hj4]; unfold RX_BUFFER_SIZE, RX_RING_SIZE, MAX_FRAME_SIZE; lia.
Qed.

(** A card at ports 0xC000 and two arenas of one megabyte. *)
Definition demo_stack : NetworkStack :=
  MkNetworkStack true Rtl8139 0xC000 0 3 [82; 84; 0; 18; 52; 86] 0 0 0 (MkIpv4 [10; 0; 2; 15] [255; 255; 255; 0] [10; 0; 2; 2] [10; 0; 2; 3]).
Definition demo_net : Net := MkNet demo_stack DriverPortal_empty (MkNic (λ _, None) (λ _ _, 3)).
Definition demo_acquire (physical : Z) : PortalCall := Acquire physical 0x100000 RX_BUFFER_SIZE MAX_FRAME_SIZE 4.

Lemma portal_confines_dma_witness :
  nic_out (net_nic (portal_step (portal_step demo_net (demo_acquire 0x300000)) (Write (TSAD0 + 8) 4 0))) (0xC000 + (TSAD0 + 8)) =
    Some (0x300000 + (RX_BUFFER_SIZE + 2 * MAX_FRAME_SIZE)).
Proof.
  pose proof (portal_confines_dma demo_net [demo_acquire 0x300000] (Write (TSAD0 + 8) 4 0) eq_refl) as H.
  cbn [fold_left portal_after] in H. destruct H as [[_ Ha _] _].
  - repeat constructor; lia.
  - destruct (Ha _ _ _ (dma_transmit 2 ltac:(lia))) as (start & length & Hl & Hv & _).
    + vm_compute. discriminate.
    + vm_compute in Hl. injection Hl as <- <-. exact Hv.
Defined.

(** The calls of the next theorem, on a card that is ready. *)
Lemma acquire_granted net lease physical :
  0 ≤ physical < 2 ^ 31 → physical mod 256 = 0 → nw_initialized (net_stack net) = true →
  nw_backend (net_stack net) = Rtl8139 → (nw_io_base (net_stack net) =? 0) = false → po_active (net_portal net) = false →
  let network := net_stack net in
  let command := nic_command (net_nic net) (nw_pci_bus network) (nw_pci_slot network) in
  ∃ transmit, portal_after (net, lease) (demo_acquire physical) =
    (MkNet network (MkPortal true (nw_io_base network) (nw_pci_bus network) (nw_pci_slot network) physical transmit)
       (pci_command (net_nic net) (nw_pci_bus network) (nw_pci_slot network) (Z.lor command 5)), Some (physical, 0x100000)).
Proof.
  intros Hp Hm E1 E2 E3 E4. eexists. unfold portal_after, demo_acquire, portal_step, lease_after, service_driver_acquire.
  cbn [fst snd]. rewrite Hm, E1, E2, E3, E4. unfold checked_add, usize_max, u64_max, u32_max.
  rewrite (proj2 (Z.leb_le (physical + 0x100000) _)), (proj2 (Z.ltb_ge _ (physical + 0x100000))) by lia.
  cbn -[Z.modulo Z.pow]. by rewrite (Z.mod_small physical) by lia.
Qed.

Lemma write_receive net lease :
  po_active (net_portal net) = true →
  portal_after (net, lease) (Write RBSTART 4 0) =
    (MkNet (net_stack net) (net_portal net)
       (port_out (net_nic net) (po_io_base (net_portal net) + RBSTART) (po_receive_physical (net_portal net))), lease).
Proof. unfold portal_after. cbn. unfold service_driver_write. by intros ->. Qed.

Lemma write_enable net lease :
  po_active (net_portal net) = true →
  portal_after (net, lease) (Write COMMAND 1 COMMAND_RX_ENABLE) =
    (MkNet (net_stack net) (net_portal net)
       (port_out (net_nic net) (po_io_base (net_portal net) + COMMAND) COMMAND_RX_ENABLE), lease).
Proof. unfold portal_after. cbn. unfold service_driver_write. by intros ->. Qed.

Lemma release_granted net lease :
  po_active (net_portal net) = true →
  let portal := net_portal net in
  let nic := port_out (port_out (net_nic net) (po_io_base portal + IMR) 0) (po_io_base portal + COMMAND) 0 in
  portal_after (net, lease) Release =
    (MkNet (net_stack net) DriverPortal_empty
       (pci_command nic (po_pci_bus portal) (po_pci_slot portal)
          (Z.land (nic_command nic (po_pci_bus portal) (po_pci_slot portal)) (u32_max - 4))), None).
Proof. unfold portal_after. cbn. unfold service_driver_release. by intros ->. Qed.

(** Giving a lease back leaves the address registers as they are, and a new lease lets
    the card use the bus at once: a worker that enables reception before it writes
    [RBSTART] makes the card receive into the arena of the worker before it, which
    the kernel has freed. *)
Theorem portal_keeps_old_address net0 old new :
  nw_initialized (net_stack net0) = true → nw_backend (net_stack net0) = Rtl8139 → nw_io_base (net_stack net0) ≠ 0 →
  po_active (net_portal net0) = false →
  0 ≤ old < 2 ^ 31 → old mod 256 = 0 → 0 ≤ new < 2 ^ 31 → new mod 256 = 0 →
  let calls := [demo_acquire old; Write RBSTART 4 0; Release; demo_acquire new; Write COMMAND 1 COMMAND_RX_ENABLE] in
  let '(net, lease) := fold_left portal_after calls (net0, None) in
  let network := net_stack net in
  lease = Some (new, 0x100000) ∧ nic_out (net_nic net) (nw_io_base network + RBSTART) = Some old ∧
  nic_out (net_nic net) (nw_io_base network + COMMAND) = Some COMMAND_RX_ENABLE ∧
  Z.testbit (nic_command (net_nic net) (nw_pci_bus network) (nw_pci_slot network)) 2 = true.
Proof.
  intros H1 H2 H3%Z.eqb_neq Ha Ho Ho' Hn Hn'. cbn [fold_left].
  destruct (acquire_granted net0 None old) as (tx & ->); [done..|]. rewrite write_receive by done.
  rewrite release_granted by done.
  match goal with |- context [portal_after (?net, None) (demo_acquire new)] =>
    destruct (acquire_granted net None new) as (tx' & ->); [done..|] end.
  rewrite write_enable by done. cbn -[Z.testbit Z.land Z.lor]. unfold port_out, pci_command. cbn -[Z.testbit Z.land Z.lor].
  rewrite !fn_lookup_insert, !fn_lookup_insert_ne, !fn_lookup_insert by (unfold COMMAND, RBSTART, IMR; lia).
  split_and!; [done|done|done|]. rewrite Z.lor_spec. apply orb_true_r.
Qed.

Lemma portal_keeps_old_address_witness :
  nic_out (net_nic (fold_left portal_after [demo_acquire 0x300000; Write RBSTART 4 0; Release; demo_acquire 0x500000;
    Write COMMAND 1 COMMAND_RX_ENABLE] (demo_net, None)).1) (0xC000 + RBSTART) = Some 0x300000.
Proof.
  pose proof (portal_keeps_old_address demo_net 0x300000 0x500000) as H.
  specialize (H ltac:(reflexivity) ltac:(reflexivity) ltac:(discriminate) ltac:(reflexivity) ltac:(lia) ltac:(reflexivity) ltac:(lia) ltac:(reflexivity)).
  destruct H as (_ & H & _). exact H.
Defined.
