(* ===== verification/FormTrap.v ===== *)
(** * Traps of a running Form

    The part of kernel/src/form_runtime.rs that runs while a Form executes: the timer,
    fault and ABI interrupts, the calls behind them, and [run_slice_local] around
    them.  The calls compose the other components: the broker's gate (Abi.v), the
    blob streams of the store (Store.v), the memory of a worker (ServiceImage.v) and
    the network portal (NetPortal.v).

    An [ActiveExecution] points into the space of its slot; the model keeps the slot
    number and reads the space where the code follows the pointer.  The processor
    running the Form is the specification: between two traps the Form stores
    wherever its page tables let it, and it traps with registers of its choice. *)

From stdpp Require Import prelude list functions strings.
From Stdlib Require Import ZArith Lia.
From S2P Require Import Prelude Identity Bytes Blob Capability Context Abi NativeImage Crypto StoreCodec StoreRoundtrip StoreDisk Store StoreCrash Frames Paging ServiceImage FormSpace FormLoad FormMachine FormPrepare FormIsolation NetPortal.

Set Default Goal Selector "!".
Open Scope Z_scope.
Open Scope expos_scope.

(** ** Data *)

Definition STREAM_ABI_MAGIC : Z := 0x455850535452_4D32.
Definition TIMER_QUANTUM_TICKS : Z := 4.

(** The [DISPOSITION_*] constants. *)
Inductive Disposition := DispResume | DispPreempt | DispBudget | DispExit | DispFault.
#[export] Instance Disposition_eq_dec : EqDecision Disposition.
Proof. solve_decision. Defined.

Inductive SliceReason := Preempted | BudgetExhausted | SliceExited | SliceFault (vector : Z).

Record SliceResult := MkSlice { sl_reason : SliceReason; sl_timer_ticks : Z; sl_result : Z; sl_frame : TrapFrame }.

Record RunAuthorization := MkAuthorization {
  ra_broker : CapabilityBroker; ra_cfc : CfcFin; ra_dimension : Fin; ra_form : Fin;
  ra_execute_handle : FormHandle; ra_log_handle : FormHandle; ra_network_handle : FormHandle }.

Definition empty_handle : FormHandle :=
  MkHandle 0 0 CfcFin_ZERO Fin_ZERO Fin_ZERO Fin_ZERO Ops_NONE 0 true.

Definition RunAuthorization_new (broker : CapabilityBroker) (cfc : CfcFin) (dimension form : Fin)
    (execute_handle log_handle : FormHandle) : RunAuthorization :=
  MkAuthorization broker cfc dimension form execute_handle log_handle empty_handle.

Definition RunAuthorization_with_network (self : RunAuthorization) (handle : FormHandle) : RunAuthorization :=
  MkAuthorization (ra_broker self) (ra_cfc self) (ra_dimension self) (ra_form self) (ra_execute_handle self)
    (ra_log_handle self) handle.

(** [data], [data_virtual], [output] and [service_memory] are those of the space in
    [ax_slot]. *)
Record ActiveExecution := MkActive {
  ax_slot : nat; ax_service_reply : bool; ax_output : bool; ax_data : Z; ax_data_virtual : Z; ax_service_memory : option Z;
  ax_broker : CapabilityBroker; ax_cfc : CfcFin; ax_dimension : Fin; ax_form : Fin; ax_handles : list FormHandle;
  ax_frame : TrapFrame; ax_slice_ticks : Z; ax_tick_limit : Z; ax_result : Z; ax_fault : Z }.

Definition ActiveExecution_eta (a : ActiveExecution) : ActiveExecution :=
  MkActive (ax_slot a) (ax_service_reply a) (ax_output a) (ax_data a) (ax_data_virtual a) (ax_service_memory a)
    (ax_broker a) (ax_cfc a) (ax_dimension a) (ax_form a) (ax_handles a) (ax_frame a) (ax_slice_ticks a)
    (ax_tick_limit a) (ax_result a) (ax_fault a).
#[export] Instance set_ax_frame : Setter ax_frame := ltac:(build_setter ActiveExecution_eta).
#[export] Instance set_ax_slice_ticks : Setter ax_slice_ticks := ltac:(build_setter ActiveExecution_eta).
#[export] Instance set_ax_result : Setter ax_result := ltac:(build_setter ActiveExecution_eta).
#[export] Instance set_ax_fault : Setter ax_fault := ltac:(build_setter ActiveExecution_eta).

(** The kernel: the machine, the store, the network and what was printed. *)
Record Kernel (Device Disk : Type) := MkKernel {
  k_machine : Machine; k_store : World Device Disk; k_net : Net; k_console : list (list Z) }.
Arguments MkKernel {_ _}.
Arguments k_machine {_ _}.
Arguments k_store {_ _}.
Arguments k_net {_ _}.
Arguments k_console {_ _}.

Section setters.
Context {Device Disk : Type}.

Definition Kernel_eta (k : Kernel Device Disk) : Kernel Device Disk :=
  MkKernel (k_machine k) (k_store k) (k_net k) (k_console k).
#[export] Instance set_k_machine : Setter (@k_machine Device Disk) := ltac:(build_setter Kernel_eta).
#[export] Instance set_k_store : Setter (@k_store Device Disk) := ltac:(build_setter Kernel_eta).
#[export] Instance set_k_net : Setter (@k_net Device Disk) := ltac:(build_setter Kernel_eta).
#[export] Instance set_k_console : Setter (@k_console Device Disk) := ltac:(build_setter Kernel_eta).
End setters.

(** ** Bytes of the ABI page *)

(** A cell of memory is a byte. *)
Definition read_bytes (memory : Memory) (address : Z) (count : nat) : list Z :=
  (λ i, memory (address + Z.of_nat i) mod 256) <$> seq 0 count.

(** [read_unaligned] of the [repr(C)] requests: 72 bytes, and 48 with four bytes of
    padding before [offset]. *)
Definition AbiRequest_read (memory : Memory) (data : Z) : AbiRequest :=
  MkAbiRequest (le_value (read_bytes memory data 2)) (le_value (read_bytes memory (data + 2) 2))
    (MkFin (read_bytes memory (data + 4) 16)) (le_value (read_bytes memory (data + 20) 4))
    ((λ i, le_value (read_bytes memory (data + 24 + 8 * Z.of_nat i) 8)) <$> seq 0 6).

Definition StreamRequest_read (memory : Memory) (data : Z) : StreamRequest :=
  MkStreamRequest (le_value (read_bytes memory data 2)) (le_value (read_bytes memory (data + 2) 2))
    (MkFin (read_bytes memory (data + 4) 16)) (le_value (read_bytes memory (data + 20) 4))
    (le_value (read_bytes memory (data + 24) 4)) (le_value (read_bytes memory (data + 32) 8))
    (le_value (read_bytes memory (data + 40) 4)) (le_value (read_bytes memory (data + 44) 4)).

(** [write_unaligned] of an [AbiResponse]: 40 bytes, six of them padding whose values
    the language leaves open. *)
Definition AbiResponse_bytes (padding : list Z) (response : AbiResponse) : list Z :=
  le_bytes 2 (resp_status response) ++ take 6 (padding ++ replicate 6 0) ++ mjoin (le_bytes 8 <$> resp_values response).

(** [core::str::from_utf8] succeeds: the well-formed byte sequences of UTF-8. *)
Definition continuation (b : Z) : bool := (0x80 <=? b) && (b <=? 0xBF).
Definition between (low high b : Z) : bool := (low <=? b) && (b <=? high).

Fixpoint utf8_valid (bytes : list Z) : bool :=
  match bytes with
  | [] => true
  | a :: l1 =>
      if a <? 0x80 then utf8_valid l1
      else match l1 with
      | [] => false
      | b :: l2 =>
          if between 0xC2 0xDF a then continuation b && utf8_valid l2
          else match l2 with
          | [] => false
          | c :: l3 =>
              if between 0xE0 0xEF a then
                between (if a =? 0xE0 then 0xA0 else 0x80) (if a =? 0xED then 0x9F else 0xBF) b && continuation c && utf8_valid l3
              else match l3 with
              | [] => false
              | d :: l4 =>
                  between 0xF0 0xF4 a &&
                  between (if a =? 0xF0 then 0x90 else 0x80) (if a =? 0xF4 then 0x8F else 0xBF) b &&
                  continuation c && continuation d && utf8_valid l4
              end
          end
      end
  end.

(** ** Operations *)

Section traps.
Context `{Aead} `{BlockDevice Device Disk} `{NativeStatics}.
Abbreviation Kernel := (Kernel Device Disk).
Implicit Types (k : Kernel) (hw : Hardware) (active : ActiveExecution).

Definition k_memory k : Memory := ph_memory (mc_physical (k_machine k)).
Definition k_poke k (address : Z) (data : list Z) : Kernel := k <| k_machine := poke (k_machine k) address data |>.

Definition argument (arguments : list Z) (index : nat) : Z := nth index arguments 0.

(** The check of [capture_reply] and [service_log]: at most 512 bytes of the page
    behind the request. *)
Definition payload_refused (offset length : Z) : bool :=
  (offset <? ABI_PAYLOAD_OFFSET) || (512 <? length) ||
  match checked_add usize_max offset length with None => true | Some end_ => PAGE_BYTES <? end_ end.

Definition capture_reply (slot : nat) (data : Z) (arguments : list Z) k : Kernel * AbiResponse :=
  let offset := argument arguments 0 in
  let length := argument arguments 1 in
  if payload_refused offset length then (k, AbiResponse_status AbiInvalid)
  else
    let output := default empty_output (ns_output (space_at (k_machine k) slot)) in
    if Zlength (out_bytes output) - out_length output <? length then (k, AbiResponse_status AbiDenied)
    else
      let bytes := read_bytes (k_memory k) (data + offset) (Z.to_nat length) in
      let filled := splice (out_bytes output) (Z.to_nat (out_length output)) bytes in
      (k <| k_machine := update_space (k_machine k) slot (λ space,
              space <| ns_output := Some (MkOutput filled (out_length output + length)) |>) |>,
       AbiResponse_ok [length; 0; 0; 0]).

Definition service_log (data : Z) (arguments : list Z) k : Kernel * AbiResponse :=
  let offset := argument arguments 0 in
  let length := argument arguments 1 in
  if payload_refused offset length then (k, AbiResponse_status AbiInvalid)
  else
    let bytes := read_bytes (k_memory k) (data + offset) (Z.to_nat length) in
    if negb (utf8_valid bytes) then (k, AbiResponse_status AbiInvalid)
    else (k <| k_console := k_console k ++ [bytes] |>, AbiResponse_ok [length; 0; 0; 0]).

(** [as u16], [as u8], [as u32] *)
Definition as_width (bits value : Z) : Z := value mod 2 ^ bits.

Definition service_network_send hw active (arguments : list Z) k : Kernel * AbiResponse :=
  let argument := argument arguments in
  if argument 2%nat =? 4 then
    match ax_service_memory active with
    | None => (k, AbiResponse_status AbiDenied)
    | Some memory =>
        match writable_alias_range (mc_tables (k_machine k)) memory (argument 0%nat) (argument 1%nat) with
        | None => (k, AbiResponse_status AbiInvalid)
        | Some physical =>
            let frame := read_bytes (k_memory k) physical (Z.to_nat (argument 1%nat)) in
            let (net, sent) := service_frame_send hw frame (k_net k) in
            (k <| k_net := net |>,
             match sent with Ok _ => AbiResponse_ok [argument 1%nat; 0; 0; 0] | Err _ => AbiResponse_status AbiDenied end)
        end
    end
  else if argument 2%nat =? 3 then
    let (net, written) := service_driver_write (as_width 16 (argument 0%nat)) (as_width 8 (argument 1%nat))
                            (as_width 32 (argument 3%nat)) (k_net k) in
    (k <| k_net := net |>, match written with Ok _ => AbiResponse_ok [0; 0; 0; 0] | Err _ => AbiResponse_status AbiDenied end)
  else (k, AbiResponse_status AbiUnsupported).

Definition service_network_receive hw active (arguments : list Z) k : Kernel * AbiResponse :=
  let argument := argument arguments in
  if argument 2%nat =? 4 then
    match ax_service_memory active with
    | None => (k, AbiResponse_status AbiDenied)
    | Some memory =>
        match writable_alias_range (mc_tables (k_machine k)) memory (argument 0%nat) (argument 1%nat) with
        | None => (k, AbiResponse_status AbiInvalid)
        | Some physical =>
            let frame := read_bytes (k_memory k) physical (Z.to_nat (argument 1%nat)) in
            let '(net, frame, received) := service_frame_receive hw frame (k_net k) in
            (k_poke (k <| k_net := net |>) physical frame,
             match received with
             | Ok length => AbiResponse_ok [length; 0; 0; 0]
             | Err _ => AbiResponse_status AbiDenied
             end)
        end
    end
  else if argument 2%nat =? 2 then
    match ax_service_memory active with
    | None => (k, AbiResponse_status AbiDenied)
    | Some memory =>
        match writable_physical_range (mc_tables (k_machine k)) memory (argument 0%nat) (argument 1%nat) with
        | None => (k, AbiResponse_status AbiInvalid)
        | Some physical =>
            let (net, acquired) := service_driver_acquire physical (argument 1%nat) (argument 3%nat) (argument 4%nat)
                                     (argument 5%nat) (k_net k) in
            (k <| k_net := net |>,
             match acquired with Ok _ => AbiResponse_ok [0; 0; 0; 0] | Err _ => AbiResponse_status AbiDenied end)
        end
    end
  else if argument 2%nat =? 3 then
    (k, match service_driver_read hw (as_width 16 (argument 0%nat)) (as_width 8 (argument 1%nat)) (k_net k) with
        | Ok value => AbiResponse_ok [value; 0; 0; 0]
        | Err _ => AbiResponse_status AbiDenied
        end)
  else if argument 2%nat =? 1 then
    (k, match service_configuration hw (k_net k) with
        | Ok values => AbiResponse_ok values
        | Err _ => AbiResponse_status AbiDenied
        end)
  else (k, AbiResponse_status AbiUnsupported).

Definition find_handle (handles : list FormHandle) (id : Z) : option FormHandle :=
  List.find (λ handle, fh_id handle ==? id) handles.

Definition unchanged {A} (_ : A) k : Kernel := k.

(** What the result of a store operation becomes. *)
Definition stream_reply {A} k (r : outcome (World Device Disk * result A StoreError)) (values : A → list Z)
    (update : A → Kernel → Kernel) : outcome (Kernel * AbiResponse) :=
  match r with
  | Returns (w, Ok a) => Returns (update a (k <| k_store := w |>), AbiResponse_ok (values a))
  | Returns (w, Err _) => Returns (k <| k_store := w |>, AbiResponse_status AbiInvalid)
  | Panics => Panics
  | OutOfFuel => OutOfFuel
  end.

Definition dispatch_stream hw active k : outcome (Kernel * AbiResponse) :=
  let data := ax_data active in
  let request := StreamRequest_read (k_memory k) data in
  match StreamRequest_validate request with
  | Err status => Returns (k, AbiResponse_status status)
  | Ok operation =>
      match find_handle (ax_handles active) (sr_handle_id request) with
      | None => Returns (k, AbiResponse_status AbiDenied)
      | Some handle =>
          if negb (is_ok (CapabilityBroker_authorize_requester (ax_broker active) (fh_id handle) (ax_form active)
                            (fh_target handle) (ax_dimension active) operation (hw_now hw)))
          then Returns (k, AbiResponse_status AbiDenied)
          else
            match StreamCall_from_raw (sr_call request) with
            | None => Returns (k, AbiResponse_status AbiUnsupported)
            | Some call =>
                if STREAM_CHUNK_BYTES <? sr_length request then Returns (k, AbiResponse_status AbiInvalid)
                else
                  let offset := Z.to_nat (sr_offset request) in
                  let transfer := data + ABI_PAYLOAD_OFFSET in
                  let buffer := read_bytes (k_memory k) transfer (Z.to_nat (sr_length request)) in
                  let cfc := ax_cfc active in
                  let target := fh_target handle in
                  let id := sr_stream_id request in
                  match call with
                  | Stream_OpenRead =>
                      stream_reply k (open_blob_stream cfc target false (k_store k)) (λ '(id, length), [id; length; 0; 0]) unchanged
                  | Stream_OpenWrite =>
                      stream_reply k (open_blob_stream cfc target true (k_store k)) (λ '(id, length), [id; length; 0; 0]) unchanged
                  | Stream_ReadChunk =>
                      stream_reply k (read_blob_stream cfc target id offset buffer (k_store k))
                        (λ '(_, count, total), [Z.of_nat count; Z.of_nat total; ABI_PAYLOAD_OFFSET; 0])
                        (λ '(output, _, _) k, k_poke k transfer output)
                  | Stream_WriteChunk =>
                      stream_reply k (write_blob_stream cfc target id offset buffer (k_store k)) (λ end_, [end_; 0; 0; 0]) unchanged
                  | Stream_Commit =>
                      stream_reply k (commit_blob_stream cfc target id (k_store k))
                        (λ '(revision, generation), [revision; generation; 0; 0]) unchanged
                  | Stream_Abort =>
                      stream_reply k (abort_blob_stream cfc target id (k_store k)) (λ _, [0; 0; 0; 0]) unchanged
                  end
            end
      end
  end.

Definition write_abi_response (padding : list Z) (data : Z) (response : AbiResponse) k : Kernel :=
  k_poke k (data + ABI_RESPONSE_OFFSET) (AbiResponse_bytes padding response).

(** The closure [dispatch] runs: it may change the kernel, the result of the Form and
    what happens after the call. *)
Definition serve hw (handle : FormHandle) (call : AbiCall) (arguments : list Z)
    (st : Kernel * ActiveExecution * Disposition) : (Kernel * ActiveExecution * Disposition) * AbiResponse :=
  let '(k, active, disposition) := st in
  let keep := λ '(k, response), ((k, active, disposition), response) in
  let network := fh_id handle =? fh_id (nth 2 (ax_handles active) empty_handle) in
  match call with
  | Call_Log =>
      if ax_output active && negb (ax_service_reply active)
      then keep (capture_reply (ax_slot active) (ax_data active) arguments k)
      else keep (service_log (ax_data active) arguments k)
  | Call_IpcSend =>
      if ax_service_reply active && ax_output active
      then keep (capture_reply (ax_slot active) (ax_data active) arguments k)
      else keep (k, AbiResponse_status AbiUnsupported)
  | Call_HandleAuthorize => keep (k, AbiResponse_ok [fh_id handle; ops_bits (fh_operations handle); 0; 0])
  | Call_TimeNow => keep (k, AbiResponse_ok [hw_later hw; 0; 0; 0])
  | Call_NetworkSend =>
      if network then keep (service_network_send hw active arguments k) else keep (k, AbiResponse_status AbiUnsupported)
  | Call_NetworkReceive =>
      if network then keep (service_network_receive hw active arguments k) else keep (k, AbiResponse_status AbiUnsupported)
  | Call_ExecutionYield => ((k, active, DispPreempt), AbiResponse_ok [0; 0; 0; 0])
  | Call_ExecutionExit =>
      ((k, active <| ax_result := argument arguments 0 |>, DispExit), AbiResponse_ok [argument arguments 0; 0; 0; 0])
  | _ => keep (k, AbiResponse_status AbiUnsupported)
  end.

Definition abi_fault active (frame : TrapFrame) : ActiveExecution :=
  active <| ax_fault := 0x80 |> <| ax_frame := frame |>.

(** The registers the Form goes on with come with the result. *)
Definition expos_form_abi_interrupt hw (padding : list Z) active (frame : TrapFrame) k
    : outcome (Kernel * ActiveExecution * TrapFrame * Disposition) :=
  if (tf_rdi frame !=? ax_data_virtual active) || (tf_rsi frame !=? ax_data_virtual active + ABI_RESPONSE_OFFSET)
  then Returns (k, abi_fault active frame, frame, DispFault)
  else if tf_rax frame =? STREAM_ABI_MAGIC then
    match dispatch_stream hw active k with
    | Returns (k, response) =>
        Returns (write_abi_response padding (ax_data active) response k, active,
                 frame <| tf_rax := resp_status response |>, DispResume)
    | Panics => Panics
    | OutOfFuel => OutOfFuel
    end
  else if negb (tf_rax frame =? RT_ABI_MAGIC) then Returns (k, abi_fault active frame, frame, DispFault)
  else
    let request := AbiRequest_read (k_memory k) (ax_data active) in
    match find_handle (ax_handles active) (ar_handle_id request) with
    | None =>
        let response := AbiResponse_status AbiDenied in
        Returns (write_abi_response padding (ax_data active) response k, active,
                 frame <| tf_rax := resp_status response |>, DispResume)
    | Some handle =>
        let gate := MkGate (ax_broker active) (ax_cfc active) (fh_target handle) (ax_dimension active) in
        let '((k, active, disposition), response) :=
          NativeCallGate_dispatch gate request (hw_now hw) (serve hw handle) (k, active, DispResume) in
        let k := write_abi_response padding (ax_data active) response k in
        let frame := frame <| tf_rax := resp_status response |> in
        let active := if disposition !=? DispResume then active <| ax_frame := frame |> else active in
        Returns (k, active, frame, disposition)
    end.

Definition expos_form_timer_interrupt active (frame : TrapFrame) : ActiveExecution * Disposition :=
  if negb (Z.land (tf_cs frame) 3 =? 3) then (active, DispResume)
  else
    let active := active <| ax_slice_ticks := saturating_add u64_max (ax_slice_ticks active) 1 |> in
    if ax_tick_limit active <=? ax_slice_ticks active then (active <| ax_frame := frame |>, DispBudget)
    else if TIMER_QUANTUM_TICKS <=? ax_slice_ticks active then (active <| ax_frame := frame |>, DispPreempt)
    else (active, DispResume).

(** A fault of the kernel itself stops the machine. *)
Definition expos_form_fault_interrupt active (vector cs : Z) : outcome (ActiveExecution * Disposition) :=
  if Z.land cs 3 =? 3 then Returns (active <| ax_fault := as_width 8 vector |>, DispFault) else Panics.

(** [run_slice_local] before the Form is entered, and after it was left. *)
Definition slice_start (prepared : PreparedForm) (authorization : RunAuthorization) (tick_limit : Z) k : ActiveExecution :=
  let space := space_at (k_machine k) (pf_slot prepared) in
  MkActive (pf_slot prepared) (is_some (ns_service space)) (is_some (ns_output space)) (ns_data_physical space)
    (ns_data_virtual space) (ns_service space) (ra_broker authorization) (ra_cfc authorization)
    (ra_dimension authorization) (ra_form authorization)
    [ra_execute_handle authorization; ra_log_handle authorization; ra_network_handle authorization]
    (pf_frame prepared) 0 (Z.max tick_limit 1) 0 0.

Definition slice_end active (disposition : Disposition) : SliceResult :=
  let reason :=
    match disposition with
    | DispPreempt => Preempted
    | DispBudget => BudgetExhausted
    | DispExit => SliceExited
    | DispFault => SliceFault (ax_fault active)
    | DispResume => SliceFault 0xFF
    end in
  MkSlice reason (ax_slice_ticks active) (ax_result active) (ax_frame active).

(** ** Specification: the processor *)

(** The ways the processor comes back to the kernel while a Form runs. *)
Inductive Trap :=
  | TrapTimer (frame : TrapFrame) | TrapAbi (hw : Hardware) (padding : list Z) (frame : TrapFrame) | TrapFault (vector cs : Z).

(** The traps of Ring 3 carry its selector. *)
Definition from_ring3 (trap : Trap) : Prop :=
  match trap with
  | TrapTimer frame => Z.land (tf_cs frame) 3 = 3
  | TrapAbi hw _ frame => ∀ backend buffer, length (hw_receive hw backend buffer).1 = length buffer
  | TrapFault _ cs => Z.land cs 3 = 3
  end.

Definition handle_trap (trap : Trap) (st : Kernel * ActiveExecution) : outcome (Kernel * ActiveExecution * Disposition) :=
  let (k, active) := st in
  match trap with
  | TrapTimer frame => let (active, disposition) := expos_form_timer_interrupt active frame in Returns (k, active, disposition)
  | TrapAbi hw padding frame =>
      match expos_form_abi_interrupt hw padding active frame k with
      | Returns (k, active, _, disposition) => Returns (k, active, disposition)
      | Panics => Panics
      | OutOfFuel => OutOfFuel
      end
  | TrapFault vector cs =>
      match expos_form_fault_interrupt active vector cs with
      | Returns (active, disposition) => Returns (k, active, disposition)
      | Panics => Panics
      | OutOfFuel => OutOfFuel
      end
  end.

(** What happens while the Form keeps running, and how it stops. *)
Inductive form_step : Kernel * ActiveExecution → Kernel * ActiveExecution → Prop :=
  | form_store k active a acc f t :
      user_access (k_machine k) (ax_slot active) a acc → ac_write acc = true →
      (∀ b n, b ≠ ac_page acc → t b n = mc_tables (k_machine k) b n) →
      (∀ x, ¬ (ac_page acc ≤ x < ac_page acc + PAGE_BYTES) → f (k_memory k) x = k_memory k x) →
      form_step (k, active) (k <| k_machine := with_memory ((k_machine k) <| mc_tables := t |>) f |>, active)
  | form_resume trap k active k' active' :
      from_ring3 trap → handle_trap trap (k, active) = Returns (k', active', DispResume) →
      form_step (k, active) (k', active').

Definition form_stops (trap : Trap) (st st' : Kernel * ActiveExecution) (disposition : Disposition) : Prop :=
  from_ring3 trap ∧ disposition ≠ DispResume ∧ handle_trap trap st = Returns (st'.1, st'.2, disposition).

(** One slice: what the kernel, the Form and the caller of [run_slice_local] have afterwards. *)
Inductive run_slice_local (prepared : PreparedForm) (authorization : RunAuthorization) (tick_limit : Z) k
    : Kernel → PreparedForm → SliceResult → Prop :=
  | slice_runs st trap k' active' disposition :
      rtc form_step (k, slice_start prepared authorization tick_limit k) st →
      form_stops trap st (k', active') disposition →
      run_slice_local prepared authorization tick_limit k k' (prepared <| pf_frame := ax_frame active' |>)
        (slice_end active' disposition).
End traps.

(** ** Lemmas: slices *)

Section slices.
Context `{Aead} `{BlockDevice Device Disk} `{NativeStatics}.
Abbreviation Kernel := (Kernel Device Disk).
Implicit Types (k : Kernel) (hw : Hardware) (active : ActiveExecution).

(** What a call can change of the execution: the result, the saved registers and the
    fault; never whose execution it is, or its ticks. *)
Record same_run active active' : Prop := {
  sr_slot : ax_slot active' = ax_slot active;
  sr_data : ax_data active' = ax_data active;
  sr_virtual : ax_data_virtual active' = ax_data_virtual active;
  sr_memory : ax_service_memory active' = ax_service_memory active;
  sr_limit : ax_tick_limit active' = ax_tick_limit active }.

Lemma same_run_refl active : same_run active active.
Proof. done. Qed.

Lemma serve_run hw handle call arguments k active d :
  let st := (serve hw handle call arguments (k, active, d)).1 in
  same_run active st.1.2 ∧ ax_slice_ticks st.1.2 = ax_slice_ticks active ∧
  (st.2 = d ∨ st.2 = DispPreempt ∨ st.2 = DispExit).
Proof. unfold serve. destruct call; repeat case_match; (split; [done|]; auto). Qed.

Lemma dispatch_run hw handle gate request k active d :
  let st := (NativeCallGate_dispatch gate request (hw_now hw) (serve hw handle) (k, active, d)).1 in
  same_run active st.1.2 ∧ ax_slice_ticks st.1.2 = ax_slice_ticks active ∧
  (st.2 = d ∨ st.2 = DispPreempt ∨ st.2 = DispExit).
Proof.
  unfold NativeCallGate_dispatch. repeat case_match; try (split; [done|]; by auto). apply serve_run.
Qed.

Lemma abi_run hw padding active frame k k' active' frame' d :
  expos_form_abi_interrupt hw padding active frame k = Returns (k', active', frame', d) →
  same_run active active' ∧ ax_slice_ticks active' = ax_slice_ticks active ∧ d ≠ DispBudget.
Proof.
  unfold expos_form_abi_interrupt. destruct (_ || _); [by intros [= <- <- <- <-]|].
  destruct (_ =? STREAM_ABI_MAGIC).
  { destruct (dispatch_stream _ _ _) as [[? ?]| |]; [|done..]. by intros [= <- <- <- <-]. }
  destruct (negb _); [by intros [= <- <- <- <-]|]. destruct (find_handle _ _) as [handle|]; [|by intros [= <- <- <- <-]].
  match goal with |- context [NativeCallGate_dispatch ?g ?r _ _ _] =>
    pose proof (dispatch_run hw handle g r k active DispResume) as Hd;
    destruct (NativeCallGate_dispatch g r (hw_now hw) (serve hw handle) (k, active, DispResume)) as [[[k1 a1] d1] response] end.
  cbn in Hd. destruct Hd as ([] & Ht & Hd). intros [= <- <- <- <-]. destruct Hd as [->|[->| ->]]; cbn; split_and!; done || by constructor.
Qed.

(** The clock of a slice. *)
Lemma timer_ticks active frame :
  Z.land (tf_cs frame) 3 = 3 → 0 ≤ ax_slice_ticks active < Z.min (ax_tick_limit active) TIMER_QUANTUM_TICKS →
  let (active', d) := expos_form_timer_interrupt active frame in
  same_run active active' ∧ ax_slice_ticks active' = ax_slice_ticks active + 1 ∧
  match d with
  | DispResume => ax_slice_ticks active' < Z.min (ax_tick_limit active) TIMER_QUANTUM_TICKS
  | DispBudget => ax_slice_ticks active' = ax_tick_limit active ∧ ax_tick_limit active ≤ TIMER_QUANTUM_TICKS
  | DispPreempt => ax_slice_ticks active' = TIMER_QUANTUM_TICKS ∧ TIMER_QUANTUM_TICKS < ax_tick_limit active
  | _ => False
  end.
Proof.
  intros Hcs Ht. unfold expos_form_timer_interrupt. rewrite Hcs. cbn [negb Z.eqb].
  unfold saturating_add. rewrite Z.min_l by (unfold TIMER_QUANTUM_TICKS, u64_max in *; lia).
  cbn -[Z.add Z.leb Z.min]. destruct (Z.leb_spec (ax_tick_limit active) (ax_slice_ticks active + 1)) as [Hl|Hl].
  - cbn -[Z.add Z.leb Z.min]. split; [done|]. unfold TIMER_QUANTUM_TICKS in *. lia.
  - destruct (Z.leb_spec TIMER_QUANTUM_TICKS (ax_slice_ticks active + 1)) as [Hq|Hq]; cbn -[Z.add Z.leb Z.min];
      (split; [done|]); unfold TIMER_QUANTUM_TICKS in *; lia.
Qed.

(** While the Form runs, its ticks are below both limits. *)
Definition in_time active : Prop := 0 ≤ ax_slice_ticks active < Z.min (ax_tick_limit active) TIMER_QUANTUM_TICKS.

Lemma trap_in_time trap k active k' active' d :
  from_ring3 trap → in_time active → handle_trap trap (k, active) = Returns (k', active', d) →
  same_run active active' ∧
  match d with
  | DispResume => in_time active'
  | DispBudget => ax_slice_ticks active' = ax_tick_limit active ∧ ax_tick_limit active ≤ TIMER_QUANTUM_TICKS
  | DispPreempt => (ax_slice_ticks active' = TIMER_QUANTUM_TICKS ∧ TIMER_QUANTUM_TICKS < ax_tick_limit active) ∨ in_time active'
  | _ => in_time active'
  end.
Proof.
  intros Hr Ht. unfold handle_trap. destruct trap as [frame|hw padding frame|vector cs].
  - pose proof (timer_ticks active frame Hr Ht) as Hx. destruct (expos_form_timer_interrupt active frame) as [a1 d1].
    intros [= <- <- <-]. destruct Hx as (Hs & Et & Hd). split; [done|]. unfold in_time in *. rewrite (sr_limit _ _ Hs).
    destruct d1; first [done|lia|by left].
  - destruct (expos_form_abi_interrupt _ _ _ _ _) as [[[[k1 a1] f1] d1]| |] eqn:E; [|done..]. intros [= <- <- <-].
    apply abi_run in E as (Hs & Et & Hd). split; [done|]. unfold in_time in *. rewrite Et, (sr_limit _ _ Hs).
    destruct d1; first [done|by right].
  - unfold expos_form_fault_interrupt. cbn in Hr. rewrite Hr. intros [= <- <- <-]. by split.
Qed.

Lemma run_in_time st st' : rtc form_step st st' → in_time st.2 → same_run st.2 st'.2 ∧ in_time st'.2.
Proof.
  intros Hr. induction Hr as [st|st1 st2 st3 Hs _ IH]; intros Ht; [done|].
  enough (same_run st1.2 st2.2 ∧ in_time st2.2) as [[S1 S2 S3 S4 S5] Ht2].
  { destruct (IH Ht2) as [[R1 R2 R3 R4 R5] Ht3]. split; [|done]. constructor; congruence. }
  destruct Hs as [k active a acc f t _ _ _ _|trap k active k' active' Hring E]; [done|].
  by apply (trap_in_time _ _ _ _ _ _ Hring Ht) in E.
Qed.
End slices.

(** ** Properties *)

(** C17. A slice is bounded by hardware ticks.  However the Form behaves, the timer
    interrupt that makes its ticks reach the limit of the slice or the quantum ends
    the slice, and every earlier end is a yield, an exit or a fault with fewer
    ticks: [BudgetExhausted] means that exactly the limit was used, and a preemption
    by the clock means a full quantum of a longer limit. *)
Theorem slice_bounded `{Aead} `{BlockDevice Device Disk} `{NativeStatics} prepared authorization tick_limit
    (k k' : Kernel Device Disk) prepared' r :
  0 ≤ tick_limit → run_slice_local prepared authorization tick_limit k k' prepared' r →
  let limit := Z.max tick_limit 1 in
  match sl_reason r with
  | BudgetExhausted => sl_timer_ticks r = limit ∧ limit ≤ TIMER_QUANTUM_TICKS
  | Preempted => (sl_timer_ticks r = TIMER_QUANTUM_TICKS ∧ TIMER_QUANTUM_TICKS < limit) ∨
                 0 ≤ sl_timer_ticks r < Z.min limit TIMER_QUANTUM_TICKS
  | SliceExited | SliceFault _ => 0 ≤ sl_timer_ticks r < Z.min limit TIMER_QUANTUM_TICKS
  end ∧
  (∀ st frame, rtc form_step (k, slice_start prepared authorization tick_limit k) st → Z.land (tf_cs frame) 3 = 3 →
     0 ≤ ax_slice_ticks st.2 < Z.min limit TIMER_QUANTUM_TICKS ∧
     (Z.min limit TIMER_QUANTUM_TICKS ≤ ax_slice_ticks st.2 + 1 →
        (expos_form_timer_interrupt st.2 frame).2 ≠ DispResume)).
Proof.
  intros Hl Hrun limit.
  assert (in_time (slice_start prepared authorization tick_limit k)) as Hz.
  { unfold in_time, slice_start, TIMER_QUANTUM_TICKS. cbn. lia. }
  split.
  - destruct Hrun as [[k1 a1] trap k2 a2 d Hs (Hr & Hd & E)]. cbn in E.
    destruct (run_in_time _ _ Hs Hz) as [Sr Ht]. cbn in Sr, Ht. destruct (trap_in_time _ _ _ _ _ _ Hr Ht E) as [Sr' Hd'].
    unfold in_time in *. rewrite (sr_limit _ _ Sr') in *. rewrite (sr_limit _ _ Sr) in *. by destruct d.
  - intros [k1 a1] frame Hs Hcs. destruct (run_in_time _ _ Hs Hz) as [Sr Ht]. unfold in_time in Ht. cbn in *.
    pose proof (timer_ticks a1 frame Hcs Ht) as Hx. rewrite (sr_limit _ _ Sr) in *. split; [done|]. intros Hge.
    destruct (expos_form_timer_interrupt a1 frame) as [a2 []]; cbn in *; [|done..]. unfold limit in *. lia.
Qed.

(** A kernel with the machine [m], an empty store and a card, and a timer interrupt
    from Ring 3. *)
#[local] Existing Instance demo_aead.
#[local] Existing Instance demo_statics.
Definition demo_kernel (m : Machine) : Kernel unit (Z → list Z) := MkKernel m (World_new unit _ (λ _, [])) demo_net [].
Definition demo_tick : TrapFrame := MkTrapFrame 0 0 0 0 0 0 0 0 0 0 0 0 0 0 0 USER_CODE 27 514 USER_STACK_TOP 35.
Definition demo_authorization : RunAuthorization :=
  RunAuthorization_new demo_broker1 (CfcFin_from_u128 1) (Fin_from_u128 6) (Fin_from_u128 7) demo_handle demo_handle.
Definition demo_prepared : PreparedForm := MkPrepared 0 (confined_space 0 USER_END) (start_frame None demo_handle demo_handle).

Definition demo_machine : Machine :=
  MkMachine (MkPhysical Allocator_new (λ _, 0)) (λ _ _, 0) 0 (replicate MAX_NATIVE_SPACES NativeSpace_empty).

Lemma slice_bounded_witness :
  ∃ r, run_slice_local demo_prepared demo_authorization 2 (demo_kernel demo_machine) (demo_kernel demo_machine)
         (demo_prepared <| pf_frame := demo_tick |>) r ∧ sl_reason r = BudgetExhausted ∧ sl_timer_ticks r = 2.
Proof.
  set (active := slice_start demo_prepared demo_authorization 2 (demo_kernel demo_machine)).
  set (active1 := (expos_form_timer_interrupt active demo_tick).1). set (active2 := (expos_form_timer_interrupt active1 demo_tick).1).
  assert (run_slice_local demo_prepared demo_authorization 2 (demo_kernel demo_machine) (demo_kernel demo_machine)
    (demo_prepared <| pf_frame := demo_tick |>) (slice_end active2 DispBudget)) as Hrun.
  { apply (slice_runs _ _ _ _ (demo_kernel demo_machine, active1) (TrapTimer demo_tick) (demo_kernel demo_machine) active2 DispBudget).
    - apply rtc_once, (form_resume (TrapTimer demo_tick)); reflexivity.
    - split_and!; [reflexivity|discriminate|reflexivity]. }
  eexists. split_and!; [exact Hrun|reflexivity|].
  destruct (slice_bounded demo_prepared demo_authorization 2 _ _ _ _ ltac:(lia) Hrun) as [[E _] _]. exact E.
Defined.
