(* ===== verification/FormConfined.v ===== *)
(** * What a running Form can touch

    Confinement of the traps of FormTrap.v: whatever a Form asks of the kernel, the
    kernel writes only to memory of the Form's own space on its behalf, and lends the
    network card only memory of its arena.  With FormIsolation.v this extends the
    isolation of address spaces to slices of execution. *)

From stdpp Require Import prelude list functions strings.
From Stdlib Require Import ZArith Lia.
From S2P Require Import Prelude Identity Bytes Blob Capability Context Abi NativeImage Crypto StoreCodec StoreRoundtrip StoreDisk Store StoreCrash Frames Paging ServiceImage FormSpace FormLoad FormMachine FormPrepare FormIsolation NetPortal FormTrap.

Set Default Goal Selector "!".
Open Scope Z_scope.
Open Scope expos_scope.

(** ** Specification *)

Section spec.
Context `{NativeStatics}.

Definition page_of (a : Z) : Z := a / PAGE_BYTES * PAGE_BYTES.

(** A byte of the arena of slot [i]. *)
Definition arena_byte (m : Machine) (i : nat) (x : Z) : Prop :=
  ∃ b, ns_service (space_at m i) = Some b ∧ arena_bytes b ≤ x < arena_bytes b + MEMORY_BYTES.

(** The portal lends memory of slot [i] only. *)
Definition lent {Device Disk} (k : Kernel Device Disk) (i : nat) : Prop :=
  ∃ net0 lease, portal_inv net0 (k_net k) lease ∧
    ∀ start length, lease = Some (start, length) → ∀ x, start ≤ x < start + length → arena_byte (k_machine k) i x.

(** What a slice of slot [i] leaves alone. *)
Record confined {Device Disk} (i : nat) (k k' : Kernel Device Disk) : Prop := {
  cf_tables : ∀ b n, ¬ owned (k_machine k) i b → mc_tables (k_machine k') b n = mc_tables (k_machine k) b n;
  cf_memory : ∀ a, k_memory k' a ≠ k_memory k a → owned (k_machine k) i (page_of a);
  cf_frames : ph_allocator (mc_physical (k_machine k')) = ph_allocator (mc_physical (k_machine k)) ∧
              mc_dynamic_used (k_machine k') = mc_dynamic_used (k_machine k);
  cf_others : ∀ j, j ≠ i → space_at (k_machine k') j = space_at (k_machine k) j;
  cf_space : ∃ o, space_at (k_machine k') i = (space_at (k_machine k) i) <| ns_output := o |>;
  cf_dma : lent k i → lent k' i ∧
    ∀ register offset bytes, dma_register register offset bytes →
      let port := nw_io_base (net_stack (k_net k)) + register in
      nic_out (net_nic (k_net k')) port ≠ nic_out (net_nic (k_net k)) port →
      ∃ v, nic_out (net_nic (k_net k')) port = Some v ∧ ∀ x, v ≤ x < v + bytes → arena_byte (k_machine k) i x;
  cf_net : nw_io_base (net_stack (k_net k')) = nw_io_base (net_stack (k_net k)) }.
End spec.

(** ** Lemmas: the bytes of the ABI *)

Lemma length_read_bytes memory a n : length (read_bytes memory a n) = n.
Proof. unfold read_bytes. by rewrite length_fmap, length_seq. Qed.

Lemma read_value_nonneg memory a n : 0 ≤ le_value (read_bytes memory a n).
Proof.
  apply le_value_nonneg. unfold read_bytes. apply Forall_fmap, Forall_forall. intros i _. by apply Z.mod_pos_bound.
Qed.

Lemma argument_nonneg memory data i : 0 ≤ argument (ar_arguments (AbiRequest_read memory data)) i.
Proof.
  unfold argument, AbiRequest_read. cbn [ar_arguments]. destruct (decide (i < 6)%nat) as [Hi|Hi].
  - erewrite nth_lookup_Some; [apply read_value_nonneg|]. rewrite list_lookup_fmap, lookup_seq_lt by done. reflexivity.
  - rewrite nth_overflow; [done|]. rewrite length_fmap, length_seq. lia.
Qed.

Lemma response_length padding response :
  length (resp_values response) = 4%nat → Zlength (AbiResponse_bytes padding response) = 40.
Proof.
  intros Hv. unfold Zlength, AbiResponse_bytes. rewrite !length_app, le_bytes_length, length_take, length_app, length_replicate.
  rewrite Nat.min_l by lia.
  destruct (resp_values response) as [|a [|b [|c [|d [|]]]]]; done.
Qed.

(** Reading a blob fills the buffer it is given. *)
Lemma read_loop_length fuel b offset count : ∀ copied output output' n,
  (copied ≤ count ≤ length output)%nat → read_loop fuel b offset count copied output = Returns (output', n) →
  length output' = length output.
Proof.
  induction fuel as [|fuel IH]; intros copied output output' n Hc E; [done|]. cbn [read_loop] in E.
  destruct (Nat.leb_spec count copied); [by simplify_eq|]. case_match; [|done].
  set (t := ((BLOB_CHUNK_BYTES - _) `min` _)%nat) in E. assert (t ≤ count - copied)%nat by (unfold t; lia).
  match type of E with read_loop _ _ _ _ _ (splice _ _ ?d0) = _ => set (d := d0) in E end.
  assert (length d ≤ t)%nat by (unfold d, slice; rewrite length_take; lia).
  assert (length (splice output copied d) = length output) as Hs.
  { unfold splice. rewrite !length_app, length_take, length_drop. lia. }
  rewrite <- Hs. eapply IH; [|exact E]. rewrite Hs. lia.
Qed.

Lemma blob_read_length b offset output output' n :
  ChunkedBlob_read b offset output = Returns (output', n) → length output' = length output.
Proof.
  unfold ChunkedBlob_read. destruct (_ || _); [by intros [= <- _]|]. apply read_loop_length. lia.
Qed.

(** ** Lemmas: what the calls write *)

(** Writes at addresses [P] allows, and changes of the output buffer of slot [i]. *)
Inductive touch `{NativeStatics} (i : nat) (P : Z → Prop) (m : Machine) : Machine → Prop :=
  | touch_poke address data : (∀ x, address ≤ x < address + Zlength data → P x) → touch i P m (poke m address data)
  | touch_output o : touch i P m (update_space m i (λ space, space <| ns_output := o |>)).

Section calls.
Context `{Aead} `{BlockDevice Device Disk} `{NativeStatics}.
Abbreviation Kernel := (Kernel Device Disk).
Implicit Types (k : Kernel) (hw : Hardware) (active : ActiveExecution).

(** The memory a call may write: the page shared with the Form, and the arena. *)
Definition shared active (x : Z) : Prop :=
  ax_data active ≤ x < ax_data active + PAGE_BYTES ∨
  ∃ b, ax_service_memory active = Some b ∧ arena_bytes b ≤ x < arena_bytes b + MEMORY_BYTES.

Definition touches active k k' : Prop := rtc (touch (ax_slot active) (shared active)) (k_machine k) (k_machine k').

(** What it may ask of the network portal. *)
Definition asks active k k' : Prop :=
  k_net k' = k_net k ∨
  ∃ call, k_net k' = portal_step (k_net k) call ∧ portal_call_ok call ∧
    ∀ physical aperture receive transmit count, call = Acquire physical aperture receive transmit count →
      ∃ b, ax_service_memory active = Some b ∧ arena_bytes b ≤ physical ∧ physical + aperture ≤ arena_bytes b + MEMORY_BYTES.

Definition hardware_ok hw : Prop := ∀ backend buffer, length (hw_receive hw backend buffer).1 = length buffer.

Definition call_ok active k (r : Kernel * AbiResponse) : Prop :=
  touches active k r.1 ∧ asks active k r.1 ∧ length (resp_values r.2) = 4%nat.

Lemma touches_same active k k' : k_machine k' = k_machine k → touches active k k'.
Proof. unfold touches. intros ->. apply rtc_refl. Qed.

Lemma call_same active k response : length (resp_values response) = 4%nat → call_ok active k (k, response).
Proof. intros Hl. split_and!; [by apply touches_same|by left|done]. Qed.

Lemma call_status active k status : call_ok active k (k, AbiResponse_status status).
Proof. by apply call_same. Qed.

Lemma lent_range active b limit t address length p :
  ax_service_memory active = Some b → limit ≤ MEMORY_BYTES → 0 ≤ length → writable_range limit t b address length = Some p →
  arena_bytes b ≤ p ∧ p + length ≤ arena_bytes b + MEMORY_BYTES.
Proof. intros Eb Hm Hl (? & ? & ? & -> & _)%writable_range_spec; [|done..]. lia. Qed.

Lemma capture_ok active arguments k : call_ok active k (capture_reply (ax_slot active) (ax_data active) arguments k).
Proof.
  unfold capture_reply. destruct (payload_refused _ _); [apply call_status|]. destruct (_ <? _); [apply call_status|].
  split_and!; [|by left|done]. apply rtc_once. apply touch_output.
Qed.

Lemma log_ok active arguments k : call_ok active k (service_log (ax_data active) arguments k).
Proof.
  unfold service_log. destruct (payload_refused _ _); [apply call_status|]. destruct (negb _); [apply call_status|].
  split_and!; [by apply touches_same|by left|done].
Qed.

Lemma send_ok hw active arguments k : call_ok active k (service_network_send hw active arguments k).
Proof.
  unfold service_network_send. destruct (_ =? 4).
  - destruct (ax_service_memory active) as [b|]; [|apply call_status]. destruct (writable_alias_range _ _ _ _) as [p|]; [|apply call_status].
    destruct (service_frame_send hw _ _) as [net sent] eqn:E. split_and!; [by apply touches_same| |by destruct sent].
    right. eexists (Send hw _). split_and!; [cbn; by rewrite E|done|done].
  - destruct (_ =? 3); [|apply call_status]. destruct (service_driver_write _ _ _ _) as [net written] eqn:E.
    split_and!; [by apply touches_same| |by destruct written]. right. eexists (Write _ _ _). split_and!; [cbn; by rewrite E|done|done].
Qed.

Lemma receive_ok hw active arguments k :
  hardware_ok hw → (∀ i, 0 ≤ argument arguments i) → (∀ b, ax_service_memory active = Some b → 0 ≤ b) →
  call_ok active k (service_network_receive hw active arguments k).
Proof.
  intros Hhw Hargs Hmem. unfold service_network_receive. destruct (_ =? 4).
  { destruct (ax_service_memory active) as [b|] eqn:Eb; [|apply call_status].
    destruct (writable_alias_range _ _ _ _) as [p|] eqn:Ep; [|apply call_status].
    destruct (service_frame_receive hw _ _) as [[net frame] received] eqn:E. split_and!; [| |by destruct received].
    - apply rtc_once. apply touch_poke. intros x Hx. right. exists b. split; [done|].
      apply (lent_range active) in Ep as [? ?]; [|done|done|done].
      enough (Zlength frame = argument arguments 1) as El by lia.
      unfold Zlength. replace (length frame) with (Z.to_nat (argument arguments 1)); [apply Z2Nat.id, Hargs|].
      unfold service_frame_receive in E. symmetry. destruct (_ <? _); [simplify_eq; by rewrite length_read_bytes|].
      destruct (nw_backend _); [simplify_eq; by rewrite length_read_bytes..| |].
      + match type of E with context [hw_receive hw ?bk ?bf] => pose proof (Hhw bk bf) as Hf; destruct (hw_receive hw bk bf) end.
        simplify_eq. cbn in Hf. by rewrite Hf, length_read_bytes.
      + match type of E with context [hw_receive hw ?bk ?bf] => pose proof (Hhw bk bf) as Hf; destruct (hw_receive hw bk bf) end.
        simplify_eq. cbn in Hf. by rewrite Hf, length_read_bytes.
    - right. eexists (Receive hw _). split_and!; [cbn; by rewrite E|done|done]. }
  destruct (_ =? 2).
  { destruct (ax_service_memory active) as [b|] eqn:Eb; [|apply call_status].
    destruct (writable_physical_range _ _ _ _) as [p|] eqn:Ep; [|apply call_status].
    destruct (service_driver_acquire _ _ _ _ _ _) as [net acquired] eqn:E. split_and!; [by apply touches_same| |by destruct acquired].
    apply (lent_range active) in Ep as [Hp ?]; [|done|done|done].
    right. eexists (Acquire _ _ _ _ _). split_and!; [cbn; by rewrite E| |].
    - split; [|apply Hargs]. specialize (Hmem b eq_refl). unfold arena_bytes in Hp. lia.
    - intros ? ? ? ? ? [= <- <- _ _ _]. by exists b. }
  destruct (_ =? 3); [apply call_same; by case_match|]. destruct (_ =? 1); [|apply call_status].
  apply call_same. unfold service_configuration. by destruct (negb _).
Qed.

Lemma serve_ok hw handle call arguments k active d :
  hardware_ok hw → (∀ i, 0 ≤ argument arguments i) → (∀ b, ax_service_memory active = Some b → 0 ≤ b) →
  let r := serve hw handle call arguments (k, active, d) in call_ok active k (r.1.1.1, r.2).
Proof.
  intros Hhw Hargs Hmem. unfold serve.
  assert (∀ r : Kernel * AbiResponse, call_ok active k r → let s := (let '(k, response) := r in ((k, active, d), response)) in
    call_ok active k (s.1.1.1, s.2)) as Hkeep by (by intros []).
  destruct call; try (apply (Hkeep (k, _)), call_status); try (by apply call_same).
  - destruct (_ && _); apply Hkeep; [apply capture_ok|apply log_ok].
  - destruct (_ && _); [apply Hkeep, capture_ok|apply (Hkeep (k, _)), call_status].
  - destruct (_ =? _); [apply Hkeep, send_ok|apply (Hkeep (k, _)), call_status].
  - destruct (_ =? _); [by apply Hkeep, receive_ok|apply (Hkeep (k, _)), call_status].
Qed.

Lemma gate_ok hw handle gate memory k active d :
  hardware_ok hw → (∀ b, ax_service_memory active = Some b → 0 ≤ b) →
  let r := NativeCallGate_dispatch gate (AbiRequest_read memory (ax_data active)) (hw_now hw) (serve hw handle) (k, active, d) in
  call_ok active k (r.1.1.1, r.2).
Proof.
  intros Hhw Hmem. unfold NativeCallGate_dispatch. repeat case_match; try apply call_status.
  apply serve_ok; [done|apply argument_nonneg|done].
Qed.

Lemma read_stream_length cfc form id offset buffer (w w' : World Device Disk) output count total :
  read_blob_stream cfc form id offset buffer w = Returns (w', Ok (output, count, total)) → length output = length buffer.
Proof.
  unfold read_blob_stream, mbind, op_mbind, op_bind, op_get, op_some, op_outcome. intros E.
  repeat (case_match; unfold op_ret, op_fail in *; simplify_eq). by eapply blob_read_length.
Qed.

Lemma reply_same {A} active k r (values : A → list Z) k' response :
  (∀ a, length (values a) = 4%nat) → stream_reply k r values unchanged = Returns (k', response) → call_ok active k (k', response).
Proof.
  intros Hv. unfold stream_reply. destruct r as [[w [a|e]]| |]; [| |done..]; intros [= <- <-];
    (split_and!; [by apply touches_same|by left|]); [apply Hv|done].
Qed.

Lemma stream_ok hw active k k' response :
  dispatch_stream hw active k = Returns (k', response) → call_ok active k (k', response).
Proof.
  unfold dispatch_stream. destruct (StreamRequest_validate _) as [operation|status]; [|intros [= <- <-]; apply call_status].
  destruct (find_handle _ _) as [handle|]; [|intros [= <- <-]; apply call_status].
  destruct (negb _); [intros [= <- <-]; apply call_status|].
  destruct (StreamCall_from_raw _) as [call|]; [|intros [= <- <-]; apply call_status].
  destruct (Z.ltb_spec STREAM_CHUNK_BYTES (sr_length (StreamRequest_read (k_memory k) (ax_data active)))) as [Hlt|Hge];
    [intros [= <- <-]; apply call_status|].
  assert (∀ a : Z * Z, length (let '(x, y) := a in [x; y; 0; 0]) = 4%nat) as Hp by by intros [].
  destruct call; try (apply reply_same; done).
  unfold stream_reply. destruct (read_blob_stream _ _ _ _ _ _) as [[w [[[output count] total]|e]]| |] eqn:E; [| |done..];
    intros [= <- <-]; [|split_and!; [by apply touches_same|by left|done]].
  split_and!; [|by left|done]. apply rtc_once. apply touch_poke. intros x Hx. left.
  apply read_stream_length in E. rewrite length_read_bytes in E. unfold Zlength in Hx. rewrite E in Hx.
  rewrite Z2Nat.id in Hx by apply read_value_nonneg.
  unfold STREAM_CHUNK_BYTES, ABI_PAYLOAD_OFFSET, PAGE_BYTES in *. lia.
Qed.

(** An ABI call as a whole. *)
Lemma abi_ok hw padding active frame k k' active' frame' d :
  hardware_ok hw → (∀ b, ax_service_memory active = Some b → 0 ≤ b) →
  expos_form_abi_interrupt hw padding active frame k = Returns (k', active', frame', d) →
  touches active k k' ∧ asks active k k'.
Proof.
  intros Hhw Hmem. unfold expos_form_abi_interrupt.
  assert (∀ k1 response, call_ok active k (k1, response) →
    touches active k (write_abi_response padding (ax_data active) response k1) ∧
    asks active k (write_abi_response padding (ax_data active) response k1)) as Hw.
  { intros k1 response (Ht & Ha & Hl). split; [|done]. eapply rtc_r; [exact Ht|]. apply touch_poke. intros x Hx. left.
    cbn in Hl. rewrite response_length in Hx by done. unfold ABI_RESPONSE_OFFSET, PAGE_BYTES in *. lia. }
  assert (touches active k k ∧ asks active k k) as Hid by (split; [by apply touches_same|by left]).
  destruct (_ || _); [by intros [= <- <- <- <-]|]. destruct (_ =? STREAM_ABI_MAGIC).
  { destruct (dispatch_stream _ _ _) as [[? ?]| |] eqn:E; [|done..]. intros [= <- <- <- <-]. by eapply Hw, stream_ok. }
  destruct (negb _); [by intros [= <- <- <- <-]|].
  destruct (find_handle _ _) as [handle|]; [|intros [= <- <- <- <-]; apply Hw, call_status].
  match goal with |- context [NativeCallGate_dispatch ?g ?r _ _ _] =>
    pose proof (gate_ok hw handle g (k_memory k) k active DispResume Hhw Hmem) as Hd;
    pose proof (dispatch_run hw handle g r k active DispResume) as Hs;
    destruct (NativeCallGate_dispatch g r (hw_now hw) (serve hw handle) (k, active, DispResume)) as [[[k1 a1] d1] response] end.
  cbn in Hd, Hs. destruct Hs as ([_ Ed _ _ _] & _). intros [= <- <- <- <-]. rewrite Ed. by apply Hw.
Qed.
End calls.

(** ** Lemmas: confinement *)

Section confinement.
Context `{Aead} `{BlockDevice Device Disk} `{NativeStatics} (nx : bool) (t0 : Tables) (kernel_end : Z) (heap : Z * Z)
  (SO : statics_ok t0 kernel_end heap).
Abbreviation Kernel := (Kernel Device Disk).
Abbreviation machine_inv := (machine_inv nx t0 kernel_end heap).
Implicit Types (k : Kernel) (m : Machine) (active : ActiveExecution).

(** The part of [confined] that concerns the machine. *)
Record machine_confined (i : nat) m m' : Prop := {
  mcf_tables : ∀ b n, ¬ owned m i b → mc_tables m' b n = mc_tables m b n;
  mcf_memory : ∀ a, ph_memory (mc_physical m') a ≠ ph_memory (mc_physical m) a → owned m i (page_of a);
  mcf_frames : ph_allocator (mc_physical m') = ph_allocator (mc_physical m) ∧ mc_dynamic_used m' = mc_dynamic_used m;
  mcf_others : ∀ j, j ≠ i → space_at m' j = space_at m j;
  mcf_space : ∃ o, space_at m' i = (space_at m i) <| ns_output := o |> }.

Lemma output_same space (o : option Output) : ns_output space = o → space = space <| ns_output := o |>.
Proof. destruct space. cbn. by intros <-. Qed.

Lemma owned_output m m' i o p : space_at m' i = (space_at m i) <| ns_output := o |> → owned m' i p ↔ owned m i p.
Proof. intros E. unfold owned, code_owned, data_owned, arena_owned, holds. by rewrite E. Qed.

Lemma machine_confined_refl i m : machine_confined i m m.
Proof. constructor; try done. eexists. by apply output_same. Qed.

Lemma machine_confined_trans i m1 m2 m3 :
  machine_confined i m1 m2 → machine_confined i m2 m3 → machine_confined i m1 m3.
Proof.
  intros [A1 A2 [A3 A3'] A4 [o A5]] [B1 B2 [B3 B3'] B4 [o' B5]]. pose proof (λ p, owned_output m1 m2 i o p A5) as Ho.
  constructor.
  - intros b n Hb. rewrite B1, A1 by (done || by rewrite Ho). done.
  - intros a Ha. destruct (decide (ph_memory (mc_physical m2) a = ph_memory (mc_physical m1) a)) as [E|E]; [|by apply A2].
    apply Ho, B2. congruence.
  - split; congruence.
  - intros j Hj. by rewrite B4, A4.
  - exists o'. by rewrite B5, A5.
Qed.

Lemma touch_confined i P m m' :
  (i < length (mc_spaces m))%nat → (∀ x, P x → owned m i (page_of x)) → touch i P m m' → machine_confined i m m'.
Proof.
  intros Hi HP [address data Hd|o].
  - constructor; try done; [|eexists; by apply output_same]. intros a Ha. apply HP, Hd. cbn in Ha. unfold write_bytes in Ha.
    destruct (_ && _) eqn:E; [|done]. bools. lia.
  - constructor; try done.
    + intros j Hj. by rewrite space_at_update, decide_False.
    + exists o. by rewrite space_at_update, decide_True.
Qed.

Lemma touch_inv i P m m' s ns perm : machine_inv m s ns perm None → touch i P m m' → machine_inv m' s ns perm None.
Proof. intros Hm [address data Hd|o]; [by apply inv_memory|by apply output_inv]. Qed.

Lemma touches_confined i (P : Z → Prop) m m' s ns perm :
  machine_inv m s ns perm None → (i < MAX_NATIVE_SPACES)%nat → (∀ x, P x → owned m i (page_of x)) →
  rtc (touch i P) m m' → machine_inv m' s ns perm None ∧ machine_confined i m m'.
Proof.
  intros Hm Hi HP Hr. revert Hm HP. induction Hr as [m|m1 m2 m3 Ht _ IH]; intros Hm HP; [split; [done|apply machine_confined_refl]|].
  assert (machine_confined i m1 m2) as Hc.
  { apply (touch_confined i P); [|done|done]. by rewrite (mi_spaces _ _ _ _ _ _ _ _ _ Hm). }
  destruct IH as [Hm3 Hc3]; [by eapply touch_inv| |].
  - intros x Hx. destruct (mcf_space _ _ _ Hc) as [o Eo]. by apply (owned_output _ _ _ _ _ Eo), HP.
  - split; [done|]. by eapply machine_confined_trans.
Qed.

(** The execution uses the space of its slot. *)
Record runs_in m active : Prop := {
  ri_active : ns_active (space_at m (ax_slot active)) = true;
  ri_data : ax_data active = ns_data_physical (space_at m (ax_slot active));
  ri_service : ax_service_memory active = ns_service (space_at m (ax_slot active)) }.

Lemma runs_in_confined m m' active active' :
  runs_in m active → machine_confined (ax_slot active) m m' → same_run active active' → runs_in m' active'.
Proof.
  intros [R1 R2 R3] Hc [S1 S2 S3 S4 S5]. destruct (mcf_space _ _ _ Hc) as [o Eo].
  constructor; rewrite ?S1, ?S2, ?S4, Eo; done.
Qed.

Lemma page_of_in p x : p mod PAGE = 0 → p ≤ x < p + PAGE_BYTES → page_of x = p.
Proof. unfold page_of, PAGE, PAGE_BYTES. intros Hp Hx. pose proof (Z.div_mod p 4096). pose proof (Z.div_mod x 4096). pose proof (Z.mod_pos_bound x 4096). lia. Qed.

Lemma shared_owned m active s ns perm x :
  machine_inv m s ns perm None → runs_in m active → shared active x → owned m (ax_slot active) (page_of x).
Proof.
  intros Hm [Ha Hd Hs] Hx. pose proof (active_slot m _ (mi_spaces _ _ _ _ _ _ _ _ _ Hm) Ha) as Hi.
  destruct Hx as [Hx|(b & Hb & Hx)].
  - destruct (st_data _ _ _ _ (mi_tables _ _ _ _ _ _ _ _ _ Hm _ Ha I)) as [Ho _]. rewrite <- Hd in Ho.
    assert (owned m (ax_slot active) (ax_data active)) as Ho' by (right; by left).
    destruct (owned_address nx t0 kernel_end heap SO m s ns perm Hm _ _ Hi Ho') as [_ Hp]. by rewrite (page_of_in (ax_data active)).
  - rewrite Hs in Hb. destruct (mi_arena _ _ _ _ _ _ _ _ _ Hm _ _ Hb) as ([_ Hp] & _).
    right. right. exists b, ((x - arena_bytes b) / PAGE_BYTES).
    pose proof (Z.div_mod b 4096). pose proof (Z.div_mod x 4096). pose proof (Z.div_mod (x - arena_bytes b) 4096).
    pose proof (Z.mod_pos_bound x 4096). pose proof (Z.mod_pos_bound (x - arena_bytes b) 4096).
    unfold page_of, arena_bytes, PAGE, PAGE_BYTES, MEMORY_BYTES in *. split_and!; [done|lia|lia|lia].
Qed.

Lemma arena_byte_output m m' i o x :
  space_at m' i = (space_at m i) <| ns_output := o |> → arena_byte m' i x ↔ arena_byte m i x.
Proof. intros E. unfold arena_byte. by rewrite E. Qed.

Lemma asks_dma k k' active :
  runs_in (k_machine k) active → machine_confined (ax_slot active) (k_machine k) (k_machine k') → asks active k k' →
  lent k (ax_slot active) → lent k' (ax_slot active) ∧
    ∀ register offset bytes, dma_register register offset bytes →
      let port := nw_io_base (net_stack (k_net k)) + register in
      nic_out (net_nic (k_net k')) port ≠ nic_out (net_nic (k_net k)) port →
      ∃ v, nic_out (net_nic (k_net k')) port = Some v ∧ ∀ x, v ≤ x < v + bytes → arena_byte (k_machine k) (ax_slot active) x.
Proof.
  intros [_ _ Hserv] Hc Ha (net0 & lease & Hinv & Hrange). destruct (mcf_space _ _ _ Hc) as [o Eo].
  pose proof (λ x, arena_byte_output _ _ _ _ x Eo) as Hb.
  destruct Ha as [E|(call & E & Hok & Hacq)].
  - split; [exists net0, lease; rewrite E; setoid_rewrite Hb; done|]. rewrite E. done.
  - destruct (portal_step_inv net0 _ _ call Hinv Hok) as [Hinv' Hcard]. rewrite <- E in Hinv', Hcard. split.
    + exists net0, (lease_after (k_net k) lease call). split; [done|]. setoid_rewrite Hb. intros start length El x Hx.
      destruct call as [p a r t c|? ? ?| |? ?|? ?]; cbn in El; try done; try by eapply Hrange.
      destruct (service_driver_acquire p a r t c (k_net k)).2; [|by eapply Hrange]. simplify_eq.
      destruct (Hacq _ _ _ _ _ eq_refl) as (b & Eb & ? & ?). exists b. rewrite <- Hserv, Eb. split; [done|lia].
    + intros register offset bytes Hr port Hne.
      destruct (cs_address _ _ _ Hcard register offset bytes Hr Hne) as (start & length & -> & Ev & Hle & _).
      exists (start + offset). split; [done|]. intros x Hx. eapply Hrange; [done|].
      assert (0 ≤ offset) by (destruct Hr; unfold RX_BUFFER_SIZE, RX_RING_SIZE, MAX_FRAME_SIZE; lia). lia.
Qed.

Lemma asks_net k k' active : asks active k k' → nw_io_base (net_stack (k_net k')) = nw_io_base (net_stack (k_net k)).
Proof. intros [->|(call & -> & _)]; [done|]. apply stack_fixed. Qed.

Lemma confined_intro k k' active :
  runs_in (k_machine k) active → machine_confined (ax_slot active) (k_machine k) (k_machine k') → asks active k k' →
  confined (ax_slot active) k k'.
Proof.
  intros Hr Hc Ha. pose proof Hc as [A1 A2 A3 A4 A5]. constructor; try done; [by apply asks_dma|by eapply asks_net].
Qed.

Lemma confined_trans i k1 k2 k3 : confined i k1 k2 → confined i k2 k3 → confined i k1 k3.
Proof.
  intros C1 C2.
  assert (machine_confined i (k_machine k1) (k_machine k3)) as [A1 A2 A3 A4 A5].
  { apply (machine_confined_trans i _ (k_machine k2)); [by destruct C1|by destruct C2]. }
  destruct (cf_space _ _ _ C1) as [o Eo]. constructor; try done; [|by rewrite (cf_net _ _ _ C2), (cf_net _ _ _ C1)].
  intros Hl. destruct (cf_dma _ _ _ C1 Hl) as [Hl2 H12]. destruct (cf_dma _ _ _ C2 Hl2) as [Hl3 H23]. split; [done|].
  intros register offset bytes Hr port Hne. pose proof (H23 register offset bytes Hr) as H23'. rewrite (cf_net _ _ _ C1) in H23'.
  destruct (decide (nic_out (net_nic (k_net k3)) port = nic_out (net_nic (k_net k2)) port)) as [E|E].
  - rewrite E in *. by apply (H12 register offset bytes Hr).
  - destruct (H23' E) as (v & Ev & Hv). exists v. split; [done|]. intros x Hx. by apply (arena_byte_output _ _ _ _ _ Eo), Hv.
Qed.

(** A slice as steps of the machine. *)
Lemma touches_steps i P m m' : rtc (touch i P) m m' → rtc (machine_step nx heap) m m'.
Proof.
  induction 1 as [|m1 m2 m3 Ht _ IH]; [done|]. eapply rtc_l; [|exact IH].
  destruct Ht as [address data _|o]; [exact (step_bytes nx heap m1 _)|apply step_reply].
Qed.

(** One trap, and one store of the Form itself. *)
Lemma trap_confined trap k active k' active' d s ns perm :
  machine_inv (k_machine k) s ns perm None → runs_in (k_machine k) active → from_ring3 trap →
  handle_trap trap (k, active) = Returns (k', active', d) →
  machine_inv (k_machine k') s ns perm None ∧ runs_in (k_machine k') active' ∧ same_run active active' ∧
  confined (ax_slot active) k k' ∧ rtc (machine_step nx heap) (k_machine k) (k_machine k').
Proof.
  intros Hm Hr Hring E.
  assert (touches active k k' ∧ asks active k k' ∧ same_run active active') as (Ht & Ha & Hs).
  { destruct trap as [frame|hw padding frame|vector cs]; cbn in E.
    - assert (same_run active (expos_form_timer_interrupt active frame).1) as Hs.
      { unfold expos_form_timer_interrupt. repeat case_match; done. }
      destruct (expos_form_timer_interrupt _ _). simplify_eq. split_and!; [by apply touches_same|by left|done].
    - destruct (expos_form_abi_interrupt _ _ _ _ _) as [[[[? ?] ?] ?]| |] eqn:Ea; simplify_eq.
      pose proof (abi_run _ _ _ _ _ _ _ _ _ Ea) as [Hs _]. apply abi_ok in Ea as [? ?]; [done|done|].
      intros b Hb. rewrite (ri_service _ _ Hr) in Hb. by destruct (mi_arena _ _ _ _ _ _ _ _ _ Hm _ _ Hb) as ([? _] & _); lia.
    - unfold expos_form_fault_interrupt in E. cbn in Hring. rewrite Hring in E. cbn in E. simplify_eq.
      split_and!; [by apply touches_same|by left|done]. }
  pose proof (active_slot _ _ (mi_spaces _ _ _ _ _ _ _ _ _ Hm) (ri_active _ _ Hr)) as Hi.
  destruct (touches_confined (ax_slot active) (shared active) _ (k_machine k') _ _ _ Hm Hi) as [Hm' Hc]; [|done|].
  - intros x Hx. by eapply shared_owned.
  - split_and!; [done|by eapply runs_in_confined|done|by apply confined_intro|by eapply touches_steps].
Qed.

Lemma store_confined k active a acc f t s ns perm :
  machine_inv (k_machine k) s ns perm None → runs_in (k_machine k) active →
  user_access (k_machine k) (ax_slot active) a acc → (∀ b n, b ≠ ac_page acc → t b n = mc_tables (k_machine k) b n) →
  (∀ x, ¬ (ac_page acc ≤ x < ac_page acc + PAGE_BYTES) → f (k_memory k) x = k_memory k x) →
  let k' := k <| k_machine := with_memory ((k_machine k) <| mc_tables := t |>) f |> in
  machine_inv (k_machine k') s ns perm None ∧ confined (ax_slot active) k k'.
Proof.
  intros Hm Hr Hu Ht Hf k'. split; [by eapply store_inv|].
  destruct (access_user nx t0 kernel_end heap SO _ _ _ _ Hm _ _ _ Hu) as (Hi & p & w & x & Ho & -> & _). cbn in Ht, Hf.
  apply confined_intro; [done| |by left]. constructor; try done; [| |eexists; by apply output_same].
  - intros b n Hb. apply Ht. by intros ->.
  - intros y Hy. destruct (owned_address nx t0 kernel_end heap SO _ _ _ _ Hm _ _ Hi Ho) as [_ Hp].
    destruct (decide (p ≤ y < p + PAGE_BYTES)) as [Hin|Hout]; [by rewrite (page_of_in p)|]. by destruct Hy; apply Hf.
Qed.

Lemma run_confined st st' s ns perm :
  rtc form_step st st' → machine_inv (k_machine st.1) s ns perm None → runs_in (k_machine st.1) st.2 →
  machine_inv (k_machine st'.1) s ns perm None ∧ runs_in (k_machine st'.1) st'.2 ∧ same_run st.2 st'.2 ∧
  confined (ax_slot st.2) st.1 st'.1 ∧ rtc (machine_step nx heap) (k_machine st.1) (k_machine st'.1).
Proof.
  intros Hrun. induction Hrun as [st|st1 st2 st3 Hs _ IH]; intros Hm Hr.
  - split_and!; [done|done|done| |done]. apply confined_intro; [done|apply machine_confined_refl|by left].
  - assert (machine_inv (k_machine st2.1) s ns perm None ∧ runs_in (k_machine st2.1) st2.2 ∧ same_run st1.2 st2.2 ∧
      confined (ax_slot st1.2) st1.1 st2.1 ∧ rtc (machine_step nx heap) (k_machine st1.1) (k_machine st2.1))
      as (Hm2 & Hr2 & [S1 S2 S3 S4 S5] & Hc & Hstep).
    { destruct Hs as [k active a acc f t Hu Hw Ht Hf|trap k active k' active' Hring E]; cbn in *.
      - destruct (store_confined k active a acc f t _ _ _ Hm Hr Hu Ht Hf) as [Hm' Hc]. split_and!; [done| |done|done|].
        + destruct Hr as [R1 R2 R3]. by constructor.
        + apply rtc_once. by eapply step_store.
      - by eapply trap_confined. }
    destruct (IH Hm2 Hr2) as (Hm3 & Hr3 & [T1 T2 T3 T4 T5] & Hc3 & Hstep3). rewrite S1 in Hc3.
    split_and!; [done|done|constructor; congruence|by eapply confined_trans|by etrans].
Qed.

End confinement.

(** ** Properties *)


#[local] Existing Instance demo_aead.
#[local] Existing Instance demo_statics.

