(* ===== verification/FormAuthority.v ===== *)
(** * What a running Form is allowed to ask

    The calls of FormTrap.v against the broker: whatever an ABI or stream call changes
    in the kernel, the Form holds a live Handle with the right for it.  And one call
    sequence that the rights allow and the kernel does not survive. *)

From stdpp Require Import prelude list functions strings.
From Stdlib Require Import ZArith Lia.
From S2P Require Import Prelude Identity Bytes Blob ExpFs Capability Context Abi NativeImage Crypto StoreCodec StoreRoundtrip StoreDisk Store StoreCrash Frames Paging ServiceImage FormSpace FormLoad FormMachine FormPrepare FormIsolation NetPortal FormTrap FormConfined.

Set Default Goal Selector "!".
Open Scope Z_scope.
Open Scope expos_scope.

(** ** Specification *)

(** One of the Handles the Form was started with is live in the broker and carries the
    right [operation] on its target. *)
Definition authorized (active : ActiveExecution) (operation : Operations) (now : Z) : Prop :=
  ∃ handle h, handle ∈ ax_handles active ∧ handle_by_id (ax_broker active) (fh_id handle) = Some h ∧
    grants h (fh_target handle) (ax_dimension active) operation now.

(** The network calls also need the Handle the worker was given for them. *)
Definition network_authorized (active : ActiveExecution) (now : Z) : Prop :=
  ∃ handle h, handle ∈ ax_handles active ∧ fh_id handle = fh_id (nth 2 (ax_handles active) empty_handle) ∧
    handle_by_id (ax_broker active) (fh_id handle) = Some h ∧
    grants h (fh_target handle) (ax_dimension active) Ops_NETWORK now.

Section authority.
Context `{Aead} `{BlockDevice Device Disk} `{NativeStatics}.
Abbreviation Kernel := (Kernel Device Disk).
Implicit Types (k : Kernel) (hw : Hardware) (active : ActiveExecution).

(** What a call changed, with the right it takes. *)
Record mediated active (now : Z) k k' (d : Disposition) : Prop := {
  md_console : k_console k' ≠ k_console k → authorized active Ops_READ now;
  md_output : ns_output (space_at (k_machine k') (ax_slot active)) ≠ ns_output (space_at (k_machine k) (ax_slot active)) →
    authorized active Ops_READ now ∨ authorized active Ops_EXECUTE now;
  md_net : k_net k' ≠ k_net k → network_authorized active now;
  md_store : k_store k' ≠ k_store k → authorized active Ops_READ now ∨ authorized active Ops_CONFIGURE now;
  md_disk : w_disk (k_store k') ≠ w_disk (k_store k) → authorized active Ops_CONFIGURE now;
  md_end : d = DispPreempt ∨ d = DispExit → authorized active Ops_EXECUTE now;
  md_memory : ∀ a, k_memory k' a ≠ k_memory k a →
    ax_data active + ABI_RESPONSE_OFFSET ≤ a < ax_data active + ABI_RESPONSE_OFFSET + 40 ∨
    network_authorized active now ∨ authorized active Ops_READ now }.

(** ** Lemmas *)

Lemma mediated_same active now k k' d :
  k_console k' = k_console k → k_machine k' = k_machine k → k_net k' = k_net k → k_store k' = k_store k →
  (d = DispResume ∨ d = DispFault) → mediated active now k k' d.
Proof.
  intros E1 E2 E3 E4 Hd. constructor; rewrite ?E1, ?E2, ?E3, ?E4; try done.
  - by destruct Hd as [->| ->]; intros [?|?].
  - unfold k_memory. by rewrite E2.
Qed.

Lemma find_handle_Some handles id handle : find_handle handles id = Some handle → handle ∈ handles ∧ fh_id handle = id.
Proof.
  unfold find_handle. intros [Hin Hb]%List.find_some. bools. split; [by apply list_elem_of_In|done].
Qed.

(** The store operations that only read leave the disk alone. *)
Lemma open_disk cfc form writable (w w' : World Device Disk) r :
  open_blob_stream cfc form writable w = Returns (w', r) → w_disk w' = w_disk w.
Proof.
  unfold open_blob_stream, mbind, op_mbind, op_bind, op_get, op_some. intros E.
  repeat (case_match; unfold op_ret, op_fail in *; simplify_eq); done.
Qed.

Lemma read_store cfc form id offset buffer (w w' : World Device Disk) r :
  read_blob_stream cfc form id offset buffer w = Returns (w', r) → w' = w.
Proof.
  unfold read_blob_stream, mbind, op_mbind, op_bind, op_get, op_some, op_outcome. intros E.
  repeat (case_match; unfold op_ret, op_fail in *; simplify_eq); done.
Qed.

Lemma mediated_respond active now k k1 d padding response :
  mediated active now k k1 d → length (resp_values response) = 4%nat →
  mediated active now k (write_abi_response padding (ax_data active) response k1) d.
Proof.
  intros [M1 M2 M3 M4 M5 M6 M7] Hl. constructor; try done. intros a Ha.
  destruct (decide (k_memory k1 a = k_memory k a)) as [E|E]; [|by apply M7]. left.
  change (write_bytes (k_memory k1) (ax_data active + ABI_RESPONSE_OFFSET) (AbiResponse_bytes padding response) a ≠ k_memory k a) in Ha.
  unfold write_bytes in Ha. rewrite response_length in Ha by done.
  destruct (_ && _) eqn:Eb; [bools; lia|done].
Qed.

(** A call the gate lets through. *)
Lemma serve_mediated hw handle call arguments k active h :
  handle ∈ ax_handles active → handle_by_id (ax_broker active) (fh_id handle) = Some h →
  grants h (fh_target handle) (ax_dimension active) (AbiCall_operation call) (hw_now hw) →
  let r := serve hw handle call arguments (k, active, DispResume) in
  mediated active (hw_now hw) k r.1.1.1 r.1.2.
Proof.
  intros Hin Hh Hg. assert (authorized active (AbiCall_operation call) (hw_now hw)) as Ha by by exists handle, h.
  assert (∀ k', k_console k' = k_console k → k_machine k' = k_machine k → k_store k' = k_store k →
    fh_id handle = fh_id (nth 2 (ax_handles active) empty_handle) → AbiCall_operation call = Ops_NETWORK →
    mediated active (hw_now hw) k k' DispResume) as Hnet.
  { intros k' E1 E2 E3 Ei Eo. constructor; rewrite ?E1, ?E2, ?E3; try done.
    - exists handle, h. rewrite <- Eo. done.
    - by intros [?|?].
    - unfold k_memory. by rewrite E2. }
  assert (∀ arguments, AbiCall_operation call = Ops_READ ∨ AbiCall_operation call = Ops_EXECUTE →
    mediated active (hw_now hw) k (capture_reply (ax_slot active) (ax_data active) arguments k).1 DispResume) as Hcap.
  { intros args Ho. unfold capture_reply. destruct (payload_refused _ _); [apply mediated_same; auto|].
    destruct (_ <? _); [apply mediated_same; auto|]. constructor; try done; [|by intros [?|?]].
    intros _. destruct Ho as [<-|<-]; auto. }
  unfold serve. destruct call; cbn in Ha; try (apply mediated_same; by auto).
  - destruct (_ && _).
    + specialize (Hcap arguments (or_introl eq_refl)). by destruct (capture_reply _ _ _ _).
    + unfold service_log. destruct (payload_refused _ _); [apply mediated_same; auto|].
      destruct (negb _); [apply mediated_same; auto|]. constructor; try done. by intros [?|?].
  - destruct (_ && _); [|apply mediated_same; auto].
    specialize (Hcap arguments (or_intror eq_refl)). by destruct (capture_reply _ _ _ _).
  - by constructor.
  - by constructor.
  - destruct (Z.eqb_spec (fh_id handle) (fh_id (nth 2 (ax_handles active) empty_handle))); [|apply mediated_same; auto].
    unfold service_network_send. repeat case_match; simplify_eq; by apply Hnet.
  - destruct (Z.eqb_spec (fh_id handle) (fh_id (nth 2 (ax_handles active) empty_handle))) as [Ei|]; [|apply mediated_same; auto].
    assert (network_authorized active (hw_now hw)) as Hn by by exists handle, h.
    unfold service_network_receive. repeat case_match; simplify_eq; try (by apply Hnet);
      (constructor; try done; [by intros [?|?]|by right; left]).
Qed.

Lemma reply_mediated {A} active now k r (values : A → list Z) k' response :
  stream_reply k r values unchanged = Returns (k', response) → authorized active Ops_CONFIGURE now →
  mediated active now k k' DispResume.
Proof.
  intros E Ha. unfold stream_reply in E. destruct r as [[w [a|e]]| |]; simplify_eq;
    (constructor; try done; [by right|by intros [?|?]]).
Qed.

Lemma stream_mediated hw active k k' response :
  dispatch_stream hw active k = Returns (k', response) → mediated active (hw_now hw) k k' DispResume.
Proof.
  assert (mediated active (hw_now hw) k k DispResume) as Hid by (apply mediated_same; auto).
  unfold dispatch_stream. destruct (StreamRequest_validate _) as [operation|status] eqn:Ev; [|by intros [= <- <-]].
  destruct (find_handle _ _) as [handle|] eqn:Ef; [|by intros [= <- <-]].
  destruct (negb _) eqn:Eauth; [by intros [= <- <-]|]. apply negb_false_iff, is_ok_unit in Eauth.
  apply authorize_requester_spec in Eauth as (h & Hh & _ & Hg). apply find_handle_Some in Ef as [Hin _].
  assert (authorized active operation (hw_now hw)) as Ha by by exists handle, h.
  unfold StreamRequest_validate in Ev. destruct (_ || _) in Ev; [done|]. destruct (_ >? _) in Ev; [done|].
  destruct (StreamCall_from_raw _) as [call|]; [|done]. destruct (_ <? _); [by intros [= <- <-]|].
  destruct call; simplify_eq; try (intros E; by eapply reply_mediated).
  - unfold stream_reply. destruct (open_blob_stream _ _ _ _) as [[w [a|e]]| |] eqn:E; [| |done..]; intros [= <- <-];
      apply open_disk in E; (constructor; try done; [by left|by intros [?|?]]).
  - unfold stream_reply. destruct (read_blob_stream _ _ _ _ _ _) as [[w [[[o c] t]|e]]| |] eqn:E; [| |done..]; intros [= <- <-];
      apply read_store in E; subst w; (constructor; try done; try (by intros [?|?]); intros; by right; right).
Qed.

(** Every response has four values. *)
Lemma serve_values hw handle call arguments k active d : length (resp_values (serve hw handle call arguments (k, active, d)).2) = 4%nat.
Proof.
  assert (∀ values, service_configuration hw (k_net k) = Ok values → length values = 4%nat) as Hc.
  { intros values. unfold service_configuration. destruct (negb _); [done|]. by intros [= <-]. }
  unfold serve, capture_reply, service_log, service_network_send, service_network_receive.
  destruct call; repeat case_match; simplify_eq; cbn; auto.
Qed.

(** The gate runs [serve] for the holder of the right only. *)
Lemma gate_mediated hw handle request k active :
  broker_wf (ax_broker active) → handle ∈ ax_handles active → fh_id handle = ar_handle_id request →
  let gate := MkGate (ax_broker active) (ax_cfc active) (fh_target handle) (ax_dimension active) in
  let r := NativeCallGate_dispatch gate request (hw_now hw) (serve hw handle) (k, active, DispResume) in
  mediated active (hw_now hw) k r.1.1.1 r.1.2 ∧ length (resp_values r.2) = 4%nat.
Proof.
  intros Hw Hin Hid gate. assert (mediated active (hw_now hw) k k DispResume) as Hsame by (apply mediated_same; auto).
  unfold NativeCallGate_dispatch. pose proof (validate_spec request) as Hv.
  destruct (AbiRequest_validate request) as [o|status]; [|done]. destruct Hv as (_ & call & Hcall & ->). rewrite Hcall.
  destruct (_ || _); [done|]. pose proof (gate_checks_spec gate request (hw_now hw) call Hw) as Hc.
  destruct (_ || _) in Hc |- *; [done|]. destruct (proj1 Hc eq_refl) as (h & Hh & _ & _ & Hg). cbn in Hh, Hg. rewrite <- Hid in Hh.
  split; [by eapply serve_mediated|apply serve_values].
Qed.
End authority.

(** ** Properties *)

(** C11. Complete mediation of the traps.  Whatever an ABI or stream call of a running
    Form changes takes a live Handle among those the Form was started with: printing
    takes the right to read, a reply the right to read or execute, the network the
    right to the network on the worker's own network Handle, the blob streams the
    right to read or configure, and the disk the right to configure; yielding and
    exiting take the right to execute.  Without a right only the forty bytes of the
    response change. *)
Theorem traps_mediated `{Aead} `{BlockDevice Device Disk} `{NativeStatics} hw padding active frame (k k' : Kernel Device Disk)
    active' frame' d :
  broker_reachable (ax_broker active) →
  expos_form_abi_interrupt hw padding active frame k = Returns (k', active', frame', d) →
  mediated active (hw_now hw) k k' d.
Proof.
  intros Hw%broker_reachable_wf. unfold expos_form_abi_interrupt.
  destruct (_ || _); [intros [= <- <- <- <-]; apply mediated_same; auto|]. destruct (_ =? STREAM_ABI_MAGIC).
  { destruct (dispatch_stream _ _ _) as [[k1 response]| |] eqn:E; [|done..]. intros [= <- <- <- <-].
    apply mediated_respond; [by eapply stream_mediated|]. by apply (stream_ok) in E as (_ & _ & ?). }
  destruct (negb _); [intros [= <- <- <- <-]; apply mediated_same; auto|].
  destruct (find_handle _ _) as [handle|] eqn:Ef;
    [|intros [= <- <- <- <-]; apply mediated_respond; [apply mediated_same; auto|done]].
  apply find_handle_Some in Ef as [Hin Hid].
  match goal with |- context [NativeCallGate_dispatch ?g ?r _ _ _] =>
    pose proof (gate_mediated hw handle r k active Hw Hin Hid) as [Hm Hl];
    pose proof (dispatch_run hw handle g r k active DispResume) as [[_ Ed _ _ _] _];
    destruct (NativeCallGate_dispatch g r (hw_now hw) (serve hw handle) (k, active, DispResume)) as [[[k1 a1] d1] response] end.
  cbn in Hm, Hl, Ed. intros [= <- <- <- <-]. rewrite Ed. by apply mediated_respond.
Qed.

(** ** A call sequence that stops the kernel *)

Section panic.
Context `{Aead} `{BlockDevice Device Disk} `{NativeStatics}.
Abbreviation Kernel := (Kernel Device Disk).
Implicit Types (k : Kernel) (hw : Hardware) (active : ActiveExecution).

(** The Form may read and configure the target of [handle]. *)
Record can_stream active (handle : FormHandle) (now : Z) : Prop := {
  cst_handle : find_handle (ax_handles active) (fh_id handle) = Some handle;
  cst_id : fh_id handle ≠ 0;
  cst_right : ∀ operation, operation = Ops_READ ∨ operation = Ops_CONFIGURE →
    CapabilityBroker_authorize_requester (ax_broker active) (fh_id handle) (ax_form active) (fh_target handle)
      (ax_dimension active) operation now = Ok tt }.

(** The page shared with the kernel holds this request. *)
Record names_call k active (handle : FormHandle) (call : StreamCall) (id offset length : Z) : Prop := {
  nc_version : sr_version (StreamRequest_read (k_memory k) (ax_data active)) = STREAM_ABI_VERSION;
  nc_caller : Fin_is_zero (sr_caller (StreamRequest_read (k_memory k) (ax_data active))) = false;
  nc_handle : sr_handle_id (StreamRequest_read (k_memory k) (ax_data active)) = fh_id handle;
  nc_call : sr_call (StreamRequest_read (k_memory k) (ax_data active)) = StreamCall_as_u16 call;
  nc_id : sr_stream_id (StreamRequest_read (k_memory k) (ax_data active)) = id;
  nc_offset : sr_offset (StreamRequest_read (k_memory k) (ax_data active)) = offset;
  nc_length : sr_length (StreamRequest_read (k_memory k) (ax_data active)) = length }.

(** A stream call that names a Handle with its right reaches the store. *)
Lemma stream_reaches hw active k handle call id offset length :
  can_stream active handle (hw_now hw) → names_call k active handle call id offset length → length ≤ STREAM_CHUNK_BYTES →
  dispatch_stream hw active k =
    let transfer := ax_data active + ABI_PAYLOAD_OFFSET in
    let buffer := read_bytes (k_memory k) transfer (Z.to_nat length) in
    match call with
    | Stream_WriteChunk =>
        stream_reply k (write_blob_stream (ax_cfc active) (fh_target handle) id (Z.to_nat offset) buffer (k_store k))
          (λ end_, [end_; 0; 0; 0]) unchanged
    | Stream_ReadChunk =>
        stream_reply k (read_blob_stream (ax_cfc active) (fh_target handle) id (Z.to_nat offset) buffer (k_store k))
          (λ '(_, count, total), [Z.of_nat count; Z.of_nat total; ABI_PAYLOAD_OFFSET; 0])
          (λ '(output, _, _) k, k_poke k transfer output)
    | _ => dispatch_stream hw active k
    end.
Proof.
  intros [Hf Hid Hright] [N1 N2 N3 N4 N5 N6 N7] Hl. unfold dispatch_stream, StreamRequest_validate. rewrite N1, N2, N3, N4, N5, N6, N7.
  rewrite bool_decide_eq_true_2, (bool_decide_eq_false_2 (fh_id handle = 0)), Z.gtb_ltb, (proj2 (Z.ltb_ge _ _) Hl), Hf by done.
  cbn [negb orb]. destruct call; try done; cbn [StreamCall_as_u16 StreamCall_from_raw]; rewrite Hright by auto; done.
Qed.

(** The slot found by [position] is the stream [find] returns. *)
Lemma find_inserted (p : BlobStream → bool) (streams : slots BlobStream) index stream :
  position (λ slot, match slot with Some s => p s | None => false end) streams = Some index → p stream = true →
  find p (flatten (<[index := Some stream]> streams)) = Some stream.
Proof.
  revert index. induction streams as [|[s|] streams IH]; intros index; cbn; [done| |].
  - destruct (p s) eqn:Es; [intros [= <-] Hp; cbn; by rewrite Hp|].
    destruct (position _ streams) as [j|]; [|done]. intros [= <-] Hp. cbn. rewrite Es. by apply IH.
  - destruct (position _ streams) as [j|]; [|done]. intros [= <-] Hp. cbn. by apply IH.
Qed.

(** Writing the first bytes of a longer blob drops its other chunks. *)
Lemma write_drops cfc form id bytes (w : World Device Disk) index stream :
  position (stream_slot_is cfc form id) (w_streams w) = Some index → w_streams w !! index = Some (Some stream) →
  bs_writable stream = true → blob_wf (bs_content stream) → (BLOB_CHUNK_BYTES < bl_len (bs_content stream))%nat →
  (0 < length bytes ≤ BLOB_CHUNK_BYTES)%nat →
  ∃ chunk, write_blob_stream cfc form id 0 bytes w =
    Returns (w <| w_streams := <[index := Some (stream <| bs_content := MkBlob [chunk] (bl_len (bs_content stream)) |>)]> (w_streams w) |>,
             Ok (Zlength bytes)).
Proof.
  intros Hp Hi Hw Hb Hl Hlen. assert (Z.of_nat BLOB_CHUNK_BYTES = 4096) as Hcb by reflexivity.
  assert (Zlength bytes ≤ 4096) as Hz by (unfold Zlength; lia).
  destruct (write_spec (bs_content stream) 0 bytes (bw_chunks _ Hb)) as (chunks & E & _ & El & _);
    [unfold usize_max, u64_max; lia|].
  assert (length chunks = 1%nat) as E1.
  { rewrite El. pose proof (div_ceil_spec (0 + length bytes)) as Hd. nia. }
  destruct chunks as [|chunk [|]]; try done. exists chunk.
  unfold write_blob_stream, mbind, op_mbind, op_bind, op_get, op_some. rewrite Hp. unfold op_ret, op_expect, op_ret.
  rewrite Hi. cbn [mjoin option_join]. unfold op_ret. rewrite Hw. cbn [negb]. unfold checked_add. cbn [Z.of_nat Z.add].
  rewrite Z.add_0_l, (proj2 (Z.leb_le _ usize_max)) by (unfold usize_max, u64_max; lia).
  rewrite (proj2 (Z.leb_le _ FORM_CONTENT_CAPACITY)) by (change FORM_CONTENT_CAPACITY with 32768; lia).
  rewrite E. rewrite Nat.max_l by lia. reflexivity.
Qed.

Lemma read_dropped cfc form id buffer (w : World Device Disk) stream chunk len :
  find (stream_is cfc form id) (flatten (w_streams w)) = Some stream → bs_content stream = MkBlob [chunk] len →
  (BLOB_CHUNK_BYTES < len)%nat → (0 < length buffer)%nat →
  read_blob_stream cfc form id BLOB_CHUNK_BYTES buffer w = Panics.
Proof.
  intros Hf Ec Hl Hb. unfold read_blob_stream, mbind, op_mbind, op_bind, op_get, op_some. rewrite Hf. unfold op_ret, op_outcome.
  rewrite Ec. unfold ChunkedBlob_read. cbn [bl_len]. rewrite (proj2 (Nat.leb_gt _ _)), (proj2 (Nat.eqb_neq _ _)) by lia. cbn [orb].
  cbn [read_loop]. rewrite (proj2 (Nat.leb_gt _ _)) by lia. rewrite Nat.add_0_r, Nat.div_same by done. reflexivity.
Qed.
End panic.

(** C40. A Form can stop the kernel.  With a blob longer than one chunk open for writing,
    a write of its first bytes is acknowledged, and then every read behind the first
    chunk panics: the store has dropped the chunks it was not asked to touch. *)
Theorem stream_read_panics `{Aead} `{BlockDevice Device Disk} `{NativeStatics} hw padding active frame
    (k : Kernel Device Disk) handle id index stream length :
  can_stream active handle (hw_now hw) → names_call k active handle Stream_WriteChunk id 0 length →
  0 < length ≤ STREAM_CHUNK_BYTES →
  position (stream_slot_is (ax_cfc active) (fh_target handle) id) (w_streams (k_store k)) = Some index →
  w_streams (k_store k) !! index = Some (Some stream) → bs_writable stream = true → blob_wf (bs_content stream) →
  (BLOB_CHUNK_BYTES < bl_len (bs_content stream))%nat →
  tf_rdi frame = ax_data_virtual active → tf_rsi frame = ax_data_virtual active + ABI_RESPONSE_OFFSET →
  tf_rax frame = STREAM_ABI_MAGIC →
  ∃ k1 frame1, expos_form_abi_interrupt hw padding active frame k = Returns (k1, active, frame1, DispResume) ∧
    tf_rax frame1 = AbiStatus_as_u16 AbiOk ∧
    ∀ k2 length', k_store k2 = k_store k1 → 0 < length' ≤ STREAM_CHUNK_BYTES →
      names_call k2 active handle Stream_ReadChunk id (Z.of_nat BLOB_CHUNK_BYTES) length' →
      expos_form_abi_interrupt hw padding active frame k2 = Panics.
Proof.
  intros Hc Hn Hl Hp Hi Hw Hb Hlong E1 E2 E3. unfold expos_form_abi_interrupt.
  rewrite E1, E2, E3, !bool_decide_eq_true_2, Z.eqb_refl by done. cbn [negb orb].
  rewrite (stream_reaches _ _ _ _ _ _ _ _ Hc Hn) by lia. cbv zeta iota.
  destruct (write_drops (ax_cfc active) (fh_target handle) id
    (read_bytes (k_memory k) (ax_data active + ABI_PAYLOAD_OFFSET) (Z.to_nat length)) (k_store k) index stream) as [chunk Ew]; try done.
  { rewrite length_read_bytes. change BLOB_CHUNK_BYTES with (Z.to_nat 4096). unfold STREAM_CHUNK_BYTES in *. lia. }
  change (Z.to_nat 0) with O. rewrite Ew. cbn [stream_reply]. eexists _, _. split_and!; [reflexivity|reflexivity|].
  intros k2 length' Ek Hl' Hn'.
  rewrite (stream_reaches _ _ _ _ _ _ _ _ Hc Hn') by lia. cbv zeta iota. rewrite Nat2Z.id.
  rewrite (read_dropped _ _ _ _ _ (stream <| bs_content := MkBlob [chunk] (bl_len (bs_content stream)) |>) chunk
    (bl_len (bs_content stream))); [reflexivity| |reflexivity|exact Hlong|rewrite length_read_bytes; lia].
  rewrite Ek. cbn [k_store w_streams]. apply find_inserted; [exact Hp|].
  destruct (position_Some _ _ _ Hp) as (x & Ex & Hx). rewrite Hi in Ex. by simplify_eq.
Qed.

#[local] Existing Instance demo_aead.
#[local] Existing Instance demo_statics.

(** A Form with all rights on the Form 5, whose content is open for writing, and a
    request in its page. *)
Definition stream_broker : CapabilityBroker :=
  (CapabilityBroker_issue_for demo_broker0 (Fin_from_u128 7) Operator (Fin_from_u128 5)
     (Fin_from_u128 6) (Operations_union Ops_READ Ops_CONFIGURE) 100).1.
Definition stream_handle : FormHandle :=
  MkHandle 1 0 (CfcFin_from_u128 1) (Fin_from_u128 7) (Fin_from_u128 5) (Fin_from_u128 6)
    (Operations_union Ops_READ Ops_CONFIGURE) 100 false.
Definition stream_active (handle : FormHandle) (broker : CapabilityBroker) : ActiveExecution :=
  MkActive 0 false false 4096 RT_USER_DATA None broker (CfcFin_from_u128 1) (Fin_from_u128 6) (Fin_from_u128 7)
    [handle; handle; empty_handle] demo_tick 0 4 0 0.
Definition stream_page (call offset : Z) : list Z :=
  le_bytes 2 2 ++ le_bytes 2 call ++ Fin_bytes (Fin_from_u128 7) ++ le_bytes 4 1 ++ le_bytes 4 9 ++ le_bytes 4 0 ++
  le_bytes 8 offset ++ le_bytes 4 1 ++ le_bytes 4 0.
Definition stream_kernel (call offset : Z) : Kernel unit (Z → list Z) :=
  MkKernel (MkMachine (MkPhysical Allocator_new (write_bytes (λ _, 0) 4096 (stream_page call offset))) (λ _ _, 0) 0
             (replicate MAX_NATIVE_SPACES NativeSpace_empty))
    ((World_new unit _ (λ _, [])) <| w_streams :=
       [Some (MkStream 9 (CfcFin_from_u128 1) (Fin_from_u128 5) true 1 demo_blob)] |>) demo_net [].
Definition demo_hardware : Hardware := MkHardware (λ _ _, 0) (λ _, true) (λ _ _, Ok tt) (λ _ frame, (frame, Ok 0)) 10 11.
Definition stream_frame : TrapFrame :=
  demo_tick <| tf_rdi := RT_USER_DATA |> <| tf_rsi := RT_USER_DATA + ABI_RESPONSE_OFFSET |> <| tf_rax := STREAM_ABI_MAGIC |>.

Lemma stream_read_panics_witness :
  ∃ k1 frame1, expos_form_abi_interrupt demo_hardware [] (stream_active stream_handle stream_broker) stream_frame (stream_kernel 4 0) =
      Returns (k1, stream_active stream_handle stream_broker, frame1, DispResume) ∧ tf_rax frame1 = 0 ∧
    expos_form_abi_interrupt demo_hardware [] (stream_active stream_handle stream_broker) stream_frame
      ((stream_kernel 3 4096) <| k_store := k_store k1 |>) = Panics.
Proof.
  destruct (stream_read_panics demo_hardware [] (stream_active stream_handle stream_broker) stream_frame (stream_kernel 4 0)
    stream_handle 9 0%nat (MkStream 9 (CfcFin_from_u128 1) (Fin_from_u128 5) true 1 demo_blob) 1) as (k1 & frame1 & E & Ea & Hp).
  - constructor; [reflexivity|discriminate|]. intros operation [->| ->]; vm_compute; reflexivity.
  - constructor; vm_compute; reflexivity.
  - unfold STREAM_CHUNK_BYTES. lia.
  - vm_compute. reflexivity.
  - reflexivity.
  - reflexivity.
  - apply demo_blob_wf.
  - apply Nat.ltb_lt. vm_compute. reflexivity.
  - reflexivity.
  - reflexivity.
  - reflexivity.
  - exists k1, frame1. split_and!; [exact E|exact Ea|]. apply (Hp _ 1); [reflexivity|unfold STREAM_CHUNK_BYTES; lia|].
    constructor; vm_compute; reflexivity.
Defined.

(** The same Form printing two bytes. *)
Definition log_kernel : Kernel unit (Z → list Z) :=
  demo_kernel (MkMachine (MkPhysical Allocator_new (write_bytes (write_bytes (λ _, 0) 4096
      (AbiRequest_bytes (MkAbiRequest 1 1 (Fin_from_u128 7) 1 [256; 2; 0; 0; 0; 0]))) 4352 [104; 105])) (λ _ _, 0) 0
    (replicate MAX_NATIVE_SPACES NativeSpace_empty)).

Lemma traps_mediated_witness :
  ∃ k' frame', expos_form_abi_interrupt demo_hardware [] (stream_active stream_handle stream_broker)
      (stream_frame <| tf_rax := RT_ABI_MAGIC |>) log_kernel =
      Returns (k', stream_active stream_handle stream_broker, frame', DispResume) ∧
    k_console k' = [[104; 105]] ∧ authorized (stream_active stream_handle stream_broker) Ops_READ 10.
Proof.
  set (r := expos_form_abi_interrupt demo_hardware [] (stream_active stream_handle stream_broker)
    (stream_frame <| tf_rax := RT_ABI_MAGIC |>) log_kernel).
  assert (match r with
    | Returns (k', active', _, d) => k_console k' = [[104; 105]] ∧ active' = stream_active stream_handle stream_broker ∧ d = DispResume
    | _ => False
    end) as Hr by (vm_compute; auto).
  destruct r as [[[[k' active'] frame'] d]| |] eqn:E; [|destruct Hr..]. destruct Hr as (Ek & -> & ->).
  assert (broker_reachable stream_broker) as Hb.
  { apply (br_step demo_broker0); [|apply bs_runtime, rs_issue]. apply (br_new (CfcFin_from_u128 1)). vm_compute. reflexivity. }
  pose proof (md_console _ _ _ _ _ (traps_mediated demo_hardware [] (stream_active stream_handle stream_broker) _ _ _ _ _ _ Hb E)) as Hc.
  exists k', frame'. split_and!; [reflexivity|exact Ek|]. apply Hc. rewrite Ek. discriminate.
Defined.
